(* ===== verification/_CoqProject ===== *)
-Q . S2P
Prelude.v
Types.v
Tables.v
Monad.v
Wp.v
Instances.v
Sql.v
File.v
FileSpec.v
FileThms.v
Paths.v
SecafsInode.v
SecafsPath.v
Setup.v
InodeSpec.v
TreeInv.v
SysInv.v
Samples.v
Steps.v
DbInv.v
SetupSpec.v
InodeThms.v
ListingThms.v
Atomic.v
PathSpec.v
PathThms.v
PathData.v
KvStore.v
ToolCalls.v
Snapshot.v
Volume.v
Mounted.v
KvThms.v
ToolThms.v
Journal.v
JournalOps.v
RestoreSpec.v
SnapshotThms.v
RollbackThms.v
VolumeThms.v
Overlay.v
OverlaySpec.v
OverlayInv.v
OverlayThms.v
OverlayCopy.v
Utf8.v
FsClass.v
Fuse.v
FuseThms.v
Xdr.v
Text.v
Rpc.v
NfsTypes.v
Nfs.v
NfsHandlers.v
NfsServer.v
WireThms.v
NfsSafety.v
NfsThms.v
FdTable.v
FdThms.v
Mounts.v
MountThms.v
Guest.v
SandboxCalls.v
SandboxSafety.v
SandboxThms.v
Ratls.v
CcaToken.v
RatlsEngine.v
RatlsApi.v
RatlsThms.v
BootLog.v
Policies.v
Frame.v
BootThms.v
FrameThms.v
Fdt.v
MigMem.v
Virtio.v
