(* ===== verification/Prelude.v ===== *)
(** * SecAFS, RATS-TLS and the migration VM: verified

    This library is a shallow embedding of the core of SecAFS, the database-backed file
    system of [solutions/secafs], of RATS-TLS, the attested connections of
    [solutions/cca-rats-tls], and of the bare-metal VM of [solutions/confidential-migvm],
    with the proofs about them.  The programs modelled are the Rust SDK under
    [src/solutions/secafs/sdk/rust/src], to which paths below are relative, the FUSE and NFS
    servers under [src/solutions/secafs/cli/src], the sandbox under
    [src/solutions/secafs/sandbox/src], the attestation library and its sample client
    and server under [src/solutions/cca-rats-tls/ratls-rust], and the memory and devices of
    the migration VM under [src/solutions/confidential-migvm/src].

    ** The program

    SecAFS keeps a POSIX-like file system in PostgreSQL tables.  [fs_inode] has a row per
    inode, [fs_dentry] a row per name, [fs_data] the file contents cut into chunks of a
    configured size, [fs_symlink] the targets of symbolic links, [fs_config] the
    configuration.  [SecAFS] ([filesystem/secafs.rs]) implements two interfaces on the
    tables: the trait [FileSystem], whose operations take inode numbers and serve FUSE and
    NFS, and inherent methods that take path strings.  They are separate code.  An open
    file is a [SecAFSFile] with its own reads, writes and truncation.  A dentry cache, an
    LRU map from a parent and a name to an inode, is shared by all of them.  Row triggers
    ([snapshot/triggers.rs]) journal before-images of every write to undo tables when the
    connection's volume has rollback enabled.  [OverlayFS] ([filesystem/overlayfs.rs])
    shows a read-only base under a SecAFS delta: it numbers the inodes of both in maps of
    its own, hides base files with whiteouts and copies a base file up before it changes.
    [SecAFSFuse] ([cli/src/fuse.rs]) answers the kernel's requests from any [FileSystem].
    [AgentNFS] ([cli/src/nfs.rs]) shows a [FileSystem] to the NFS version 3 server under
    [cli/src/nfsserve], which reads records from a stream, drops retransmissions, takes the
    caller's credentials from the call, checks them against permission bits and dispatches
    to the NFS, mount and portmap procedures; its messages are XDR.

    The sandbox traces a process with the [reverie] crate and handles its system calls
    ([sandbox/src/syscall]) before the kernel sees them.  Each process has a table of
    descriptors ([vfs/fdtable.rs]) of which an entry is a descriptor of the kernel or a
    virtual file; a table of mounts ([vfs/mount.rs], [bind.rs]) says which paths are
    translated to other paths and which are opened as virtual files.

    RATS-TLS ([ratls-rust/ratls-api/src]) makes TLS connections whose certificates carry
    evidence.  The attested side makes a key, hashes it with the nonce and the key share of
    the handshake into claims, has the platform sign a hash of the claims
    ([attesters/cca]), and puts the evidence into an extension of its certificate
    ([core/engine.rs], [dice.rs], [claims.rs]).  The other side decodes the two CCA tokens of
    the evidence, checks the chain of certificates and signatures from pinned roots to the
    claims ([verifiers/cca]) and asks a callback.  In the sample
    ([ratls-rust/ratls-sample/src]) a client then requests the boot and IMA logs of the
    server in frames, replays them into the attested measurements, compares them with
    baselines, and hands over a key.

    The migration VM boots in a realm without an operating system.  It reads the device tree
    ([fdt.rs]), has the monitor accept its RAM and share a pool with the host ([rsi.rs],
    [mm]), maps windows for PCI devices, and drives a network card and a socket to the host
    through virtqueues ([virtio], [network.rs]).

    ** What models what

    - [Prelude]: machine integers, byte vectors and their lemmas, shared tactics.
    - [Types]: [error.rs]; the errors, errno values, modes, [Stats] and [TimeChange] of
      [filesystem/mod.rs]; the dynamic values and column decoding of [db.rs].
    - [Tables]: the tables of [SecAFS::initialize_schema] and of [snapshot/schema.rs] as
      finite maps, the row writes, and the capture triggers that fire on them.
    - [Monad]: the environment [Env] (failing calls, clock, credentials, collation, the
      [lru] crate), the [state] of one connection, and the effect [M]: state passing with
      [Result] and panics; statements and transactions of [db.rs]; [DentryCache].
    - [Wp]: weakest preconditions, their rules for a [Quiet] environment, tactics.
    - [Instances]: a concrete environment that satisfies every law assumed of [Env].
    - [Sql]: the [SELECT]s and [UPDATE]s of [filesystem/secafs.rs] as functions on tables.
    - [File]: [impl File for SecAFSFile]; [FileSpec] the abstraction [contents] of the
      chunks to a byte string and the refinement lemmas; [FileThms] the theorems.
    - [Paths]: [normalize_path], [split_path] and the [str] operations they use.
    - [SecafsInode]: [impl FileSystem for SecAFS] (module [Fs]) and the shared helpers.
    - [SecafsPath]: the path-based methods of [impl SecAFS] (module [Path]).
    - [Setup]: [from_pool], [initialize_schema], [read_chunk_size]; [SetupSpec] their
      theorems.
    - [InodeSpec]: the effect of each inode-based operation on each table, and the error
      each reports ([create_err], [unlink_err], ..), as equations.
    - [TreeInv], [SysInv]: the invariant of the name space and of the running system, and
      its preservation by the state changes of [InodeSpec].
    - [Steps]: a client as a transition system; every step keeps the invariant.
    - [DbInv]: the part of the invariant that speaks of the tables alone.
    - [Samples]: a small file system, with executable checks of the invariant, for the
      witnesses.
    - [InodeThms], [ListingThms]: theorems on the inode-based operations.
    - [Atomic]: what survives when any call to the database may fail.
    - [PathSpec], [PathThms], [PathData]: the path-based operations.
    - [KvStore], [ToolCalls]: [kvstore.rs] (module [Kv]) and [toolcalls.rs] (module [Tc]);
      [KvThms], [ToolThms] their theorems.
    - [Snapshot]: [snapshot/state.rs], [snapshots.rs] and [restore.rs]; [Volume]:
      [filesystem/volume.rs] and the session settings of a mount ([connection_pool.rs]).
    - [Mounted]: a mounted volume, made by running the model, for the witnesses.
    - [Journal]: what the undo tables mean: replaying the entries newer than a snapshot
      leads from a database back to an earlier one; each row write keeps it.
    - [JournalOps]: every operation of every component keeps the journal, whatever fails.
    - [RestoreSpec], [SnapshotThms]: the symbolic execution of [restore_to] down to that
      replay, and of [commit]; [RollbackThms]: the theorems that join them; enabling,
      disabling, listing.
    - [VolumeThms]: [volume::ensure] and [volume::destroy].
    - [Overlay]: [filesystem/overlayfs.rs] (module [Ov]) over the delta [Fs] and a base that
      is a parameter ([BaseFS]); [OverlaySpec] weakest preconditions for it and the effect
      of its helpers, and a concrete base; [OverlayInv] the invariant of the
      inode maps; [OverlayThms] and [OverlayCopy] the theorems.
    - [FsClass]: the trait [FileSystem] of [filesystem/mod.rs] as a class, with SecAFS and
      the overlay as instances.
    - [Fuse]: [cli/src/fuse.rs] (module [Fuse]) over that class, with the directory buffers
      of [cli/src/fuser/ll/reply.rs]; [FuseThms] its theorems.  [Utf8]: the check of
      [str::from_utf8], which both servers apply to names.
    - [Text]: the operations of [str], [String] and [Path] the components below share.
    - [Xdr]: [nfsserve/xdr.rs] as codecs, a writer and a reader, with a class [Lawful] of
      those that read back what they wrote; [Rpc]: the messages of [rpc.rs] and the memory
      of calls of [transaction_tracker.rs]; [NfsTypes]: the types of [nfs.rs] and
      [mount.rs] and the checks of [permissions.rs].
    - [Nfs]: [cli/src/nfs.rs] and the provided methods of [vfs.rs] (module [Nfs]) over
      [FsClass]; [NfsHandlers]: every procedure of [nfs_handlers.rs] (module [Handlers]),
      from the bytes of a call to the bytes of its reply; [NfsServer]: the mount and portmap
      programs, [handle_rpc] and the record marking of [rpcwire.rs] (module [Server]).
    - [WireThms] (with a served file system and calls to it, for the witnesses), [NfsSafety],
      [NfsThms]: the theorems; [NfsThms] ends with behaviours that are not meant.
    - [FdTable]: [sandbox/src/vfs/fdtable.rs]; [FdThms] its theorems.  [Mounts]: [vfs/mod.rs],
      [bind.rs] and [mount.rs] and the path functions they use; [MountThms] its theorems.
    - [Guest]: the traced process and virtual files as classes, the state of the sandbox
      (the heap of tables and which process has which), and the effect of a handler;
      [SandboxCalls]: every handler of [sandbox/src/syscall] and the dispatch (module
      [Calls]); [SandboxSafety] (with a process and a kernel for the witnesses), [SandboxThms]
      the theorems.
    - [Ratls]: errors and hexadecimal texts of [ratls-api/src/lib.rs], CBOR and JSON values,
      the effect [R], and the crates [ciborium], [coset] and [openssl] as classes with laws;
      [core/dice.rs] and [claims.rs] (module [Dice]); [CcaToken]: [verifiers/cca] (modules [Decode],
      [SwC], [Plat], [Rlm], [Tools], [Token], [Ev], [Verifier]); [RatlsEngine]: the attester,
      the traits of the TLS and cryptography wrappers as records, [core/engine.rs]
      (module [Engine]) and [crypto_wrappers/openssl/mod.rs] (module [OpenSslCrypto]); [RatlsApi]: [api/mod.rs] (module [Api]) with the parser of IP
      addresses.  [RatlsThms] the theorems, with a platform for the witnesses.
    - [BootLog]: [common/event_log.rs] (module [BootLog]) and [ima_log.rs] (module [Ima]) of
      the sample; [Policies]: [firmware_policy.rs] and
      [platform_policy.rs]; [Frame]: [cli.rs], [tls_config.rs] (modules [Cli],
      [TlsConfig]), [frame.rs] (module [Frame]) and the two programs (module [Session]).
      [BootThms] and [FrameThms] the theorems.
    - [Fdt]: [fdt.rs] (module [Fdt]) on a memory of bytes; device trees as values with their
      flattened form and what the reader finds in them (module [Dt]), and what they describe
      by the Devicetree Specification (module [Format]); the theorems.
    - [MigMem]: [rsi.rs] (module [Rsi]), [mm/paging.rs] (module [Paging]), the pool of
      [virtio/mod.rs] (module [Pool]), [mm/mod.rs], [mm/shared.rs] and that part of [main.rs]
      (module [Mm]); [setup_mmu] of [arch/exception.S] and a translation of the Arm
      architecture; the theorems.
    - [Virtio]: [virtio/net.rs] (modules [Queue], [Net]) with the devices of [network.rs],
      and [virtio/vsock.rs] (module [Vsock]); the theorems.

    ** What the theorems show

    - Rollback ([RollbackThms]): a committed snapshot is restored exactly,
      whatever calls ran since; the journal is kept in every environment; committing and
      restoring are atomic, committing and enabling are idempotent; restoring touches only
      rows that were journalled for the volume; disabling forgets one volume's history.
      [restore_leaves_newer_snapshots] and [commit_without_label_fails] state two defects.
    - Volumes ([VolumeThms]): creation keeps the invariant, destruction removes the rows
      reachable from the volume's root and no others, and its recursive queries end.
    - Key-value store and tool calls ([KvThms], [ToolThms]): refinement of a finite map and
      of a log whose times are the readings of the clock, for every sequence of calls, with
      every other table unchanged; well-formed rows; [record_wraps_duration] states an
      overflow.
    - Contents ([FileThms], [PathData]): [pread], [pwrite] and [truncate] of a handle, and
      the different code behind the path-based ones, refine slicing, splicing and resizing
      of a flat byte string, wherever chunk boundaries and holes fall; a read returns what
      a write wrote; [read_file] does not refine it when a file has holes.
    - Opening ([SetupSpec]): on an empty database and on an existing one, [from_pool]
      succeeds and establishes the invariant.
    - Name space ([InodeThms], [ListingThms]): the invariant holds in every state a client
      reaches; creation, removal, linking, renaming and listing do what they promise,
      refuse what they must, and change nothing else; two defects are stated exactly.
    - Failures ([Atomic]): for every pattern of failing calls, the transactional operations
      leave the committed database unchanged or succeed; the others do not, and an error
      inside [SecAFSFile::pwrite] leaves the transaction open.
    - Paths ([PathThms]): normal forms, resolution through the cache equals a walk over the
      directory table, following symlinks, creation and removal by path.

    - Overlay ([OverlayThms], [OverlayCopy]): lookup and listing show the delta over the base
      less the whiteouts; opening a base file for writing copies it up with its contents;
      unlinking hides a base file, also after the overlay is loaded again; an inode number
      keeps its path and is never given to another, and a number in an answer is known.
      Four defects are stated as theorems.
    - FUSE ([FuseThms]): handles are unique and stable over every sequence of requests, for
      any file system; inode numbers translate back and forth; a directory read to its end
      in buffers of any size gives every entry once; what is written through one handle is
      read through another; what each request does with an unknown handle.
    - Wire ([WireThms]): the types of every message are read back as written, with nothing of
      the stream lost, up to the length at which the source panics; a record is put together from any fragments; handles lead back to their file
      and those of an earlier run are stale; a retransmitted call is not executed again;
      the access bits granted are those the mode bits give the caller.
    - NFS ([NfsSafety], [NfsThms]): whatever bytes arrive and whatever fails, a call changes
      the file system only where a permission check of the source passed; data written by
      WRITE is returned by READ; a directory listed by READDIRPLUS, in replies of any size
      that has room for an entry, is complete, if no two of its names are the same file.
      What goes wrong otherwise, and with READDIR, is stated beside it.
    - Sandbox ([FdThms], [MountThms], [SandboxSafety], [SandboxThms]): every sequence of
      operations on a table is one of an abstract table, where a new descriptor is the
      lowest free number from 3 on; a path belongs to the mount with the longest mount point it is at or below,
      and the syntax of mounts is read as written; whatever the process, the kernel and the
      files do, a call takes away no entry of a table but the one it names and touches no
      other table (though the kernel's descriptor behind an entry may be closed by another:
      [closing_a_stranger]); a child has its own copy of the table or shares it, as its call says.
      Behaviours that are not meant are stated beside them.
    - Attestation ([RatlsThms]): whatever the peer, the platform and the TLS library do, a
      verifying side gives a stream out only when its peer is attested down to the pinned
      root and bound to this handshake; the same evidence is accepted in two handshakes only
      if they have the same key, key share and nonce, or SHA-256 has a collision; an honest
      peer, with the OpenSSL wrapper and no alternative names, is accepted; claims are read as
      written; a decoded token has what its payloads have, of the sizes they must have, and
      defaults for claims that are missing.
      [long_rak_digest_rejected] states a defect.
    - The sample ([BootThms], [FrameThms]): event logs are read as written; two logs accepted
      against the same measurements measured the same; frames arrive whole and in order over
      any connection; a client told to check the boot sends nothing but requests unless the
      peer is attested and its boot fits.  [firmware_state_is_forgeable],
      [missing_kernel_accepted] and [two_spaces_refused] state what the checks miss.
    - The migration VM ([Fdt], [MigMem], [Virtio]): the flattened form of a device tree is
      read as the format has it, for trees like those of the machine ([Format.plain]); the
      boot as shipped shares and accepts nothing, and after [init_rsi] it would share the pool
      with the host and nothing else; the windows of devices are what the processor
      translates; a virtqueue is two bounded
      queues, also over the wrap-around of its indices; a packet is handed to the host as
      written; buffers from the pool are disjoint.  Beside them, as theorems: cells taken of
      the wrong node, private interrupts counted from 32, a boot that never asks whether it is in a realm, mappings in tables the
      processor does not use, a socket header of the wrong size, descriptors that run out,
      and lengths of the host that are trusted.

    ** Bounds and fuel

    An integer is a [Z]; [as] casts and wrapping arithmetic are written out with
    [Int.u64], [Int.u32], [Int.i64] at the places the source has them, for a 64-bit target
    and a release build (arithmetic wraps; a division by zero, an out-of-range slice and a
    capacity over [isize::MAX] panic).  Running out of memory is not modelled.  Loops that
    are not structural have fuel: [fill_gap] the distance to the next chunk, which each
    turn shortens by one; [write_loop] the length of the data, of which each turn consumes
    at least a byte; [stat_loop] the source's own bound of forty; [subtree_from] the number
    of directory entries and two, which a table without cycles never uses up; [read_all]
    of [FuseThms], the kernel's side of reading a directory, one request more than there are
    entries; [list_plus] of [NfsThms] likewise; [order_chain] of [RatlsEngine] the number of
    certificates, of which each turn takes one; [trim_with] the length of the text, of which
    each turn removes a character; [read_record] the number of fragments; the search for a
    free number in [FdTable] one turn more than there are entries; [lossy_from] the length
    of the text; [read_events], [read_entries], [transmit_from] and [receive_from] the number
    of bytes, of which a turn takes at least one; [serve_requests] the number of requests,
    where [None] says that the session goes on; the byte loops of [Fdt] a bound that is at
    least the size of the tree; [turns] of [MigMem] 64 doublings, so 2 ^ 64 turns, more than
    there are addresses.  The theorems prove that this fuel gives the result, not only that
    a result is right.

    ** Assumptions about code outside the repository

    [Env] is a parameter.  [LruLaws] states what the [lru] crate documents (an insertion
    may evict any other key, a removal removes), [CollationLaws] that [ORDER BY name]
    sorts by a total preorder, [Quiet] that no call fails and the clock is past the
    epoch; the theorems of [Atomic] do not assume [Quiet].  Of PostgreSQL the model has:
    unique constraints, sequences that never go back, an error inside a transaction aborts
    it, [COMMIT] of an aborted or refused transaction rolls back (that a [COMMIT] takes place
    and its acknowledgement is lost is not modelled), [BEGIN] inside a
    transaction is a warning, the sum and the average of a [BIGINT] column are [NUMERIC].
    [NOW()] is read afresh by every statement, also inside a transaction, where the server
    gives one time: the theorems hold for any times.  A statement is one call:
    [prepare_cached] only stores the text.  [UtcServer] states how a server in the time
    zone UTC renders a time and which of its forms [chrono] reads; [JsonLaws] that
    [serde_json] reads back what it wrote and writes no empty text.  [Instances],
    [SnapshotThms] and [Mounted] discharge all the laws.  [LibcDev] stands for the device-number
    macros of [libc], of which nothing is assumed; the number of a run of the NFS server,
    which it takes from the clock, is a parameter of the handles.  Nothing is assumed of the
    classes [Guest] (the memory, the stack and the kernel behind a traced process) and
    [FileOps], nor of [canonicalize].  A system call is its named arguments; a number
    outside an [fd_set] is out of its bounds.  [CborLaws] states that [ciborium] reads back
    what it wrote, of a nesting below its recursion limit of 256, and no item from nothing; [DigestLaws] that the interfaces of [openssl] to a
    digest agree and give its length; nothing else is assumed of [openssl] and [coset], so a
    theorem speaks of their answers (a signature that verifies), not of what only a key could
    have made.  [honest_tsm] and [honest_verifier] state what a genuine platform answers, and
    [openssl_works] that [openssl] makes the keys and certificates the wrapper asks for.
    [Pipe] states that a connection moves some bytes at each call, [Watched] that reading a
    file or the stream writes nothing.  [RatlsThms] and [FrameThms] discharge them.
    [Monitor] states what the realm monitor does to the state of addresses and [grants] when
    it agrees; the page tables are written where they lie, which is right while no window for
    a device covers them; [fetch] and
    [publish] are a device that follows the VIRTIO specification; of the host nothing else is
    assumed.  The texts inside errors are left out.

    ** What is not modelled

    One connection is modelled, not the pool, so two clients do not interleave inside an
    operation; the slots of the pool and its reconnection ([DbPool] and [PoolHealer] of
    [db.rs]) and the rewriting of SQL for OpenGauss are left out.  So are the host file
    system, which is operating-system calls (the base of the overlay is a parameter); the
    detection of schema versions; mounting and the session loop of the FUSE server, and the
    decoding of its requests; the socket and the tasks of the NFS server ([tcp.rs]), so one
    NFS call ends before the next starts; the command line; and the TPM solution of the
    repository.  Of the migration VM, the registers of devices and of the interrupt
    controller, time, random numbers and the services above the network stack are left out;
    barriers and the caches of translations have no counterpart.  Of RATS-TLS, the OpenSSL
    handshake, the C interface and the logger are left out; of its sample, what [clap] makes
    of the command line and the listener.  The requests of a FUSE session are served one at a
    time, as the server does.  Of the sandbox, its global tables are set before the
    first call, its tracing output is left out, and the handlers of two traced threads do
    not interleave.

    ** Plan

    Next: the rebinding of SQL parameters for OpenGauss and the detection of schema
    versions; the decoding of FUSE requests; the discovery of PCI devices in the migration
    VM; the parsing of a TLS hello message. *)

From stdpp Require Export gmap strings list fin_maps sorting list_numbers.
From Stdlib Require Export Init.Byte Sorted.
From Stdlib Require Import ZArith Lia.
From Stdlib Require Strings.Byte.

#[global] Set Default Goal Selector "!".
#[global] Open Scope Z_scope.

(** ** Machine integers

    A [u64], [u32] or [i64] is a [Z] kept in its range; the casts below are the
    source's [as] conversions, and [u64_add] / [u64_mul] the wrapping operations
    of a release build. *)
Module Int.
Definition u64 (x : Z) : Z := x `mod` 2 ^ 64.
Definition u32 (x : Z) : Z := x `mod` 2 ^ 32.
Definition i64 (x : Z) : Z := (x + 2 ^ 63) `mod` 2 ^ 64 - 2 ^ 63.
Definition i32 (x : Z) : Z := (x + 2 ^ 31) `mod` 2 ^ 32 - 2 ^ 31.

Definition u64_add (a b : Z) : Z := u64 (a + b).
Definition u64_mul (a b : Z) : Z := u64 (a * b).
(** [saturating_sub] on [u64]. *)
Definition sat_sub (a b : Z) : Z := Z.max 0 (a - b).

Definition is_u64 (x : Z) : Prop := 0 ≤ x < 2 ^ 64.
Definition is_u32 (x : Z) : Prop := 0 ≤ x < 2 ^ 32.
Definition is_i64 (x : Z) : Prop := - 2 ^ 63 ≤ x < 2 ^ 63.

Lemma u64_small x : 0 ≤ x < 2 ^ 64 → u64 x = x.
Proof. apply Z.mod_small. Qed.
Lemma u32_small x : 0 ≤ x < 2 ^ 32 → u32 x = x.
Proof. apply Z.mod_small. Qed.
Lemma i64_small x : - 2 ^ 63 ≤ x < 2 ^ 63 → i64 x = x.
Proof. intros H. unfold i64. rewrite Z.mod_small; lia. Qed.
Lemma i32_small x : - 2 ^ 31 ≤ x < 2 ^ 31 → i32 x = x.
Proof. intros H. unfold i32. rewrite Z.mod_small; lia. Qed.
Lemma i64_range x : is_i64 (i64 x).
Proof.
  unfold is_i64, i64.
  pose proof (Z.mod_pos_bound (x + 2 ^ 63) (2 ^ 64) ltac:(lia)). lia.
Qed.
Lemma u64_range x : is_u64 (u64 x).
Proof. apply Z.mod_pos_bound. lia. Qed.
Lemma u32_range x : is_u32 (u32 x).
Proof. apply Z.mod_pos_bound. lia. Qed.
Lemma u64_i64 x : 0 ≤ x < 2 ^ 64 → u64 (i64 x) = x.
Proof.
  intros H. unfold u64, i64.
  rewrite Zminus_mod_idemp_l.
  replace (x + 2 ^ 63 - 2 ^ 63) with x by lia. by apply Z.mod_small.
Qed.
(** Casting to [u32] never changes the sixteen file-mode bits. *)
Lemma u32_land x m : 0 ≤ m < 2 ^ 32 → Z.land (u32 x) m = Z.land x m.
Proof.
  intros Hm. unfold u32. rewrite <- Z.land_ones by lia.
  rewrite <- Z.land_assoc. f_equal.
  rewrite Z.land_comm, Z.land_ones by lia. by apply Z.mod_small.
Qed.
End Int.

Create HintDb secafs_int.
#[export] Hint Resolve Int.u64_range Int.u32_range Int.i64_range : secafs_int.
Create Rewrite HintDb secafs_int_eq.
#[export] Hint Rewrite Int.u64_small Int.u32_small Int.i64_small Int.u64_i64
  using (unfold Int.is_u64, Int.is_u32, Int.is_i64 in *; lia) : secafs_int_eq.

#[global] Instance byte_eq_dec : EqDecision byte := Strings.Byte.byte_eq_dec.

(** ** Byte vectors: the operations the source applies to a [Vec<u8>] *)
Module Vec.
Abbreviation zero := x00 (only parsing).

(** [std::iter::repeat_n(0u8, n)]. *)
Definition zeros (n : Z) : list byte := replicate (Z.to_nat n) zero.
Definition len (v : list byte) : Z := Z.of_nat (length v).
(** Whether [Vec::with_capacity(n)] does not panic: the capacity of a vector is at most
    [isize::MAX] bytes. *)
Definition fits (n : Z) : bool := n <? 2 ^ 63.
(** [v.resize(n, 0)]: cut or zero-pad to [n] bytes. *)
Definition resize (n : Z) (v : list byte) : list byte :=
  take (Z.to_nat n) v ++ zeros (n - len v).
(** [&v[a..b]]. *)
Definition slice (a b : Z) (v : list byte) : list byte :=
  take (Z.to_nat (b - a)) (drop (Z.to_nat a) v).
(** [v[a..a + src.len()].copy_from_slice(src)]. *)
Definition copy_at (a : Z) (src v : list byte) : list byte :=
  take (Z.to_nat a) v ++ src ++ drop (Z.to_nat a + length src) v.
(** The byte at index [i], zero beyond the end. *)
Definition get (v : list byte) (i : Z) : byte :=
  if decide (0 ≤ i) then default zero (v !! Z.to_nat i) else zero.

Lemma len_nonneg v : 0 ≤ len v.
Proof. unfold len. lia. Qed.
Lemma len_zeros n : 0 ≤ n → len (zeros n) = n.
Proof. intros. unfold len, zeros. rewrite length_replicate. lia. Qed.
Lemma len_app v w : len (v ++ w) = len v + len w.
Proof. unfold len. rewrite length_app. lia. Qed.
Lemma len_resize n v : 0 ≤ n → len (resize n v) = n.
Proof.
  intros. unfold resize. rewrite len_app. unfold len, zeros.
  rewrite length_take, length_replicate. lia.
Qed.
Lemma len_slice a b v : 0 ≤ a ≤ b → b ≤ len v → len (slice a b v) = b - a.
Proof.
  unfold len, slice. intros. rewrite length_take, length_drop. lia.
Qed.
Lemma len_copy_at a src v :
  0 ≤ a → a + len src ≤ len v → len (copy_at a src v) = len v.
Proof.
  unfold len, copy_at. intros.
  rewrite !length_app, length_take, length_drop. lia.
Qed.

Lemma get_nonneg v i : 0 ≤ i → get v i = default zero (v !! Z.to_nat i).
Proof. intros. unfold get. by rewrite decide_True. Qed.
Lemma get_beyond v i : len v ≤ i → get v i = zero.
Proof.
  intros. pose proof (len_nonneg v). rewrite get_nonneg by lia.
  rewrite lookup_ge_None_2; [done|]. unfold len in *. lia.
Qed.
Lemma get_zeros n i : get (zeros n) i = zero.
Proof.
  unfold get. case_decide; [|done]. unfold zeros.
  destruct (replicate _ _ !! _) eqn:Hl; [|done].
  by apply lookup_replicate in Hl as [-> _].
Qed.
Lemma get_app v w i :
  get (v ++ w) i = if decide (i < len v) then get v i else get w (i - len v).
Proof.
  unfold get. destruct (decide (0 ≤ i)); case_decide; unfold len in *; try done.
  - rewrite lookup_app_l by lia. done.
  - rewrite decide_True by lia. rewrite lookup_app_r by lia.
    do 2 f_equal. lia.
  - lia.
Qed.
Lemma get_take n v i : get (take (Z.to_nat n) v) i = if decide (i < n) then get v i else zero.
Proof.
  unfold get. destruct (decide (0 ≤ i)); case_decide; try done.
  - by rewrite lookup_take_lt by lia.
  - by rewrite lookup_take_ge by lia.
Qed.
Lemma get_drop n v i : 0 ≤ n → 0 ≤ i → get (drop (Z.to_nat n) v) i = get v (n + i).
Proof.
  intros. rewrite !get_nonneg by lia. rewrite lookup_drop. do 2 f_equal. lia.
Qed.
Lemma get_resize n v i :
  get (resize n v) i = if decide (i < n) then get v i else zero.
Proof.
  unfold resize. rewrite get_app, get_zeros, get_take.
  destruct (decide (i < n)), (decide (i < len (take (Z.to_nat n) v))) as [|Hl]; try done.
  unfold len in Hl. rewrite length_take in Hl.
  symmetry. apply get_beyond. unfold len. lia.
Qed.
Lemma get_slice a b v i :
  0 ≤ a → 0 ≤ i → get (slice a b v) i = if decide (i < b - a) then get v (a + i) else zero.
Proof. intros. unfold slice. rewrite get_take. case_decide; [|done]. by apply get_drop. Qed.
Lemma get_copy_at a src v i :
  0 ≤ a → a ≤ len v → 0 ≤ i →
  get (copy_at a src v) i =
    if decide (a ≤ i < a + len src) then get src (i - a) else get v i.
Proof.
  intros Ha Hv Hi. unfold copy_at.
  assert (Hlt : len (take (Z.to_nat a) v) = a).
  { unfold len in *. rewrite length_take. lia. }
  rewrite get_app, Hlt, get_take, get_app.
  destruct (decide (i < a)).
  { rewrite decide_False by lia. done. }
  destruct (decide (i - a < len src)).
  { rewrite decide_True by lia. done. }
  rewrite decide_False by lia.
  replace (Z.to_nat a + length src)%nat with (Z.to_nat (a + len src))
    by (unfold len; lia).
  pose proof (len_nonneg src).
  rewrite get_drop by lia. f_equal. lia.
Qed.

(** Two vectors of the same length with the same bytes are equal. *)
Lemma ext v w : len v = len w → (∀ i, 0 ≤ i < len v → get v i = get w i) → v = w.
Proof.
  unfold len. intros Hl Hg. apply list_eq_same_length with (length v); [lia|lia|].
  intros i x y Hi Hx Hy. specialize (Hg (Z.of_nat i) ltac:(lia)).
  rewrite !get_nonneg, !Nat2Z.id, Hx, Hy in Hg by lia. exact Hg.
Qed.
End Vec.

(** The bytes [f lo, .., f (lo + n - 1)]. *)
Definition bytes_of (f : Z → byte) (lo n : Z) : list byte := f <$> seqZ lo n.

Lemma len_bytes_of f lo n : 0 ≤ n → Vec.len (bytes_of f lo n) = n.
Proof. intros. unfold Vec.len, bytes_of. rewrite length_fmap, length_seqZ. lia. Qed.
Lemma get_bytes_of f lo n i :
  Vec.get (bytes_of f lo n) i = if decide (0 ≤ i < n) then f (lo + i) else x00.
Proof.
  unfold Vec.get, bytes_of. rewrite list_lookup_fmap.
  destruct (decide (0 ≤ i)); [|by rewrite decide_False by lia].
  destruct (decide (i < n)).
  - rewrite (decide_True (P := 0 ≤ i < n)) by lia.
    rewrite lookup_seqZ_lt by lia. simpl. f_equal. lia.
  - rewrite (decide_False (P := 0 ≤ i < n)) by lia.
    by rewrite lookup_seqZ_ge by lia.
Qed.
Lemma bytes_of_ext f g lo n :
  (∀ i, lo ≤ i < lo + n → f i = g i) → bytes_of f lo n = bytes_of g lo n.
Proof.
  intros H. unfold bytes_of. apply list_fmap_ext.
  intros i x Hx. apply lookup_seqZ in Hx. apply H. lia.
Qed.
Lemma bytes_of_app f lo n m :
  0 ≤ n → 0 ≤ m → bytes_of f lo n ++ bytes_of f (lo + n) m = bytes_of f lo (n + m).
Proof. intros. unfold bytes_of. rewrite <- fmap_app, seqZ_app by lia. done. Qed.

(** ** Decisions on goals *)

(** Case on every [decide] and Boolean comparison left in the goal. *)
Ltac cases := repeat first [ case_decide | case_match ]; simplify_eq/=.

(** ** Sorted lists *)

Lemma strongly_sorted_take {A} (R : A → A → Prop) n l :
  StronglySorted R l → StronglySorted R (take n l) ∧
  ∀ x y, x ∈ take n l → y ∈ drop n l → R x y.
Proof.
  intros Hs. rewrite <- (take_drop n l) in Hs at 1. revert Hs. generalize (take n l) (drop n l).
  intros l1 l2. induction l1 as [|a l1 IH]; simpl.
  - intros _. split; [constructor|]. by intros x y Hx%not_elem_of_nil.
  - intros [Hs Hf]%StronglySorted_inv. destruct (IH Hs) as [H1 H2].
    rewrite Forall_app in Hf. destruct Hf as [Hf1 Hf2]. split; [by constructor|].
    intros x y [->|Hx]%elem_of_cons Hy; [by rewrite Forall_forall in Hf2; apply Hf2|by apply H2].
Qed.
Lemma strongly_sorted_fmap {A B} (f : A → B) (R : B → B → Prop) (R' : A → A → Prop) l :
  (∀ x y, R' x y → R (f x) (f y)) → StronglySorted R' l → StronglySorted R (f <$> l).
Proof.
  intros Hf. induction 1 as [|a l Hs IH Ha]; simpl; [constructor|]. constructor; [done|].
  rewrite Forall_fmap. eapply Forall_impl; [exact Ha|]. intros x Hx. by apply Hf.
Qed.
