(* ===== verification/Types.v ===== *)
(** * Types of the SDK

    The error types of [sdk/rust/src/error.rs], the errors, mode constants,
    [Stats] and [TimeChange] of [sdk/rust/src/filesystem/mod.rs], and the dynamic
    row values of [sdk/rust/src/db.rs] with the accessors every query goes
    through. *)

From S2P Require Import Prelude.

(** ** Errors *)

(** [enum FsError]: the errors that carry an errno. *)
Inductive FsError :=
  | NotFound | AlreadyExists | NotEmpty | NotADirectory | IsADirectory
  | NotASymlink | InvalidPath | RootOperation | SymlinkLoop | InvalidRename
  | NameTooLong.

(** Linux values of the [libc] constants errors are mapped to. *)
Module libc.
Definition EPERM : Z := 1.
Definition ENOENT : Z := 2.
Definition EIO : Z := 5.
Definition EBADF : Z := 9.
Definition EAGAIN : Z := 11.
Definition EEXIST : Z := 17.
Definition ENOTDIR : Z := 20.
Definition EISDIR : Z := 21.
Definition EINVAL : Z := 22.
Definition ENAMETOOLONG : Z := 36.
Definition ENOTEMPTY : Z := 39.
Definition ELOOP : Z := 40.
Definition O_RDONLY : Z := 0.
Definition O_RDWR : Z := 2.
End libc.

Definition to_errno (e : FsError) : Z :=
  match e with
  | NotFound => libc.ENOENT
  | AlreadyExists => libc.EEXIST
  | NotEmpty => libc.ENOTEMPTY
  | NotADirectory => libc.ENOTDIR
  | IsADirectory => libc.EISDIR
  | NotASymlink => libc.EINVAL
  | InvalidPath => libc.EINVAL
  | RootOperation => libc.EPERM
  | SymlinkLoop => libc.ELOOP
  | InvalidRename => libc.EINVAL
  | NameTooLong => libc.ENAMETOOLONG
  end.

(** [enum Error].  Of an [std::io::Error] only [raw_os_error()] is ever looked at; the payloads
    of the other foreign errors ([tokio_postgres::Error], [serde_json::Error],
    [SystemTimeError]) are dropped. *)
Inductive Error :=
  | EPostgres
  | EIo (raw_os_error : option Z)
  | EJson
  | ETime
  | EFs (e : FsError)
  | EInvalidAgentId (id : string)
  | EAgentNotFound (id path : string)
  | EInvalidUtf8Path (path : string)
  | EBaseDirectoryNotFound (path : string)
  | ENotADirectory (path : string)
  | EToolCallNotFound
  | EConnectionPoolTimeout
  | EInternal (msg : string)
  | ESchemaVersionMismatch (found expected : string)
  | EUnsupportedFeature (what : string).

#[global] Instance FsError_eq_dec : EqDecision FsError.
Proof. solve_decision. Defined.
#[global] Instance Error_eq_dec : EqDecision Error.
Proof. solve_decision. Defined.

(** What a call ends in: [Result::Ok], [Result::Err], or a Rust panic
    (an [unwrap] of an error, [unreachable!], a division by zero, a slice out of
    range). *)
Inductive outcome (A : Type) :=
  | Ok (a : A)
  | Err (e : Error)
  | Panic.
Arguments Ok {A} a.
Arguments Err {A} e.
Arguments Panic {A}.

#[global] Instance outcome_eq_dec `{EqDecision A} : EqDecision (outcome A).
Proof. solve_decision. Defined.

Definition is_ok {A} (r : outcome A) : bool := match r with Ok _ => true | _ => false end.

(** ** Modes

    The source writes these in octal ([0o170000], [0o100000], [0o7777], ..); the
    same numbers are in hexadecimal here. *)

Definition MAX_NAME_LEN : Z := 255.

Definition S_IFMT : Z := 0xf000.
Definition S_IFREG : Z := 0x8000.
Definition S_IFDIR : Z := 0x4000.
Definition S_IFLNK : Z := 0xa000.
Definition S_IFIFO : Z := 0x1000.
Definition S_IFCHR : Z := 0x2000.
Definition S_IFBLK : Z := 0x6000.
Definition S_IFSOCK : Z := 0xc000.

Definition DEFAULT_FILE_MODE : Z := Z.lor S_IFREG 0x1a4.
Definition DEFAULT_DIR_MODE : Z := Z.lor S_IFDIR 0x1ed.

(** [(mode & S_IFMT) == t]: the file-type test every operation writes out. *)
Definition has_type (t mode : Z) : bool := bool_decide (Z.land mode S_IFMT = t).

(** [enum TimeChange]. *)
Inductive TimeChange :=
  | Omit
  | Now
  | SetTime (secs nsec : Z).

(** [struct Stats]. *)
Record Stats := mkStats {
  st_ino : Z;
  st_mode : Z;
  st_nlink : Z;
  st_uid : Z;
  st_gid : Z;
  st_size : Z;
  st_atime : Z;
  st_mtime : Z;
  st_ctime : Z;
  st_atime_nsec : Z;
  st_mtime_nsec : Z;
  st_ctime_nsec : Z;
  st_rdev : Z;
}.

Definition is_file (s : Stats) : bool := has_type S_IFREG (st_mode s).
Definition is_directory (s : Stats) : bool := has_type S_IFDIR (st_mode s).
Definition is_symlink (s : Stats) : bool := has_type S_IFLNK (st_mode s).

(** [struct FilesystemStats] and [struct DirEntry]. *)
Record FilesystemStats := mkFsStats { fst_inodes : Z; fst_bytes_used : Z }.
Record DirEntry := mkDirEntry { de_name : string; de_stats : Stats }.

(** ** Database values *)

(** [enum DbValue]; a [Real] is kept as its IEEE-754 bits. *)
Inductive DbValue :=
  | Integer (i : Z)
  | Real (bits : Z)
  | Text (s : string)
  | Blob (b : list byte)
  | Null.

#[global] Instance DbValue_eq_dec : EqDecision DbValue.
Proof. solve_decision. Defined.

(** A column as the server sends it, by its PostgreSQL type. *)
Inductive PgValue :=
  | PgInt8 (i : Z)
  | PgFloat8 (bits : Z)
  | PgText (s : string)
  | PgBytea (b : list byte)
  | PgNumeric (num den : Z)
  | PgNull.

(** The chain of [row.try_get::<usize, T>(idx)] in [DbConn::query]: [i64] accepts
    [INT8], [f64] [FLOAT8], [String] the text types and [Vec<u8>] [BYTEA]; anything
    else falls through to [Null]. *)
Definition decode_column (v : PgValue) : DbValue :=
  match v with
  | PgInt8 i => Integer i
  | PgFloat8 f => Real f
  | PgText s => Text s
  | PgBytea b => Blob b
  | PgNumeric _ _ => Null
  | PgNull => Null
  end.

Definition as_integer (v : DbValue) : option Z :=
  match v with Integer i => Some i | _ => None end.

(** [struct DbRow] and [DbRow::get_value]: an index out of bounds is an error. *)
Definition DbRow := list DbValue.
Definition get_value (row : DbRow) (index : nat) : option DbValue := row !! index.

(** [row.get_value(i).ok().and_then(|v| v.as_integer().copied()).unwrap_or(dflt)] *)
Definition int_or (dflt : Z) (row : DbRow) (i : nat) : Z :=
  default dflt (get_value row i ≫= as_integer).
(** The same with [.ok_or_else(|| Error::Internal(..))] for [.unwrap_or(..)]. *)
Definition int_opt (row : DbRow) (i : nat) : option Z := get_value row i ≫= as_integer.

(** [if let Value::Text(s) = v { Some(s) } else { None }] on a column. *)
Definition text_opt (row : DbRow) (i : nat) : option string :=
  match get_value row i with Some (Text s) => Some s | _ => None end.
(** [if let Ok(Value::Blob(b)) = row.get_value(i)]. *)
Definition blob_opt (row : DbRow) (i : nat) : option (list byte) :=
  match get_value row i with Some (Blob b) => Some b | _ => None end.

(** ** Statement parameters *)

(** The type the server infers for a parameter. *)
Inductive PgType := TInt8 | TFloat8 | TText | TBytea.

(** [to_pg_value] boxes an [i64], [f64], [String], [Vec<u8>] or, for [Null], an
    [Option::<i64>::None]; the driver refuses a value whose Rust type does not accept the
    parameter's type, and an [Option<T>] accepts what [T] does. *)
Definition to_pg_value (v : DbValue) : PgType :=
  match v with
  | Integer _ => TInt8
  | Real _ => TFloat8
  | Text _ => TText
  | Blob _ => TBytea
  | Null => TInt8
  end.
#[global] Instance PgType_eq_dec : EqDecision PgType.
Proof. solve_decision. Defined.
Definition accepts (ty : PgType) (v : DbValue) : bool := bool_decide (to_pg_value v = ty).

(** ** File types in the mode bits *)

Lemma has_type_dir_perm m : has_type S_IFDIR (Z.lor S_IFDIR (Z.land m 0xfff)) = true.
Proof.
  unfold has_type. apply bool_decide_eq_true_2.
  rewrite Z.land_lor_distr_l, <- Z.land_assoc.
  change (Z.land 0xfff S_IFMT) with 0. rewrite Z.land_0_r. reflexivity.
Qed.
Lemma has_type_reg_perm m : has_type S_IFREG (Z.lor S_IFREG (Z.land m 0xfff)) = true.
Proof.
  unfold has_type. apply bool_decide_eq_true_2.
  rewrite Z.land_lor_distr_l, <- Z.land_assoc.
  change (Z.land 0xfff S_IFMT) with 0. rewrite Z.land_0_r. reflexivity.
Qed.
(** Keeping the type bits and replacing the permission bits keeps the type. *)
Lemma has_type_chmod t old m :
  has_type t (Z.lor (Z.land old S_IFMT) (Z.land m 0xfff)) = has_type t old.
Proof.
  unfold has_type. apply bool_decide_ext.
  rewrite Z.land_lor_distr_l, <- !Z.land_assoc.
  change (Z.land 0xfff S_IFMT) with 0. rewrite Z.land_0_r, Z.lor_0_r.
  by rewrite Z.land_diag.
Qed.
Lemma has_type_u32 t m : has_type t (Int.u32 m) = has_type t m.
Proof. unfold has_type. rewrite Int.u32_land; [done|]. unfold S_IFMT. lia. Qed.
