(* ===== verification/Tables.v ===== *)
(** * The database

    The tables of [SecAFS::initialize_schema] and of the snapshot schema as finite
    maps keyed by their primary or unique keys, the row-level writes with the
    capture triggers of [sdk/rust/src/snapshot/triggers.rs] that fire on them, and
    the SQL statements of the file-system code as functions on those tables.

    A statement that violates a constraint is [None]; a query returns its rows as
    the dynamic [DbRow]s the Rust code decodes. *)

From S2P Require Import Prelude Types.

(** ** Rows *)

(** One row of [fs_inode] (without its key [ino]). *)
Record inode := mkInode {
  i_mode : Z;
  i_nlink : Z;
  i_uid : Z;
  i_gid : Z;
  i_size : Z;
  i_atime : Z;
  i_mtime : Z;
  i_ctime : Z;
  i_rdev : Z;
  i_atime_nsec : Z;
  i_mtime_nsec : Z;
  i_ctime_nsec : Z;
}.

(** One row of [fs_dentry], keyed by its unique pair [(parent_ino, name)]. *)
Record dentry := mkDentry { d_id : Z; d_ino : Z }.

(** One row of [kv_store]; the two time stamps are nullable. *)
Record kv := mkKv { kv_value : string; kv_created_at : option Z; kv_updated_at : option Z }.

(** One row of [fs_volume_state]. *)
Record volume_state := mkVolumeState { rollback_enabled : bool; current_snap_id : Z }.

(** One row of [fs_snapshots], keyed by [(volume_id, snap_id)]; [committed_at] in
    microseconds since the epoch. *)
Record snapshot_row := mkSnapshot { sn_committed_at : Z; sn_label : option string }.

(** One row of [tool_calls] (without its key [id]). *)
Record tool_row := mkTool {
  tc_name : string;
  tc_parameters : option string;
  tc_result : option string;
  tc_error : option string;
  tc_status : string;
  tc_started_at : Z;
  tc_completed_at : option Z;
  tc_duration_ms : option Z;
}.

(** [enum UndoOp]. *)
Inductive UndoOp := UInsert | UUpdate | UDelete.

#[global] Instance UndoOp_eq_dec : EqDecision UndoOp.
Proof. solve_decision. Defined.

(** A row of one of the five undo tables: the key of the row written and its
    before-image, [None] when the columns are [NULL].  A table is the list of its
    rows by [undo_id] descending, so the newest entry is the head. *)
Record undo_row (K R : Type) := mkUndo {
  u_volume : string;
  u_snap : Z;
  u_op : UndoOp;
  u_key : K;
  u_old : option R;
}.
Arguments mkUndo {K R}.
Arguments u_volume {K R}.
Arguments u_snap {K R}.
Arguments u_op {K R}.
Arguments u_key {K R}.
Arguments u_old {K R}.

Record volume_tables := mkVolumes {
  fs_volumes : gmap string Z;
  fs_volume_state : gmap string volume_state;
  fs_snapshots : gmap (string * Z) snapshot_row;
}.

Record undo_tables := mkUndoTables {
  fs_inode_undo : list (undo_row Z inode);
  fs_dentry_undo : list (undo_row Z (string * Z * Z));
  fs_data_undo : list (undo_row (Z * Z) (list byte));
  fs_symlink_undo : list (undo_row Z string);
  kv_store_undo : list (undo_row string kv);
}.

(** The custom session settings the triggers read.  [guc_suppress_local] is a
    [SET LOCAL] value: it shadows [guc_suppress_undo] until the transaction ends. *)
Record session_gucs := mkSession {
  guc_volume_id : option string;
  guc_suppress_undo : option string;
  guc_suppress_local : option string;
}.

(** The tables of the overlay file system: the time a path was whited out, the
    configuration, and the base inode a delta inode was copied from. *)
Record overlay_tables := mkOverlay {
  fs_whiteout : gmap string Z;
  fs_overlay_config : gmap string string;
  fs_origin : gmap Z Z;
}.

Record db := mkDb {
  fs_config : gmap string string;
  fs_inode : gmap Z inode;
  fs_dentry : gmap (Z * string) dentry;
  fs_data : gmap (Z * Z) (list byte);
  fs_symlink : gmap Z string;
  kv_store : gmap string kv;
  tool_calls : gmap Z tool_row;
  volumes : volume_tables;
  undo : undo_tables;
  session : session_gucs;
  overlay : overlay_tables;
}.

Definition set_i_mode (v : _) (r : inode) : inode :=
  mkInode v (i_nlink r) (i_uid r) (i_gid r) (i_size r) (i_atime r) (i_mtime r) (i_ctime r) (i_rdev r) (i_atime_nsec r) (i_mtime_nsec r) (i_ctime_nsec r).
Definition set_i_nlink (v : _) (r : inode) : inode :=
  mkInode (i_mode r) v (i_uid r) (i_gid r) (i_size r) (i_atime r) (i_mtime r) (i_ctime r) (i_rdev r) (i_atime_nsec r) (i_mtime_nsec r) (i_ctime_nsec r).
Definition set_i_uid (v : _) (r : inode) : inode :=
  mkInode (i_mode r) (i_nlink r) v (i_gid r) (i_size r) (i_atime r) (i_mtime r) (i_ctime r) (i_rdev r) (i_atime_nsec r) (i_mtime_nsec r) (i_ctime_nsec r).
Definition set_i_gid (v : _) (r : inode) : inode :=
  mkInode (i_mode r) (i_nlink r) (i_uid r) v (i_size r) (i_atime r) (i_mtime r) (i_ctime r) (i_rdev r) (i_atime_nsec r) (i_mtime_nsec r) (i_ctime_nsec r).
Definition set_i_size (v : _) (r : inode) : inode :=
  mkInode (i_mode r) (i_nlink r) (i_uid r) (i_gid r) v (i_atime r) (i_mtime r) (i_ctime r) (i_rdev r) (i_atime_nsec r) (i_mtime_nsec r) (i_ctime_nsec r).
Definition set_i_atime (v : _) (r : inode) : inode :=
  mkInode (i_mode r) (i_nlink r) (i_uid r) (i_gid r) (i_size r) v (i_mtime r) (i_ctime r) (i_rdev r) (i_atime_nsec r) (i_mtime_nsec r) (i_ctime_nsec r).
Definition set_i_mtime (v : _) (r : inode) : inode :=
  mkInode (i_mode r) (i_nlink r) (i_uid r) (i_gid r) (i_size r) (i_atime r) v (i_ctime r) (i_rdev r) (i_atime_nsec r) (i_mtime_nsec r) (i_ctime_nsec r).
Definition set_i_ctime (v : _) (r : inode) : inode :=
  mkInode (i_mode r) (i_nlink r) (i_uid r) (i_gid r) (i_size r) (i_atime r) (i_mtime r) v (i_rdev r) (i_atime_nsec r) (i_mtime_nsec r) (i_ctime_nsec r).
Definition set_i_rdev (v : _) (r : inode) : inode :=
  mkInode (i_mode r) (i_nlink r) (i_uid r) (i_gid r) (i_size r) (i_atime r) (i_mtime r) (i_ctime r) v (i_atime_nsec r) (i_mtime_nsec r) (i_ctime_nsec r).
Definition set_i_atime_nsec (v : _) (r : inode) : inode :=
  mkInode (i_mode r) (i_nlink r) (i_uid r) (i_gid r) (i_size r) (i_atime r) (i_mtime r) (i_ctime r) (i_rdev r) v (i_mtime_nsec r) (i_ctime_nsec r).
Definition set_i_mtime_nsec (v : _) (r : inode) : inode :=
  mkInode (i_mode r) (i_nlink r) (i_uid r) (i_gid r) (i_size r) (i_atime r) (i_mtime r) (i_ctime r) (i_rdev r) (i_atime_nsec r) v (i_ctime_nsec r).
Definition set_i_ctime_nsec (v : _) (r : inode) : inode :=
  mkInode (i_mode r) (i_nlink r) (i_uid r) (i_gid r) (i_size r) (i_atime r) (i_mtime r) (i_ctime r) (i_rdev r) (i_atime_nsec r) (i_mtime_nsec r) v.

Definition set_fs_config (v : _) (d : db) : db :=
  mkDb v (fs_inode d) (fs_dentry d) (fs_data d) (fs_symlink d) (kv_store d) (tool_calls d) (volumes d) (undo d) (session d) (overlay d).
Definition set_fs_inode (v : _) (d : db) : db :=
  mkDb (fs_config d) v (fs_dentry d) (fs_data d) (fs_symlink d) (kv_store d) (tool_calls d) (volumes d) (undo d) (session d) (overlay d).
Definition set_fs_dentry (v : _) (d : db) : db :=
  mkDb (fs_config d) (fs_inode d) v (fs_data d) (fs_symlink d) (kv_store d) (tool_calls d) (volumes d) (undo d) (session d) (overlay d).
Definition set_fs_data (v : _) (d : db) : db :=
  mkDb (fs_config d) (fs_inode d) (fs_dentry d) v (fs_symlink d) (kv_store d) (tool_calls d) (volumes d) (undo d) (session d) (overlay d).
Definition set_fs_symlink (v : _) (d : db) : db :=
  mkDb (fs_config d) (fs_inode d) (fs_dentry d) (fs_data d) v (kv_store d) (tool_calls d) (volumes d) (undo d) (session d) (overlay d).
Definition set_kv_store (v : _) (d : db) : db :=
  mkDb (fs_config d) (fs_inode d) (fs_dentry d) (fs_data d) (fs_symlink d) v (tool_calls d) (volumes d) (undo d) (session d) (overlay d).
Definition set_tool_calls (v : _) (d : db) : db :=
  mkDb (fs_config d) (fs_inode d) (fs_dentry d) (fs_data d) (fs_symlink d) (kv_store d) v (volumes d) (undo d) (session d) (overlay d).
Definition set_volumes (v : _) (d : db) : db :=
  mkDb (fs_config d) (fs_inode d) (fs_dentry d) (fs_data d) (fs_symlink d) (kv_store d) (tool_calls d) v (undo d) (session d) (overlay d).
Definition set_undo (v : _) (d : db) : db :=
  mkDb (fs_config d) (fs_inode d) (fs_dentry d) (fs_data d) (fs_symlink d) (kv_store d) (tool_calls d) (volumes d) v (session d) (overlay d).
Definition set_session (v : _) (d : db) : db :=
  mkDb (fs_config d) (fs_inode d) (fs_dentry d) (fs_data d) (fs_symlink d) (kv_store d) (tool_calls d) (volumes d) (undo d) v (overlay d).
Definition set_overlay (v : _) (d : db) : db :=
  mkDb (fs_config d) (fs_inode d) (fs_dentry d) (fs_data d) (fs_symlink d) (kv_store d) (tool_calls d) (volumes d) (undo d) (session d) v.

Definition set_fs_volumes (v : _) (d : volume_tables) : volume_tables :=
  mkVolumes v (fs_volume_state d) (fs_snapshots d).
Definition set_fs_volume_state (v : _) (d : volume_tables) : volume_tables :=
  mkVolumes (fs_volumes d) v (fs_snapshots d).
Definition set_fs_snapshots (v : _) (d : volume_tables) : volume_tables :=
  mkVolumes (fs_volumes d) (fs_volume_state d) v.

Definition set_fs_inode_undo (v : _) (d : undo_tables) : undo_tables :=
  mkUndoTables v (fs_dentry_undo d) (fs_data_undo d) (fs_symlink_undo d) (kv_store_undo d).
Definition set_fs_dentry_undo (v : _) (d : undo_tables) : undo_tables :=
  mkUndoTables (fs_inode_undo d) v (fs_data_undo d) (fs_symlink_undo d) (kv_store_undo d).
Definition set_fs_data_undo (v : _) (d : undo_tables) : undo_tables :=
  mkUndoTables (fs_inode_undo d) (fs_dentry_undo d) v (fs_symlink_undo d) (kv_store_undo d).
Definition set_fs_symlink_undo (v : _) (d : undo_tables) : undo_tables :=
  mkUndoTables (fs_inode_undo d) (fs_dentry_undo d) (fs_data_undo d) v (kv_store_undo d).
Definition set_kv_store_undo (v : _) (d : undo_tables) : undo_tables :=
  mkUndoTables (fs_inode_undo d) (fs_dentry_undo d) (fs_data_undo d) (fs_symlink_undo d) v.

Definition set_guc_volume_id (v : _) (d : session_gucs) : session_gucs :=
  mkSession v (guc_suppress_undo d) (guc_suppress_local d).
Definition set_guc_suppress_undo (v : _) (d : session_gucs) : session_gucs :=
  mkSession (guc_volume_id d) v (guc_suppress_local d).
Definition set_guc_suppress_local (v : _) (d : session_gucs) : session_gucs :=
  mkSession (guc_volume_id d) (guc_suppress_undo d) v.

Definition empty_db : db :=
  mkDb ∅ ∅ ∅ ∅ ∅ ∅ ∅ (mkVolumes ∅ ∅ ∅) (mkUndoTables [] [] [] [] []) (mkSession None None None) (mkOverlay ∅ ∅ ∅).

(** ** Capture triggers *)

(** The value of [current_setting('secafs.suppress_undo', true)]. *)
Definition suppress_setting (d : db) : option string :=
  match guc_suppress_local (session d) with
  | Some v => Some v
  | None => guc_suppress_undo (session d)
  end.

(** The guards every trigger function starts with: the volume and snapshot a
    before-image is journalled under, or [None] when the trigger returns early. *)
Definition capture_target (d : db) : option (string * Z) :=
  match guc_volume_id (session d) with
  | None => None
  | Some vid =>
      if decide (vid = "") then None
      else if decide (suppress_setting d = Some "true") then None
      else match fs_volume_state (volumes d) !! vid with
           | None => None
           | Some st => if rollback_enabled st then Some (vid, current_snap_id st) else None
           end
  end.

(** What a trigger inserts for [TG_OP] on key [k] with before-image [old]. *)
Definition undo_entry {K R} (d : db) (op : UndoOp) (k : K) (old : option R)
    : list (undo_row K R) :=
  match capture_target d with
  | None => []
  | Some (vid, snap) => [mkUndo vid snap op k old]
  end.

Definition fs_inode_capture_undo (op : UndoOp) (ino : Z) (old : option inode) (d : db) : db :=
  set_undo (set_fs_inode_undo
    (undo_entry d op ino old ++ fs_inode_undo (undo d)) (undo d)) d.
Definition fs_dentry_capture_undo (op : UndoOp) (id : Z) (old : option (string * Z * Z)) (d : db) : db :=
  set_undo (set_fs_dentry_undo
    (undo_entry d op id old ++ fs_dentry_undo (undo d)) (undo d)) d.
Definition fs_data_capture_undo (op : UndoOp) (k : Z * Z) (old : option (list byte)) (d : db) : db :=
  set_undo (set_fs_data_undo
    (undo_entry d op k old ++ fs_data_undo (undo d)) (undo d)) d.
Definition fs_symlink_capture_undo (op : UndoOp) (ino : Z) (old : option string) (d : db) : db :=
  set_undo (set_fs_symlink_undo
    (undo_entry d op ino old ++ fs_symlink_undo (undo d)) (undo d)) d.
Definition kv_store_capture_undo (op : UndoOp) (k : string) (old : option kv) (d : db) : db :=
  set_undo (set_kv_store_undo
    (undo_entry d op k old ++ kv_store_undo (undo d)) (undo d)) d.

(** ** Row-level writes

    Each changes one row and fires its trigger; an absent row is left alone. *)

(** [ON DELETE CASCADE] from [fs_inode] through [fs_volumes] to
    [fs_volume_state] and [fs_snapshots]. *)
Definition cascade_volumes (ino : Z) (d : db) : db :=
  let gone := dom (filter (λ kv, kv.2 = ino) (fs_volumes (volumes d))) in
  set_volumes (mkVolumes
    (filter (λ kv, kv.1 ∉ gone) (fs_volumes (volumes d)))
    (filter (λ kv, kv.1 ∉ gone) (fs_volume_state (volumes d)))
    (filter (λ kv, kv.1.1 ∉ gone) (fs_snapshots (volumes d)))) d.

Definition insert_inode_row (ino : Z) (r : inode) (d : db) : option db :=
  match fs_inode d !! ino with
  | Some _ => None
  | None => Some (fs_inode_capture_undo UInsert ino None (set_fs_inode (<[ino:=r]> (fs_inode d)) d))
  end.
Definition update_inode_row (f : inode → inode) (ino : Z) (d : db) : db :=
  match fs_inode d !! ino with
  | None => d
  | Some old =>
      fs_inode_capture_undo UUpdate ino (Some old) (set_fs_inode (<[ino:=f old]> (fs_inode d)) d)
  end.
(** The referential action is a system trigger whose name sorts before
    [tr_fs_inode_undo], so it runs first. *)
Definition delete_inode_row (ino : Z) (d : db) : db :=
  match fs_inode d !! ino with
  | None => d
  | Some old =>
      fs_inode_capture_undo UDelete ino (Some old)
        (cascade_volumes ino (set_fs_inode (delete ino (fs_inode d)) d))
  end.

(** Whether the primary key [id] of [fs_dentry] is in use. *)
Definition dentry_id_taken (id : Z) (d : db) : bool :=
  bool_decide (filter (λ kv, d_id kv.2 = id) (fs_dentry d) ≠ ∅).
Definition insert_dentry_row (id : Z) (name : string) (parent ino : Z) (d : db) : option db :=
  if dentry_id_taken id d then None
  else match fs_dentry d !! (parent, name) with
       | Some _ => None
       | None =>
           Some (fs_dentry_capture_undo UInsert id None
             (set_fs_dentry (<[(parent, name):=mkDentry id ino]> (fs_dentry d)) d))
       end.
Definition delete_dentry_row (parent : Z) (name : string) (d : db) : db :=
  match fs_dentry d !! (parent, name) with
  | None => d
  | Some e =>
      fs_dentry_capture_undo UDelete (d_id e) (Some (name, parent, d_ino e))
        (set_fs_dentry (delete (parent, name) (fs_dentry d)) d)
  end.
(** [UPDATE fs_dentry SET parent_ino = np, name = nn WHERE parent_ino = p AND name = n]. *)
Definition move_dentry_row (p : Z) (n : string) (np : Z) (nn : string) (d : db) : option db :=
  match fs_dentry d !! (p, n) with
  | None => Some d
  | Some e =>
      if decide ((np, nn) ≠ (p, n) ∧ is_Some (fs_dentry d !! (np, nn))) then None
      else Some (fs_dentry_capture_undo UUpdate (d_id e) (Some (n, p, d_ino e))
             (set_fs_dentry (<[(np, nn):=e]> (delete (p, n) (fs_dentry d))) d))
  end.

Definition insert_data_row (k : Z * Z) (b : list byte) (d : db) : option db :=
  match fs_data d !! k with
  | Some _ => None
  | None => Some (fs_data_capture_undo UInsert k None (set_fs_data (<[k:=b]> (fs_data d)) d))
  end.
Definition update_data_row (k : Z * Z) (b : list byte) (d : db) : db :=
  match fs_data d !! k with
  | None => d
  | Some old => fs_data_capture_undo UUpdate k (Some old) (set_fs_data (<[k:=b]> (fs_data d)) d)
  end.
Definition delete_data_row (k : Z * Z) (d : db) : db :=
  match fs_data d !! k with
  | None => d
  | Some old => fs_data_capture_undo UDelete k (Some old) (set_fs_data (delete k (fs_data d)) d)
  end.
(** [INSERT .. ON CONFLICT (ino, chunk_index) DO UPDATE SET data = EXCLUDED.data]. *)
Definition upsert_data_row (k : Z * Z) (b : list byte) (d : db) : db :=
  match fs_data d !! k with
  | Some _ => update_data_row k b d
  | None => default d (insert_data_row k b d)
  end.
(** [DELETE FROM fs_data WHERE ..]: the rows that match, one by one. *)
Definition delete_data_where (P : Z * Z → bool) (d : db) : db :=
  foldr delete_data_row d ((map_to_list (filter (λ kv, P kv.1 = true) (fs_data d))).*1).

Definition insert_symlink_row (ino : Z) (target : string) (d : db) : option db :=
  match fs_symlink d !! ino with
  | Some _ => None
  | None =>
      Some (fs_symlink_capture_undo UInsert ino None
        (set_fs_symlink (<[ino:=target]> (fs_symlink d)) d))
  end.
Definition delete_symlink_row (ino : Z) (d : db) : db :=
  match fs_symlink d !! ino with
  | None => d
  | Some old =>
      fs_symlink_capture_undo UDelete ino (Some old)
        (set_fs_symlink (delete ino (fs_symlink d)) d)
  end.

Definition insert_kv_row (k : string) (r : kv) (d : db) : option db :=
  match kv_store d !! k with
  | Some _ => None
  | None => Some (kv_store_capture_undo UInsert k None (set_kv_store (<[k:=r]> (kv_store d)) d))
  end.
Definition update_kv_row (f : kv → kv) (k : string) (d : db) : db :=
  match kv_store d !! k with
  | None => d
  | Some old =>
      kv_store_capture_undo UUpdate k (Some old) (set_kv_store (<[k:=f old]> (kv_store d)) d)
  end.
Definition delete_kv_row (k : string) (d : db) : db :=
  match kv_store d !! k with
  | None => d
  | Some old =>
      kv_store_capture_undo UDelete k (Some old) (set_kv_store (delete k (kv_store d)) d)
  end.

(** [DELETE FROM fs_dentry WHERE ..]: the rows that match, one by one. *)
Definition delete_dentry_where (P : Z * string → dentry → bool) (d : db) : db :=
  foldr (λ k d, delete_dentry_row k.1 k.2 d) d
    ((map_to_list (filter (λ kv, P kv.1 kv.2 = true) (fs_dentry d))).*1).

(** The volume tables have no triggers.  [root_ino] references [fs_inode], and
    [volume_id] in the two other tables [fs_volumes]; a snapshot's label is unique in its
    volume when it is not [NULL]. *)
Definition insert_volume_row (id : string) (root : Z) (d : db) : option db :=
  match fs_volumes (volumes d) !! id, fs_inode d !! root with
  | None, Some _ => Some (set_volumes (set_fs_volumes (<[id:=root]> (fs_volumes (volumes d))) (volumes d)) d)
  | _, _ => None
  end.
Definition delete_volume_row (id : string) (d : db) : db :=
  set_volumes (mkVolumes
    (delete id (fs_volumes (volumes d)))
    (delete id (fs_volume_state (volumes d)))
    (filter (λ kv, kv.1.1 ≠ id) (fs_snapshots (volumes d)))) d.
Definition insert_volume_state_row (id : string) (st : volume_state) (d : db) : option db :=
  match fs_volume_state (volumes d) !! id, fs_volumes (volumes d) !! id with
  | None, Some _ =>
      Some (set_volumes (set_fs_volume_state (<[id:=st]> (fs_volume_state (volumes d))) (volumes d)) d)
  | _, _ => None
  end.
Definition update_volume_state_row (f : volume_state → volume_state) (id : string) (d : db) : db :=
  set_volumes (set_fs_volume_state (alter f id (fs_volume_state (volumes d))) (volumes d)) d.
Definition label_taken (vid : string) (label : option string) (d : db) : bool :=
  match label with
  | None => false
  | Some l =>
      bool_decide (filter (λ kv, kv.1.1 = vid ∧ sn_label kv.2 = Some l)
        (fs_snapshots (volumes d)) ≠ ∅)
  end.
Definition insert_snapshot_row (vid : string) (snap : Z) (r : snapshot_row) (d : db) : option db :=
  match fs_snapshots (volumes d) !! (vid, snap), fs_volumes (volumes d) !! vid with
  | None, Some _ =>
      if label_taken vid (sn_label r) d then None
      else Some (set_volumes (set_fs_snapshots (<[(vid, snap):=r]> (fs_snapshots (volumes d))) (volumes d)) d)
  | _, _ => None
  end.

(** ** What the row writes do to the tables

    The undo tables are the only thing a trigger touches, so each write is
    described by its effect on the file-system tables and a frame. *)

(** A row write changes one table: case on whether the row is there. *)
Ltac row_frame :=
  unfold update_inode_row, delete_inode_row, delete_dentry_row, delete_symlink_row,
    delete_data_row, upsert_data_row, insert_data_row, update_data_row;
  repeat case_match; done.

Section row_facts.
Implicit Types d : db.

Lemma fs_inode_update_row f ino d :
  fs_inode (update_inode_row f ino d) = alter f ino (fs_inode d).
Proof.
  unfold update_inode_row. destruct (fs_inode d !! ino) as [r|] eqn:Hr; simpl.
  - apply map_eq. intros j. rewrite lookup_insert, lookup_alter. case_decide; [|done].
    subst. by rewrite Hr.
  - apply map_eq. intros j. rewrite lookup_alter. case_decide; [|done].
    subst. by rewrite Hr.
Qed.
Lemma fs_inode_delete_row ino d :
  fs_inode (delete_inode_row ino d) = delete ino (fs_inode d).
Proof.
  unfold delete_inode_row. destruct (fs_inode d !! ino) eqn:Hr; simpl; [done|].
  by rewrite delete_id.
Qed.
Lemma fs_dentry_delete_row p n d :
  fs_dentry (delete_dentry_row p n d) = delete (p, n) (fs_dentry d).
Proof.
  unfold delete_dentry_row. destruct (fs_dentry d !! (p, n)) eqn:Hr; simpl; [done|].
  by rewrite delete_id.
Qed.
Lemma fs_symlink_delete_row ino d :
  fs_symlink (delete_symlink_row ino d) = delete ino (fs_symlink d).
Proof.
  unfold delete_symlink_row. destruct (fs_symlink d !! ino) eqn:Hr; simpl; [done|].
  by rewrite delete_id.
Qed.
Lemma fs_data_delete_row k d :
  fs_data (delete_data_row k d) = delete k (fs_data d).
Proof.
  unfold delete_data_row. destruct (fs_data d !! k) eqn:Hr; simpl; [done|].
  by rewrite delete_id.
Qed.
Lemma fs_data_upsert_row k b d :
  fs_data (upsert_data_row k b d) = <[k:=b]> (fs_data d).
Proof.
  unfold upsert_data_row, update_data_row, insert_data_row.
  by destruct (fs_data d !! k) eqn:Hr; simpl.
Qed.
Lemma fs_data_update_row k b d :
  is_Some (fs_data d !! k) → fs_data (update_data_row k b d) = <[k:=b]> (fs_data d).
Proof. intros [x Hx]. unfold update_data_row. by rewrite Hx. Qed.

Lemma fs_dentry_update_inode_row f ino d : fs_dentry (update_inode_row f ino d) = fs_dentry d.
Proof. row_frame. Qed.
Lemma fs_data_update_inode_row f ino d : fs_data (update_inode_row f ino d) = fs_data d.
Proof. row_frame. Qed.
Lemma fs_symlink_update_inode_row f ino d : fs_symlink (update_inode_row f ino d) = fs_symlink d.
Proof. row_frame. Qed.
Lemma fs_dentry_delete_inode_row ino d : fs_dentry (delete_inode_row ino d) = fs_dentry d.
Proof. row_frame. Qed.
Lemma fs_data_delete_inode_row ino d : fs_data (delete_inode_row ino d) = fs_data d.
Proof. row_frame. Qed.
Lemma fs_symlink_delete_inode_row ino d : fs_symlink (delete_inode_row ino d) = fs_symlink d.
Proof. row_frame. Qed.
Lemma fs_inode_delete_dentry_row p n d : fs_inode (delete_dentry_row p n d) = fs_inode d.
Proof. row_frame. Qed.
Lemma fs_data_delete_dentry_row p n d : fs_data (delete_dentry_row p n d) = fs_data d.
Proof. row_frame. Qed.
Lemma fs_symlink_delete_dentry_row p n d : fs_symlink (delete_dentry_row p n d) = fs_symlink d.
Proof. row_frame. Qed.
Lemma fs_inode_delete_symlink_row ino d : fs_inode (delete_symlink_row ino d) = fs_inode d.
Proof. row_frame. Qed.
Lemma fs_dentry_delete_symlink_row ino d : fs_dentry (delete_symlink_row ino d) = fs_dentry d.
Proof. row_frame. Qed.
Lemma fs_data_delete_symlink_row ino d : fs_data (delete_symlink_row ino d) = fs_data d.
Proof. row_frame. Qed.
Lemma fs_inode_delete_data_row k d : fs_inode (delete_data_row k d) = fs_inode d.
Proof. row_frame. Qed.
Lemma fs_dentry_delete_data_row k d : fs_dentry (delete_data_row k d) = fs_dentry d.
Proof. row_frame. Qed.
Lemma fs_symlink_delete_data_row k d : fs_symlink (delete_data_row k d) = fs_symlink d.
Proof. row_frame. Qed.
Lemma fs_inode_update_data_row k b d : fs_inode (update_data_row k b d) = fs_inode d.
Proof. row_frame. Qed.
Lemma fs_dentry_update_data_row k b d : fs_dentry (update_data_row k b d) = fs_dentry d.
Proof. row_frame. Qed.
Lemma fs_symlink_update_data_row k b d : fs_symlink (update_data_row k b d) = fs_symlink d.
Proof. row_frame. Qed.
Lemma fs_inode_upsert_data_row k b d : fs_inode (upsert_data_row k b d) = fs_inode d.
Proof. row_frame. Qed.
Lemma fs_dentry_upsert_data_row k b d : fs_dentry (upsert_data_row k b d) = fs_dentry d.
Proof. row_frame. Qed.
Lemma fs_symlink_upsert_data_row k b d : fs_symlink (upsert_data_row k b d) = fs_symlink d.
Proof. row_frame. Qed.

(** A batch of row deletions. *)
Lemma fs_data_foldr_delete ks d k :
  fs_data (foldr delete_data_row d ks) !! k =
    if decide (k ∈ ks) then None else fs_data d !! k.
Proof.
  induction ks as [|k' ks IH]; [done|]. simpl foldr.
  rewrite fs_data_delete_row, lookup_delete, IH.
  repeat case_decide; set_solver.
Qed.
Lemma fs_data_delete_where P d :
  fs_data (delete_data_where P d) = filter (λ kv, P kv.1 = false) (fs_data d).
Proof.
  apply map_eq. intros k. unfold delete_data_where. rewrite fs_data_foldr_delete.
  assert (Hin : k ∈ (map_to_list (filter (λ kv, P kv.1 = true) (fs_data d))).*1 ↔
                is_Some (fs_data d !! k) ∧ P k = true).
  { rewrite list_elem_of_fmap. split.
    - intros ([k' v] & -> & Hel%elem_of_map_to_list).
      apply map_lookup_filter_Some in Hel as [? ?]. by eauto.
    - intros [[v Hv] HP]. exists (k, v). split; [done|].
      apply elem_of_map_to_list, map_lookup_filter_Some. done. }
  apply option_eq. intros v. rewrite map_lookup_filter_Some. simpl.
  case_decide as Hk; rewrite Hin in Hk.
  - split; [done|]. intros [Hv HP]. destruct Hk. congruence.
  - split; [|tauto]. intros Hv. split; [done|].
    destruct (P k) eqn:HP; [|done]. destruct Hk. eauto.
Qed.
Lemma delete_where_frame (proj : db → Prop) P d :
  (∀ k d', proj d' → proj (delete_data_row k d')) → proj d → proj (delete_data_where P d).
Proof.
  intros Hstep Hd. unfold delete_data_where.
  induction (_.*1) as [|k ks IH]; simpl; auto.
Qed.
Lemma fs_inode_delete_data_where P d : fs_inode (delete_data_where P d) = fs_inode d.
Proof.
  apply (delete_where_frame (λ x, fs_inode x = fs_inode d)); [|done].
  intros. by rewrite fs_inode_delete_data_row.
Qed.
Lemma fs_dentry_delete_data_where P d : fs_dentry (delete_data_where P d) = fs_dentry d.
Proof.
  apply (delete_where_frame (λ x, fs_dentry x = fs_dentry d)); [|done].
  intros. by rewrite fs_dentry_delete_data_row.
Qed.
Lemma fs_symlink_delete_data_where P d : fs_symlink (delete_data_where P d) = fs_symlink d.
Proof.
  apply (delete_where_frame (λ x, fs_symlink x = fs_symlink d)); [|done].
  intros. by rewrite fs_symlink_delete_data_row.
Qed.
End row_facts.

Create Rewrite HintDb secafs_db.
#[export] Hint Rewrite fs_inode_update_row fs_inode_delete_row fs_dentry_delete_row
  fs_symlink_delete_row fs_data_delete_row fs_data_upsert_row fs_data_delete_where
  fs_inode_delete_data_where fs_dentry_delete_data_where fs_symlink_delete_data_where
  fs_dentry_update_inode_row fs_data_update_inode_row fs_symlink_update_inode_row
  fs_dentry_delete_inode_row fs_data_delete_inode_row fs_symlink_delete_inode_row
  fs_inode_delete_dentry_row fs_data_delete_dentry_row fs_symlink_delete_dentry_row
  fs_inode_delete_symlink_row fs_dentry_delete_symlink_row fs_data_delete_symlink_row
  fs_inode_delete_data_row fs_dentry_delete_data_row fs_symlink_delete_data_row
  fs_inode_update_data_row fs_dentry_update_data_row fs_symlink_update_data_row
  fs_inode_upsert_data_row fs_dentry_upsert_data_row fs_symlink_upsert_data_row : secafs_db.
