(* ===== verification/Monad.v ===== *)
(** * The running system: environment, state and effects

    An operation of the SDK runs against a PostgreSQL connection, the shared
    dentry cache and the system clock.  [Env] collects what is outside the
    repository: when a statement fails, what the clock says, the collation of
    [ORDER BY name], the process credentials, and the [lru] crate.  [state] is what
    the operations read and write, and [M] the effect they run in: state passing
    with Rust's [Result] and panics.

    Transactions follow [DbTransaction] of [sdk/rust/src/db.rs]: [BEGIN], [COMMIT]
    and [ROLLBACK] are ordinary statements, a statement that fails inside a
    transaction aborts it, and dropping a [DbTransaction] does nothing. *)

From S2P Require Import Prelude Types Tables.

(** ** Environment *)

Class Env := {
  (** Whether the [n]-th call to the database fails. *)
  env_fault : nat → bool;
  (** The [n]-th [SystemTime::now().duration_since(UNIX_EPOCH)] in seconds and
      nanoseconds, [None] when the clock is before the epoch. *)
  env_clock : nat → option (Z * Z);
  (** The server's [NOW()] at the [n]-th statement, in microseconds since the epoch. *)
  env_server_now : nat → Z;
  (** [committed_at::text]: a time stamp in the session's time zone and date style. *)
  env_ts_text : Z → string;
  (** The [chrono] crate's [DateTime::parse_from_rfc3339], as the instant it denotes. *)
  env_rfc3339 : string → option Z;
  (** [libc::getuid()], [libc::getgid()]. *)
  env_uid : Z;
  env_gid : Z;
  (** The collation of the database: the order [ORDER BY name] sorts by. *)
  env_collate : string → string → bool;
  (** The [lru] crate's [LruCache<(i64, String), i64>]. *)
  lru_cache : Type;
  lru_new : Z → lru_cache;
  lru_get : Z * string → lru_cache → option Z * lru_cache;
  lru_put : Z * string → Z → lru_cache → lru_cache;
  lru_pop : Z * string → lru_cache → lru_cache;
}.

(** [EXTRACT(EPOCH FROM t)::BIGINT]: the seconds, rounded to the nearest. *)
Definition epoch_secs (us : Z) : Z := (us + 500000) `div` 1000000.

(** What an [LruCache] returns for a key. *)
Definition lru_peek {E : Env} (c : lru_cache) (k : Z * string) : option Z :=
  (lru_get k c).1.

(** The documented behaviour of [lru] the code relies on.  An insertion may evict
    any other entry; no operation invents one. *)
Class LruLaws (E : Env) := {
  lru_new_spec n k : lru_peek (lru_new n) k = None;
  lru_get_spec c k k' : lru_peek (lru_get k c).2 k' = lru_peek c k';
  lru_put_eq c k v : lru_peek (lru_put k v c) k = Some v;
  lru_put_ne c k k' v w :
    k ≠ k' → lru_peek (lru_put k v c) k' = Some w → lru_peek c k' = Some w;
  lru_pop_eq c k : lru_peek (lru_pop k c) k = None;
  lru_pop_ne c k k' : k ≠ k' → lru_peek (lru_pop k c) k' = lru_peek c k';
}.

(** A collation is a total preorder on names. *)
Class CollationLaws (E : Env) := {
  collate_total x y : env_collate x y = true ∨ env_collate y x = true;
  collate_trans x y z :
    env_collate x y = true → env_collate y z = true → env_collate x z = true;
}.

(** An environment in which no call fails and the clock is past the epoch. *)
Class Quiet (E : Env) := {
  quiet_fault n : env_fault n = false;
  quiet_clock n : is_Some (env_clock n);
}.

(** ** State *)

(** [txn] is the open transaction of the connection: its working copy of the
    database and whether a failed statement has aborted it.  [seq_ino],
    [seq_dentry] and [seq_tool] are the last values of the [BIGSERIAL] sequences, which no
    rollback takes back.  [n_stmt] and [n_clock] count the calls to the database
    and the clock. *)
Record state {E : Env} := mkState {
  committed : db;
  txn : option (db * bool);
  seq_ino : Z;
  seq_dentry : Z;
  seq_tool : Z;
  cache : lru_cache;
  n_stmt : nat;
  n_clock : nat;
}.

Definition M {E : Env} (A : Type) : Type := state → outcome A * state.

Section monad.
Context {E : Env}.

#[global] Instance M_ret : MRet M := λ A a s, (Ok a, s).
#[global] Instance M_bind : MBind M := λ A B k m s,
  match m s with
  | (Ok a, s') => k a s'
  | (Err e, s') => (Err e, s')
  | (Panic, s') => (Panic, s')
  end.

Definition throw {A} (e : Error) : M A := λ s, (Err e, s).
(** [return Err(FsError::..into())]. *)
Definition fail {A} (e : FsError) : M A := throw (EFs e).
Definition panic {A} : M A := λ s, (Panic, s).
(** [.ok_or(e)?] *)
Definition ok_or {A} (e : FsError) (o : option A) : M A :=
  match o with Some a => mret a | None => fail e end.
(** [.ok_or_else(|| Error::Internal(msg))?] *)
Definition ok_or_internal {A} (msg : string) (o : option A) : M A :=
  match o with Some a => mret a | None => throw (EInternal msg) end.
(** [let result: Result<()> = async { .. }.await]: errors become a value, a panic
    still unwinds. *)
Definition attempt {A} (m : M A) : M (outcome A) := λ s,
  match m s with
  | (Panic, s') => (Panic, s')
  | (r, s') => (Ok r, s')
  end.

(** The database the connection sees: the transaction's copy when one is open. *)
Definition cur (s : state) : db :=
  match txn s with Some (d, _) => d | None => committed s end.
Definition set_cur (d : db) (s : state) : state :=
  match txn s with
  | Some (_, ab) =>
      mkState _ (committed s) (Some (d, ab)) (seq_ino s) (seq_dentry s) (seq_tool s) (cache s)
        (n_stmt s) (n_clock s)
  | None =>
      mkState _ d None (seq_ino s) (seq_dentry s) (seq_tool s) (cache s) (n_stmt s) (n_clock s)
  end.
Definition set_txn (t : option (db * bool)) (s : state) : state :=
  mkState _ (committed s) t (seq_ino s) (seq_dentry s) (seq_tool s) (cache s) (n_stmt s) (n_clock s).
Definition set_committed (d : db) (s : state) : state :=
  mkState _ d (txn s) (seq_ino s) (seq_dentry s) (seq_tool s) (cache s) (n_stmt s) (n_clock s).
Definition set_cache (c : lru_cache) (s : state) : state :=
  mkState _ (committed s) (txn s) (seq_ino s) (seq_dentry s) (seq_tool s) c (n_stmt s) (n_clock s).
Definition set_seqs (i j : Z) (s : state) : state :=
  mkState _ (committed s) (txn s) i j (seq_tool s) (cache s) (n_stmt s) (n_clock s).
Definition set_seq_tool (i : Z) (s : state) : state :=
  mkState _ (committed s) (txn s) (seq_ino s) (seq_dentry s) i (cache s) (n_stmt s) (n_clock s).
Definition tick (s : state) : state :=
  mkState _ (committed s) (txn s) (seq_ino s) (seq_dentry s) (seq_tool s) (cache s) (S (n_stmt s)) (n_clock s).
Definition tock (s : state) : state :=
  mkState _ (committed s) (txn s) (seq_ino s) (seq_dentry s) (seq_tool s) (cache s) (n_stmt s) (S (n_clock s)).

Definition aborted (s : state) : bool :=
  match txn s with Some (_, ab) => ab | None => false end.
Definition abort (s : state) : state :=
  match txn s with Some (d, _) => set_txn (Some (d, true)) s | None => s end.

(** ** Statements *)

(** Run one statement.  It fails when the database does, when the transaction is
    already aborted, or when it violates a constraint ([None]); a failure inside
    a transaction aborts it. *)
Definition stmt {A} (body : state → option (A * state)) : M A := λ s,
  if env_fault (n_stmt s) || aborted s then (Err EPostgres, abort (tick s))
  else match body (tick s) with
       | Some (a, s') => (Ok a, s')
       | None => (Err EPostgres, abort (tick s))
       end.

(** [conn.query(..)] / [stmt.query(..)]. *)
Definition query {A} (f : db → A) : M A := stmt (λ s, Some (f (cur s), s)).
(** [conn.execute(..)] / [stmt.execute(..)]. *)
Definition execute (f : db → option db) : M unit :=
  stmt (λ s, d ← f (cur s); Some (tt, set_cur d s)).
(** A statement that cannot violate a constraint. *)
Definition execute_ (f : db → db) : M unit := execute (λ d, Some (f d)).
(** [conn.execute(..)] where the number of rows affected is used. *)
Definition execute_count (f : db → db * Z) : M Z :=
  stmt (λ s, let '(d, n) := f (cur s) in Some (n, set_cur d s)).
(** A statement with a column default of [NOW()]. *)
Definition execute_now (f : Z → db → option db) : M unit :=
  stmt (λ s, d ← f (env_server_now (n_stmt s)) (cur s); Some (tt, set_cur d s)).
(** A call whose parameters the driver refuses to encode: the statement has been prepared
    but is not executed. *)
Definition bind_error {A} : M A := λ s,
  if env_fault (n_stmt s) || aborted s then (Err EPostgres, abort (tick s))
  else (Err EPostgres, tick s).
(** [SET LOCAL secafs.suppress_undo = ..]; outside a transaction it only warns. *)
Definition set_local_suppress (v : string) : M unit :=
  stmt (λ s, Some (tt,
    match txn s with
    | Some _ => set_cur (set_session (set_guc_suppress_local (Some v) (session (cur s))) (cur s)) s
    | None => s
    end)).
(** [query_row]: the first row of an [INSERT .. RETURNING ino] that draws [ino] from
    the sequence of [fs_inode]. *)
Definition insert_inode (r : inode) : M DbRow :=
  stmt (λ s,
    let ino := seq_ino s + 1 in
    d ← insert_inode_row ino r (cur s);
    Some ([Integer ino], set_cur d (set_seqs ino (seq_dentry s) s))).
(** [INSERT INTO fs_dentry (name, parent_ino, ino) VALUES (?, ?, ?)]. *)
Definition insert_dentry (name : string) (parent ino : Z) : M unit :=
  stmt (λ s,
    let id := seq_dentry s + 1 in
    d ← insert_dentry_row id name parent ino (cur s);
    Some (tt, set_cur d (set_seqs (seq_ino s) id s))).

(** [pool.get_connection()]. *)
Definition get_connection : M unit := λ s,
  if env_fault (n_stmt s) then (Err EPostgres, tick s) else (Ok tt, tick s).

(** ** Transactions *)

(** The database after the transaction ends: [SET LOCAL] values are gone. *)
Definition end_local (d : db) : db := set_session (set_guc_suppress_local None (session d)) d.

(** [Transaction::new_unchecked]: [BEGIN]; inside a transaction it only warns. *)
Definition begin_txn : M unit := λ s,
  if env_fault (n_stmt s) || aborted s then (Err EPostgres, abort (tick s))
  else match txn s with
       | Some _ => (Ok tt, tick s)
       | None => (Ok tt, set_txn (Some (committed s, false)) (tick s))
       end.
(** [txn.commit()]: [COMMIT].  An aborted transaction is rolled back and the
    command succeeds; a [COMMIT] that fails has no effect.  A [COMMIT] that took place and
    whose acknowledgement was lost on the way back is not modelled: there the code sees the
    error and the transaction stands. *)
Definition commit_txn : M unit := λ s,
  if env_fault (n_stmt s) then (Err EPostgres, set_txn None (tick s))
  else match txn s with
       | Some (d, false) => (Ok tt, set_txn None (set_committed (end_local d) (tick s)))
       | _ => (Ok tt, set_txn None (tick s))
       end.
(** [txn.rollback()]: [ROLLBACK]. *)
Definition rollback_txn : M unit := λ s,
  if env_fault (n_stmt s) then (Err EPostgres, tick s) else (Ok tt, set_txn None (tick s)).

(** [match result { Ok(()) => { txn.commit().await?; Ok(()) } Err(e) => { let _ =
    txn.rollback().await; Err(e) } }]: the tail of the operations that finish
    their transaction on both paths. *)
Definition finish {A} (r : outcome A) : M A :=
  match r with
  | Ok a => commit_txn ≫= λ _, mret a
  | Err e => attempt rollback_txn ≫= λ _, throw e
  | Panic => panic
  end.

(** ** Clock *)

(** [SystemTime::now().duration_since(UNIX_EPOCH)?] *)
Definition now : M (Z * Z) := λ s,
  match env_clock (n_clock s) with
  | Some t => (Ok t, tock s)
  | None => (Err ETime, tock s)
  end.
(** [.. .unwrap()] *)
Definition now_unwrap : M (Z * Z) := λ s,
  match env_clock (n_clock s) with
  | Some t => (Ok t, tock s)
  | None => (Panic, tock s)
  end.
(** [.. .unwrap_or_default()] *)
Definition now_or_default : M (Z * Z) := λ s,
  (Ok (default (0, 0) (env_clock (n_clock s))), tock s).

(** ** The dentry cache *)

(** [DentryCache::get], [::insert] and [::remove]. *)
Definition cache_get (parent : Z) (name : string) : M (option Z) := λ s,
  let '(r, c) := lru_get (parent, name) (cache s) in (Ok r, set_cache c s).
Definition cache_insert (parent : Z) (name : string) (child : Z) : M unit := λ s,
  (Ok tt, set_cache (lru_put (parent, name) child (cache s)) s).
Definition cache_remove (parent : Z) (name : string) : M unit := λ s,
  (Ok tt, set_cache (lru_pop (parent, name) (cache s)) s).
End monad.

Lemma fs_inode_end_local d : fs_inode (end_local d) = fs_inode d.
Proof. done. Qed.
Lemma fs_dentry_end_local d : fs_dentry (end_local d) = fs_dentry d.
Proof. done. Qed.
Lemma fs_data_end_local d : fs_data (end_local d) = fs_data d.
Proof. done. Qed.
Lemma fs_symlink_end_local d : fs_symlink (end_local d) = fs_symlink d.
Proof. done. Qed.
#[export] Hint Rewrite fs_inode_end_local fs_dentry_end_local fs_data_end_local
  fs_symlink_end_local : secafs_db.

(** [when b { .. }]: an [if] without [else]. *)
Definition when {E : Env} (b : bool) (m : M unit) : M unit := if b then m else mret tt.

(** [for x in l { body(x)? }]. *)
Fixpoint for_each {E : Env} {A} (l : list A) (body : A → M unit) : M unit :=
  match l with
  | [] => mret tt
  | x :: l => body x ≫= λ _, for_each l body
  end.
