(* ===== verification/Wp.v ===== *)
(** * Reasoning about operations

    [wp m s Q]: running [m] in [s] ends in an outcome and a state that satisfy [Q].
    The rules of a [Quiet] environment execute an operation symbolically, statement by
    statement; [Atomic] has the rules for an environment in which any call may fail. *)

From S2P Require Import Prelude Types Tables Monad.

(** ** State projections *)
Section projections.
Context {E : Env}.
Implicit Types s : state.

Lemma cur_tick s : cur (tick s) = cur s.
Proof. done. Qed.
Lemma aborted_tick s : aborted (tick s) = aborted s.
Proof. done. Qed.
Lemma txn_tick s : txn (tick s) = txn s.
Proof. done. Qed.
Lemma committed_tick s : committed (tick s) = committed s.
Proof. done. Qed.
Lemma cache_tick s : cache (tick s) = cache s.
Proof. done. Qed.
Lemma seq_ino_tick s : seq_ino (tick s) = seq_ino s.
Proof. done. Qed.
Lemma seq_dentry_tick s : seq_dentry (tick s) = seq_dentry s.
Proof. done. Qed.
Lemma cur_tock s : cur (tock s) = cur s.
Proof. done. Qed.
Lemma aborted_tock s : aborted (tock s) = aborted s.
Proof. done. Qed.
Lemma txn_tock s : txn (tock s) = txn s.
Proof. done. Qed.
Lemma committed_tock s : committed (tock s) = committed s.
Proof. done. Qed.
Lemma cache_tock s : cache (tock s) = cache s.
Proof. done. Qed.
Lemma seq_ino_tock s : seq_ino (tock s) = seq_ino s.
Proof. done. Qed.
Lemma seq_dentry_tock s : seq_dentry (tock s) = seq_dentry s.
Proof. done. Qed.
Lemma cur_set_cache c s : cur (set_cache c s) = cur s.
Proof. done. Qed.
Lemma aborted_set_cache c s : aborted (set_cache c s) = aborted s.
Proof. done. Qed.
Lemma txn_set_cache c s : txn (set_cache c s) = txn s.
Proof. done. Qed.
Lemma committed_set_cache c s : committed (set_cache c s) = committed s.
Proof. done. Qed.
Lemma seq_ino_set_cache c s : seq_ino (set_cache c s) = seq_ino s.
Proof. done. Qed.
Lemma seq_dentry_set_cache c s : seq_dentry (set_cache c s) = seq_dentry s.
Proof. done. Qed.
Lemma cur_set_seqs i j s : cur (set_seqs i j s) = cur s.
Proof. done. Qed.
Lemma aborted_set_seqs i j s : aborted (set_seqs i j s) = aborted s.
Proof. done. Qed.
Lemma txn_set_seqs i j s : txn (set_seqs i j s) = txn s.
Proof. done. Qed.
Lemma committed_set_seqs i j s : committed (set_seqs i j s) = committed s.
Proof. done. Qed.
Lemma cache_set_seqs i j s : cache (set_seqs i j s) = cache s.
Proof. done. Qed.
Lemma cache_set_cache c s : cache (set_cache c s) = c.
Proof. done. Qed.
Lemma seq_ino_set_seqs i j s : seq_ino (set_seqs i j s) = i.
Proof. done. Qed.
Lemma seq_dentry_set_seqs i j s : seq_dentry (set_seqs i j s) = j.
Proof. done. Qed.
Lemma cur_set_cur d s : cur (set_cur d s) = d.
Proof. unfold cur, set_cur. by destruct (txn s) as [[]|]. Qed.
Lemma aborted_set_cur d s : aborted (set_cur d s) = aborted s.
Proof. unfold aborted, set_cur. by destruct (txn s) as [[]|]. Qed.
Lemma cache_set_cur d s : cache (set_cur d s) = cache s.
Proof. unfold aborted, set_cur. by destruct (txn s) as [[]|]. Qed.
Lemma seq_ino_set_cur d s : seq_ino (set_cur d s) = seq_ino s.
Proof. unfold aborted, set_cur. by destruct (txn s) as [[]|]. Qed.
Lemma seq_dentry_set_cur d s : seq_dentry (set_cur d s) = seq_dentry s.
Proof. unfold aborted, set_cur. by destruct (txn s) as [[]|]. Qed.
Lemma txn_set_cur d s : txn (set_cur d s) = (λ t, (d, t.2)) <$> txn s.
Proof. unfold set_cur. by destruct (txn s) as [[]|] eqn:Ht; rewrite ?Ht. Qed.
Lemma cache_set_txn t s : cache (set_txn t s) = cache s.
Proof. done. Qed.
Lemma seq_ino_set_txn t s : seq_ino (set_txn t s) = seq_ino s.
Proof. done. Qed.
Lemma seq_dentry_set_txn t s : seq_dentry (set_txn t s) = seq_dentry s.
Proof. done. Qed.
Lemma committed_set_txn t s : committed (set_txn t s) = committed s.
Proof. done. Qed.
Lemma txn_set_txn t s : txn (set_txn t s) = t.
Proof. done. Qed.
Lemma cache_set_committed d s : cache (set_committed d s) = cache s.
Proof. done. Qed.
Lemma seq_ino_set_committed d s : seq_ino (set_committed d s) = seq_ino s.
Proof. done. Qed.
Lemma seq_dentry_set_committed d s : seq_dentry (set_committed d s) = seq_dentry s.
Proof. done. Qed.
Lemma txn_set_committed d s : txn (set_committed d s) = txn s.
Proof. done. Qed.
Lemma committed_set_committed d s : committed (set_committed d s) = d.
Proof. done. Qed.
Lemma cur_set_txn_open d ab s : cur (set_txn (Some (d, ab)) s) = d.
Proof. done. Qed.
Lemma cur_set_txn_closed s : cur (set_txn None s) = committed s.
Proof. done. Qed.
Lemma aborted_set_txn_open d ab s : aborted (set_txn (Some (d, ab)) s) = ab.
Proof. done. Qed.
Lemma aborted_set_txn_closed s : aborted (set_txn None s) = false.
Proof. done. Qed.
End projections.

Create Rewrite HintDb secafs_state.
#[export] Hint Rewrite @cur_tick @aborted_tick @txn_tick @committed_tick @cache_tick
  @seq_ino_tick @seq_dentry_tick @cur_tock @aborted_tock @txn_tock @committed_tock @cache_tock
  @seq_ino_tock @seq_dentry_tock @cur_set_cache @aborted_set_cache @txn_set_cache
  @committed_set_cache @seq_ino_set_cache @seq_dentry_set_cache @cur_set_seqs
  @aborted_set_seqs @txn_set_seqs @committed_set_seqs @cache_set_seqs @cache_set_cache
  @seq_ino_set_seqs @seq_dentry_set_seqs @cur_set_cur @aborted_set_cur @cache_set_cur
  @seq_ino_set_cur @seq_dentry_set_cur @txn_set_cur @cache_set_txn @seq_ino_set_txn
  @seq_dentry_set_txn @committed_set_txn @txn_set_txn @cache_set_committed
  @seq_ino_set_committed @seq_dentry_set_committed @txn_set_committed @committed_set_committed
  @cur_set_txn_open @cur_set_txn_closed @aborted_set_txn_open @aborted_set_txn_closed :
  secafs_state.

(** Simplify the projections of an updated state. *)
Ltac st := autorewrite with secafs_state in *.

Section wp.
Context {E : Env}.
Implicit Types s : state.

Definition wp {A} (m : M A) (s : state) (Q : outcome A → state → Prop) : Prop :=
  Q (m s).1 (m s).2.

Lemma wp_mono {A} (m : M A) s (Q Q' : outcome A → state → Prop) :
  (∀ r s', Q r s' → Q' r s') → wp m s Q → wp m s Q'.
Proof. unfold wp. auto. Qed.
Lemma wp_elim {A} (m : M A) s Q r s' : m s = (r, s') → wp m s Q → Q r s'.
Proof. unfold wp. by intros ->. Qed.
Lemma wp_intro {A} (m : M A) s (Q : outcome A → state → Prop) :
  wp m s Q → ∃ r s', m s = (r, s') ∧ Q r s'.
Proof. unfold wp. destruct (m s) as [r s']. eauto. Qed.
Lemma wp_proj {A} (m : M A) s (Q : outcome A → Prop) : wp m s (λ r _, Q r) → Q (m s).1.
Proof. done. Qed.
Lemma wp_ok {A} (m : M A) s (a : A) (P : state → Prop) :
  wp m s (λ r s', r = Ok a ∧ P s') → ∃ s', m s = (Ok a, s') ∧ P s'.
Proof. unfold wp. destruct (m s) as [r s']. simpl. intros [-> ?]. eauto. Qed.
Lemma wp_err {A} (m : M A) s e (P : state → Prop) :
  wp m s (λ r s', r = Err e ∧ P s') → ∃ s', m s = (Err e, s') ∧ P s'.
Proof. unfold wp. destruct (m s) as [r s']. simpl. intros [-> ?]. eauto. Qed.
Lemma run_pair {A} (m : M A) s r : (m s).1 = r → m s = (r, (m s).2).
Proof. intros <-. by destruct (m s). Qed.
Lemma wp_ret {A} (a : A) s (Q : outcome A → state → Prop) : Q (Ok a) s → wp (mret a) s Q.
Proof. done. Qed.
Lemma wp_throw {A} e s (Q : outcome A → state → Prop) : Q (Err e) s → wp (throw e) s Q.
Proof. done. Qed.
Lemma wp_fail {A} e s (Q : outcome A → state → Prop) : Q (Err (EFs e)) s → wp (fail e) s Q.
Proof. done. Qed.
Lemma wp_bind {A B} (m : M A) (k : A → M B) s Q :
  wp m s (λ r s', match r with
                  | Ok a => wp (k a) s' Q
                  | Err e => Q (Err e) s'
                  | Panic => Q Panic s'
                  end) →
  wp (m ≫= k) s Q.
Proof. unfold wp, mbind, M_bind. by destruct (m s) as [[] ?]. Qed.
Lemma wp_attempt {A} (m : M A) s (Q : outcome (outcome A) → state → Prop) :
  wp m s (λ r s', match r with Panic => Q Panic s' | _ => Q (Ok r) s' end) →
  wp (attempt m) s Q.
Proof. unfold wp, attempt. by destruct (m s) as [[] ?]. Qed.
Lemma wp_cache_get p n s Q :
  Q (Ok (lru_peek (cache s) (p, n))) (set_cache (lru_get (p, n) (cache s)).2 s) →
  wp (cache_get p n) s Q.
Proof.
  unfold wp, cache_get, lru_peek. by destruct (lru_get _ _).
Qed.
Lemma wp_cache_insert p n i s (Q : outcome unit → state → Prop) :
  Q (Ok tt) (set_cache (lru_put (p, n) i (cache s)) s) → wp (cache_insert p n i) s Q.
Proof. done. Qed.
Lemma wp_cache_remove p n s (Q : outcome unit → state → Prop) :
  Q (Ok tt) (set_cache (lru_pop (p, n) (cache s)) s) → wp (cache_remove p n) s Q.
Proof. done. Qed.

(** *** Rules of a quiet environment *)
Context {HQ : Quiet E}.

Lemma wp_stmt {A} (body : state → option (A * state)) s a s' Q :
  aborted s = false → body (tick s) = Some (a, s') → Q (Ok a) s' → wp (stmt body) s Q.
Proof. unfold wp, stmt. rewrite quiet_fault. simpl. by intros -> ->. Qed.
Lemma wp_query {A} (f : db → A) s Q :
  aborted s = false → Q (Ok (f (cur s))) (tick s) → wp (query f) s Q.
Proof. intros. by eapply wp_stmt. Qed.
Lemma wp_execute f d s Q :
  aborted s = false → f (cur s) = Some d → Q (Ok tt) (set_cur d (tick s)) →
  wp (execute f) s Q.
Proof.
  intros ? Hf ?. eapply wp_stmt; [done| |done]. simpl. rewrite cur_tick, Hf. done.
Qed.
Lemma wp_execute_ f s Q :
  aborted s = false → Q (Ok tt) (set_cur (f (cur s)) (tick s)) → wp (execute_ f) s Q.
Proof. intros. by eapply wp_execute. Qed.
Lemma wp_get_connection s Q : Q (Ok tt) (tick s) → wp get_connection s Q.
Proof. unfold wp, get_connection. by rewrite quiet_fault. Qed.
Lemma wp_begin s Q :
  txn s = None → Q (Ok tt) (set_txn (Some (committed s, false)) (tick s)) → wp begin_txn s Q.
Proof. unfold wp, begin_txn, aborted. intros ->. by rewrite quiet_fault. Qed.
Lemma wp_commit d s Q :
  txn s = Some (d, false) →
  Q (Ok tt) (set_txn None (set_committed (end_local d) (tick s))) → wp commit_txn s Q.
Proof. unfold wp, commit_txn. intros ->. by rewrite quiet_fault. Qed.
Lemma wp_rollback s Q : Q (Ok tt) (set_txn None (tick s)) → wp rollback_txn s Q.
Proof. unfold wp, rollback_txn. by rewrite quiet_fault. Qed.
Lemma wp_now s Q : (∀ t, Q (Ok t) (tock s)) → wp now s Q.
Proof. unfold wp, now. destruct (quiet_clock (n_clock s)) as [t ->]. intros H. apply H. Qed.
Lemma wp_now_unwrap s Q : (∀ t, Q (Ok t) (tock s)) → wp now_unwrap s Q.
Proof. unfold wp, now_unwrap. destruct (quiet_clock (n_clock s)) as [t ->]. intros H. apply H. Qed.
Lemma wp_now_or_default s (Q : outcome (Z * Z) → state → Prop) :
  (∀ t, Q (Ok t) (tock s)) → wp now_or_default s Q.
Proof. intros H. apply H. Qed.

(** A transaction that is finished on both paths: [finish] of an error rolls back
    and returns it, of a value commits. *)
Lemma wp_finish_err {A} e s (Q : outcome A → state → Prop) :
  Q (Err e) (set_txn None (tick s)) → wp (finish (Err e)) s Q.
Proof. intros. apply wp_bind, wp_attempt, wp_rollback. done. Qed.
Lemma wp_finish_ok {A} (a : A) d s Q :
  txn s = Some (d, false) →
  Q (Ok a) (set_txn None (set_committed (end_local d) (tick s))) → wp (finish (Ok a)) s Q.
Proof. intros. apply wp_bind. by eapply wp_commit. Qed.
End wp.

(** [db_step s s']: only statements ran between [s] and [s']; the transaction is the
    same one, the cache and the sequences have not moved. *)
Definition db_step {E : Env} (s s' : state) : Prop :=
  txn s' = (λ t, (cur s', t.2)) <$> txn s ∧
  (is_Some (txn s) → committed s' = committed s) ∧
  cache s' = cache s ∧ seq_ino s' = seq_ino s ∧ seq_dentry s' = seq_dentry s.

Section db_step.
Context {E : Env}.
Implicit Types s : state.

Lemma db_step_refl s : db_step s s.
Proof.
  unfold db_step, cur. destruct (txn s) as [[? ?]|]; by repeat split.
Qed.
Lemma db_step_tick s s' : db_step s s' → db_step s (tick s').
Proof. done. Qed.
Lemma db_step_tock s s' : db_step s s' → db_step s (tock s').
Proof. done. Qed.
Lemma db_step_set_cur d s s' : db_step s s' → db_step s (set_cur d s').
Proof.
  intros (Ht & Hc & ? & ? & ?). unfold db_step. st. rewrite Ht.
  split; [by destruct (txn s)|]. split; [|done].
  intros Hs. rewrite <- Hc by done. unfold set_cur. rewrite Ht.
  by destruct Hs as [[? ?] ->].
Qed.
Lemma db_step_trans s s' s'' : db_step s s' → db_step s' s'' → db_step s s''.
Proof.
  intros (Ht & Hc & ? & ? & ?) (Ht' & Hc' & ? & ? & ?).
  split; [rewrite Ht', Ht; by destruct (txn s)|]. split; [|repeat split; congruence].
  intros Hs. rewrite Hc', Hc; [done|done|]. rewrite Ht. by destruct Hs as [? ->].
Qed.
Lemma db_step_aborted s s' : db_step s s' → aborted s' = aborted s.
Proof. intros (Ht & _). unfold aborted. rewrite Ht. by destruct (txn s) as [[? ?]|]. Qed.
End db_step.

#[export] Hint Resolve db_step_refl db_step_tick db_step_tock db_step_set_cur : core.

(** One symbolic step; side conditions are left to [st; done]. *)
Ltac wp_step :=
  lazymatch goal with
  | |- wp (_ ≫= _) _ _ => apply wp_bind
  | |- wp (mret _) _ _ => apply wp_ret
  | |- wp (M_ret _ _) _ _ => apply wp_ret
  | |- wp (throw _) _ _ => apply wp_throw
  | |- wp (fail _) _ _ => apply wp_fail
  | |- wp (query _) _ _ => apply wp_query; [by st|]
  | |- wp (execute_ _) _ _ => apply wp_execute_; [by st|]
  | |- wp get_connection _ _ => apply wp_get_connection
  | |- wp now _ _ => apply wp_now; intros [? ?]
  | |- wp now_unwrap _ _ => apply wp_now_unwrap; intros [? ?]
  | |- wp now_or_default _ _ => apply wp_now_or_default; intros [? ?]
  | |- wp (cache_get _ _) _ _ => apply wp_cache_get
  | |- wp (cache_insert _ _ _) _ _ => apply wp_cache_insert
  | |- wp (cache_remove _ _) _ _ => apply wp_cache_remove
  end; cbv beta iota.
Ltac wp_steps := repeat wp_step.
