(* ===== verification/Instances.v ===== *)
(** * A concrete environment

    An instance of [Env] with a list-based least-recently-used cache, byte-wise
    collation, a clock that ticks once a second and a database that never fails.  It
    shows that the laws the theorems assume can hold, and lets the model run. *)

From S2P Require Import Prelude Types Tables Monad.
From Stdlib Require Import Ascii.

(** A cache is its capacity less one and its entries, most recent first. *)
Module ListLru.
Definition t : Type := nat * list (Z * string * Z).

Fixpoint assoc (k : Z * string) (l : list (Z * string * Z)) : option Z :=
  match l with
  | [] => None
  | (k', v) :: l => if decide (k = k') then Some v else assoc k l
  end.
Definition without (k : Z * string) (l : list (Z * string * Z)) : list (Z * string * Z) :=
  filter (λ kv, kv.1 ≠ k) l.

Definition new (n : Z) : t := (pred (Z.to_nat n), []).
Definition get (k : Z * string) (c : t) : option Z * t :=
  match assoc k c.2 with
  | Some v => (Some v, (c.1, (k, v) :: without k c.2))
  | None => (None, c)
  end.
Definition put (k : Z * string) (v : Z) (c : t) : t :=
  (c.1, take (S c.1) ((k, v) :: without k c.2)).
Definition pop (k : Z * string) (c : t) : t := (c.1, without k c.2).

Lemma get_fst k c : (get k c).1 = assoc k c.2.
Proof. unfold get. by destruct (assoc k c.2). Qed.
Lemma assoc_without_eq k l : assoc k (without k l) = None.
Proof.
  induction l as [|[k' v] l IH]; [done|]. unfold without in *. rewrite filter_cons.
  case_decide as Hk; [|done]. simpl in *. rewrite decide_False by congruence. done.
Qed.
Lemma assoc_without_ne k k' l : k ≠ k' → assoc k' (without k l) = assoc k' l.
Proof.
  intros Hne. induction l as [|[k'' v] l IH]; [done|]. unfold without in *.
  rewrite filter_cons. simpl. case_decide; simpl in *; case_decide; congruence.
Qed.
Lemma assoc_take n k l v : assoc k (take n l) = Some v → assoc k l = Some v.
Proof.
  revert n. induction l as [|[k' v'] l IH]; intros [|n]; simpl; try done.
  case_decide; [done|]. apply IH.
Qed.
End ListLru.

(** Byte-wise comparison of names. *)
Definition bytewise (x y : string) : bool := String.leb x y.

Lemma ascii_compare_trans a b c :
  Ascii.compare a b = Lt → Ascii.compare b c = Lt → Ascii.compare a c = Lt.
Proof. unfold Ascii.compare. rewrite !N.compare_lt_iff. lia. Qed.
Lemma string_compare_refl x : String.compare x x = Eq.
Proof.
  induction x as [|a x IH]; simpl; [done|].
  unfold Ascii.compare. by rewrite N.compare_refl.
Qed.
Lemma string_compare_eq x y : String.compare x y = Eq → x = y.
Proof. apply String.compare_eq_iff. Qed.
Lemma string_compare_trans x y z :
  String.compare x y = Lt → String.compare y z = Lt → String.compare x z = Lt.
Proof.
  revert y z. induction x as [|a x IH]; intros [|b y] [|c z]; simpl; try done.
  destruct (Ascii.compare a b) eqn:Hab; [| |done];
    destruct (Ascii.compare b c) eqn:Hbc; try done.
  - apply Ascii.compare_eq_iff in Hab, Hbc. subst.
    unfold Ascii.compare. rewrite N.compare_refl. apply IH.
  - apply Ascii.compare_eq_iff in Hab. subst. by rewrite Hbc.
  - apply Ascii.compare_eq_iff in Hbc. subst. by rewrite Hab.
  - by rewrite (ascii_compare_trans a b c).
Qed.
Lemma bytewise_total x y : bytewise x y = true ∨ bytewise y x = true.
Proof.
  unfold bytewise, String.leb. rewrite (String.compare_antisym x y).
  destruct (String.compare y x); auto.
Qed.
Lemma bytewise_trans x y z :
  bytewise x y = true → bytewise y z = true → bytewise x z = true.
Proof.
  unfold bytewise, String.leb.
  destruct (String.compare x y) eqn:Hxy; [| |done];
    destruct (String.compare y z) eqn:Hyz; try done; intros _ _.
  - apply string_compare_eq in Hxy, Hyz. subst. by rewrite string_compare_refl.
  - apply string_compare_eq in Hxy. subst. by rewrite Hyz.
  - apply string_compare_eq in Hyz. subst. by rewrite Hxy.
  - by rewrite (string_compare_trans x y z).
Qed.

(** Time stamps rendered in universal time with the short zone [+00], and the reader of
    their RFC 3339 form: the time of day is the instant in binary, low bit first. *)
Module Stamp.
#[local] Open Scope string_scope.

Fixpoint pos_bits (p : positive) : string :=
  match p with
  | xH => ""
  | xO p => String "0"%char (pos_bits p)
  | xI p => String "1"%char (pos_bits p)
  end.
Definition bits (t : Z) : string :=
  match t with
  | Z0 => "z"
  | Zpos p => String "p"%char (pos_bits p)
  | Zneg p => String "n"%char (pos_bits p)
  end.
Fixpoint read_pos (s : string) : option positive :=
  match s with
  | String "0"%char s => xO <$> read_pos s
  | String "1"%char s => xI <$> read_pos s
  | _ => if decide (s = "+00:00") then Some xH else None
  end.
Definition read_bits (s : string) : option Z :=
  match s with
  | String "p"%char s => Zpos <$> read_pos s
  | String "n"%char s => Zneg <$> read_pos s
  | String "z"%char s => if decide (s = "+00:00") then Some 0 else None
  | _ => None
  end.
Fixpoint strip_prefix (p s : string) : option string :=
  match p, s with
  | EmptyString, _ => Some s
  | String a p, String b s => if decide (a = b) then strip_prefix p s else None
  | String _ _, EmptyString => None
  end.
Definition date : string := "2026-01-01".
Definition text (t : Z) : string := date +:+ " " +:+ bits t +:+ "+00".
Definition rfc3339 (s : string) : option Z := strip_prefix "2026-01-01T" s ≫= read_bits.

Lemma read_pos_bits p : read_pos (pos_bits p +:+ "+00:00") = Some p.
Proof. induction p as [p IH|p IH|]; simpl; rewrite ?IH; done. Qed.
Lemma read_bits_bits t : read_bits (bits t +:+ "+00:00") = Some t.
Proof. destruct t; simpl; rewrite ?read_pos_bits; done. Qed.
End Stamp.

(** The environment, with the calls [fails] names failing. *)
Definition list_env (fails : nat → bool) : Env := {|
  env_fault := fails;
  env_clock n := Some (1000 + Z.of_nat n, 0);
  env_server_now n := 1767225600000000 + Z.of_nat n `mod` 1000000000;
  env_ts_text := Stamp.text;
  env_rfc3339 := Stamp.rfc3339;
  env_uid := 1000;
  env_gid := 100;
  env_collate := bytewise;
  lru_cache := ListLru.t;
  lru_new := ListLru.new;
  lru_get := ListLru.get;
  lru_put := ListLru.put;
  lru_pop := ListLru.pop;
|}.

Definition calm_env : Env := list_env (λ _, false).

#[global] Instance calm_env_quiet : Quiet calm_env.
Proof. split; [done|]. intros n. by eexists. Qed.

#[global] Instance list_env_collation fails : CollationLaws (list_env fails).
Proof. split; [apply bytewise_total|apply bytewise_trans]. Qed.

#[global] Instance list_env_lru fails : LruLaws (list_env fails).
Proof.
  split; unfold lru_peek; simpl; intros; rewrite ?ListLru.get_fst in *; simpl in *.
  - done.
  - unfold ListLru.get. destruct (ListLru.assoc k c.2) eqn:Hk; simpl; [|done].
    case_decide; [by subst|]. by apply ListLru.assoc_without_ne.
  - by rewrite decide_True.
  - rewrite decide_False in H0 by done. apply ListLru.assoc_take in H0.
    by rewrite ListLru.assoc_without_ne in H0.
  - apply ListLru.assoc_without_eq.
  - by apply ListLru.assoc_without_ne.
Qed.
#[global] Instance calm_env_lru : LruLaws calm_env := list_env_lru _.
#[global] Instance calm_env_collation : CollationLaws calm_env := list_env_collation _.
