(* ===== verification/Sql.v ===== *)
(** * The SQL statements of the file system

    Every [SELECT] and [UPDATE] text of [sdk/rust/src/filesystem/secafs.rs], as the
    rows it returns or the columns it sets. *)

From S2P Require Import Prelude Types Tables Monad.

(** ** [SELECT]s on [fs_inode] by primary key *)

Definition select_inode (cols : Z → inode → DbRow) (ino : Z) (d : db) : list DbRow :=
  match fs_inode d !! ino with Some r => [cols ino r] | None => [] end.

(** [SELECT size FROM fs_inode WHERE ino = ?] and its siblings. *)
Definition select_size : Z → db → list DbRow := select_inode (λ _ r, [Integer (i_size r)]).
Definition select_mode : Z → db → list DbRow := select_inode (λ _ r, [Integer (i_mode r)]).
Definition select_nlink : Z → db → list DbRow := select_inode (λ _ r, [Integer (i_nlink r)]).
Definition select_ino : Z → db → list DbRow := select_inode (λ ino _, [Integer ino]).

(** [SELECT ino, mode, nlink, uid, gid, size, atime, mtime, ctime, rdev, atime_nsec,
    mtime_nsec, ctime_nsec FROM fs_inode WHERE ino = ?] *)
Definition stats_cols (ino : Z) (r : inode) : DbRow :=
  [Integer ino; Integer (i_mode r); Integer (i_nlink r); Integer (i_uid r); Integer (i_gid r);
   Integer (i_size r); Integer (i_atime r); Integer (i_mtime r); Integer (i_ctime r);
   Integer (i_rdev r); Integer (i_atime_nsec r); Integer (i_mtime_nsec r); Integer (i_ctime_nsec r)].
Definition select_stats : Z → db → list DbRow := select_inode stats_cols.

(** ** [SELECT]s on [fs_dentry] *)

(** [SELECT ino FROM fs_dentry WHERE parent_ino = ? AND name = ?] *)
Definition select_child (parent : Z) (name : string) (d : db) : list DbRow :=
  match fs_dentry d !! (parent, name) with Some e => [[Integer (d_ino e)]] | None => [] end.

(** The entries of a directory, by name and inode number. *)
Definition children (parent : Z) (d : db) : list (string * Z) :=
  omap (λ kv, if decide (kv.1.1 = parent) then Some (kv.1.2, d_ino kv.2) else None)
    (map_to_list (fs_dentry d)).

(** [SELECT COUNT( * ) FROM fs_dentry WHERE parent_ino = ?] *)
Definition count_children (parent : Z) (d : db) : list DbRow :=
  [[Integer (Z.of_nat (length (children parent d)))]].

(** [SELECT parent_ino FROM fs_dentry WHERE ino = ? LIMIT 1] *)
Definition select_parent (ino : Z) (d : db) : list DbRow :=
  take 1 ((λ kv, [Integer kv.1.1]) <$>
    filter (λ kv, d_ino kv.2 = ino) (map_to_list (fs_dentry d))).

(** ** [SELECT]s on [fs_data] and [fs_symlink] *)

(** [SELECT data FROM fs_data WHERE ino = ? AND chunk_index = ?] *)
Definition select_chunk (ino idx : Z) (d : db) : list DbRow :=
  match fs_data d !! (ino, idx) with Some b => [[Blob b]] | None => [] end.

(** The chunks of a file in index order: [.. WHERE ino = ? ORDER BY chunk_index]. *)
Definition chunk_le (a b : Z * list byte) : Prop := a.1 ≤ b.1.
#[global] Instance chunk_le_dec : RelDecision chunk_le.
Proof. intros a b. unfold chunk_le. apply _. Defined.
Definition file_chunks (ino : Z) (d : db) : list (Z * list byte) :=
  merge_sort chunk_le
    (omap (λ kv, if decide (kv.1.1 = ino) then Some (kv.1.2, kv.2) else None)
       (map_to_list (fs_data d))).
Definition chunks_between (ino lo hi : Z) (d : db) : list (Z * list byte) :=
  filter (λ c, lo ≤ c.1 ≤ hi) (file_chunks ino d).
(** [SELECT chunk_index, data FROM fs_data WHERE ino = ? AND chunk_index >= ? AND
    chunk_index <= ? ORDER BY chunk_index] *)
Definition select_chunks (ino lo hi : Z) (d : db) : list DbRow :=
  (λ c, [Integer c.1; Blob c.2]) <$> chunks_between ino lo hi d.
(** [SELECT data FROM fs_data WHERE ino = ? ORDER BY chunk_index] *)
Definition select_all_data (ino : Z) (d : db) : list DbRow :=
  (λ c, [Blob c.2]) <$> file_chunks ino d.

(** [SELECT target FROM fs_symlink WHERE ino = ?] *)
Definition select_target (ino : Z) (d : db) : list DbRow :=
  match fs_symlink d !! ino with Some t => [[Text t]] | None => [] end.

(** ** Aggregates *)

(** [SELECT COUNT( * ) FROM fs_inode] *)
Definition count_inodes (d : db) : list DbRow :=
  [[decode_column (PgInt8 (Z.of_nat (size (fs_inode d))))]].
(** [SELECT COALESCE(SUM(size), 0) FROM fs_inode]: the sum of a [BIGINT] column has
    type [NUMERIC]. *)
Definition total_size (d : db) : Z :=
  foldr (λ kv acc, i_size kv.2 + acc) 0 (map_to_list (fs_inode d)).
Definition sum_sizes (d : db) : list DbRow := [[decode_column (PgNumeric (total_size d) 1)]].

(** ** Updates of an inode's columns *)

Definition add_nlink (k : Z) (r : inode) : inode := set_i_nlink (i_nlink r + k) r.
Definition set_mtime (t : Z * Z) (r : inode) : inode :=
  set_i_mtime t.1 (set_i_mtime_nsec t.2 r).
Definition set_ctime (t : Z * Z) (r : inode) : inode :=
  set_i_ctime t.1 (set_i_ctime_nsec t.2 r).
Definition set_atime (t : Z * Z) (r : inode) : inode :=
  set_i_atime t.1 (set_i_atime_nsec t.2 r).

(** A new row: the columns an [INSERT] names and the defaults of the others. *)
Definition new_inode (mode nlink uid gid size rdev : Z) (t : Z * Z) : inode :=
  mkInode mode nlink uid gid size t.1 t.1 t.1 rdev t.2 t.2 t.2.

(** ** The rows of a file *)

Section file_chunks.
Implicit Types (d : db) (ino : Z).

Lemma omap_key_elem {K V W : Type} `{Countable K} (g : K * V → option W) (m : gmap K V) w :
  w ∈ omap g (map_to_list m) ↔ ∃ k v, m !! k = Some v ∧ g (k, v) = Some w.
Proof.
  rewrite list_elem_of_omap. split.
  - intros ([k v] & Hel & Hg). exists k, v. by rewrite <- elem_of_map_to_list.
  - intros (k & v & Hm & Hg). exists (k, v). by rewrite elem_of_map_to_list.
Qed.
Lemma elem_of_file_chunks ino d c b :
  (c, b) ∈ file_chunks ino d ↔ fs_data d !! (ino, c) = Some b.
Proof.
  unfold file_chunks. rewrite merge_sort_Permutation, omap_key_elem. split.
  - intros ([i c'] & b' & Hm & Hg). simpl in Hg. case_decide; [|done]. by simplify_eq.
  - intros Hm. exists (ino, c), b. split; [done|]. simpl. by rewrite decide_True.
Qed.
Lemma omap_fst_NoDup {V} (l : list (Z * Z * V)) ino :
  NoDup l.*1 →
  NoDup ((omap (λ kv, if decide (kv.1.1 = ino) then Some (kv.1.2, kv.2) else None) l).*1).
Proof.
  induction l as [|[[i c] v] l IH]; simpl; [constructor|].
  intros [Hni Hnd]%NoDup_cons. specialize (IH Hnd). case_decide; simpl; [|done].
  subst. constructor; [|done]. intros Hin. apply Hni.
  apply list_elem_of_fmap in Hin as ([c' v'] & -> & Hin).
  apply list_elem_of_omap in Hin as ([[i' c''] v''] & Hin & Hg). simpl in Hg.
  case_decide; [|done]. simplify_eq/=.
  apply list_elem_of_fmap. by exists (ino, c', v').
Qed.
Lemma file_chunks_sorted ino d :
  StronglySorted (λ a b, a.1 < b.1) (file_chunks ino d).
Proof.
  assert (Hnd : NoDup ((file_chunks ino d).*1)).
  { unfold file_chunks. rewrite merge_sort_Permutation.
    apply omap_fst_NoDup, NoDup_fst_map_to_list. }
  assert (Hs : StronglySorted chunk_le (file_chunks ino d)).
  { apply StronglySorted_merge_sort.
    - intros [x ?] [y ?] [z ?]. unfold chunk_le. simpl. lia.
    - intros [x ?] [y ?]. unfold chunk_le. simpl. lia. }
  induction Hs as [|[c b] l Hs IH Hall]; [constructor|].
  apply NoDup_cons in Hnd as [Hni Hnd]. constructor; [by apply IH|].
  rewrite Forall_forall in *. intros [c' b'] Hin. simpl.
  specialize (Hall _ Hin). unfold chunk_le in Hall. simpl in Hall.
  assert (c ≠ c'); [|lia]. intros ->. apply Hni. apply list_elem_of_fmap.
  by exists (c', b').
Qed.
Lemma StronglySorted_filter {A} (R : relation A) P `{∀ x, Decision (P x)} (l : list A) :
  StronglySorted R l → StronglySorted R (filter P l).
Proof.
  induction 1 as [|x l Hs IH Hall]; [constructor|].
  rewrite filter_cons. case_decide; [|done]. constructor; [done|].
  rewrite Forall_forall in *. intros y [_ Hy]%list_elem_of_filter. auto.
Qed.
Lemma chunks_between_sorted ino lo hi d :
  StronglySorted (λ a b, a.1 < b.1) (chunks_between ino lo hi d).
Proof. apply StronglySorted_filter, file_chunks_sorted. Qed.
Lemma elem_of_chunks_between ino lo hi d c b :
  (c, b) ∈ chunks_between ino lo hi d ↔
    lo ≤ c ≤ hi ∧ fs_data d !! (ino, c) = Some b.
Proof. unfold chunks_between. by rewrite list_elem_of_filter, elem_of_file_chunks. Qed.
End file_chunks.

(** ** Directory listings *)

Section listing.
Context {E : Env}.

Definition name_le (a b : string * Z) : Prop := env_collate a.1 b.1 = true.
#[global] Instance name_le_dec : RelDecision name_le.
Proof. intros a b. unfold name_le. apply _. Defined.

(** [.. FROM fs_dentry WHERE parent_ino = ? ORDER BY name] *)
Definition sorted_children (parent : Z) (d : db) : list (string * Z) :=
  merge_sort name_le (children parent d).

(** [SELECT name FROM fs_dentry WHERE parent_ino = ? ORDER BY name] *)
Definition select_names (parent : Z) (d : db) : list DbRow :=
  (λ c, [Text c.1]) <$> sorted_children parent d.

(** [SELECT d.name, i.ino, i.mode, .. FROM fs_dentry d JOIN fs_inode i ON d.ino =
    i.ino WHERE d.parent_ino = ? ORDER BY d.name] *)
Definition select_entries (parent : Z) (d : db) : list DbRow :=
  omap (λ c, r ← fs_inode d !! c.2; Some (Text c.1 :: stats_cols c.2 r))
    (sorted_children parent d).
End listing.
