(* ===== verification/File.v ===== *)
(** * Open files

    [SecAFSFile] of [sdk/rust/src/filesystem/secafs.rs]: positional reads and writes,
    truncation and [fstat] on the chunk table [fs_data].

    A file of size [n] is stored as chunks of at most [chunk_size] bytes keyed by
    index; a missing chunk, and the part of a chunk beyond its length, read as
    zeros. *)

From S2P Require Import Prelude Types Tables Monad Wp Sql.

(** An open handle: the inode resolved at open time and the chunk size. *)
Record SecAFSFile := mkFile { f_ino : Z; f_chunk_size : Z }.

(** Column 0 of the first row, or 0: how every operation reads a file size. *)
Definition row_size (rows : list DbRow) : Z :=
  match rows with
  | row :: _ => Int.u64 (int_or 0 row 0)
  | [] => 0
  end.

(** [SecAFS::build_stats_from_row] *)
Definition build_stats_from_row (row : DbRow) : Stats := {|
  st_ino := int_or 0 row 0;
  st_mode := Int.u32 (int_or 0 row 1);
  st_nlink := Int.u32 (int_or 1 row 2);
  st_uid := Int.u32 (int_or 0 row 3);
  st_gid := Int.u32 (int_or 0 row 4);
  st_size := int_or 0 row 5;
  st_atime := int_or 0 row 6;
  st_mtime := int_or 0 row 7;
  st_ctime := int_or 0 row 8;
  st_atime_nsec := Int.u32 (int_or 0 row 10);
  st_mtime_nsec := Int.u32 (int_or 0 row 11);
  st_ctime_nsec := Int.u32 (int_or 0 row 12);
  st_rdev := Int.u64 (int_or 0 row 9);
|}.

(** ** Reading *)

Section pread_loop.
(** The locals of [pread] that its loop does not change. *)
Variables (chunk_size size start_chunk start_offset_in_chunk : Z).

Definition skip_of (chunk : Z) : Z :=
  if chunk =? start_chunk then start_offset_in_chunk else 0.

(** [while next_expected_chunk < chunk_index && result.len() < size { .. }]; each
    turn advances [next_expected_chunk], so the distance is enough fuel. *)
Fixpoint fill_gap (fuel : nat) (chunk_index next : Z) (result : list byte)
    : list byte :=
  match fuel with
  | O => result
  | S fuel =>
      if (next <? chunk_index) && (Vec.len result <? size) then
        let zeros_needed := Z.min (chunk_size - skip_of next) (size - Vec.len result) in
        fill_gap fuel chunk_index (next + 1) (result ++ Vec.zeros zeros_needed)
      else result
  end.

(** The bytes one chunk contributes. *)
Definition read_chunk (chunk_index : Z) (chunk_data result : list byte) : list byte :=
  let skip := skip_of chunk_index in
  if Vec.len chunk_data <=? skip then
    let zeros_needed := Z.min (chunk_size - skip) (size - Vec.len result) in
    result ++ Vec.zeros zeros_needed
  else
    let remaining := size - Vec.len result in
    let take := Z.min (Vec.len chunk_data - skip) remaining in
    let result := result ++ Vec.slice skip (skip + take) chunk_data in
    let chunk_end := skip + take in
    if (chunk_end <? chunk_size) && (Vec.len result <? size) then
      result ++ Vec.zeros (Z.min (chunk_size - chunk_end) (size - Vec.len result))
    else result.

(** [while let Some(row) = rows.next().await? { .. }] *)
Fixpoint read_rows (rows : list DbRow) (next : Z) (result : list byte) : list byte :=
  match rows with
  | [] => result
  | row :: rows =>
      let chunk_index := Int.u64 (int_or 0 row 0) in
      let result := fill_gap (Z.to_nat (chunk_index - next)) chunk_index next result in
      let result :=
        match blob_opt row 1 with
        | Some chunk_data => read_chunk chunk_index chunk_data result
        | None => result
        end in
      read_rows rows (chunk_index + 1) result
  end.
End pread_loop.

Section handle.
Context {E : Env} (f : SecAFSFile).

(** [File::pread] *)
Definition pread (offset size : Z) : M (list byte) :=
  get_connection ≫= λ _,
  size_rows ← query (select_size (f_ino f));
  let file_size := row_size size_rows in
  if file_size <=? offset then mret []
  else
    let size := Z.min size (file_size - offset) in
    let chunk_size := f_chunk_size f in
    if chunk_size =? 0 then panic
    else
      let start_chunk := offset `div` chunk_size in
      let end_chunk := Int.sat_sub (Int.u64_add offset size) 1 `div` chunk_size in
      rows ← query (select_chunks (f_ino f) (Int.i64 start_chunk) (Int.i64 end_chunk));
      if negb (Vec.fits size) then panic
      else
      let start_offset_in_chunk := offset `mod` chunk_size in
      let result := read_rows chunk_size size start_chunk start_offset_in_chunk
                      rows start_chunk [] in
      mret (if Vec.len result <? size then Vec.resize size result else result).

(** ** Writing *)

(** The body of the [while written < data.len()] loop: rewrite one chunk and
    return how many bytes of [data] it took. *)
Definition write_chunk (offset : Z) (data : list byte) (written : Z) : M Z :=
  let chunk_size := f_chunk_size f in
  let current_offset := Int.u64_add offset written in
  if chunk_size =? 0 then panic
  else
    let chunk_index := Int.i64 (current_offset `div` chunk_size) in
    let offset_in_chunk := current_offset `mod` chunk_size in
    let remaining_in_chunk := chunk_size - offset_in_chunk in
    let remaining_data := Vec.len data - written in
    let to_write := Z.min remaining_in_chunk remaining_data in
    chunk_data ←
      (if negb (to_write =? chunk_size) then
         rows ← query (select_chunk (f_ino f) chunk_index);
         let chunk_data :=
           match rows with
           | row :: _ => default [] (blob_opt row 0)
           | [] => []
           end in
         let chunk_data :=
           if Vec.len chunk_data <? offset_in_chunk + to_write
           then Vec.resize (offset_in_chunk + to_write) chunk_data else chunk_data in
         mret (Vec.copy_at offset_in_chunk
                 (Vec.slice written (written + to_write) data) chunk_data)
       else mret (Vec.slice written (written + to_write) data));
    execute_ (upsert_data_row (f_ino f, chunk_index) chunk_data) ≫= λ _,
    mret to_write.

(** [write_data_at_offset_with_conn].  Every turn writes at least one byte, so
    [data.len()] turns are enough. *)
Fixpoint write_loop (fuel : nat) (offset : Z) (data : list byte) (written : Z) : M unit :=
  match fuel with
  | O => mret tt
  | S fuel =>
      if written <? Vec.len data then
        to_write ← write_chunk offset data written;
        write_loop fuel offset data (written + to_write)
      else mret tt
  end.
Definition write_data_at_offset_with_conn (offset : Z) (data : list byte) : M unit :=
  if decide (data = []) then mret tt
  else write_loop (length data) offset data 0.

(** [File::pwrite]: an error inside the transaction returns without a rollback. *)
Definition pwrite (offset : Z) (data : list byte) : M unit :=
  if decide (data = []) then mret tt
  else
    get_connection ≫= λ _,
    begin_txn ≫= λ _,
    rows ← query (select_size (f_ino f));
    let current_size := row_size rows in
    write_data_at_offset_with_conn offset data ≫= λ _,
    let new_size := Z.max current_size (Int.u64_add offset (Vec.len data)) in
    t ← now;
    execute_ (update_inode_row (λ r, set_mtime t (set_i_size (Int.i64 new_size) r)) (f_ino f)) ≫= λ _,
    commit_txn.

(** ** Truncation *)

(** The part of [truncate] that changes chunks. *)
Definition truncate_chunks (current_size new_size : Z) : M unit :=
  let chunk_size := f_chunk_size f in
  if new_size =? 0 then
    execute_ (delete_data_where (λ k, bool_decide (k.1 = f_ino f)))
  else if new_size <? current_size then
    if chunk_size =? 0 then panic
    else
      let last_chunk_idx := (new_size - 1) `div` chunk_size in
      execute_ (delete_data_where
        (λ k, bool_decide (k.1 = f_ino f) && bool_decide (Int.i64 last_chunk_idx < k.2))) ≫= λ _,
      let offset_in_chunk := new_size `mod` chunk_size in
      if 0 <? offset_in_chunk then
        rows ← query (select_chunk (f_ino f) (Int.i64 last_chunk_idx));
        match rows with
        | row :: _ =>
            match blob_opt row 0 with
            | Some chunk_data =>
                if offset_in_chunk <? Vec.len chunk_data then
                  execute_ (update_data_row (f_ino f, Int.i64 last_chunk_idx)
                    (take (Z.to_nat offset_in_chunk) chunk_data))
                else mret tt
            | None => mret tt
            end
        | [] => mret tt
        end
      else mret tt
  else mret tt.

(** [File::truncate] *)
Definition truncate (new_size : Z) : M unit :=
  get_connection ≫= λ _,
  rows ← query (select_size (f_ino f));
  let current_size := row_size rows in
  begin_txn ≫= λ _,
  result ← attempt (
    truncate_chunks current_size new_size ≫= λ _,
    t ← now;
    execute_ (update_inode_row
      (λ r, set_ctime t (set_mtime t (set_i_size (Int.i64 new_size) r))) (f_ino f)));
  finish result.

(** [File::fsync] and [File::fstat] *)
Definition fsync : M unit := mret tt.
Definition fstat : M Stats :=
  get_connection ≫= λ _,
  rows ← query (select_stats (f_ino f));
  match rows with
  | row :: _ => mret (build_stats_from_row row)
  | [] => fail NotFound
  end.
End handle.
