(* ===== verification/FileSpec.v ===== *)
(** * Open files refine flat byte strings

    The abstract file is a [list byte].  [contents] reads it off the chunk table;
    [pread], [pwrite] and [truncate] of [File] are shown to be slicing, splicing and
    resizing it. *)

From S2P Require Import Prelude Types Tables Monad Wp Sql File.

(** ** Abstract file *)

(** The byte at position [i] of a file stored in chunks of [cs] bytes. *)
Definition byte_at (cs : Z) (d : db) (ino i : Z) : byte :=
  match fs_data d !! (ino, i `div` cs) with
  | Some chunk => Vec.get chunk (i `mod` cs)
  | None => x00
  end.

Definition file_size (d : db) (ino : Z) : Z :=
  match fs_inode d !! ino with Some r => i_size r | None => 0 end.

Definition contents (cs : Z) (d : db) (ino : Z) : list byte :=
  bytes_of (byte_at cs d ino) 0 (file_size d ino).

(** What the three operations are on a flat file. *)
Definition spec_read (offset size : Z) (c : list byte) : list byte :=
  take (Z.to_nat size) (drop (Z.to_nat offset) c).
Definition spec_write (offset : Z) (data c : list byte) : list byte :=
  Vec.copy_at offset data (Vec.resize (Z.max (Vec.len c) (offset + Vec.len data)) c).
Definition spec_truncate (n : Z) (c : list byte) : list byte := Vec.resize n c.

(** The chunks of a file fit [n] bytes: indices are not negative, a chunk is not
    empty and not longer than the chunk size, and no chunk ends after [n]. *)
Definition chunk_fit (cs n ino : Z) (d : db) : Prop :=
  ∀ c b, fs_data d !! (ino, c) = Some b →
    0 ≤ c ∧ 0 < Vec.len b ≤ cs ∧ cs * c + Vec.len b ≤ n.

(** Well-formed storage of one file: its size is a non-negative [i64] and its chunks
    fit it. *)
Record file_wf (cs : Z) (d : db) (ino : Z) : Prop := {
  wf_size : 0 ≤ file_size d ino < 2 ^ 63;
  wf_fit : chunk_fit cs (file_size d ino) ino d;
}.

Lemma chunk_fit_mono cs n n' ino d : n ≤ n' → chunk_fit cs n ino d → chunk_fit cs n' ino d.
Proof. intros Hn Hf c b Hb. destruct (Hf c b Hb) as (? & ? & ?). split; [done|]. lia. Qed.
Lemma chunk_fit_bound cs n ino d c b :
  chunk_fit cs n ino d → fs_data d !! (ino, c) = Some b → 0 ≤ c ∧ Vec.len b ≤ cs.
Proof. intros Hf Hb. destruct (Hf c b Hb). lia. Qed.
(** Nothing but zeros is stored past the end. *)
Lemma fit_tail cs n ino d i :
  0 < cs → chunk_fit cs n ino d → n ≤ i → byte_at cs d ino i = x00.
Proof.
  intros Hcs Hf Hi. unfold byte_at.
  destruct (fs_data d !! (ino, i `div` cs)) as [b|] eqn:Hb; [|done].
  apply Hf in Hb as (? & ? & ?). apply Vec.get_beyond.
  pose proof (Z.div_mod i cs ltac:(lia)). lia.
Qed.
Lemma wf_tail cs d ino i :
  0 < cs → file_wf cs d ino → file_size d ino ≤ i → byte_at cs d ino i = x00.
Proof. intros Hcs [_ Hf]. by apply fit_tail. Qed.

Lemma contents_len cs d ino : file_wf cs d ino → Vec.len (contents cs d ino) = file_size d ino.
Proof. intros Hwf. apply len_bytes_of. apply (wf_size _ _ _ Hwf). Qed.
Lemma contents_get cs d ino i :
  0 < cs → file_wf cs d ino → 0 ≤ i → Vec.get (contents cs d ino) i = byte_at cs d ino i.
Proof.
  intros Hcs Hwf Hi. unfold contents. rewrite get_bytes_of. case_decide; [f_equal; lia|].
  symmetry. apply wf_tail; [done|done|lia].
Qed.

Lemma contents_ext cs d ino c :
  Vec.len c = file_size d ino →
  (∀ i, 0 ≤ i < Vec.len c → Vec.get c i = byte_at cs d ino i) → contents cs d ino = c.
Proof.
  intros Hl Hg. pose proof (Vec.len_nonneg c).
  symmetry. apply Vec.ext; unfold contents.
  - rewrite len_bytes_of by lia. done.
  - intros i Hi. rewrite get_bytes_of, decide_True by lia. by apply Hg.
Qed.

(** Only the file [ino] differs: its inode row and its chunks. *)
Record file_frame (ino : Z) (d d' : db) : Prop := {
  ff_inode j : j ≠ ino → fs_inode d' !! j = fs_inode d !! j;
  ff_data k : k.1 ≠ ino → fs_data d' !! k = fs_data d !! k;
  ff_dentry : fs_dentry d' = fs_dentry d;
  ff_symlink : fs_symlink d' = fs_symlink d;
}.

Lemma byte_at_data cs d d' ino i :
  (∀ c, fs_data d' !! (ino, c) = fs_data d !! (ino, c)) → byte_at cs d' ino i = byte_at cs d ino i.
Proof. intros H. unfold byte_at. by rewrite H. Qed.
Lemma file_size_inode d d' ino :
  fs_inode d' !! ino = fs_inode d !! ino → file_size d' ino = file_size d ino.
Proof. unfold file_size. by intros ->. Qed.
(** A file whose inode row and chunks are the same is the same file. *)
Lemma contents_frame cs d d' ino :
  fs_inode d' !! ino = fs_inode d !! ino →
  (∀ c, fs_data d' !! (ino, c) = fs_data d !! (ino, c)) →
  contents cs d' ino = contents cs d ino.
Proof.
  intros Hi Hd. unfold contents. rewrite (file_size_inode _ _ _ Hi).
  apply bytes_of_ext. intros i _. by apply byte_at_data.
Qed.

(** ** Reading *)

Section read.
Context (cs : Z) (d : db) (ino : Z).
Hypothesis Hcs : 0 < cs.
Hypothesis Hchunk : ∀ c b, fs_data d !! (ino, c) = Some b → 0 ≤ c ∧ Vec.len b ≤ cs.
Variables (offset size : Z).
Hypothesis Hoff : 0 ≤ offset.
Hypothesis Hsize : 0 ≤ size.

Abbreviation start := (offset `div` cs).
Abbreviation off := (offset `mod` cs).
Abbreviation fb := (byte_at cs d ino).

Lemma start_off : offset = cs * start + off ∧ 0 ≤ off < cs ∧ 0 ≤ start.
Proof.
  split; [by apply Z.div_mod; lia|]. split; [by apply Z.mod_pos_bound|].
  by apply Z.div_pos.
Qed.
(** Bytes of the result once every chunk before [next] is read. *)
Definition read_upto (next : Z) : Z := Z.min size (Z.max 0 (cs * next - offset)).
Definition read_inv (next : Z) (result : list byte) : Prop :=
  result = bytes_of fb offset (read_upto next).

Lemma read_inv_len next result : read_inv next result → Vec.len result = read_upto next.
Proof. intros ->. apply len_bytes_of. unfold read_upto. lia. Qed.
Lemma read_inv_start : read_inv start [].
Proof.
  pose proof start_off. unfold read_inv, read_upto.
  replace (Z.min _ _) with 0 by lia. done.
Qed.
(** What the part of chunk [c] from [skip_of c] on adds. *)
Lemma read_upto_succ c :
  start ≤ c → read_upto c + Z.min (cs - skip_of start off c) (size - read_upto c) =
              read_upto (c + 1).
Proof.
  pose proof start_off as (Ho & Hm & _). unfold read_upto, skip_of. intros Hc.
  destruct (Z.eqb_spec c start) as [->|Hne]; [nia|].
  assert (start + 1 ≤ c) by lia. nia.
Qed.
Lemma read_upto_pos c :
  start ≤ c → read_upto c < size → offset + read_upto c = cs * c + skip_of start off c.
Proof.
  pose proof start_off as (Ho & Hm & _). unfold read_upto, skip_of. intros Hc Hlt.
  destruct (Z.eqb_spec c start) as [->|Hne]; [nia|].
  assert (start + 1 ≤ c) by lia. nia.
Qed.
Lemma skip_range c : 0 ≤ skip_of start off c < cs.
Proof. pose proof start_off. unfold skip_of. case_match; lia. Qed.

(** The bytes of chunk [c] seen through [byte_at]. *)
Lemma bytes_of_chunk c skip n chunk :
  0 ≤ skip → skip + n ≤ cs →
  default [] (fs_data d !! (ino, c)) = chunk →
  bytes_of fb (cs * c + skip) n = bytes_of (Vec.get chunk) skip n.
Proof.
  intros Hskip Hn Hch. destruct (decide (0 ≤ n)).
  2:{ unfold bytes_of. by rewrite !seqZ_nil by lia. }
  apply Vec.ext; rewrite !len_bytes_of by lia; [done|].
  intros i Hi. rewrite !get_bytes_of, !decide_True by lia.
  unfold byte_at.
  assert (Hdiv : (cs * c + skip + i) `div` cs = c).
  { symmetry. apply Z.div_unique with (skip + i); lia. }
  assert (Hmod : (cs * c + skip + i) `mod` cs = skip + i).
  { symmetry. apply Z.mod_unique with c; lia. }
  rewrite Hdiv, Hmod. destruct (fs_data d !! (ino, c)); simpl in Hch; subst; [done|].
  symmetry. apply Vec.get_beyond. unfold Vec.len. simpl. lia.
Qed.
Lemma bytes_of_get_zeros v lo n :
  Vec.len v ≤ lo → bytes_of (Vec.get v) lo n = Vec.zeros n.
Proof.
  intros Hv. destruct (decide (0 ≤ n)) as [Hn|Hn].
  - apply Vec.ext; rewrite len_bytes_of, ?Vec.len_zeros by lia; [done|].
    intros i Hi. rewrite get_bytes_of, Vec.get_zeros. case_decide; [|done].
    apply Vec.get_beyond. lia.
  - unfold bytes_of, Vec.zeros. rewrite seqZ_nil by lia.
    by replace (Z.to_nat n) with O by lia.
Qed.

(** Appending what chunk [c] holds from its skip on moves the invariant on. *)
Lemma read_inv_succ c result chunk :
  start ≤ c → read_inv c result → default [] (fs_data d !! (ino, c)) = chunk →
  read_inv (c + 1)
    (result ++ bytes_of (Vec.get chunk) (skip_of start off c)
                 (Z.min (cs - skip_of start off c) (size - Vec.len result))).
Proof.
  intros Hc Hinv Hch. pose proof (read_inv_len _ _ Hinv) as Hl.
  pose proof (skip_range c). pose proof (read_upto_succ c Hc) as Hs.
  assert (0 ≤ read_upto c ≤ size) by (unfold read_upto; lia).
  unfold read_inv. rewrite <- Hs, Hl, Hinv.
  rewrite <- bytes_of_app by lia. f_equal.
  destruct (decide (read_upto c < size)).
  - rewrite read_upto_pos by lia. symmetry. apply bytes_of_chunk; [lia|lia|done].
  - replace (Z.min _ _) with 0 by lia. done.
Qed.

Lemma fill_gap_inv fuel ci next result :
  start ≤ next ≤ ci → ci - next ≤ Z.of_nat fuel →
  (∀ c, next ≤ c < ci → fs_data d !! (ino, c) = None) →
  read_inv next result → read_inv ci (fill_gap cs size start off fuel ci next result).
Proof.
  revert next result. induction fuel as [|fuel IH]; intros next result Hn Hf Habs Hinv;
    cbn [fill_gap].
  { by replace ci with next by lia. }
  pose proof (read_inv_len _ _ Hinv) as Hl.
  destruct (Z.ltb_spec next ci); simpl.
  2:{ by replace ci with next by lia. }
  destruct (Z.ltb_spec (Vec.len result) size) as [Hlt|Hge].
  - apply IH; [lia|lia|intros; apply Habs; lia|].
    pose proof (read_inv_succ next result [] ltac:(lia) Hinv
      ltac:(by rewrite Habs by lia)) as Hi.
    rewrite bytes_of_get_zeros in Hi; [done|].
    pose proof (skip_range next). unfold Vec.len. simpl. lia.
  - unfold read_inv in *. rewrite Hinv. f_equal. rewrite Hl in Hge.
    unfold read_upto in *. nia.
Qed.

Lemma read_chunk_eq ci chunk result :
  Vec.len chunk ≤ cs → Vec.len result ≤ size →
  read_chunk cs size start off ci chunk result =
    result ++ bytes_of (Vec.get chunk) (skip_of start off ci)
                (Z.min (cs - skip_of start off ci) (size - Vec.len result)).
Proof.
  intros Hch Hres. pose proof (skip_range ci) as Hsk. unfold read_chunk.
  set (skip := skip_of start off ci) in *.
  destruct (Z.leb_spec (Vec.len chunk) skip) as [Hle|Hgt].
  { by rewrite bytes_of_get_zeros. }
  set (tk := Z.min (Vec.len chunk - skip) (size - Vec.len result)).
  assert (Hsl : Vec.slice skip (skip + tk) chunk = bytes_of (Vec.get chunk) skip tk).
  { apply Vec.ext; rewrite Vec.len_slice, ?len_bytes_of by lia; [lia|].
    intros i Hi. rewrite Vec.get_slice, get_bytes_of by lia.
    rewrite !decide_True by lia. done. }
  rewrite Hsl, Vec.len_app, len_bytes_of by lia.
  destruct (_ && _) eqn:Hb.
  - apply andb_prop in Hb as [Hb1%Z.ltb_lt Hb2%Z.ltb_lt].
    assert (Htk : tk = Vec.len chunk - skip) by lia.
    rewrite <- app_assoc. f_equal.
    rewrite <- (bytes_of_get_zeros chunk (skip + tk)) by lia.
    rewrite bytes_of_app by lia. f_equal. lia.
  - f_equal. f_equal.
    destruct (Z.ltb_spec (skip + tk) cs), (Z.ltb_spec (Vec.len result + tk) size);
      simpl in Hb; try done; lia.
Qed.

Definition as_row (c : Z * list byte) : DbRow := [Integer c.1; Blob c.2].

(** The rows after the first are those of the chunks after it. *)
Lemma rows_tail next hi ci b rows :
  Forall (λ x : Z * list byte, ci < x.1) rows →
  (∀ c b', (c, b') ∈ (ci, b) :: rows ↔ next ≤ c ≤ hi ∧ fs_data d !! (ino, c) = Some b') →
  ∀ c b', (c, b') ∈ rows ↔ ci + 1 ≤ c ≤ hi ∧ fs_data d !! (ino, c) = Some b'.
Proof.
  intros Hall Hel c b'. rewrite Forall_forall in Hall. split.
  - intros Hin. destruct (Hel c b') as [Hc _]. destruct Hc as [Hc ?]; [by right|].
    specialize (Hall _ Hin). simpl in Hall. split; [lia|done].
  - intros [Hc Hl]. destruct (Hel ci b) as [Hci _]. destruct Hci as [Hci _]; [by left|].
    assert (Hin : (c, b') ∈ (ci, b) :: rows) by (apply Hel; split; [lia|done]).
    apply elem_of_cons in Hin as [?|?]; [simplify_eq; lia|done].
Qed.

(** The loop over the selected rows, and the chunks between them. *)
Lemma read_rows_inv hi rows next result :
  start ≤ next → next ≤ hi + 1 → hi < 2 ^ 63 →
  StronglySorted (λ a b : Z * list byte, a.1 < b.1) rows →
  (∀ c b, (c, b) ∈ rows ↔ next ≤ c ≤ hi ∧ fs_data d !! (ino, c) = Some b) →
  read_inv next result →
  ∃ last, next ≤ last ≤ hi + 1 ∧
    read_inv last (read_rows cs size start off (as_row <$> rows) next result) ∧
    (∀ c, last ≤ c ≤ hi → fs_data d !! (ino, c) = None).
Proof.
  intros Hst Hn Hhi Hsort. revert next result Hst Hn.
  pose proof start_off as (_ & _ & Hpos).
  induction Hsort as [|[ci b] rows Hsort IH Hall]; intros next result Hst Hn Hel Hinv.
  { exists next. split; [lia|]. split; [done|]. intros c Hc.
    destruct (fs_data d !! (ino, c)) as [b|] eqn:Hb; [|done].
    assert ((c, b) ∈ []) as Hin by (apply Hel; done). by apply not_elem_of_nil in Hin. }
  destruct (Hel ci b) as [Hci _]. destruct (Hci ltac:(by left)) as [Hrange Hlook].
  rewrite fmap_cons. cbn [read_rows].
  change (int_or 0 (as_row (ci, b)) 0) with ci.
  change (blob_opt (as_row (ci, b)) 1) with (Some b). cbv iota.
  rewrite Int.u64_small by lia.
  assert (Hgap : ∀ c, next ≤ c < ci → fs_data d !! (ino, c) = None).
  { intros c Hc. destruct (fs_data d !! (ino, c)) as [b'|] eqn:Hb'; [|done].
    assert (Hin : (c, b') ∈ (ci, b) :: rows) by (apply Hel; split; [lia|done]).
    apply elem_of_cons in Hin as [?|Hin]; [simplify_eq; lia|].
    rewrite Forall_forall in Hall. specialize (Hall _ Hin). simpl in Hall. lia. }
  pose proof (fill_gap_inv (Z.to_nat (ci - next)) ci next result ltac:(lia) ltac:(lia)
    Hgap Hinv) as Hfill.
  pose proof (read_inv_len _ _ Hfill) as Hfl.
  rewrite read_chunk_eq; [|by eapply Hchunk|rewrite Hfl; unfold read_upto; lia].
  assert (Hel' : ∀ c b', (c, b') ∈ rows ↔
      ci + 1 ≤ c ≤ hi ∧ fs_data d !! (ino, c) = Some b').
  { by eapply rows_tail. }
  destruct (IH (ci + 1) _ ltac:(lia) ltac:(lia) Hel'
    (read_inv_succ ci _ b ltac:(lia) Hfill ltac:(by rewrite Hlook)))
    as (last & Hlast & Hres & Hnone).
  exists last. split; [lia|]. by split.
Qed.
End read.

(** The final padding of [pread]: every byte the loop did not reach is a zero. *)
Lemma pread_pad cs d ino offset size last result :
  0 < cs → 0 ≤ offset → 0 ≤ size → offset `div` cs ≤ last →
  read_inv cs d ino offset size last result →
  (∀ c, last ≤ c ≤ Z.max 0 (offset + size - 1) `div` cs → fs_data d !! (ino, c) = None) →
  (if Vec.len result <? size then Vec.resize size result else result) =
    bytes_of (byte_at cs d ino) offset size.
Proof.
  intros Hcs Hoff Hsize Hst Hinv Hnone.
  pose proof (read_inv_len cs d ino offset size ltac:(lia) _ _ Hinv) as Hl.
  destruct (Z.ltb_spec (Vec.len result) size) as [Hlt|Hge].
  2:{ unfold read_inv in Hinv. rewrite Hinv. f_equal. unfold read_upto in *. lia. }
  pose proof (read_upto_pos cs Hcs offset size Hoff Hsize last Hst ltac:(lia)) as Hp.
  pose proof (skip_range cs Hcs offset Hoff last) as Hsk.
  apply Vec.ext; rewrite Vec.len_resize, ?len_bytes_of by lia; [done|].
  intros i Hi. rewrite Vec.get_resize, get_bytes_of, !decide_True by lia.
  unfold read_inv in Hinv. rewrite Hinv, get_bytes_of.
  case_decide as Hd; [done|]. unfold byte_at.
  assert (Hc : last ≤ (offset + i) `div` cs ≤ Z.max 0 (offset + size - 1) `div` cs).
  { split; [apply Z.div_le_lower_bound|apply Z.div_le_mono]; lia. }
  by rewrite Hnone.
Qed.

Lemma spec_read_bytes cs d ino offset size :
  0 < cs → file_wf cs d ino → 0 ≤ offset → 0 ≤ size →
  spec_read offset size (contents cs d ino) =
    bytes_of (byte_at cs d ino) offset (Z.max 0 (Z.min size (file_size d ino - offset))).
Proof.
  intros Hcs Hwf Ho Hs. pose proof (wf_size _ _ _ Hwf) as Hz.
  pose proof (contents_len _ _ _ Hwf) as Hl.
  unfold spec_read. apply Vec.ext.
  - rewrite len_bytes_of by lia. unfold Vec.len in *. rewrite length_take, length_drop. lia.
  - intros i Hi. unfold Vec.len in Hi, Hl. rewrite length_take, length_drop in Hi.
    rewrite Vec.get_take, get_bytes_of, !decide_True by lia.
    rewrite Vec.get_drop by lia. apply contents_get; [done|done|lia].
Qed.

Section handle_ops.
Context {E : Env} {HQ : Quiet E} (f : SecAFSFile).
Implicit Types s : state.
Abbreviation cs := (f_chunk_size f).
Abbreviation ino := (f_ino f).

Lemma row_size_select d :
  0 ≤ file_size d ino < 2 ^ 63 → row_size (select_size ino d) = file_size d ino.
Proof.
  unfold row_size, select_size, select_inode, file_size.
  destruct (fs_inode d !! ino); [|done]. intros H.
  change (Int.u64 (i_size i) = i_size i). apply Int.u64_small. lia.
Qed.

Lemma wp_pread offset size s :
  0 < cs → aborted s = false → file_wf cs (cur s) ino →
  0 ≤ offset < 2 ^ 64 → 0 ≤ size < 2 ^ 64 →
  wp (pread f offset size) s (λ r s',
    r = Ok (spec_read offset size (contents cs (cur s) ino)) ∧
    cur s' = cur s ∧ txn s' = txn s ∧ cache s' = cache s).
Proof.
  intros Hcs Hab Hwf Ho Hs. pose proof (wf_size _ _ _ Hwf) as Hz.
  rewrite spec_read_bytes by (done || lia).
  unfold pread. wp_steps. st. rewrite row_size_select by done.
  destruct (Z.leb_spec (file_size (cur s) ino) offset) as [Hle|Hlt].
  { wp_steps. st. split; [|done]. by rewrite Z.max_l by lia. }
  rewrite Z.max_r by lia. set (sz := Z.min size (file_size (cur s) ino - offset)).
  destruct (Z.eqb_spec cs 0); [lia|].
  assert (Hend : Int.sat_sub (Int.u64_add offset sz) 1 = Z.max 0 (offset + sz - 1)).
  { unfold Int.sat_sub, Int.u64_add. rewrite Int.u64_small; lia. }
  assert (Hfits : Vec.fits sz = true) by (unfold Vec.fits; lia).
  rewrite Hfits. cbn [negb]. wp_steps. st. split; [|done]. f_equal.
  rewrite Hend.
  assert (Hdiv : 0 ≤ offset `div` cs ≤ offset).
  { split; [apply Z.div_pos; lia|]. apply Z.div_le_upper_bound; nia. }
  assert (Hdiv' : 0 ≤ Z.max 0 (offset + sz - 1) `div` cs ≤ Z.max 0 (offset + sz - 1)).
  { split; [apply Z.div_pos; lia|]. apply Z.div_le_upper_bound; nia. }
  rewrite !Int.i64_small by lia.
  set (hi := Z.max 0 (offset + sz - 1)) in *.
  assert (offset `div` cs ≤ hi `div` cs + 1).
  { rewrite <- (Z.div_add hi 1 cs) by lia. apply Z.div_le_mono; lia. }
  destruct (read_rows_inv cs (cur s) ino Hcs
    (λ c b, chunk_fit_bound _ _ _ _ c b (wf_fit _ _ _ Hwf)) offset sz ltac:(lia)
    ltac:(lia) (hi `div` cs) (chunks_between ino (offset `div` cs) (hi `div` cs) (cur s))
    (offset `div` cs) []) as (last & Hlast & Hinv & Hnone); try lia.
  - apply chunks_between_sorted.
  - intros. apply elem_of_chunks_between.
  - by apply read_inv_start; lia.
  - by eapply pread_pad; [..|exact Hinv|exact Hnone]; lia.
Qed.

(** *** Writing *)

(** [d'] is [d] with the file's bytes now given by [h]: other files, other tables
    are kept, and the chunks fit [n] bytes. *)
Record data_chg (n : Z) (h : Z → byte) (d d' : db) : Prop := {
  du_bytes i : 0 ≤ i → byte_at cs d' ino i = h i;
  du_fit : chunk_fit cs n ino d';
  du_other k : k.1 ≠ ino → fs_data d' !! k = fs_data d !! k;
  du_inode : fs_inode d' = fs_inode d;
  du_dentry : fs_dentry d' = fs_dentry d;
  du_symlink : fs_symlink d' = fs_symlink d;
}.
(** The bytes [lo..hi] replaced by [g], and the bytes from [n] on cut off. *)
Definition data_upd (n lo hi : Z) (g : Z → byte) (d d' : db) : Prop :=
  data_chg n (λ i, if decide (lo ≤ i < hi) then g i else byte_at cs d ino i) d d'.
Definition data_cut (n : Z) (d d' : db) : Prop :=
  data_chg n (λ i, if decide (i < n) then byte_at cs d ino i else x00) d d'.
Lemma data_upd_trans n lo mid hi g d d' d'' :
  lo ≤ mid ≤ hi → data_upd n lo mid g d d' → data_upd n mid hi g d' d'' →
  data_upd n lo hi g d d''.
Proof.
  intros Hm [B1 C1 O1 I1 D1 S1] [B2 C2 O2 I2 D2 S2]. split; try congruence; try done.
  - intros i Hi. rewrite B2, B1 by done. repeat case_decide; (done || lia).
  - intros k Hk. by rewrite O2, O1.
Qed.
Lemma data_upd_empty n lo g d : chunk_fit cs n ino d → data_upd n lo lo g d d.
Proof. intros Hc. split; try done. intros i _. by rewrite decide_False by lia. Qed.

(** Storing one chunk changes the bytes that fall into it. *)
Lemma data_upd_chunk m c o n b g d d' :
  0 < cs → 0 ≤ c → 0 ≤ o → o + n ≤ cs → 0 < Vec.len b ≤ cs → cs * c + Vec.len b ≤ m →
  chunk_fit cs m ino d →
  (∀ j, 0 ≤ j < cs → Vec.get b j =
     if decide (o ≤ j < o + n) then g (cs * c + j)
     else Vec.get (default [] (fs_data d !! (ino, c))) j) →
  fs_data d' = <[(ino, c):=b]> (fs_data d) →
  fs_inode d' = fs_inode d → fs_dentry d' = fs_dentry d → fs_symlink d' = fs_symlink d →
  data_upd m (cs * c + o) (cs * c + o + n) g d d'.
Proof.
  intros Hcs Hc Ho Hn Hb Hm Hbound Hget Hd Hi Hde Hsy. split; try done.
  - intros i Hi0. unfold byte_at. rewrite Hd, lookup_insert.
    pose proof (Z.div_mod i cs ltac:(lia)) as Hdm.
    pose proof (Z.mod_pos_bound i cs Hcs) as Hmb.
    destruct (decide ((ino, c) = (ino, i `div` cs))) as [Heq|Hne].
    + injection Heq as ->. rewrite Hget by lia.
      destruct (decide (o ≤ i `mod` cs < o + n)).
      * rewrite decide_True by lia. f_equal. lia.
      * rewrite decide_False by lia.
        destruct (fs_data d !! _); simpl; [done|]. apply Vec.get_beyond.
        unfold Vec.len. simpl. lia.
    + rewrite decide_False; [done|]. intros Hin. apply Hne. f_equal.
      apply Z.div_unique with (i - cs * c); lia.
  - intros c' b'. rewrite Hd, lookup_insert. case_decide; [|by apply Hbound].
    by intros [= <-]; simplify_eq.
  - intros k Hk. rewrite Hd, lookup_insert_ne; [done|]. by intros <-.
Qed.

(** The bytes of the chunk [write_chunk] stores. *)
Lemma chunk_of_select c d :
  match select_chunk ino c d with
  | row :: _ => default [] (blob_opt row 0)
  | [] => []
  end = default [] (fs_data d !! (ino, c)).
Proof. unfold select_chunk. by destruct (fs_data d !! (ino, c)). Qed.
Lemma get_patched o n (old src : list byte) j :
  0 ≤ o → 0 ≤ n → Vec.len src = n → 0 ≤ j →
  Vec.get (Vec.copy_at o src
    (if Vec.len old <? o + n then Vec.resize (o + n) old else old)) j =
  if decide (o ≤ j < o + n) then Vec.get src (j - o) else Vec.get old j.
Proof.
  intros Ho Hn Hsrc Hj.
  rewrite Vec.get_copy_at; [|lia| |lia].
  2:{ destruct (Z.ltb_spec (Vec.len old) (o + n)); [rewrite Vec.len_resize|]; lia. }
  rewrite Hsrc. case_decide; [done|].
  destruct (Z.ltb_spec (Vec.len old) (o + n)); [|done].
  rewrite Vec.get_resize. case_decide; [done|]. symmetry. apply Vec.get_beyond. lia.
Qed.
Lemma len_patched o n (old src : list byte) :
  0 ≤ o → 0 ≤ n → Vec.len src = n →
  Vec.len (Vec.copy_at o src
    (if Vec.len old <? o + n then Vec.resize (o + n) old else old)) =
  Z.max (Vec.len old) (o + n).
Proof.
  intros Ho Hn Hsrc. destruct (Z.ltb_spec (Vec.len old) (o + n)).
  - rewrite Vec.len_copy_at; rewrite ?Vec.len_resize; lia.
  - rewrite Vec.len_copy_at; lia.
Qed.

Lemma wp_write_chunk m offset data written s :
  0 < cs → aborted s = false → chunk_fit cs m ino (cur s) → offset + Vec.len data ≤ m →
  0 ≤ offset → offset + Vec.len data < 2 ^ 63 → 0 ≤ written < Vec.len data →
  wp (write_chunk f offset data written) s (λ r s', ∃ n,
    r = Ok n ∧ 0 < n ∧ written + n ≤ Vec.len data ∧ db_step s s' ∧
    data_upd m (offset + written) (offset + written + n)
      (λ i, Vec.get data (i - offset)) (cur s) (cur s')).
Proof.
  intros Hcs Hab Hbound Hm Hoff Hlen Hw. unfold write_chunk.
  assert (Hco : Int.u64_add offset written = offset + written).
  { unfold Int.u64_add. apply Int.u64_small. lia. }
  rewrite Hco. destruct (Z.eqb_spec cs 0) as [?|_]; [lia|].
  set (p := offset + written) in *.
  pose proof (Z.div_mod p cs ltac:(lia)) as Hdm.
  pose proof (Z.mod_pos_bound p cs Hcs) as Hmb.
  assert (Hc : 0 ≤ p `div` cs ≤ p).
  { split; [apply Z.div_pos; lia|]. apply Z.div_le_upper_bound; nia. }
  rewrite Int.i64_small by lia.
  set (c := p `div` cs) in *. set (o := p `mod` cs) in *.
  set (n := Z.min (cs - o) (Vec.len data - written)).
  assert (Hsl : Vec.len (Vec.slice written (written + n) data) = n).
  { rewrite Vec.len_slice; lia. }
  assert (Hslg : ∀ j, 0 ≤ j < n → Vec.get (Vec.slice written (written + n) data) j =
                  Vec.get data (cs * c + (o + j) - offset)).
  { intros j Hj. rewrite Vec.get_slice, decide_True by lia. f_equal. lia. }
  assert (Hold : Vec.len (default [] (fs_data (cur s) !! (ino, c))) ≤ cs ∧
                 cs * c + Vec.len (default [] (fs_data (cur s) !! (ino, c))) ≤ m).
  { destruct (fs_data (cur s) !! (ino, c)) eqn:Hb; simpl.
    - apply Hbound in Hb. lia.
    - unfold Vec.len. simpl. lia. }
  wp_step. destruct (Z.eqb_spec n cs) as [Hfull|Hpart]; simpl.
  - wp_steps. st. exists n. do 3 (split; [done || lia|]). split; [auto|].
    rewrite Hdm. apply data_upd_chunk with (b := Vec.slice written (written + n) data);
      try (by autorewrite with secafs_db); try lia.
    intros j Hj. rewrite decide_True by lia. rewrite Hslg by lia. f_equal. lia.
  - wp_steps. st. rewrite chunk_of_select.
    exists n. do 3 (split; [done || lia|]). split; [auto 10|].
    rewrite Hdm. eapply data_upd_chunk; cycle 8; try (by autorewrite with secafs_db); try lia.
    + rewrite len_patched; lia.
    + rewrite len_patched; lia.
    + intros j Hj. rewrite get_patched by lia. case_decide; [|done].
      rewrite Hslg by lia. f_equal. lia.
Qed.

Lemma wp_write_loop m fuel offset data written s :
  0 < cs → aborted s = false → chunk_fit cs m ino (cur s) → offset + Vec.len data ≤ m →
  0 ≤ offset → offset + Vec.len data < 2 ^ 63 → 0 ≤ written ≤ Vec.len data →
  Vec.len data - written ≤ Z.of_nat fuel →
  wp (write_loop f fuel offset data written) s (λ r s',
    r = Ok tt ∧ db_step s s' ∧
    data_upd m (offset + written) (offset + Vec.len data)
      (λ i, Vec.get data (i - offset)) (cur s) (cur s')).
Proof.
  intros Hcs. revert written s.
  induction fuel as [|fuel IH]; intros written s Hab Hbound Hm Hoff Hlen Hw Hf;
    cbn [write_loop].
  { wp_steps. replace written with (Vec.len data) by lia.
    split; [done|]. split; [auto|]. by apply data_upd_empty. }
  destruct (Z.ltb_spec written (Vec.len data)).
  2:{ wp_steps. replace written with (Vec.len data) by lia.
      split; [done|]. split; [auto|]. by apply data_upd_empty. }
  wp_step. eapply wp_mono; [|apply wp_write_chunk; (done || lia)].
  intros r s1 (n & -> & Hn & Hwn & Hstep & Hupd). cbv iota beta.
  eapply wp_mono; [|apply IH; try lia].
  - intros r s2 (-> & Hstep' & Hupd'). split; [done|].
    split; [by eapply db_step_trans|].
    eapply data_upd_trans; [|exact Hupd|]; [lia|].
    by replace (offset + written + n) with (offset + (written + n)) by lia.
  - by rewrite (db_step_aborted _ _ Hstep).
  - apply (du_fit _ _ _ _ Hupd).
Qed.

Lemma len_spec_write offset data c :
  0 ≤ offset → Vec.len (spec_write offset data c) = Z.max (Vec.len c) (offset + Vec.len data).
Proof.
  intros Ho. pose proof (Vec.len_nonneg c). pose proof (Vec.len_nonneg data).
  unfold spec_write. rewrite Vec.len_copy_at; rewrite ?Vec.len_resize; lia.
Qed.
Lemma get_spec_write offset data c i :
  0 ≤ offset → 0 ≤ i → Vec.get (spec_write offset data c) i =
    if decide (offset ≤ i < offset + Vec.len data) then Vec.get data (i - offset)
    else Vec.get c i.
Proof.
  intros Ho Hi. pose proof (Vec.len_nonneg c). pose proof (Vec.len_nonneg data).
  unfold spec_write. rewrite Vec.get_copy_at; rewrite ?Vec.len_resize; try lia.
  case_decide; [done|]. rewrite Vec.get_resize. case_decide; [done|].
  symmetry. apply Vec.get_beyond. lia.
Qed.

(** The stored file after its bytes and then its inode row are rewritten: if the
    new bytes are those of [c] padded with zeros, the file is [c]. *)
Lemma rewrite_refines (c : list byte) g h d d1 d2 :
  is_Some (fs_inode d !! ino) → Vec.len c < 2 ^ 63 →
  data_chg (Vec.len c) h d d1 → (∀ i, 0 ≤ i → h i = Vec.get c i) →
  fs_inode d2 = alter g ino (fs_inode d1) →
  fs_data d2 = fs_data d1 → fs_dentry d2 = fs_dentry d1 → fs_symlink d2 = fs_symlink d1 →
  (∀ r, i_size (g r) = Vec.len c) →
  contents cs d2 ino = c ∧ file_wf cs d2 ino ∧ file_frame ino d d2.
Proof.
  intros [r0 Hr0] Hlen [B C O I D S] Hh Hi2 Hd2 He2 Hs2 Hg.
  pose proof (Vec.len_nonneg c).
  assert (Hfs : file_size d2 ino = Vec.len c).
  { unfold file_size. rewrite Hi2, I, lookup_alter, decide_True by done.
    rewrite Hr0. simpl. apply Hg. }
  assert (Hb : ∀ i, 0 ≤ i → byte_at cs d2 ino i = Vec.get c i).
  { intros i Hi. rewrite <- Hh, <- B by done.
    apply byte_at_data. intros k. by rewrite Hd2. }
  split; [|split].
  - apply contents_ext; [done|]. intros i Hi. rewrite Hb; [done|lia].
  - split; [lia|]. intros k b. rewrite Hd2, Hfs. apply C.
  - split; [|intros k Hk; rewrite Hd2; by apply O|congruence|congruence].
    intros j Hj. rewrite Hi2, I, lookup_alter_ne; done.
Qed.

Lemma wp_pwrite offset data s :
  0 < cs → txn s = None → file_wf cs (cur s) ino → is_Some (fs_inode (cur s) !! ino) →
  0 ≤ offset → offset + Vec.len data < 2 ^ 63 → data ≠ [] →
  wp (pwrite f offset data) s (λ r s',
    r = Ok tt ∧ txn s' = None ∧ cache s' = cache s ∧
    contents cs (cur s') ino = spec_write offset data (contents cs (cur s) ino) ∧
    file_wf cs (cur s') ino ∧ file_frame ino (cur s) (cur s')).
Proof.
  intros Hcs Htx Hwf Hino Hoff Hlen Hne.
  pose proof (wf_size _ _ _ Hwf) as Hz. pose proof (Vec.len_nonneg data).
  unfold pwrite. rewrite decide_False by done. wp_steps.
  apply wp_begin; [by st|]. wp_steps. st.
  assert (Hcur : cur s = committed s) by (unfold cur; by rewrite Htx).
  unfold write_data_at_offset_with_conn. rewrite decide_False by done.
  rewrite <- Hcur, row_size_select by done.
  eapply wp_mono; [|apply (wp_write_loop (Z.max (file_size (cur s) ino) (offset + Vec.len data))
    (length data) offset data 0); st; try (done || lia)].
  - intros r s1 (-> & Hstep & Hupd). st. cbv iota.
    pose proof (db_step_aborted _ _ Hstep) as Hab. st.
    destruct Hstep as (Ht1 & _ & Hcache & _). st. simpl in Ht1.
    wp_steps. eapply wp_commit; [st; rewrite Ht1; done|]. st.
    do 3 (split; [done|]). simpl. rewrite Z.add_0_r in Hupd.
    assert (Hlw : Vec.len (spec_write offset data (contents cs (cur s) ino)) =
                  Z.max (file_size (cur s) ino) (offset + Vec.len data)).
    { by rewrite len_spec_write, contents_len. }
    eapply rewrite_refines; [done|lia|rewrite Hlw; exact Hupd|..];
      try (autorewrite with secafs_db; done).
    + intros i Hi. cbv beta. rewrite get_spec_write by done. case_decide; [done|].
      by rewrite contents_get.
    + intros r. simpl. rewrite Hlw. unfold Int.u64_add. rewrite Int.u64_small, Int.i64_small; lia.
  - eapply chunk_fit_mono; [|apply (wf_fit _ _ _ Hwf)]. lia.
  - unfold Vec.len. lia.
Qed.

(** *** Truncation *)

Lemma lookup_delete_where P d k :
  fs_data (delete_data_where P d) !! k = if P k then None else fs_data d !! k.
Proof.
  rewrite fs_data_delete_where. apply option_eq. intros v.
  rewrite map_lookup_filter_Some. simpl. destruct (P k); naive_solver.
Qed.
Lemma byte_at_none d i : fs_data d !! (ino, i `div` cs) = None → byte_at cs d ino i = x00.
Proof. unfold byte_at. by intros ->. Qed.

Lemma data_cut_all d :
  data_cut 0 d (delete_data_where (λ k, bool_decide (k.1 = ino)) d).
Proof.
  split; try (by autorewrite with secafs_db).
  - intros i Hi. rewrite decide_False by lia. apply byte_at_none.
    by rewrite lookup_delete_where, bool_decide_true.
  - intros c b. by rewrite lookup_delete_where, bool_decide_true.
  - intros k Hk. by rewrite lookup_delete_where, bool_decide_false.
Qed.

(** Dropping the chunks after the one position [n - 1] is in. *)
Definition drop_after (n : Z) (d : db) : db :=
  delete_data_where
    (λ k, bool_decide (k.1 = ino) && bool_decide ((n - 1) `div` cs < k.2)) d.

Lemma lookup_drop_after n d c :
  fs_data (drop_after n d) !! (ino, c) =
    if decide ((n - 1) `div` cs < c) then None else fs_data d !! (ino, c).
Proof.
  unfold drop_after. rewrite lookup_delete_where. simpl.
  rewrite bool_decide_true by done. simpl. by case_bool_decide; case_decide.
Qed.

(** Where position [n] is relative to the last chunk of a file of [n] bytes. *)
Lemma last_chunk_pos n :
  0 < cs → 0 < n →
  n = cs * ((n - 1) `div` cs) + (if decide (n `mod` cs = 0) then cs else n `mod` cs).
Proof.
  intros Hcs Hn. pose proof (Z.div_mod n cs ltac:(lia)).
  pose proof (Z.mod_pos_bound n cs Hcs). case_decide.
  - replace ((n - 1) `div` cs) with (n `div` cs - 1); [lia|].
    apply Z.div_unique with (cs - 1); lia.
  - replace ((n - 1) `div` cs) with (n `div` cs); [lia|].
    apply Z.div_unique with (n `mod` cs - 1); lia.
Qed.

(** Shrinking to [n]: chunks after the last are gone, and the last one is [b]. *)
Lemma data_cut_shrink m n d d' :
  0 < cs → 0 < n → chunk_fit cs m ino d → n ≤ m →
  (∀ c, c ≠ (n - 1) `div` cs → fs_data d' !! (ino, c) = fs_data (drop_after n d) !! (ino, c)) →
  (∀ k, k.1 ≠ ino → fs_data d' !! k = fs_data d !! k) →
  fs_inode d' = fs_inode d → fs_dentry d' = fs_dentry d → fs_symlink d' = fs_symlink d →
  (let last := (n - 1) `div` cs in
   let o := n `mod` cs in
   match fs_data d !! (ino, last), fs_data d' !! (ino, last) with
   | None, None => True
   | Some b, Some b' => if decide (o = 0) then b' = b else b' = take (Z.to_nat o) b
   | _, _ => False
   end) →
  data_cut n d d'.
Proof.
  intros Hcs Hn Hb Hm Hother Hk Hi Hde Hsy Hlast. cbv zeta in Hlast.
  set (last := (n - 1) `div` cs) in *.
  pose proof (Z.div_mod (n - 1) cs ltac:(lia)) as Hdm1. fold last in Hdm1.
  pose proof (Z.mod_pos_bound (n - 1) cs Hcs) as Hm1.
  assert (Hlast0 : 0 ≤ last) by (apply Z.div_pos; lia).
  pose proof (last_chunk_pos n Hcs Hn) as Ho. fold last in Ho.
  split; try done.
  - intros i Hi0. pose proof (Z.div_mod i cs ltac:(lia)) as Hdi.
    pose proof (Z.mod_pos_bound i cs Hcs) as Hmi.
    destruct (decide (i `div` cs = last)) as [Hil|Hil].
    + unfold byte_at. rewrite Hil in *.
      destruct (fs_data d !! (ino, last)), (fs_data d' !! (ino, last)); try done;
        [|by destruct (decide (i < n))].
      pose proof (Z.mod_pos_bound n cs Hcs).
      destruct (decide (n `mod` cs = 0)); rewrite Hlast; [by rewrite decide_True by lia|].
      rewrite Vec.get_take. repeat case_decide; (done || lia).
    + unfold byte_at. rewrite Hother by done. rewrite lookup_drop_after. fold last.
      destruct (decide (last < i `div` cs)).
      * rewrite (decide_False (P := i < n)); [done|]. nia.
      * rewrite (decide_True (P := i < n)); [done|]. nia.
  - intros c b Hcb. destruct (decide (c = last)) as [->|Hne].
    + destruct (fs_data d !! (ino, last)) as [b0|] eqn:Hb0; [|by rewrite Hcb in Hlast].
      rewrite Hcb in Hlast. apply Hb in Hb0 as (? & ? & ?). split; [done|].
      pose proof (Z.mod_pos_bound n cs Hcs).
      destruct (decide (n `mod` cs = 0)); rewrite Hlast; [lia|].
      unfold Vec.len in *. rewrite length_take. lia.
    + rewrite Hother, lookup_drop_after in Hcb by done. fold last in Hcb.
      case_decide; [done|]. apply Hb in Hcb as (? & ? & ?). split; [done|].
      split; [done|]. nia.
Qed.

Lemma lookup_drop_after_last n d :
  fs_data (drop_after n d) !! (ino, (n - 1) `div` cs) = fs_data d !! (ino, (n - 1) `div` cs).
Proof. rewrite lookup_drop_after. by rewrite decide_False by lia. Qed.
Lemma lookup_drop_after_other n d k :
  k.1 ≠ ino → fs_data (drop_after n d) !! k = fs_data d !! k.
Proof.
  intros Hk. unfold drop_after. rewrite lookup_delete_where. by rewrite bool_decide_false.
Qed.
Lemma drop_after_frame n d :
  fs_inode (drop_after n d) = fs_inode d ∧ fs_dentry (drop_after n d) = fs_dentry d ∧
  fs_symlink (drop_after n d) = fs_symlink d.
Proof. unfold drop_after. by autorewrite with secafs_db. Qed.

(** The two ways [truncate_chunks] shrinks: the last chunk is short enough, or it
    is cut. *)
Lemma data_cut_drop m n d :
  0 < cs → 0 < n → chunk_fit cs m ino d → n ≤ m →
  (∀ b, fs_data d !! (ino, (n - 1) `div` cs) = Some b → n `mod` cs = 0 ∨ Vec.len b ≤ n `mod` cs) →
  data_cut n d (drop_after n d).
Proof.
  intros Hcs Hn Hb Hnm Hc. destruct (drop_after_frame n d) as (? & ? & ?).
  apply (data_cut_shrink m); try done; [by apply lookup_drop_after_other|].
  cbv zeta. rewrite lookup_drop_after_last. destruct (fs_data d !! _) as [b|]; [|done].
  case_decide; [done|]. rewrite take_ge; [done|].
  destruct (Hc b); [done|done|]. unfold Vec.len in *. lia.
Qed.
Lemma data_cut_take m n d b :
  0 < cs → 0 < n → chunk_fit cs m ino d → n ≤ m → 0 < n `mod` cs →
  fs_data d !! (ino, (n - 1) `div` cs) = Some b →
  data_cut n d (update_data_row (ino, (n - 1) `div` cs)
                  (take (Z.to_nat (n `mod` cs)) b) (drop_after n d)).
Proof.
  intros Hcs Hn Hb Hnm Hm Hbl. destruct (drop_after_frame n d) as (? & ? & ?).
  assert (is_Some (fs_data (drop_after n d) !! (ino, (n - 1) `div` cs))).
  { rewrite lookup_drop_after_last. eauto. }
  apply (data_cut_shrink m); try done; try (by autorewrite with secafs_db).
  - intros c Hc. rewrite fs_data_update_row, lookup_insert_ne by congruence || done. done.
  - intros k Hk. rewrite fs_data_update_row by done.
    rewrite lookup_insert_ne by (intros <-; done). by apply lookup_drop_after_other.
  - cbv zeta. rewrite Hbl, fs_data_update_row, lookup_insert_eq by done.
    by rewrite decide_False by lia.
Qed.

Lemma wp_truncate_chunks n s :
  0 < cs → aborted s = false → file_wf cs (cur s) ino → 0 ≤ n < 2 ^ 63 →
  wp (truncate_chunks f (file_size (cur s) ino) n) s (λ r s',
    r = Ok tt ∧ db_step s s' ∧ data_cut n (cur s) (cur s')).
Proof.
  intros Hcs Hab Hwf Hn. pose proof (wf_fit _ _ _ Hwf) as Hb. unfold truncate_chunks.
  destruct (Z.eqb_spec n 0) as [->|Hn0].
  { wp_steps. st. split; [done|]. split; [auto|]. apply data_cut_all. }
  destruct (Z.ltb_spec n (file_size (cur s) ino)) as [Hlt|Hge].
  2:{ wp_steps. split; [done|]. split; [auto|]. split; try done.
      - intros i Hi. case_decide; [done|]. apply wf_tail; (done || lia).
      - by eapply chunk_fit_mono. }
  destruct (Z.eqb_spec cs 0) as [?|_]; [lia|].
  assert (0 ≤ (n - 1) `div` cs ≤ n - 1).
  { split; [apply Z.div_pos; lia|]. apply Z.div_le_upper_bound; nia. }
  rewrite Int.i64_small by lia. wp_steps. st. fold (drop_after n (cur s)).
  destruct (Z.ltb_spec 0 (n `mod` cs)) as [Hm|Hm].
  2:{ wp_steps. st. split; [done|]. split; [auto|].
      pose proof (Z.mod_pos_bound n cs Hcs). eapply data_cut_drop; (done || lia). }
  wp_steps. st. unfold select_chunk. rewrite lookup_drop_after_last.
  destruct (fs_data (cur s) !! (ino, (n - 1) `div` cs)) as [b|] eqn:Hbl.
  2:{ wp_steps. st. split; [done|]. split; [auto|].
      eapply data_cut_drop; try (done || lia). by rewrite Hbl. }
  change (blob_opt [Blob b] 0) with (Some b). cbv iota.
  destruct (Z.ltb_spec (n `mod` cs) (Vec.len b)) as [Hbig|Hsmall]; wp_steps; st;
    (split; [done|]); (split; [auto 10|]).
  - eapply data_cut_take; (done || lia).
  - eapply data_cut_drop; try (done || lia). rewrite Hbl. intros ? [= <-]. by right.
Qed.

Lemma wp_truncate n s :
  0 < cs → txn s = None → file_wf cs (cur s) ino → is_Some (fs_inode (cur s) !! ino) →
  0 ≤ n < 2 ^ 63 →
  wp (truncate f n) s (λ r s',
    r = Ok tt ∧ txn s' = None ∧ cache s' = cache s ∧
    contents cs (cur s') ino = spec_truncate n (contents cs (cur s) ino) ∧
    file_wf cs (cur s') ino ∧ file_frame ino (cur s) (cur s')).
Proof.
  intros Hcs Htx Hwf Hino Hn. pose proof (wf_size _ _ _ Hwf) as Hz.
  assert (Hcur : cur s = committed s) by (unfold cur; by rewrite Htx).
  assert (Hab : aborted s = false) by (unfold aborted; by rewrite Htx).
  unfold truncate. wp_steps. st. rewrite row_size_select by done.
  apply wp_begin; [by st|]. wp_step. apply wp_attempt. wp_steps.
  pose proof (wp_truncate_chunks n
    (set_txn (Some (committed (tick (tick s)), false)) (tick (tick (tick s))))) as Hc.
  st. rewrite <- Hcur in *. eapply wp_mono; [|apply Hc; done].
  intros r s1 (-> & Hstep & Hcut). cbv iota.
  pose proof (db_step_aborted _ _ Hstep) as Hab1. st.
  destruct Hstep as (Ht1 & _ & Hcache & _). st. simpl in Ht1.
  wp_steps. eapply wp_finish_ok; [st; rewrite Ht1; done|]. st.
  do 3 (split; [done|]). simpl.
  assert (Hlt : Vec.len (spec_truncate n (contents cs (cur s) ino)) = n).
  { apply Vec.len_resize. lia. }
  eapply rewrite_refines; [done|lia|rewrite Hlt; exact Hcut|..];
    try (autorewrite with secafs_db; done).
  - intros i Hi. cbv beta. unfold spec_truncate. rewrite Vec.get_resize.
    case_decide; [|done]. by rewrite contents_get.
  - intros r. simpl. rewrite Hlt. apply Int.i64_small. lia.
Qed.
End handle_ops.
