(* ===== verification/FileThms.v ===== *)
(** * Open files: the theorems

    What [pread], [pwrite] and [truncate] of an open handle promise to a caller, in
    terms of the flat byte string [contents], and what becomes of them when the
    stored chunk size is zero. *)

From S2P Require Import Prelude Types Tables Monad Wp Instances Sql File FileSpec.

(** ** Deciding well-formedness of a stored file *)

Definition chunk_ok (cs n ino : Z) (k : Z * Z) (b : list byte) : Prop :=
  k.1 = ino → 0 ≤ k.2 ∧ 0 < Vec.len b ≤ cs ∧ cs * k.2 + Vec.len b ≤ n.
#[global] Instance chunk_ok_dec cs n ino k b : Decision (chunk_ok cs n ino k b).
Proof. unfold chunk_ok. apply _. Defined.

Lemma chunk_fit_Forall cs n ino d :
  map_Forall (chunk_ok cs n ino) (fs_data d) → chunk_fit cs n ino d.
Proof. intros H c b Hb. by apply (H _ _ Hb). Qed.

Definition file_wf_b (cs : Z) (d : db) (ino : Z) : bool :=
  bool_decide (0 ≤ file_size d ino < 2 ^ 63) &&
  bool_decide (map_Forall (chunk_ok cs (file_size d ino) ino) (fs_data d)).
Lemma file_wf_b_sound cs d ino : file_wf_b cs d ino = true → file_wf cs d ino.
Proof.
  intros [H1%bool_decide_eq_true H2%bool_decide_eq_true]%andb_prop.
  split; [done|]. by apply chunk_fit_Forall.
Qed.

(** ** A sample file: ten bytes in chunks of four, the middle chunk a hole *)

Definition sample_db : db :=
  set_fs_data {[ (2, 0) := [x61; x62; x63; x64]; (2, 2) := [x65; x66]; (3, 0) := [x7a] ]}
    (set_fs_inode {[ 1 := new_inode DEFAULT_DIR_MODE 2 0 0 0 0 (0, 0);
                     2 := new_inode DEFAULT_FILE_MODE 1 0 0 10 0 (0, 0);
                     3 := new_inode DEFAULT_FILE_MODE 1 0 0 1 0 (0, 0) ]} empty_db).
Definition sample_state : @state calm_env := mkState calm_env sample_db None 3 2 0 (0%nat, []) 0 0.
Definition sample_file : SecAFSFile := mkFile 2 4.

(** ** Refinement *)

Section theorems.
Context {E : Env} {HQ : Quiet E} (f : SecAFSFile).
Abbreviation cs := (f_chunk_size f).
Abbreviation ino := (f_ino f).

(** C16. [pread] of an open file returns exactly the requested slice of the file's
    contents, holes and short chunks read as zeros, cut at the end of the file; it
    changes nothing. *)
Theorem pread_refines offset size s :
  0 < cs → aborted s = false → file_wf cs (cur s) ino →
  0 ≤ offset < 2 ^ 64 → 0 ≤ size < 2 ^ 64 →
  ∃ s', pread f offset size s = (Ok (spec_read offset size (contents cs (cur s) ino)), s') ∧
    cur s' = cur s ∧ txn s' = txn s ∧ cache s' = cache s.
Proof. intros. by apply wp_ok, wp_pread. Qed.

(** C17. [pwrite] splices the data into the contents, zero-filling a gap before it, in
    one committed transaction: the file stays well formed, and no other inode,
    chunk, directory entry or symlink changes. *)
Theorem pwrite_refines offset data s :
  0 < cs → txn s = None → file_wf cs (cur s) ino → is_Some (fs_inode (cur s) !! ino) →
  0 ≤ offset → offset + Vec.len data < 2 ^ 63 → data ≠ [] →
  ∃ s', pwrite f offset data s = (Ok tt, s') ∧ txn s' = None ∧ cache s' = cache s ∧
    contents cs (cur s') ino = spec_write offset data (contents cs (cur s) ino) ∧
    file_wf cs (cur s') ino ∧ file_frame ino (cur s) (cur s').
Proof. intros. by apply wp_ok, wp_pwrite. Qed.

(** C39. [truncate] of an existing file, where no call on the database fails and with a chunk
    size above zero, to any size below 2^63: it cuts the contents or extends them with
    zeros, in one committed transaction; the file stays well formed, and no other inode,
    chunk, directory entry or symlink changes. *)
Theorem truncate_refines n s :
  0 < cs → txn s = None → file_wf cs (cur s) ino → is_Some (fs_inode (cur s) !! ino) →
  0 ≤ n < 2 ^ 63 →
  ∃ s', truncate f n s = (Ok tt, s') ∧ txn s' = None ∧ cache s' = cache s ∧
    contents cs (cur s') ino = spec_truncate n (contents cs (cur s) ino) ∧
    file_wf cs (cur s') ino ∧ file_frame ino (cur s) (cur s').
Proof. intros. by apply wp_ok, wp_truncate. Qed.

Lemma spec_read_write offset data c :
  0 ≤ offset → spec_read offset (Vec.len data) (spec_write offset data c) = data.
Proof.
  intros Ho. pose proof (Vec.len_nonneg data). pose proof (Vec.len_nonneg c).
  set (w := Vec.resize (Z.max (Vec.len c) (offset + Vec.len data)) c).
  assert (Hw : Vec.len w = Z.max (Vec.len c) (offset + Vec.len data)).
  { apply Vec.len_resize. lia. }
  assert (Hl : Vec.len (Vec.copy_at offset data w) = Vec.len w).
  { apply Vec.len_copy_at; lia. }
  unfold spec_read, spec_write. fold w. apply Vec.ext.
  - unfold Vec.len in *. rewrite length_take, length_drop. lia.
  - intros i Hi. assert (0 ≤ i < Vec.len data).
    { unfold Vec.len in *. rewrite length_take in Hi. lia. }
    rewrite Vec.get_take, decide_True, Vec.get_drop by lia.
    rewrite Vec.get_copy_at by lia. rewrite decide_True by lia. f_equal. lia.
Qed.

(** What [pwrite] wrote, [pread] at the same offset returns, wherever the chunk
    boundaries fall. *)
Theorem pwrite_pread offset data s :
  0 < cs → txn s = None → file_wf cs (cur s) ino → is_Some (fs_inode (cur s) !! ino) →
  0 ≤ offset → offset + Vec.len data < 2 ^ 63 → data ≠ [] →
  ∃ s' s'', pwrite f offset data s = (Ok tt, s') ∧
    pread f offset (Vec.len data) s' = (Ok data, s'').
Proof.
  intros Hcs Htx Hwf Hino Ho Hl Hd. pose proof (Vec.len_nonneg data).
  destruct (wp_intro _ _ _ (wp_pwrite f offset data s Hcs Htx Hwf Hino Ho Hl Hd))
    as (r & s' & Hw & -> & Htx' & _ & Hc & Hwf' & _).
  destruct (wp_intro _ _ _ (wp_pread f offset (Vec.len data) s' Hcs
      ltac:(by unfold aborted; rewrite Htx') Hwf' ltac:(lia) ltac:(lia)))
    as (r & s'' & Hr & -> & _).
  rewrite Hc, spec_read_write in Hr by done. eauto.
Qed.

(** With a chunk size of zero, which [read_chunk_size] accepts, every read inside a
    file and every non-empty write panics. *)
Theorem zero_chunk_size_panics offset size data s :
  cs = 0 → txn s = None → 0 ≤ file_size (cur s) ino < 2 ^ 63 →
  offset < file_size (cur s) ino → data ≠ [] →
  (pread f offset size s).1 = Panic ∧ (pwrite f offset data s).1 = Panic.
Proof.
  intros Hcs Htx Hz Ho Hd.
  assert (Hab : aborted s = false) by (unfold aborted; by rewrite Htx).
  split.
  - apply (wp_proj (pread f offset size) s (λ r, r = Panic)).
    unfold pread. wp_steps. st. rewrite row_size_select by done.
    destruct (Z.leb_spec (file_size (cur s) ino) offset); [lia|].
    by rewrite Hcs.
  - apply (wp_proj (pwrite f offset data) s (λ r, r = Panic)).
    unfold pwrite. rewrite decide_False by done. wp_steps.
    apply wp_begin; [by st|]. wp_steps.
    unfold write_data_at_offset_with_conn. rewrite decide_False by done.
    destruct data as [|b data]; [done|]. cbn [length write_loop].
    destruct (Z.ltb_spec 0 (Vec.len (b :: data))) as [_|Hlen].
    2:{ unfold Vec.len in Hlen. simpl in Hlen. lia. }
    unfold write_chunk. by rewrite Hcs.
Qed.
End theorems.

(** ** Witnesses *)

Lemma sample_wf : file_wf 4 sample_db 2.
Proof. apply file_wf_b_sound. by vm_compute. Qed.

Lemma pread_refines_witness :
  ∃ s', pread sample_file 2 7 sample_state =
    (Ok [x63; x64; x00; x00; x00; x00; x65], s') ∧ cur s' = sample_db.
Proof.
  destruct (pread_refines sample_file 2 7 sample_state) as (s' & Hr & Hc & _);
    [done|done|apply sample_wf|done|done|].
  exists s'. split; [|done]. rewrite Hr. f_equal.
Defined.

Lemma pwrite_refines_witness :
  ∃ s', pwrite sample_file 6 [x41; x42; x43] sample_state = (Ok tt, s') ∧
    contents 4 (cur s') 2 =
      [x61; x62; x63; x64; x00; x00; x41; x42; x43; x66].
Proof.
  destruct (pwrite_refines sample_file 6 [x41; x42; x43] sample_state)
    as (s' & Hr & _ & _ & Hc & _);
    [done|done|apply sample_wf|by eexists|done|done|done|].
  exists s'. split; [done|]. etrans; [exact Hc|]. by vm_compute.
Defined.

Lemma truncate_refines_witness :
  ∃ s', truncate sample_file 3 sample_state = (Ok tt, s') ∧
    contents 4 (cur s') 2 = [x61; x62; x63].
Proof.
  destruct (truncate_refines sample_file 3 sample_state) as (s' & Hr & _ & _ & Hc & _);
    [done|done|apply sample_wf|by eexists|done|].
  exists s'. split; [done|]. etrans; [exact Hc|]. by vm_compute.
Defined.

Lemma pwrite_pread_witness :
  ∃ s' s'', pwrite sample_file 9 [x41; x42; x43; x44] sample_state = (Ok tt, s') ∧
    pread sample_file 9 4 s' = (Ok [x41; x42; x43; x44], s'').
Proof.
  apply (pwrite_pread sample_file 9 [x41; x42; x43; x44] sample_state);
    [done|done|apply sample_wf|by eexists|done|done|done].
Defined.

Lemma zero_chunk_size_panics_witness :
  (pread (mkFile 2 0) 0 1 sample_state).1 = Panic ∧
  (pwrite (mkFile 2 0) 0 [x41] sample_state).1 = Panic.
Proof. apply zero_chunk_size_panics; done. Defined.
