(* ===== verification/Paths.v ===== *)
(** * Paths

    [SecAFS::normalize_path] and [SecAFS::split_path] of
    [sdk/rust/src/filesystem/secafs.rs] and the parent-and-name split every
    path-based operation starts with.  A path is the UTF-8 byte string Rust has; the
    only bytes the code looks at are ASCII. *)

From S2P Require Import Prelude Types.

#[local] Open Scope string_scope.
#[local] Open Scope list_scope.
#[local] Open Scope Z_scope.

(** ** The string operations of the Rust standard library the code uses *)

Definition slash : Ascii.ascii := Ascii.Ascii true true true true false true false false.

Definition is_slash (c : Ascii.ascii) : bool := bool_decide (c = slash).

(** [s.trim_end_matches('/')] *)
Fixpoint trim_end (s : string) : string :=
  match s with
  | EmptyString => EmptyString
  | String c s' =>
      let t := trim_end s' in
      if is_slash c && bool_decide (t = "") then "" else String c t
  end.

(** [s.split('/')] *)
Fixpoint split_slash (s : string) : list string :=
  match s with
  | EmptyString => [""]
  | String c s' =>
      if is_slash c then "" :: split_slash s'
      else match split_slash s' with
           | w :: ws => String c w :: ws
           | [] => [String c ""]
           end
  end.

(** [v.join("/")] *)
Definition join (l : list string) : string := String.concat "/" l.

(** [s.starts_with('/')] *)
Definition is_absolute (s : string) : bool :=
  match s with String c _ => is_slash c | EmptyString => false end.

(** [s.starts_with(p)] for a string [p]. *)
Definition starts_with (p s : string) : bool := String.prefix p s.

(** [s.split('/').filter(|s| !s.is_empty())] *)
Definition components (s : string) : list string :=
  filter (λ c, c ≠ "") (split_slash s).

(** ** Normalisation *)

(** One turn of the loop over the components; [result] is the source's vector. *)
Definition normalize_step (result : list string) (component : string) : list string :=
  if decide (component = ".") then result
  else if decide (component = "..") then
    (if decide (result = []) then result else removelast result)
  else result ++ [component].

(** [format!("/{}", result.join("/"))], or ["/"] when it is empty. *)
Definition render (result : list string) : string :=
  if decide (result = []) then "/" else "/" +:+ join result.

Definition normalize_path (path : string) : string :=
  let normalized := trim_end path in
  if decide (normalized = "") then render (foldl normalize_step [] (components "/"))
  else if is_absolute normalized then
    render (foldl normalize_step [] (components normalized))
  else "/" +:+ normalized.

Definition split_path (path : string) : list string :=
  let normalized := normalize_path path in
  if decide (normalized = "/") then [] else components normalized.

(** The parent path of a component list, [components[..len - 1]] rendered. *)
Definition parent_path (components : list string) : string :=
  if decide (length components = 1%nat) then "/"
  else "/" +:+ join (removelast components).

(** [Path::new(p).parent()] and [parent.join(target)] for an absolute [p] and a
    relative [target], as far as [normalize_path] sees them: [Path] skips empty and
    ["."] components, so the parent is given by its remaining components. *)
Definition path_parent (p : string) : option string :=
  match filter (λ c, c ≠ "" ∧ c ≠ ".") (split_slash p) with
  | [] => None
  | cs => Some (render (removelast cs))
  end.
Definition path_join (base target : string) : string :=
  if decide (base = "/") then "/" +:+ target else base +:+ "/" +:+ target.

(** The next path [stat] looks at when [current] is a symlink to [target]. *)
Definition symlink_next (current target : string) : string :=
  normalize_path
    (if is_absolute target then target
     else path_join (default "/" (path_parent current)) target).

(** ** Canonical paths *)

Fixpoint no_slash (s : string) : bool :=
  match s with
  | EmptyString => true
  | String c s' => negb (is_slash c) && no_slash s'
  end.

(** A component that names a directory entry. *)
Definition clean (c : string) : Prop :=
  c ≠ "" ∧ c ≠ "." ∧ c ≠ ".." ∧ no_slash c = true.

Section string_facts.
Implicit Types (s c : string) (l : list string).

Lemma string_app_cons a s s' : String a s +:+ s' = String a (s +:+ s').
Proof. done. Qed.
Lemma string_app_nil_r s : s +:+ "" = s.
Proof. induction s as [|a s IH]; [done|]. by rewrite string_app_cons, IH. Qed.
Lemma string_app_assoc s s' s'' : (s +:+ s') +:+ s'' = s +:+ s' +:+ s''.
Proof. induction s as [|a s IH]; [done|]. by rewrite !string_app_cons, IH. Qed.

Lemma split_slash_no_slash s c : c ∈ split_slash s → no_slash c = true.
Proof.
  revert c. induction s as [|a s IH]; simpl; intros c.
  { by intros ->%list_elem_of_singleton. }
  destruct (is_slash a) eqn:Ha.
  { intros [->|Hc]%elem_of_cons; [done|]. by apply IH. }
  destruct (split_slash s) as [|w ws] eqn:Hs.
  { intros ->%list_elem_of_singleton. simpl. by rewrite Ha. }
  intros [->|Hc]%elem_of_cons.
  - simpl. rewrite Ha. simpl. apply IH. by left.
  - apply IH. by right.
Qed.
Lemma components_spec s c : c ∈ components s → c ≠ "" ∧ no_slash c = true.
Proof.
  unfold components. rewrite list_elem_of_filter. intros [? ?].
  split; [done|]. by eapply split_slash_no_slash.
Qed.

Lemma split_slash_word c : no_slash c = true → split_slash c = [c].
Proof.
  induction c as [|a c IH]; simpl; [done|]. intros [Ha Hc]%andb_prop.
  destruct (is_slash a); [done|]. by rewrite IH.
Qed.
Lemma split_slash_app c s :
  no_slash c = true → split_slash (c +:+ String slash s) = c :: split_slash s.
Proof.
  induction c as [|a c IH]; intros Hc; [done|]. rewrite string_app_cons. simpl in *.
  apply andb_prop in Hc as [Ha Hc].
  destruct (is_slash a); [done|]. by rewrite IH.
Qed.
Lemma split_slash_join l :
  l ≠ [] → Forall (λ c, no_slash c = true) l → split_slash (join l) = l.
Proof.
  intros Hl Hall. induction Hall as [|c l Hc Hall IH]; [done|].
  destruct l as [|c' l].
  { simpl. by apply split_slash_word. }
  change (join (c :: c' :: l)) with (c +:+ String slash (join (c' :: l))).
  rewrite split_slash_app by done. by rewrite IH.
Qed.
Lemma trim_end_nonslash s c :
  no_slash c = true → c ≠ "" → trim_end (s +:+ c) = s +:+ c.
Proof.
  intros Hc Hne.
  assert (Htc : trim_end c = c).
  { clear Hne. induction c as [|a c IH]; simpl; [done|].
    simpl in Hc. apply andb_prop in Hc as [Ha Hc]. rewrite IH by done.
    by destruct (is_slash a). }
  induction s as [|a s IH]; [done|]. rewrite string_app_cons. simpl. rewrite IH.
  rewrite (bool_decide_eq_false_2 (s +:+ c = "")).
  - by rewrite andb_false_r.
  - destruct s, c; done.
Qed.

(** The last component ends a joined path. *)
Lemma join_last l c : ∃ s, join (l ++ [c]) = s +:+ c.
Proof.
  induction l as [|c' l [s IH]].
  { by exists "". }
  exists (c' +:+ String slash s).
  rewrite string_app_assoc, string_app_cons, <- IH. by destruct l.
Qed.
Lemma components_render l : Forall clean l → components (render l) = l.
Proof.
  intros Hall. unfold render. case_decide as Hl; [by subst|].
  unfold components.
  change ("/" +:+ join l) with ("" +:+ String slash (join l)).
  rewrite split_slash_app by done.
  rewrite split_slash_join; [|done|].
  - rewrite filter_cons_False by naive_solver.
    clear Hl. induction Hall as [|c l (Hc & _) _ IH]; [done|].
    rewrite filter_cons_True by done. by rewrite IH.
  - eapply Forall_impl; [done|]. by intros c (? & ? & ? & ?).
Qed.

Lemma normalize_step_clean l : Forall clean l → foldl normalize_step [] l = l.
Proof.
  intros Hall. change l with ([] ++ l) at 2. generalize (@nil string).
  induction Hall as [|c l (Hc1 & Hc2 & Hc3 & Hc4) _ IH]; intros acc; simpl.
  { by rewrite app_nil_r. }
  unfold normalize_step at 2. rewrite !decide_False by done.
  rewrite IH. by rewrite <- app_assoc.
Qed.
Lemma Forall_removelast {A} (P : A → Prop) (l : list A) :
  Forall P l → Forall P (removelast l).
Proof.
  intros H. induction H as [|x l Hx Hl IH]; simpl; [done|].
  destruct l; by constructor.
Qed.
Lemma normalize_fold_clean l acc :
  Forall clean acc → Forall (λ c, c ≠ "" ∧ no_slash c = true) l →
  Forall clean (foldl normalize_step acc l).
Proof.
  intros Hacc Hl. revert acc Hacc.
  induction Hl as [|c l [Hc1 Hc2] _ IH]; intros acc Hacc; simpl; [done|].
  apply IH. unfold normalize_step. repeat case_decide; try done.
  - by apply Forall_removelast.
  - apply Forall_app. split; [done|]. apply Forall_singleton. by repeat split.
Qed.
End string_facts.

(** ** What normalisation guarantees *)

Section normalize.
Implicit Types path : string.

(** The components an absolute path denotes: ["."] skipped, [".."] popping at
    most up to the root. *)
Definition abs_components path : list string := foldl normalize_step [] (components path).

Lemma abs_components_clean path : Forall clean (abs_components path).
Proof.
  apply normalize_fold_clean; [done|]. apply Forall_forall. apply components_spec.
Qed.
Lemma trim_end_absolute path :
  is_absolute path = true → trim_end path = "" ∨ is_absolute (trim_end path) = true.
Proof.
  destruct path as [|a s]; [done|]. simpl. intros Ha. rewrite Ha. simpl.
  case_bool_decide; [by left|]. right. done.
Qed.
(** Trailing slashes add no component. *)
Lemma split_slash_nonnil path : split_slash path ≠ [].
Proof.
  destruct path as [|a s]; simpl; [done|]. destruct (is_slash a); [done|].
  by destruct (split_slash s).
Qed.
Lemma split_slash_snoc path : split_slash (path +:+ "/") = split_slash path ++ [""].
Proof.
  induction path as [|a s IH]; [done|]. rewrite string_app_cons. simpl. rewrite IH.
  destruct (is_slash a); [done|].
  pose proof (split_slash_nonnil s). by destruct (split_slash s).
Qed.
Fixpoint slashes (n : nat) : string :=
  match n with O => "" | S n => slashes n +:+ "/" end.
Lemma slashes_S n : slashes (S n) = String slash (slashes n).
Proof.
  induction n as [|n IH]; [done|].
  change (slashes (S (S n))) with (slashes (S n) +:+ "/").
  transitivity (String slash (slashes n) +:+ "/"); [by rewrite IH|done].
Qed.
Lemma trim_end_slashes path : ∃ n, path = trim_end path +:+ slashes n.
Proof.
  induction path as [|a s [n IH]]; [by exists O|]. simpl.
  destruct (is_slash a) eqn:Ha; simpl;
    [|exists n; rewrite string_app_cons; by f_equal].
  case_bool_decide as Ht; [|exists n; rewrite string_app_cons; by f_equal].
  exists (S n). rewrite slashes_S. apply bool_decide_eq_true in Ha as ->.
  rewrite Ht in IH. by rewrite IH.
Qed.
Lemma components_trim_end path : components (trim_end path) = components path.
Proof.
  destruct (trim_end_slashes path) as [n Hn]. rewrite Hn at 2.
  generalize (trim_end path). intros s. clear Hn. induction n as [|n IH].
  { by rewrite string_app_nil_r. }
  simpl. unfold components in *. rewrite <- string_app_assoc, split_slash_snoc.
  rewrite filter_app, IH. simpl. rewrite filter_cons_False by naive_solver.
  by rewrite app_nil_r.
Qed.

Lemma normalize_absolute path :
  is_absolute path = true → normalize_path path = render (abs_components path).
Proof.
  intros Habs. unfold normalize_path, abs_components.
  destruct (trim_end_absolute path Habs) as [Ht|Ht].
  - rewrite decide_True by done. do 2 f_equal.
    rewrite <- (components_trim_end path), Ht. done.
  - rewrite decide_False by (intros Hz; by rewrite Hz in Ht).
    rewrite Ht. by rewrite components_trim_end.
Qed.
Lemma render_absolute l : is_absolute (render l) = true.
Proof. unfold render. by case_decide. Qed.
Lemma render_root l : Forall clean l → render l = "/" ↔ l = [].
Proof.
  intros Hl. split; [|by intros ->]. intros Hr.
  rewrite <- (components_render l Hl), Hr. done.
Qed.
Lemma abs_components_render l : Forall clean l → abs_components (render l) = l.
Proof.
  intros Hl. unfold abs_components. rewrite components_render by done.
  by apply normalize_step_clean.
Qed.
Lemma normalize_render l : Forall clean l → normalize_path (render l) = render l.
Proof.
  intros Hl. rewrite normalize_absolute by apply render_absolute.
  by rewrite abs_components_render.
Qed.
Lemma split_render l : Forall clean l → split_path (render l) = l.
Proof.
  intros Hl. unfold split_path. rewrite normalize_render by done.
  case_decide as Hr.
  - symmetry. by apply render_root.
  - by apply components_render.
Qed.
Lemma split_absolute path :
  is_absolute path = true → split_path path = abs_components path.
Proof.
  intros Habs. unfold split_path. rewrite normalize_absolute by done.
  pose proof (abs_components_clean path).
  case_decide as Hr.
  - symmetry. by apply render_root.
  - by apply components_render.
Qed.
Lemma parent_path_render l :
  l ≠ [] → Forall clean l → parent_path l = render (removelast l).
Proof.
  intros Hl Hall. unfold parent_path, render.
  destruct l as [|c [|c' l]]; [done|done|]. simpl. by destruct l.
Qed.
Lemma split_parent_path l :
  l ≠ [] → Forall clean l → split_path (parent_path l) = removelast l.
Proof.
  intros. rewrite parent_path_render by done. apply split_render.
  by apply Forall_removelast.
Qed.
End normalize.
