(* ===== verification/SecafsInode.v ===== *)
(** * The inode-based file system

    [impl FileSystem for SecAFS] of [sdk/rust/src/filesystem/secafs.rs]: one
    definition per operation, statement by statement, with the helpers the
    path-based interface shares. *)

From S2P Require Import Prelude Types Tables Monad Sql File.

Definition ROOT_INO : Z := 1.
Definition DEFAULT_CHUNK_SIZE : Z := 4096.
Definition DENTRY_CACHE_MAX_SIZE : Z := 10000.

(** [struct SecAFS]; the pool and the dentry cache are in the state. *)
Record SecAFS := mkSecAFS { chunk_size : Z }.

(** [name.len()] in bytes. *)
Definition str_len (s : string) : Z := Z.of_nat (String.length s).

Section shared.
Context {E : Env}.

(** [SecAFS::lookup_child] *)
Definition lookup_child (parent_ino : Z) (name : string) : M (option Z) :=
  rows ← query (select_child parent_ino name);
  let '(found_ino, row_count) :=
    foldl (λ acc row, (int_opt row 0, acc.2 + 1)) (None, 0) rows in
  if 1 <? row_count then fail InvalidPath else mret found_ino.

(** [SecAFS::get_link_count] *)
Definition get_link_count (ino : Z) : M Z :=
  rows ← query (select_nlink ino);
  match rows with
  | row :: _ => mret (Int.u32 (int_or 0 row 0))
  | [] => mret 0
  end.

(** [SecAFS::getattr_with_conn] *)
Definition getattr_with_conn (ino : Z) : M (option Stats) :=
  rows ← query (select_stats ino);
  match rows with
  | row :: _ => mret (Some (build_stats_from_row row))
  | [] => mret None
  end.

(** [if let Some(row) = rows.next().await? { .. row.get_value(0) .. as u32 }] on a
    [SELECT mode]. *)
Definition select_mode_opt (ino : Z) : M (option Z) :=
  rows ← query (select_mode ino);
  match rows with
  | row :: _ => mret (Some (Int.u32 (int_or 0 row 0)))
  | [] => mret None
  end.

(** [SELECT ino FROM fs_inode WHERE ino = ?], and whether there is a row. *)
Definition inode_exists (ino : Z) : M bool :=
  rows ← query (select_ino ino);
  mret (match rows with [] => false | _ => true end).

(** [SELECT COUNT( * ) ..; if count > 0 { return Err(NotEmpty) }] *)
Definition require_empty (ino : Z) : M unit :=
  rows ← query (count_children ino);
  match rows with
  | row :: _ => if 0 <? int_or 0 row 0 then fail NotEmpty else mret tt
  | [] => mret tt
  end.

(** The three deletions of an inode whose last link is gone. *)
Definition delete_file_rows (ino : Z) : M unit :=
  execute_ (delete_data_where (λ k, bool_decide (k.1 = ino))) ≫= λ _,
  execute_ (delete_symlink_row ino) ≫= λ _,
  execute_ (delete_inode_row ino).

(** [row.get_value(0)..ok_or_else(|| Error::Internal("failed to get inode"))?] *)
Definition returned_ino (row : DbRow) : M Z :=
  ok_or_internal "failed to get inode" (int_opt row 0).
End shared.

(** One row of a directory listing, decoded column by column. *)
Definition entry_of_row (row : DbRow) : option DirEntry :=
  let name := default "" (text_opt row 0) in
  if decide (name = "") then None
  else Some (mkDirEntry name {|
    st_ino := int_or 0 row 1;
    st_mode := Int.u32 (int_or 0 row 2);
    st_nlink := Int.u32 (int_or 1 row 3);
    st_uid := Int.u32 (int_or 0 row 4);
    st_gid := Int.u32 (int_or 0 row 5);
    st_size := int_or 0 row 6;
    st_atime := int_or 0 row 7;
    st_mtime := int_or 0 row 8;
    st_ctime := int_or 0 row 9;
    st_atime_nsec := Int.u32 (int_or 0 row 11);
    st_mtime_nsec := Int.u32 (int_or 0 row 12);
    st_ctime_nsec := Int.u32 (int_or 0 row 13);
    st_rdev := Int.u64 (int_or 0 row 10);
  |}).
(** The name of a row of [SELECT name ..], skipped when empty. *)
Definition name_of_row (row : DbRow) : option string :=
  let name := default "" (text_opt row 0) in
  if decide (name = "") then None else Some name.

(** The [Stats] an operation returns for the inode it just created. *)
Definition new_stats (ino mode nlink uid gid size rdev : Z) (t : Z * Z) : Stats :=
  mkStats ino mode nlink uid gid size t.1 t.1 t.1 (Int.u32 t.2) (Int.u32 t.2) (Int.u32 t.2) rdev.

Module Fs.
Section ops.
Context {E : Env} (fs : SecAFS).

(** [if name.len() > MAX_NAME_LEN { return Err(NameTooLong) }] *)
Definition check_name (name : string) : M unit :=
  if MAX_NAME_LEN <? str_len name then fail NameTooLong else mret tt.

Definition lookup (parent_ino : Z) (name : string) : M (option Stats) :=
  check_name name ≫= λ _,
  get_connection ≫= λ _,
  if decide (name = "..") then
    if parent_ino =? ROOT_INO then getattr_with_conn ROOT_INO
    else
      rows ← query (select_parent parent_ino);
      let parent := match rows with row :: _ => int_or ROOT_INO row 0 | [] => ROOT_INO end in
      getattr_with_conn parent
  else
    child ← lookup_child parent_ino name;
    match child with
    | None => mret None
    | Some child_ino =>
        rows ← query (select_stats child_ino);
        match rows with
        | row :: _ =>
            cache_insert parent_ino name child_ino ≫= λ _,
            mret (Some (build_stats_from_row row))
        | [] => mret None
        end
    end.

Definition getattr (ino : Z) : M (option Stats) :=
  get_connection ≫= λ _, getattr_with_conn ino.

Definition readlink (ino : Z) : M (option string) :=
  get_connection ≫= λ _,
  mode ← select_mode_opt ino;
  match mode with
  | None => mret None
  | Some mode =>
      if negb (has_type S_IFLNK mode) then fail NotASymlink
      else
        rows ← query (select_target ino);
        match rows with
        | row :: _ => target ← ok_or InvalidPath (text_opt row 0); mret (Some target)
        | [] => mret None
        end
  end.

Definition readdir (ino : Z) : M (option (list string)) :=
  get_connection ≫= λ _,
  mode ← select_mode_opt ino;
  match mode with
  | None => mret None
  | Some mode =>
      if negb (has_type S_IFDIR mode) then fail NotADirectory
      else rows ← query (select_names ino); mret (Some (omap name_of_row rows))
  end.

Definition readdir_plus (ino : Z) : M (option (list DirEntry)) :=
  get_connection ≫= λ _,
  mode ← select_mode_opt ino;
  match mode with
  | None => mret None
  | Some mode =>
      if negb (has_type S_IFDIR mode) then fail NotADirectory
      else rows ← query (select_entries ino); mret (Some (omap entry_of_row rows))
  end.

Definition chmod (ino mode : Z) : M unit :=
  get_connection ≫= λ _,
  current ← select_mode_opt ino;
  match current with
  | None => fail NotFound
  | Some current_mode =>
      let new_mode := Z.lor (Z.land current_mode S_IFMT) (Z.land mode 0xfff) in
      t ← now;
      execute_ (update_inode_row (λ r, set_ctime t (set_i_mode new_mode r)) ino)
  end.

Definition chown (ino : Z) (uid gid : option Z) : M unit :=
  match uid, gid with
  | None, None => mret tt
  | _, _ =>
      get_connection ≫= λ _,
      ex ← inode_exists ino;
      if negb ex then fail NotFound
      else
        t ← now;
        execute_ (update_inode_row (λ r,
          let r := match uid with Some u => set_i_uid u r | None => r end in
          let r := match gid with Some g => set_i_gid g r | None => r end in
          set_ctime t r) ino)
  end.

(** The closure [resolve] of [utimens]. *)
Definition resolve_time (tc : TimeChange) : M (Z * Z) :=
  match tc with
  | SetTime secs nsec => mret (secs, nsec)
  | Now => now_unwrap
  | Omit => panic
  end.
Definition time_update (tc : TimeChange) (set : Z * Z → inode → inode)
    : M (option (inode → inode)) :=
  match tc with
  | Omit => mret None
  | _ => t ← resolve_time tc; mret (Some (set t))
  end.
Definition apply_update (u : option (inode → inode)) (r : inode) : inode :=
  match u with Some f => f r | None => r end.
Definition utimens (ino : Z) (atime mtime : TimeChange) : M unit :=
  get_connection ≫= λ _,
  ex ← inode_exists ino;
  if negb ex then fail NotFound
  else
    ua ← time_update atime set_atime;
    um ← time_update mtime set_mtime;
    match ua, um with
    | None, None => mret tt
    | _, _ =>
        t ← now;
        execute_ (update_inode_row
          (λ r, set_ctime t (apply_update um (apply_update ua r))) ino)
    end.

Definition open (ino flags : Z) : M SecAFSFile :=
  get_connection ≫= λ _,
  ex ← inode_exists ino;
  if negb ex then fail NotFound else mret (mkFile ino (chunk_size fs)).

Definition mkdir (parent_ino : Z) (name : string) (mode uid gid : Z) : M Stats :=
  check_name name ≫= λ _,
  get_connection ≫= λ _,
  ex ← lookup_child parent_ino name;
  if decide (is_Some ex) then fail AlreadyExists
  else
    t ← now;
    let dir_mode := Z.lor S_IFDIR (Z.land mode 0xfff) in
    row ← insert_inode (new_inode dir_mode 0 uid gid 0 0 t);
    ino ← returned_ino row;
    insert_dentry name parent_ino ino ≫= λ _,
    execute_ (update_inode_row (set_i_nlink 2) ino) ≫= λ _,
    execute_ (update_inode_row (λ r, set_mtime t (set_ctime t (add_nlink 1 r))) parent_ino) ≫= λ _,
    cache_insert parent_ino name ino ≫= λ _,
    mret (new_stats ino dir_mode 2 uid gid 0 0 t).

Definition create_file (parent_ino : Z) (name : string) (mode uid gid : Z)
    : M (Stats * SecAFSFile) :=
  check_name name ≫= λ _,
  get_connection ≫= λ _,
  ex ← lookup_child parent_ino name;
  if decide (is_Some ex) then fail AlreadyExists
  else
    begin_txn ≫= λ _,
    t ← now;
    let file_mode := Z.lor S_IFREG (Z.land mode 0xfff) in
    row ← insert_inode (new_inode file_mode 1 uid gid 0 0 t);
    ino ← returned_ino row;
    insert_dentry name parent_ino ino ≫= λ _,
    execute_ (update_inode_row (λ r, set_mtime t (set_ctime t r)) parent_ino) ≫= λ _,
    commit_txn ≫= λ _,
    cache_insert parent_ino name ino ≫= λ _,
    mret (new_stats ino file_mode 1 uid gid 0 0 t, mkFile ino (chunk_size fs)).

Definition mknod (parent_ino : Z) (name : string) (mode rdev uid gid : Z) : M Stats :=
  check_name name ≫= λ _,
  get_connection ≫= λ _,
  ex ← lookup_child parent_ino name;
  if decide (is_Some ex) then fail AlreadyExists
  else
    t ← now;
    row ← insert_inode (new_inode mode 0 uid gid 0 (Int.i64 rdev) t);
    ino ← returned_ino row;
    insert_dentry name parent_ino ino ≫= λ _,
    execute_ (update_inode_row (add_nlink 1) ino) ≫= λ _,
    execute_ (update_inode_row (λ r, set_mtime t (set_ctime t r)) parent_ino) ≫= λ _,
    cache_insert parent_ino name ino ≫= λ _,
    mret (new_stats ino mode 1 uid gid 0 rdev t).

Definition symlink (parent_ino : Z) (name target : string) (uid gid : Z) : M Stats :=
  check_name name ≫= λ _,
  get_connection ≫= λ _,
  ex ← lookup_child parent_ino name;
  if decide (is_Some ex) then fail AlreadyExists
  else
    t ← now;
    let mode := Z.lor S_IFLNK 0x1ff in
    let size := str_len target in
    row ← insert_inode (new_inode mode 0 uid gid size 0 t);
    ino ← returned_ino row;
    execute (insert_symlink_row ino target) ≫= λ _,
    insert_dentry name parent_ino ino ≫= λ _,
    execute_ (update_inode_row (add_nlink 1) ino) ≫= λ _,
    execute_ (update_inode_row (λ r, set_mtime t (set_ctime t r)) parent_ino) ≫= λ _,
    cache_insert parent_ino name ino ≫= λ _,
    mret (new_stats ino mode 1 uid gid size 0 t).

Definition unlink (parent_ino : Z) (name : string) : M unit :=
  check_name name ≫= λ _,
  get_connection ≫= λ _,
  child ← lookup_child parent_ino name;
  ino ← ok_or NotFound child;
  mode ← select_mode_opt ino;
  if decide (has_type S_IFDIR <$> mode = Some true) then fail IsADirectory
  else
    execute_ (delete_dentry_row parent_ino name) ≫= λ _,
    cache_remove parent_ino name ≫= λ _,
    t ← now;
    execute_ (update_inode_row (λ r, set_ctime t (set_mtime t r)) parent_ino) ≫= λ _,
    execute_ (update_inode_row (λ r, set_ctime t (add_nlink (-1) r)) ino) ≫= λ _,
    link_count ← get_link_count ino;
    if link_count =? 0 then delete_file_rows ino else mret tt.

Definition rmdir (parent_ino : Z) (name : string) : M unit :=
  check_name name ≫= λ _,
  get_connection ≫= λ _,
  child ← lookup_child parent_ino name;
  ino ← ok_or NotFound child;
  if ino =? ROOT_INO then fail RootOperation
  else
    mode ← select_mode_opt ino;
    match mode with
    | None => fail NotFound
    | Some mode =>
        if negb (has_type S_IFDIR mode) then fail NotADirectory
        else
          require_empty ino ≫= λ _,
          execute_ (delete_dentry_row parent_ino name) ≫= λ _,
          cache_remove parent_ino name ≫= λ _,
          execute_ (update_inode_row (add_nlink (-1)) ino) ≫= λ _,
          t ← now;
          execute_ (update_inode_row
            (λ r, set_mtime t (set_ctime t (add_nlink (-1) r))) parent_ino) ≫= λ _,
          link_count ← get_link_count ino;
          if link_count =? 0 then execute_ (delete_inode_row ino) else mret tt
    end.

Definition link (ino newparent_ino : Z) (newname : string) : M Stats :=
  check_name newname ≫= λ _,
  get_connection ≫= λ _,
  mode ← select_mode_opt ino;
  match mode with
  | None => fail NotFound
  | Some mode =>
      if has_type S_IFDIR mode then fail IsADirectory
      else
        ex ← lookup_child newparent_ino newname;
        if decide (is_Some ex) then fail AlreadyExists
        else
          insert_dentry newname newparent_ino ino ≫= λ _,
          t ← now;
          execute_ (update_inode_row (λ r, set_ctime t (add_nlink 1 r)) ino) ≫= λ _,
          execute_ (update_inode_row (λ r, set_mtime t (set_ctime t r)) newparent_ino) ≫= λ _,
          cache_insert newparent_ino newname ino ≫= λ _,
          st ← getattr_with_conn ino;
          ok_or NotFound st
  end.

(** The replacement checks of [rename], on the stats of both ends. *)
Definition check_replace (src dst : Stats) (dst_ino : Z) : M unit :=
  if is_directory dst && negb (is_directory src) then fail IsADirectory
  else if negb (is_directory dst) && is_directory src then fail NotADirectory
  else if is_directory dst then require_empty dst_ino
  else mret tt.

(** [if let Some(dst_ino) = self.lookup_child(..)? { .. }]: remove what the
    destination name points to. *)
Definition replace_destination (src : Stats) (newparent_ino : Z) (newname : string) : M unit :=
  dst ← lookup_child newparent_ino newname;
  match dst with
  | None => mret tt
  | Some dst_ino =>
      st ← getattr_with_conn dst_ino;
      dst_stats ← ok_or NotFound st;
      check_replace src dst_stats dst_ino ≫= λ _,
      execute_ (delete_dentry_row newparent_ino newname) ≫= λ _,
      t ← now_or_default;
      execute_ (update_inode_row (λ r, set_ctime t (add_nlink (-1) r)) dst_ino) ≫= λ _,
      link_count ← get_link_count dst_ino;
      if link_count =? 0 then delete_file_rows dst_ino else mret tt
  end.

(** The rest of the transaction: move the entry, the parents' link counts, the
    time stamps. *)
Definition move_entry (src : Stats) (src_ino oldparent_ino : Z) (oldname : string)
    (newparent_ino : Z) (newname : string) : M unit :=
  execute (move_dentry_row oldparent_ino oldname newparent_ino newname) ≫= λ _,
  when (is_directory src && negb (oldparent_ino =? newparent_ino)) (
    execute_ (update_inode_row (add_nlink (-1)) oldparent_ino) ≫= λ _,
    execute_ (update_inode_row (add_nlink 1) newparent_ino)) ≫= λ _,
  t ← now_or_default;
  execute_ (update_inode_row (set_ctime t) src_ino) ≫= λ _,
  execute_ (update_inode_row (λ r, set_ctime t (set_mtime t r)) oldparent_ino) ≫= λ _,
  when (negb (newparent_ino =? oldparent_ino))
    (execute_ (update_inode_row (λ r, set_ctime t (set_mtime t r)) newparent_ino)).

Definition rename (oldparent_ino : Z) (oldname : string)
    (newparent_ino : Z) (newname : string) : M unit :=
  check_name newname ≫= λ _,
  get_connection ≫= λ _,
  child ← lookup_child oldparent_ino oldname;
  src_ino ← ok_or NotFound child;
  if src_ino =? ROOT_INO then fail RootOperation
  else
    st ← getattr_with_conn src_ino;
    src_stats ← ok_or NotFound st;
    begin_txn ≫= λ _,
    result ← attempt (
      replace_destination src_stats newparent_ino newname ≫= λ _,
      move_entry src_stats src_ino oldparent_ino oldname newparent_ino newname);
    finish result ≫= λ _,
    cache_remove oldparent_ino oldname ≫= λ _,
    cache_remove newparent_ino newname ≫= λ _,
    cache_insert newparent_ino newname src_ino.

(** [SecAFS::statfs] *)
Definition statfs : M FilesystemStats :=
  get_connection ≫= λ _,
  rows ← query count_inodes;
  let inodes := row_size rows in
  rows ← query sum_sizes;
  let bytes_used := row_size rows in
  mret (mkFsStats inodes bytes_used).
End ops.
End Fs.
