(* ===== verification/SecafsPath.v ===== *)
(** * The path-based file system

    The inherent methods of [impl SecAFS] in [sdk/rust/src/filesystem/secafs.rs]:
    path resolution through the dentry cache and one definition per operation.  They
    run on the same tables as the inode-based operations but are separate code. *)

From S2P Require Import Prelude Types Tables Monad Sql File Paths SecafsInode.

#[local] Open Scope string_scope.
#[local] Open Scope list_scope.
#[local] Open Scope Z_scope.

Section resolve.
Context {E : Env}.

(** The loop of [resolve_path_with_conn] over the components. *)
Fixpoint resolve_components (components : list string) (current_ino : Z) : M (option Z) :=
  match components with
  | [] => mret (Some current_ino)
  | component :: rest =>
      cached ← cache_get current_ino component;
      match cached with
      | Some cached_ino => resolve_components rest cached_ino
      | None =>
          rows ← query (select_child current_ino component);
          let '(found_row, row_count) :=
            foldl (λ acc row, (Some row, acc.2 + 1)) (None, 0) rows in
          if 1 <? row_count then fail InvalidPath
          else match found_row with
               | Some row =>
                   let child_ino := int_or 0 row 0 in
                   cache_insert current_ino component child_ino ≫= λ _,
                   resolve_components rest child_ino
               | None => mret None
               end
      end
  end.
Definition resolve_path_with_conn (path : string) : M (option Z) :=
  let components := split_path path in
  if decide (components = []) then mret (Some ROOT_INO)
  else resolve_components components ROOT_INO.
Definition resolve_path (path : string) : M (option Z) :=
  get_connection ≫= λ _, resolve_path_with_conn path.

(** [self.resolve_path_with_conn(&conn, &parent_path).await?.ok_or(NotFound)?] for
    the parent of a non-empty component list. *)
Definition resolve_parent (components : list string) : M Z :=
  p ← resolve_path_with_conn (parent_path components);
  ok_or NotFound p.
(** [components.last().unwrap()] *)
Definition last_component (components : list string) : string :=
  default "" (last components).
End resolve.

Module Path.
Section ops.
Context {E : Env} (fs : SecAFS).

Definition lstat (path : string) : M (option Stats) :=
  get_connection ≫= λ _,
  let path := normalize_path path in
  r ← resolve_path_with_conn path;
  match r with
  | None => mret None
  | Some ino => getattr_with_conn ino
  end.

Definition readlink_with_conn (path : string) : M (option string) :=
  let path := normalize_path path in
  r ← resolve_path_with_conn path;
  match r with
  | None => mret None
  | Some ino =>
      mode ← select_mode_opt ino;
      match mode with
      | None => mret None
      | Some mode =>
          if negb (has_type S_IFLNK mode) then fail NotASymlink
          else
            rows ← query (select_target ino);
            match rows with
            | row :: _ => target ← ok_or InvalidPath (text_opt row 0); mret (Some target)
            | [] => mret None
            end
      end
  end.
Definition readlink (path : string) : M (option string) :=
  get_connection ≫= λ _, readlink_with_conn path.

(** The loop [for _ in 0..max_symlink_depth] of [stat] and [stat_with_conn], which
    differ in the error [e] for a symlink without a target. *)
Fixpoint stat_loop (e : FsError) (fuel : nat) (current_path : string) : M (option Stats) :=
  match fuel with
  | O => fail SymlinkLoop
  | S fuel =>
      r ← resolve_path_with_conn current_path;
      match r with
      | None => mret None
      | Some ino =>
          rows ← query (select_stats ino);
          match rows with
          | [] => mret None
          | row :: _ =>
              let mode := Int.u32 (int_or 0 row 1) in
              if has_type S_IFLNK mode then
                t ← readlink_with_conn current_path;
                target ← ok_or e t;
                stat_loop e fuel (symlink_next current_path target)
              else mret (Some (build_stats_from_row row))
          end
      end
  end.
Definition max_symlink_depth : nat := 40.
Definition stat (path : string) : M (option Stats) :=
  get_connection ≫= λ _, stat_loop NotFound max_symlink_depth (normalize_path path).
Definition stat_with_conn (path : string) : M (option Stats) :=
  stat_loop InvalidPath max_symlink_depth (normalize_path path).

Definition mkdir (path : string) (uid gid : Z) : M unit :=
  get_connection ≫= λ _,
  let path := normalize_path path in
  let components := split_path path in
  if decide (components = []) then fail RootOperation
  else
    parent_ino ← resolve_parent components;
    let name := last_component components in
    ex ← lookup_child parent_ino name;
    if decide (is_Some ex) then fail AlreadyExists
    else
      t ← now;
      row ← insert_inode (new_inode DEFAULT_DIR_MODE 0 uid gid 0 0 t);
      ino ← returned_ino row;
      insert_dentry name parent_ino ino ≫= λ _,
      execute_ (update_inode_row (set_i_nlink 2) ino) ≫= λ _,
      execute_ (update_inode_row (λ r, set_mtime t (set_ctime t (add_nlink 1 r))) parent_ino) ≫= λ _,
      cache_insert parent_ino name ino.

Definition mknod (path : string) (mode rdev uid gid : Z) : M unit :=
  get_connection ≫= λ _,
  let path := normalize_path path in
  let components := split_path path in
  if decide (components = []) then fail RootOperation
  else
    parent_ino ← resolve_parent components;
    let name := last_component components in
    ex ← lookup_child parent_ino name;
    if decide (is_Some ex) then fail AlreadyExists
    else
      t ← now;
      row ← insert_inode (new_inode mode 0 uid gid 0 (Int.i64 rdev) t);
      ino ← returned_ino row;
      insert_dentry name parent_ino ino ≫= λ _,
      execute_ (update_inode_row (add_nlink 1) ino) ≫= λ _,
      cache_insert parent_ino name ino.

Definition create_file (path : string) (mode uid gid : Z) : M (Stats * SecAFSFile) :=
  get_connection ≫= λ _,
  let path := normalize_path path in
  let components := split_path path in
  if decide (components = []) then fail RootOperation
  else
    parent_ino ← resolve_parent components;
    let name := last_component components in
    ex ← lookup_child parent_ino name;
    if decide (is_Some ex) then fail AlreadyExists
    else
      begin_txn ≫= λ _,
      t ← now;
      let file_mode := Z.lor S_IFREG (Z.land mode 0xfff) in
      row ← insert_inode (new_inode file_mode 1 uid gid 0 0 t);
      ino ← returned_ino row;
      insert_dentry name parent_ino ino ≫= λ _,
      commit_txn ≫= λ _,
      cache_insert parent_ino name ino ≫= λ _,
      mret (new_stats ino file_mode 1 uid gid 0 0 t, mkFile ino (chunk_size fs)).

(** ** Data *)

Definition read_file (path : string) : M (option (list byte)) :=
  get_connection ≫= λ _,
  r ← resolve_path_with_conn path;
  match r with
  | None => mret None
  | Some ino =>
      rows ← query (select_all_data ino);
      mret (Some (concat (omap (λ row, blob_opt row 0) rows)))
  end.

(** One turn of the row loop of the path-based [pread]. *)
Definition pread_row (size start_offset : Z) (result : list byte) (row : DbRow) : list byte :=
  match blob_opt row 1 with
  | None => result
  | Some chunk_data =>
      let skip := if decide (result = []) then start_offset else 0 in
      if Vec.len chunk_data <=? skip then result
      else
        let remaining := size - Vec.len result in
        let take := Z.min (Vec.len chunk_data - skip) remaining in
        result ++ Vec.slice skip (skip + take) chunk_data
  end.
Definition pread (path : string) (offset size : Z) : M (option (list byte)) :=
  get_connection ≫= λ _,
  r ← resolve_path_with_conn path;
  match r with
  | None => mret None
  | Some ino =>
      if chunk_size fs =? 0 then panic
      else
        let start_chunk := offset `div` chunk_size fs in
        let end_chunk := Int.sat_sub (Int.u64_add offset size) 1 `div` chunk_size fs in
        rows ← query (select_chunks ino (Int.i64 start_chunk) (Int.i64 end_chunk));
        if negb (Vec.fits size) then panic
        else
        let start_offset_in_chunk := offset `mod` chunk_size fs in
        mret (Some (foldl (pread_row size start_offset_in_chunk) [] rows))
  end.

(** The inode [pwrite] writes to, its current size, and whether it was created. *)
Definition get_or_create (path : string) (parent_ino : Z) (name : string) (write_end : Z)
    : M (Z * Z * bool) :=
  r ← resolve_path_with_conn path;
  match r with
  | Some ino => rows ← query (select_size ino); mret (ino, row_size rows, false)
  | None =>
      t ← now;
      row ← insert_inode (new_inode DEFAULT_FILE_MODE 1 0 0 (Int.i64 write_end) 0 t);
      ino ← returned_ino row;
      insert_dentry name parent_ino ino ≫= λ _,
      mret (ino, 0, true)
  end.

(** The body of [for chunk_idx in start_chunk..=end_chunk].  A range that ends before it
    starts panics, and so does [copy_from_slice] when the two ranges differ in length. *)
Definition pwrite_chunk (ino offset write_end current_size end_chunk : Z) (data : list byte)
    (chunk_idx : Z) : M unit :=
  let cs := chunk_size fs in
  let chunk_start := Int.u64_mul chunk_idx cs in
  let data_start := if chunk_start <? offset then offset - chunk_start else 0 in
  let data_end := Z.min cs (Int.u64 (write_end - chunk_start)) in
  let src_start := if offset <? chunk_start then chunk_start - offset else 0 in
  let src_end := Z.min (Vec.len data) (src_start + (data_end - data_start)) in
  let needs_read := (0 <? data_start) || (data_end <? cs) in
  chunk_data ←
    (if needs_read then
       rows ← query (select_chunk ino (Int.i64 chunk_idx));
       mret match rows with
            | row :: _ =>
                match blob_opt row 0 with
                | Some b => Vec.resize cs b
                | None => Vec.zeros cs
                end
            | [] => Vec.zeros cs
            end
     else mret (Vec.zeros cs));
  if (data_end <? data_start) || negb (data_end - data_start =? src_end - src_start) then panic
  else
    let chunk_data := Vec.copy_at data_start (Vec.slice src_start src_end data) chunk_data in
    let actual_len :=
      if chunk_idx =? end_chunk then
        let file_end_in_chunk := Int.u64 (write_end - chunk_start) in
        let old_end_in_chunk :=
          if chunk_start <? current_size then Z.min (current_size - chunk_start) cs else 0 in
        Z.max file_end_in_chunk old_end_in_chunk
      else cs in
    execute_ (delete_data_row (ino, Int.i64 chunk_idx)) ≫= λ _,
    execute (insert_data_row (ino, Int.i64 chunk_idx) (take (Z.to_nat actual_len) chunk_data)).

Definition pwrite_body (path : string) (parent_ino : Z) (name : string)
    (offset : Z) (data : list byte) : M unit :=
  let write_end := Int.u64_add offset (Vec.len data) in
  '(ino, current_size, is_new) ← get_or_create path parent_ino name write_end;
  if decide (data = []) then
    t ← now;
    execute_ (update_inode_row (set_mtime t) ino)
  else if chunk_size fs =? 0 then panic
  else
    let start_chunk := offset `div` chunk_size fs in
    let end_chunk := Int.u64 (write_end - 1) `div` chunk_size fs in
    for_each (seqZ start_chunk (end_chunk - start_chunk + 1))
      (pwrite_chunk ino offset write_end current_size end_chunk data) ≫= λ _,
    when (negb is_new) (
      let new_size := Z.max current_size write_end in
      t ← now;
      execute_ (update_inode_row (λ r, set_mtime t (set_i_size (Int.i64 new_size) r)) ino)).

Definition pwrite (path : string) (offset : Z) (data : list byte) : M unit :=
  get_connection ≫= λ _,
  let path := normalize_path path in
  let components := split_path path in
  if decide (components = []) then fail RootOperation
  else
    parent_ino ← resolve_parent components;
    let name := last_component components in
    begin_txn ≫= λ _,
    result ← attempt (pwrite_body path parent_ino name offset data);
    finish result.

(** [if let Some(row) = rows.next()? { if let Ok(Blob(b)) = row.get_value(0) { k(b) } }] *)
Definition with_chunk (ino idx : Z) (k : list byte → M unit) : M unit :=
  rows ← query (select_chunk ino idx);
  match rows with
  | row :: _ => match blob_opt row 0 with Some b => k b | None => mret tt end
  | [] => mret tt
  end.

Definition truncate_shrink (ino new_size : Z) : M unit :=
  let cs := chunk_size fs in
  let last_chunk_idx := (new_size - 1) `div` cs in
  execute_ (delete_data_where
    (λ k, bool_decide (k.1 = ino) && bool_decide (Int.i64 last_chunk_idx < k.2))) ≫= λ _,
  let end_in_last_chunk := (new_size - 1) `mod` cs + 1 in
  when (end_in_last_chunk <? cs) (
    with_chunk ino (Int.i64 last_chunk_idx) (λ chunk_data,
      when (end_in_last_chunk <? Vec.len chunk_data)
        (execute_ (update_data_row (ino, Int.i64 last_chunk_idx)
          (take (Z.to_nat end_in_last_chunk) chunk_data))))).

Definition truncate_extend (ino current_size new_size : Z) : M unit :=
  let cs := chunk_size fs in
  let last_existing_chunk :=
    if current_size =? 0 then None else Some ((current_size - 1) `div` cs) in
  let last_new_chunk := (new_size - 1) `div` cs in
  match last_existing_chunk with
  | None => mret tt
  | Some last_idx =>
      with_chunk ino (Int.i64 last_idx) (λ chunk_data,
        let needed_len :=
          if last_idx =? last_new_chunk then (new_size - 1) `mod` cs + 1 else cs in
        when (Vec.len chunk_data <? needed_len)
          (execute_ (update_data_row (ino, Int.i64 last_idx) (Vec.resize needed_len chunk_data))))
  end ≫= λ _,
  let start_new_chunk := from_option (λ i, i + 1) 0 last_existing_chunk in
  for_each (seqZ start_new_chunk (last_new_chunk - start_new_chunk + 1)) (λ chunk_idx,
    let chunk_len :=
      if chunk_idx =? last_new_chunk then (new_size - 1) `mod` cs + 1 else cs in
    execute (insert_data_row (ino, Int.i64 chunk_idx) (Vec.zeros chunk_len))).

Definition truncate_body (ino current_size new_size : Z) : M unit :=
  (if new_size =? 0 then
     execute_ (delete_data_where (λ k, bool_decide (k.1 = ino)))
   else if new_size <? current_size then
     if chunk_size fs =? 0 then panic else truncate_shrink ino new_size
   else if current_size <? new_size then
     if chunk_size fs =? 0 then panic else truncate_extend ino current_size new_size
   else mret tt) ≫= λ _,
  t ← now;
  execute_ (update_inode_row (λ r, set_mtime t (set_i_size (Int.i64 new_size) r)) ino).

Definition truncate (path : string) (new_size : Z) : M unit :=
  get_connection ≫= λ _,
  let path := normalize_path path in
  r ← resolve_path_with_conn path;
  ino ← ok_or NotFound r;
  rows ← query (select_size ino);
  let current_size := row_size rows in
  begin_txn ≫= λ _,
  result ← attempt (truncate_body ino current_size new_size);
  finish result.

(** ** Directories *)

Definition readdir (ino : Z) : M (option (list string)) :=
  get_connection ≫= λ _,
  rows ← query (select_names ino);
  mret (Some (omap name_of_row rows)).

Definition readdir_plus (ino : Z) : M (option (list DirEntry)) :=
  get_connection ≫= λ _,
  rows ← query (select_entries ino);
  mret (Some (omap entry_of_row rows)).

Definition symlink (target linkpath : string) (uid gid : Z) : M unit :=
  get_connection ≫= λ _,
  let linkpath := normalize_path linkpath in
  let components := split_path linkpath in
  if decide (components = []) then fail RootOperation
  else
    parent_ino ← resolve_parent components;
    let name := last_component components in
    ex ← lookup_child parent_ino name;
    if decide (is_Some ex) then fail AlreadyExists
    else
      t ← now_unwrap;
      let mode := Z.lor S_IFLNK 0x1ff in
      let size := str_len target in
      row ← insert_inode (new_inode mode 0 uid gid size 0 t);
      let ino := int_or 0 row 0 in
      execute (insert_symlink_row ino target) ≫= λ _,
      insert_dentry name parent_ino ino ≫= λ _,
      execute_ (update_inode_row (add_nlink 1) ino) ≫= λ _,
      cache_insert parent_ino name ino.

Definition link (oldpath newpath : string) : M unit :=
  get_connection ≫= λ _,
  let oldpath := normalize_path oldpath in
  let newpath := normalize_path newpath in
  let components := split_path newpath in
  if decide (components = []) then fail RootOperation
  else
    r ← resolve_path_with_conn oldpath;
    ino ← ok_or NotFound r;
    mode ← select_mode_opt ino;
    match mode with
    | None => fail NotFound
    | Some mode =>
        if has_type S_IFDIR mode then fail IsADirectory
        else
          parent_ino ← resolve_parent components;
          let name := last_component components in
          ex ← lookup_child parent_ino name;
          if decide (is_Some ex) then fail AlreadyExists
          else
            insert_dentry name parent_ino ino ≫= λ _,
            execute_ (update_inode_row (add_nlink 1) ino) ≫= λ _,
            cache_insert parent_ino name ino
    end.

Definition remove (path : string) : M unit :=
  get_connection ≫= λ _,
  let path := normalize_path path in
  let components := split_path path in
  if decide (components = []) then fail RootOperation
  else
    r ← resolve_path_with_conn path;
    ino ← ok_or NotFound r;
    if ino =? ROOT_INO then fail RootOperation
    else
      st ← stat_with_conn path;
      stats ← ok_or NotFound st;
      require_empty ino ≫= λ _,
      parent_ino ← resolve_parent components;
      let name := last_component components in
      execute_ (delete_dentry_row parent_ino name) ≫= λ _,
      cache_remove parent_ino name ≫= λ _,
      execute_ (update_inode_row (add_nlink (-1)) ino) ≫= λ _,
      when (is_directory stats) (
        t ← now;
        execute_ (update_inode_row
          (λ r, set_mtime t (set_ctime t (add_nlink (-1) r))) parent_ino)) ≫= λ _,
      link_count ← get_link_count ino;
      when (link_count =? 0) (delete_file_rows ino).

Definition chown (ino : Z) (uid gid : option Z) : M unit :=
  match uid, gid with
  | None, None => mret tt
  | _, _ =>
      get_connection ≫= λ _,
      execute_ (update_inode_row (λ r,
        let r := match uid with Some u => set_i_uid u r | None => r end in
        match gid with Some g => set_i_gid g r | None => r end) ino)
  end.

(** Inside the transaction of [rename]: remove what the destination is. *)
Definition replace_destination (src_stats : Stats) (to_path : string)
    (dst_parent_ino : Z) (dst_name : string) : M unit :=
  r ← resolve_path_with_conn to_path;
  match r with
  | None => mret tt
  | Some dst_ino =>
      st ← stat_with_conn to_path;
      dst_stats ← ok_or NotFound st;
      Fs.check_replace src_stats dst_stats dst_ino ≫= λ _,
      execute_ (delete_dentry_row dst_parent_ino dst_name) ≫= λ _,
      execute_ (update_inode_row (add_nlink (-1)) dst_ino) ≫= λ _,
      link_count ← get_link_count dst_ino;
      when (link_count =? 0) (delete_file_rows dst_ino)
  end.

Definition rename (from to : string) : M unit :=
  get_connection ≫= λ _,
  let from_path := normalize_path from in
  let to_path := normalize_path to in
  if decide (from_path = "/") then fail RootOperation
  else
    r ← resolve_path_with_conn from_path;
    src_ino ← ok_or NotFound r;
    st ← stat_with_conn from_path;
    src_stats ← ok_or NotFound st;
    if is_directory src_stats &&
       (starts_with (from_path +:+ "/") to_path || bool_decide (to_path = from_path))
    then fail InvalidRename
    else
      let from_components := split_path from_path in
      src_name ← ok_or InvalidPath (last from_components);
      src_parent_ino ← resolve_parent from_components;
      let to_components := split_path to_path in
      if decide (to_components = []) then fail RootOperation
      else
        let dst_name := last_component to_components in
        dst_parent_ino ← resolve_parent to_components;
        begin_txn ≫= λ _,
        result ← attempt (
          replace_destination src_stats to_path dst_parent_ino dst_name ≫= λ _,
          Fs.move_entry src_stats src_ino src_parent_ino src_name dst_parent_ino dst_name);
        finish result ≫= λ _,
        cache_remove src_parent_ino src_name ≫= λ _,
        cache_remove dst_parent_ino dst_name ≫= λ _,
        cache_insert dst_parent_ino dst_name src_ino.

Definition fsync (path : string) : M unit := mret tt.

Definition open (path : string) : M SecAFSFile :=
  let path := normalize_path path in
  r ← resolve_path path;
  ino ← ok_or NotFound r;
  mret (mkFile ino (chunk_size fs)).
End ops.
End Path.
