(* ===== verification/Setup.v ===== *)
(** * Opening a file system

    [SecAFS::from_pool], [SecAFS::initialize_schema] and [SecAFS::read_chunk_size] of
    [sdk/rust/src/filesystem/secafs.rs].  The tables exist in the model, so the
    [CREATE TABLE IF NOT EXISTS] statements run without changing rows; the seeding of
    the configuration and of the root directory is modelled statement by statement. *)

From S2P Require Import Prelude Types Tables Monad Sql File SecafsInode.

#[local] Open Scope string_scope.
#[local] Open Scope list_scope.
#[local] Open Scope Z_scope.

Definition SECAFS_SCHEMA_VERSION : string := "0.6".

(** [s.parse::<usize>()]: an optional plus sign and decimal digits, below [2^64]. *)
Definition digit_of (c : Ascii.ascii) : option Z :=
  let n := Z.of_nat (Ascii.nat_of_ascii c) in
  if (48 <=? n) && (n <=? 57) then Some (n - 48) else None.
Fixpoint parse_digits (acc : Z) (s : string) : option Z :=
  match s with
  | EmptyString => Some acc
  | String c s =>
      d ← digit_of c;
      let acc := acc * 10 + d in
      if 2 ^ 64 <=? acc then None else parse_digits acc s
  end.
Definition parse_usize (s : string) : option Z :=
  match s with
  | EmptyString => None
  | String c EmptyString => parse_digits 0 s
  | String c s' => if Ascii.eqb c (Ascii.ascii_of_nat 43) then parse_digits 0 s' else parse_digits 0 s
  end.

(** [SELECT value FROM fs_config WHERE key = 'chunk_size'] *)
Definition select_config (key : string) (d : db) : list DbRow :=
  match fs_config d !! key with Some v => [[Text v]] | None => [] end.

Section setup.
Context {E : Env}.

(** A [CREATE .. IF NOT EXISTS], [CREATE OR REPLACE] or [DROP TRIGGER IF EXISTS]
    statement. *)
Definition ddl : M unit := execute_ (λ d, d).
Definition ddls (n : nat) : M unit := for_each (seq 0 n) (λ _, ddl).

Definition config_insert (k v : string) (d : db) : option db :=
  match fs_config d !! k with
  | Some _ => None
  | None => Some (set_fs_config (<[k:=v]> (fs_config d)) d)
  end.
Definition config_upsert (k v : string) (d : db) : db :=
  set_fs_config (<[k:=v]> (fs_config d)) d.

(** [SELECT setval(.., (SELECT GREATEST(MAX(ino), 1) FROM fs_inode))] *)
Definition max_ino (d : db) : Z :=
  foldr (λ kv acc, Z.max kv.1 acc) 1 (map_to_list (fs_inode d)).
Definition setval_ino : M unit :=
  stmt (λ s, Some (tt, set_seqs (max_ino (cur s)) (seq_dentry s) s)).

(** The session settings made before any trigger exists. *)
Definition preset_gucs (d : db) : db :=
  set_session (mkSession (Some "__init__") (Some "true") (guc_suppress_local (session d))) d.

(** The statements that create the schema: the session settings, [fs_config] and
    [fs_inode], the three [ALTER TABLE .. ADD COLUMN] whose errors are ignored,
    [fs_dentry] with its index, [fs_data], [fs_symlink], [fs_volumes] with its index,
    [kv_store] with its index, then [snapshot::schema::ddl_statements()] and
    [snapshot::triggers::ddl_statements()]. *)
Definition schema_ddl : M unit :=
  execute_ preset_gucs ≫= λ _,
  ddls 2 ≫= λ _,
  for_each (seq 0 3) (λ _, attempt ddl ≫= λ _, mret tt) ≫= λ _,
  ddls 8 ≫= λ _,
  ddls 13 ≫= λ _,
  ddls 10.

(** The configuration: a default chunk size when there is none, the schema version. *)
Definition seed_config : M unit :=
  rows ← query (select_config "chunk_size");
  when (bool_decide (rows = [])) (execute (config_insert "chunk_size" "4096")) ≫= λ _,
  execute_ (config_upsert "schema_version" SECAFS_SCHEMA_VERSION).

(** The root directory: inserted when missing, otherwise handed to the current user. *)
Definition seed_root : M unit :=
  rows ← query (select_ino ROOT_INO);
  match rows with
  | [] =>
      t ← now;
      execute (insert_inode_row ROOT_INO (new_inode DEFAULT_DIR_MODE 2 env_uid env_gid 0 0 t))
  | _ =>
      execute_ (update_inode_row (λ r, set_i_gid env_gid (set_i_uid env_uid r)) ROOT_INO)
  end.

Definition initialize_schema : M unit :=
  schema_ddl ≫= λ _,
  seed_config ≫= λ _,
  seed_root ≫= λ _,
  setval_ino.

Definition read_chunk_size : M Z :=
  rows ← query (select_config "chunk_size");
  match rows with
  | row :: _ =>
      mret (default DEFAULT_CHUNK_SIZE
        (v ← get_value row 0;
         match v with
         | Text s => parse_usize s
         | Integer i => Some (Int.u64 i)
         | _ => None
         end))
  | [] => mret DEFAULT_CHUNK_SIZE
  end.

(** [DentryCache::new(DENTRY_CACHE_MAX_SIZE)] *)
Definition new_dentry_cache : M unit := λ s,
  (Ok tt, set_cache (lru_new DENTRY_CACHE_MAX_SIZE) s).

Definition from_pool : M SecAFS :=
  get_connection ≫= λ _,
  initialize_schema ≫= λ _,
  chunk_size ← read_chunk_size;
  new_dentry_cache ≫= λ _,
  mret (mkSecAFS chunk_size).
End setup.

(** A state with a fresh connection to an empty database. *)
Definition fresh_state {E : Env} : state := mkState _ empty_db None 0 0 0 (lru_new 1) 0 0.
