(* ===== verification/InodeSpec.v ===== *)
(** * What the inode-based operations do to the tables

    One rule per helper of [SecafsInode] for symbolic execution, then the effect of
    every operation that changes a table, as an equation for each table. *)

From S2P Require Import Prelude Types Tables Monad Wp Sql File SecafsInode.

(** The [Stats] of a row. *)
Definition stats_of (ino : Z) (r : inode) : Stats := build_stats_from_row (stats_cols ino r).

(** What a name in a directory points to. *)
Definition child (d : db) (p : Z) (n : string) : option Z := d_ino <$> fs_dentry d !! (p, n).

(** The sequences are ahead of every key they generate. *)
Record fresh_ids {E : Env} (s : state) : Prop := {
  fresh_ino i : seq_ino s < i → fs_inode (cur s) !! i = None;
  fresh_symlink i : seq_ino s < i → fs_symlink (cur s) !! i = None;
  fresh_data k : seq_ino s < k.1 → fs_data (cur s) !! k = None;
  fresh_target k e : fs_dentry (cur s) !! k = Some e → d_ino e ≤ seq_ino s;
  fresh_dentry k e : fs_dentry (cur s) !! k = Some e → d_id e ≤ seq_dentry s;
}.

Lemma dentry_id_free id d :
  (∀ k e, fs_dentry d !! k = Some e → d_id e ≠ id) → dentry_id_taken id d = false.
Proof.
  intros H. unfold dentry_id_taken. rewrite bool_decide_eq_false. intros Hne. apply Hne.
  apply map_empty_filter. intros k e Hk. simpl. eauto.
Qed.
Lemma insert_inode_row_fresh ino r d :
  fs_inode d !! ino = None →
  ∃ d', insert_inode_row ino r d = Some d' ∧ fs_inode d' = <[ino:=r]> (fs_inode d) ∧
    fs_dentry d' = fs_dentry d ∧ fs_data d' = fs_data d ∧ fs_symlink d' = fs_symlink d.
Proof. intros H. unfold insert_inode_row. rewrite H. by eexists. Qed.
Lemma insert_dentry_row_fresh id n p ino d :
  (∀ k e, fs_dentry d !! k = Some e → d_id e ≠ id) → fs_dentry d !! (p, n) = None →
  ∃ d', insert_dentry_row id n p ino d = Some d' ∧ fs_inode d' = fs_inode d ∧
    fs_dentry d' = <[(p, n):=mkDentry id ino]> (fs_dentry d) ∧
    fs_data d' = fs_data d ∧ fs_symlink d' = fs_symlink d.
Proof.
  intros H1 H2. unfold insert_dentry_row. rewrite dentry_id_free, H2 by done. by eexists.
Qed.
Lemma insert_symlink_row_fresh ino tgt d :
  fs_symlink d !! ino = None →
  ∃ d', insert_symlink_row ino tgt d = Some d' ∧ fs_inode d' = fs_inode d ∧
    fs_dentry d' = fs_dentry d ∧ fs_data d' = fs_data d ∧
    fs_symlink d' = <[ino:=tgt]> (fs_symlink d).
Proof. intros H. unfold insert_symlink_row. rewrite H. by eexists. Qed.

(** ** Rules for the helpers *)

Section rules.
Context {E : Env} {HQ : Quiet E}.
Implicit Types s : state.

Lemma wp_check_name name s (Q : outcome unit → state → Prop) :
  Q (if MAX_NAME_LEN <? str_len name then Err (EFs NameTooLong) else Ok tt) s →
  wp (Fs.check_name name) s Q.
Proof. unfold Fs.check_name. by case_match. Qed.
Lemma wp_lookup_child p n s Q :
  aborted s = false → Q (Ok (child (cur s) p n)) (tick s) → wp (lookup_child p n) s Q.
Proof.
  intros Hab HQ'. unfold lookup_child. wp_steps. unfold select_child.
  unfold child in HQ'. by destruct (fs_dentry (cur s) !! (p, n)).
Qed.
Lemma wp_select_mode_opt ino s Q :
  aborted s = false →
  Q (Ok ((λ r, Int.u32 (i_mode r)) <$> fs_inode (cur s) !! ino)) (tick s) →
  wp (select_mode_opt ino) s Q.
Proof.
  intros Hab HQ'. unfold select_mode_opt. wp_steps. unfold select_mode, select_inode.
  by destruct (fs_inode (cur s) !! ino).
Qed.
Lemma wp_get_link_count ino s Q :
  aborted s = false →
  Q (Ok (from_option (λ r, Int.u32 (i_nlink r)) 0 (fs_inode (cur s) !! ino))) (tick s) →
  wp (get_link_count ino) s Q.
Proof.
  intros Hab HQ'. unfold get_link_count. wp_steps. unfold select_nlink, select_inode.
  by destruct (fs_inode (cur s) !! ino).
Qed.
Lemma wp_getattr_with_conn ino s Q :
  aborted s = false → Q (Ok (stats_of ino <$> fs_inode (cur s) !! ino)) (tick s) →
  wp (getattr_with_conn ino) s Q.
Proof.
  intros Hab HQ'. unfold getattr_with_conn. wp_steps. unfold select_stats, select_inode.
  by destruct (fs_inode (cur s) !! ino).
Qed.
Lemma wp_inode_exists ino s Q :
  aborted s = false → Q (Ok (bool_decide (is_Some (fs_inode (cur s) !! ino)))) (tick s) →
  wp (inode_exists ino) s Q.
Proof.
  intros Hab HQ'. unfold inode_exists. wp_steps. unfold select_ino, select_inode.
  by destruct (fs_inode (cur s) !! ino).
Qed.
Lemma wp_require_empty ino s (Q : outcome unit → state → Prop) :
  aborted s = false →
  Q (if decide (children ino (cur s) = []) then Ok tt else Err (EFs NotEmpty)) (tick s) →
  wp (require_empty ino) s Q.
Proof.
  intros Hab HQ'. unfold require_empty. wp_steps. unfold count_children.
  change (int_or 0 _ 0) with (Z.of_nat (length (children ino (cur s)))).
  destruct (children ino (cur s)); simpl in *; by wp_steps.
Qed.
Lemma wp_ok_or {A} e (o : option A) s (Q : outcome A → state → Prop) :
  Q (match o with Some a => Ok a | None => Err (EFs e) end) s → wp (ok_or e o) s Q.
Proof. by destruct o. Qed.
Lemma wp_returned_ino i s (Q : outcome Z → state → Prop) :
  Q (Ok i) s → wp (returned_ino [Integer i]) s Q.
Proof. done. Qed.

Lemma wp_insert_inode r s Q :
  aborted s = false → fs_inode (cur s) !! (seq_ino s + 1) = None →
  (∀ d, fs_inode d = <[seq_ino s + 1:=r]> (fs_inode (cur s)) →
    fs_dentry d = fs_dentry (cur s) → fs_data d = fs_data (cur s) →
    fs_symlink d = fs_symlink (cur s) →
    Q (Ok [Integer (seq_ino s + 1)])
      (set_cur d (set_seqs (seq_ino s + 1) (seq_dentry s) (tick s)))) →
  wp (insert_inode r) s Q.
Proof.
  intros Hab Hf HQ'. destruct (insert_inode_row_fresh _ r _ Hf) as (d & Hd & ? & ? & ? & ?).
  unfold insert_inode. eapply wp_stmt; [done| |by eapply HQ']. st. by rewrite Hd.
Qed.
Lemma wp_insert_dentry n p ino s Q :
  aborted s = false →
  (∀ k e, fs_dentry (cur s) !! k = Some e → d_id e ≤ seq_dentry s) →
  fs_dentry (cur s) !! (p, n) = None →
  (∀ d, fs_dentry d = <[(p, n):=mkDentry (seq_dentry s + 1) ino]> (fs_dentry (cur s)) →
    fs_inode d = fs_inode (cur s) → fs_data d = fs_data (cur s) →
    fs_symlink d = fs_symlink (cur s) →
    Q (Ok tt) (set_cur d (set_seqs (seq_ino s) (seq_dentry s + 1) (tick s)))) →
  wp (insert_dentry n p ino) s Q.
Proof.
  intros Hab Hid Hf HQ'.
  destruct (insert_dentry_row_fresh (seq_dentry s + 1) n p ino (cur s)) as (d & Hd & ? & ? & ? & ?).
  { intros k e Hk. specialize (Hid k e Hk). lia. }
  { done. }
  unfold insert_dentry. eapply wp_stmt; [done| |by eapply HQ']. st. by rewrite Hd.
Qed.
Lemma wp_insert_symlink ino tgt s Q :
  aborted s = false → fs_symlink (cur s) !! ino = None →
  (∀ d, fs_symlink d = <[ino:=tgt]> (fs_symlink (cur s)) →
    fs_inode d = fs_inode (cur s) → fs_dentry d = fs_dentry (cur s) →
    fs_data d = fs_data (cur s) → Q (Ok tt) (set_cur d (tick s))) →
  wp (execute (insert_symlink_row ino tgt)) s Q.
Proof.
  intros Hab Hf HQ'. destruct (insert_symlink_row_fresh ino tgt _ Hf) as (d & Hd & ? & ? & ? & ?).
  eapply wp_execute; [done|done|by apply HQ'].
Qed.
End rules.

(** A step that knows the helpers of the file system; it stops before the link count
    of a removed entry, which has a rule of its own. *)
Ltac fs_step :=
  lazymatch goal with
  | |- wp (get_link_count _ ≫= _) _ _ => fail
  | |- wp (Fs.check_name _) _ _ => apply wp_check_name
  | |- wp (lookup_child _ _) _ _ => apply wp_lookup_child; [by st|]
  | |- wp (select_mode_opt _) _ _ => apply wp_select_mode_opt; [by st|]
  | |- wp (get_link_count _) _ _ => apply wp_get_link_count; [by st|]
  | |- wp (getattr_with_conn _) _ _ => apply wp_getattr_with_conn; [by st|]
  | |- wp (inode_exists _) _ _ => apply wp_inode_exists; [by st|]
  | |- wp (require_empty _) _ _ => apply wp_require_empty; [by st|]
  | |- wp (ok_or _ _) _ _ => apply wp_ok_or
  | |- wp (returned_ino [Integer _]) _ _ => apply wp_returned_ino
  | |- _ => wp_step
  end; cbv beta iota.
Ltac fs_steps := repeat fs_step.
(** The tables of an updated database, from the equations in the context. *)
Ltac tables := st; autorewrite with secafs_db; repeat (progress (
  repeat match goal with H : fs_inode ?d = _ |- context [fs_inode ?d] => rewrite H
                    | H : fs_dentry ?d = _ |- context [fs_dentry ?d] => rewrite H
                    | H : fs_data ?d = _ |- context [fs_data ?d] => rewrite H
                    | H : fs_symlink ?d = _ |- context [fs_symlink ?d] => rewrite H end;
  st; autorewrite with secafs_db)).

(** ** Creating an entry *)

(** [created p n row up tgt s s']: from [s] to [s'] the inode [row] was inserted under
    the next inode number and entered as [n] in directory [p], whose row was updated
    by [up]; a symlink target was stored if there is one; nothing else changed, and
    the cache knows the new entry. *)
Record created {E : Env} (p : Z) (n : string) (row : inode) (up : inode → inode)
    (tgt : option string) (s s' : state) : Prop := {
  cr_txn : txn s' = None;
  cr_seq_ino : seq_ino s' = seq_ino s + 1;
  cr_seq_dentry : seq_dentry s' = seq_dentry s + 1;
  cr_cache : cache s' = lru_put (p, n) (seq_ino s + 1) (cache s);
  cr_inode : fs_inode (cur s') = alter up p (<[seq_ino s + 1:=row]> (fs_inode (cur s)));
  cr_dentry : fs_dentry (cur s') =
    <[(p, n):=mkDentry (seq_dentry s + 1) (seq_ino s + 1)]> (fs_dentry (cur s));
  cr_data : fs_data (cur s') = fs_data (cur s);
  cr_symlink : fs_symlink (cur s') =
    match tgt with
    | Some t => <[seq_ino s + 1:=t]> (fs_symlink (cur s))
    | None => fs_symlink (cur s)
    end;
}.

Lemma lookup_alter_is_Some {A} (f : A → A) (i j : Z) (m : gmap Z A) :
  is_Some (alter f i m !! j) ↔ is_Some (m !! j).
Proof.
  rewrite lookup_alter. case_decide; [subst; apply fmap_is_Some|done].
Qed.
(** The new row, whose columns a later statement of the operation sets. *)
Lemma alter_insert_eq {A} (f : A → A) (i : Z) (x : A) (m : gmap Z A) :
  alter f i (<[i:=x]> m) = <[i:=f x]> m.
Proof.
  apply map_eq. intros j. destruct (decide (i = j)) as [->|Hne].
  - by rewrite lookup_alter_eq, !lookup_insert_eq.
  - by rewrite lookup_alter_ne, !lookup_insert_ne.
Qed.

Section create.
Context {E : Env} {HQ : Quiet E} (fs : SecAFS).
Implicit Types s : state.

Lemma no_txn_aborted s : txn s = None → aborted s = false.
Proof. unfold aborted. by intros ->. Qed.
Lemma no_txn_cur s : txn s = None → cur s = committed s.
Proof. unfold cur. by intros ->. Qed.

(** The name is acceptable and free. *)
Definition can_create (s : state) (p : Z) (n : string) : Prop :=
  txn s = None ∧ fresh_ids s ∧ str_len n ≤ MAX_NAME_LEN ∧ child (cur s) p n = None.

Lemma child_None d p n : child d p n = None ↔ fs_dentry d !! (p, n) = None.
Proof. unfold child. apply fmap_None. Qed.

Lemma wp_mkdir p n mode uid gid s :
  can_create s p n →
  wp (Fs.mkdir p n mode uid gid) s (λ r s', ∃ t,
    let m := Z.lor S_IFDIR (Z.land mode 0xfff) in
    r = Ok (new_stats (seq_ino s + 1) m 2 uid gid 0 0 t) ∧
    created p n (new_inode m 2 uid gid 0 0 t)
      (λ r, set_mtime t (set_ctime t (add_nlink 1 r))) None s s').
Proof.
  intros (Htx & Hfr & Hlen & Hc). pose proof (no_txn_aborted s Htx).
  unfold Fs.mkdir. fs_steps. rewrite (proj2 (Z.ltb_ge _ _)) by done. fs_steps. st.
  rewrite Hc. rewrite decide_False by (by intros [? ?]). fs_steps.
  apply wp_insert_inode; [by st|st; apply Hfr; lia|]. intros d1 ? ? ? ?. fs_steps.
  apply wp_insert_dentry; [by st|tables; apply Hfr|tables; by apply child_None|].
  intros d2 ? ? ? ?. fs_steps. eexists. split; [by st|].
  split; tables; rewrite ?Htx; try done. by rewrite alter_insert_eq.
Qed.

(** The name checks every creating operation starts with. *)
Ltac create_start :=
  fs_steps; rewrite (proj2 (Z.ltb_ge _ _)) by done; fs_steps; st;
  match goal with H : child _ _ _ = None |- _ => rewrite H end;
  rewrite decide_False by (by intros [? ?]); fs_steps.

Lemma wp_mknod p n mode rdev uid gid s :
  can_create s p n →
  wp (Fs.mknod p n mode rdev uid gid) s (λ r s', ∃ t,
    r = Ok (new_stats (seq_ino s + 1) mode 1 uid gid 0 rdev t) ∧
    created p n (new_inode mode 1 uid gid 0 (Int.i64 rdev) t)
      (λ r, set_mtime t (set_ctime t r)) None s s').
Proof.
  intros (Htx & Hfr & Hlen & Hc). pose proof (no_txn_aborted s Htx).
  unfold Fs.mknod. create_start.
  apply wp_insert_inode; [by st|st; apply Hfr; lia|]. intros d1 ? ? ? ?. fs_steps.
  apply wp_insert_dentry; [by st|tables; apply Hfr|tables; by apply child_None|].
  intros d2 ? ? ? ?. fs_steps. eexists. split; [by st|].
  split; tables; rewrite ?Htx; try done. by rewrite alter_insert_eq.
Qed.

Lemma wp_symlink p n tgt uid gid s :
  can_create s p n →
  wp (Fs.symlink p n tgt uid gid) s (λ r s', ∃ t,
    let m := Z.lor S_IFLNK 0x1ff in
    r = Ok (new_stats (seq_ino s + 1) m 1 uid gid (str_len tgt) 0 t) ∧
    created p n (new_inode m 1 uid gid (str_len tgt) 0 t)
      (λ r, set_mtime t (set_ctime t r)) (Some tgt) s s').
Proof.
  intros (Htx & Hfr & Hlen & Hc). pose proof (no_txn_aborted s Htx).
  unfold Fs.symlink. create_start.
  apply wp_insert_inode; [by st|st; apply Hfr; lia|]. intros d1 ? ? ? ?. fs_steps.
  apply wp_insert_symlink; [by st|tables; apply Hfr; lia|]. intros d2 ? ? ? ?. fs_steps.
  apply wp_insert_dentry; [by st|tables; apply Hfr|tables; by apply child_None|].
  intros d3 ? ? ? ?. fs_steps. eexists. split; [by st|].
  split; tables; rewrite ?Htx; try done. by rewrite alter_insert_eq.
Qed.

Lemma wp_create_file p n mode uid gid s :
  can_create s p n →
  wp (Fs.create_file fs p n mode uid gid) s (λ r s', ∃ t,
    let m := Z.lor S_IFREG (Z.land mode 0xfff) in
    r = Ok (new_stats (seq_ino s + 1) m 1 uid gid 0 0 t,
            mkFile (seq_ino s + 1) (chunk_size fs)) ∧
    created p n (new_inode m 1 uid gid 0 0 t)
      (λ r, set_mtime t (set_ctime t r)) None s s').
Proof.
  intros (Htx & Hfr & Hlen & Hc). pose proof (no_txn_aborted s Htx).
  pose proof (no_txn_cur s Htx) as Hcur.
  unfold Fs.create_file. create_start. apply wp_begin; [by st|]. fs_steps.
  apply wp_insert_inode; [by st|st; rewrite <- Hcur; apply Hfr; lia|].
  intros d1 ? ? ? ?. fs_steps. st. rewrite <- Hcur in *.
  apply wp_insert_dentry; [by st|tables; apply Hfr|tables; by apply child_None|].
  intros d2 ? ? ? ?. fs_steps. eapply wp_commit; [by st|]. fs_steps.
  eexists. split; [by st|].
  split; tables; rewrite ?Htx; try done.
Qed.
End create.

(** ** Removing an entry *)

(** [SELECT nlink]: whether the last link of an inode is gone (a missing row counts
    as no link). *)
Definition last_link (m : gmap Z inode) (ino : Z) : bool :=
  from_option (λ r, Int.u32 (i_nlink r)) 0 (m !! ino) =? 0.

(** What is left of the tables once the link of [ino] was taken from [d]: an inode
    without links is deleted with its chunks and its target. *)
Record purged (ino : Z) (d d' : db) : Prop := {
  pg_inode : fs_inode d' =
    if last_link (fs_inode d) ino then delete ino (fs_inode d) else fs_inode d;
  pg_data : fs_data d' =
    if last_link (fs_inode d) ino
    then filter (λ kv, bool_decide (kv.1.1 = ino) = false) (fs_data d) else fs_data d;
  pg_symlink : fs_symlink d' =
    if last_link (fs_inode d) ino then delete ino (fs_symlink d) else fs_symlink d;
  pg_dentry : fs_dentry d' = fs_dentry d;
}.

(** Bookkeeping of an operation that inserts no row. *)
Record no_insert {E : Env} (s s' : state) : Prop := {
  ni_txn : txn s' = None;
  ni_seq_ino : seq_ino s' = seq_ino s;
  ni_seq_dentry : seq_dentry s' = seq_dentry s;
}.

Section remove.
Context {E : Env} {HQ : Quiet E} (fs : SecAFS).
Implicit Types s : state.

Lemma wp_drop_inode ino s (Q : outcome unit → state → Prop) :
  aborted s = false →
  (∀ s', db_step s s' → purged ino (cur s) (cur s') → Q (Ok tt) s') →
  wp (link_count ← get_link_count ino;
      if link_count =? 0 then delete_file_rows ino else mret tt) s Q.
Proof.
  intros Hab HQ'. apply wp_bind. fs_steps. fold (last_link (fs_inode (cur s)) ino).
  unfold delete_file_rows.
  destruct (last_link (fs_inode (cur s)) ino) eqn:Hl; fs_steps; apply HQ'; auto 10;
    split; tables; by rewrite ?Hl.
Qed.

(** [unlink] of a name that is not a directory's. *)
Lemma wp_unlink p n ino s :
  txn s = None → str_len n ≤ MAX_NAME_LEN → child (cur s) p n = Some ino →
  (∀ r, fs_inode (cur s) !! ino = Some r → has_type S_IFDIR (i_mode r) = false) →
  wp (Fs.unlink p n) s (λ r s', r = Ok tt ∧ ∃ t d,
    purged ino d (cur s') ∧
    fs_inode d = alter (λ r, set_ctime t (add_nlink (-1) r)) ino
      (alter (λ r, set_ctime t (set_mtime t r)) p (fs_inode (cur s))) ∧
    fs_dentry d = delete (p, n) (fs_dentry (cur s)) ∧
    fs_data d = fs_data (cur s) ∧ fs_symlink d = fs_symlink (cur s) ∧
    no_insert s s' ∧ cache s' = lru_pop (p, n) (cache s)).
Proof.
  intros Htx Hlen Hc Hdir. pose proof (no_txn_aborted s Htx) as Hab.
  unfold Fs.unlink. fs_steps. rewrite (proj2 (Z.ltb_ge _ _)) by done. fs_steps. st.
  rewrite Hc. fs_steps. st. rewrite decide_False.
  2:{ destruct (fs_inode (cur s) !! ino) as [r|]; [|done]. simpl. rewrite has_type_u32.
      by rewrite Hdir. }
  fs_steps. apply wp_drop_inode; [by st|]. intros s' Hs Hp. st. split; [done|].
  destruct Hs as (Hst & _ & Hsc & Hsi & Hsd). st. rewrite Htx in Hst.
  eexists (_, _), _. split; [exact Hp|]. tables. by split_and!.
Qed.

(** [rmdir] of an empty directory: the entry goes and both link counts drop; the inode
    goes only if its own count was one. *)
Lemma wp_rmdir p n ino r0 s :
  txn s = None → str_len n ≤ MAX_NAME_LEN → child (cur s) p n = Some ino →
  ino ≠ ROOT_INO → fs_inode (cur s) !! ino = Some r0 →
  has_type S_IFDIR (i_mode r0) = true → children ino (cur s) = [] →
  wp (Fs.rmdir p n) s (λ r s', r = Ok tt ∧ ∃ t m,
    m = alter (λ r, set_mtime t (set_ctime t (add_nlink (-1) r))) p
          (alter (add_nlink (-1)) ino (fs_inode (cur s))) ∧
    fs_inode (cur s') = (if last_link m ino then delete ino m else m) ∧
    fs_dentry (cur s') = delete (p, n) (fs_dentry (cur s)) ∧
    fs_data (cur s') = fs_data (cur s) ∧ fs_symlink (cur s') = fs_symlink (cur s) ∧
    no_insert s s' ∧ cache s' = lru_pop (p, n) (cache s)).
Proof.
  intros Htx Hlen Hc Hroot Hr Hdir Hemp. pose proof (no_txn_aborted s Htx) as Hab.
  unfold Fs.rmdir. fs_steps. rewrite (proj2 (Z.ltb_ge _ _)) by done. fs_steps. st.
  rewrite Hc. fs_steps. destruct (Z.eqb_spec ino ROOT_INO); [done|]. fs_steps. st.
  rewrite Hr. simpl. rewrite has_type_u32, Hdir. simpl. fs_steps. st.
  rewrite decide_True by done. fs_steps. apply wp_bind. fs_steps. st. tables.
  match goal with |- context [from_option _ 0 (?m !! ino) =? 0] =>
    change (from_option _ 0 (m !! ino) =? 0) with (last_link m ino);
    destruct (last_link m ino) eqn:Hl end; fs_steps; (split; [done|]);
    eexists (_, _), _; (split; [reflexivity|]); tables; rewrite ?Hl; split_and!; try done;
    by split; st; rewrite ?Htx.
Qed.
End remove.

(** ** Linking and renaming *)

Lemma is_directory_stats ino r : is_directory (stats_of ino r) = has_type S_IFDIR (i_mode r).
Proof. apply has_type_u32. Qed.

(** The destination of a rename after its replacement: untouched when the name was
    free, otherwise one link poorer. *)
Definition replaced (np : Z) (nn : string) (d d' : db) : Prop :=
  match child d np nn with
  | None => d' = d
  | Some dst => ∃ t d1, purged dst d1 d' ∧
      fs_inode d1 = alter (λ r, set_ctime t (add_nlink (-1) r)) dst (fs_inode d) ∧
      fs_dentry d1 = delete (np, nn) (fs_dentry d) ∧
      fs_data d1 = fs_data d ∧ fs_symlink d1 = fs_symlink d
  end.

(** What moving the entry does to the inode rows. *)
Definition move_nlinks (isdir : bool) (p np : Z) (m : gmap Z inode) : gmap Z inode :=
  if isdir && negb (p =? np) then alter (add_nlink 1) np (alter (add_nlink (-1)) p m) else m.
Definition move_touch (t : Z * Z) (src p np : Z) (m : gmap Z inode) : gmap Z inode :=
  let m := alter (λ r, set_ctime t (set_mtime t r)) p (alter (set_ctime t) src m) in
  if negb (np =? p) then alter (λ r, set_ctime t (set_mtime t r)) np m else m.
Definition move_dentries (p : Z) (n : string) (np : Z) (nn : string)
    (m : gmap (Z * string) dentry) : gmap (Z * string) dentry :=
  match m !! (p, n) with
  | Some e => <[(np, nn):=e]> (delete (p, n) m)
  | None => m
  end.
Record moved (isdir : bool) (src p : Z) (n : string) (np : Z) (nn : string) (d d' : db)
    : Prop := {
  mv_inode : ∃ t, fs_inode d' = move_touch t src p np (move_nlinks isdir p np (fs_inode d));
  mv_dentry : fs_dentry d' = move_dentries p n np nn (fs_dentry d);
  mv_data : fs_data d' = fs_data d;
  mv_symlink : fs_symlink d' = fs_symlink d;
}.

(** Why a replacement is refused. *)
Definition replace_err (d : db) (rs : inode) (np : Z) (nn : string) : option FsError :=
  match child d np nn with
  | None => None
  | Some dst =>
      match fs_inode d !! dst with
      | None => Some NotFound
      | Some rd =>
          let ddir := has_type S_IFDIR (i_mode rd) in
          let sdir := has_type S_IFDIR (i_mode rs) in
          if ddir && negb sdir then Some IsADirectory
          else if negb ddir && sdir then Some NotADirectory
          else if ddir && negb (bool_decide (children dst d = [])) then Some NotEmpty
          else None
      end
  end.

Section rename.
Context {E : Env} {HQ : Quiet E}.
Implicit Types s : state.

Lemma wp_check_replace rs src rd dst s (Q : outcome unit → state → Prop) :
  aborted s = false →
  (let ddir := has_type S_IFDIR (i_mode rd) in
   let sdir := has_type S_IFDIR (i_mode rs) in
   ∀ s', s' = s ∨ s' = tick s →
   Q (if ddir && negb sdir then Err (EFs IsADirectory)
      else if negb ddir && sdir then Err (EFs NotADirectory)
      else if ddir && negb (bool_decide (children dst (cur s) = [])) then Err (EFs NotEmpty)
      else Ok tt) s') →
  wp (Fs.check_replace (stats_of src rs) (stats_of dst rd) dst) s Q.
Proof.
  intros Hab HQ'. unfold Fs.check_replace. rewrite !is_directory_stats. cbv zeta in HQ'.
  destruct (has_type S_IFDIR (i_mode rd)), (has_type S_IFDIR (i_mode rs)); simpl in *;
    fs_steps; try (apply HQ'; by left).
  specialize (HQ' _ (or_intror eq_refl)).
  destruct (decide (children dst (cur s) = [])) as [Hn|Hn]; [by rewrite Hn in HQ'|].
  by rewrite bool_decide_false in HQ'.
Qed.

Lemma wp_replace_destination rs src np nn s :
  aborted s = false →
  wp (Fs.replace_destination (stats_of src rs) np nn) s (λ r s', db_step s s' ∧
    match replace_err (cur s) rs np nn with
    | Some e => r = Err (EFs e)
    | None => r = Ok tt ∧ replaced np nn (cur s) (cur s')
    end).
Proof.
  intros Hab. unfold Fs.replace_destination, replace_err, replaced. fs_steps.
  destruct (child (cur s) np nn) as [dst|] eqn:Hc.
  2:{ fs_steps. st. auto. }
  fs_steps. st. destruct (fs_inode (cur s) !! dst) as [rd|] eqn:Hrd; simpl.
  2:{ fs_steps. auto. }
  fs_steps. apply wp_check_replace; [by st|]. cbv zeta. st. intros s1 Hs1.
  assert (Hst : db_step s s1 ∧ cur s1 = cur s).
  { destruct Hs1 as [->| ->]; split; auto. }
  clear Hs1. destruct Hst as [Hst Hcur]. pose proof (db_step_aborted _ _ Hst) as Hab1.
  rewrite Hab in Hab1. repeat case_match; try by fs_steps.
  fs_steps. apply wp_drop_inode; [by st|]. intros s' Hs' Hp.
  split; [eapply db_step_trans; [|exact Hs']; auto|]. split; [done|].
  st. eexists (_, _), _. split; [exact Hp|]. tables. by rewrite !Hcur.
Qed.

Lemma wp_move_dentry p n np nn s Q :
  aborted s = false → (np, nn) = (p, n) ∨ fs_dentry (cur s) !! (np, nn) = None →
  (∀ d, fs_dentry d = move_dentries p n np nn (fs_dentry (cur s)) →
    fs_inode d = fs_inode (cur s) → fs_data d = fs_data (cur s) →
    fs_symlink d = fs_symlink (cur s) → Q (Ok tt) (set_cur d (tick s))) →
  wp (execute (move_dentry_row p n np nn)) s Q.
Proof.
  intros Hab Hfree HQ'. unfold move_dentries in HQ'.
  assert (Hd : ∃ d, move_dentry_row p n np nn (cur s) = Some d ∧
    fs_dentry d = match fs_dentry (cur s) !! (p, n) with
      | Some e => <[(np, nn):=e]> (delete (p, n) (fs_dentry (cur s)))
      | None => fs_dentry (cur s) end ∧
    fs_inode d = fs_inode (cur s) ∧ fs_data d = fs_data (cur s) ∧
    fs_symlink d = fs_symlink (cur s)).
  { unfold move_dentry_row. destruct (fs_dentry (cur s) !! (p, n)) eqn:Hp; [|by eexists].
    rewrite decide_False; [by eexists|]. intros [Hne [e He]].
    destruct Hfree as [?|Hfree]; [done|]. by rewrite Hfree in He. }
  destruct Hd as (d & Hd & ? & ? & ? & ?).
  eapply wp_execute; [done|exact Hd|by apply HQ'].
Qed.

Lemma wp_move_entry rs src p n np nn s :
  aborted s = false → (np, nn) = (p, n) ∨ fs_dentry (cur s) !! (np, nn) = None →
  wp (Fs.move_entry (stats_of src rs) src p n np nn) s (λ r s', r = Ok tt ∧ db_step s s' ∧
    moved (has_type S_IFDIR (i_mode rs)) src p n np nn (cur s) (cur s')).
Proof.
  intros Hab Hfree. unfold Fs.move_entry, when. rewrite is_directory_stats.
  fs_steps. apply wp_move_dentry; [by st|by st|]. intros d ? ? ? ?. st.
  fs_steps. destruct (has_type S_IFDIR (i_mode rs) && negb (p =? np)) eqn:Hm1;
    fs_steps; destruct (negb (np =? p)) eqn:Hm2; fs_steps;
    (split; [done|]); (split; [auto 20|]); split; tables; try done;
    eexists (_, _); unfold move_touch, move_nlinks; by rewrite Hm1, Hm2.
Qed.
End rename.

(** ** Complete specifications

    [Some e] is the error an operation returns, in the order the code tests. *)

Definition create_err (d : db) (p : Z) (n : string) : option FsError :=
  if MAX_NAME_LEN <? str_len n then Some NameTooLong
  else if decide (is_Some (child d p n)) then Some AlreadyExists
  else None.
Definition unlink_err (d : db) (p : Z) (n : string) : option FsError :=
  if MAX_NAME_LEN <? str_len n then Some NameTooLong
  else match child d p n with
       | None => Some NotFound
       | Some ino =>
           match fs_inode d !! ino with
           | Some r => if has_type S_IFDIR (i_mode r) then Some IsADirectory else None
           | None => None
           end
       end.
Definition rmdir_err (d : db) (p : Z) (n : string) : option FsError :=
  if MAX_NAME_LEN <? str_len n then Some NameTooLong
  else match child d p n with
       | None => Some NotFound
       | Some ino =>
           if ino =? ROOT_INO then Some RootOperation
           else match fs_inode d !! ino with
                | None => Some NotFound
                | Some r =>
                    if negb (has_type S_IFDIR (i_mode r)) then Some NotADirectory
                    else if decide (children ino d = []) then None else Some NotEmpty
                end
       end.
Definition link_err (d : db) (ino p : Z) (n : string) : option FsError :=
  if MAX_NAME_LEN <? str_len n then Some NameTooLong
  else match fs_inode d !! ino with
       | None => Some NotFound
       | Some r =>
           if has_type S_IFDIR (i_mode r) then Some IsADirectory
           else if decide (is_Some (child d p n)) then Some AlreadyExists else None
       end.
Definition rename_err (d : db) (p : Z) (n : string) (np : Z) (nn : string) : option FsError :=
  if MAX_NAME_LEN <? str_len nn then Some NameTooLong
  else match child d p n with
       | None => Some NotFound
       | Some src =>
           if src =? ROOT_INO then Some RootOperation
           else match fs_inode d !! src with
                | None => Some NotFound
                | Some rs => replace_err d rs np nn
                end
       end.

(** Nothing happened. *)
Record unchanged {E : Env} (s s' : state) : Prop := {
  un_insert : no_insert s s';
  un_cur : cur s' = cur s;
  un_cache : cache s' = cache s;
}.

Section refusals.
Context {E : Env} {HQ : Quiet E} (fs : SecAFS).
Implicit Types s : state.

Lemma unchanged_ticks s s' :
  txn s = None → txn s' = txn s → committed s' = committed s → seq_ino s' = seq_ino s →
  seq_dentry s' = seq_dentry s → cache s' = cache s → unchanged s s'.
Proof.
  intros Htx Ht Hc ? ? ?. split; [split; congruence| |done].
  rewrite !no_txn_cur by congruence. done.
Qed.

Lemma wp_create_refused p n e s :
  txn s = None → create_err (cur s) p n = Some e →
  (∀ mode uid gid, wp (Fs.mkdir p n mode uid gid) s
     (λ r s', r = Err (EFs e) ∧ unchanged s s')) ∧
  (∀ mode uid gid, wp (Fs.create_file fs p n mode uid gid) s
     (λ r s', r = Err (EFs e) ∧ unchanged s s')) ∧
  (∀ mode rdev uid gid, wp (Fs.mknod p n mode rdev uid gid) s
     (λ r s', r = Err (EFs e) ∧ unchanged s s')) ∧
  (∀ tgt uid gid, wp (Fs.symlink p n tgt uid gid) s
     (λ r s', r = Err (EFs e) ∧ unchanged s s')).
Proof.
  intros Htx He. pose proof (no_txn_aborted s Htx). unfold create_err in He.
  split_and!; intros; unfold Fs.mkdir, Fs.create_file, Fs.mknod, Fs.symlink;
    fs_steps; destruct (MAX_NAME_LEN <? str_len n); simplify_eq; fs_steps;
    try (split; [done|by apply unchanged_ticks]); st;
    (case_decide; [|done]); simplify_eq; fs_steps; (split; [done|by apply unchanged_ticks]).
Qed.

Lemma wp_unlink_refused p n e s :
  txn s = None → unlink_err (cur s) p n = Some e →
  wp (Fs.unlink p n) s (λ r s', r = Err (EFs e) ∧ unchanged s s').
Proof.
  intros Htx He. pose proof (no_txn_aborted s Htx). unfold unlink_err in He.
  unfold Fs.unlink. fs_steps. destruct (MAX_NAME_LEN <? str_len n); simplify_eq; fs_steps.
  { by split; [|apply unchanged_ticks]. }
  st. destruct (child (cur s) p n) as [ino|]; simplify_eq; fs_steps; st.
  2:{ by split; [|apply unchanged_ticks]. }
  destruct (fs_inode (cur s) !! ino) as [r|]; [|done]. simpl. rewrite has_type_u32.
  destruct (has_type S_IFDIR (i_mode r)); simplify_eq.
  rewrite decide_True by done. fs_steps. by split; [|apply unchanged_ticks].
Qed.

Lemma wp_rmdir_refused p n e s :
  txn s = None → rmdir_err (cur s) p n = Some e →
  wp (Fs.rmdir p n) s (λ r s', r = Err (EFs e) ∧ unchanged s s').
Proof.
  intros Htx He. pose proof (no_txn_aborted s Htx). unfold rmdir_err in He.
  unfold Fs.rmdir. fs_steps. destruct (MAX_NAME_LEN <? str_len n); simplify_eq; fs_steps.
  { by split; [|apply unchanged_ticks]. }
  st. destruct (child (cur s) p n) as [ino|]; simplify_eq; fs_steps; st.
  2:{ by split; [|apply unchanged_ticks]. }
  destruct (ino =? ROOT_INO); simplify_eq; fs_steps.
  { by split; [|apply unchanged_ticks]. }
  st. destruct (fs_inode (cur s) !! ino) as [r|]; simplify_eq/=; fs_steps.
  2:{ by split; [|apply unchanged_ticks]. }
  rewrite has_type_u32. destruct (has_type S_IFDIR (i_mode r)); simplify_eq/=; fs_steps; st.
  2:{ by split; [|apply unchanged_ticks]. }
  case_decide; simplify_eq. by split; [|apply unchanged_ticks].
Qed.

Lemma wp_link_refused ino p n e s :
  txn s = None → link_err (cur s) ino p n = Some e →
  wp (Fs.link ino p n) s (λ r s', r = Err (EFs e) ∧ unchanged s s').
Proof.
  intros Htx He. pose proof (no_txn_aborted s Htx). unfold link_err in He.
  unfold Fs.link. fs_steps. destruct (MAX_NAME_LEN <? str_len n); simplify_eq; fs_steps.
  { by split; [|apply unchanged_ticks]. }
  st. destruct (fs_inode (cur s) !! ino) as [r|]; simplify_eq/=; fs_steps.
  2:{ by split; [|apply unchanged_ticks]. }
  rewrite has_type_u32. destruct (has_type S_IFDIR (i_mode r)); simplify_eq/=; fs_steps; st.
  { by split; [|apply unchanged_ticks]. }
  case_decide; simplify_eq. fs_steps. by split; [|apply unchanged_ticks].
Qed.

(** [link] of a file under a free name. *)
Lemma wp_link ino p n s :
  txn s = None → fresh_ids s → link_err (cur s) ino p n = None →
  wp (Fs.link ino p n) s (λ r s', ∃ t r',
    r = Ok (stats_of ino r') ∧ fs_inode (cur s') !! ino = Some r' ∧
    txn s' = None ∧ seq_ino s' = seq_ino s ∧ seq_dentry s' = seq_dentry s + 1 ∧
    cache s' = lru_put (p, n) ino (cache s) ∧
    fs_inode (cur s') = alter (λ r, set_mtime t (set_ctime t r)) p
      (alter (λ r, set_ctime t (add_nlink 1 r)) ino (fs_inode (cur s))) ∧
    fs_dentry (cur s') = <[(p, n):=mkDentry (seq_dentry s + 1) ino]> (fs_dentry (cur s)) ∧
    fs_data (cur s') = fs_data (cur s) ∧ fs_symlink (cur s') = fs_symlink (cur s)).
Proof.
  intros Htx Hfr He. pose proof (no_txn_aborted s Htx). unfold link_err in He.
  unfold Fs.link. fs_steps. destruct (MAX_NAME_LEN <? str_len n); simplify_eq; fs_steps.
  st. destruct (fs_inode (cur s) !! ino) as [r|] eqn:Hr; simplify_eq/=; fs_steps.
  rewrite has_type_u32. destruct (has_type S_IFDIR (i_mode r)); simplify_eq/=; fs_steps; st.
  case_decide as Hc; simplify_eq. fs_steps.
  assert (Hnone : child (cur s) p n = None) by (by apply eq_None_not_Some).
  apply wp_insert_dentry; [by st|tables; apply Hfr|tables; by apply child_None|].
  intros d ? ? ? ?. fs_steps. tables.
  assert (Hs : ∀ f g, is_Some (alter f p (alter g ino (fs_inode (cur s))) !! ino)).
  { intros f g. rewrite lookup_alter_is_Some, lookup_alter_is_Some, Hr. by eexists. }
  match goal with |- context [stats_of ino <$> ?x] => destruct x as [r'|] eqn:Hr' end.
  2:{ exfalso. eapply is_Some_None. rewrite <- Hr'. apply Hs. }
  simpl. exists (z, z0), r'. split; [done|]. tables. split; [done|].
  rewrite Htx. by split_and!.
Qed.

Lemma moved_ext isdir src p n np nn d d' d'' :
  fs_inode d'' = fs_inode d' → fs_dentry d'' = fs_dentry d' → fs_data d'' = fs_data d' →
  fs_symlink d'' = fs_symlink d' →
  moved isdir src p n np nn d d' → moved isdir src p n np nn d d''.
Proof. intros H1 H2 H3 H4 []. split; rewrite ?H1, ?H2, ?H3, ?H4; done. Qed.

(** The name to move to is free once its holder was replaced. *)
Lemma replaced_free np nn d d' :
  replaced np nn d d' → fs_dentry d' !! (np, nn) = None.
Proof.
  unfold replaced. destruct (child d np nn) eqn:Hc.
  - intros (t & d1 & Hp & _ & Hd & _). rewrite (pg_dentry _ _ _ Hp), Hd.
    apply lookup_delete_eq.
  - intros ->. by apply child_None.
Qed.

Lemma wp_rename p n np nn s :
  txn s = None →
  wp (Fs.rename p n np nn) s (λ r s',
    match rename_err (cur s) p n np nn with
    | Some e => r = Err (EFs e) ∧ unchanged s s'
    | None => r = Ok tt ∧ no_insert s s' ∧ ∃ src rs d1,
        child (cur s) p n = Some src ∧ fs_inode (cur s) !! src = Some rs ∧
        replaced np nn (cur s) d1 ∧
        moved (has_type S_IFDIR (i_mode rs)) src p n np nn d1 (cur s') ∧
        cache s' = lru_put (np, nn) src (lru_pop (np, nn) (lru_pop (p, n) (cache s)))
    end).
Proof.
  intros Htx. pose proof (no_txn_aborted s Htx). pose proof (no_txn_cur s Htx) as Hcur.
  unfold rename_err, Fs.rename. fs_steps. destruct (MAX_NAME_LEN <? str_len nn); fs_steps.
  { by split; [|apply unchanged_ticks]. }
  st. destruct (child (cur s) p n) as [src|] eqn:Hc; fs_steps; st.
  2:{ by split; [|apply unchanged_ticks]. }
  destruct (src =? ROOT_INO); fs_steps.
  { by split; [|apply unchanged_ticks]. }
  st. destruct (fs_inode (cur s) !! src) as [rs|] eqn:Hrs; simpl; fs_steps.
  2:{ by split; [|apply unchanged_ticks]. }
  apply wp_begin; [by st|]. wp_step. apply wp_attempt, wp_bind. st. rewrite <- Hcur.
  eapply wp_mono; [|apply wp_replace_destination; by st].
  intros r s1 [Hst Hr]. st. pose proof (db_step_aborted _ _ Hst) as Hab1. st.
  destruct (replace_err (cur s) rs np nn) as [e|].
  { subst r. cbv iota. wp_step. apply wp_finish_err.
    destruct Hst as (Ht & Hcm & ? & ? & ?). st.
    split; [done|]. apply unchanged_ticks; try (by st; rewrite ?Htx).
    st. apply Hcm. by eexists. }
  destruct Hr as [-> Hrep]. cbv iota.
  eapply wp_mono; [|apply wp_move_entry; [done|right; by eapply replaced_free]].
  intros r s2 (-> & Hst2 & Hmv). cbv iota. wp_step.
  destruct (db_step_trans _ _ _ Hst Hst2) as (Ht & _ & Hca & Hsi & Hsd). st. simpl in Ht.
  eapply wp_finish_ok; [done|]. fs_steps. st. split; [done|].
  split; [by split; st|]. eexists src, rs, (cur s1). split_and!; try done.
  - eapply moved_ext; [..|exact Hmv]; by st.
  - by rewrite Hca.
Qed.
End refusals.
