(* ===== verification/TreeInv.v ===== *)
(** * The directory tree invariant

    What the two tables of the name space agree on: every entry points from an
    existing directory to an existing inode, the link count of a file is the number
    of its names, and a directory has at most one name.  The lemmas say how each table
    update of [InodeSpec] keeps it. *)

From S2P Require Import Prelude Types Tables Monad Wp Sql File SecafsInode InodeSpec.

Abbreviation inodes := (gmap Z inode).
Abbreviation dentries := (gmap (Z * string) dentry).

Definition is_dir (r : inode) : bool := has_type S_IFDIR (i_mode r).
(** The number of names of an inode. *)
Definition names_of (dm : dentries) (ino : Z) : dentries :=
  filter (λ kv, d_ino kv.2 = ino) dm.
Definition links (dm : dentries) (ino : Z) : Z := Z.of_nat (size (names_of dm ino)).
Definition dir_row (im : inodes) (i : Z) : Prop := ∃ r, im !! i = Some r ∧ is_dir r = true.

Record tree_inv (im : inodes) (dm : dentries) : Prop := {
  ti_nlink ino r : im !! ino = Some r → is_dir r = false →
    i_nlink r = links dm ino ∧ i_nlink r < 2 ^ 32;
  ti_dir ino r : im !! ino = Some r → is_dir r = true → links dm ino ≤ 1;
  ti_target k e : dm !! k = Some e → is_Some (im !! d_ino e);
  ti_parent k e : dm !! k = Some e → dir_row im k.1;
  ti_root : dir_row im ROOT_INO;
  ti_root_unnamed : links dm ROOT_INO = 0;
}.

(** ** Counting names *)

Section links.
Implicit Types (dm : dentries) (k : Z * string).

Lemma links_nonneg dm ino : 0 ≤ links dm ino.
Proof. unfold links. lia. Qed.
Lemma links_insert dm k e ino :
  dm !! k = None →
  links (<[k:=e]> dm) ino = links dm ino + (if decide (d_ino e = ino) then 1 else 0).
Proof.
  intros Hk. unfold links, names_of. case_decide as He.
  - rewrite map_filter_insert_True by done. rewrite map_size_insert_None; [lia|].
    rewrite map_lookup_filter_None. by left.
  - rewrite map_filter_insert_not' by (done || intros ? ?; congruence). lia.
Qed.
Lemma links_delete dm k e ino :
  dm !! k = Some e →
  links (delete k dm) ino = links dm ino - (if decide (d_ino e = ino) then 1 else 0).
Proof.
  intros Hk. rewrite <- (insert_delete_id dm k e) at 2 by done.
  rewrite links_insert by apply lookup_delete_eq. lia.
Qed.
Lemma links_zero dm ino k e : links dm ino = 0 → dm !! k = Some e → d_ino e ≠ ino.
Proof.
  unfold links. intros Hl Hk He.
  assert (Hz : names_of dm ino = ∅) by (apply map_size_empty_iff; lia).
  assert (Hin : names_of dm ino !! k = Some e) by (by apply map_lookup_filter_Some).
  by rewrite Hz, lookup_empty in Hin.
Qed.
Lemma links_pos dm ino k e : dm !! k = Some e → d_ino e = ino → 0 < links dm ino.
Proof.
  intros Hk He. pose proof (links_nonneg dm ino).
  destruct (decide (links dm ino = 0)) as [Hz|]; [|lia]. by destruct (links_zero _ _ _ _ Hz Hk).
Qed.
Lemma links_none dm ino : (∀ k e, dm !! k = Some e → d_ino e ≠ ino) → links dm ino = 0.
Proof.
  intros H. unfold links. change 0 with (Z.of_nat 0). f_equal.
  apply map_size_empty_iff, map_empty_filter. intros k e Hk. simpl. eauto.
Qed.
End links.

(** No entry lies in an empty directory. *)
Lemma children_nil p d n : children p d = [] → fs_dentry d !! (p, n) = None.
Proof.
  intros Hc. destruct (fs_dentry d !! (p, n)) as [e|] eqn:He; [|done].
  assert (Hin : (n, d_ino e) ∈ children p d).
  { apply omap_key_elem. exists (p, n), e. split; [done|]. simpl. by rewrite decide_True. }
  rewrite Hc in Hin. by apply not_elem_of_nil in Hin.
Qed.

(** ** Updates that keep the invariant *)

Lemma dir_row_alter f i j im :
  (∀ r, is_dir (f r) = is_dir r) → dir_row im i → dir_row (alter f j im) i.
Proof.
  intros Hf (r & Hr & Hd). unfold dir_row. rewrite lookup_alter. case_decide; [|eauto].
  subst. rewrite Hr. simpl. exists (f r). by rewrite Hf.
Qed.
Lemma dir_row_insert im i j r : im !! j = None → dir_row im i → dir_row (<[j:=r]> im) i.
Proof.
  intros Hj (x & Hx & Hd). exists x. rewrite lookup_insert_ne; [done|congruence].
Qed.
Lemma dir_row_delete im i j : i ≠ j → dir_row im i → dir_row (delete j im) i.
Proof. intros Hij (x & Hx & Hd). exists x. by rewrite lookup_delete_ne. Qed.

Section updates.
Implicit Types (im : inodes) (dm : dentries).

(** Changing columns of a row: the type stays, and the link count of a file too. *)
Lemma tree_alter f p im dm :
  (∀ r, is_dir (f r) = is_dir r) →
  (∀ r, im !! p = Some r → is_dir r = false → i_nlink (f r) = i_nlink r) →
  tree_inv im dm → tree_inv (alter f p im) dm.
Proof.
  intros Hd Hn [H1 H2 H3 H4 H5 H6]. split; try done.
  - intros ino r. rewrite lookup_alter. case_decide; [subst|by apply H1].
    intros (r0 & Hr & ->)%fmap_Some. rewrite Hd. intros Hf. rewrite Hn by done. eauto.
  - intros ino r. rewrite lookup_alter. case_decide; [subst|by apply H2].
    intros (r0 & Hr & ->)%fmap_Some. rewrite Hd. eauto.
  - intros k e Hk. apply lookup_alter_is_Some. eauto.
  - intros k e Hk. apply dir_row_alter; eauto.
  - by apply dir_row_alter.
Qed.
Lemma tree_alter_dir f p im dm :
  (∀ r, is_dir (f r) = is_dir r) → dir_row im p →
  tree_inv im dm → tree_inv (alter f p im) dm.
Proof.
  intros Hd (r & Hr & Hdir) Ht. apply tree_alter; [done| |done].
  intros r' Hr'. congruence.
Qed.

(** A new inode with its first name. *)
Lemma tree_create ino row id p n im dm :
  im !! ino = None → dm !! (p, n) = None → dir_row im p →
  (is_dir row = false → i_nlink row = 1) →
  tree_inv im dm → tree_inv (<[ino:=row]> im) (<[(p, n):=mkDentry id ino]> dm).
Proof.
  intros Hino Hpn Hp Hrow Ht.
  assert (Hz : links dm ino = 0).
  { apply links_none. intros k e Hk <-. apply (ti_target _ _ Ht) in Hk as [? Hk]. congruence. }
  split.
  - intros j r. rewrite lookup_insert, links_insert by done. simpl.
    case_decide; [subst|intros Hj Hd; destruct (ti_nlink _ _ Ht _ _ Hj Hd); lia].
    intros [= <-] Hd. rewrite Hrow by done. lia.
  - intros j r. rewrite lookup_insert, links_insert by done. simpl.
    case_decide; [subst; lia|]. intros Hj Hd. pose proof (ti_dir _ _ Ht _ _ Hj Hd). lia.
  - intros k e. rewrite !lookup_insert. case_decide as Hk.
    + intros [= <-]. simpl. by rewrite decide_True.
    + intros He. case_decide; [by eexists|]. by eapply ti_target.
  - intros k e. rewrite lookup_insert. case_decide as Hk.
    + subst k. intros _. by apply dir_row_insert.
    + intros He. apply dir_row_insert; [done|]. by eapply ti_parent.
  - apply dir_row_insert; [done|]. by apply ti_root in Ht.
  - rewrite links_insert by done. simpl. rewrite (ti_root_unnamed _ _ Ht).
    rewrite decide_False; [done|]. intros ->. destruct (ti_root _ _ Ht) as (r & Hr & _).
    congruence.
Qed.

(** Another name for a file. *)
Lemma tree_link f ino r0 id p n im dm :
  im !! ino = Some r0 → is_dir r0 = false → dm !! (p, n) = None → dir_row im p →
  (∀ r, is_dir (f r) = is_dir r) → (∀ r, i_nlink (f r) = i_nlink r + 1) →
  i_nlink r0 + 1 < 2 ^ 32 →
  tree_inv im dm → tree_inv (alter f ino im) (<[(p, n):=mkDentry id ino]> dm).
Proof.
  intros Hino Hfile Hpn Hp Hd Hn Hb Ht. split.
  - intros j r. rewrite lookup_alter, links_insert by done. simpl.
    case_decide; [subst|intros Hj Hdj; destruct (ti_nlink _ _ Ht _ _ Hj Hdj); lia].
    rewrite Hino. intros [= <-]. rewrite Hd, Hn. intros _.
    destruct (ti_nlink _ _ Ht _ _ Hino Hfile). lia.
  - intros j r. rewrite lookup_alter, links_insert by done. simpl. case_decide.
    + subst. rewrite Hino. intros [= <-]. rewrite Hd. congruence.
    + intros Hj Hdj. pose proof (ti_dir _ _ Ht _ _ Hj Hdj). lia.
  - intros k e. rewrite lookup_insert. intros He. apply lookup_alter_is_Some.
    case_decide; [simplify_eq; by eexists|]. by eapply ti_target.
  - intros k e. rewrite lookup_insert. intros He. apply dir_row_alter; [done|].
    case_decide; [by simplify_eq|]. by eapply ti_parent.
  - apply dir_row_alter; [done|]. by apply ti_root in Ht.
  - rewrite links_insert by done. simpl. rewrite (ti_root_unnamed _ _ Ht).
    rewrite decide_False; [done|]. intros ->. destruct (ti_root _ _ Ht) as (r & Hr & ?).
    congruence.
Qed.

(** A name less. *)
Lemma tree_drop f ino k e im dm :
  dm !! k = Some e → d_ino e = ino →
  (∀ r, is_dir (f r) = is_dir r) → (∀ r, i_nlink (f r) = i_nlink r - 1) →
  tree_inv im dm → tree_inv (alter f ino im) (delete k dm).
Proof.
  intros Hk He Hd Hn Ht. split.
  - intros j r. rewrite lookup_alter, (links_delete _ _ e), He by done.
    case_decide; [subst|intros Hj Hdj; destruct (ti_nlink _ _ Ht _ _ Hj Hdj); lia].
    intros (r0 & Hr & ->)%fmap_Some. rewrite Hd, Hn. intros Hdj.
    destruct (ti_nlink _ _ Ht _ _ Hr Hdj). lia.
  - intros j r. rewrite lookup_alter, (links_delete _ _ e), He by done. case_decide.
    + subst. intros (r0 & Hr & ->)%fmap_Some. rewrite Hd. intros Hdj.
      pose proof (ti_dir _ _ Ht _ _ Hr Hdj). lia.
    + intros Hj Hdj. pose proof (ti_dir _ _ Ht _ _ Hj Hdj). lia.
  - intros k' e' [_ He']%lookup_delete_Some. apply lookup_alter_is_Some.
    by eapply ti_target.
  - intros k' e' [_ He']%lookup_delete_Some. apply dir_row_alter; [done|].
    by eapply ti_parent.
  - apply dir_row_alter; [done|]. by apply ti_root in Ht.
  - rewrite (links_delete _ _ e) by done. pose proof (ti_root_unnamed _ _ Ht) as Hr.
    rewrite decide_False; [lia|]. by eapply links_zero.
Qed.

(** Deleting an inode that has no name and, if a directory, no entry. *)
Lemma tree_purge ino im dm :
  links dm ino = 0 → (∀ k e, dm !! k = Some e → k.1 ≠ ino) → ino ≠ ROOT_INO →
  tree_inv im dm → tree_inv (delete ino im) dm.
Proof.
  intros Hl Hc Hroot Ht. split.
  - intros j r [_ Hj]%lookup_delete_Some. by eapply ti_nlink.
  - intros j r [_ Hj]%lookup_delete_Some. by eapply ti_dir.
  - intros k e Hk. rewrite lookup_delete_ne; [by eapply ti_target|].
    apply not_eq_sym. by eapply links_zero.
  - intros k e Hk. apply dir_row_delete; [by eapply Hc|]. by eapply ti_parent.
  - apply dir_row_delete; [done|]. by apply ti_root in Ht.
  - by apply ti_root_unnamed in Ht.
Qed.

(** A name moves. *)
Lemma tree_move p n np nn im dm :
  dm !! (np, nn) = None → dir_row im np →
  tree_inv im dm → tree_inv im (move_dentries p n np nn dm).
Proof.
  intros Hfree Hnp Ht. unfold move_dentries.
  destruct (dm !! (p, n)) as [e|] eqn:He; [|done].
  assert (Hl : ∀ ino, links (<[(np, nn):=e]> (delete (p, n) dm)) ino = links dm ino).
  { intros ino. rewrite links_insert by (rewrite lookup_delete_None; by right).
    rewrite (links_delete _ _ e) by done. lia. }
  split.
  - intros ino r. rewrite Hl. apply (ti_nlink _ _ Ht).
  - intros ino r. rewrite Hl. apply (ti_dir _ _ Ht).
  - intros k e'. rewrite lookup_insert. case_decide.
    + intros [= <-]. by eapply ti_target.
    + intros [_ Hk]%lookup_delete_Some. by eapply ti_target.
  - intros k e'. rewrite lookup_insert. case_decide; [by subst|].
    intros [_ Hk]%lookup_delete_Some. by eapply ti_parent.
  - by apply ti_root in Ht.
  - rewrite Hl. by apply ti_root_unnamed in Ht.
Qed.

(** Taking a name and deleting the inode if it was the last. *)
Definition purge (m : inodes) (ino : Z) : inodes :=
  if last_link m ino then delete ino m else m.
Lemma tree_unname f ino k e im dm :
  dm !! k = Some e → d_ino e = ino → (∀ k' e', dm !! k' = Some e' → k'.1 ≠ ino) →
  (∀ r, is_dir (f r) = is_dir r) → (∀ r, i_nlink (f r) = i_nlink r - 1) →
  tree_inv im dm → tree_inv (purge (alter f ino im) ino) (delete k dm).
Proof.
  intros Hk He Hnc Hd Hn Ht. pose proof (tree_drop f ino k e im dm Hk He Hd Hn Ht) as Ht'.
  unfold purge, last_link. rewrite lookup_alter_eq.
  destruct (ti_target _ _ Ht _ _ Hk) as [r Hr]. rewrite He in Hr. rewrite Hr. simpl.
  destruct (Z.eqb_spec (Int.u32 (i_nlink (f r))) 0) as [Hz|]; [|done].
  assert (Hr' : alter f ino im !! ino = Some (f r)) by (by rewrite lookup_alter_eq, Hr).
  apply tree_purge; [| | |done].
  - pose proof (links_nonneg (delete k dm) ino). destruct (is_dir r) eqn:Hdir.
    + pose proof (ti_dir _ _ Ht _ _ Hr Hdir) as Hle.
      rewrite (links_delete _ _ e), decide_True in * by done. lia.
    + rewrite <- Hd in Hdir. destruct (ti_nlink _ _ Ht' _ _ Hr' Hdir) as [Hl Hb].
      rewrite Int.u32_small in Hz by lia. lia.
  - intros k' e' [_ Hk']%lookup_delete_Some. eauto.
  - intros ->. by eapply links_zero; [apply (ti_root_unnamed _ _ Ht)| |].
Qed.

(** A file holds no entries. *)
Lemma file_no_entries ino r im dm :
  tree_inv im dm → im !! ino = Some r → is_dir r = false →
  ∀ k e, dm !! k = Some e → k.1 ≠ ino.
Proof.
  intros Ht Hr Hd k e Hk <-. destruct (ti_parent _ _ Ht _ _ Hk) as (r' & Hr' & Hd').
  congruence.
Qed.
Lemma dir_row_purge im i j : i ≠ j → dir_row im i → dir_row (purge im j) i.
Proof. intros. unfold purge. case_match; [by apply dir_row_delete|done]. Qed.
Lemma purge_None im i j : im !! i = None → purge im j !! i = None.
Proof. intros. unfold purge. case_match; [|done]. rewrite lookup_delete_None. by right. Qed.
End updates.

(** A root directory alone. *)
Lemma tree_root r : is_dir r = true → tree_inv {[ ROOT_INO := r ]} ∅.
Proof.
  intros Hd. split; try (intros ? ?; rewrite lookup_empty; done).
  - intros ino r0 [<- <-]%lookup_singleton_Some. congruence.
  - by intros ino r0 [<- <-]%lookup_singleton_Some.
  - exists r. by rewrite lookup_singleton_eq.
  - done.
Qed.
