(* ===== verification/SysInv.v ===== *)
(** * The system invariant

    [sys_inv] is what holds between two operations of the inode-based interface: no
    transaction is open, the sequences are ahead of their keys, the name space is a
    [tree_inv], and the dentry cache agrees with the directory table.  Every state
    change [InodeSpec] describes keeps it. *)

From S2P Require Import Prelude Types Tables Monad Wp Sql File SecafsInode InodeSpec TreeInv.

(** A cached entry is the entry the table holds. *)
Definition coherent {E : Env} (c : lru_cache) (dm : dentries) : Prop :=
  ∀ p n i, lru_peek c (p, n) = Some i → d_ino <$> dm !! (p, n) = Some i.

Record sys_inv {E : Env} (s : state) : Prop := {
  si_txn : txn s = None;
  si_fresh : fresh_ids s;
  si_tree : tree_inv (fs_inode (cur s)) (fs_dentry (cur s));
  si_cache : coherent (cache s) (fs_dentry (cur s));
}.

(** ** The cache *)

Section cache.
Context {E : Env} {HL : LruLaws E}.
Implicit Types (c : lru_cache) (dm : dentries).

Lemma coherent_put c dm p n i :
  coherent c dm → d_ino <$> dm !! (p, n) = Some i → coherent (lru_put (p, n) i c) dm.
Proof.
  intros Hc Hi p' n' j Hj. destruct (decide ((p, n) = (p', n'))) as [Heq|Hne].
  - simplify_eq. by rewrite lru_put_eq in Hj; simplify_eq.
  - apply lru_put_ne in Hj; [|done]. by apply Hc.
Qed.
Lemma coherent_get c dm k : coherent c dm → coherent (lru_get k c).2 dm.
Proof. intros Hc p n i. rewrite lru_get_spec. apply Hc. Qed.
(** An entry is put into a free slot of the table and into the cache. *)
Lemma coherent_insert c dm p n e :
  coherent c dm → coherent (lru_put (p, n) (d_ino e) c) (<[(p, n):=e]> dm).
Proof.
  intros Hc p' n' j Hj. destruct (decide ((p, n) = (p', n'))) as [Heq|Hne].
  - simplify_eq. rewrite lru_put_eq in Hj. simplify_eq. by rewrite lookup_insert_eq.
  - apply lru_put_ne in Hj; [|done]. rewrite lookup_insert_ne by done. by apply Hc.
Qed.
Lemma coherent_pop c dm p n :
  coherent c dm → coherent (lru_pop (p, n) c) (delete (p, n) dm).
Proof.
  intros Hc p' n' j Hj. destruct (decide ((p, n) = (p', n'))) as [Heq|Hne].
  - simplify_eq. by rewrite lru_pop_eq in Hj.
  - rewrite lru_pop_ne in Hj by done. rewrite lookup_delete_ne by done. by apply Hc.
Qed.
(** An entry the cache cannot know is added. *)
Lemma coherent_free c dm p n e :
  coherent c dm → dm !! (p, n) = None → coherent c (<[(p, n):=e]> dm).
Proof.
  intros Hc Hfree p' n' j Hj. apply Hc in Hj. rewrite lookup_insert_ne; [done|].
  intros Heq. by rewrite <- Heq, Hfree in Hj.
Qed.
End cache.

(** ** Fresh identifiers *)

(** Rows are only added under numbers the sequences have passed. *)
Lemma fresh_ids_step {E : Env} (s s' : state) :
  fresh_ids s → seq_ino s ≤ seq_ino s' → seq_dentry s ≤ seq_dentry s' →
  (∀ i, seq_ino s' < i → fs_inode (cur s) !! i = None → fs_inode (cur s') !! i = None) →
  (∀ i, seq_ino s' < i → fs_symlink (cur s) !! i = None → fs_symlink (cur s') !! i = None) →
  (∀ k, seq_ino s' < k.1 → fs_data (cur s) !! k = None → fs_data (cur s') !! k = None) →
  (∀ k e, fs_dentry (cur s') !! k = Some e →
    (∃ k', fs_dentry (cur s) !! k' = Some e) ∨ d_id e ≤ seq_dentry s' ∧ d_ino e ≤ seq_ino s') →
  fresh_ids s'.
Proof.
  intros [F1 F2 F3 F4 F5] Hi Hd H1 H2 H3 H4. split.
  - intros i Hlt. apply H1; [done|]. apply F1. lia.
  - intros i Hlt. apply H2; [done|]. apply F2. lia.
  - intros k Hlt. apply H3; [done|]. apply F3. lia.
  - intros k e Hk. destruct (H4 _ _ Hk) as [[k' Hk']|?]; [|lia]. apply F4 in Hk'. lia.
  - intros k e Hk. destruct (H4 _ _ Hk) as [[k' Hk']|?]; [|lia]. apply F5 in Hk'. lia.
Qed.

Lemma lookup_alter_None {A} (f : A → A) (i j : Z) (m : gmap Z A) :
  m !! j = None → alter f i m !! j = None.
Proof. intros H. rewrite lookup_alter. case_decide; [|done]. subst. by rewrite H. Qed.

Lemma alter_swap {A} (f g : A → A) (i j : Z) (m : gmap Z A) :
  i ≠ j → alter f i (alter g j m) = alter g j (alter f i m).
Proof.
  intros Hij. apply map_eq. intros k. rewrite !lookup_alter.
  repeat case_decide; subst; done.
Qed.

(** ** Operations keep the invariant *)

Section keep.
Context {E : Env} {HL : LruLaws E}.
Implicit Types s : state.

Lemma unchanged_inv s s' : sys_inv s → unchanged s s' → sys_inv s'.
Proof.
  intros [Ht Hf Htr Hc] [[? Hi Hd] Hcur Hca]. split; rewrite ?Hcur, ?Hca; try done.
  apply (fresh_ids_step s); rewrite ?Hcur; (done || lia || eauto).
Qed.

Lemma created_inv p n row up tgt s s' :
  sys_inv s → dir_row (fs_inode (cur s)) p → child (cur s) p n = None →
  (is_dir row = false → i_nlink row = 1) → (∀ r, is_dir (up r) = is_dir r) →
  created p n row up tgt s s' → sys_inv s'.
Proof.
  intros [Ht Hf Htr Hc] Hp Hfree Hrow Hup [H1 H2 H3 H4 H5 H6 H7 H8].
  assert (Hnew : fs_inode (cur s) !! (seq_ino s + 1) = None) by (apply Hf; lia).
  apply child_None in Hfree. split; [done| | |].
  - apply (fresh_ids_step s); [done|lia|lia|..].
    + intros i Hi Hnone. rewrite H5. apply lookup_alter_None.
      rewrite lookup_insert_ne by lia. done.
    + intros i Hi Hnone. rewrite H8. destruct tgt; [|done].
      rewrite lookup_insert_ne by lia. done.
    + by rewrite H7.
    + intros k e. rewrite H6, lookup_insert. case_decide; [|eauto].
      intros [= <-]. simpl. right. lia.
  - rewrite H5, H6. apply tree_alter_dir; [done|by apply dir_row_insert|].
    by apply tree_create.
  - rewrite H4, H6. by apply (coherent_insert _ _ _ _ (mkDentry _ _)).
Qed.

(** Columns of one row changed. *)
Lemma altered_inv f ino s s' :
  sys_inv s → (∀ r, is_dir (f r) = is_dir r) → (∀ r, i_nlink (f r) = i_nlink r) →
  no_insert s s' → cache s' = cache s →
  fs_inode (cur s') = alter f ino (fs_inode (cur s)) → fs_dentry (cur s') = fs_dentry (cur s) →
  (∀ k, seq_ino s < k.1 → fs_data (cur s) !! k = None → fs_data (cur s') !! k = None) →
  fs_symlink (cur s') = fs_symlink (cur s) → sys_inv s'.
Proof.
  intros [Ht Hf Htr Hc] Hd Hn [? Hi Hs] Hca Him Hdm Hda Hsy. split; [done| | |].
  - apply (fresh_ids_step s); rewrite ?Him, ?Hdm, ?Hi, ?Hs, ?Hsy; (done || lia || eauto).
    intros i _. apply lookup_alter_None.
  - rewrite Him, Hdm. apply tree_alter; eauto.
  - by rewrite Hca, Hdm.
Qed.

Lemma purged_inode ino d d' : purged ino d d' → fs_inode d' = purge (fs_inode d) ino.
Proof. intros []. done. Qed.
Lemma purged_data_None ino d d' k :
  purged ino d d' → fs_data d !! k = None → fs_data d' !! k = None.
Proof.
  intros [_ -> _ _] Hk. case_match; [|done]. apply map_lookup_filter_None. by left.
Qed.
Lemma purged_symlink_None ino d d' k :
  purged ino d d' → fs_symlink d !! k = None → fs_symlink d' !! k = None.
Proof.
  intros [_ _ -> _] Hk. case_match; [|done]. rewrite lookup_delete_None. by right.
Qed.

(** The effect of [unlink]. *)
Lemma unlinked_inv f g p n ino r0 d s s' :
  sys_inv s → child (cur s) p n = Some ino →
  fs_inode (cur s) !! ino = Some r0 → is_dir r0 = false →
  (∀ r, is_dir (f r) = is_dir r) → (∀ r, i_nlink (f r) = i_nlink r - 1) →
  (∀ r, is_dir (g r) = is_dir r) →
  purged ino d (cur s') → fs_inode d = alter f ino (alter g p (fs_inode (cur s))) →
  fs_dentry d = delete (p, n) (fs_dentry (cur s)) → fs_data d = fs_data (cur s) →
  fs_symlink d = fs_symlink (cur s) → no_insert s s' →
  cache s' = lru_pop (p, n) (cache s) → sys_inv s'.
Proof.
  intros [Ht Hf Htr Hc] (e & Hk & ->)%fmap_Some Hr Hd Hfd Hfn Hgd Hp Hdi Hdd Hda Hds [? Hi Hs] Hca.
  pose proof (purged_inode _ _ _ Hp) as Him. pose proof (pg_dentry _ _ _ Hp) as Hdm.
  rewrite Hdi in Him. rewrite Hdd in Hdm. split; [done| | |].
  - apply (fresh_ids_step s); rewrite ?Hi, ?Hs; try done.
    + intros i _ Hn. rewrite Him. by apply purge_None, lookup_alter_None, lookup_alter_None.
    + intros i _ Hn. eapply purged_symlink_None; [done|]. by rewrite Hds.
    + intros i _ Hn. eapply purged_data_None; [done|]. by rewrite Hda.
    + intros k' e'. rewrite Hdm. intros [_ ?]%lookup_delete_Some. eauto.
  - rewrite Him, Hdm. eapply tree_unname; [done|done| |done|done|].
    + by eapply file_no_entries.
    + apply tree_alter_dir; [done| |done]. by apply (ti_parent _ _ Htr (p, n) e).
  - rewrite Hca, Hdm. by apply coherent_pop.
Qed.

(** The effect of [rmdir]. *)
Lemma rmdired_inv f g p n ino s s' :
  sys_inv s → child (cur s) p n = Some ino → children ino (cur s) = [] →
  (∀ r, is_dir (f r) = is_dir r) → (∀ r, i_nlink (f r) = i_nlink r - 1) →
  (∀ r, is_dir (g r) = is_dir r) →
  fs_inode (cur s') = purge (alter g p (alter f ino (fs_inode (cur s)))) ino →
  fs_dentry (cur s') = delete (p, n) (fs_dentry (cur s)) →
  fs_data (cur s') = fs_data (cur s) → fs_symlink (cur s') = fs_symlink (cur s) →
  no_insert s s' → cache s' = lru_pop (p, n) (cache s) → sys_inv s'.
Proof.
  intros [Ht Hf Htr Hc] (e & Hk & ->)%fmap_Some Hemp Hfd Hfn Hgd Him Hdm Hda Hds [? Hi Hs] Hca.
  assert (Hne : ∀ k' e', fs_dentry (cur s) !! k' = Some e' → k'.1 ≠ d_ino e).
  { intros [p' n'] e' Hk' Heq. simpl in Heq. subst p'.
    by rewrite (children_nil _ _ n' Hemp) in Hk'. }
  rewrite alter_swap in Him by (apply (Hne _ _ Hk)). split; [done| | |].
  - apply (fresh_ids_step s); rewrite ?Hi, ?Hs, ?Hda, ?Hds; try done.
    + intros i _ Hn. rewrite Him. by apply purge_None, lookup_alter_None, lookup_alter_None.
    + intros k' e'. rewrite Hdm. intros [_ ?]%lookup_delete_Some. eauto.
  - rewrite Him, Hdm. eapply tree_unname; [done|done|done|done|done|].
    apply tree_alter_dir; [done| |done]. by apply (ti_parent _ _ Htr (p, n) e).
  - rewrite Hca, Hdm. by apply coherent_pop.
Qed.

(** The effect of [link]. *)
Lemma linked_inv f g ino r0 p n s s' :
  sys_inv s → dir_row (fs_inode (cur s)) p → child (cur s) p n = None →
  fs_inode (cur s) !! ino = Some r0 → is_dir r0 = false → i_nlink r0 + 1 < 2 ^ 32 →
  (∀ r, is_dir (f r) = is_dir r) → (∀ r, i_nlink (f r) = i_nlink r + 1) →
  (∀ r, is_dir (g r) = is_dir r) →
  txn s' = None → seq_ino s' = seq_ino s → seq_dentry s' = seq_dentry s + 1 →
  cache s' = lru_put (p, n) ino (cache s) →
  fs_inode (cur s') = alter g p (alter f ino (fs_inode (cur s))) →
  fs_dentry (cur s') = <[(p, n):=mkDentry (seq_dentry s + 1) ino]> (fs_dentry (cur s)) →
  fs_data (cur s') = fs_data (cur s) → fs_symlink (cur s') = fs_symlink (cur s) → sys_inv s'.
Proof.
  intros [Ht Hf Htr Hc] Hp Hfree%child_None Hr Hd Hb Hfd Hfn Hgd Htx Hi Hs Hca Him Hdm Hda Hsy.
  split; [done| | |].
  - apply (fresh_ids_step s); rewrite ?Hi, ?Hs, ?Hda, ?Hsy; try done; [lia|..].
    + intros i _ Hn. rewrite Him. by apply lookup_alter_None, lookup_alter_None.
    + intros k e. rewrite Hdm, lookup_insert. case_decide; [|eauto].
      intros [= <-]. simpl. right. split; [lia|].
      destruct (decide (ino ≤ seq_ino s)); [done|]. rewrite (fresh_ino _ Hf) in Hr by lia. done.
  - rewrite Him, Hdm. apply tree_alter_dir; [done|by apply dir_row_alter|].
    by eapply tree_link.
  - rewrite Hca, Hdm. by apply (coherent_insert _ _ _ _ (mkDentry _ _)).
Qed.

(** The effect of [rename], first the replaced destination. *)
Lemma replaced_no_entries rs np nn dst d :
  tree_inv (fs_inode d) (fs_dentry d) → replace_err d rs np nn = None →
  child d np nn = Some dst → ∀ k e, fs_dentry d !! k = Some e → k.1 ≠ dst.
Proof.
  unfold replace_err. intros Ht He Hc. rewrite Hc in He.
  destruct (fs_inode d !! dst) as [rd|] eqn:Hrd; [|done].
  destruct (has_type S_IFDIR (i_mode rd)) eqn:Hdir; [|by eapply file_no_entries].
  destruct (has_type S_IFDIR (i_mode rs)); [|done]. simpl in He.
  case_bool_decide as Hemp; [|done]. intros [p' n'] e Hk Heq. simpl in Heq. subst p'.
  by rewrite (children_nil _ _ n' Hemp) in Hk.
Qed.
Lemma replaced_tree rs np nn d d' :
  tree_inv (fs_inode d) (fs_dentry d) → replace_err d rs np nn = None →
  replaced np nn d d' →
  tree_inv (fs_inode d') (fs_dentry d') ∧ fs_dentry d' = delete (np, nn) (fs_dentry d) ∧
  (∀ i, dir_row (fs_inode d) i →
    i = np ∨ (∃ k e, fs_dentry d !! k = Some e ∧ k.1 = i) → dir_row (fs_inode d') i).
Proof.
  intros Ht He. unfold replaced. destruct (child d np nn) as [dst|] eqn:Hc.
  2:{ intros ->. apply child_None in Hc. by rewrite delete_id. }
  intros (t & d1 & Hp & Hi & Hd & _).
  pose proof (replaced_no_entries _ _ _ _ _ Ht He Hc) as Hne.
  apply fmap_Some in Hc as (e & Hk & ->).
  rewrite (purged_inode _ _ _ Hp), (pg_dentry _ _ _ Hp), Hi, Hd. split; [|split; [done|]].
  - by eapply tree_unname.
  - intros i Hdir Hi'. apply dir_row_purge; [|by apply dir_row_alter].
    destruct Hi' as [->|(k & e' & Hk' & <-)]; [by apply (Hne _ _ Hk)|by eapply Hne].
Qed.
(** No row appears in a replacement. *)
Lemma replaced_None np nn d d' :
  replaced np nn d d' →
  (∀ i, fs_inode d !! i = None → fs_inode d' !! i = None) ∧
  (∀ i, fs_symlink d !! i = None → fs_symlink d' !! i = None) ∧
  (∀ k, fs_data d !! k = None → fs_data d' !! k = None).
Proof.
  unfold replaced. destruct (child d np nn) as [dst|]; [|by intros ->].
  intros (t & d1 & Hp & Hi & Hd & Hda & Hsy). split_and!.
  - intros i Hn. rewrite (purged_inode _ _ _ Hp), Hi. by apply purge_None, lookup_alter_None.
  - intros i Hn. eapply purged_symlink_None; [done|]. by rewrite Hsy.
  - intros k Hn. eapply purged_data_None; [done|]. by rewrite Hda.
Qed.

Lemma move_inodes_tree isdir t src p np im dm :
  dir_row im p → dir_row im np → tree_inv im dm →
  tree_inv (move_touch t src p np (move_nlinks isdir p np im)) dm.
Proof.
  intros Hp Hnp Ht.
  assert (Ht' : tree_inv (move_nlinks isdir p np im) dm).
  { unfold move_nlinks. case_match; [|done].
    apply tree_alter_dir; [done|by apply dir_row_alter|]. by apply tree_alter_dir. }
  unfold move_touch. case_match; repeat apply tree_alter; done.
Qed.
Lemma move_inodes_None isdir t src p np (im : inodes) i :
  im !! i = None → move_touch t src p np (move_nlinks isdir p np im) !! i = None.
Proof.
  intros. unfold move_touch, move_nlinks. repeat case_match; by repeat apply lookup_alter_None.
Qed.

Lemma renamed_inv rs src p n np nn d1 s s' :
  sys_inv s → dir_row (fs_inode (cur s)) np → (p, n) ≠ (np, nn) →
  child (cur s) p n = Some src → replace_err (cur s) rs np nn = None →
  replaced np nn (cur s) d1 →
  moved (has_type S_IFDIR (i_mode rs)) src p n np nn d1 (cur s') → no_insert s s' →
  cache s' = lru_put (np, nn) src (lru_pop (np, nn) (lru_pop (p, n) (cache s))) → sys_inv s'.
Proof.
  intros [Ht Hf Htr Hc] Hnp Hne (e & Hk & ->)%fmap_Some Herr Hrep [[t Hi] Hd Hda Hsy] [? Hsi Hsd] Hca.
  destruct (replaced_tree _ _ _ _ _ Htr Herr Hrep) as (Ht1 & Hd1 & Hdirs).
  destruct (replaced_None _ _ _ _ Hrep) as (N1 & N2 & N3).
  assert (Hk1 : fs_dentry d1 !! (p, n) = Some e) by (rewrite Hd1, lookup_delete_ne; done).
  assert (Hdm : fs_dentry (cur s') = <[(np, nn):=e]> (delete (p, n) (fs_dentry d1))).
  { rewrite Hd. unfold move_dentries. by rewrite Hk1. }
  split; [done| | |].
  - apply (fresh_ids_step s); rewrite ?Hsi, ?Hsd, ?Hda, ?Hsy; eauto; [done|done|..].
    + intros i _ Hn. rewrite Hi. eauto using move_inodes_None.
    + intros k e'. rewrite Hdm, lookup_insert. case_decide.
      * intros [= <-]. eauto.
      * intros [_ Hk']%lookup_delete_Some. rewrite Hd1 in Hk'.
        apply lookup_delete_Some in Hk' as [_ ?]. eauto.
  - rewrite Hi, Hd. apply move_inodes_tree.
    + apply Hdirs; [by apply (ti_parent _ _ Htr _ _ Hk)|right; eauto].
    + apply Hdirs; auto.
    + apply tree_move; [rewrite Hd1; apply lookup_delete_eq|apply Hdirs; auto|done].
  - rewrite Hca, Hdm, Hd1. apply coherent_insert. rewrite delete_delete by done.
    by apply coherent_pop, coherent_pop.
Qed.
End keep.
