(* ===== verification/Samples.v ===== *)
(** * Deciding the invariant, and a sample file system

    [tree_inv] and [sys_inv] as computable checks, and a small concrete file system that
    passes them: the inputs the theorems are tried on. *)

From S2P Require Import Prelude Types Tables Monad Wp Instances Sql File SecafsInode InodeSpec.
From S2P Require Import TreeInv SysInv.

Definition dir_at (im : inodes) (i : Z) : bool := from_option is_dir false (im !! i).
Definition inode_check (dm : dentries) (ino : Z) (r : inode) : Prop :=
  if is_dir r then links dm ino ≤ 1 else i_nlink r = links dm ino ∧ i_nlink r < 2 ^ 32.
Definition dentry_check (im : inodes) (k : Z * string) (e : dentry) : Prop :=
  is_Some (im !! d_ino e) ∧ dir_at im k.1 = true.
#[global] Instance inode_check_dec dm ino r : Decision (inode_check dm ino r).
Proof. unfold inode_check. destruct (is_dir r); apply _. Defined.
#[global] Instance dentry_check_dec im k e : Decision (dentry_check im k e).
Proof. unfold dentry_check. apply _. Defined.

Definition tree_check (im : inodes) (dm : dentries) : bool :=
  bool_decide (map_Forall (inode_check dm) im) &&
  bool_decide (map_Forall (dentry_check im) dm) &&
  dir_at im ROOT_INO && bool_decide (links dm ROOT_INO = 0).

Lemma dir_at_row im i : dir_at im i = true → dir_row im i.
Proof.
  unfold dir_at, dir_row. destruct (im !! i) as [r|]; [|done]. simpl. by exists r.
Qed.
Lemma tree_check_sound im dm : tree_check im dm = true → tree_inv im dm.
Proof.
  intros [[[H1%bool_decide_eq_true H2%bool_decide_eq_true]%andb_prop H3]%andb_prop
          H4%bool_decide_eq_true]%andb_prop.
  split; [| | | | |done].
  - intros ino r Hr Hd. specialize (H1 ino r Hr). unfold inode_check in H1. by rewrite Hd in H1.
  - intros ino r Hr Hd. specialize (H1 ino r Hr). unfold inode_check in H1. by rewrite Hd in H1.
  - intros k e Hk. by destruct (H2 k e Hk).
  - intros k e Hk. destruct (H2 k e Hk). by apply dir_at_row.
  - by apply dir_at_row.
Qed.

Definition fresh_check {E : Env} (s : state) : bool :=
  bool_decide (map_Forall (λ i _, i ≤ seq_ino s) (fs_inode (cur s))) &&
  bool_decide (map_Forall (λ i _, i ≤ seq_ino s) (fs_symlink (cur s))) &&
  bool_decide (map_Forall (λ k _, k.1 ≤ seq_ino s) (fs_data (cur s))) &&
  bool_decide (map_Forall (λ _ e, d_ino e ≤ seq_ino s ∧ d_id e ≤ seq_dentry s)
    (fs_dentry (cur s))).
Lemma fresh_check_sound {E : Env} (s : state) : fresh_check s = true → fresh_ids s.
Proof.
  intros [[[H1%bool_decide_eq_true H2%bool_decide_eq_true]%andb_prop
           H3%bool_decide_eq_true]%andb_prop H4%bool_decide_eq_true]%andb_prop.
  split.
  - intros i Hi. destruct (fs_inode (cur s) !! i) eqn:Hr; [|done]. apply H1 in Hr. lia.
  - intros i Hi. destruct (fs_symlink (cur s) !! i) eqn:Hr; [|done]. apply H2 in Hr. lia.
  - intros k Hk. destruct (fs_data (cur s) !! k) eqn:Hr; [|done]. apply H3 in Hr. lia.
  - intros k e Hk. by destruct (H4 _ _ Hk).
  - intros k e Hk. by destruct (H4 _ _ Hk).
Qed.

(** ** The sample

    [/f] a file, [/g] and [/d/h] two names of one file, [/d] and [/d/e] directories,
    [/l] a symlink to itself, [/x] a dangling symlink. *)

Definition lnk_mode : Z := Z.lor S_IFLNK 0x1ff.
Definition demo_db : db :=
  set_fs_symlink {[ 6 := "/l"; 7 := "/nope" ]}
  (set_fs_data {[ (2, 0) := [x61; x62; x63] ]}
  (set_fs_dentry {[ (1, "f") := mkDentry 1 2; (1, "d") := mkDentry 2 3;
                    (3, "e") := mkDentry 3 4; (1, "g") := mkDentry 4 5;
                    (3, "h") := mkDentry 5 5; (1, "l") := mkDentry 6 6;
                    (1, "x") := mkDentry 7 7 ]}
  (set_fs_inode {[ 1 := new_inode DEFAULT_DIR_MODE 3 0 0 0 0 (0, 0);
                   2 := new_inode DEFAULT_FILE_MODE 1 0 0 3 0 (0, 0);
                   3 := new_inode DEFAULT_DIR_MODE 3 0 0 0 0 (0, 0);
                   4 := new_inode DEFAULT_DIR_MODE 2 0 0 0 0 (0, 0);
                   5 := new_inode DEFAULT_FILE_MODE 2 0 0 0 0 (0, 0);
                   6 := new_inode lnk_mode 1 0 0 2 0 (0, 0);
                   7 := new_inode lnk_mode 1 0 0 5 0 (0, 0) ]} empty_db))).
Definition demo : @state calm_env :=
  mkState calm_env demo_db None 7 7 0 (ListLru.new 16) 0 0.

Lemma demo_inv : sys_inv demo.
Proof.
  split; [done|by apply fresh_check_sound; vm_compute|by apply tree_check_sound; vm_compute|].
  intros p n i. by change (cache demo) with (lru_new (Env := calm_env) 16); rewrite lru_new_spec.
Qed.
