(* ===== verification/Steps.v ===== *)
(** * Sequences of operations

    A client of the inode-based interface as a transition system: [op] is one call,
    [run_op] executes it and [allowed] is the contract a caller keeps (the checks the
    kernel's VFS layer makes before it calls).  Every state reachable from a file
    system satisfies [sys_inv]. *)

From S2P Require Import Prelude Types Tables Monad Wp Sql File SecafsInode InodeSpec TreeInv.
From S2P Require Import SysInv.

(** ** Open files change one inode *)

(** Only the chunks of [ino] differ. *)
Record only_data (ino : Z) (d d' : db) : Prop := {
  od_inode : fs_inode d' = fs_inode d;
  od_dentry : fs_dentry d' = fs_dentry d;
  od_symlink : fs_symlink d' = fs_symlink d;
  od_data k : k.1 ≠ ino → fs_data d' !! k = fs_data d !! k;
}.

Lemma only_data_refl ino d : only_data ino d d.
Proof. done. Qed.
Lemma only_data_trans ino d d' d'' :
  only_data ino d d' → only_data ino d' d'' → only_data ino d d''.
Proof.
  intros [? ? ? H] [? ? ? H']. split; [congruence..|]. intros k Hk. by rewrite H', H.
Qed.
Lemma only_data_upsert ino c b d : only_data ino d (upsert_data_row (ino, c) b d).
Proof.
  split; autorewrite with secafs_db; try done. intros k Hk.
  by rewrite lookup_insert_ne by (intros <-; done).
Qed.
Lemma only_data_update ino c b d : only_data ino d (update_data_row (ino, c) b d).
Proof.
  split; autorewrite with secafs_db; try done. intros k Hk.
  destruct (fs_data d !! (ino, c)) as [x|] eqn:Hx.
  - rewrite fs_data_update_row by eauto. by rewrite lookup_insert_ne by (intros <-; done).
  - unfold update_data_row. by rewrite Hx.
Qed.
Lemma only_data_delete ino P d :
  (∀ k, P k = true → k.1 = ino) → only_data ino d (delete_data_where P d).
Proof.
  intros HP. split; autorewrite with secafs_db; try done. intros k Hk.
  apply option_eq. intros b.
  rewrite map_lookup_filter_Some. simpl. split; [tauto|]. intros Hb. split; [done|].
  destruct (P k) eqn:HPk; [|done]. by apply HP in HPk.
Qed.
#[export] Hint Resolve only_data_refl only_data_upsert only_data_update : core.

Section files.
Context {E : Env} {HQ : Quiet E} (f : SecAFSFile).
Hypothesis Hcs : 0 < f_chunk_size f.
Implicit Types s : state.

Lemma wp_write_loop_frame fuel offset data written s :
  aborted s = false →
  wp (write_loop f fuel offset data written) s (λ r s',
    r = Ok tt ∧ db_step s s' ∧ only_data (f_ino f) (cur s) (cur s')).
Proof.
  revert written s. induction fuel as [|fuel IH]; intros written s Hab; cbn [write_loop].
  { wp_steps. auto. }
  destruct (written <? Vec.len data); [|wp_steps; by auto].
  unfold write_chunk. destruct (Z.eqb_spec (f_chunk_size f) 0); [lia|].
  wp_step. wp_step. destruct (negb _); wp_steps; st;
    (eapply wp_mono; [|apply IH; by st]); intros r s' (-> & Hs & Ho); st;
    (split; [done|]); (split; [eapply db_step_trans; [|exact Hs]; by auto 10|]);
    (eapply only_data_trans; [|exact Ho]; by auto).
Qed.

Lemma wp_truncate_chunks_frame cur_size n s :
  aborted s = false →
  wp (truncate_chunks f cur_size n) s (λ r s',
    r = Ok tt ∧ db_step s s' ∧ only_data (f_ino f) (cur s) (cur s')).
Proof.
  intros Hab. unfold truncate_chunks. destruct (n =? 0).
  { wp_steps. st. split; [done|]. split; [auto|]. apply only_data_delete.
    intros k. by rewrite bool_decide_eq_true. }
  destruct (n <? cur_size); [|wp_steps; by auto].
  destruct (Z.eqb_spec (f_chunk_size f) 0); [lia|].
  set (P := λ k : Z * Z, _).
  assert (HP : ∀ k, P k = true → k.1 = f_ino f).
  { intros k [Hk _]%andb_prop. by apply bool_decide_eq_true in Hk. }
  assert (Hd : only_data (f_ino f) (cur s) (delete_data_where P (cur s)))
    by (by apply only_data_delete).
  wp_steps. destruct (0 <? _); wp_steps; st; [|by auto 10].
  unfold select_chunk. destruct (fs_data _ !! _) as [b|]; [|wp_steps; st; by auto 10].
  change (blob_opt [Blob b] 0) with (Some b). cbv iota.
  destruct (_ <? Vec.len b); wp_steps; st; split_and!; try (by auto 10).
  eapply only_data_trans; [exact Hd|]. auto.
Qed.
End files.

(** ** Calls *)

Inductive op :=
  | OLookup (parent : Z) (name : string)
  | OGetattr (ino : Z)
  | OReadlink (ino : Z)
  | OReaddir (ino : Z)
  | OReaddirPlus (ino : Z)
  | OChmod (ino mode : Z)
  | OChown (ino : Z) (uid gid : option Z)
  | OUtimens (ino : Z) (atime mtime : TimeChange)
  | OOpen (ino flags : Z)
  | OMkdir (parent : Z) (name : string) (mode uid gid : Z)
  | OCreate (parent : Z) (name : string) (mode uid gid : Z)
  | OMknod (parent : Z) (name : string) (mode rdev uid gid : Z)
  | OSymlink (parent : Z) (name target : string) (uid gid : Z)
  | OUnlink (parent : Z) (name : string)
  | ORmdir (parent : Z) (name : string)
  | OLink (ino parent : Z) (name : string)
  | ORename (oldparent : Z) (oldname : string) (newparent : Z) (newname : string)
  | OStatfs
  | OPread (f : SecAFSFile) (offset size : Z)
  | OPwrite (f : SecAFSFile) (offset : Z) (data : list byte)
  | OTruncate (f : SecAFSFile) (size : Z)
  | OFsync (f : SecAFSFile)
  | OFstat (f : SecAFSFile).

Section run.
Context {E : Env} (fs : SecAFS).

Definition void {A} (m : M A) : M unit := m ≫= λ _, mret tt.
Definition run_op (o : op) : M unit :=
  match o with
  | OLookup p n => void (Fs.lookup p n)
  | OGetattr i => void (Fs.getattr i)
  | OReadlink i => void (Fs.readlink i)
  | OReaddir i => void (Fs.readdir i)
  | OReaddirPlus i => void (Fs.readdir_plus i)
  | OChmod i m => Fs.chmod i m
  | OChown i u g => Fs.chown i u g
  | OUtimens i a m => Fs.utimens i a m
  | OOpen i fl => void (Fs.open fs i fl)
  | OMkdir p n m u g => void (Fs.mkdir p n m u g)
  | OCreate p n m u g => void (Fs.create_file fs p n m u g)
  | OMknod p n m d u g => void (Fs.mknod p n m d u g)
  | OSymlink p n t u g => void (Fs.symlink p n t u g)
  | OUnlink p n => Fs.unlink p n
  | ORmdir p n => Fs.rmdir p n
  | OLink i p n => void (Fs.link i p n)
  | ORename p n np nn => Fs.rename p n np nn
  | OStatfs => void Fs.statfs
  | OPread f o n => void (pread f o n)
  | OPwrite f o b => pwrite f o b
  | OTruncate f n => truncate f n
  | OFsync f => fsync
  | OFstat f => void (fstat f)
  end.

(** An open file: a handle of an inode that was allocated, with a usable chunk size. *)
Definition handle_ok (s : state) (f : SecAFSFile) : Prop :=
  0 < f_chunk_size f ∧ f_ino f ≤ seq_ino s.

(** What the caller must see to: new entries go into a directory, a file has fewer
    than [2^32] names, and a rename changes the name. *)
Definition allowed (s : state) (o : op) : Prop :=
  match o with
  | OMkdir p _ _ _ _ | OCreate p _ _ _ _ | OMknod p _ _ _ _ _ | OSymlink p _ _ _ _ =>
      dir_row (fs_inode (cur s)) p
  | OLink i p _ =>
      dir_row (fs_inode (cur s)) p ∧
      ∀ r, fs_inode (cur s) !! i = Some r → i_nlink r + 1 < 2 ^ 32
  | ORename p n np nn => dir_row (fs_inode (cur s)) np ∧ (p, n) ≠ (np, nn)
  | OPread f _ _ | OPwrite f _ _ | OTruncate f _ => handle_ok s f
  | _ => True
  end.

Inductive step : state → state → Prop :=
  | step_op o s r s' : allowed s o → run_op o s = (r, s') → step s s'.
End run.

Section preservation.
Context {E : Env} {HQ : Quiet E} {HL : LruLaws E} (fs : SecAFS).
Implicit Types s : state.

Lemma wp_void {A} (m : M A) s (P : state → Prop) :
  wp m s (λ _ s', P s') → wp (void m) s (λ _ s', P s').
Proof. intros H. apply wp_bind. eapply wp_mono; [|exact H]. by intros [] ?. Qed.

(** A result of a read-only call: the state has only counted. *)
Ltac reads Hinv :=
  try (eapply unchanged_inv; [exact Hinv|]; apply unchanged_ticks; st; apply Hinv || done).

Lemma keep_getattr ino s : sys_inv s → wp (Fs.getattr ino) s (λ _ s', sys_inv s').
Proof.
  intros Hinv. pose proof (no_txn_aborted s (si_txn _ Hinv)).
  unfold Fs.getattr. fs_steps. reads Hinv.
Qed.
Lemma keep_readlink ino s : sys_inv s → wp (Fs.readlink ino) s (λ _ s', sys_inv s').
Proof.
  intros Hinv. pose proof (no_txn_aborted s (si_txn _ Hinv)).
  unfold Fs.readlink. fs_steps.
  destruct (fs_inode _ !! ino); simpl; fs_steps; reads Hinv.
  destruct (negb _); fs_steps; reads Hinv. unfold select_target.
  destruct (fs_symlink _ !! ino); fs_steps; reads Hinv.
Qed.
Lemma keep_readdir ino s :
  sys_inv s → wp (Fs.readdir ino) s (λ _ s', sys_inv s') ∧
              wp (Fs.readdir_plus ino) s (λ _ s', sys_inv s').
Proof.
  intros Hinv. pose proof (no_txn_aborted s (si_txn _ Hinv)).
  unfold Fs.readdir, Fs.readdir_plus. split; fs_steps;
  destruct (fs_inode _ !! ino); simpl; fs_steps; reads Hinv;
  destruct (negb _); fs_steps; reads Hinv.
Qed.
Lemma keep_open ino fl s : sys_inv s → wp (Fs.open fs ino fl) s (λ _ s', sys_inv s').
Proof.
  intros Hinv. pose proof (no_txn_aborted s (si_txn _ Hinv)).
  unfold Fs.open. fs_steps. destruct (negb _); fs_steps; reads Hinv.
Qed.
Lemma keep_statfs s : sys_inv s → wp Fs.statfs s (λ _ s', sys_inv s').
Proof.
  intros Hinv. pose proof (no_txn_aborted s (si_txn _ Hinv)).
  unfold Fs.statfs. fs_steps. reads Hinv.
Qed.
Lemma keep_fstat f s : sys_inv s → wp (fstat f) s (λ _ s', sys_inv s').
Proof.
  intros Hinv. pose proof (no_txn_aborted s (si_txn _ Hinv)).
  unfold fstat. fs_steps. unfold select_stats, select_inode.
  destruct (fs_inode _ !! f_ino f); fs_steps; reads Hinv.
Qed.
Lemma keep_pread f o n s :
  0 < f_chunk_size f → sys_inv s → wp (pread f o n) s (λ _ s', sys_inv s').
Proof.
  intros Hcs Hinv. pose proof (no_txn_aborted s (si_txn _ Hinv)).
  unfold pread. fs_steps. destruct (_ <=? o); fs_steps; reads Hinv.
  destruct (Z.eqb_spec (f_chunk_size f) 0); [lia|]. fs_steps.
  destruct (negb _); fs_steps; reads Hinv.
Qed.
(** [lookup] caches the entry it found. *)
Lemma keep_lookup p n s : sys_inv s → wp (Fs.lookup p n) s (λ _ s', sys_inv s').
Proof.
  intros Hinv. pose proof (no_txn_aborted s (si_txn _ Hinv)).
  unfold Fs.lookup. fs_steps. destruct (_ <? _); fs_steps; reads Hinv.
  case_decide.
  - destruct (p =? ROOT_INO); fs_steps; reads Hinv.
  - fs_steps. st. destruct (child (cur s) p n) as [i|] eqn:Hc; fs_steps; reads Hinv.
    unfold select_stats, select_inode. st.
    destruct (fs_inode (cur s) !! i); fs_steps; reads Hinv.
    destruct Hinv as [Ht Hf Htr Hco]. split; st; try done; [|by apply coherent_put].
    apply (fresh_ids_step s); st; (done || eauto).
Qed.

(** An update of a row's columns outside a transaction. *)
Ltac alters Hinv :=
  eapply altered_inv; [exact Hinv|..];
  [ | |by split; st; rewrite ?(si_txn _ Hinv)|by st|by tables|by tables|by tables|by tables].

Lemma keep_chmod ino mode s : sys_inv s → wp (Fs.chmod ino mode) s (λ _ s', sys_inv s').
Proof.
  intros Hinv. pose proof (no_txn_aborted s (si_txn _ Hinv)).
  unfold Fs.chmod. fs_steps. st.
  destruct (fs_inode (cur s) !! ino) as [r0|] eqn:Hr; simpl; fs_steps; reads Hinv.
  set (g := λ r, set_ctime _ _).
  assert (Hg : is_dir (g r0) = is_dir r0).
  { unfold is_dir. simpl. by rewrite has_type_chmod, has_type_u32. }
  eapply (altered_inv (λ r, if Bool.eqb (is_dir (g r)) (is_dir r) then g r else r) ino);
    [exact Hinv|..];
    [ | |by split; st; rewrite ?(si_txn _ Hinv)|by st| |by tables|by tables|by tables].
  - intros r. destruct (Bool.eqb _ _) eqn:He; [by apply Bool.eqb_prop in He|done].
  - intros r. by case_match.
  - tables. apply map_eq. intros j. rewrite !lookup_alter. case_decide; [|done].
    subst. rewrite Hr. simpl. by rewrite Hg, Bool.eqb_reflx.
Qed.
Lemma keep_chown ino u g s : sys_inv s → wp (Fs.chown ino u g) s (λ _ s', sys_inv s').
Proof.
  intros Hinv. pose proof (no_txn_aborted s (si_txn _ Hinv)).
  unfold Fs.chown. destruct u as [u|], g as [g|]; try (fs_steps; by reads Hinv);
    fs_steps; destruct (negb _); fs_steps; reads Hinv; alters Hinv; done.
Qed.
Lemma wp_time_update tc set s (Q : outcome (option (inode → inode)) → state → Prop) :
  (∀ u s', s' = s ∨ s' = tock s → u = None ∨ (∃ t, u = Some (set t)) → Q (Ok u) s') →
  wp (Fs.time_update tc set) s Q.
Proof.
  intros H. unfold Fs.time_update, Fs.resolve_time.
  destruct tc; fs_steps; apply H; eauto.
Qed.
Lemma keep_utimens ino a m s : sys_inv s → wp (Fs.utimens ino a m) s (λ _ s', sys_inv s').
Proof.
  intros Hinv. pose proof (no_txn_aborted s (si_txn _ Hinv)).
  unfold Fs.utimens. fs_steps. destruct (negb _); fs_steps; reads Hinv.
  apply wp_time_update. intros ua s1 Hs1 Hua. fs_steps.
  apply wp_time_update. intros um s2 Hs2 Hum.
  assert (Hs : unchanged s s2 ∧ aborted s2 = false).
  { destruct Hs1 as [->| ->], Hs2 as [->| ->]; split; st; try done;
      (apply unchanged_ticks; st; apply Hinv || done). }
  destruct Hs as [Hun Hab2]. pose proof (unchanged_inv _ _ Hinv Hun) as Hinv2.
  destruct Hua as [->|[ta ->]], Hum as [->|[tm ->]]; fs_steps; try done;
    alters Hinv2; done.
Qed.

Lemma keep_pwrite f o b s :
  handle_ok s f → sys_inv s → wp (pwrite f o b) s (λ _ s', sys_inv s').
Proof.
  intros [Hcs Hh] Hinv. pose proof (si_txn _ Hinv) as Htx.
  pose proof (no_txn_cur s Htx) as Hcur.
  unfold pwrite. case_decide; [by fs_steps|]. fs_steps. apply wp_begin; [by st|]. fs_steps.
  unfold write_data_at_offset_with_conn. rewrite decide_False by done.
  eapply wp_mono; [|apply wp_write_loop_frame; [done|by st]].
  intros r s1 (-> & Hs & Ho). pose proof (db_step_aborted _ _ Hs) as Hab. st.
  rewrite <- Hcur in *. fs_steps. destruct Hs as (Ht1 & _ & Hca & Hsi & Hsd). st. simpl in Ht1.
  eapply wp_commit; [st; by rewrite Ht1|].
  destruct Ho as [Hoi Hod Hos Hodt].
  eapply altered_inv; [exact Hinv|..]; [| |by split; st|by st|by tables|by tables| |by tables];
    [done|done|].
  intros k Hk. tables. rewrite Hodt by lia. done.
Qed.
Lemma keep_truncate f n s :
  handle_ok s f → sys_inv s → wp (truncate f n) s (λ _ s', sys_inv s').
Proof.
  intros [Hcs Hh] Hinv. pose proof (si_txn _ Hinv) as Htx.
  pose proof (no_txn_cur s Htx) as Hcur. pose proof (no_txn_aborted s Htx).
  unfold truncate. fs_steps. apply wp_begin; [by st|]. wp_step. apply wp_attempt. wp_steps.
  eapply wp_mono; [|apply wp_truncate_chunks_frame; [done|by st]].
  intros r s1 (-> & Hs & Ho). pose proof (db_step_aborted _ _ Hs) as Hab. st.
  rewrite <- Hcur in *. fs_steps. destruct Hs as (Ht1 & _ & Hca & Hsi & Hsd). st. simpl in Ht1.
  eapply wp_finish_ok; [st; by rewrite Ht1|].
  destruct Ho as [Hoi Hod Hos Hodt].
  eapply altered_inv; [exact Hinv|..]; [| |by split; st|by st|by tables|by tables| |by tables];
    [done|done|].
  intros k Hk. tables. rewrite Hodt by lia. done.
Qed.

Lemma create_err_None s p n :
  sys_inv s → create_err (cur s) p n = None → can_create s p n.
Proof.
  unfold create_err, can_create. intros Hinv He.
  destruct (Z.ltb_spec MAX_NAME_LEN (str_len n)); [done|]. case_decide as Hc; [done|].
  split_and!; [apply Hinv..|done|]. by apply eq_None_not_Some.
Qed.
(** The four creating calls: refused without a change, or one new entry. *)
Lemma keep_create_rule {A} (m : M A) p n s :
  sys_inv s → dir_row (fs_inode (cur s)) p →
  (∀ e, create_err (cur s) p n = Some e →
    wp m s (λ r s', r = Err (EFs e) ∧ unchanged s s')) →
  (can_create s p n → wp m s (λ _ s', ∃ row up tgt,
    created p n row up tgt s s' ∧ (is_dir row = false → i_nlink row = 1) ∧
    (∀ r, is_dir (up r) = is_dir r))) →
  wp m s (λ _ s', sys_inv s').
Proof.
  intros Hinv Hdir Hbad Hgood. destruct (create_err (cur s) p n) as [e|] eqn:He.
  - eapply wp_mono; [|by apply (Hbad e)]. intros r s' [_ ?]. by eapply unchanged_inv.
  - apply create_err_None in He; [|done]. eapply wp_mono; [|by apply Hgood].
    intros r s' (row & up & tgt & Hcr & ? & ?). eapply created_inv; [done|done|..|done]; try done.
    apply He.
Qed.
Lemma keep_create p n s :
  sys_inv s → dir_row (fs_inode (cur s)) p →
  (∀ m u g, wp (Fs.mkdir p n m u g) s (λ _ s', sys_inv s')) ∧
  (∀ m u g, wp (Fs.create_file fs p n m u g) s (λ _ s', sys_inv s')) ∧
  (∀ m d u g, wp (Fs.mknod p n m d u g) s (λ _ s', sys_inv s')) ∧
  (∀ t u g, wp (Fs.symlink p n t u g) s (λ _ s', sys_inv s')).
Proof.
  intros Hinv Hdir.
  pose proof (λ e He, wp_create_refused fs p n e s (si_txn _ Hinv) He) as Hbad.
  split_and!; intros; (eapply keep_create_rule; [done|done|intros e He|intros Hcan]);
    try destruct (Hbad e He) as (H1 & H2 & H3 & H4).
  - apply H1.
  - eapply wp_mono; [|by apply wp_mkdir]. intros r s' (t & _ & Hcr).
    do 3 eexists. split; [exact Hcr|]. split; [|done]. unfold is_dir. simpl.
    by rewrite has_type_dir_perm.
  - apply H2.
  - eapply wp_mono; [|by apply wp_create_file]. intros r s' (t & _ & Hcr). by eauto 10.
  - apply H3.
  - eapply wp_mono; [|by apply wp_mknod]. intros r s' (t & _ & Hcr). by eauto 10.
  - apply H4.
  - eapply wp_mono; [|by apply wp_symlink]. intros r s' (t' & _ & Hcr). by eauto 10.
Qed.

Lemma keep_unlink p n s : sys_inv s → wp (Fs.unlink p n) s (λ _ s', sys_inv s').
Proof.
  intros Hinv. pose proof (si_txn _ Hinv) as Htx.
  destruct (unlink_err (cur s) p n) as [e|] eqn:He.
  { eapply wp_mono; [|by apply wp_unlink_refused]. intros r s' [_ ?]. by eapply unchanged_inv. }
  unfold unlink_err in He. destruct (Z.ltb_spec MAX_NAME_LEN (str_len n)); [done|].
  destruct (child (cur s) p n) as [ino|] eqn:Hc; [|done].
  assert (Hr : ∃ r, fs_inode (cur s) !! ino = Some r).
  { apply fmap_Some in Hc as (e & Hk & ->). by eapply ti_target; [apply Hinv|]. }
  destruct Hr as [r0 Hr]. rewrite Hr in He. destruct (has_type _ _) eqn:Hd; [done|].
  eapply wp_mono; [|by apply (wp_unlink p n ino); [..|intros r' Hr'; simplify_eq]].
  intros r s' (-> & t & d & Hp & ? & ? & ? & ? & ? & ?).
  by apply (unlinked_inv (λ r, set_ctime t (add_nlink (-1) r))
    (λ r, set_ctime t (set_mtime t r)) p n ino r0 d s).
Qed.
Lemma keep_rmdir p n s : sys_inv s → wp (Fs.rmdir p n) s (λ _ s', sys_inv s').
Proof.
  intros Hinv. pose proof (si_txn _ Hinv) as Htx.
  destruct (rmdir_err (cur s) p n) as [e|] eqn:He.
  { eapply wp_mono; [|by apply wp_rmdir_refused]. intros r s' [_ ?]. by eapply unchanged_inv. }
  unfold rmdir_err in He. destruct (Z.ltb_spec MAX_NAME_LEN (str_len n)); [done|].
  destruct (child (cur s) p n) as [ino|] eqn:Hc; [|done].
  destruct (Z.eqb_spec ino ROOT_INO); [done|].
  destruct (fs_inode (cur s) !! ino) as [r0|] eqn:Hr; [|done].
  destruct (has_type _ _) eqn:Hd; [|done]. simpl in He. case_decide; [|done].
  eapply wp_mono; [|by apply (wp_rmdir p n ino r0)].
  intros r s' (-> & t & m & -> & ? & ? & ? & ? & ? & ?).
  by apply (rmdired_inv (add_nlink (-1))
    (λ r, set_mtime t (set_ctime t (add_nlink (-1) r))) p n ino s).
Qed.
Lemma keep_link ino p n s :
  sys_inv s → dir_row (fs_inode (cur s)) p →
  (∀ r, fs_inode (cur s) !! ino = Some r → i_nlink r + 1 < 2 ^ 32) →
  wp (Fs.link ino p n) s (λ _ s', sys_inv s').
Proof.
  intros Hinv Hdir Hb. pose proof (si_txn _ Hinv) as Htx.
  destruct (link_err (cur s) ino p n) as [e|] eqn:He.
  { eapply wp_mono; [|by apply wp_link_refused]. intros r s' [_ ?]. by eapply unchanged_inv. }
  eapply wp_mono; [|apply wp_link; [done|apply Hinv|done]].
  unfold link_err in He. destruct (_ <? _); [done|].
  destruct (fs_inode (cur s) !! ino) as [r0|] eqn:Hr; [|done].
  destruct (has_type _ _) eqn:Hd; [done|]. case_decide as Hc; [done|].
  apply eq_None_not_Some in Hc.
  intros r s' (t & r' & -> & _ & ? & ? & ? & ? & ? & ? & ? & ?).
  by apply (linked_inv (λ r, set_ctime t (add_nlink 1 r))
    (λ r, set_mtime t (set_ctime t r)) ino r0 p n s); auto.
Qed.
Lemma keep_rename p n np nn s :
  sys_inv s → dir_row (fs_inode (cur s)) np → (p, n) ≠ (np, nn) →
  wp (Fs.rename p n np nn) s (λ _ s', sys_inv s').
Proof.
  intros Hinv Hdir Hne. pose proof (si_txn _ Hinv) as Htx.
  eapply wp_mono; [|by apply wp_rename]. intros r s' Hr.
  destruct (rename_err (cur s) p n np nn) as [e|] eqn:He.
  { destruct Hr as [_ ?]. by eapply unchanged_inv. }
  destruct Hr as (-> & Hni & src & rs & d1 & Hc & Hrs & Hrep & Hmv & Hca).
  eapply renamed_inv; try done. unfold rename_err in He. rewrite Hc, Hrs in He.
  destruct (_ <? _); [done|]. by destruct (src =? ROOT_INO).
Qed.

Lemma keep_op o s : sys_inv s → allowed s o → wp (run_op fs o) s (λ _ s', sys_inv s').
Proof.
  intros Hinv. destruct o; simpl; intros Hal; try apply wp_void.
  - by apply keep_lookup.
  - by apply keep_getattr.
  - by apply keep_readlink.
  - destruct (keep_readdir ino s Hinv) as [H _]. apply H.
  - destruct (keep_readdir ino s Hinv) as [_ H]. apply H.
  - by apply keep_chmod.
  - by apply keep_chown.
  - by apply keep_utimens.
  - by apply keep_open.
  - destruct (keep_create parent name s Hinv Hal) as (H & _). apply H.
  - destruct (keep_create parent name s Hinv Hal) as (_ & H & _). apply H.
  - destruct (keep_create parent name s Hinv Hal) as (_ & _ & H & _). apply H.
  - destruct (keep_create parent name s Hinv Hal) as (_ & _ & _ & H). apply H.
  - by apply keep_unlink.
  - by apply keep_rmdir.
  - destruct Hal. by apply keep_link.
  - destruct Hal. by apply keep_rename.
  - by apply keep_statfs.
  - destruct Hal. by apply keep_pread.
  - by apply keep_pwrite.
  - by apply keep_truncate.
  - by fs_steps.
  - by apply keep_fstat.
Qed.
Lemma keep_steps s s' : rtc (step fs) s s' → sys_inv s → sys_inv s'.
Proof.
  induction 1 as [|s s1 s2 Hstep _ IH]; [done|]. intros Hinv. apply IH.
  destruct Hstep as [o s r s1 Hal Hrun].
  exact (wp_elim _ _ _ _ _ Hrun (keep_op o s Hinv Hal)).
Qed.
End preservation.
