(* ===== verification/DbInv.v ===== *)
(** * Invariants of the database, in every environment

    [holds P m]: the operation [m] keeps [P] of the committed database and of an open
    transaction's copy, whatever call fails and wherever.  A predicate every row write of the
    file system keeps ([RowInv]) is kept by every operation by inode and by path. *)

From S2P Require Import Prelude Types Tables Monad Sql File Paths SecafsInode SecafsPath Setup.
From S2P Require Import Wp InodeSpec TreeInv SysInv Steps.

Section holds.
Context {E : Env} (P : db → Prop).
Implicit Types s : state.

Definition held s : Prop := P (committed s) ∧ ∀ d ab, txn s = Some (d, ab) → P d.
Definition holds {A} (m : M A) : Prop := ∀ s, held s → held (m s).2.

Lemma held_cur s : held s → P (cur s).
Proof. intros [Hc Ht]. unfold cur. destruct (txn s) as [[d ab]|]; [by eapply Ht|done]. Qed.
Lemma held_idle s : txn s = None → P (cur s) → held s.
Proof. intros Ht Hp. unfold cur in Hp. rewrite Ht in Hp. split; [done|]. by rewrite Ht. Qed.
Lemma held_set_cur d s : held s → P d → held (set_cur d s).
Proof.
  intros [Hc Ht] Hd. unfold set_cur, held.
  destruct (txn s) as [[d' ab]|]; simpl; split; try done. by intros ? ? [= <- <-].
Qed.
Lemma held_abort s : held s → held (abort s).
Proof.
  intros [Hc Ht]. unfold abort. destruct (txn s) as [[d ab]|] eqn:Hs; [|by split; rewrite ?Hs].
  split; [done|]. simpl. intros ? ? [= <- <-]. by eapply Ht.
Qed.

Lemma holds_ret {A} (a : A) : holds (mret a).
Proof. by intros s. Qed.
Lemma holds_throw {A} e : holds (throw (A := A) e).
Proof. by intros s. Qed.
Lemma holds_panic {A} : holds (panic (A := A)).
Proof. by intros s. Qed.
Lemma holds_bind {A B} (m : M A) (k : A → M B) : holds m → (∀ a, holds (k a)) → holds (m ≫= k).
Proof.
  intros Hm Hk s Hs. specialize (Hm s Hs). unfold mbind, M_bind.
  destruct (m s) as [[a|e|] s']; simpl in *; [by apply Hk|done..].
Qed.
Lemma holds_void {A} (m : M A) : holds (void m) → holds m.
Proof.
  intros Hm s Hs. specialize (Hm s Hs). unfold void, mbind, M_bind in Hm. by destruct (m s) as [[]].
Qed.
Lemma holds_attempt {A} (m : M A) : holds m → holds (attempt m).
Proof. intros Hm s Hs. specialize (Hm s Hs). unfold attempt. by destruct (m s) as [[]]. Qed.
Lemma holds_stmt {A} (body : state → option (A * state)) :
  (∀ s a s', held s → body s = Some (a, s') → held s') → holds (stmt body).
Proof.
  intros Hb s Hs. unfold stmt. destruct (env_fault _ || aborted _); [by apply (held_abort (tick s))|].
  destruct (body (tick s)) as [[a s']|] eqn:Hbd; [|by apply (held_abort (tick s))].
  simpl. by apply (Hb (tick s) a s').
Qed.
Lemma holds_query {A} (f : db → A) : holds (query f).
Proof. apply holds_stmt. by intros s a s' Hs [= <- <-]. Qed.
Lemma holds_execute f : (∀ d d', P d → f d = Some d' → P d') → holds (execute f).
Proof.
  intros Hf. apply holds_stmt. intros s a s' Hs Hb. destruct (f (cur s)) as [d|] eqn:Hd; simplify_eq/=.
  apply held_set_cur; [done|]. eapply Hf; [by apply held_cur|done].
Qed.
Lemma holds_execute_ f : (∀ d, P d → P (f d)) → holds (execute_ f).
Proof. intros Hf. apply holds_execute. intros d d' Hd [= <-]. auto. Qed.
Lemma holds_execute_now f : (∀ t d d', P d → f t d = Some d' → P d') → holds (execute_now f).
Proof.
  intros Hf. apply holds_stmt. intros s a s' Hs Hb.
  destruct (f _ (cur s)) as [d|] eqn:Hd; simplify_eq/=.
  apply held_set_cur; [done|]. eapply Hf; [by apply held_cur|done].
Qed.
Lemma holds_get_connection : holds get_connection.
Proof. intros s Hs. unfold get_connection. by destruct (env_fault _). Qed.
Lemma holds_bind_error {A} : holds (bind_error (A := A)).
Proof.
  intros s Hs. unfold bind_error. destruct (_ || _); [|done]. by apply (held_abort (tick s)).
Qed.
Lemma holds_begin : holds begin_txn.
Proof.
  intros s Hs. unfold begin_txn. destruct (_ || _); [by apply (held_abort (tick s))|].
  destruct (txn s) eqn:Ht; [done|]. destruct Hs as [Hc _]. split; [done|].
  simpl. by intros ? ? [= <- <-].
Qed.
Lemma holds_rollback : holds rollback_txn.
Proof. intros s [Hc Ht]. unfold rollback_txn. by destruct (env_fault _); split. Qed.
Lemma holds_now : holds now.
Proof. intros s Hs. unfold now. by destruct (env_clock _). Qed.
Lemma holds_now_unwrap : holds now_unwrap.
Proof. intros s Hs. unfold now_unwrap. by destruct (env_clock _). Qed.
Lemma holds_now_or_default : holds now_or_default.
Proof. by intros s Hs. Qed.
Lemma holds_cache_get p n : holds (cache_get p n).
Proof. intros s Hs. unfold cache_get. by destruct (lru_get _ _). Qed.
Lemma holds_cache_insert p n i : holds (cache_insert p n i).
Proof. by intros s Hs. Qed.
Lemma holds_cache_remove p n : holds (cache_remove p n).
Proof. by intros s Hs. Qed.
Lemma holds_for_each {A} (l : list A) (body : A → M unit) :
  (∀ x, holds (body x)) → holds (for_each l body).
Proof.
  intros Hb. induction l as [|x l IH]; simpl; [apply holds_ret|by apply holds_bind].
Qed.
End holds.

(** ** Invariants of every row write *)

Class RowInv (P : db → Prop) := {
  row_end_local d : P d → P (end_local d);
  row_insert_inode ino r d d' : P d → insert_inode_row ino r d = Some d' → P d';
  row_update_inode f ino d : P d → P (update_inode_row f ino d);
  row_delete_inode ino d : P d → P (delete_inode_row ino d);
  row_insert_dentry id n p i d d' : P d → insert_dentry_row id n p i d = Some d' → P d';
  row_delete_dentry p n d : P d → P (delete_dentry_row p n d);
  row_move_dentry p n np nn d d' : P d → move_dentry_row p n np nn d = Some d' → P d';
  row_insert_data k b d d' : P d → insert_data_row k b d = Some d' → P d';
  row_update_data k b d : P d → P (update_data_row k b d);
  row_delete_data k d : P d → P (delete_data_row k d);
  row_upsert_data k b d : P d → P (upsert_data_row k b d);
  row_delete_data_where (Q : Z * Z → bool) d : P d → P (delete_data_where Q d);
  row_insert_symlink ino t d d' : P d → insert_symlink_row ino t d = Some d' → P d';
  row_delete_symlink ino d : P d → P (delete_symlink_row ino d);
}.

Section rows.
Context {E : Env} (P : db → Prop) `{!RowInv P}.

Lemma holds_insert_inode r : holds P (insert_inode r).
Proof.
  apply holds_stmt. intros s a s' Hs Hb. simpl in Hb.
  destruct (insert_inode_row _ _ _) eqn:Hi; simplify_eq/=.
  apply held_set_cur; [done|]. eapply row_insert_inode; [by apply (held_cur P s)|done].
Qed.
Lemma holds_insert_dentry n p i : holds P (insert_dentry n p i).
Proof.
  apply holds_stmt. intros s a s' Hs Hb. simpl in Hb.
  destruct (insert_dentry_row _ _ _ _ _) eqn:Hi; simplify_eq/=.
  apply held_set_cur; [done|]. eapply row_insert_dentry; [by apply (held_cur P s)|done].
Qed.
Lemma holds_commit : holds P commit_txn.
Proof.
  intros s [Hc Ht]. unfold commit_txn. destruct (env_fault _); [by split|].
  destruct (txn s) as [[d []]|] eqn:Hs; simpl; try (by split).
  split; [|done]. simpl. apply row_end_local. by eapply Ht.
Qed.
Lemma holds_finish {A} (r : outcome A) : holds P (finish r).
Proof.
  destruct r; simpl; [| |apply holds_panic].
  - apply holds_bind; [apply holds_commit|]. intros. apply holds_ret.
  - apply holds_bind; [apply holds_attempt, holds_rollback|]. intros. apply holds_throw.
Qed.
End rows.

Create HintDb secafs_hold.
#[export] Hint Resolve holds_ret holds_throw holds_panic holds_query holds_insert_inode
  holds_insert_dentry holds_get_connection holds_bind_error holds_begin holds_commit
  holds_rollback holds_finish holds_now holds_now_unwrap holds_now_or_default holds_cache_get
  holds_cache_insert holds_cache_remove : secafs_hold.
(** Close a goal on a row write. *)
Ltac row_write :=
  first
    [ assumption
    | match goal with
      | H : _ = Some ?d |- _ ?d => first
          [ refine (row_insert_inode _ _ _ _ _ H) | refine (row_insert_dentry _ _ _ _ _ _ _ H)
          | refine (row_move_dentry _ _ _ _ _ _ _ H) | refine (row_insert_data _ _ _ _ _ H)
          | refine (row_insert_symlink _ _ _ _ _ H) ]
      end
    | apply row_update_inode | apply row_delete_inode | apply row_delete_dentry
    | apply row_update_data | apply row_delete_data | apply row_upsert_data | apply row_delete_data_where
    | apply row_delete_symlink ].
(** Close a goal [holds P m] by the structure of [m]. *)
Ltac holds_step :=
  lazymatch goal with
  | |- ∀ _, _ => intros
  | |- holds _ (_ ≫= _) => apply holds_bind
  | |- holds _ (execute_ _) => apply holds_execute_
  | |- holds _ (execute _) => apply holds_execute
  | |- holds _ (execute_now _) => apply holds_execute_now
  | |- holds _ (attempt _) => apply holds_attempt
  | |- holds _ (for_each _ _) => apply holds_for_each
  | |- _ => first
      [ solve [eauto 3 with secafs_hold]
      | solve [repeat row_write]
      | progress unfold fail, ok_or, ok_or_internal, when, returned_ino, lookup_child,
          get_link_count, getattr_with_conn, select_mode_opt, inode_exists, require_empty,
          delete_file_rows, resolve_path, Fs.check_name, Fs.check_replace, Fs.move_entry, void
      | case_match ]
  end.
Ltac holding := repeat holds_step.

(** ** The operations of the file system *)

Section ops.
Context {E : Env} (P : db → Prop) `{!RowInv P} (fs : SecAFS).
Abbreviation holds := (holds P).

Lemma holds_write_loop f fuel o b w : holds (write_loop f fuel o b w).
Proof.
  revert w. induction fuel as [|fuel IH]; intros w; simpl; unfold write_chunk; holding.
Qed.
Lemma holds_truncate_chunks f c n : holds (truncate_chunks f c n).
Proof. unfold truncate_chunks. holding. Qed.
Lemma holds_resolve_components cs i : holds (resolve_components cs i).
Proof. revert i. induction cs as [|c cs IH]; intros i; simpl; holding. Qed.
Lemma holds_resolve p : holds (resolve_path_with_conn p).
Proof. unfold resolve_path_with_conn. case_decide; [holding|apply holds_resolve_components]. Qed.
#[local] Hint Resolve holds_write_loop holds_truncate_chunks holds_resolve_components
  holds_resolve : secafs_hold.
Lemma holds_stat_loop e fuel p : holds (Path.stat_loop e fuel p).
Proof.
  revert p. induction fuel as [|fuel IH]; intros p; simpl; unfold Path.readlink_with_conn; holding.
Qed.

Lemma holds_run_op o : holds (run_op fs o).
Proof.
  destruct o; cbn [run_op]; unfold Fs.lookup, Fs.getattr, Fs.readlink, Fs.readdir, Fs.readdir_plus,
    Fs.chmod, Fs.chown, Fs.utimens, Fs.resolve_time, Fs.time_update, Fs.open, Fs.mkdir, Fs.create_file, Fs.mknod,
    Fs.symlink, Fs.unlink, Fs.rmdir, Fs.link, Fs.rename, Fs.replace_destination,
    Fs.check_replace, Fs.move_entry, Fs.statfs, pread, pwrite, write_data_at_offset_with_conn,
    truncate, fsync, fstat; holding.
Qed.

(** *** Operations by path *)

#[local] Hint Resolve holds_stat_loop : secafs_hold.
Lemma holds_resolve_parent cs : holds (resolve_parent cs).
Proof. unfold resolve_parent. holding. Qed.
Lemma holds_stat_with_conn p : holds (Path.stat_with_conn p).
Proof. unfold Path.stat_with_conn. holding. Qed.
#[local] Hint Resolve holds_resolve_parent holds_stat_with_conn : secafs_hold.
Lemma holds_path_pwrite p o b : holds (Path.pwrite fs p o b).
Proof.
  unfold Path.pwrite, Path.pwrite_body, Path.get_or_create, Path.pwrite_chunk. holding.
Qed.
Lemma holds_path_truncate p n : holds (Path.truncate fs p n).
Proof.
  unfold Path.truncate, Path.truncate_body, Path.truncate_shrink, Path.truncate_extend,
    Path.with_chunk. holding.
Qed.
Lemma holds_path_rename p q : holds (Path.rename p q).
Proof.
  unfold Path.rename, Path.replace_destination. holding.
Qed.

(** *** Calls of a client *)

(** A call on the path-based interface. *)
Inductive path_op :=
  | PLstat (path : string)
  | PStat (path : string)
  | PReadlink (path : string)
  | PMkdir (path : string) (uid gid : Z)
  | PMknod (path : string) (mode rdev uid gid : Z)
  | PCreate (path : string) (mode uid gid : Z)
  | PReadFile (path : string)
  | PPread (path : string) (offset size : Z)
  | PPwrite (path : string) (offset : Z) (data : list byte)
  | PTruncate (path : string) (size : Z)
  | PReaddir (ino : Z)
  | PReaddirPlus (ino : Z)
  | PSymlink (target linkpath : string) (uid gid : Z)
  | PLink (oldpath newpath : string)
  | PRemove (path : string)
  | PChown (ino : Z) (uid gid : option Z)
  | PRename (from to : string)
  | PFsync (path : string)
  | POpen (path : string).
Definition run_path_op (o : path_op) : M unit :=
  match o with
  | PLstat p => void (Path.lstat p)
  | PStat p => void (Path.stat p)
  | PReadlink p => void (Path.readlink p)
  | PMkdir p u g => Path.mkdir p u g
  | PMknod p m d u g => Path.mknod p m d u g
  | PCreate p m u g => void (Path.create_file fs p m u g)
  | PReadFile p => void (Path.read_file p)
  | PPread p o n => void (Path.pread fs p o n)
  | PPwrite p o b => Path.pwrite fs p o b
  | PTruncate p n => Path.truncate fs p n
  | PReaddir i => void (Path.readdir i)
  | PReaddirPlus i => void (Path.readdir_plus i)
  | PSymlink t p u g => Path.symlink t p u g
  | PLink p q => Path.link p q
  | PRemove p => Path.remove p
  | PChown i u g => Path.chown i u g
  | PRename p q => Path.rename p q
  | PFsync p => Path.fsync p
  | POpen p => void (Path.open fs p)
  end.
#[local] Hint Resolve holds_path_pwrite holds_path_truncate holds_path_rename :
  secafs_hold.

Lemma holds_run_path_op o : holds (run_path_op o).
Proof.
  destruct o; cbn [run_path_op]; unfold Path.lstat, Path.stat, Path.readlink,
    Path.readlink_with_conn, Path.mkdir, Path.mknod, Path.create_file, Path.read_file, Path.pread,
    Path.readdir, Path.readdir_plus, Path.symlink, Path.link, Path.remove, Path.chown,
    Path.fsync, Path.open; holding.
Qed.
End ops.
