(* ===== verification/SetupSpec.v ===== *)
(** * Opening a file system establishes the invariant

    [from_pool] on an empty database seeds the root directory, on an existing one it
    keeps every row; either way the file system starts in a state that satisfies
    [sys_inv] with an empty cache. *)

From S2P Require Import Prelude Types Tables Monad Wp Instances Sql File SecafsInode InodeSpec.
From S2P Require Import TreeInv SysInv Samples Setup.

(** The chunk size an opened file system uses. *)
Definition configured_chunk_size (d : db) : Z :=
  match fs_config d !! "chunk_size" with
  | Some v => default DEFAULT_CHUNK_SIZE (parse_usize v)
  | None => DEFAULT_CHUNK_SIZE
  end.

(** The root row [from_pool] leaves. *)
Definition root_row {E : Env} (t : Z * Z) (old : option inode) : inode :=
  match old with
  | Some r => set_i_gid env_gid (set_i_uid env_uid r)
  | None => new_inode DEFAULT_DIR_MODE 2 env_uid env_gid 0 0 t
  end.

(** Rows of the side tables belong to inodes. *)
Definition side_rows (d : db) : Prop :=
  (∀ i, is_Some (fs_symlink d !! i) → is_Some (fs_inode d !! i)) ∧
  (∀ k, is_Some (fs_data d !! k) → is_Some (fs_inode d !! k.1)).

Lemma fold_max_le (l : list (Z * inode)) k r :
  (k, r) ∈ l → k ≤ foldr (λ kv acc, Z.max kv.1 acc) 1 l.
Proof.
  induction l as [|[k' r'] l IH]; [by intros ?%not_elem_of_nil|].
  intros [?|Hin]%elem_of_cons; simpl; [simplify_eq; lia|]. specialize (IH Hin). lia.
Qed.
Lemma max_ino_le d i r : fs_inode d !! i = Some r → i ≤ max_ino d.
Proof. intros Hr. apply (fold_max_le _ i r). by apply elem_of_map_to_list. Qed.

Section setup.
Context {E : Env} {HQ : Quiet E}.
Implicit Types s : state.

Lemma wp_for_each_ddl (l : list nat) (m : M unit) s (Q : outcome unit → state → Prop) :
  (∀ s0 (Q0 : outcome unit → state → Prop), aborted s0 = false →
    (∀ s', db_step s0 s' → cur s' = cur s0 → Q0 (Ok tt) s') → wp m s0 Q0) →
  aborted s = false →
  (∀ s', db_step s s' → cur s' = cur s → Q (Ok tt) s') → wp (for_each l (λ _, m)) s Q.
Proof.
  intros Hm. revert s. induction l as [|x l IH]; intros s Hab HQ'; simpl.
  { apply wp_ret, HQ'; auto. }
  apply wp_bind, Hm; [done|]. intros s1 Hs1 Hc1. apply IH.
  - by rewrite (db_step_aborted _ _ Hs1).
  - intros s2 Hs2 Hc2. apply HQ'; [by eapply db_step_trans|congruence].
Qed.
Lemma wp_ddl s (Q : outcome unit → state → Prop) :
  aborted s = false → (∀ s', db_step s s' → cur s' = cur s → Q (Ok tt) s') → wp ddl s Q.
Proof. intros Hab HQ'. unfold ddl. wp_steps. apply HQ'; [auto|by st]. Qed.
Lemma wp_ddls n s (Q : outcome unit → state → Prop) :
  aborted s = false → (∀ s', db_step s s' → cur s' = cur s → Q (Ok tt) s') → wp (ddls n) s Q.
Proof. apply wp_for_each_ddl, wp_ddl. Qed.
Lemma wp_try_ddls n s (Q : outcome unit → state → Prop) :
  aborted s = false → (∀ s', db_step s s' → cur s' = cur s → Q (Ok tt) s') →
  wp (for_each (seq 0 n) (λ _, attempt ddl ≫= λ _, mret tt)) s Q.
Proof.
  apply wp_for_each_ddl. intros s0 Q0 Hab HQ'. apply wp_bind, wp_attempt, wp_ddl; [done|].
  intros s' ? ?. apply wp_ret. by apply HQ'.
Qed.

(** The schema statements leave every row alone. *)
Lemma wp_schema_ddl s (Q : outcome unit → state → Prop) :
  aborted s = false →
  (∀ s', db_step s s' → cur s' = preset_gucs (cur s) → Q (Ok tt) s') → wp schema_ddl s Q.
Proof.
  intros Hab HQ'. unfold schema_ddl.
  assert (Hnext : ∀ s1 s2, db_step s1 s2 → aborted s1 = false → aborted s2 = false)
    by (intros s1 s2 H1 <-; by apply db_step_aborted).
  wp_step. wp_step. set (s0 := set_cur _ _).
  assert (H0 : db_step s s0) by (unfold s0; auto). assert (Hc0 : cur s0 = preset_gucs (cur s))
    by (unfold s0; by st). clearbody s0.
  wp_step. apply wp_ddls; [by eapply Hnext|]. intros s1 H1 C1.
  wp_step. apply wp_try_ddls; [by eauto|]. intros s2 H2 C2.
  wp_step. apply wp_ddls; [by eauto|]. intros s3 H3 C3.
  wp_step. apply wp_ddls; [by eauto 10|]. intros s4 H4 C4.
  apply wp_ddls; [by eauto 10|]. intros s5 H5 C5.
  apply HQ'; [by do 5 (eapply db_step_trans; [eassumption|])|congruence].
Qed.

(** The configuration rows: a missing chunk size gets its default. *)
Definition seeded_config (m : gmap string string) : gmap string string :=
  <["schema_version":=SECAFS_SCHEMA_VERSION]>
    (match m !! "chunk_size" with Some _ => m | None => <["chunk_size":="4096"]> m end).
Lemma seeded_chunk_size d :
  configured_chunk_size (set_fs_config (seeded_config (fs_config d)) d) =
  configured_chunk_size d.
Proof.
  unfold configured_chunk_size, seeded_config. simpl. rewrite lookup_insert_ne by done.
  destruct (fs_config d !! "chunk_size") eqn:Hc; rewrite ?Hc; [done|].
  by rewrite lookup_insert_eq.
Qed.

Lemma wp_seed_config s (Q : outcome unit → state → Prop) :
  aborted s = false →
  (∀ s', db_step s s' → cur s' = set_fs_config (seeded_config (fs_config (cur s))) (cur s) →
    Q (Ok tt) s') →
  wp seed_config s Q.
Proof.
  intros Hab HQ'. unfold seed_config, when, select_config. wp_steps.
  unfold seeded_config, config_upsert in *.
  destruct (fs_config (cur s) !! "chunk_size") as [v|] eqn:Hc; simpl; wp_steps.
  - apply HQ'; st; by auto 10.
  - eapply wp_execute; [by st|st; unfold config_insert; by rewrite Hc|]. wp_steps.
    apply HQ'; st; by auto 10.
Qed.

Lemma wp_seed_root s (Q : outcome unit → state → Prop) :
  aborted s = false →
  (∀ s' t, db_step s s' →
    fs_inode (cur s') = <[ROOT_INO:=root_row t (fs_inode (cur s) !! ROOT_INO)]> (fs_inode (cur s)) →
    fs_dentry (cur s') = fs_dentry (cur s) → fs_data (cur s') = fs_data (cur s) →
    fs_symlink (cur s') = fs_symlink (cur s) → fs_config (cur s') = fs_config (cur s) →
    Q (Ok tt) s') →
  wp seed_root s Q.
Proof.
  intros Hab HQ'. unfold seed_root. wp_steps. unfold select_ino, select_inode.
  destruct (fs_inode (cur s) !! ROOT_INO) as [r|] eqn:Hr; wp_steps.
  - apply (HQ' _ (0, 0)); tables; try by auto.
    + simpl. apply map_eq. intros j. rewrite lookup_alter, lookup_insert.
      case_decide; [|done]. subst. by rewrite Hr.
    + unfold update_inode_row. by rewrite Hr.
  - eapply wp_execute; [by st|st; unfold insert_inode_row; by rewrite Hr|].
    eapply (HQ' _ (_, _)); st; by auto 10.
Qed.

Lemma wp_read_chunk_size s (Q : outcome Z → state → Prop) :
  aborted s = false → Q (Ok (configured_chunk_size (cur s))) (tick s) → wp read_chunk_size s Q.
Proof.
  intros Hab HQ'. unfold read_chunk_size. wp_steps. unfold select_config.
  unfold configured_chunk_size in HQ'. by destruct (fs_config (cur s) !! "chunk_size").
Qed.

Lemma wp_new_dentry_cache s (Q : outcome unit → state → Prop) :
  Q (Ok tt) (set_cache (lru_new DENTRY_CACHE_MAX_SIZE) s) → wp new_dentry_cache s Q.
Proof. done. Qed.
Lemma configured_ext d d' :
  fs_config d' = fs_config d → configured_chunk_size d' = configured_chunk_size d.
Proof. unfold configured_chunk_size. by intros ->. Qed.

(** The whole of [from_pool], on any database. *)
Lemma wp_from_pool s :
  txn s = None →
  wp from_pool s (λ r s', ∃ t,
    r = Ok (mkSecAFS (configured_chunk_size (cur s))) ∧ txn s' = None ∧
    fs_inode (cur s') = <[ROOT_INO:=root_row t (fs_inode (cur s) !! ROOT_INO)]> (fs_inode (cur s)) ∧
    fs_dentry (cur s') = fs_dentry (cur s) ∧ fs_data (cur s') = fs_data (cur s) ∧
    fs_symlink (cur s') = fs_symlink (cur s) ∧
    seq_ino s' = max_ino (cur s') ∧ seq_dentry s' = seq_dentry s ∧
    cache s' = lru_new DENTRY_CACHE_MAX_SIZE).
Proof.
  intros Htx. pose proof (no_txn_aborted s Htx) as Hab. unfold from_pool, initialize_schema.
  wp_steps. apply wp_schema_ddl; [by st|]. intros s1 H1 C1. st.
  pose proof (db_step_aborted _ _ H1) as Hab1. st. rewrite Hab in Hab1.
  wp_step. apply wp_seed_config; [done|]. intros s2 H2 C2.
  pose proof (db_step_aborted _ _ H2) as Hab2. rewrite Hab1 in Hab2.
  wp_step. apply wp_seed_root; [done|]. intros s3 t H3 Hi Hd Hda Hs Hcf.
  pose proof (db_step_aborted _ _ H3) as Hab3. rewrite Hab2 in Hab3.
  eapply wp_stmt; [done|done|]. cbv iota. wp_step. apply wp_read_chunk_size; [by st|].
  wp_step. apply wp_new_dentry_cache. wp_steps.
  destruct (db_step_trans _ _ _ H1 (db_step_trans _ _ _ H2 H3)) as (Ht & _ & _ & _ & Hsd).
  st. rewrite Htx in Ht. exists t. rewrite C2, C1 in *. split_and!; try done.
  do 2 f_equal. rewrite (configured_ext _ _ Hcf). apply (seeded_chunk_size (preset_gucs (cur s))).
Qed.


(** From [from_pool]'s table equations to the invariant. *)
Lemma opened_inv `{!LruLaws E} s s' t :
  fs_inode (cur s') = <[ROOT_INO:=root_row t (fs_inode (cur s) !! ROOT_INO)]> (fs_inode (cur s)) →
  fs_dentry (cur s') = fs_dentry (cur s) → fs_data (cur s') = fs_data (cur s) →
  fs_symlink (cur s') = fs_symlink (cur s) → txn s' = None →
  seq_ino s' = max_ino (cur s') → seq_dentry s' = seq_dentry s →
  cache s' = lru_new DENTRY_CACHE_MAX_SIZE →
  tree_inv (fs_inode (cur s')) (fs_dentry (cur s')) → side_rows (cur s) →
  (∀ k e, fs_dentry (cur s) !! k = Some e → d_id e ≤ seq_dentry s) →
  sys_inv s'.
Proof.
  intros Hi Hd Hda Hsy Htx Hsi Hsd Hca Ht [Hside1 Hside2] Hids.
  assert (Hgrow : ∀ i, is_Some (fs_inode (cur s) !! i) → i ≤ seq_ino s').
  { intros i [r Hr]. rewrite Hsi. destruct (decide (ROOT_INO = i)) as [<-|Hne].
    - eapply (max_ino_le _ ROOT_INO). rewrite Hi. apply lookup_insert_eq.
    - eapply (max_ino_le _ i r). rewrite Hi. by rewrite lookup_insert_ne. }
  split; [done| |done|].
  - split.
    + intros i Hlt. destruct (fs_inode (cur s') !! i) as [r|] eqn:Hr; [|done].
      apply max_ino_le in Hr. lia.
    + intros i Hlt. rewrite Hsy. apply eq_None_not_Some. intros Hs%Hside1%Hgrow. lia.
    + intros k Hlt. rewrite Hda. apply eq_None_not_Some. intros Hs%Hside2%Hgrow. lia.
    + intros k e Hk. apply (ti_target _ _ Ht) in Hk as [r Hr].
      apply max_ino_le in Hr. lia.
    + intros k e. rewrite Hd, Hsd. apply Hids.
  - rewrite Hca. intros p n i. by rewrite lru_new_spec.
Qed.
End setup.

Section theorems.
Context {E : Env} {HQ : Quiet E} {HL : LruLaws E}.
Implicit Types s : state.

(** Opening a file system on an empty database succeeds, creates the root directory
    with link count two, uses chunks of 4096 bytes, and starts in a state that
    satisfies the system invariant. *)
Theorem from_pool_fresh s :
  txn s = None → fs_config (cur s) = ∅ → fs_inode (cur s) = ∅ → fs_dentry (cur s) = ∅ →
  fs_data (cur s) = ∅ → fs_symlink (cur s) = ∅ →
  ∃ s' t, from_pool s = (Ok (mkSecAFS DEFAULT_CHUNK_SIZE), s') ∧ sys_inv s' ∧
    seq_ino s' = ROOT_INO ∧
    fs_inode (cur s') = {[ ROOT_INO := new_inode DEFAULT_DIR_MODE 2 env_uid env_gid 0 0 t ]} ∧
    fs_dentry (cur s') = ∅.
Proof.
  intros Htx Hc Hi Hd Hda Hs.
  destruct (wp_intro _ _ _ (wp_from_pool s Htx))
    as (r & s' & Hrun & t & -> & Htx' & Hi' & Hd' & Hda' & Hs' & Hsi & Hsd & Hca).
  rewrite Hi in Hi'. change (root_row t (∅ !! ROOT_INO)) with (root_row t None) in Hi'.
  rewrite insert_empty in Hi'. exists s', t. rewrite Hd'.
  unfold configured_chunk_size in Hrun. rewrite Hc, lookup_empty in Hrun.
  split_and!; try done.
  - apply (opened_inv s s' t); try done; rewrite ?Hi, ?Hi'; [done| | |].
    + rewrite Hd', Hd. by apply tree_root.
    + split; intros k; rewrite ?Hs, ?Hda, lookup_empty; by intros [? ?].
    + intros k e. by rewrite Hd, lookup_empty.
  - rewrite Hsi. unfold max_ino. by rewrite Hi', map_to_list_singleton.
Qed.

(** Opening a database that holds a consistent file system changes no row but the
    owner of the root, takes the chunk size from the configuration, moves the inode
    sequence past every inode, and establishes the system invariant. *)
Theorem from_pool_reopen s :
  txn s = None → tree_inv (fs_inode (cur s)) (fs_dentry (cur s)) → side_rows (cur s) →
  (∀ k e, fs_dentry (cur s) !! k = Some e → d_id e ≤ seq_dentry s) →
  ∃ s', from_pool s = (Ok (mkSecAFS (configured_chunk_size (cur s))), s') ∧ sys_inv s' ∧
    fs_inode (cur s') =
      alter (λ r, set_i_gid env_gid (set_i_uid env_uid r)) ROOT_INO (fs_inode (cur s)) ∧
    fs_dentry (cur s') = fs_dentry (cur s) ∧ fs_data (cur s') = fs_data (cur s) ∧
    fs_symlink (cur s') = fs_symlink (cur s) ∧ seq_ino s' = max_ino (cur s').
Proof.
  intros Htx Ht Hside Hids.
  destruct (wp_intro _ _ _ (wp_from_pool s Htx))
    as (r & s' & Hrun & t & -> & Htx' & Hi' & Hd' & Hda' & Hs' & Hsi & Hsd & Hca).
  destruct (ti_root _ _ Ht) as (r0 & Hr0 & Hdir).
  assert (Hi : fs_inode (cur s') =
    alter (λ r, set_i_gid env_gid (set_i_uid env_uid r)) ROOT_INO (fs_inode (cur s))).
  { rewrite Hi', Hr0. apply map_eq. intros j. rewrite lookup_insert, lookup_alter.
    case_decide; [|done]. subst. by rewrite Hr0. }
  exists s'. split_and!; try done. apply (opened_inv s s' t); try done.
  rewrite Hi, Hd'. by apply tree_alter.
Qed.
End theorems.

(** ** Witnesses *)

Lemma from_pool_fresh_witness :
  ∃ s' t, from_pool (fresh_state (E := calm_env)) = (Ok (mkSecAFS 4096), s') ∧ sys_inv s' ∧
    seq_ino s' = 1 ∧
    fs_inode (cur s') = {[ 1 := new_inode 0x41ed 2 1000 100 0 0 t ]} ∧ fs_dentry (cur s') = ∅.
Proof. by apply (from_pool_fresh (fresh_state (E := calm_env))). Defined.

(** A file system with one file, stored in chunks of 512 bytes. *)
Definition stored_db : db :=
  set_fs_config {[ "chunk_size" := "512" ]}
    (set_fs_dentry {[ (1, "f") := mkDentry 1 2 ]}
      (set_fs_inode {[ 1 := new_inode DEFAULT_DIR_MODE 2 0 0 0 0 (0, 0);
                       2 := new_inode DEFAULT_FILE_MODE 1 0 0 0 0 (0, 0) ]} empty_db)).
Definition stored_state : @state calm_env := mkState calm_env stored_db None 2 1 0 (0%nat, []) 0 0.

Lemma from_pool_reopen_witness :
  ∃ s', from_pool stored_state = (Ok (mkSecAFS 512), s') ∧ sys_inv s' ∧
    fs_dentry (cur s') = {[ (1, "f") := mkDentry 1 2 ]} ∧ seq_ino s' = 2.
Proof.
  destruct (from_pool_reopen stored_state) as (s' & Hr & Hinv & Hi & Hd & _ & _ & Hs).
  - done.
  - apply tree_check_sound. by vm_compute.
  - split; intros k; simpl; rewrite lookup_empty; by intros [? ?].
  - intros k e. simpl. by intros [<- <-]%lookup_singleton_Some.
  - exists s'. split_and!; [exact Hr|done|done|]. rewrite Hs. unfold max_ino. by rewrite Hi.
Defined.
