(* ===== verification/InodeThms.v ===== *)
(** * The inode-based interface: the theorems

    Round trips, the effect of every operation on names, inodes and contents, the
    errors, and the invariant of all reachable states. *)

From S2P Require Import Prelude Types Tables Monad Wp Instances Sql File FileSpec SecafsInode.
From S2P Require Import InodeSpec TreeInv SysInv Samples Steps Setup SetupSpec.

(** ** Auxiliary facts *)

Section aux.
Context {E : Env} {HQ : Quiet E}.
Implicit Types s : state.

(** Decoding the row of a new inode gives the [Stats] the operation returned. *)
Lemma stats_of_new ino m nl u g sz rd t :
  Int.is_u32 m → Int.is_u32 nl → Int.is_u32 u → Int.is_u32 g → Int.is_u64 rd →
  stats_of ino (new_inode m nl u g sz (Int.i64 rd) t) = new_stats ino m nl u g sz rd t.
Proof.
  intros. unfold stats_of, new_stats, build_stats_from_row. simpl.
  change (int_or ?x ?r ?i) with (default x (r !! i ≫= as_integer)). simpl.
  unfold int_or. simpl. rewrite !(Int.u32_small m), !(Int.u32_small nl), !(Int.u32_small u),
    !(Int.u32_small g), Int.u64_i64 by done. done.
Qed.

Lemma wp_lookup_found p n i r s :
  txn s = None → str_len n ≤ MAX_NAME_LEN → n ≠ ".." → child (cur s) p n = Some i →
  fs_inode (cur s) !! i = Some r →
  wp (Fs.lookup p n) s (λ res s', res = Ok (Some (stats_of i r)) ∧ cur s' = cur s).
Proof.
  intros Htx Hlen Hdot Hc Hr. pose proof (no_txn_aborted s Htx).
  unfold Fs.lookup. fs_steps. rewrite (proj2 (Z.ltb_ge _ _)) by done. fs_steps.
  rewrite decide_False by done. fs_steps. st. rewrite Hc. fs_steps. st.
  unfold select_stats, select_inode. rewrite Hr. fs_steps. by st.
Qed.

(** The new entry and its row, read back from the tables. *)
Lemma created_child p n row up tgt s s' :
  created p n row up tgt s s' → child (cur s') p n = Some (seq_ino s + 1).
Proof. intros [_ _ _ _ _ Hd _ _]. unfold child. by rewrite Hd, lookup_insert_eq. Qed.
Lemma created_row p n row up tgt s s' :
  fresh_ids s → dir_row (fs_inode (cur s)) p → created p n row up tgt s s' →
  fs_inode (cur s') !! (seq_ino s + 1) = Some row.
Proof.
  intros Hf (r & Hr & _) [_ _ _ _ Hi _ _ _]. rewrite Hi, lookup_alter_ne.
  - apply lookup_insert_eq.
  - intros ->. rewrite (fresh_ino _ Hf) in Hr by lia. done.
Qed.
(** Rows touched only in their time stamps and link counts keep the files. *)
Lemma contents_same cs d d' j :
  i_size <$> fs_inode d' !! j = i_size <$> fs_inode d !! j →
  (∀ c, fs_data d' !! (j, c) = fs_data d !! (j, c)) → contents cs d' j = contents cs d j.
Proof.
  intros Hs Hd. unfold contents.
  assert (Hz : file_size d' j = file_size d j).
  { unfold file_size. destruct (fs_inode d' !! j), (fs_inode d !! j); by simplify_eq/=. }
  rewrite Hz. apply bytes_of_ext. intros i _. by apply byte_at_data.
Qed.
Lemma size_alter (f : inode → inode) i j (m : inodes) :
  (∀ r, i_size (f r) = i_size r) → i_size <$> alter f i m !! j = i_size <$> m !! j.
Proof.
  intros Hf. rewrite lookup_alter. case_decide; [|done]. subst.
  destruct (m !! j); [|done]. simpl. by rewrite Hf.
Qed.
Lemma purged_other ino d d' j :
  purged ino d d' → j ≠ ino →
  fs_inode d' !! j = fs_inode d !! j ∧ (∀ c, fs_data d' !! (j, c) = fs_data d !! (j, c)).
Proof.
  intros [Hi Hd _ _] Hj. rewrite Hi, Hd. case_match; [|done]. split.
  - by rewrite lookup_delete_ne.
  - intros c. apply option_eq. intros b. rewrite map_lookup_filter_Some. simpl.
    rewrite bool_decide_eq_false_2 by done. tauto.
Qed.
(** A purged inode leaves nothing behind. *)
Lemma purged_gone ino d d' :
  purged ino d d' → last_link (fs_inode d) ino = true →
  fs_inode d' !! ino = None ∧ (∀ c, fs_data d' !! (ino, c) = None) ∧ fs_symlink d' !! ino = None.
Proof.
  intros [Hi Hd Hs _] Hl. rewrite Hi, Hd, Hs, Hl. split_and!.
  - apply lookup_delete_eq.
  - intros c. apply map_lookup_filter_None. right. simpl. intros b _.
    by rewrite bool_decide_eq_true_2.
  - apply lookup_delete_eq.
Qed.
Lemma last_link_alter (f : inode → inode) ino r (m : inodes) :
  m !! ino = Some r → last_link (alter f ino m) ino = (Int.u32 (i_nlink (f r)) =? 0).
Proof. intros Hr. unfold last_link. by rewrite lookup_alter_eq, Hr. Qed.
(** A replacement takes one name and at most one inode. *)
Lemma replaced_frame np nn d d' :
  replaced np nn d d' →
  fs_dentry d' = delete (np, nn) (fs_dentry d) ∧
  (∀ j, child d np nn ≠ Some j →
    i_size <$> fs_inode d' !! j = i_size <$> fs_inode d !! j ∧
    (∀ c, fs_data d' !! (j, c) = fs_data d !! (j, c))).
Proof.
  unfold replaced. destruct (child d np nn) as [dst|] eqn:Hc.
  - intros (t & d1 & Hp & Hi & Hd & Hda & _). rewrite (pg_dentry _ _ _ Hp), Hd.
    split; [done|]. intros j Hj.
    destruct (purged_other _ _ _ j Hp ltac:(congruence)) as [Hij Hdj].
    rewrite Hij, Hi, size_alter by done. split; [done|]. intros c. by rewrite Hdj, Hda.
  - intros ->. apply child_None in Hc. by rewrite delete_id.
Qed.
(** The names of a file bound its link count from below. *)
Lemma named_nlink p n ino r im dm :
  tree_inv im dm → d_ino <$> dm !! (p, n) = Some ino → im !! ino = Some r → is_dir r = false →
  1 ≤ i_nlink r < 2 ^ 32.
Proof.
  intros Ht (e & Hk & ->)%fmap_Some Hr Hd. destruct (ti_nlink _ _ Ht _ _ Hr Hd) as [-> ?].
  pose proof (links_pos dm _ _ e Hk eq_refl). lia.
Qed.
Lemma perm_u32 t m : 0 ≤ t < 2 ^ 16 → Int.is_u32 (Z.lor t (Z.land m 0xfff)).
Proof.
  intros Ht. split.
  - apply Z.lor_nonneg. split; [lia|]. apply Z.land_nonneg. lia.
  - destruct (decide (Z.lor t (Z.land m 4095) = 0)) as [->|Hne]; [done|].
    assert (0 ≤ Z.land m 4095) by (apply Z.land_nonneg; lia).
    assert (Hpos : 0 < Z.lor t (Z.land m 4095)).
    { assert (0 ≤ Z.lor t (Z.land m 4095)) by (apply Z.lor_nonneg; lia). lia. }
    apply Z.log2_lt_pow2; [done|]. rewrite Z.log2_lor by lia.
    assert (Z.log2 t ≤ 16).
    { destruct (decide (t = 0)) as [->|]; [done|]. apply Z.lt_le_incl, Z.log2_lt_pow2; lia. }
    assert (Z.log2 (Z.land m 4095) ≤ 12).
    { change 4095 with (Z.ones 12). rewrite Z.land_ones by lia.
      pose proof (Z.mod_pos_bound m (2 ^ 12) ltac:(lia)).
      destruct (decide (m `mod` 2 ^ 12 = 0)) as [->|]; [done|].
      apply Z.lt_le_incl, Z.log2_lt_pow2; lia. }
    lia.
Qed.
End aux.

Section theorems.
Context {E : Env} {HQ : Quiet E} {HL : LruLaws E} (fs : SecAFS).
Implicit Types s : state.

(** C6. Every state a client of the inode-based interface that keeps its contract
    ([allowed]) reaches from a freshly opened file system satisfies the
    system invariant: no open transaction, a consistent name space (each entry lies
    in an existing directory and points to an existing inode, a file's link count is
    the number of its names, a directory has at most one), and a dentry cache that
    agrees with the directory table. *)
Theorem reachable_inv s0 s1 s' :
  txn s0 = None → fs_config (cur s0) = ∅ → fs_inode (cur s0) = ∅ → fs_dentry (cur s0) = ∅ →
  fs_data (cur s0) = ∅ → fs_symlink (cur s0) = ∅ →
  from_pool s0 = (Ok fs, s1) → rtc (step fs) s1 s' → sys_inv s'.
Proof.
  intros Htx Hc Hi Hd Hda Hs Hrun Hsteps. eapply keep_steps; [exact Hsteps|].
  destruct (wp_elim _ _ _ _ _ Hrun (wp_from_pool s0 Htx))
    as (t & _ & Htx' & Hi' & Hd' & Hda' & Hs' & Hsi & Hsd & Hca).
  apply (opened_inv s0 s1 t); try done.
  - rewrite Hi', Hd', Hi, Hd, insert_empty. apply tree_root. done.
  - split; intros k; rewrite ?Hs, ?Hda, lookup_empty; by intros [? ?].
  - intros k e. by rewrite Hd, lookup_empty.
Qed.

(** A directory, file or node that was just created is found by [lookup] with
    exactly the [Stats] the creating call returned, device numbers included. *)
Theorem create_then_lookup p n mode rdev uid gid s :
  sys_inv s → dir_row (fs_inode (cur s)) p → create_err (cur s) p n = None → n ≠ ".." →
  Int.is_u32 mode → Int.is_u64 rdev → Int.is_u32 uid → Int.is_u32 gid →
  (∃ st s' s'', Fs.mkdir p n mode uid gid s = (Ok st, s') ∧
     Fs.lookup p n s' = (Ok (Some st), s'') ∧ is_directory st = true) ∧
  (∃ st f s' s'', Fs.create_file fs p n mode uid gid s = (Ok (st, f), s') ∧
     Fs.lookup p n s' = (Ok (Some st), s'') ∧ is_file st = true ∧ f_ino f = st_ino st) ∧
  (∃ st s' s'', Fs.mknod p n mode rdev uid gid s = (Ok st, s') ∧
     Fs.lookup p n s' = (Ok (Some st), s'') ∧ st_mode st = mode ∧ st_rdev st = rdev).
Proof.
  intros Hinv Hdir He%create_err_None Hdot Hm Hrd Hu Hg; [|done].
  destruct (id He) as (_ & Hfr & Hlen & _).
  assert (Hlook : ∀ s' row up st, created p n row up None s s' →
    stats_of (seq_ino s + 1) row = st → ∃ s'', Fs.lookup p n s' = (Ok (Some st), s'')).
  { intros s' row up st Hcr <-.
    destruct (wp_intro _ _ _ (wp_lookup_found p n (seq_ino s + 1) row s'
      (cr_txn _ _ _ _ _ _ _ Hcr) Hlen Hdot (created_child _ _ _ _ _ _ _ Hcr)
      (created_row _ _ _ _ _ _ _ Hfr Hdir Hcr))) as (r & s'' & Hr & -> & _). eauto. }
  split_and!.
  - destruct (wp_intro _ _ _ (wp_mkdir p n mode uid gid s He)) as (r & s' & Hr & t & -> & Hcr).
    destruct (Hlook s' _ _ _ Hcr (stats_of_new _ _ 2 uid gid 0 0 t
      (perm_u32 S_IFDIR mode ltac:(done)) ltac:(done) Hu Hg ltac:(done))) as [s'' Hl].
    do 3 eexists. split_and!; [done|done|]. apply has_type_dir_perm.
  - destruct (wp_intro _ _ _ (wp_create_file fs p n mode uid gid s He))
      as (r & s' & Hr & t & -> & Hcr).
    destruct (Hlook s' _ _ _ Hcr (stats_of_new _ _ 1 uid gid 0 0 t
      (perm_u32 S_IFREG mode ltac:(done)) ltac:(done) Hu Hg ltac:(done))) as [s'' Hl].
    do 4 eexists. split_and!; [done|done| |done]. apply has_type_reg_perm.
  - destruct (wp_intro _ _ _ (wp_mknod p n mode rdev uid gid s He))
      as (r & s' & Hr & t & -> & Hcr).
    destruct (Hlook s' _ _ _ Hcr (stats_of_new _ mode 1 uid gid 0 rdev t
      Hm ltac:(done) Hu Hg Hrd)) as [s'' Hl].
    do 3 eexists. by split_and!.
Qed.

(** [readlink] of a new symlink returns the target it was created with. *)
Theorem symlink_readlink p n tgt uid gid s :
  sys_inv s → dir_row (fs_inode (cur s)) p → create_err (cur s) p n = None →
  ∃ st s' s'', Fs.symlink p n tgt uid gid s = (Ok st, s') ∧ st_size st = str_len tgt ∧
    child (cur s') p n = Some (st_ino st) ∧
    Fs.readlink (st_ino st) s' = (Ok (Some tgt), s'').
Proof.
  intros Hinv Hdir He%create_err_None; [|done].
  destruct (wp_intro _ _ _ (wp_symlink p n tgt uid gid s He)) as (r & s' & Hr & t & -> & Hcr).
  pose proof (created_row _ _ _ _ _ _ _ (si_fresh _ Hinv) Hdir Hcr) as Hrow.
  pose proof (no_txn_aborted _ (cr_txn _ _ _ _ _ _ _ Hcr)).
  destruct (wp_ok (Fs.readlink (seq_ino s + 1)) s' (Some tgt) (λ _, True)) as (s'' & Hl & _).
  { unfold Fs.readlink. fs_steps. st. rewrite Hrow. simpl. fs_steps.
    unfold select_target. st. rewrite (cr_symlink _ _ _ _ _ _ _ Hcr), lookup_insert_eq.
    by fs_steps. }
  do 3 eexists. split_and!; [done|done|by eapply created_child|done].
Qed.

(** A name that is too long, or taken, is refused by all four creating operations
    with [NameTooLong] or [AlreadyExists], in that order, and nothing changes. *)
Theorem create_refused p n e s :
  txn s = None → create_err (cur s) p n = Some e →
  (∀ mode uid gid, ∃ s', Fs.mkdir p n mode uid gid s = (Err (EFs e), s') ∧ unchanged s s') ∧
  (∀ mode uid gid, ∃ s', Fs.create_file fs p n mode uid gid s = (Err (EFs e), s') ∧
     unchanged s s') ∧
  (∀ mode rdev uid gid, ∃ s', Fs.mknod p n mode rdev uid gid s = (Err (EFs e), s') ∧
     unchanged s s') ∧
  (∀ tgt uid gid, ∃ s', Fs.symlink p n tgt uid gid s = (Err (EFs e), s') ∧ unchanged s s').
Proof.
  intros Htx He. destruct (wp_create_refused fs p n e s Htx He) as (H1 & H2 & H3 & H4).
  split_and!; intros; apply wp_err; [apply H1|apply H2|apply H3|apply H4].
Qed.

(** [unlink] of a file removes exactly that name.  If it was the last one the inode,
    its chunks and its symlink target are gone; otherwise the inode stays with one
    link less.  The contents of every other file are untouched. *)
Theorem unlink_spec p n ino r s :
  sys_inv s → str_len n ≤ MAX_NAME_LEN → child (cur s) p n = Some ino →
  fs_inode (cur s) !! ino = Some r → is_dir r = false →
  ∃ s', Fs.unlink p n s = (Ok tt, s') ∧
    fs_dentry (cur s') = delete (p, n) (fs_dentry (cur s)) ∧
    (if decide (i_nlink r = 1)
     then fs_inode (cur s') !! ino = None ∧ (∀ c, fs_data (cur s') !! (ino, c) = None) ∧
          fs_symlink (cur s') !! ino = None
     else i_nlink <$> fs_inode (cur s') !! ino = Some (i_nlink r - 1)) ∧
    (∀ cs j, j ≠ ino → contents cs (cur s') j = contents cs (cur s) j).
Proof.
  intros Hinv Hlen Hc Hr Hd.
  pose proof (named_nlink _ _ _ _ _ _ (si_tree _ Hinv) Hc Hr Hd) as Hb.
  destruct (wp_ok _ _ _ _ (wp_unlink p n ino s (si_txn _ Hinv) Hlen Hc
    ltac:(intros r' Hr'; by simplify_eq)))
    as (s' & Hrun & t & d & Hp & Hi & Hdm & Hda & Hsy & Hni & Hca).
  assert (Hrow : ∃ r1, alter (λ r, set_ctime t (set_mtime t r)) p (fs_inode (cur s)) !! ino
    = Some r1 ∧ i_nlink r1 = i_nlink r).
  { rewrite lookup_alter. case_decide; subst; rewrite Hr; by eexists. }
  destruct Hrow as (r1 & Hr1 & Hn1).
  assert (Hl : last_link (fs_inode d) ino = bool_decide (i_nlink r = 1)).
  { rewrite Hi, (last_link_alter _ _ r1) by done. simpl. rewrite Hn1, Int.u32_small by lia.
    case_bool_decide; [apply Z.eqb_eq|apply Z.eqb_neq]; lia. }
  exists s'. split; [done|]. split; [by rewrite (pg_dentry _ _ _ Hp)|]. split.
  - case_decide.
    + apply (purged_gone _ _ _ Hp). by rewrite Hl, bool_decide_eq_true_2.
    + rewrite (pg_inode _ _ _ Hp), Hl, bool_decide_eq_false_2 by done.
      rewrite Hi, lookup_alter_eq, Hr1. simpl. f_equal. lia.
  - intros cs j Hj. destruct (purged_other _ _ _ j Hp Hj) as [Hij Hdj].
    apply contents_same; [|intros c; by rewrite Hdj, Hda].
    rewrite Hij, Hi, !size_alter; done.
Qed.

(** [rmdir] of an empty directory made by [mkdir] (link count two) succeeds and
    removes its name, but only lowers the count to one: the inode row stays behind, with no
    name left that could remove it. *)
Theorem rmdir_leaks_inode p n ino r s :
  sys_inv s → rmdir_err (cur s) p n = None → child (cur s) p n = Some ino →
  fs_inode (cur s) !! ino = Some r → i_nlink r = 2 →
  ∃ s', Fs.rmdir p n s = (Ok tt, s') ∧ child (cur s') p n = None ∧
    i_nlink <$> fs_inode (cur s') !! ino = Some 1 ∧ links (fs_dentry (cur s')) ino = 0.
Proof.
  intros Hinv He Hc Hr Hn. unfold rmdir_err in He. rewrite Hc, Hr in He.
  destruct (Z.ltb_spec MAX_NAME_LEN (str_len n)); [done|].
  destruct (Z.eqb_spec ino ROOT_INO); [done|].
  destruct (has_type S_IFDIR (i_mode r)) eqn:Hd; [|done]. simpl in He.
  case_decide as Hemp; [|done].
  destruct (wp_ok _ _ _ _ (wp_rmdir p n ino r s (si_txn _ Hinv) ltac:(done) Hc ltac:(done)
    Hr Hd Hemp)) as (s' & Hrun & t & m & -> & Hi & Hdm & _).
  apply fmap_Some in Hc as (e & Hk & ->).
  assert (Hp : p ≠ d_ino e).
  { intros ->. by rewrite (children_nil _ _ n Hemp) in Hk. }
  rewrite alter_swap in Hi by done.
  rewrite (last_link_alter _ _ r) in Hi by (by rewrite lookup_alter_ne).
  simpl in Hi. rewrite Hn in Hi. change (Int.u32 (2 + -1) =? 0) with false in Hi.
  exists s'. split_and!; [done| | |].
  - unfold child. by rewrite Hdm, lookup_delete_eq.
  - rewrite Hi, lookup_alter_eq, lookup_alter_ne, Hr by done. simpl. by rewrite Hn.
  - rewrite Hdm, (links_delete _ _ e) by done. rewrite decide_True by done.
    pose proof (ti_dir _ _ (si_tree _ Hinv) _ _ Hr Hd).
    pose proof (links_pos _ _ _ e Hk eq_refl). lia.
Qed.

(** [rename] to a different name moves the entry and no other: the new name points
    to the source, the old one is free, and the contents of every file but the one
    that was replaced are untouched. *)
Theorem rename_spec p n np nn src s :
  sys_inv s → (p, n) ≠ (np, nn) → child (cur s) p n = Some src →
  rename_err (cur s) p n np nn = None →
  ∃ s', Fs.rename p n np nn s = (Ok tt, s') ∧ txn s' = None ∧
    child (cur s') np nn = Some src ∧ child (cur s') p n = None ∧
    (∀ p' n', (p', n') ≠ (p, n) → (p', n') ≠ (np, nn) →
      child (cur s') p' n' = child (cur s) p' n') ∧
    (∀ cs j, child (cur s) np nn ≠ Some j → contents cs (cur s') j = contents cs (cur s) j).
Proof.
  intros Hinv Hne Hc He.
  destruct (wp_intro _ _ _ (wp_rename p n np nn s (si_txn _ Hinv))) as (r & s' & Hrun & Hr).
  rewrite He in Hr.
  destruct Hr as (-> & Hni & src' & rs & d1 & Hc' & Hrs & Hrep & [[t Hi] Hdm Hda Hsy] & Hca).
  rewrite Hc in Hc'. injection Hc' as <-.
  destruct (replaced_frame np nn (cur s) d1 Hrep) as (Hd1 & Hother).
  apply fmap_Some in Hc as (e & Hk & ->). unfold move_dentries in Hdm.
  rewrite Hd1, lookup_delete_ne, Hk in Hdm by done.
  exists s'. unfold child. rewrite Hdm. split_and!; [done|apply Hni|..].
  - by rewrite lookup_insert_eq.
  - by rewrite lookup_insert_ne, lookup_delete_eq by done.
  - intros p' n' H1 H2. by rewrite lookup_insert_ne, !lookup_delete_ne by done.
  - intros cs j Hj. destruct (Hother j Hj) as [Hsz Hdt].
    apply contents_same; [|intros c; by rewrite Hda, Hdt].
    rewrite Hi. unfold move_touch, move_nlinks. repeat case_match; by rewrite !size_alter.
Qed.

(** Renaming a file with one link onto itself reports success and destroys it: the
    name, the inode, its chunks and its target are gone, and the dentry cache keeps
    pointing to the dead inode. *)
Theorem rename_onto_itself_destroys p n ino r s :
  sys_inv s → str_len n ≤ MAX_NAME_LEN → child (cur s) p n = Some ino →
  fs_inode (cur s) !! ino = Some r → is_dir r = false → i_nlink r = 1 →
  ∃ s', Fs.rename p n p n s = (Ok tt, s') ∧ child (cur s') p n = None ∧
    fs_inode (cur s') !! ino = None ∧ (∀ c, fs_data (cur s') !! (ino, c) = None) ∧
    lru_peek (cache s') (p, n) = Some ino.
Proof.
  intros Hinv Hlen Hc Hr Hd Hn.
  assert (Hroot : ino ≠ ROOT_INO).
  { intros ->. destruct (ti_root _ _ (si_tree _ Hinv)) as (r' & Hr' & Hd'). congruence. }
  destruct (wp_intro _ _ _ (wp_rename p n p n s (si_txn _ Hinv))) as (res & s' & Hrun & Hres).
  assert (He : rename_err (cur s) p n p n = None).
  { unfold rename_err, replace_err, is_dir in *. rewrite (proj2 (Z.ltb_ge _ _)) by done.
    rewrite Hc, Hr, (proj2 (Z.eqb_neq _ _)) by done. by rewrite Hd. }
  rewrite He in Hres.
  destruct Hres as (-> & _ & src & rs & d1 & Hc' & _ & Hrep & [[t Hi] Hdm Hda _] & Hca).
  pose proof (replaced_free _ _ _ _ Hrep) as Hfree. unfold replaced in Hrep.
  rewrite Hc in Hrep, Hc'. injection Hc' as <-.
  destruct Hrep as (t' & d0 & Hp & Hi0 & _).
  assert (Hl : last_link (fs_inode d0) ino = true).
  { rewrite Hi0, (last_link_alter _ _ r) by done. simpl. by rewrite Hn. }
  destruct (purged_gone _ _ _ Hp Hl) as (Hg1 & Hg2 & _).
  unfold move_dentries in Hdm. rewrite Hfree in Hdm.
  exists s'. split; [done|]. split_and!.
  - unfold child. by rewrite Hdm, Hfree.
  - rewrite Hi. by apply move_inodes_None.
  - intros c. by rewrite Hda.
  - rewrite Hca. apply lru_put_eq.
Qed.

(** [unlink], [rmdir], [link] and [rename] fail with the error [unlink_err], [rmdir_err],
    [link_err] and [rename_err] give from the tables, and a failed call changes nothing; a rename that
    fails inside its transaction is rolled back. *)
Theorem removal_refused s :
  txn s = None →
  (∀ p n e, unlink_err (cur s) p n = Some e →
    ∃ s', Fs.unlink p n s = (Err (EFs e), s') ∧ unchanged s s') ∧
  (∀ p n e, rmdir_err (cur s) p n = Some e →
    ∃ s', Fs.rmdir p n s = (Err (EFs e), s') ∧ unchanged s s') ∧
  (∀ ino p n e, link_err (cur s) ino p n = Some e →
    ∃ s', Fs.link ino p n s = (Err (EFs e), s') ∧ unchanged s s') ∧
  (∀ p n np nn e, rename_err (cur s) p n np nn = Some e →
    ∃ s', Fs.rename p n np nn s = (Err (EFs e), s') ∧ unchanged s s').
Proof.
  intros Htx. split_and!.
  - intros p n e He. by apply wp_err, wp_unlink_refused.
  - intros p n e He. by apply wp_err, wp_rmdir_refused.
  - intros ino p n e He. by apply wp_err, wp_link_refused.
  - intros p n np nn e He. apply wp_err. eapply wp_mono; [|by apply wp_rename].
    intros r s'. by rewrite He.
Qed.

(** [link] gives a file a second name for the same inode and raises its link count
    by one; its contents are the same under both names. *)
Theorem link_spec ino p n r s :
  sys_inv s → link_err (cur s) ino p n = None → fs_inode (cur s) !! ino = Some r →
  ∃ st s', Fs.link ino p n s = (Ok st, s') ∧ st_ino st = ino ∧
    child (cur s') p n = Some ino ∧
    i_nlink <$> fs_inode (cur s') !! ino = Some (i_nlink r + 1) ∧
    (∀ p' n', (p', n') ≠ (p, n) → child (cur s') p' n' = child (cur s) p' n') ∧
    (∀ cs j, contents cs (cur s') j = contents cs (cur s) j).
Proof.
  intros Hinv He Hr.
  destruct (wp_intro _ _ _ (wp_link ino p n s (si_txn _ Hinv) (si_fresh _ Hinv) He))
    as (res & s' & Hrun & t & r' & -> & Hr' & _ & _ & _ & _ & Hi & Hdm & Hda & _).
  do 2 eexists. split; [done|]. split; [done|]. unfold child. rewrite Hdm. split_and!.
  - by rewrite lookup_insert_eq.
  - rewrite Hi, lookup_alter. case_decide; subst; by rewrite lookup_alter_eq, Hr.
  - intros p' n' Hne. by rewrite lookup_insert_ne.
  - intros cs j. apply contents_same; [|by rewrite Hda]. by rewrite Hi, !size_alter.
Qed.
End theorems.

(** ** Witnesses *)

(** A run of the transition system: a directory, a file in it, a write, a second name, a
    rename and the removal of the first name. *)
Definition demo_fs : SecAFS := mkSecAFS 4096.
Definition demo_ops : list op :=
  [OMkdir 1 "a" 0x1ed 0 0; OCreate 2 "b" 0x1a4 0 0; OPwrite (mkFile 3 4096) 1 [x41];
   OLink 3 1 "c"; ORename 2 "b" 1 "b"; OUnlink 1 "b"; ORmdir 1 "a"].
Definition run_ops (l : list op) (s : @state calm_env) : @state calm_env :=
  foldl (λ s o, (run_op demo_fs o s).2) s l.
Definition demo_start : @state calm_env := (from_pool (fresh_state (E := calm_env))).2.

Fixpoint all_allowed (l : list op) (s : @state calm_env) : Prop :=
  match l with
  | [] => True
  | o :: l => allowed s o ∧ all_allowed l (run_op demo_fs o s).2
  end.

Lemma run_ops_steps (l : list op) (s : @state calm_env) :
  all_allowed l s → rtc (step demo_fs) s (run_ops l s).
Proof.
  revert s. induction l as [|o l IH]; intros s Hal; [apply rtc_refl|].
  destruct Hal as [Ho Hl]. eapply rtc_l; [|by apply IH].
  apply (step_op _ o s (run_op demo_fs o s).1); [done|]. by destruct (run_op demo_fs o s).
Qed.

Lemma few_links (m : inodes) i :
  from_option (λ r, i_nlink r + 1 <? 2 ^ 32) true (m !! i) = true →
  ∀ r, m !! i = Some r → i_nlink r + 1 < 2 ^ 32.
Proof. intros H r Hr. rewrite Hr in H. by apply Z.ltb_lt in H. Qed.

Lemma demo_allowed : all_allowed demo_ops demo_start.
Proof.
  unfold demo_ops. cbn [all_allowed allowed].
  split; [apply dir_at_row; vm_compute; reflexivity|].
  split; [apply dir_at_row; vm_compute; reflexivity|].
  split; [split; [reflexivity|vm_compute; discriminate]|].
  split; [split; [apply dir_at_row; vm_compute; reflexivity|]|].
  { apply few_links. vm_compute. reflexivity. }
  split; [split; [apply dir_at_row; vm_compute; reflexivity|discriminate]|].
  split; [exact I|]. split; [exact I|]. exact I.
Qed.

Lemma reachable_inv_witness : sys_inv (run_ops demo_ops demo_start).
Proof.
  apply (reachable_inv demo_fs (fresh_state (E := calm_env)) demo_start);
    [done|done|done|done|done|done|by apply (run_pair from_pool (fresh_state (E := calm_env))); vm_compute|].
  apply run_ops_steps. exact demo_allowed.
Defined.

Lemma demo_dir i : dir_at (fs_inode demo_db) i = true → dir_row (fs_inode (cur demo)) i.
Proof. apply dir_at_row. Qed.

Lemma create_then_lookup_witness :
  (∃ st s' s'', Fs.mkdir 1 "new" 0x1ed 1000 100 demo = (Ok st, s') ∧
     Fs.lookup 1 "new" s' = (Ok (Some st), s'') ∧ is_directory st = true) ∧
  (∃ st f s' s'', Fs.create_file demo_fs 1 "new" 0x1ed 1000 100 demo = (Ok (st, f), s') ∧
     Fs.lookup 1 "new" s' = (Ok (Some st), s'') ∧ is_file st = true ∧ f_ino f = st_ino st) ∧
  (∃ st s' s'', Fs.mknod 1 "new" 0x1ed 0x105 1000 100 demo = (Ok st, s') ∧
     Fs.lookup 1 "new" s' = (Ok (Some st), s'') ∧ st_mode st = 0x1ed ∧ st_rdev st = 0x105).
Proof.
  apply (create_then_lookup demo_fs 1 "new" 0x1ed 0x105 1000 100 demo);
    [apply demo_inv|by apply demo_dir|reflexivity|discriminate|by split..].
Defined.

Lemma symlink_readlink_witness :
  ∃ st s' s'', Fs.symlink 3 "s" "../f" 0 0 demo = (Ok st, s') ∧ st_size st = 4 ∧
    child (cur s') 3 "s" = Some (st_ino st) ∧
    Fs.readlink (st_ino st) s' = (Ok (Some "../f"), s'').
Proof.
  apply (symlink_readlink 3 "s" "../f" 0 0 demo);
    [apply demo_inv|by apply demo_dir|reflexivity].
Defined.

Lemma create_refused_witness : ∃ s',
  Fs.mkdir 1 "f" 0 0 0 demo = (Err (EFs AlreadyExists), s') ∧ unchanged demo s'.
Proof.
  destruct (create_refused demo_fs 1 "f" AlreadyExists demo) as [H _]; [done|done|]. apply H.
Defined.

Lemma unlink_spec_witness :
  (∃ s', Fs.unlink 1 "f" demo = (Ok tt, s') ∧ fs_inode (cur s') !! 2 = None) ∧
  (∃ s', Fs.unlink 1 "g" demo = (Ok tt, s') ∧ i_nlink <$> fs_inode (cur s') !! 5 = Some 1).
Proof.
  split.
  - destruct (unlink_spec 1 "f" 2 (new_inode DEFAULT_FILE_MODE 1 0 0 3 0 (0, 0)) demo)
      as (s' & Hr & _ & H & _); [apply demo_inv|done|done|done|done|].
    exists s'. split; [done|]. apply H.
  - destruct (unlink_spec 1 "g" 5 (new_inode DEFAULT_FILE_MODE 2 0 0 0 0 (0, 0)) demo)
      as (s' & Hr & _ & H & _); [apply demo_inv|done|done|done|done|].
    exists s'. split; [done|]. apply H.
Defined.

Lemma rmdir_leaks_inode_witness :
  ∃ s', Fs.rmdir 3 "e" demo = (Ok tt, s') ∧ child (cur s') 3 "e" = None ∧
    i_nlink <$> fs_inode (cur s') !! 4 = Some 1 ∧ links (fs_dentry (cur s')) 4 = 0.
Proof.
  apply (rmdir_leaks_inode 3 "e" 4 (new_inode DEFAULT_DIR_MODE 2 0 0 0 0 (0, 0)) demo);
    [apply demo_inv|by vm_compute|done|done|done].
Defined.

Lemma rename_spec_witness :
  ∃ s', Fs.rename 1 "f" 3 "h" demo = (Ok tt, s') ∧ txn s' = None ∧
    child (cur s') 3 "h" = Some 2 ∧ child (cur s') 1 "f" = None.
Proof.
  destruct (rename_spec 1 "f" 3 "h" 2 demo) as (s' & Hr & Ht & Hn & Ho & _);
    [apply demo_inv|discriminate|done|by vm_compute|]. eauto.
Defined.

Lemma rename_onto_itself_destroys_witness :
  ∃ s', Fs.rename 1 "f" 1 "f" demo = (Ok tt, s') ∧ child (cur s') 1 "f" = None ∧
    fs_inode (cur s') !! 2 = None ∧ (∀ c, fs_data (cur s') !! (2, c) = None) ∧
    lru_peek (cache s') (1, "f") = Some 2.
Proof.
  apply (rename_onto_itself_destroys 1 "f" 2 (new_inode DEFAULT_FILE_MODE 1 0 0 3 0 (0, 0)) demo);
    [apply demo_inv|done|done|done|done|done].
Defined.

Lemma removal_refused_witness :
  (∃ s', Fs.unlink 1 "d" demo = (Err (EFs IsADirectory), s') ∧ unchanged demo s') ∧
  (∃ s', Fs.rmdir 1 "d" demo = (Err (EFs NotEmpty), s') ∧ unchanged demo s') ∧
  (∃ s', Fs.link 3 1 "y" demo = (Err (EFs IsADirectory), s') ∧ unchanged demo s') ∧
  (∃ s', Fs.rename 1 "f" 1 "d" demo = (Err (EFs IsADirectory), s') ∧ unchanged demo s').
Proof.
  destruct (removal_refused demo) as (H1 & H2 & H3 & H4); [done|]. split_and!.
  - by apply H1.
  - apply H2. by vm_compute.
  - by apply H3.
  - apply H4. by vm_compute.
Defined.

Lemma link_spec_witness :
  ∃ st s', Fs.link 2 3 "k" demo = (Ok st, s') ∧ st_ino st = 2 ∧
    child (cur s') 3 "k" = Some 2 ∧ i_nlink <$> fs_inode (cur s') !! 2 = Some 2.
Proof.
  destruct (link_spec 2 3 "k" (new_inode DEFAULT_FILE_MODE 1 0 0 3 0 (0, 0)) demo)
    as (st & s' & Hr & Hi & Hc & Hn & _); [apply demo_inv|by vm_compute|done|].
  exists st, s'. by split_and!.
Defined.
