(* ===== verification/ListingThms.v ===== *)
(** * Listings and attributes: the theorems

    What [readdir], [readdir_plus], [chmod] and [statfs] report and change. *)

From S2P Require Import Prelude Types Tables Monad Wp Instances Sql File FileSpec SecafsInode.
From S2P Require Import InodeSpec TreeInv SysInv Samples Setup SetupSpec.

(** ** The children of a directory *)

Section children.
Implicit Types (d : db) (p : Z).

Lemma elem_of_children p d n i : (n, i) ∈ children p d ↔ child d p n = Some i.
Proof.
  unfold children, child. rewrite omap_key_elem. split.
  - intros ([p' n'] & e & Hk & Hg). simpl in Hg. case_decide; [|done]. simplify_eq. by rewrite Hk.
  - intros (e & Hk & ->)%fmap_Some. exists (p, n), e. split; [done|]. simpl.
    by rewrite decide_True.
Qed.
Lemma children_NoDup p d : NoDup ((children p d).*1).
Proof.
  unfold children. pose proof (NoDup_fst_map_to_list (fs_dentry d)) as Hnd.
  induction (map_to_list (fs_dentry d)) as [|[[p' n'] e] l IH]; simpl; [constructor|].
  apply NoDup_cons in Hnd as [Hni Hnd]. specialize (IH Hnd). simpl in *.
  case_decide; simpl; [|done]. subst. constructor; [|done]. intros Hin. apply Hni.
  apply list_elem_of_fmap in Hin as ([n i] & -> & Hin).
  apply list_elem_of_omap in Hin as ([[p' n'] e'] & Hin & Hg). simpl in Hg.
  case_decide; [|done]. simplify_eq/=. apply list_elem_of_fmap. by exists (p, n, e').
Qed.
End children.

Section listing.
Context {E : Env}.
Implicit Types (d : db) (p : Z).

(** The names [readdir] returns. *)
Definition listed (p : Z) (d : db) : list string :=
  filter (λ n, n ≠ "") ((sorted_children p d).*1).

Lemma elem_of_sorted p d n i : (n, i) ∈ sorted_children p d ↔ child d p n = Some i.
Proof. unfold sorted_children. rewrite merge_sort_Permutation. apply elem_of_children. Qed.
Lemma elem_of_listed p d n : n ∈ listed p d ↔ n ≠ "" ∧ is_Some (child d p n).
Proof.
  unfold listed. rewrite list_elem_of_filter, list_elem_of_fmap. f_equiv. split.
  - intros ([n' i] & -> & Hin%elem_of_sorted). eauto.
  - intros [i Hi]. exists (n, i). by rewrite elem_of_sorted.
Qed.
Lemma listed_NoDup p d : NoDup (listed p d).
Proof.
  apply NoDup_filter. unfold sorted_children. rewrite merge_sort_Permutation.
  apply children_NoDup.
Qed.
Lemma StronglySorted_fmap_fst {A B} (R : relation A) (l : list (A * B)) :
  StronglySorted (λ a b, R a.1 b.1) l → StronglySorted R (l.*1).
Proof.
  induction 1 as [|x l Hs IH Hall]; simpl; constructor; [done|].
  rewrite Forall_fmap. done.
Qed.
#[local] Instance name_le_trans `{!CollationLaws E} : Transitive name_le.
Proof. intros [x i] [y j] [w k]. unfold name_le. simpl. apply collate_trans. Qed.
#[local] Instance name_le_total `{!CollationLaws E} : Total name_le.
Proof. intros [x i] [y j]. unfold name_le. simpl. apply collate_total. Qed.
Lemma listed_sorted `{!CollationLaws E} p d :
  StronglySorted (λ a b, env_collate a b = true) (listed p d).
Proof.
  apply StronglySorted_filter, StronglySorted_fmap_fst. unfold sorted_children.
  apply (StronglySorted_merge_sort name_le).
Qed.

Lemma omap_list_cons {A B} (f : A → option B) (x : A) (l : list A) :
  omap f (x :: l) = match f x with Some y => y :: omap f l | None => omap f l end.
Proof. done. Qed.
Lemma names_listed p d : omap name_of_row (select_names p d) = listed p d.
Proof.
  unfold select_names, listed. induction (sorted_children p d) as [|[n i] l IH]; [done|].
  rewrite !fmap_cons, filter_cons, omap_list_cons, IH. unfold name_of_row. simpl. destruct (decide (n = "")) as [Hn|Hn].
  - by rewrite decide_False by naive_solver.
  - by rewrite decide_True by done.
Qed.

(** One entry of [readdir_plus]: a name with the attributes of its inode. *)
Definition entry_of (d : db) (c : string * Z) : option DirEntry :=
  r ← fs_inode d !! c.2; Some (mkDirEntry c.1 (stats_of c.2 r)).
Definition listed_plus (p : Z) (d : db) : list DirEntry :=
  omap (entry_of d) (filter (λ c, c.1 ≠ "") (sorted_children p d)).

Lemma entries_listed p d : omap entry_of_row (select_entries p d) = listed_plus p d.
Proof.
  unfold select_entries, listed_plus. induction (sorted_children p d) as [|[n i] l IH]; [done|].
  rewrite filter_cons, omap_list_cons. cbn [fst snd].
  destruct (fs_inode d !! i) as [r|] eqn:Hr; cbn [mbind option_bind].
  - rewrite omap_list_cons, IH.
    change (entry_of_row (Text n :: stats_cols i r)) with
      (if decide (n = "") then None else Some (mkDirEntry n (stats_of i r))).
    destruct (decide (n = "")) as [Hn|Hn].
    + by rewrite decide_False by naive_solver.
    + rewrite decide_True by done. rewrite omap_list_cons. unfold entry_of at 2. simpl.
      by rewrite Hr.
  - rewrite IH. case_decide; [|done]. rewrite omap_list_cons. unfold entry_of at 2. simpl.
    by rewrite Hr.
Qed.
Lemma elem_of_listed_plus p d e :
  e ∈ listed_plus p d ↔ ∃ i r, de_name e ≠ "" ∧ child d p (de_name e) = Some i ∧
    fs_inode d !! i = Some r ∧ de_stats e = stats_of i r.
Proof.
  unfold listed_plus. rewrite list_elem_of_omap. split.
  - intros ([n i] & [Hn Hin]%list_elem_of_filter & He). unfold entry_of in He.
    simpl in *. destruct (fs_inode d !! i) as [r|] eqn:Hr; simplify_eq/=.
    exists i, r. by rewrite <- elem_of_sorted.
  - intros (i & r & Hn & Hc & Hr & Hs). exists (de_name e, i). split.
    + apply list_elem_of_filter. by rewrite elem_of_sorted.
    + unfold entry_of. simpl. rewrite Hr. simpl. destruct e. simpl in *. by subst.
Qed.
(** In a consistent name space no entry is dropped by the join. *)
Lemma listed_plus_names p d :
  tree_inv (fs_inode d) (fs_dentry d) → de_name <$> listed_plus p d = listed p d.
Proof.
  intros Ht. unfold listed_plus, listed.
  assert (Hall : ∀ c, c ∈ sorted_children p d → is_Some (fs_inode d !! c.2)).
  { intros [n i] (e & Hk & ->)%elem_of_sorted%fmap_Some. by eapply ti_target. }
  induction (sorted_children p d) as [|[n i] l IH]; [done|].
  rewrite fmap_cons, !filter_cons. cbn [fst]. destruct (Hall (n, i) ltac:(by left)) as [r Hr].
  specialize (IH (λ c Hc, Hall c ltac:(by right))).
  case_decide; [|exact IH]. rewrite omap_list_cons. unfold entry_of at 1. simpl in Hr.
  cbn [fst snd]. rewrite Hr. cbn [mbind option_bind]. by rewrite fmap_cons, IH.
Qed.
End listing.

Section theorems.
Context {E : Env} {HQ : Quiet E} {HC : CollationLaws E}.
Implicit Types s : state.

Lemma wp_readdir ino s :
  txn s = None → dir_row (fs_inode (cur s)) ino →
  wp (Fs.readdir ino) s (λ r s', r = Ok (Some (listed ino (cur s))) ∧ cur s' = cur s).
Proof.
  intros Htx (r & Hr & Hd). pose proof (no_txn_aborted s Htx). unfold Fs.readdir. fs_steps. st.
  rewrite Hr. simpl. unfold is_dir in Hd. rewrite has_type_u32, Hd. simpl. fs_steps. st.
  by rewrite names_listed.
Qed.

Lemma wp_readdir_plus ino s :
  txn s = None → dir_row (fs_inode (cur s)) ino →
  wp (Fs.readdir_plus ino) s (λ r s',
    r = Ok (Some (listed_plus ino (cur s))) ∧ cur s' = cur s ∧ txn s' = None).
Proof.
  intros Htx (r & Hr & Hd). pose proof (no_txn_aborted s Htx). unfold Fs.readdir_plus. fs_steps. st.
  rewrite Hr. simpl. unfold is_dir in Hd. rewrite has_type_u32, Hd. simpl. fs_steps. st.
  by rewrite entries_listed.
Qed.

(** [readdir] of a directory returns each of its names once, in the collation order
    of the database, and nothing else (an entry with the empty name is skipped). *)
Theorem readdir_spec ino s :
  txn s = None → dir_row (fs_inode (cur s)) ino →
  ∃ l s', Fs.readdir ino s = (Ok (Some l), s') ∧ cur s' = cur s ∧ NoDup l ∧
    StronglySorted (λ a b, env_collate a b = true) l ∧
    (∀ n, n ∈ l ↔ n ≠ "" ∧ is_Some (child (cur s) ino n)).
Proof.
  intros Htx Hdir. destruct (wp_intro _ _ _ (wp_readdir ino s Htx Hdir)) as (r & s' & Hrun & -> & Hcur).
  exists (listed ino (cur s)), s'. split_and!; [done|done|apply listed_NoDup|apply listed_sorted|].
  intros n. apply elem_of_listed.
Qed.

(** [readdir_plus] returns the names of [readdir] in the same order, each with the
    attributes [getattr] reports for the inode it points to. *)
Theorem readdir_plus_spec ino s :
  sys_inv s → dir_row (fs_inode (cur s)) ino →
  ∃ l names s' s'', Fs.readdir_plus ino s = (Ok (Some l), s') ∧
    Fs.readdir ino s = (Ok (Some names), s'') ∧ de_name <$> l = names ∧
    (∀ e, e ∈ l → ∃ i s3, child (cur s) ino (de_name e) = Some i ∧
       Fs.getattr i s = (Ok (Some (de_stats e)), s3)).
Proof.
  intros Hinv Hdir. pose proof (no_txn_aborted s (si_txn _ Hinv)).
  destruct (wp_intro _ _ _ (wp_readdir_plus ino s (si_txn _ Hinv) Hdir)) as (r & s' & Hrun & -> & _).
  destruct (wp_intro _ _ _ (wp_readdir ino s (si_txn _ Hinv) Hdir)) as (r & s'' & Hrun' & -> & _).
  do 4 eexists. split; [done|]. split; [done|]. split.
  - apply listed_plus_names, Hinv.
  - intros e (i & r' & _ & Hc & Hr' & ->)%elem_of_listed_plus. exists i.
    destruct (wp_ok (Fs.getattr i) s (Some (stats_of i r')) (λ _, True)) as (s3 & Hg & _).
    { unfold Fs.getattr. fs_steps. st. by rewrite Hr'. }
    eauto.
Qed.

(** [chmod] replaces the permission bits and keeps the file type, the other columns
    except the change time, and every other row. *)
Theorem chmod_spec ino mode r s :
  txn s = None → fs_inode (cur s) !! ino = Some r →
  ∃ s' r' t, Fs.chmod ino mode s = (Ok tt, s') ∧
    fs_inode (cur s') = <[ino:=r']> (fs_inode (cur s)) ∧
    fs_dentry (cur s') = fs_dentry (cur s) ∧ fs_data (cur s') = fs_data (cur s) ∧
    r' = set_ctime t (set_i_mode (i_mode r') r) ∧
    (∀ ty, has_type ty (i_mode r') = has_type ty (i_mode r)) ∧
    Z.land (i_mode r') 0xfff = Z.land mode 0xfff.
Proof.
  intros Htx Hr. pose proof (no_txn_aborted s Htx).
  set (m := Z.lor (Z.land (Int.u32 (i_mode r)) S_IFMT) (Z.land mode 0xfff)).
  destruct (wp_ok (Fs.chmod ino mode) s tt (λ s', ∃ t,
    fs_inode (cur s') = <[ino:=set_ctime t (set_i_mode m r)]> (fs_inode (cur s)) ∧
    fs_dentry (cur s') = fs_dentry (cur s) ∧ fs_data (cur s') = fs_data (cur s)))
    as (s' & Hrun & t & Hi & Hd & Hda).
  { unfold Fs.chmod. fs_steps. st. rewrite Hr. simpl. fs_steps. split; [done|].
    exists (z, z0). tables. split; [|done]. apply map_eq. intros j.
    rewrite lookup_alter, lookup_insert. case_decide; [|done]. subst. by rewrite Hr. }
  exists s', (set_ctime t (set_i_mode m r)), t. split_and!; try done.
  - intros ty. simpl. unfold m. by rewrite has_type_chmod, has_type_u32.
  - simpl. unfold m. rewrite Z.land_lor_distr_l, <- !Z.land_assoc.
    change (Z.land S_IFMT 0xfff) with 0. by rewrite Z.land_0_r, Z.lor_0_l.
Qed.

(** [statfs] counts the inodes, but reports zero bytes used whatever the files
    hold: the sum of a [BIGINT] column is a [NUMERIC], which the row decoding turns
    into [Null]. *)
Theorem statfs_spec s :
  txn s = None → Z.of_nat (size (fs_inode (cur s))) < 2 ^ 63 →
  ∃ s', Fs.statfs s = (Ok (mkFsStats (Z.of_nat (size (fs_inode (cur s)))) 0), s') ∧
    cur s' = cur s.
Proof.
  intros Htx Hn. pose proof (no_txn_aborted s Htx). apply wp_ok.
  unfold Fs.statfs. fs_steps. st. split; [|done]. do 2 f_equal.
  unfold row_size, count_inodes. simpl. unfold int_or. simpl. apply Int.u64_small. lia.
Qed.
End theorems.

(** ** Witnesses *)

Lemma readdir_spec_witness :
  ∃ l s', Fs.readdir 3 demo = (Ok (Some l), s') ∧ cur s' = cur demo ∧ NoDup l ∧
    StronglySorted (λ a b, env_collate (Env := calm_env) a b = true) l ∧
    (∀ n, n ∈ l ↔ n ≠ "" ∧ is_Some (child (cur demo) 3 n)).
Proof. apply (readdir_spec 3 demo); [done|]. apply dir_at_row. by vm_compute. Defined.

Lemma readdir_plus_spec_witness :
  ∃ l names s' s'', Fs.readdir_plus 3 demo = (Ok (Some l), s') ∧
    Fs.readdir 3 demo = (Ok (Some names), s'') ∧ de_name <$> l = names ∧
    (∀ e, e ∈ l → ∃ i s3, child (cur demo) 3 (de_name e) = Some i ∧
       Fs.getattr i demo = (Ok (Some (de_stats e)), s3)).
Proof.
  apply (readdir_plus_spec 3 demo); [apply demo_inv|]. apply dir_at_row. by vm_compute.
Defined.

Lemma chmod_spec_witness :
  ∃ s' r', Fs.chmod 2 0x180 demo = (Ok tt, s') ∧
    fs_inode (cur s') = <[2:=r']> (fs_inode (cur demo)) ∧ i_size r' = 3 ∧
    has_type S_IFREG (i_mode r') = true.
Proof.
  destruct (chmod_spec 2 0x180 (new_inode DEFAULT_FILE_MODE 1 0 0 3 0 (0, 0)) demo)
    as (s' & r' & t & Hr & Hi & _ & _ & Heq & Hty & _); [done|done|].
  exists s', r'. split_and!; [done|done|by rewrite Heq|by rewrite Hty].
Defined.

Lemma statfs_spec_witness :
  ∃ s', Fs.statfs demo = (Ok (mkFsStats 7 0), s') ∧ cur s' = cur demo.
Proof. apply (statfs_spec demo); [done|]. by vm_compute. Defined.
