(* ===== verification/Atomic.v ===== *)
(** * Atomicity under database failures

    The theorems of this file hold in every environment: any call to the database, the
    clock or the cache may fail at any point.  [rename], [truncate], [pwrite] and
    [create_file] either succeed or leave the committed database as it was; the other
    operations do not have this property. *)

From S2P Require Import Prelude Types Tables Monad Wp Instances Sql File Paths SecafsInode.
From S2P Require Import SecafsPath Setup.

(** ** Closure predicates *)

Section predicates.
Context {E : Env}.

Definition in_txn (s : state) : Prop := is_Some (txn s).

(** Inside a transaction, [m] commits nothing and does not end it. *)
Definition keeps {A} (m : M A) : Prop :=
  ∀ s, in_txn s → committed (m s).2 = committed s ∧ in_txn (m s).2.
(** Outside a transaction, [m] commits nothing and opens none. *)
Definition reads {A} (m : M A) : Prop :=
  ∀ s, txn s = None → committed (m s).2 = committed s ∧ txn (m s).2 = None.
(** [m] always returns a value, and only touches the cache. *)
Definition safe {A} (m : M A) : Prop :=
  ∀ s, ∃ a s', m s = (Ok a, s') ∧ committed s' = committed s ∧ txn s' = txn s.
(** Run from a state in [P], [m] succeeds or commits nothing. *)
Definition all_or_nothing {A} (P : state → Prop) (m : M A) : Prop :=
  ∀ s, P s → is_ok (m s).1 = false → committed (m s).2 = committed s.

Definition no_txn (s : state) : Prop := txn s = None.

(** ** Closure lemmas *)

Lemma bind_run {A B} (m : M A) (k : A → M B) s :
  (m ≫= k) s = match m s with
               | (Ok a, s') => k a s'
               | (Err e, s') => (Err e, s')
               | (Panic, s') => (Panic, s')
               end.
Proof. done. Qed.

Lemma keeps_ret {A} (a : A) : keeps (mret a).
Proof. by intros s. Qed.
Lemma keeps_throw {A} e : keeps (throw (A := A) e).
Proof. by intros s. Qed.
Lemma keeps_panic {A} : keeps (panic (A := A)).
Proof. by intros s. Qed.
Lemma keeps_bind {A B} (m : M A) (k : A → M B) :
  keeps m → (∀ a, keeps (k a)) → keeps (m ≫= k).
Proof.
  intros Hm Hk s Hs. rewrite bind_run. destruct (Hm s Hs) as [Hc Hi].
  destruct (m s) as [[a|e|] s']; simpl in *; [|done..].
  destruct (Hk a s' Hi) as [Hc' ?]. split; [congruence|done].
Qed.
Lemma keeps_attempt {A} (m : M A) : keeps m → keeps (attempt m).
Proof.
  intros Hm s Hs. unfold attempt. specialize (Hm s Hs).
  by destruct (m s) as [[]]; simpl in *.
Qed.
Lemma keeps_stmt {A} (body : state → option (A * state)) :
  (∀ s a s', in_txn s → body s = Some (a, s') → committed s' = committed s ∧ in_txn s') →
  keeps (stmt body).
Proof.
  intros Hb s Hs. unfold stmt. destruct Hs as [[d ab] Hs].
  assert (Habort : committed (abort (tick s)) = committed s ∧ in_txn (abort (tick s))).
  { unfold abort, in_txn. st. rewrite Hs. by split. }
  destruct (env_fault _ || aborted _); [done|].
  destruct (body (tick s)) as [[a s']|] eqn:Hbd; [|done]. simpl.
  apply (Hb (tick s) a s') in Hbd; [done|]. by eexists.
Qed.
Lemma in_txn_set_cur d s : in_txn s → committed (set_cur d s) = committed s ∧ in_txn (set_cur d s).
Proof. intros [[d' ab] Hs]. unfold in_txn. st. unfold set_cur. rewrite Hs. by split. Qed.
Lemma keeps_query {A} (f : db → A) : keeps (query f).
Proof. apply keeps_stmt. intros s a s' Hs [= <- <-]. done. Qed.
Lemma keeps_execute f : keeps (execute f).
Proof.
  apply keeps_stmt. intros s a s' Hs Hb. destruct (f (cur s)); simplify_eq/=.
  by apply in_txn_set_cur.
Qed.
Lemma keeps_insert_inode r : keeps (insert_inode r).
Proof.
  apply keeps_stmt. intros s a s' Hs Hb. simpl in Hb.
  destruct (insert_inode_row _ _ _); simplify_eq/=. by apply (in_txn_set_cur _ (set_seqs _ _ s)).
Qed.
Lemma keeps_insert_dentry n p i : keeps (insert_dentry n p i).
Proof.
  apply keeps_stmt. intros s a s' Hs Hb. simpl in Hb.
  destruct (insert_dentry_row _ _ _ _ _); simplify_eq/=.
  by apply (in_txn_set_cur _ (set_seqs _ _ s)).
Qed.
Lemma keeps_execute_count f : keeps (execute_count f).
Proof.
  apply keeps_stmt. intros s a s' Hs Hb. destruct (f (cur s)); simplify_eq/=.
  by apply in_txn_set_cur.
Qed.
Lemma keeps_execute_now f : keeps (execute_now f).
Proof.
  apply keeps_stmt. intros s a s' Hs Hb. destruct (f _ (cur s)); simplify_eq/=.
  by apply in_txn_set_cur.
Qed.
Lemma keeps_set_local v : keeps (set_local_suppress v).
Proof.
  apply keeps_stmt. intros s a s' Hs [= <- <-]. destruct (txn s) eqn:Ht; [|done].
  apply in_txn_set_cur. by eexists.
Qed.
Lemma keeps_bind_error {A} : keeps (bind_error (A := A)).
Proof.
  intros s Hs. unfold bind_error. destruct (_ || _); [|done]. destruct Hs as [[d ab] Hs].
  unfold abort, in_txn. st. rewrite Hs. by split.
Qed.
Lemma keeps_now : keeps now.
Proof. intros s Hs. unfold now. by destruct (env_clock _). Qed.
Lemma keeps_now_or_default : keeps now_or_default.
Proof. by intros s Hs. Qed.
Lemma keeps_cache_get p n : keeps (cache_get p n).
Proof. intros s Hs. unfold cache_get. by destruct (lru_get _ _). Qed.
Lemma keeps_cache_insert p n i : keeps (cache_insert p n i).
Proof. by intros s Hs. Qed.

Lemma keeps_for_each {A} (l : list A) (body : A → M unit) :
  (∀ x, keeps (body x)) → keeps (for_each l body).
Proof.
  intros Hb. induction l as [|x l IH]; simpl; [apply keeps_ret|by apply keeps_bind].
Qed.
Lemma reads_bind {A B} (m : M A) (k : A → M B) :
  reads m → (∀ a, reads (k a)) → reads (m ≫= k).
Proof.
  intros Hm Hk s Hs. rewrite bind_run. destruct (Hm s Hs) as [Hc Hi].
  destruct (m s) as [[a|e|] s']; simpl in *; [|done..].
  destruct (Hk a s' Hi) as [Hc' ?]. split; [congruence|done].
Qed.
Lemma reads_query {A} (f : db → A) : reads (query f).
Proof.
  intros s Hs. unfold query, stmt, aborted. rewrite Hs.
  destruct (env_fault _); simpl; unfold abort; st; by rewrite ?Hs.
Qed.
Lemma reads_get_connection : reads get_connection.
Proof. intros s Hs. unfold get_connection. by destruct (env_fault _). Qed.
Lemma reads_ret {A} (a : A) : reads (mret a).
Proof. by intros s. Qed.
Lemma reads_throw {A} e : reads (throw (A := A) e).
Proof. by intros s. Qed.
Lemma reads_cache_get p n : reads (cache_get p n).
Proof. intros s Hs. unfold cache_get. by destruct (lru_get _ _). Qed.
Lemma reads_cache_insert p n i : reads (cache_insert p n i).
Proof. by intros s Hs. Qed.

Lemma safe_ret {A} (a : A) : safe (mret a).
Proof. intros s. by do 2 eexists. Qed.
Lemma safe_bind {A B} (m : M A) (k : A → M B) :
  safe m → (∀ a, safe (k a)) → safe (m ≫= k).
Proof.
  intros Hm Hk s. destruct (Hm s) as (a & s1 & H1 & Hc1 & Ht1).
  destruct (Hk a s1) as (b & s2 & H2 & Hc2 & Ht2). exists b, s2.
  rewrite bind_run, H1. split; [done|]. split; congruence.
Qed.
Lemma safe_cache_insert p n i : safe (cache_insert p n i).
Proof. intros s. by do 2 eexists. Qed.
Lemma safe_cache_remove p n : safe (cache_remove p n).
Proof. intros s. by do 2 eexists. Qed.

(** ** Composing transactions *)

Lemma aon_reads {A B} (m : M A) (k : A → M B) :
  reads m → (∀ a, all_or_nothing no_txn (k a)) → all_or_nothing no_txn (m ≫= k).
Proof.
  intros Hm Hk s Hs. rewrite bind_run. destruct (Hm s Hs) as [Hc Hi].
  destruct (m s) as [[a|e|] s']; simpl in *; [|done..]. intros Hbad.
  rewrite (Hk a s'); done.
Qed.
Lemma aon_reads_only {A} (m : M A) : reads m → all_or_nothing no_txn m.
Proof. intros Hm s Hs _. by apply Hm. Qed.
Lemma aon_begin {B} (k : unit → M B) :
  all_or_nothing in_txn (k tt) → all_or_nothing no_txn (begin_txn ≫= k).
Proof.
  intros Hk s Hs. rewrite bind_run. unfold begin_txn, aborted. rewrite Hs.
  destruct (env_fault _); simpl; [unfold abort; st; by rewrite Hs|].
  intros Hbad. rewrite (Hk (set_txn (Some (committed s, false)) (tick s))); [done| |done].
  by eexists.
Qed.
Lemma aon_keeps {A B} (m : M A) (k : A → M B) :
  keeps m → (∀ a, all_or_nothing in_txn (k a)) → all_or_nothing in_txn (m ≫= k).
Proof.
  intros Hm Hk s Hs. rewrite bind_run. destruct (Hm s Hs) as [Hc Hi].
  destruct (m s) as [[a|e|] s']; simpl in *; [|done..]. intros Hbad.
  rewrite (Hk a s'); done.
Qed.
Lemma aon_commit {B} (k : unit → M B) :
  safe (k tt) → all_or_nothing in_txn (commit_txn ≫= k).
Proof.
  intros Hk s Hs. rewrite bind_run. unfold commit_txn.
  destruct (env_fault _); simpl; [done|].
  set (p := match txn s with Some _ => _ | None => _ end).
  assert (Hp : ∃ s', p = (Ok tt, s')).
  { unfold p. destruct (txn s) as [[d []]|]; by eexists. }
  destruct Hp as [s' ->]. destruct (Hk s') as (b & s2 & -> & _). done.
Qed.
Lemma aon_commit_end : all_or_nothing in_txn commit_txn.
Proof.
  intros s Hs. unfold commit_txn. destruct (env_fault _); [done|].
  by destruct (txn s) as [[d []]|].
Qed.
Lemma aon_finish {A B} (r : outcome A) (k : A → M B) :
  (∀ a, safe (k a)) → all_or_nothing in_txn (finish r ≫= k).
Proof.
  intros Hk. destruct r as [a|e|].
  - intros s Hs. pose proof (aon_commit (λ _, mret a ≫= k)) as Hc.
    specialize (Hc ltac:(by apply safe_bind; [apply safe_ret|]) s Hs).
    unfold finish. rewrite bind_run in Hc. rewrite !bind_run.
    by destruct (commit_txn s) as [[] ?].
  - intros s Hs _. unfold finish, attempt. rewrite !bind_run. unfold rollback_txn.
    by destruct (env_fault _).
  - by intros s Hs _.
Qed.
Lemma aon_finish_end {A} (r : outcome A) : all_or_nothing in_txn (finish r).
Proof.
  intros s Hs Hbad. rewrite <- (aon_finish r mret safe_ret s Hs).
  - rewrite bind_run. by destruct (finish r s) as [[]].
  - rewrite bind_run. by destruct (finish r s) as [[]].
Qed.
End predicates.

Create HintDb secafs_atomic.
#[export] Hint Resolve keeps_ret keeps_throw keeps_panic keeps_attempt keeps_query keeps_execute
  keeps_insert_inode keeps_insert_dentry keeps_now keeps_now_or_default keeps_cache_get
  keeps_cache_insert keeps_execute_count keeps_execute_now keeps_set_local keeps_bind_error reads_query reads_get_connection reads_ret reads_throw reads_cache_get
  reads_cache_insert safe_ret safe_cache_insert safe_cache_remove : secafs_atomic.

(** Close a goal [keeps m], [reads m] or [safe m] by the structure of [m]. *)
Ltac closes :=
  repeat first
    [ progress intros
    | solve [eauto with secafs_atomic]
    | apply keeps_attempt | apply keeps_for_each | apply keeps_bind | apply reads_bind
    | apply safe_bind
    | progress unfold fail, ok_or, ok_or_internal, execute_, when, returned_ino, lookup_child,
        get_link_count, getattr_with_conn, select_mode_opt, inode_exists, require_empty,
        delete_file_rows, Fs.check_name
    | case_match ].

Section bodies.
Context {E : Env}.

Lemma keeps_resolve_components cs i : keeps (resolve_components cs i).
Proof. revert i. induction cs as [|c cs IH]; intros i; simpl; closes. Qed.
Lemma reads_resolve_components cs i : reads (resolve_components cs i).
Proof. revert i. induction cs as [|c cs IH]; intros i; simpl; closes. Qed.
Lemma keeps_resolve p : keeps (resolve_path_with_conn p).
Proof. unfold resolve_path_with_conn. case_decide; [closes|apply keeps_resolve_components]. Qed.
Lemma reads_resolve p : reads (resolve_path_with_conn p).
Proof. unfold resolve_path_with_conn. case_decide; [closes|apply reads_resolve_components]. Qed.
End bodies.
#[export] Hint Resolve keeps_resolve reads_resolve : secafs_atomic.

Section stat.
Context {E : Env}.

Lemma keeps_stat_loop e fuel p : keeps (Path.stat_loop e fuel p).
Proof.
  revert p. induction fuel as [|fuel IH]; intros p; simpl; unfold Path.readlink_with_conn; closes.
Qed.
Lemma reads_stat_loop e fuel p : reads (Path.stat_loop e fuel p).
Proof.
  revert p. induction fuel as [|fuel IH]; intros p; simpl; unfold Path.readlink_with_conn; closes.
Qed.
Lemma reads_resolve_parent cs : reads (resolve_parent cs).
Proof. unfold resolve_parent. closes. Qed.
Lemma keeps_write_loop f fuel o b w : keeps (write_loop f fuel o b w).
Proof.
  revert w. induction fuel as [|fuel IH]; intros w; simpl; unfold write_chunk; closes.
Qed.
Lemma keeps_move_entry st i p n np nn : keeps (Fs.move_entry st i p n np nn).
Proof. unfold Fs.move_entry. closes. Qed.
Lemma keeps_check_replace a b i : keeps (Fs.check_replace a b i).
Proof. unfold Fs.check_replace. closes. Qed.
End stat.
#[export] Hint Resolve keeps_stat_loop reads_stat_loop reads_resolve_parent keeps_write_loop
  keeps_move_entry keeps_check_replace : secafs_atomic.

(** Walk through an operation to its transaction. *)
Ltac atomically :=
  repeat first
    [ progress intros
    | apply aon_begin
    | apply aon_finish_end
    | apply aon_commit_end
    | apply aon_commit; solve [closes]
    | apply aon_finish; solve [closes]
    | apply aon_keeps; [solve [closes]|]
    | apply aon_reads; [solve [closes]|]
    | apply aon_reads_only; solve [closes]
    | case_match ].

Section theorems.
Context {E : Env} (fs : SecAFS).

(** C19. [rename], by inode and by path, is atomic: whatever call to the database fails,
    either the rename succeeds or the committed database is unchanged. *)
Theorem rename_atomic :
  (∀ p n np nn, all_or_nothing no_txn (Fs.rename p n np nn)) ∧
  (∀ from to, all_or_nothing no_txn (Path.rename from to)).
Proof.
  split.
  - intros. unfold Fs.rename, Fs.check_name, Fs.replace_destination. atomically.
  - intros. unfold Path.rename, Path.replace_destination, Path.stat_with_conn. atomically.
Qed.

(** Writing and truncating, through a handle or by path, is atomic under failures. *)
Theorem data_ops_atomic :
  (∀ f o b, all_or_nothing no_txn (pwrite f o b)) ∧
  (∀ f n, all_or_nothing no_txn (truncate f n)) ∧
  (∀ p o b, all_or_nothing no_txn (Path.pwrite fs p o b)) ∧
  (∀ p n, all_or_nothing no_txn (Path.truncate fs p n)).
Proof.
  split_and!.
  - intros. unfold pwrite, write_data_at_offset_with_conn. atomically.
  - intros. unfold truncate, truncate_chunks. atomically.
  - intros. unfold Path.pwrite, Path.pwrite_body, Path.get_or_create, Path.pwrite_chunk.
    atomically.
  - intros. unfold Path.truncate, Path.truncate_body, Path.truncate_shrink,
      Path.truncate_extend, Path.with_chunk. atomically.
Qed.

(** Creating a file, by inode and by path, is atomic under failures. *)
Theorem create_file_atomic :
  (∀ p n m u g, all_or_nothing no_txn (Fs.create_file fs p n m u g)) ∧
  (∀ p m u g, all_or_nothing no_txn (Path.create_file fs p m u g)).
Proof.
  split.
  - intros. unfold Fs.create_file, Fs.check_name. atomically.
  - intros. unfold Path.create_file. atomically.
Qed.
End theorems.

(** ** Where atomicity ends *)

(** Running single calls when the [n]-th fails or not. *)
Section single.
Context {E : Env}.
Implicit Types s : state.

Lemma query_ok {A} (f : db → A) s :
  env_fault (n_stmt s) = false → aborted s = false → query f s = (Ok (f (cur s)), tick s).
Proof. intros H1 H2. unfold query, stmt. by rewrite H1, H2. Qed.
Lemma stmt_fault {A} (body : state → option (A * state)) s :
  env_fault (n_stmt s) || aborted s = true → stmt body s = (Err EPostgres, abort (tick s)).
Proof. intros H. unfold stmt. by rewrite H. Qed.
Lemma get_connection_ok s : env_fault (n_stmt s) = false → get_connection s = (Ok tt, tick s).
Proof. intros H. unfold get_connection. by rewrite H. Qed.
Lemma begin_ok s :
  env_fault (n_stmt s) = false → txn s = None →
  begin_txn s = (Ok tt, set_txn (Some (committed s, false)) (tick s)).
Proof. intros H1 H2. unfold begin_txn, aborted. by rewrite H1, H2. Qed.
End single.

Section leaks.
Context {E : Env}.
Implicit Types s : state.

(** [mkdir] is not atomic: when the insertion of the directory entry is the call that
    fails, the inode inserted just before stays in the committed database, and no name
    is added. *)
Theorem mkdir_leaves_orphan p n mode uid gid s :
  txn s = None → str_len n ≤ MAX_NAME_LEN → fs_dentry (committed s) !! (p, n) = None →
  fs_inode (committed s) !! (seq_ino s + 1) = None → is_Some (env_clock (n_clock s)) →
  (∀ k, (k < 3)%nat → env_fault (n_stmt s + k) = false) → env_fault (n_stmt s + 3) = true →
  ∃ s', Fs.mkdir p n mode uid gid s = (Err EPostgres, s') ∧ txn s' = None ∧
    is_Some (fs_inode (committed s') !! (seq_ino s + 1)) ∧
    fs_dentry (committed s') = fs_dentry (committed s).
Proof.
  intros Htx Hlen Hfree Hnew [t Ht] Hok Hbad.
  assert (Hab : aborted s = false) by (unfold aborted; by rewrite Htx).
  assert (Hcur : cur s = committed s) by (unfold cur; by rewrite Htx).
  pose proof (Hok 0%nat ltac:(lia)) as F0. pose proof (Hok 1%nat ltac:(lia)) as F1.
  pose proof (Hok 2%nat ltac:(lia)) as F2.
  replace (n_stmt s + 0)%nat with (n_stmt s) in F0 by lia.
  replace (n_stmt s + 1)%nat with (S (n_stmt s)) in F1 by lia.
  replace (n_stmt s + 2)%nat with (S (S (n_stmt s))) in F2 by lia.
  replace (n_stmt s + 3)%nat with (S (S (S (n_stmt s)))) in Hbad by lia.
  unfold Fs.mkdir, Fs.check_name. rewrite (proj2 (Z.ltb_ge _ _)) by done.
  rewrite bind_run. simpl. rewrite bind_run, get_connection_ok by done. cbv iota beta.
  unfold lookup_child. rewrite !bind_run, query_ok by done.
  unfold select_child. st. rewrite Hcur, Hfree. simpl.
  rewrite bind_run. unfold now. simpl. rewrite Ht. rewrite bind_run.
  unfold insert_inode at 1. unfold stmt at 1. simpl. rewrite F2. unfold aborted at 1. simpl.
  rewrite Htx. simpl. unfold cur. simpl. rewrite Htx.
  unfold insert_inode_row. rewrite Hnew. simpl. rewrite bind_run. simpl.
  rewrite bind_run. unfold insert_dentry. rewrite stmt_fault.
  2:{ unfold set_cur. simpl. rewrite Htx. simpl. by rewrite Hbad. }
  eexists. split; [done|]. unfold abort, set_cur. simpl. rewrite Htx. simpl.
  rewrite lookup_insert_eq. by split_and!; [|eexists|].
Qed.

(** A write whose first statement inside the transaction fails returns the error
    without a rollback: the transaction stays open and aborted on the connection, and
    the next operation fails even if the database never fails again. *)
Theorem pwrite_error_leaks_transaction f o data ino s :
  txn s = None → data ≠ [] → env_fault (n_stmt s) = false → env_fault (S (n_stmt s)) = false →
  env_fault (S (S (n_stmt s))) = true → env_fault (S (S (S (n_stmt s)))) = false →
  ∃ s' s'', pwrite f o data s = (Err EPostgres, s') ∧ aborted s' = true ∧
    Fs.getattr ino s' = (Err EPostgres, s'').
Proof.
  intros Htx Hd F0 F1 F2 F3. unfold pwrite. rewrite decide_False by done.
  rewrite bind_run, get_connection_ok by done. cbv iota beta.
  rewrite bind_run, begin_ok by done. cbv iota beta. rewrite bind_run. unfold query at 1.
  rewrite stmt_fault by (simpl; by rewrite F2). do 2 eexists. split; [done|]. split; [done|].
  unfold Fs.getattr. rewrite bind_run, get_connection_ok by done. cbv iota beta.
  unfold getattr_with_conn. rewrite bind_run. unfold query. rewrite stmt_fault; [done|].
  simpl. apply orb_true_r.
Qed.
End leaks.

(** ** Witnesses *)

(** The file system as opened in the sample environment, where the call number [k] after
    opening fails. *)
Definition opened : @state calm_env := (from_pool (fresh_state (E := calm_env))).2.
Definition failing (k : nat) : Env := list_env (λ n, bool_decide (n = n_stmt opened + k)%nat).
Definition opened_in (k : nat) : @state (failing k) :=
  mkState (failing k) (committed opened) (txn opened) (seq_ino opened) (seq_dentry opened)
    (seq_tool opened) (cache opened) (n_stmt opened) (n_clock opened).

Lemma mkdir_leaves_orphan_witness :
  ∃ s', Fs.mkdir (E := failing 3) 1 "d" 0x1ed 0 0 (opened_in 3) = (Err EPostgres, s') ∧
    txn s' = None ∧ is_Some (fs_inode (committed s') !! (seq_ino (opened_in 3) + 1)) ∧
    fs_dentry (committed s') = fs_dentry (committed (opened_in 3)).
Proof.
  apply (mkdir_leaves_orphan 1 "d" 0x1ed 0 0 (opened_in 3)).
  - by vm_compute.
  - by vm_compute.
  - by vm_compute.
  - by vm_compute.
  - vm_compute. by eexists.
  - intros k Hk. destruct k as [|[|[|k]]]; [by vm_compute..|lia].
  - by vm_compute.
Defined.
Lemma pwrite_error_leaks_transaction_witness :
  ∃ s' s'', pwrite (E := failing 2) (mkFile 1 4096) 0 [x41] (opened_in 2) = (Err EPostgres, s') ∧
    aborted s' = true ∧ Fs.getattr 1 s' = (Err EPostgres, s'').
Proof.
  apply (pwrite_error_leaks_transaction (mkFile 1 4096) 0 [x41] 1 (opened_in 2));
    [by vm_compute|done|by vm_compute..].
Defined.
