(* ===== verification/PathSpec.v ===== *)
(** * The path-based interface: specifications

    [walk] is path resolution on the directory table alone.  With a coherent cache,
    [resolve_path] is [walk], [stat] is its symlink-following extension [follow], and
    the path-based creating operations do to the tables what [created] says. *)

From S2P Require Import Prelude Types Tables Monad Wp Instances Sql File Paths SecafsInode.
From S2P Require Import SecafsPath InodeSpec TreeInv SysInv.

#[local] Open Scope string_scope.
#[local] Open Scope list_scope.
#[local] Open Scope Z_scope.

(** Resolution without a cache. *)
Fixpoint walk (d : db) (i : Z) (cs : list string) : option Z :=
  match cs with
  | [] => Some i
  | c :: cs => child d i c ≫= λ j, walk d j cs
  end.
Definition resolve (d : db) (path : string) : option Z := walk d ROOT_INO (split_path path).

(** Resolution that follows a final symlink, at most [fuel] times. *)
Fixpoint follow (e : FsError) (fuel : nat) (d : db) (path : string) : outcome (option Stats) :=
  match fuel with
  | O => Err (EFs SymlinkLoop)
  | S fuel =>
      match resolve d path with
      | None => Ok None
      | Some ino =>
          match fs_inode d !! ino with
          | None => Ok None
          | Some r =>
              if has_type S_IFLNK (i_mode r) then
                match fs_symlink d !! ino with
                | None => Err (EFs e)
                | Some tgt => follow e fuel d (symlink_next path tgt)
                end
              else Ok (Some (stats_of ino r))
          end
      end
  end.

Lemma walk_app d i cs cs' : walk d i (cs ++ cs') = walk d i cs ≫= λ j, walk d j cs'.
Proof.
  revert i. induction cs as [|c cs IH]; intros i; simpl; [done|].
  destruct (child d i c); simpl; [apply IH|done].
Qed.
Lemma walk_last d i cs c : walk d i (cs ++ [c]) = walk d i cs ≫= λ j, child d j c.
Proof.
  rewrite walk_app. destruct (walk d i cs) as [j|]; [|done]. simpl.
  by destruct (child d j c).
Qed.

(** An entry added where there was none changes no walk that succeeded. *)
Lemma walk_insert d d' k i e cs j :
  fs_dentry d' = <[k:=e]> (fs_dentry d) → fs_dentry d !! k = None →
  walk d i cs = Some j → walk d' i cs = Some j.
Proof.
  intros Hd Hk. revert i. induction cs as [|c cs IH]; intros i; simpl; [done|].
  destruct (child d i c) as [x|] eqn:Hc; simpl; [|done]. intros Hw.
  assert (Hc' : child d' i c = Some x).
  { unfold child in *. rewrite Hd, lookup_insert_ne; [done|]. intros ->. by rewrite Hk in Hc. }
  rewrite Hc'. simpl. by apply IH.
Qed.

(** Resolution only counts calls and fills the cache. *)
Record resolved {E : Env} (s s' : state) : Prop := {
  rs_txn : txn s' = txn s;
  rs_committed : committed s' = committed s;
  rs_seq_ino : seq_ino s' = seq_ino s;
  rs_seq_dentry : seq_dentry s' = seq_dentry s;
  rs_cache : coherent (cache s) (fs_dentry (cur s)) → coherent (cache s') (fs_dentry (cur s));
}.

Section resolve.
Context {E : Env} {HQ : Quiet E} {HL : LruLaws E}.
Implicit Types s : state.

Lemma resolved_cur s s' : resolved s s' → cur s' = cur s.
Proof. intros [Ht Hc _ _ _]. unfold cur. by rewrite Ht, Hc. Qed.
Lemma resolved_aborted s s' : resolved s s' → aborted s' = aborted s.
Proof. intros [Ht _ _ _ _]. unfold aborted. by rewrite Ht. Qed.
Lemma resolved_coherent s s' :
  resolved s s' → coherent (cache s) (fs_dentry (cur s)) →
  coherent (cache s') (fs_dentry (cur s')).
Proof. intros Hr Hc. rewrite (resolved_cur _ _ Hr). by apply Hr. Qed.
Lemma resolved_refl s : resolved s s.
Proof. done. Qed.
Lemma resolved_trans s s' s'' : resolved s s' → resolved s' s'' → resolved s s''.
Proof.
  intros H [Ht' Hc' Hi' Hd' Hca']. rewrite (resolved_cur _ _ H) in Hca'.
  destruct H. split; [congruence..|auto].
Qed.
Lemma resolved_tick s s' : resolved s s' → resolved s (tick s').
Proof. intros []. by split. Qed.
Lemma resolved_get k s s' : resolved s s' → resolved s (set_cache (lru_get k (cache s')).2 s').
Proof. intros []. split; try done. intros Hc. apply coherent_get. auto. Qed.
Lemma resolved_put p n i s s' :
  resolved s s' → child (cur s) p n = Some i →
  resolved s (set_cache (lru_put (p, n) i (cache s')) s').
Proof. intros [] Hi. split; try done. intros Hc. apply coherent_put; [auto|done]. Qed.

Lemma wp_resolve_components cs i s :
  aborted s = false → coherent (cache s) (fs_dentry (cur s)) →
  wp (resolve_components cs i) s (λ r s', r = Ok (walk (cur s) i cs) ∧ resolved s s').
Proof.
  revert i s. induction cs as [|c cs IH]; intros i s Hab Hco; simpl.
  { fs_steps. split; [done|apply resolved_refl]. }
  fs_steps. destruct (lru_peek (cache s) (i, c)) as [j|] eqn:Hp.
  - apply Hco in Hp. fold (child (cur s) i c) in Hp. rewrite Hp. simpl.
    pose proof (resolved_get (i, c) s s (resolved_refl s)) as Hr.
    eapply wp_mono; [|apply IH; [by rewrite (resolved_aborted _ _ Hr)|by apply (resolved_coherent _ _ Hr)]].
    intros r s' [-> Hr']. st. split; [done|]. by eapply resolved_trans.
  - fs_steps. st. unfold select_child, child. destruct (fs_dentry (cur s) !! (i, c)) as [e|] eqn:He; simpl.
    + fs_steps. change (int_or 0 [Integer (d_ino e)] 0) with (d_ino e).
      set (s1 := set_cache (lru_put _ _ _) _).
      assert (Hr : resolved s s1).
      { apply resolved_put; [|unfold child; by rewrite He].
        apply resolved_tick, resolved_get, resolved_refl. }
      eapply wp_mono; [|apply IH; [by rewrite (resolved_aborted _ _ Hr)|by apply (resolved_coherent _ _ Hr)]].
      intros r s' [-> Hr']. rewrite (resolved_cur _ _ Hr). split; [done|].
      by eapply resolved_trans.
    + fs_steps. split; [done|]. apply resolved_tick, resolved_get, resolved_refl.
Qed.
Lemma wp_resolve path s :
  aborted s = false → coherent (cache s) (fs_dentry (cur s)) →
  wp (resolve_path_with_conn path) s (λ r s',
    r = Ok (resolve (cur s) path) ∧ resolved s s').
Proof.
  intros Hab Hco. unfold resolve_path_with_conn, resolve. case_decide as Hs.
  - rewrite Hs. fs_steps. split; [done|apply resolved_refl].
  - by apply wp_resolve_components.
Qed.
End resolve.

(** ** Normal forms resolve alike *)

Lemma normalize_is_absolute path : is_absolute (normalize_path path) = true.
Proof.
  unfold normalize_path. repeat case_match; try apply render_absolute. done.
Qed.
Lemma split_normalize path :
  is_absolute path = true → split_path (normalize_path path) = split_path path.
Proof.
  intros Habs. rewrite (split_absolute path) by done. rewrite normalize_absolute by done.
  apply split_render, abs_components_clean.
Qed.
Lemma normalize_idem path :
  is_absolute path = true → normalize_path (normalize_path path) = normalize_path path.
Proof.
  intros. rewrite (normalize_absolute path) by done. apply normalize_render, abs_components_clean.
Qed.
Lemma resolve_normalize d path :
  is_absolute path = true → resolve d (normalize_path path) = resolve d path.
Proof. intros. unfold resolve. by rewrite split_normalize. Qed.

Section stat.
Context {E : Env} {HQ : Quiet E} {HL : LruLaws E}.
Implicit Types s : state.

(** Use a rule whose postcondition ends in [resolved]. *)
Lemma wp_resolved {A} (m : M A) s (a : outcome A) (Q : outcome A → state → Prop) :
  wp m s (λ r s', r = a ∧ resolved s s') → (∀ s', resolved s s' → Q a s') → wp m s Q.
Proof. intros Hm HQ'. eapply wp_mono; [|exact Hm]. intros r s' [-> ?]. auto. Qed.

Lemma wp_readlink_with_conn path ino r s :
  aborted s = false → coherent (cache s) (fs_dentry (cur s)) → is_absolute path = true →
  resolve (cur s) path = Some ino → fs_inode (cur s) !! ino = Some r →
  has_type S_IFLNK (i_mode r) = true →
  wp (Path.readlink_with_conn path) s (λ res s',
    res = Ok (fs_symlink (cur s) !! ino) ∧ resolved s s').
Proof.
  intros Hab Hco Habs Hres Hr Hl. unfold Path.readlink_with_conn. wp_step.
  eapply wp_resolved; [by apply wp_resolve|]. intros s1 Hs1.
  rewrite resolve_normalize, Hres by done. pose proof (resolved_aborted _ _ Hs1) as Hab1.
  rewrite Hab in Hab1. fs_steps. rewrite (resolved_cur _ _ Hs1), Hr. simpl.
  rewrite has_type_u32, Hl. simpl. fs_steps. st. rewrite (resolved_cur _ _ Hs1).
  unfold select_target.
  destruct (fs_symlink (cur s) !! ino); fs_steps; split; try done; by repeat apply resolved_tick.
Qed.

Lemma wp_stat_loop e fuel path s :
  aborted s = false → coherent (cache s) (fs_dentry (cur s)) → is_absolute path = true →
  wp (Path.stat_loop e fuel path) s (λ r s', r = follow e fuel (cur s) path ∧ resolved s s').
Proof.
  revert path s. induction fuel as [|fuel IH]; intros path s Hab Hco Habs; simpl.
  { fs_steps. split; [done|apply resolved_refl]. }
  wp_step. eapply wp_resolved; [by apply wp_resolve|]. intros s1 Hs1. cbv iota.
  pose proof (resolved_aborted _ _ Hs1) as Hab1. rewrite Hab in Hab1.
  destruct (resolve (cur s) path) as [ino|] eqn:Hres; [|by fs_steps].
  fs_steps. unfold select_stats, select_inode. rewrite (resolved_cur _ _ Hs1).
  destruct (fs_inode (cur s) !! ino) as [r|] eqn:Hr; [|fs_steps; by split; [|apply resolved_tick]].
  change (int_or 0 (stats_cols ino r) 1) with (i_mode r). rewrite has_type_u32.
  destruct (has_type S_IFLNK (i_mode r)) eqn:Hl;
    [|fs_steps; by split; [|apply resolved_tick]].
  pose proof (resolved_tick _ _ Hs1) as Hs2. set (s2 := tick s1) in *. clearbody s2.
  pose proof (resolved_cur _ _ Hs2) as Hc2. pose proof (resolved_aborted _ _ Hs2) as Hab2.
  wp_step. eapply wp_resolved.
  { apply (wp_readlink_with_conn path ino r); try (by rewrite ?Hc2, ?Hab2).
    by apply (resolved_coherent _ _ Hs2). }
  intros s3 Hs3. rewrite Hc2. pose proof (resolved_trans _ _ _ Hs2 Hs3) as Hs.
  destruct (fs_symlink (cur s) !! ino) as [tgt|]; fs_steps; [|done].
  eapply wp_mono; [|apply IH].
  - intros res s4. rewrite (resolved_cur _ _ Hs). intros [-> ?]. split; [done|].
    by eapply resolved_trans.
  - by rewrite (resolved_aborted _ _ Hs).
  - by apply (resolved_coherent _ _ Hs).
  - apply normalize_is_absolute.
Qed.
End stat.

(** ** Creating by path *)

(** The component names a path-based operation works with. *)
Definition names (path : string) : list string := split_path (normalize_path path).

Lemma names_clean path : Forall clean (names path).
Proof.
  unfold names. rewrite split_absolute by apply normalize_is_absolute.
  apply abs_components_clean.
Qed.
Lemma names_split path :
  names path ≠ [] → names path = removelast (names path) ++ [last_component (names path)].
Proof.
  unfold last_component. destruct (names path) as [|c l _] using rev_ind; [done|].
  by rewrite removelast_last, last_snoc.
Qed.
Lemma resolve_names d path : resolve d (normalize_path path) = walk d ROOT_INO (names path).
Proof. done. Qed.

(** Where a path-based operation puts its entry, or why it cannot. *)
Definition create_at (d : db) (path : string) : Z * string + FsError :=
  if decide (names path = []) then inr RootOperation
  else
    match walk d ROOT_INO (removelast (names path)) with
    | None => inr NotFound
    | Some p =>
        let n := last_component (names path) in
        if decide (is_Some (child d p n)) then inr AlreadyExists else inl (p, n)
    end.

Section create.
Context {E : Env} {HQ : Quiet E} {HL : LruLaws E} (fs : SecAFS).
Implicit Types s : state.

Lemma wp_resolve_parent cs s (Q : outcome Z → state → Prop) :
  aborted s = false → coherent (cache s) (fs_dentry (cur s)) → cs ≠ [] → Forall clean cs →
  (∀ s', resolved s s' →
    Q (match walk (cur s) ROOT_INO (removelast cs) with
       | Some p => Ok p | None => Err (EFs NotFound) end) s') →
  wp (resolve_parent cs) s Q.
Proof.
  intros Hab Hco Hne Hcl HQ'. unfold resolve_parent. wp_step.
  eapply wp_resolved; [by apply wp_resolve|]. intros s1 Hs1. cbv iota. fs_steps.
  unfold resolve. rewrite split_parent_path by done. by apply HQ'.
Qed.
Lemma fresh_resolved s s' : resolved s s' → fresh_ids s → fresh_ids s'.
Proof.
  intros Hr Hf. pose proof (resolved_cur _ _ Hr) as Hc. destruct Hr as [_ _ Hi Hd _].
  apply (fresh_ids_step s); rewrite ?Hi, ?Hd, ?Hc; (done || eauto).
Qed.

(** The state in which the row inserts of a creating operation start. *)
Definition ready (s s1 : state) : Prop :=
  resolved s s1 ∧ txn s1 = None ∧ aborted s1 = false ∧ fresh_ids s1 ∧ cur s1 = cur s.

(** The prefix all four operations share: normalise, resolve the parent, look for the
    name, stop with an error or go on to insert. *)
Lemma wp_create_prefix {A} path (k : Z → string → M A) s (Q : outcome A → state → Prop) :
  txn s = None → fresh_ids s → coherent (cache s) (fs_dentry (cur s)) →
  (∀ s1, ready s s1 →
    match create_at (cur s) path with
    | inl (p, n) => wp (k p n) s1 Q
    | inr e => Q (Err (EFs e)) s1
    end) →
  wp (get_connection ≫= λ _,
      let path := normalize_path path in
      let components := split_path path in
      if decide (components = []) then fail RootOperation
      else
        parent_ino ← resolve_parent components;
        let name := last_component components in
        ex ← lookup_child parent_ino name;
        if decide (is_Some ex) then fail AlreadyExists else k parent_ino name) s Q.
Proof.
  intros Htx Hf Hco HQ'. pose proof (no_txn_aborted s Htx) as Hab.
  assert (Hready : ∀ s1, resolved s s1 → ready s s1).
  { intros s1 Hs1. split; [done|]. split; [by rewrite (rs_txn _ _ Hs1)|].
    split; [by rewrite (resolved_aborted _ _ Hs1)|]. split; [by eapply fresh_resolved|].
    by apply resolved_cur. }
  pose proof (resolved_tick _ _ (resolved_refl s)) as H0.
  wp_steps. cbv zeta. fold (names path). unfold create_at in HQ'. case_decide.
  { fs_steps. by apply HQ', Hready. }
  wp_step. apply wp_resolve_parent; [by st|by st|done|apply names_clean|].
  st. intros s1 Hs1. pose proof (resolved_trans _ _ _ H0 Hs1) as Hs.
  destruct (walk (cur s) ROOT_INO (removelast (names path))) as [p|]; [|by apply HQ', Hready].
  destruct (Hready _ Hs) as (_ & _ & Hab1 & _ & Hcur1). fs_steps. rewrite Hcur1.
  pose proof (Hready _ (resolved_tick _ _ Hs)) as Hr. specialize (HQ' _ Hr). cbv zeta in HQ'.
  case_decide; [by fs_steps|done].
Qed.

Lemma create_at_inl d path p n :
  create_at d path = inl (p, n) →
  names path ≠ [] ∧ walk d ROOT_INO (removelast (names path)) = Some p ∧
  n = last_component (names path) ∧ child d p n = None.
Proof.
  unfold create_at. case_decide; [done|].
  destruct (walk d ROOT_INO _) as [p'|]; [|done]. cbv zeta. case_decide as Hc; [done|].
  intros [= <- <-]. split_and!; try done. by apply eq_None_not_Some.
Qed.

(** What a path-based creation ends in. *)
Definition path_created {A} (path : string) (res : Z → Z * Z → A) (row : Z * Z → inode)
    (up : Z * Z → inode → inode) (tgt : option string) (s : state) (r : outcome A) (s' : state)
    : Prop :=
  ∃ s1, ready s s1 ∧
    match create_at (cur s) path with
    | inr e => r = Err (EFs e) ∧ s' = s1
    | inl (p, n) => ∃ t, r = Ok (res (seq_ino s + 1) t) ∧
        created p n (row t) (up t) tgt s1 s'
    end.

(** The inserts of the three operations that run outside a transaction. *)
Ltac path_inserts Htx :=
  let s1 := fresh "s1" in
  intros s1 Hready; pose proof Hready as (Hres & Htx1 & Hab1 & Hf1 & Hcur1);
  destruct (create_at _ _) as [[p n]|e] eqn:He; [|by exists s1];
  apply create_at_inl in He as (_ & _ & -> & Hfree); rewrite <- Hcur1 in Hfree;
  unfold names in *;
  fs_steps; apply wp_insert_inode; [by st|st; apply Hf1; lia|]; intros d1 ? ? ? ?; fs_steps.

Lemma wp_path_mkdir path uid gid s :
  txn s = None → fresh_ids s → coherent (cache s) (fs_dentry (cur s)) →
  wp (Path.mkdir path uid gid) s
    (path_created path (λ _ _, tt) (new_inode DEFAULT_DIR_MODE 2 uid gid 0 0)
       (λ t r, set_mtime t (set_ctime t (add_nlink 1 r))) None s).
Proof.
  intros Htx Hf Hco. apply (wp_create_prefix path (λ parent_ino name, _)); try done.
  unfold path_created. path_inserts Htx.
  apply wp_insert_dentry; [by st|tables; apply Hf1|tables; by apply child_None|].
  intros d2 ? ? ? ?. fs_steps. exists s1. split; [done|]. eexists (_, _). split; [done|].
  split; tables; rewrite ?Htx1; try done. by rewrite alter_insert_eq.
Qed.
Lemma alter_id_eq {A} (i : Z) (m : gmap Z A) : alter (λ x, x) i m = m.
Proof. apply map_eq. intros j. rewrite lookup_alter. case_decide; [|done]. subst. by destruct (m !! j). Qed.
Lemma wp_path_mknod path mode rdev uid gid s :
  txn s = None → fresh_ids s → coherent (cache s) (fs_dentry (cur s)) →
  wp (Path.mknod path mode rdev uid gid) s
    (path_created path (λ _ _, tt) (new_inode mode 1 uid gid 0 (Int.i64 rdev))
       (λ _ r, r) None s).
Proof.
  intros Htx Hf Hco. apply (wp_create_prefix path (λ parent_ino name, _)); try done.
  unfold path_created. path_inserts Htx.
  apply wp_insert_dentry; [by st|tables; apply Hf1|tables; by apply child_None|].
  intros d2 ? ? ? ?. fs_steps. exists s1. split; [done|]. eexists (_, _). split; [done|].
  split; tables; rewrite ?Htx1; try done. by rewrite alter_insert_eq, alter_id_eq.
Qed.
Lemma wp_path_symlink target path uid gid s :
  txn s = None → fresh_ids s → coherent (cache s) (fs_dentry (cur s)) →
  wp (Path.symlink target path uid gid) s
    (path_created path (λ _ _, tt)
       (new_inode (Z.lor S_IFLNK 0x1ff) 1 uid gid (str_len target) 0)
       (λ _ r, r) (Some target) s).
Proof.
  intros Htx Hf Hco. apply (wp_create_prefix path (λ parent_ino name, _)); try done.
  unfold path_created. path_inserts Htx.
  change (int_or 0 [Integer ?i] 0) with i.
  apply wp_insert_symlink; [by st|tables; apply Hf1; lia|]. intros d2 ? ? ? ?. fs_steps.
  apply wp_insert_dentry; [by st|tables; apply Hf1|tables; by apply child_None|].
  intros d3 ? ? ? ?. fs_steps. exists s1. split; [done|]. eexists (_, _). split; [done|].
  split; tables; rewrite ?Htx1; try done. by rewrite alter_insert_eq, alter_id_eq.
Qed.
Lemma wp_path_create_file path mode uid gid s :
  txn s = None → fresh_ids s → coherent (cache s) (fs_dentry (cur s)) →
  wp (Path.create_file fs path mode uid gid) s
    (let m := Z.lor S_IFREG (Z.land mode 0xfff) in
     path_created path
       (λ ino t, (new_stats ino m 1 uid gid 0 0 t, mkFile ino (chunk_size fs)))
       (new_inode m 1 uid gid 0 0) (λ _ r, r) None s).
Proof.
  intros Htx Hf Hco. cbv zeta. apply (wp_create_prefix path (λ parent_ino name, _)); try done.
  unfold path_created. intros s1 Hready. pose proof Hready as (Hres & Htx1 & Hab1 & Hf1 & Hcur1).
  destruct (create_at _ _) as [[p n]|e] eqn:He; [|by exists s1].
  apply create_at_inl in He as (_ & _ & -> & Hfree). rewrite <- Hcur1 in Hfree.
  unfold names in *.
  pose proof (no_txn_cur s1 Htx1) as Hc1.
  wp_step. apply wp_begin; [done|]. fs_steps.
  apply wp_insert_inode; [by st|st; rewrite <- Hc1; apply Hf1; lia|]. intros d1 ? ? ? ?.
  fs_steps. st. rewrite <- Hc1 in *.
  apply wp_insert_dentry; [by st|tables; apply Hf1|tables; by apply child_None|].
  intros d2 ? ? ? ?. fs_steps. eapply wp_commit; [by st|]. fs_steps. st.
  exists s1. split; [done|]. eexists (_, _). split; [by rewrite (rs_seq_ino _ _ Hres)|].
  split; tables; rewrite ?alter_id_eq; try done.
Qed.
End create.
