(* ===== verification/PathThms.v ===== *)
(** * The path-based interface: the theorems

    Normal forms of paths, resolution through the cache, symlinks, creation and removal
    by path. *)

From S2P Require Import Prelude Types Tables Monad Wp Instances Sql File Paths SecafsInode.
From S2P Require Import SecafsPath Setup InodeSpec TreeInv SysInv Samples SetupSpec InodeThms.
From S2P Require Import PathSpec.

#[local] Open Scope string_scope.
#[local] Open Scope list_scope.
#[local] Open Scope Z_scope.

Section paths.

(** For an absolute path, normalisation is idempotent and canonical: the result is
    the rendering of components free of empty, dot and dot-dot parts, and two absolute
    paths have the same normal form exactly when they have the same components. *)
Theorem normalize_canonical p q :
  is_absolute p = true → is_absolute q = true →
  normalize_path (normalize_path p) = normalize_path p ∧
  normalize_path p = render (split_path p) ∧ Forall clean (split_path p) ∧
  (normalize_path p = normalize_path q ↔ split_path p = split_path q).
Proof.
  intros Hp Hq. rewrite !split_absolute, (normalize_absolute p), (normalize_absolute q) by done.
  pose proof (abs_components_clean p) as Hcp. pose proof (abs_components_clean q) as Hcq.
  split_and!; [by apply normalize_render|done|done|].
  split; [|by intros ->]. intros Hr.
  by rewrite <- (abs_components_render _ Hcp), <- (abs_components_render _ Hcq), Hr.
Qed.

(** Splitting a rendered component list gives it back, and the parent of a path is
    its components without the last. *)
Theorem split_render_roundtrip l :
  Forall clean l →
  split_path (render l) = l ∧ (l ≠ [] → split_path (parent_path l) = removelast l).
Proof. intros Hl. split; [by apply split_render|]. intros. by apply split_parent_path. Qed.

(** A path that does not start with a slash is only given one. *)
Lemma normalize_not_absolute p :
  is_absolute p = false → components p ≠ [] →
  normalize_path p = "/" +:+ trim_end p ∧ split_path p = components p.
Proof.
  intros Habs Hne. rewrite <- components_trim_end in Hne.
  assert (Ht : trim_end p ≠ "" ∧ is_absolute (trim_end p) = false).
  { split; [by intros Ht; rewrite Ht in Hne|]. destruct p as [|a s]; [done|]. simpl in *.
    by rewrite Habs. }
  destruct Ht as [Ht Hta]. assert (Hn : normalize_path p = "/" +:+ trim_end p).
  { unfold normalize_path. by rewrite decide_False, Hta. }
  split; [done|]. unfold split_path. rewrite Hn, decide_False.
  - by rewrite <- (components_trim_end p).
  - intros [= Hz]. done.
Qed.

(** A path that does not start with a slash is not resolved by normalisation: a
    dot-dot component survives into the components that are looked up, and the result is
    not a fixed point of normalisation. *)
Theorem normalize_relative p :
  is_absolute p = false → ".." ∈ components p →
  ".." ∈ split_path p ∧ normalize_path (normalize_path p) ≠ normalize_path p.
Proof.
  intros Habs Hin. assert (Hne : components p ≠ []) by (intros Hz; rewrite Hz in Hin; by apply not_elem_of_nil in Hin).
  destruct (normalize_not_absolute p Habs Hne) as [Hn Hs]. rewrite Hs. split; [done|].
  intros Hfix. rewrite (normalize_absolute (normalize_path p)) in Hfix by (by rewrite Hn).
  pose proof (abs_components_clean (normalize_path p)) as Hcl.
  apply (f_equal components) in Hfix. rewrite components_render in Hfix by done.
  rewrite Hn in Hfix at 2. change (components ("/" +:+ trim_end p)) with (components (trim_end p)) in Hfix.
  rewrite components_trim_end in Hfix. rewrite Hfix, Forall_forall in Hcl.
  by destruct (Hcl _ Hin) as (_ & _ & ? & _).
Qed.
End paths.

Section theorems.
Context {E : Env} {HQ : Quiet E} {HL : LruLaws E} (fs : SecAFS).
Implicit Types s : state.

(** C18. With a coherent dentry cache, whatever it holds, [resolve_path] returns what a
    walk over the directory table alone returns; it changes no table and leaves the
    cache coherent. *)
Theorem resolve_path_is_walk path s :
  aborted s = false → coherent (cache s) (fs_dentry (cur s)) →
  ∃ s', resolve_path path s = (Ok (walk (cur s) ROOT_INO (split_path path)), s') ∧
    cur s' = cur s ∧ coherent (cache s') (fs_dentry (cur s')).
Proof.
  intros Hab Hco. apply wp_ok. unfold resolve_path. wp_steps.
  eapply wp_resolved; [by apply wp_resolve|]. intros s' Hs'. split; [done|].
  split; [apply (resolved_cur _ _ Hs')|by apply (resolved_coherent _ _ Hs')].
Qed.

(** [stat] follows symlinks at most forty times, as the reference function [follow]
    does on the tables: it returns the attributes of the first non-symlink, [None] for
    a missing name, and [SymlinkLoop] after forty hops. *)
Theorem stat_is_follow path s :
  aborted s = false → coherent (cache s) (fs_dentry (cur s)) →
  ∃ s', Path.stat path s =
      (follow NotFound 40 (cur s) (normalize_path path), s') ∧
    cur s' = cur s ∧ coherent (cache s') (fs_dentry (cur s')).
Proof.
  intros Hab Hco.
  destruct (wp_intro (Path.stat path) s (λ r s',
    r = follow NotFound 40 (cur s) (normalize_path path) ∧
    cur s' = cur s ∧ coherent (cache s') (fs_dentry (cur s')))) as (r & s' & Hr & -> & ?).
  { unfold Path.stat. wp_steps. eapply wp_resolved.
    - apply wp_stat_loop; [by st|by st|apply normalize_is_absolute].
    - intros s' Hs'. st. split; [done|]. split; [apply (resolved_cur _ _ Hs')|].
      by apply (resolved_coherent _ _ Hs'). }
  eauto.
Qed.

Lemma wp_lstat path s :
  aborted s = false → coherent (cache s) (fs_dentry (cur s)) →
  wp (Path.lstat path) s (λ r s',
    r = Ok (i ← walk (cur s) ROOT_INO (names path); stats_of i <$> fs_inode (cur s) !! i) ∧
    cur s' = cur s).
Proof.
  intros Hab Hco. unfold Path.lstat. wp_steps.
  eapply wp_resolved; [by apply wp_resolve|]. intros s1 Hs1. st. rewrite resolve_names.
  pose proof (resolved_aborted _ _ Hs1) as Hab1. pose proof (resolved_cur _ _ Hs1) as Hc1. st.
  rewrite Hab in Hab1.
  destruct (walk (cur s) ROOT_INO (names path)) as [i|]; fs_steps; st; [by rewrite Hc1|done].
Qed.

(** The walk to a new entry ends at its inode. *)
Lemma walk_created d d' path p n i e :
  create_at d path = inl (p, n) → fs_dentry d' = <[(p, n):=e]> (fs_dentry d) → d_ino e = i →
  walk d' ROOT_INO (names path) = Some i.
Proof.
  intros (Hne & Hw & -> & Hfree)%create_at_inl Hd He.
  rewrite (names_split path) by done. rewrite walk_last.
  rewrite (walk_insert d d' _ ROOT_INO e _ p Hd); [|by apply child_None|done].
  simpl. unfold child. by rewrite Hd, lookup_insert_eq, <- He.
Qed.

(** A file created by path is found under that path with the [Stats] the call
    returned, and the handle it returned is for that inode. *)
Theorem path_create_then_lstat path mode uid gid s p n :
  sys_inv s → create_at (cur s) path = inl (p, n) → dir_row (fs_inode (cur s)) p →
  Int.is_u32 uid → Int.is_u32 gid →
  ∃ st f s' s'', Path.create_file fs path mode uid gid s = (Ok (st, f), s') ∧
    Path.lstat path s' = (Ok (Some st), s'') ∧ f_ino f = st_ino st ∧ is_file st = true.
Proof.
  intros [Htx Hf Htr Hco] He Hdir Hu Hg.
  destruct (wp_intro _ _ _ (wp_path_create_file fs path mode uid gid s Htx Hf Hco))
    as (r & s' & Hrun & s1 & (Hres & Htx1 & Hab1 & Hf1 & Hc1) & Hcr).
  rewrite He in Hcr. destruct Hcr as (t & -> & Hcr).
  set (m := Z.lor S_IFREG (Z.land mode 0xfff)) in *.
  pose proof (created_row _ _ _ _ _ _ _ Hf1 ltac:(by rewrite Hc1) Hcr) as Hrow.
  pose proof (rs_seq_ino _ _ Hres) as Hsi. rewrite Hsi in Hrow.
  assert (Hw : walk (cur s') ROOT_INO (names path) = Some (seq_ino s + 1)).
  { eapply (walk_created (cur s)); [done|by rewrite (cr_dentry _ _ _ _ _ _ _ Hcr), Hc1|].
    simpl. lia. }
  destruct (wp_ok (Path.lstat path) s' (Some (new_stats (seq_ino s + 1) m 1 uid gid 0 0 t))
    (λ _, True)) as (s'' & Hl & _).
  { eapply wp_mono; [|apply wp_lstat].
    - intros r s2 [-> _]. split; [|done]. rewrite Hw. simpl. rewrite Hrow. simpl. do 2 f_equal.
      apply (stats_of_new _ m 1 uid gid 0 0 t); try done. by apply perm_u32.
    - by apply no_txn_aborted, (cr_txn _ _ _ _ _ _ _ Hcr).
    - rewrite (cr_cache _ _ _ _ _ _ _ Hcr), (cr_dentry _ _ _ _ _ _ _ Hcr).
      apply (coherent_insert _ _ _ _ (mkDentry _ _)). rewrite Hc1. by apply Hres. }
  do 4 eexists. split_and!; [done|done|done|]. apply has_type_reg_perm.
Qed.

(** The four path-based creating operations refuse the root with [RootOperation], a
    missing parent with [NotFound] and a taken name with [AlreadyExists], and then the
    tables are unchanged. *)
Theorem path_create_refused path e s :
  sys_inv s → create_at (cur s) path = inr e →
  (∀ u g, ∃ s', Path.mkdir path u g s = (Err (EFs e), s') ∧ cur s' = cur s) ∧
  (∀ m d u g, ∃ s', Path.mknod path m d u g s = (Err (EFs e), s') ∧ cur s' = cur s) ∧
  (∀ t u g, ∃ s', Path.symlink t path u g s = (Err (EFs e), s') ∧ cur s' = cur s) ∧
  (∀ m u g, ∃ s', Path.create_file fs path m u g s = (Err (EFs e), s') ∧ cur s' = cur s).
Proof.
  intros [Htx Hf Htr Hco] He.
  assert (Hend : ∀ A (m : M A) res row up tgt,
    wp m s (path_created path res row up tgt s) →
    ∃ s', m s = (Err (EFs e), s') ∧ cur s' = cur s).
  { intros A m res row up tgt Hm. apply wp_err. eapply wp_mono; [|exact Hm].
    intros r s' (s1 & (_ & _ & _ & _ & Hc1) & H). rewrite He in H. by destruct H as [-> ->]. }
  split_and!; intros; eapply Hend.
  - by apply wp_path_mkdir.
  - by apply wp_path_mknod.
  - by apply wp_path_symlink.
  - by apply wp_path_create_file.
Qed.

(** A dangling symlink cannot be removed by path: [remove] asks for the attributes of
    the symlink's target and reports [NotFound]; nothing changes. *)
Theorem remove_dangling_symlink path ino s :
  sys_inv s → is_absolute path = true → names path ≠ [] →
  walk (cur s) ROOT_INO (names path) = Some ino → ino ≠ ROOT_INO →
  follow InvalidPath 40 (cur s) (normalize_path path) = Ok None →
  ∃ s', Path.remove path s = (Err (EFs NotFound), s') ∧ cur s' = cur s.
Proof.
  intros [Htx Hf Htr Hco] Habs Hne Hw Hroot Hfo. pose proof (no_txn_aborted s Htx) as Hab.
  apply wp_err. unfold Path.remove. wp_steps. cbv zeta. fold (names path).
  rewrite decide_False by done. wp_step. eapply wp_resolved; [by apply wp_resolve|].
  intros s1 Hs1. st. rewrite resolve_names, Hw. fs_steps.
  rewrite (proj2 (Z.eqb_neq _ _)) by done. wp_step.
  pose proof (resolved_aborted _ _ Hs1) as Hab1. pose proof (resolved_cur _ _ Hs1) as Hc1. st.
  eapply wp_resolved.
  { apply wp_stat_loop; [by rewrite Hab1| |apply normalize_is_absolute].
    by apply (resolved_coherent _ _ Hs1). }
  change Path.max_symlink_depth with 40%nat.
  intros s2 Hs2. rewrite Hc1, normalize_idem, Hfo by done. fs_steps. split; [done|].
  by rewrite (resolved_cur _ _ Hs2), Hc1.
Qed.
End theorems.

(** ** Renaming a directory below itself *)

Definition demo_run {A} (m : @M calm_env A) : outcome A * @state calm_env := m demo.

(** The subtree check of the path-based [rename] compares strings, and a relative
    destination is not normalised: moving [/d] to [/d/e/c] is refused with
    [InvalidRename], but the same move written [x/../d/e/c] succeeds and makes the
    directory its own ancestor, unreachable from the root. *)
Theorem rename_below_itself :
  (demo_run (Path.rename "/d" "/d/e/c")).1 = Err (EFs InvalidRename) ∧
  let '(r, s') := demo_run (Path.rename "/d" "x/../d/e/c") in
  r = Ok tt ∧ walk (cur s') 3 ["e"; "c"] = Some 3 ∧ child (cur s') 1 "d" = None.
Proof. split; [by vm_compute|]. vm_compute. by split_and!. Qed.

(** ** Witnesses *)

Lemma normalize_canonical_witness :
  normalize_path (normalize_path "/a//./b/../c/") = normalize_path "/a//./b/../c/" ∧
  normalize_path "/a//./b/../c/" = render (split_path "/a//./b/../c/") ∧
  Forall clean (split_path "/a//./b/../c/") ∧
  (normalize_path "/a//./b/../c/" = normalize_path "/a/c" ↔
   split_path "/a//./b/../c/" = split_path "/a/c").
Proof. by apply normalize_canonical. Defined.

Lemma split_render_roundtrip_witness :
  split_path (render ["a"; "b"]) = ["a"; "b"] ∧
  (["a"; "b"] ≠ [] → split_path (parent_path ["a"; "b"]) = removelast ["a"; "b"]).
Proof. apply split_render_roundtrip. by repeat constructor. Defined.

Lemma normalize_relative_witness :
  ".." ∈ split_path "a/../b" ∧
  normalize_path (normalize_path "a/../b") ≠ normalize_path "a/../b".
Proof. apply normalize_relative; [done|]. right. left. Defined.

Lemma resolve_path_is_walk_witness :
  ∃ s', resolve_path "/d/./e" demo = (Ok (Some 4), s') ∧ cur s' = cur demo ∧
    coherent (cache s') (fs_dentry (cur s')).
Proof.
  destruct (resolve_path_is_walk "/d/./e" demo) as (s' & Hr & Hc & Hco);
    [done|apply demo_inv|]. exists s'. split_and!; [|done|done]. rewrite Hr. f_equal.
Defined.

Lemma stat_is_follow_witness :
  ∃ s', Path.stat "/x" demo = (Ok None, s') ∧ cur s' = cur demo ∧
    coherent (cache s') (fs_dentry (cur s')).
Proof.
  destruct (stat_is_follow "/x" demo) as (s' & Hr & Hc & Hco);
    [done|apply demo_inv|]. exists s'. split_and!; [|done|done]. rewrite Hr. f_equal.
Defined.

Lemma path_create_then_lstat_witness :
  ∃ st f s' s'', Path.create_file demo_fs "/d/e/new" 0x1a4 0 0 demo = (Ok (st, f), s') ∧
    Path.lstat "/d/e/new" s' = (Ok (Some st), s'') ∧ f_ino f = st_ino st ∧ is_file st = true.
Proof.
  apply (path_create_then_lstat demo_fs "/d/e/new" 0x1a4 0 0 demo 4 "new");
    [apply demo_inv|by vm_compute|apply dir_at_row; by vm_compute|done|done].
Defined.

Lemma path_create_refused_witness :
  ∃ s', Path.mkdir "/no/dir" 0 0 demo = (Err (EFs NotFound), s') ∧ cur s' = cur demo.
Proof.
  destruct (path_create_refused demo_fs "/no/dir" NotFound demo) as [H _];
    [apply demo_inv|by vm_compute|]. apply H.
Defined.

Lemma remove_dangling_symlink_witness :
  ∃ s', Path.remove "/x" demo = (Err (EFs NotFound), s') ∧ cur s' = cur demo.
Proof.
  apply (remove_dangling_symlink "/x" 7 demo);
    [apply demo_inv|done|discriminate|by vm_compute|done|by vm_compute].
Defined.
