(* ===== verification/PathData.v ===== *)
(** * Writing by path refines flat byte strings

    The path-based [pwrite] and [truncate] of [SecafsPath] are separate code from the
    handle's: they rewrite whole chunks, and [truncate] stores explicit zero chunks.  Both
    are shown to do to [contents] what the handle's operations do. *)

From S2P Require Import Prelude Types Tables Monad Wp Instances Sql File FileSpec FileThms.
From S2P Require Import Paths SecafsInode SecafsPath InodeSpec TreeInv SysInv Samples PathSpec.

#[local] Open Scope string_scope.
#[local] Open Scope list_scope.
#[local] Open Scope Z_scope.

Section chunk.
Context {E : Env} {HQ : Quiet E} (fs : SecAFS) (ino : Z).
Implicit Types s : state.
Abbreviation cs := (chunk_size fs).
Abbreviation f := (mkFile ino (chunk_size fs)).

(** The base a chunk is patched on: the stored bytes padded to a full chunk. *)
Definition padded (o : option (list byte)) : list byte :=
  match o with Some b => Vec.resize cs b | None => Vec.zeros cs end.
Lemma len_padded o : 0 ≤ cs → Vec.len (padded o) = cs.
Proof. intros. destruct o; [by apply Vec.len_resize|by apply Vec.len_zeros]. Qed.
Lemma get_padded o j :
  0 ≤ j < cs → Vec.get (padded o) j = Vec.get (default [] o) j.
Proof.
  intros Hj. destruct o as [b|]; simpl.
  - rewrite Vec.get_resize. by rewrite decide_True by lia.
  - rewrite Vec.get_zeros. symmetry. apply Vec.get_beyond. unfold Vec.len. simpl. lia.
Qed.

(** The chunk [pwrite] stores for index [c]: the part of [data] that falls into it over
    the old bytes, cut to [len]. *)
Lemma get_written_chunk o c ds de len offset (data : list byte) j :
  0 < cs → 0 ≤ ds ≤ de → de ≤ cs → de ≤ len ≤ cs → Vec.len (default [] o) ≤ Z.max len de →
  cs * c + ds - offset = Z.max 0 (cs * c - offset) →
  de - ds + Z.max 0 (cs * c - offset) ≤ Vec.len data → 0 ≤ j < cs →
  let src := Z.max 0 (cs * c - offset) in
  Vec.get (take (Z.to_nat len) (Vec.copy_at ds (Vec.slice src (src + (de - ds)) data) (padded o))) j =
  if decide (ds ≤ j < ds + (de - ds)) then Vec.get data (cs * c + j - offset)
  else Vec.get (default [] o) j.
Proof.
  intros Hcs Hds Hde Hlen Hold Hsrc Hdata Hj src.
  assert (Hsl : Vec.len (Vec.slice src (src + (de - ds)) data) = de - ds).
  { rewrite Vec.len_slice; lia. }
  rewrite Vec.get_take. destruct (decide (j < len)) as [Hjl|Hjl].
  - rewrite Vec.get_copy_at; [|lia|rewrite len_padded; lia|lia]. rewrite Hsl. case_decide.
    + rewrite Vec.get_slice, decide_True by lia. f_equal. lia.
    + by apply get_padded.
  - rewrite decide_False by lia. symmetry. apply Vec.get_beyond. lia.
Qed.
Lemma len_written_chunk o src ds de len (data : list byte) :
  0 < cs → 0 ≤ ds ≤ de → de ≤ cs → 0 ≤ len ≤ cs → 0 ≤ src → src + (de - ds) ≤ Vec.len data →
  Vec.len (take (Z.to_nat len) (Vec.copy_at ds (Vec.slice src (src + (de - ds)) data) (padded o))) =
  len.
Proof.
  intros. assert (Hc : Vec.len (Vec.copy_at ds (Vec.slice src (src + (de - ds)) data) (padded o)) = cs).
  { rewrite Vec.len_copy_at; rewrite ?len_padded, ?Vec.len_slice; lia. }
  unfold Vec.len in *. rewrite length_take. lia.
Qed.
Lemma padded_select c d :
  match select_chunk ino c d with
  | row :: _ => match blob_opt row 0 with Some b => Vec.resize cs b | None => Vec.zeros cs end
  | [] => Vec.zeros cs
  end = padded (fs_data d !! (ino, c)).
Proof. unfold select_chunk. by destruct (fs_data d !! (ino, c)). Qed.
(** A full chunk hides what was stored. *)
Lemma copy_all_padded src o : Vec.len src = cs → Vec.copy_at 0 src (Vec.zeros cs) = Vec.copy_at 0 src (padded o).
Proof.
  intros Hs. pose proof (Vec.len_nonneg src). pose proof (len_padded o ltac:(lia)) as Hp.
  pose proof (Vec.len_zeros cs ltac:(lia)) as Hz. unfold Vec.copy_at. simpl. f_equal.
  unfold Vec.len in *. rewrite !drop_ge; [done|lia|lia].
Qed.

Lemma wp_insert_data k b s (Q : outcome unit → state → Prop) :
  aborted s = false → fs_data (cur s) !! k = None →
  (∀ d, fs_data d = <[k:=b]> (fs_data (cur s)) → fs_inode d = fs_inode (cur s) →
    fs_dentry d = fs_dentry (cur s) → fs_symlink d = fs_symlink (cur s) →
    Q (Ok tt) (set_cur d (tick s))) →
  wp (execute (insert_data_row k b)) s Q.
Proof.
  intros Hab Hk HQ'. eapply wp_execute; [done|unfold insert_data_row; by rewrite Hk|].
  by apply HQ'.
Qed.
(** [DELETE] and [INSERT] of a chunk replace it. *)
Lemma wp_replace_chunk c b s (Q : outcome unit → state → Prop) :
  aborted s = false →
  (∀ s', db_step s s' → fs_data (cur s') = <[(ino, c):=b]> (fs_data (cur s)) →
    fs_inode (cur s') = fs_inode (cur s) → fs_dentry (cur s') = fs_dentry (cur s) →
    fs_symlink (cur s') = fs_symlink (cur s) → Q (Ok tt) s') →
  wp (execute_ (delete_data_row (ino, c)) ≫= λ _, execute (insert_data_row (ino, c) b)) s Q.
Proof.
  intros Hab HQ'. wp_steps. apply wp_insert_data; [by st|tables; apply lookup_delete_eq|].
  intros d Hd Hi Hde Hsy. apply HQ'; [auto| | | |]; tables; try done.
  by rewrite insert_delete_eq.
Qed.

(** How much of chunk [c] the source keeps: up to the end of the write in the last chunk,
    or of the old file if that is further, and all of it before. *)
Definition kept_len (we size ec c : Z) : Z :=
  if c =? ec then
    Z.max (we - cs * c) (if cs * c <? size then Z.min (size - cs * c) cs else 0)
  else cs.
Lemma kept_len_bounds we size c d :
  0 < cs → 0 ≤ c → 0 ≤ size → cs * c < we → c ≤ (we - 1) `div` cs →
  (∀ b, fs_data d !! (ino, c) = Some b → cs * c + Vec.len b ≤ size ∧ Vec.len b ≤ cs) →
  let len := kept_len we size ((we - 1) `div` cs) c in
  Z.min cs (we - cs * c) ≤ len ≤ cs ∧ cs * c + len ≤ Z.max size we ∧
  Vec.len (default [] (fs_data d !! (ino, c))) ≤ len.
Proof.
  intros Hcs Hc0 Hsz Hwe Hc Hold len. set (ec := (we - 1) `div` cs) in *.
  pose proof (Z.div_mod (we - 1) cs ltac:(lia)) as Hdw. fold ec in Hdw.
  pose proof (Z.mod_pos_bound (we - 1) cs Hcs) as Hmw.
  assert (Hob : Vec.len (default [] (fs_data d !! (ino, c))) ≤ Z.max 0 (Z.min cs (size - cs * c))).
  { destruct (fs_data d !! (ino, c)) as [b|] eqn:Hb; simpl.
    - specialize (Hold b eq_refl). pose proof (Vec.len_nonneg b). lia.
    - unfold Vec.len. simpl. lia. }
  unfold len, kept_len. destruct (Z.eqb_spec c ec) as [->|Hne].
  - destruct (Z.ltb_spec (cs * ec) size); nia.
  - assert (c + 1 ≤ ec) by lia. nia.
Qed.

(** Storing the patched chunk updates the bytes the write covers, and no others. *)
Lemma wp_store_written m offset data c len s :
  let we := offset + Vec.len data in
  let ds := Z.max 0 (offset - cs * c) in
  let de := Z.min cs (we - cs * c) in
  let src := Z.max 0 (cs * c - offset) in
  let old := fs_data (cur s) !! (ino, c) in
  0 < cs → 0 ≤ c → aborted s = false → chunk_fit cs m ino (cur s) →
  ds < de → de ≤ len ≤ cs → cs * c + len ≤ m → Vec.len (default [] old) ≤ len →
  wp (execute_ (delete_data_row (ino, c)) ≫= λ _,
      execute (insert_data_row (ino, c) (take (Z.to_nat len)
        (Vec.copy_at ds (Vec.slice src (src + (de - ds)) data) (padded old))))) s
    (λ r s', r = Ok tt ∧ db_step s s' ∧
      (∀ c', c' ≠ c → fs_data (cur s') !! (ino, c') = fs_data (cur s) !! (ino, c')) ∧
      data_upd f m (Z.max offset (cs * c)) (Z.min we (cs * (c + 1)))
        (λ i, Vec.get data (i - offset)) (cur s) (cur s')).
Proof.
  intros we ds de src old Hcs Hc0 Hab Hfit Hdsde Hlen Hm Hold.
  apply wp_replace_chunk; [done|]. intros s' Hs' Hd Hi Hde Hsy. split; [done|]. split; [done|].
  split; [intros c' Hc'; rewrite Hd, lookup_insert_ne; congruence|].
  replace (Z.max offset (cs * c)) with (cs * c + ds) by lia.
  replace (Z.min we (cs * (c + 1))) with (cs * c + ds + (de - ds)) by lia.
  assert (Hbl : Vec.len (take (Z.to_nat len)
    (Vec.copy_at ds (Vec.slice src (src + (de - ds)) data) (padded old))) = len).
  { apply len_written_chunk; lia. }
  eapply (data_upd_chunk f m c ds (de - ds)); cbn [f_ino f_chunk_size];
    try exact Hd; try done; try lia.
  intros j Hj. unfold src. rewrite get_written_chunk; (done || lia || idtac).
Qed.

Lemma wp_pwrite_chunk m offset data size c s :
  0 < cs → aborted s = false → chunk_fit cs m ino (cur s) →
  Z.max size (offset + Vec.len data) = m → 0 ≤ offset → offset + Vec.len data < 2 ^ 63 →
  0 ≤ size < 2 ^ 63 → 0 < Vec.len data →
  offset `div` cs ≤ c ≤ (offset + Vec.len data - 1) `div` cs →
  (∀ b, fs_data (cur s) !! (ino, c) = Some b → cs * c + Vec.len b ≤ size) →
  wp (Path.pwrite_chunk fs ino offset (offset + Vec.len data) size
        ((offset + Vec.len data - 1) `div` cs) data c) s (λ r s',
    r = Ok tt ∧ db_step s s' ∧
    (∀ c', c' ≠ c → fs_data (cur s') !! (ino, c') = fs_data (cur s) !! (ino, c')) ∧
    data_upd f m (Z.max offset (cs * c)) (Z.min (offset + Vec.len data) (cs * (c + 1)))
      (λ i, Vec.get data (i - offset)) (cur s) (cur s')).
Proof.
  intros Hcs Hab Hfit Hm Hoff Hwe Hsz Hlen Hc Hold.
  set (we := offset + Vec.len data) in *.
  pose proof (Z.div_mod offset cs ltac:(lia)). pose proof (Z.mod_pos_bound offset cs Hcs).
  pose proof (Z.div_mod (we - 1) cs ltac:(lia)). pose proof (Z.mod_pos_bound (we - 1) cs Hcs).
  assert (Hc0 : 0 ≤ offset `div` cs) by (apply Z.div_pos; lia).
  assert (Hst : 0 ≤ cs * c ≤ we - 1) by nia. assert (Hc63 : 0 ≤ c ≤ cs * c) by nia.
  unfold Path.pwrite_chunk, Int.u64_mul. replace (c * cs) with (cs * c) by lia.
  rewrite (Int.u64_small (cs * c)), (Int.u64_small (we - cs * c)), (Int.i64_small c) by lia.
  replace (if cs * c <? offset then offset - cs * c else 0)
    with (Z.max 0 (offset - cs * c)) by (case_match; lia).
  replace (if offset <? cs * c then cs * c - offset else 0)
    with (Z.max 0 (cs * c - offset)) by (case_match; lia).
  set (ds := Z.max 0 (offset - cs * c)). set (de := Z.min cs (we - cs * c)).
  set (src := Z.max 0 (cs * c - offset)). assert (Hdsde : ds < de) by nia.
  rewrite (Z.min_r (Vec.len data) (src + (de - ds))) by lia.
  replace (src + (de - ds) - src) with (de - ds) by lia.
  destruct (Z.ltb_spec de ds); [lia|]. rewrite Z.eqb_refl. cbn [orb negb].
  change (if c =? (we - 1) `div` cs then _ else cs) with (kept_len we size ((we - 1) `div` cs) c).
  destruct (kept_len_bounds we size c (cur s)) as (Hl1 & Hl2 & Hl3); try done; try lia.
  { intros b Hb. split; [by apply Hold|]. apply Hfit in Hb. lia. }
  set (len := kept_len _ _ _ _) in *.
  pose proof (λ s0 Hs0, wp_store_written m offset data c len s0 Hcs ltac:(lia) Hs0) as Hstore.
  cbv zeta in Hstore. fold we ds de src in Hstore.
  wp_step. destruct ((0 <? ds) || (de <? cs)) eqn:Hneed.
  - do 3 wp_step. rewrite padded_select. st.
    eapply wp_mono; [|apply (Hstore (tick s)); (exact Hab || exact Hfit || exact Hl3 || lia)].
    intros r s' (? & ? & ?). split; [done|]. split; [|done].
    eapply db_step_trans; [apply db_step_tick, db_step_refl|done].
  - apply orb_false_elim in Hneed as [Hn1%Z.ltb_ge Hn2%Z.ltb_ge]. wp_step.
    assert (Hds0 : ds = 0) by lia. rewrite Hds0 in *.
    rewrite (copy_all_padded _ (fs_data (cur s) !! (ino, c))) by (rewrite Vec.len_slice; lia).
    by apply Hstore; (done || lia).
Qed.

Lemma wp_pwrite_chunks m offset data size c k s :
  0 < cs → aborted s = false → chunk_fit cs m ino (cur s) →
  Z.max size (offset + Vec.len data) = m → 0 ≤ offset → offset + Vec.len data < 2 ^ 63 →
  0 ≤ size < 2 ^ 63 → 0 < Vec.len data → offset `div` cs ≤ c →
  (offset + Vec.len data - 1) `div` cs - c + 1 = Z.of_nat k →
  (∀ c' b, c ≤ c' → fs_data (cur s) !! (ino, c') = Some b → cs * c' + Vec.len b ≤ size) →
  wp (for_each (seqZ c (Z.of_nat k))
        (Path.pwrite_chunk fs ino offset (offset + Vec.len data) size
           ((offset + Vec.len data - 1) `div` cs) data)) s (λ r s',
    r = Ok tt ∧ db_step s s' ∧
    data_upd f m (Z.min (offset + Vec.len data) (Z.max offset (cs * c))) (offset + Vec.len data)
      (λ i, Vec.get data (i - offset)) (cur s) (cur s')).
Proof.
  intros Hcs. revert c s. induction k as [|k IH]; intros c s Hab Hfit Hm Ho Hwe Hsz Hl Hc Hk Hold.
  { rewrite seqZ_nil by lia. simpl. wp_steps. split; [done|]. split; [auto|].
    pose proof (Z.div_mod (offset + Vec.len data - 1) cs ltac:(lia)).
    pose proof (Z.mod_pos_bound (offset + Vec.len data - 1) cs Hcs).
    rewrite Z.min_l by nia. by apply data_upd_empty. }
  rewrite seqZ_cons by lia. cbn [for_each]. wp_step.
  replace (Z.pred (Z.of_nat (S k))) with (Z.of_nat k) by lia.
  eapply wp_mono; [|apply (wp_pwrite_chunk m offset data size c s); try done; try lia;
    intros b Hb; apply (Hold c b); [lia|done]].
  intros r s1 (-> & Hs1 & Hkeep & Hupd). cbv iota.
  pose proof (Z.div_mod (offset + Vec.len data - 1) cs ltac:(lia)).
  pose proof (Z.mod_pos_bound (offset + Vec.len data - 1) cs Hcs).
  pose proof (Z.div_mod offset cs ltac:(lia)). pose proof (Z.mod_pos_bound offset cs Hcs).
  eapply wp_mono; [|apply (IH (Z.succ c)); try done; try lia].
  - intros r s2 (-> & Hs2 & Hupd2). split; [done|]. split; [by eapply db_step_trans|].
    rewrite (Z.min_r (offset + Vec.len data) (Z.max offset (cs * c))) by nia.
    eapply data_upd_trans; [|exact Hupd|].
    + nia.
    + replace (Z.min (offset + Vec.len data) (cs * (c + 1)))
        with (Z.min (offset + Vec.len data) (Z.max offset (cs * Z.succ c))); [done|].
      by rewrite Z.max_r by nia.
  - by rewrite (db_step_aborted _ _ Hs1).
  - apply (du_fit _ _ _ _ _ Hupd).
  - intros c' b Hc' Hb. rewrite Hkeep in Hb by lia. apply (Hold c'); [lia|done].
Qed.
End chunk.

Section pwrite.
Context {E : Env} {HQ : Quiet E} {HL : LruLaws E} (fs : SecAFS).
Implicit Types s : state.
Abbreviation cs := (chunk_size fs).

(** The parent of a path that resolves resolves too. *)
Lemma walk_parent d cs' i :
  cs' ≠ [] → walk d ROOT_INO cs' = Some i → ∃ p, walk d ROOT_INO (removelast cs') = Some p.
Proof.
  intros Hne. destruct cs' as [|c l _] using rev_ind; [done|]. rewrite removelast_last, walk_last.
  destruct (walk d ROOT_INO l) as [p|]; [eauto|done].
Qed.
(** A step inside a transaction: [db_step] and [resolved] mixed. *)
Record inside (s s' : state) (d' : db) : Prop := {
  in_txn' : txn s' = Some (d', false);
  in_committed : committed s' = committed s;
}.
Lemma inside_cur s s' d' : inside s s' d' → cur s' = d' ∧ aborted s' = false.
Proof. intros [H _]. unfold cur, aborted. by rewrite H. Qed.
Lemma inside_resolved d s s' : txn s = Some (d, false) → resolved s s' → inside s s' d.
Proof. intros Ht []. split; congruence. Qed.
Lemma inside_step d s s1 s2 : inside s s1 d → db_step s1 s2 → inside s s2 (cur s2).
Proof.
  intros [Ht Hc] (Ht2 & Hc2 & _). rewrite Ht in Ht2, Hc2. split; [done|].
  rewrite Hc2; [done|]. by eexists.
Qed.

(** The rest of the body once the inode is known: the chunk loop. *)
Lemma wp_pwrite_loop ino offset data size s (Q : outcome unit → state → Prop) :
  0 < cs → aborted s = false → chunk_fit cs size ino (cur s) → 0 ≤ size < 2 ^ 63 →
  0 ≤ offset → offset + Vec.len data < 2 ^ 63 → data ≠ [] →
  (∀ s', db_step s s' →
    data_upd (mkFile ino cs) (Z.max size (offset + Vec.len data)) offset (offset + Vec.len data)
      (λ i, Vec.get data (i - offset)) (cur s) (cur s') → Q (Ok tt) s') →
  wp (for_each (seqZ (offset `div` cs)
        ((offset + Vec.len data - 1) `div` cs - offset `div` cs + 1))
        (Path.pwrite_chunk fs ino offset (offset + Vec.len data) size
           ((offset + Vec.len data - 1) `div` cs) data)) s Q.
Proof.
  intros Hcs Hab Hfit Hsz Ho Hwe Hne HQ'.
  assert (Hl : 0 < Vec.len data) by (destruct data; [done|unfold Vec.len; simpl; lia]).
  assert (Hle : offset `div` cs ≤ (offset + Vec.len data - 1) `div` cs).
  { apply Z.div_le_mono; lia. }
  pose proof (Z.div_mod offset cs ltac:(lia)). pose proof (Z.mod_pos_bound offset cs Hcs).
  pose proof (wp_pwrite_chunks fs ino (Z.max size (offset + Vec.len data)) offset data size
    (offset `div` cs)
    (Z.to_nat ((offset + Vec.len data - 1) `div` cs - offset `div` cs + 1)) s) as Hw.
  rewrite Z2Nat.id in Hw by lia.
  eapply wp_mono; [|apply Hw; try done; try lia].
  - intros r s' (-> & Hs & Hupd). apply HQ'; [done|].
    by rewrite Z.min_r, (Z.max_l offset) in Hupd by lia.
  - eapply chunk_fit_mono; [|done]. lia.
  - intros c' b Hc' Hb. apply Hfit in Hb. lia.
Qed.

(** The body of [pwrite] on an existing file. *)
Lemma wp_pwrite_existing path p n ino offset data d s :
  0 < cs → txn s = Some (d, false) → coherent (cache s) (fs_dentry d) →
  resolve d path = Some ino → is_Some (fs_inode d !! ino) → file_wf cs d ino →
  0 ≤ offset → offset + Vec.len data < 2 ^ 63 → data ≠ [] →
  wp (Path.pwrite_body fs path p n offset data) s (λ r s', r = Ok tt ∧ ∃ d',
    inside s s' d' ∧ coherent (cache s') (fs_dentry d') ∧
    contents cs d' ino = spec_write offset data (contents cs d ino) ∧
    file_wf cs d' ino ∧ file_frame ino d d').
Proof.
  intros Hcs Htx Hco Hres Hino Hwf Ho Hwe Hne. pose proof (wf_size _ _ _ Hwf) as Hsz.
  assert (Hcur : cur s = d ∧ aborted s = false) by (unfold cur, aborted; by rewrite Htx).
  destruct Hcur as [Hcur Hab]. unfold Path.pwrite_body, Path.get_or_create. wp_step. wp_step.
  eapply wp_resolved; [apply wp_resolve; [done|by rewrite Hcur]|]. intros s1 Hs1.
  pose proof (inside_resolved _ _ _ Htx Hs1) as Hi1. destruct (inside_cur _ _ _ Hi1) as [Hc1 Hab1].
  rewrite Hcur, Hres. wp_steps. rewrite Hc1. rewrite (row_size_select (mkFile ino cs)) by done.
  pose proof (Vec.len_nonneg data).
  assert (Hl : 0 < Vec.len data) by (destruct data; [done|unfold Vec.len; simpl; lia]).
  rewrite decide_False by done. destruct (Z.eqb_spec cs 0); [lia|].
  unfold Int.u64_add. rewrite !Int.u64_small by (rewrite ?Int.u64_small; lia).
  wp_step. apply wp_pwrite_loop; try done; try (by st; rewrite Hc1; apply (wf_fit _ _ _ Hwf)).
  st. intros s2 Hs2 Hupd. unfold when. simpl.
  pose proof (db_step_aborted _ _ Hs2) as Hab2. st. rewrite Hab1 in Hab2. wp_steps.
  split; [done|]. eexists. split.
  { eapply inside_step; [exact Hi1|]. apply db_step_set_cur, db_step_tick, db_step_tock.
    eapply db_step_trans; [|exact Hs2]. auto. }
  destruct Hs2 as (_ & _ & Hca2 & _). st. rewrite Hc1 in *.
  assert (Hlw : Vec.len (spec_write offset data (contents cs d ino)) =
    Z.max (file_size d ino) (offset + Vec.len data)) by (by rewrite len_spec_write, contents_len).
  split.
  { autorewrite with secafs_db. rewrite (du_dentry _ _ _ _ _ Hupd), Hca2.
    destruct Hs1 as [_ _ _ _ Hk]. rewrite Hcur in Hk. auto. }
  eapply (rewrite_refines (mkFile ino cs)); [done|lia|rewrite Hlw; exact Hupd|..];
    try (autorewrite with secafs_db; done).
  - intros i Hi. cbv beta. rewrite get_spec_write by done. case_decide; [done|].
    by rewrite contents_get.
  - intros r. simpl. rewrite Hlw, Int.i64_small; lia.
Qed.

(** A stored file whose bytes are those of [c] and whose size is its length. *)
Lemma stored_refines ino c n h d d' :
  data_chg (mkFile ino cs) n h d d' → file_size d' ino = n → Vec.len c = n → n < 2 ^ 63 →
  (∀ i, 0 ≤ i < n → h i = Vec.get c i) → contents cs d' ino = c ∧ file_wf cs d' ino.
Proof.
  intros [B C _ _ _ _] Hsz Hl Hn Hh. pose proof (Vec.len_nonneg c). split.
  - apply contents_ext; [by rewrite Hsz|]. intros i Hi. rewrite <- Hh by lia.
    symmetry. apply B. lia.
  - split; [lia|]. by rewrite Hsz.
Qed.

(** The chunks of a file that had none become the data after a hole. *)
Lemma written_new ino offset data d d' :
  0 ≤ offset → offset + Vec.len data < 2 ^ 63 → 0 < Vec.len data →
  (∀ c, fs_data d !! (ino, c) = None) → file_size d' ino = offset + Vec.len data →
  data_upd (mkFile ino cs) (Z.max 0 (offset + Vec.len data)) offset (offset + Vec.len data)
    (λ i, Vec.get data (i - offset)) d d' →
  contents cs d' ino = spec_write offset data [] ∧ file_wf cs d' ino.
Proof.
  intros Ho Hwe Hl Hn0 Hsz Hupd. eapply stored_refines; [exact Hupd|..].
  - lia.
  - rewrite len_spec_write by done. unfold Vec.len. simpl. lia.
  - lia.
  - intros i Hi. cbv beta. rewrite get_spec_write by lia. repeat case_decide; try done.
    unfold byte_at. simpl. rewrite Hn0. symmetry. apply Vec.get_beyond. unfold Vec.len. simpl. lia.
Qed.

(** The body of [pwrite] on a new name. *)
Lemma wp_pwrite_new path p n offset data d s :
  0 < cs → txn s = Some (d, false) → coherent (cache s) (fs_dentry d) → fresh_ids s →
  resolve d path = None → child d p n = None →
  0 ≤ offset → offset + Vec.len data < 2 ^ 63 → data ≠ [] →
  wp (Path.pwrite_body fs path p n offset data) s (λ r s', r = Ok tt ∧ ∃ d',
    inside s s' d' ∧ coherent (cache s') (fs_dentry d') ∧
    child d' p n = Some (seq_ino s + 1) ∧
    contents cs d' (seq_ino s + 1) = spec_write offset data [] ∧
    file_wf cs d' (seq_ino s + 1) ∧
    (∀ j, j ≠ seq_ino s + 1 → fs_inode d' !! j = fs_inode d !! j ∧
      contents cs d' j = contents cs d j)).
Proof.
  intros Hcs Htx Hco Hfr Hres Hfree Ho Hwe Hne. pose proof (Vec.len_nonneg data).
  assert (Hcur : cur s = d ∧ aborted s = false) by (unfold cur, aborted; by rewrite Htx).
  destruct Hcur as [Hcur Hab]. unfold Path.pwrite_body, Path.get_or_create. wp_step. wp_step.
  eapply wp_resolved; [apply wp_resolve; [done|by rewrite Hcur]|]. intros s1 Hs1.
  pose proof (inside_resolved _ _ _ Htx Hs1) as Hi1. destruct (inside_cur _ _ _ Hi1) as [Hc1 Hab1].
  pose proof (fresh_resolved _ _ Hs1 Hfr) as Hfr1. pose proof (rs_seq_ino _ _ Hs1) as Hsi1.
  rewrite Hcur, Hres. wp_steps.
  unfold Int.u64_add. rewrite !Int.u64_small by (rewrite ?Int.u64_small; lia).
  rewrite Int.i64_small by lia.
  apply wp_insert_inode; [by st|st; apply Hfr1; lia|]. intros d1 I1 D1 A1 S1. fs_steps.
  apply wp_insert_dentry; [by st|tables; apply Hfr1|tables; rewrite Hc1; by apply child_None|].
  intros d2 D2 I2 A2 S2. fs_steps. st.
  rewrite decide_False by done. destruct (Z.eqb_spec cs 0); [lia|].
  set (s2 := set_cur d2 _). assert (Hc2 : cur s2 = d2) by (unfold s2; by st).
  assert (Hn0 : ∀ c, fs_data d2 !! (seq_ino s1 + 1, c) = None).
  { intros c. rewrite A2, A1. apply (fresh_data _ Hfr1 (_, _)). simpl. lia. }
  assert (Hl : 0 < Vec.len data) by (destruct data; [done|unfold Vec.len; simpl; lia]).
  rewrite (Int.u64_small (offset + Vec.len data - 1)) by lia.
  wp_step. apply wp_pwrite_loop; [done|unfold s2; by st| |lia|done|done|done|].
  { rewrite Hc2. intros c b. by rewrite Hn0. }
  rewrite Hc2. intros s3 Hs3 Hupd. unfold when. simpl. wp_steps. split; [done|].
  assert (Hi2 : inside s s2 d2).
  { destruct Hi1 as [Ht1 Hcm1]. split; unfold s2; [by st; rewrite Ht1|].
    unfold set_cur. st. rewrite Ht1. simpl. done. }
  exists (cur s3). split; [by eapply inside_step|].
  destruct Hs3 as (_ & _ & Hca3 & _). destruct (id Hupd) as [B C O I D S].
  assert (Hdm : fs_dentry (cur s3) =
    <[(p, n):=mkDentry (seq_dentry s1 + 1) (seq_ino s1 + 1)]> (fs_dentry d)).
  { rewrite D, D2. st. by rewrite D1, Hc1. }
  assert (Hfile : contents cs (cur s3) (seq_ino s1 + 1) = spec_write offset data [] ∧
    file_wf cs (cur s3) (seq_ino s1 + 1)).
  { eapply written_new; [done..| |exact Hupd].
    unfold file_size. rewrite I, I2, I1, lookup_insert_eq. done. }
  rewrite <- Hsi1. split_and!; [|..|apply Hfile|apply Hfile|].
  - rewrite Hca3, Hdm. unfold s2. st. destruct Hs1 as [_ _ _ _ Hk]. rewrite Hcur in Hk.
    apply coherent_free; [auto|by apply child_None].
  - unfold child. by rewrite Hdm, lookup_insert_eq.
  - intros j Hj. assert (Hij : fs_inode (cur s3) !! j = fs_inode d !! j).
    { rewrite I, I2, I1, lookup_insert_ne, Hc1; done. }
    split; [done|]. apply contents_frame; [done|]. intros c.
    rewrite (O (j, c)) by done. by rewrite A2, A1, Hc1.
Qed.

(** From the body to the operation: resolve the parent, run the body in a transaction,
    commit. *)
Lemma wp_pwrite_txn path p offset data s (P : db → Prop) :
  txn s = None → coherent (cache s) (fs_dentry (cur s)) → names path ≠ [] →
  walk (cur s) ROOT_INO (removelast (names path)) = Some p →
  (∀ s1, txn s1 = Some (cur s, false) → coherent (cache s1) (fs_dentry (cur s)) →
    seq_ino s1 = seq_ino s → (fresh_ids s → fresh_ids s1) →
    wp (Path.pwrite_body fs (normalize_path path) p (last_component (names path)) offset data) s1
      (λ r s', r = Ok tt ∧ ∃ d', inside s1 s' d' ∧ coherent (cache s') (fs_dentry d') ∧ P d')) →
  wp (Path.pwrite fs path offset data) s (λ r s', r = Ok tt ∧ txn s' = None ∧
    coherent (cache s') (fs_dentry (cur s')) ∧ ∃ d', cur s' = end_local d' ∧ P d').
Proof.
  intros Htx Hco Hne Hw Hbody. pose proof (no_txn_aborted s Htx) as Hab.
  pose proof (no_txn_cur s Htx) as Hcur. unfold Path.pwrite. wp_steps. cbv zeta. fold (names path).
  rewrite decide_False by done. wp_step.
  apply wp_resolve_parent; [by st|by st|done|apply names_clean|]. st. intros s1 Hs1.
  rewrite Hw. wp_step. pose proof (rs_txn _ _ Hs1) as Ht1. st. rewrite Htx in Ht1.
  apply wp_begin; [done|]. wp_step. apply wp_attempt.
  pose proof (resolved_cur _ _ Hs1) as Hc1. st.
  assert (Hcm : committed s1 = cur s) by (rewrite (rs_committed _ _ Hs1); by st).
  eapply wp_mono; [|apply Hbody].
  - intros r s2 (-> & d' & [Ht2 _] & Hco2 & HP). cbv iota.
    eapply wp_finish_ok; [exact Ht2|]. st. split; [done|]. split; [done|].
    split; [done|]. by exists d'.
  - st. by rewrite Hcm.
  - st. rewrite <- Hc1. apply (resolved_coherent _ _ Hs1). by st.
  - st. by apply (rs_seq_ino _ _ Hs1).
  - intros Hf. apply (fresh_ids_step s); try done; st; rewrite ?Hcm;
      rewrite ?(rs_seq_ino _ _ Hs1), ?(rs_seq_dentry _ _ Hs1); st; (done || eauto).
Qed.

Lemma file_wf_end_local d i : file_wf cs d i → file_wf cs (end_local d) i.
Proof. intros []. by split. Qed.
Lemma file_frame_end_local i d d' : file_frame i d d' → file_frame i d (end_local d').
Proof. intros []. by split. Qed.
End pwrite.

Section truncate.
Context {E : Env} {HQ : Quiet E} (fs : SecAFS) (ino : Z).
Implicit Types s : state.
Abbreviation cs := (chunk_size fs).
Abbreviation f := (mkFile ino (chunk_size fs)).

Lemma wp_with_chunk c k s (Q : outcome unit → state → Prop) :
  aborted s = false →
  match fs_data (cur s) !! (ino, c) with
  | Some b => wp (k b) (tick s) Q
  | None => Q (Ok tt) (tick s)
  end → wp (Path.with_chunk ino c k) s Q.
Proof.
  intros Hab HQ'. unfold Path.with_chunk. wp_steps. unfold select_chunk.
  by destruct (fs_data (cur s) !! (ino, c)).
Qed.

(** The end of the file in its last chunk, counted from one. *)
Lemma end_in_chunk n :
  0 < cs → 0 < n →
  (n - 1) `mod` cs + 1 = if decide (n `mod` cs = 0) then cs else n `mod` cs.
Proof.
  intros Hcs Hn. pose proof (Z.div_mod n cs ltac:(lia)) as Hd.
  pose proof (Z.mod_pos_bound n cs Hcs) as Hm. case_decide as Hz.
  - assert (Hmod : (n - 1) `mod` cs = cs - 1); [|lia]. symmetry.
    apply Z.mod_unique with (n `div` cs - 1); lia.
  - assert (Hmod : (n - 1) `mod` cs = n `mod` cs - 1); [|lia]. symmetry.
    apply Z.mod_unique with (n `div` cs); lia.
Qed.

Lemma wp_truncate_shrink size n s :
  0 < cs → aborted s = false → chunk_fit cs size ino (cur s) → 0 < n < size → size < 2 ^ 63 →
  wp (Path.truncate_shrink fs ino n) s (λ r s',
    r = Ok tt ∧ db_step s s' ∧ data_cut f n (cur s) (cur s')).
Proof.
  intros Hcs Hab Hfit Hn Hsz. unfold Path.truncate_shrink, when. cbv zeta.
  assert (Hc : 0 ≤ (n - 1) `div` cs ≤ n - 1).
  { split; [apply Z.div_pos; lia|]. apply Z.div_le_upper_bound; nia. }
  rewrite Int.i64_small by lia. wp_steps. st.
  change (delete_data_where _ (cur s)) with (drop_after f n (cur s)).
  rewrite end_in_chunk by lia. pose proof (Z.mod_pos_bound n cs Hcs).
  destruct (decide (n `mod` cs = 0)) as [Hz|Hz].
  { rewrite Z.ltb_irrefl. wp_steps. st. split; [done|]. split; [auto|].
    apply (data_cut_drop f size); try done; [lia|lia|]. intros b _. by left. }
  rewrite (proj2 (Z.ltb_lt _ _)) by lia. apply wp_with_chunk; [by st|]. st.
  pose proof (lookup_drop_after_last f n (cur s)) as Hlast. cbn [f_ino f_chunk_size] in Hlast.
  rewrite Hlast.
  destruct (fs_data (cur s) !! (ino, (n - 1) `div` cs)) as [b|] eqn:Hb.
  2:{ split; [done|]. st. split; [auto 10|]. apply (data_cut_drop f size); try done; [lia|lia|].
      cbn [f_ino f_chunk_size]. rewrite Hb. done. }
  destruct (Z.ltb_spec (n `mod` cs) (Vec.len b)); wp_steps; st; (split; [done|]);
    (split; [auto 10|]).
  - apply (data_cut_take f size); try done; cbn [f_ino f_chunk_size]; lia.
  - apply (data_cut_drop f size); try done; [lia|lia|]. cbn [f_ino f_chunk_size].
    rewrite Hb. intros ? [= <-]. by right.
Qed.

(** Storing a chunk whose bytes read the same. *)
Definition data_same (n : Z) (d d' : db) : Prop :=
  data_chg f n (λ i, byte_at cs d ino i) d d'.
Lemma data_same_refl n d : chunk_fit cs n ino d → data_same n d d.
Proof. by intros. Qed.
Lemma data_same_trans n d d' d'' : data_same n d d' → data_same n d' d'' → data_same n d d''.
Proof.
  intros [B1 C1 O1 I1 D1 S1] [B2 C2 O2 I2 D2 S2]. split; try congruence; try done.
  - intros i Hi. rewrite B2, <- B1; done.
  - intros k Hk. by rewrite O2, O1.
Qed.
Lemma data_same_chunk m c b d d' :
  0 < cs → 0 ≤ c → 0 < Vec.len b ≤ cs → cs * c + Vec.len b ≤ m → chunk_fit cs m ino d →
  (∀ j, 0 ≤ j < cs → Vec.get b j = Vec.get (default [] (fs_data d !! (ino, c))) j) →
  fs_data d' = <[(ino, c):=b]> (fs_data d) →
  fs_inode d' = fs_inode d → fs_dentry d' = fs_dentry d → fs_symlink d' = fs_symlink d →
  data_same m d d'.
Proof.
  intros Hcs Hc Hb Hm Hfit Hget Hd Hi Hde Hsy.
  destruct (data_upd_chunk f m c 0 0 b (λ _, x00) d d') as [B C O I D S];
    cbn [f_ino f_chunk_size]; try done; try lia.
  { intros j Hj. rewrite decide_False by lia. by apply Hget. }
  split; try done. intros i Hi0. rewrite B by done. by rewrite decide_False by lia.
Qed.
Lemma get_resize_grow k b j : Vec.len b ≤ k → Vec.get (Vec.resize k b) j = Vec.get b j.
Proof.
  intros Hk. rewrite Vec.get_resize. case_decide; [done|]. symmetry. apply Vec.get_beyond. lia.
Qed.

(** The loop that stores zero chunks after the last one. *)
Lemma wp_zero_chunks n c k s :
  0 < cs → aborted s = false → 0 < n < 2 ^ 63 → chunk_fit cs n ino (cur s) → 0 ≤ c →
  (n - 1) `div` cs - c + 1 = Z.of_nat k →
  (∀ c', c ≤ c' → fs_data (cur s) !! (ino, c') = None) →
  wp (for_each (seqZ c (Z.of_nat k)) (λ chunk_idx,
        execute (insert_data_row (ino, Int.i64 chunk_idx)
          (Vec.zeros (if chunk_idx =? (n - 1) `div` cs then (n - 1) `mod` cs + 1 else cs))))) s
    (λ r s', r = Ok tt ∧ db_step s s' ∧ data_same n (cur s) (cur s')).
Proof.
  intros Hcs. revert c s. induction k as [|k IH]; intros c s Hab Hn Hfit Hc Hk Hnone.
  { rewrite seqZ_nil by lia. simpl. wp_steps. split; [done|]. split; [auto|].
    by apply data_same_refl. }
  pose proof (Z.div_mod (n - 1) cs ltac:(lia)) as Hd.
  pose proof (Z.mod_pos_bound (n - 1) cs Hcs) as Hm.
  assert (Hcn : 0 ≤ cs * c ≤ n - 1) by nia. assert (c ≤ cs * c) by nia.
  rewrite seqZ_cons by lia. cbn [for_each]. wp_step.
  replace (Z.pred (Z.of_nat (S k))) with (Z.of_nat k) by lia.
  set (len := if c =? (n - 1) `div` cs then _ else cs).
  assert (Hlen : 0 < len ≤ cs ∧ cs * c + len ≤ n).
  { unfold len. destruct (Z.eqb_spec c ((n - 1) `div` cs)) as [->|]; nia. }
  rewrite Int.i64_small by lia. apply wp_insert_data; [done|by apply Hnone|].
  intros d Hda Hi Hde Hsy. cbv iota.
  assert (Hsame : data_same n (cur s) d).
  { apply (data_same_chunk n c (Vec.zeros len)); try done; rewrite ?Vec.len_zeros; try lia.
    intros j Hj. rewrite Vec.get_zeros, Hnone by lia. symmetry. apply Vec.get_beyond.
    unfold Vec.len. simpl. lia. }
  eapply wp_mono; [|apply (IH (Z.succ c)); try done; try lia].
  - intros r s' (-> & Hs' & Hsame'). st. split; [done|].
    split; [eapply db_step_trans; [|exact Hs']; auto|]. by eapply data_same_trans.
  - by st.
  - st. apply Hsame.
  - intros c' Hc'. st. rewrite Hda, lookup_insert_ne by (intros [= ?]; lia). apply Hnone. lia.
Qed.

(** The last chunk there is, padded to its new length. *)
Lemma wp_pad_last size n s :
  0 < cs → aborted s = false → chunk_fit cs size ino (cur s) → 0 < size < n → n < 2 ^ 63 →
  let last := (size - 1) `div` cs in
  wp (Path.with_chunk ino (Int.i64 last) (λ chunk_data,
        let needed_len :=
          if last =? (n - 1) `div` cs then (n - 1) `mod` cs + 1 else cs in
        when (Vec.len chunk_data <? needed_len)
          (execute_ (update_data_row (ino, Int.i64 last) (Vec.resize needed_len chunk_data))))) s
    (λ r s', r = Ok tt ∧ db_step s s' ∧ data_same n (cur s) (cur s') ∧
      (∀ c', last < c' → fs_data (cur s') !! (ino, c') = None)).
Proof.
  intros Hcs Hab Hfit Hsz Hn last.
  pose proof (Z.div_mod (n - 1) cs ltac:(lia)) as Hd. pose proof (Z.mod_pos_bound (n - 1) cs Hcs).
  pose proof (Z.div_mod (size - 1) cs ltac:(lia)) as Hds. fold last in Hds.
  pose proof (Z.mod_pos_bound (size - 1) cs Hcs).
  assert (Hl : 0 ≤ last ≤ cs * last) by (assert (0 ≤ last) by (apply Z.div_pos; lia); nia).
  assert (Hln : last ≤ (n - 1) `div` cs) by (apply Z.div_le_mono; lia).
  assert (Hnone : ∀ c', last < c' → fs_data (cur s) !! (ino, c') = None).
  { intros c' Hc'. destruct (fs_data (cur s) !! (ino, c')) eqn:Hb; [|done].
    apply Hfit in Hb. nia. }
  assert (Hfit' : chunk_fit cs n ino (cur s)) by (eapply chunk_fit_mono; [|done]; lia).
  rewrite Int.i64_small by lia. apply wp_with_chunk; [done|].
  destruct (fs_data (cur s) !! (ino, last)) as [b|] eqn:Hb.
  2:{ split; [done|]. st. split; [auto|]. split; [by apply data_same_refl|done]. }
  pose proof (Hfit _ _ Hb) as (_ & Hbl & _). cbv zeta. set (len := if _ =? _ then _ else cs).
  assert (Hlen : 0 < len ≤ cs ∧ cs * last + len ≤ n).
  { unfold len. destruct (Z.eqb_spec last ((n - 1) `div` cs)) as [->|]; nia. }
  unfold when. destruct (Z.ltb_spec (Vec.len b) len) as [Hlt|Hge]; wp_steps; st.
  2:{ split; [done|]. split; [auto|]. split; [by apply data_same_refl|done]. }
  split; [done|]. split; [auto|]. split.
  - apply (data_same_chunk n last (Vec.resize len b)); try done; try (by autorewrite with secafs_db);
      rewrite ?Vec.len_resize by lia; try lia.
    + intros j Hj. rewrite Hb. simpl. apply get_resize_grow. lia.
    + by rewrite fs_data_update_row.
  - intros c' Hc'. rewrite fs_data_update_row by (by eexists).
    rewrite lookup_insert_ne by (intros [= ?]; lia). by apply Hnone.
Qed.

Lemma wp_truncate_extend size n s :
  0 < cs → aborted s = false → chunk_fit cs size ino (cur s) → 0 ≤ size < n → n < 2 ^ 63 →
  wp (Path.truncate_extend fs ino size n) s (λ r s',
    r = Ok tt ∧ db_step s s' ∧ data_same n (cur s) (cur s')).
Proof.
  intros Hcs Hab Hfit Hsz Hn. unfold Path.truncate_extend. cbv zeta.
  assert (Hln : 0 ≤ (n - 1) `div` cs) by (apply Z.div_pos; lia).
  destruct (Z.eqb_spec size 0) as [->|Hs0]; simpl.
  - wp_step. wp_step.
    pose proof (wp_zero_chunks n 0 (Z.to_nat ((n - 1) `div` cs - 0 + 1)) s) as Hw.
    rewrite Z2Nat.id in Hw by lia. apply Hw; try done; try lia.
    + eapply chunk_fit_mono; [|done]. lia.
    + intros c' Hc'. destruct (fs_data (cur s) !! (ino, c')) eqn:Hb; [|done].
      apply Hfit in Hb. nia.
  - wp_step. eapply wp_mono; [|apply (wp_pad_last size n s); (done || lia)].
    intros r s1 (-> & Hs1 & Hsame & Hnone). cbv iota.
    assert (Hll : (size - 1) `div` cs ≤ (n - 1) `div` cs) by (apply Z.div_le_mono; lia).
    assert (Hl0 : 0 ≤ (size - 1) `div` cs) by (apply Z.div_pos; lia).
    pose proof (wp_zero_chunks n ((size - 1) `div` cs + 1)
      (Z.to_nat ((n - 1) `div` cs - ((size - 1) `div` cs + 1) + 1)) s1) as Hw.
    rewrite Z2Nat.id in Hw by lia. eapply wp_mono; [|apply Hw; try done; try lia].
    + intros r s' (-> & Hs' & Hsame'). split; [done|]. split; [by eapply db_step_trans|].
      by eapply data_same_trans.
    + by rewrite (db_step_aborted _ _ Hs1).
    + apply Hsame.
    + intros c' Hc'. apply Hnone. lia.
Qed.

(** All four cases of [truncate_body] at once: the chunks become those of the resized
    contents. *)
Lemma wp_truncate_data n s (Q : outcome unit → state → Prop) :
  0 < cs → aborted s = false → file_wf cs (cur s) ino → 0 ≤ n < 2 ^ 63 →
  (∀ s' h, db_step s s' → data_chg f n h (cur s) (cur s') →
    (∀ i, 0 ≤ i → h i = Vec.get (spec_truncate n (contents cs (cur s) ino)) i) → Q (Ok tt) s') →
  wp (if n =? 0 then execute_ (delete_data_where (λ k, bool_decide (k.1 = ino)))
      else if n <? file_size (cur s) ino then
        if cs =? 0 then panic else Path.truncate_shrink fs ino n
      else if file_size (cur s) ino <? n then
        if cs =? 0 then panic else Path.truncate_extend fs ino (file_size (cur s) ino) n
      else mret tt) s Q.
Proof.
  intros Hcs Hab Hwf Hn HQ'. pose proof (wf_size _ _ _ Hwf) as Hsz.
  assert (Hget : ∀ i, 0 ≤ i → Vec.get (spec_truncate n (contents cs (cur s) ino)) i =
    if decide (i < n) then byte_at cs (cur s) ino i else x00).
  { intros i Hi. unfold spec_truncate. rewrite Vec.get_resize. case_decide; [|done].
    by rewrite contents_get. }
  assert (Hcut : ∀ s', db_step s s' → data_cut f n (cur s) (cur s') → Q (Ok tt) s').
  { intros s' Hs' Hc. eapply HQ'; [done|exact Hc|]. intros i Hi. by rewrite Hget. }
  assert (Hsame : ∀ s', file_size (cur s) ino ≤ n → db_step s s' →
    data_same n (cur s) (cur s') → Q (Ok tt) s').
  { intros s' Hle Hs' Hc. eapply HQ'; [done|exact Hc|]. intros i Hi. cbv beta. rewrite Hget by done.
    case_decide; [done|]. apply wf_tail; (done || lia). }
  destruct (Z.eqb_spec n 0) as [->|Hn0].
  { wp_steps. apply Hcut; [auto|]. st. apply (data_cut_all f). }
  destruct (Z.eqb_spec cs 0); [lia|].
  destruct (Z.ltb_spec n (file_size (cur s) ino)).
  { eapply wp_mono; [|apply (wp_truncate_shrink (file_size (cur s) ino)); try done; try lia;
      apply (wf_fit _ _ _ Hwf)].
    intros r s' (-> & ? & ?). by apply Hcut. }
  destruct (Z.ltb_spec (file_size (cur s) ino) n).
  { eapply wp_mono; [|apply (wp_truncate_extend (file_size (cur s) ino) n); try done; try lia;
      apply (wf_fit _ _ _ Hwf)].
    intros r s' (-> & ? & ?). apply Hsame; (done || lia). }
  wp_steps. apply Hsame; [lia|auto|]. apply data_same_refl.
  eapply chunk_fit_mono; [|apply (wf_fit _ _ _ Hwf)]. lia.
Qed.
End truncate.

Section theorems.
Context {E : Env} {HQ : Quiet E} {HL : LruLaws E} (fs : SecAFS).
Implicit Types s : state.
Abbreviation cs := (chunk_size fs).

(** Writing by path to an existing file splices the data into its contents, exactly as
    the handle's [pwrite] does although the code is different; no other file, entry or
    symlink changes. *)
Theorem path_pwrite_refines path ino offset data s :
  sys_inv s → 0 < cs → names path ≠ [] → walk (cur s) ROOT_INO (names path) = Some ino →
  is_Some (fs_inode (cur s) !! ino) → file_wf cs (cur s) ino →
  0 ≤ offset → offset + Vec.len data < 2 ^ 63 → data ≠ [] →
  ∃ s', Path.pwrite fs path offset data s = (Ok tt, s') ∧ txn s' = None ∧
    coherent (cache s') (fs_dentry (cur s')) ∧
    contents cs (cur s') ino = spec_write offset data (contents cs (cur s) ino) ∧
    file_wf cs (cur s') ino ∧ file_frame ino (cur s) (cur s').
Proof.
  intros [Htx _ _ Hco] Hcs Hne Hw Hino Hwf Ho Hwe Hd. apply wp_ok.
  destruct (walk_parent _ _ _ Hne Hw) as [p Hp].
  eapply wp_mono; [|apply (wp_pwrite_txn fs path p offset data s (λ d',
    contents cs d' ino = spec_write offset data (contents cs (cur s) ino) ∧
    file_wf cs d' ino ∧ file_frame ino (cur s) d')); try done].
  - intros r s' (-> & Ht & Hco' & d' & Hc & Hr & Hwf' & Hff). split; [done|]. split; [done|].
    split; [done|]. rewrite Hc. split; [done|].
    split; [by apply file_wf_end_local|by apply file_frame_end_local].
  - intros s1 Ht1 Hco1 _ _. by apply wp_pwrite_existing.
Qed.

(** Writing by path to a free name creates a file there whose contents are the data
    after [offset] zeros; every other inode and its contents are untouched. *)
Theorem path_pwrite_creates path p n offset data s :
  sys_inv s → 0 < cs → create_at (cur s) path = inl (p, n) →
  0 ≤ offset → offset + Vec.len data < 2 ^ 63 → data ≠ [] →
  ∃ s', Path.pwrite fs path offset data s = (Ok tt, s') ∧ txn s' = None ∧
    child (cur s') p n = Some (seq_ino s + 1) ∧
    contents cs (cur s') (seq_ino s + 1) = spec_write offset data [] ∧
    file_wf cs (cur s') (seq_ino s + 1) ∧
    (∀ j, j ≠ seq_ino s + 1 → fs_inode (cur s') !! j = fs_inode (cur s) !! j ∧
      contents cs (cur s') j = contents cs (cur s) j).
Proof.
  intros [Htx Hf _ Hco] Hcs (Hne & Hp & -> & Hfree)%create_at_inl Ho Hwe Hd. apply wp_ok.
  set (n := last_component (names path)) in *.
  eapply wp_mono; [|apply (wp_pwrite_txn fs path p offset data s (λ d',
    child d' p n = Some (seq_ino s + 1) ∧
    contents cs d' (seq_ino s + 1) = spec_write offset data [] ∧
    file_wf cs d' (seq_ino s + 1) ∧
    (∀ j, j ≠ seq_ino s + 1 → fs_inode d' !! j = fs_inode (cur s) !! j ∧
      contents cs d' j = contents cs (cur s) j))); try done].
  - intros r s' (-> & Ht & Hco' & d' & Hc & Hch & Hr & Hwf' & Hoth). split; [done|]. split; [done|].
    rewrite Hc. split_and!; try done. by apply file_wf_end_local.
  - intros s1 Ht1 Hco1 Hsi Hf1. rewrite <- Hsi. apply wp_pwrite_new; try done; [by apply Hf1|].
    rewrite resolve_names.
    rewrite (names_split path) by done. by rewrite walk_last, Hp.
Qed.

(** Truncating by path cuts the contents or extends them with zeros, although it
    stores zero chunks where the handle's [truncate] leaves holes; no other file
    changes. *)
Theorem path_truncate_refines path ino n s :
  sys_inv s → 0 < cs → walk (cur s) ROOT_INO (names path) = Some ino →
  is_Some (fs_inode (cur s) !! ino) → file_wf cs (cur s) ino → 0 ≤ n < 2 ^ 63 →
  ∃ s', Path.truncate fs path n s = (Ok tt, s') ∧ txn s' = None ∧
    coherent (cache s') (fs_dentry (cur s')) ∧
    contents cs (cur s') ino = spec_truncate n (contents cs (cur s) ino) ∧
    file_wf cs (cur s') ino ∧ file_frame ino (cur s) (cur s').
Proof.
  intros [Htx _ _ Hco] Hcs Hw Hino Hwf Hn. apply wp_ok. pose proof (wf_size _ _ _ Hwf) as Hsz.
  pose proof (no_txn_aborted s Htx) as Hab. pose proof (no_txn_cur s Htx) as Hcur.
  unfold Path.truncate. wp_steps. eapply wp_resolved; [by apply wp_resolve|]. intros s1 Hs1. st.
  pose proof (rs_txn _ _ Hs1) as Ht1. st. rewrite Htx in Ht1.
  pose proof (no_txn_aborted s1 Ht1) as Hab1. pose proof (resolved_cur _ _ Hs1) as Hc1. st.
  assert (Hcm : committed s1 = cur s) by (rewrite (rs_committed _ _ Hs1); by st).
  rewrite resolve_names, Hw. fs_steps. rewrite Hc1, (row_size_select (mkFile ino cs)) by done.
  apply wp_begin; [by st|]. wp_step. apply wp_attempt. unfold Path.truncate_body. st. rewrite Hcm.
  set (s2 := set_txn _ _). assert (Hc2 : cur s2 = cur s) by done.
  wp_step. apply (wp_truncate_data fs ino n s2); try done; rewrite ?Hc2; try done.
  intros s3 h Hs3 Hchg Hh. pose proof (db_step_aborted _ _ Hs3) as Hab3. unfold s2 in Hab3. st.
  destruct Hs3 as (Ht3 & _ & Hca3 & _). unfold s2 in Ht3, Hca3. st. simpl in Ht3.
  wp_steps. eapply wp_finish_ok; [by st; rewrite Ht3|]. st. split; [done|]. split; [done|]. simpl.
  assert (Hlt : Vec.len (spec_truncate n (contents cs (cur s) ino)) = n).
  { apply Vec.len_resize. lia. }
  split.
  { autorewrite with secafs_db. rewrite (du_dentry _ _ _ _ _ Hchg), Hca3, <- Hc1.
    by apply (resolved_coherent _ _ Hs1); st. }
  eapply (rewrite_refines (mkFile ino cs)); [done|lia|rewrite Hlt; exact Hchg|exact Hh|..];
    try (autorewrite with secafs_db; done).
  intros r. simpl. rewrite Hlt. apply Int.i64_small. lia.
Qed.

(** A file with one chunk. *)
Lemma file_chunks_single ino d c b :
  (∀ c' b', fs_data d !! (ino, c') = Some b' ↔ c' = c ∧ b' = b) → file_chunks ino d = [(c, b)].
Proof.
  intros Hone.
  assert (Hin : ∀ c' b', (c', b') ∈ file_chunks ino d ↔ c' = c ∧ b' = b).
  { intros. by rewrite elem_of_file_chunks. }
  pose proof (file_chunks_sorted ino d) as Hs.
  destruct (file_chunks ino d) as [|[c1 b1] l].
  { exfalso. assert (H : (c, b) ∈ @nil (Z * list byte)) by (by apply Hin).
    by apply not_elem_of_nil in H. }
  destruct (Hin c1 b1) as [H1 _]. destruct H1 as [-> ->]; [by left|].
  apply StronglySorted_inv in Hs as [_ Hall]. destruct l as [|[c2 b2] l]; [done|].
  destruct (Hin c2 b2) as [H2 _]. destruct H2 as [-> ->]; [by right; left|].
  apply Forall_cons in Hall as [Hlt _]. simpl in Hlt. lia.
Qed.

(** [read_file] concatenates the stored chunks and ignores holes and the file size:
    of a file whose only chunk lies after a hole it returns that chunk alone, shorter
    than the contents a handle reads. *)
Theorem read_file_drops_holes path ino c b s :
  sys_inv s → is_absolute path = true → walk (cur s) ROOT_INO (names path) = Some ino →
  0 < cs → file_wf cs (cur s) ino → 0 < c →
  (∀ c' b', fs_data (cur s) !! (ino, c') = Some b' ↔ c' = c ∧ b' = b) →
  ∃ s', Path.read_file path s = (Ok (Some b), s') ∧
    Vec.len b < Vec.len (contents cs (cur s) ino).
Proof.
  intros [Htx _ _ Hco] Habs Hw Hcs Hwf Hc Hone. apply wp_ok.
  pose proof (no_txn_aborted s Htx) as Hab. unfold Path.read_file. wp_steps.
  eapply wp_resolved; [by apply wp_resolve|]. intros s1 Hs1. st.
  rewrite <- resolve_normalize, resolve_names, Hw by done.
  pose proof (resolved_aborted _ _ Hs1) as Hab1. st. rewrite Hab in Hab1. wp_steps.
  rewrite (resolved_cur _ _ Hs1). st. unfold select_all_data.
  rewrite (file_chunks_single ino _ c b) by done. simpl. rewrite app_nil_r. split; [done|].
  rewrite contents_len by done. destruct (Hone c b) as [_ Hcb].
  destruct (wf_fit _ _ _ Hwf c b) as (_ & _ & ?); [by apply Hcb|]. nia.
Qed.
End theorems.

(** ** Witnesses *)

Definition demo_chunks : SecAFS := mkSecAFS 4.
(** [/f] with three bytes in its third chunk only. *)
Definition sparse : @state calm_env :=
  set_committed (set_fs_data {[ (2, 2) := [x61; x62; x63] ]}
    (set_fs_inode (<[2:=new_inode DEFAULT_FILE_MODE 1 0 0 11 0 (0, 0)]> (fs_inode demo_db)) demo_db))
    demo.

Lemma sparse_inv : sys_inv sparse.
Proof.
  split; [done|by apply fresh_check_sound; vm_compute|by apply tree_check_sound; vm_compute|].
  apply (si_cache _ demo_inv).
Qed.
Lemma demo_wf : file_wf 4 (cur demo) 2.
Proof. apply file_wf_b_sound. by vm_compute. Qed.

Lemma path_pwrite_refines_witness :
  ∃ s', Path.pwrite demo_chunks "/f" 2 [x41; x42; x43] demo = (Ok tt, s') ∧
    contents 4 (cur s') 2 = [x61; x62; x41; x42; x43].
Proof.
  destruct (path_pwrite_refines demo_chunks "/f" 2 2 [x41; x42; x43] demo)
    as (s' & Hr & _ & _ & Hc & _);
    [apply demo_inv|done|discriminate|by vm_compute|by eexists|apply demo_wf|done|done|done|].
  exists s'. split; [done|]. etrans; [exact Hc|]. by vm_compute.
Defined.

Lemma path_pwrite_creates_witness :
  ∃ s', Path.pwrite demo_chunks "/d/new" 5 [x41] demo = (Ok tt, s') ∧
    child (cur s') 3 "new" = Some 8 ∧
    contents 4 (cur s') 8 = [x00; x00; x00; x00; x00; x41].
Proof.
  destruct (path_pwrite_creates demo_chunks "/d/new" 3 "new" 5 [x41] demo)
    as (s' & Hr & _ & Hn & Hc & _);
    [apply demo_inv|done|by vm_compute|done|done|done|].
  exists s'. split; [done|]. split; [exact Hn|]. etrans; [exact Hc|]. by vm_compute.
Defined.

Lemma path_truncate_refines_witness :
  ∃ s', Path.truncate demo_chunks "/f" 6 demo = (Ok tt, s') ∧
    contents 4 (cur s') 2 = [x61; x62; x63; x00; x00; x00].
Proof.
  destruct (path_truncate_refines demo_chunks "/f" 2 6 demo) as (s' & Hr & _ & _ & Hc & _);
    [apply demo_inv|done|by vm_compute|by eexists|apply demo_wf|done|].
  exists s'. split; [done|]. etrans; [exact Hc|]. by vm_compute.
Defined.

Lemma read_file_drops_holes_witness :
  ∃ s', Path.read_file "/f" sparse = (Ok (Some [x61; x62; x63]), s') ∧
    Vec.len [x61; x62; x63] < Vec.len (contents 4 (cur sparse) 2).
Proof.
  apply (read_file_drops_holes demo_chunks "/f" 2 2 [x61; x62; x63] sparse);
    [apply sparse_inv|done|by vm_compute|done|apply file_wf_b_sound; by vm_compute|done|].
  intros c' b'. simpl. rewrite lookup_singleton_Some. naive_solver.
Defined.
