(* ===== verification/KvStore.v ===== *)
(** * The key-value store

    [impl KvStore] of [sdk/rust/src/kvstore.rs].  The values a client stores have a type
    [V] with an instance of [Json]: [serde_json]'s [to_string] and [from_str] at [V], each
    of which may fail. *)

From S2P Require Import Prelude Types Tables Monad Sql File SecafsInode Setup.

#[local] Open Scope string_scope.
#[local] Open Scope list_scope.
#[local] Open Scope Z_scope.

(** [serde_json::to_string] and [serde_json::from_str] at a type. *)
Class Json (V : Type) := {
  json_to_string : V → option string;
  json_from_str : string → option V;
}.
(** [from_str] reads back what [to_string] wrote; a JSON text is not empty. *)
Class JsonLaws (V : Type) `{Json V} := {
  json_round_trip v s : json_to_string v = Some s → json_from_str s = Some v;
  json_not_empty v : json_to_string v ≠ Some "";
}.

(** [INSERT INTO kv_store (key, value, updated_at) VALUES (?, ?, EXTRACT(EPOCH FROM
    NOW())::BIGINT) ON CONFLICT(key) DO UPDATE SET value = excluded.value, updated_at =
    EXTRACT(EPOCH FROM NOW())::BIGINT]; [created_at] has the same default. *)
Definition upsert_kv (key value : string) (now : Z) (d : db) : option db :=
  match kv_store d !! key with
  | Some _ =>
      Some (update_kv_row (λ r, mkKv value (kv_created_at r) (Some (epoch_secs now))) key d)
  | None =>
      insert_kv_row key (mkKv value (Some (epoch_secs now)) (Some (epoch_secs now))) d
  end.
(** [SELECT value FROM kv_store WHERE key = ?] *)
Definition select_value (key : string) (d : db) : list DbRow :=
  match kv_store d !! key with Some r => [[Text (kv_value r)]] | None => [] end.
(** [SELECT key FROM kv_store] *)
Definition select_keys (d : db) : list DbRow :=
  (λ kv, [Text kv.1]) <$> map_to_list (kv_store d).

Module Kv.
Section kv.
Context {E : Env} {V : Type} `{Json V}.

(** [serde_json::to_string(v)?] and [serde_json::from_str(s)?]. *)
Definition serialize (v : V) : M string :=
  match json_to_string v with Some s => mret s | None => throw EJson end.
Definition deserialize (s : string) : M V :=
  match json_from_str s with Some v => mret v | None => throw EJson end.

Definition initialize : M unit :=
  get_connection ≫= λ _,
  ddls 2.
Definition from_pool : M unit := initialize.

Definition set (key : string) (value : V) : M unit :=
  get_connection ≫= λ _,
  serialized ← serialize value;
  execute_now (upsert_kv key serialized).

Definition get (key : string) : M (option V) :=
  get_connection ≫= λ _,
  rows ← query (select_value key);
  match rows with
  | row :: _ =>
      match text_opt row 0 with
      | Some value_str => value ← deserialize value_str; mret (Some value)
      | None => mret None
      end
  | [] => mret None
  end.

Definition delete (key : string) : M unit :=
  get_connection ≫= λ _,
  execute_ (delete_kv_row key).

Definition keys : M (list string) :=
  get_connection ≫= λ _,
  rows ← query select_keys;
  mret (omap (λ row, text_opt row 0) rows).
End kv.
End Kv.
