(* ===== verification/ToolCalls.v ===== *)
(** * Tool-call records

    [sdk/rust/src/toolcalls.rs]: a table of calls with their parameters, results, states
    and durations.  [serde_json::Value] is a type [J] with an instance of [Json]. *)

From Stdlib Require Import SpecFloat.
From S2P Require Import Prelude Types Tables Monad Sql File SecafsInode Setup KvStore.

#[local] Open Scope string_scope.
#[local] Open Scope list_scope.
#[local] Open Scope Z_scope.

(** ** Types *)

Inductive ToolCallStatus := Pending | Success | Error_.

#[global] Instance ToolCallStatus_eq_dec : EqDecision ToolCallStatus.
Proof. solve_decision. Defined.

(** [impl Display] and [impl From<&str>]. *)
Definition status_fmt (s : ToolCallStatus) : string :=
  match s with Pending => "pending" | Success => "success" | Error_ => "error" end.
Definition status_from (s : string) : ToolCallStatus :=
  if decide (s = "success") then Success
  else if decide (s = "error") then Error_
  else Pending.

Record ToolCall (J : Type) := mkToolCall {
  call_id : Z;
  call_name : string;
  call_parameters : option J;
  call_result : option J;
  call_error : option string;
  call_status : ToolCallStatus;
  call_started_at : Z;
  call_completed_at : option Z;
  call_duration_ms : option Z;
}.
Arguments mkToolCall {J}.
Arguments call_id {J}.
Arguments call_name {J}.
Arguments call_parameters {J}.
Arguments call_result {J}.
Arguments call_error {J}.
Arguments call_status {J}.
Arguments call_started_at {J}.
Arguments call_completed_at {J}.
Arguments call_duration_ms {J}.

(** [avg_duration_ms] is kept as its IEEE-754 bits. *)
Record ToolCallStats := mkToolStats {
  ts_name : string;
  ts_total_calls : Z;
  ts_successful : Z;
  ts_failed : Z;
  ts_avg_duration_ms : Z;
}.

(** [i as f64]: the nearest double, as its bits. *)
Definition f64_bits (f : spec_float) : Z :=
  match f with
  | S754_finite s m e =>
      let sign := if s then 2 ^ 63 else 0 in
      if Z.pos m <? 2 ^ 52 then sign + Z.pos m
      else sign + (e + 1075) * 2 ^ 52 + (Z.pos m - 2 ^ 52)
  | S754_zero s => if s then 2 ^ 63 else 0
  | S754_infinity s => (if s then 2 ^ 63 else 0) + 2047 * 2 ^ 52
  | S754_nan => 2047 * 2 ^ 52 + 2 ^ 51
  end.
Definition f64_of_i64 (i : Z) : Z := f64_bits (binary_normalize 53 1024 i 0 false).

(** ** Statements *)

(** [(completed_at - started_at) * 1000] on [i64]. *)
Definition duration (started_at completed_at : Z) : Z :=
  Int.i64 (Int.i64 (completed_at - started_at) * 1000).

(** [SELECT started_at FROM tool_calls WHERE id = ?] *)
Definition select_started_at (id : Z) (d : db) : list DbRow :=
  match tool_calls d !! id with Some r => [[Integer (tc_started_at r)]] | None => [] end.
(** A nullable [TEXT] or [BIGINT] column. *)
Definition nullable {A} (f : A → DbValue) (o : option A) : DbValue := from_option f Null o.
(** [SELECT id, name, parameters, result, error, status, started_at, completed_at,
    duration_ms FROM tool_calls] *)
Definition tool_cols (id : Z) (r : tool_row) : DbRow :=
  [Integer id; Text (tc_name r); nullable Text (tc_parameters r); nullable Text (tc_result r);
   nullable Text (tc_error r); Text (tc_status r); Integer (tc_started_at r);
   nullable Integer (tc_completed_at r); nullable Integer (tc_duration_ms r)].
Definition select_tool (id : Z) (d : db) : list DbRow :=
  match tool_calls d !! id with Some r => [tool_cols id r] | None => [] end.
(** [ORDER BY started_at DESC LIMIT ?]; a negative limit is an error. *)
Definition started_ge (a b : Z * tool_row) : Prop := tc_started_at b.2 ≤ tc_started_at a.2.
#[global] Instance started_ge_dec : RelDecision started_ge.
Proof. intros a b. unfold started_ge. apply _. Defined.
Definition select_recent (limit : Z) (d : db) : option (list DbRow) :=
  if limit <? 0 then None
  else Some ((λ kv, tool_cols kv.1 kv.2) <$>
         take (Z.to_nat limit) (merge_sort started_ge (map_to_list (tool_calls d)))).

(** The rows of one tool, and one row of [.. GROUP BY name]: [COUNT] and the [SUM] of an
    [INTEGER] expression have type [BIGINT], the [AVG] of a [BIGINT] is a [NUMERIC]. *)
Definition calls_named (name : string) (d : db) : list tool_row :=
  filter (λ r, tc_name r = name) ((map_to_list (tool_calls d)).*2).
Definition count_status (status : string) (rs : list tool_row) : Z :=
  Z.of_nat (length (filter (λ r, tc_status r = status) rs)).
Definition total_duration (rs : list tool_row) : Z :=
  foldr (λ r acc, default 0 (tc_duration_ms r) + acc) 0 rs.
Definition tool_stats_cols (name : string) (rs : list tool_row) : DbRow :=
  [Text name;
   decode_column (PgInt8 (Z.of_nat (length rs)));
   decode_column (PgInt8 (count_status "success" rs));
   decode_column (PgInt8 (count_status "error" rs));
   decode_column (PgNumeric (total_duration rs) (Z.of_nat (length rs)))].
Definition select_stats_for (name : string) (d : db) : list DbRow :=
  match calls_named name d with [] => [] | rs => [tool_stats_cols name rs] end.
(** The groups, by their number of rows descending. *)
Definition tool_names (d : db) : list string :=
  elements (list_to_set (C := gset string) (tc_name <$> (map_to_list (tool_calls d)).*2)).
Definition more_calls (a b : string * list tool_row) : Prop := (length b.2 ≤ length a.2)%nat.
#[global] Instance more_calls_dec : RelDecision more_calls.
Proof. intros a b. unfold more_calls. apply _. Defined.
Definition tool_groups (d : db) : list (string * list tool_row) :=
  merge_sort more_calls ((λ n, (n, calls_named n d)) <$> tool_names d).
Definition select_stats_all (d : db) : list DbRow :=
  (λ g, tool_stats_cols g.1 g.2) <$> tool_groups d.

(** [UPDATE tool_calls SET .. WHERE id = ?] *)
Definition update_tool (f : tool_row → tool_row) (id : Z) (d : db) : db :=
  set_tool_calls (alter f id (tool_calls d)) d.

Module Tc.
Section tool_calls.
Context {E : Env} {J : Type} `{Json J}.

(** [INSERT INTO tool_calls .. RETURNING id] *)
Definition insert_tool (r : tool_row) : M DbRow :=
  stmt (λ s,
    let id := seq_tool s + 1 in
    match tool_calls (cur s) !! id with
    | Some _ => None
    | None =>
        Some ([Integer id], set_cur (set_tool_calls (<[id:=r]> (tool_calls (cur s))) (cur s))
                              (set_seq_tool id s))
    end).

(** [v.map(|p| serde_json::to_string(&p)).transpose()?] *)
Definition serialize_opt (v : option J) : M (option string) :=
  match v with
  | Some v => s ← Kv.serialize v; mret (Some s)
  | None => mret None
  end.
(** [SystemTime::now().duration_since(UNIX_EPOCH)?.as_secs() as i64] *)
Definition now_secs : M Z := t ← now; mret (Int.i64 t.1).

Definition initialize : M unit := get_connection ≫= λ _, ddls 3.
Definition from_pool : M unit := initialize.

Definition start (name : string) (parameters : option J) : M Z :=
  get_connection ≫= λ _,
  serialized_params ← serialize_opt parameters;
  started_at ← now_secs;
  row ← insert_tool (mkTool name (Some (default "" serialized_params)) None None "pending"
    started_at None None);
  ok_or_internal "failed to get tool call ID" (int_opt row 0).

Definition started_at_of (id : Z) : M Z :=
  rows ← query (select_started_at id);
  match rows with
  | row :: _ => ok_or_internal "invalid started_at value" (int_opt row 0)
  | [] => throw EToolCallNotFound
  end.

Definition success (id : Z) (result : option J) : M unit :=
  get_connection ≫= λ _,
  serialized_result ← serialize_opt result;
  completed_at ← now_secs;
  started_at ← started_at_of id;
  let duration_ms := duration started_at completed_at in
  execute_ (update_tool (λ r, mkTool (tc_name r) (tc_parameters r)
    (Some (default "" serialized_result)) (tc_error r) "success" (tc_started_at r)
    (Some completed_at) (Some duration_ms)) id).

Definition record (name : string) (started_at completed_at : Z) (parameters result : option J)
    (error : option string) : M Z :=
  get_connection ≫= λ _,
  serialized_params ← serialize_opt parameters;
  serialized_result ← serialize_opt result;
  let duration_ms := duration started_at completed_at in
  let status := match error with Some _ => "error" | None => "success" end in
  row ← insert_tool (mkTool name (Some (default "" serialized_params))
    (Some (default "" serialized_result)) (Some (default "" error)) status started_at
    (Some completed_at) (Some duration_ms));
  ok_or_internal "failed to get tool call ID" (int_opt row 0).

Definition error (id : Z) (error : string) : M unit :=
  get_connection ≫= λ _,
  completed_at ← now_secs;
  started_at ← started_at_of id;
  let duration_ms := duration started_at completed_at in
  execute_ (update_tool (λ r, mkTool (tc_name r) (tc_parameters r) (tc_result r)
    (Some error) "error" (tc_started_at r) (Some completed_at) (Some duration_ms)) id).

(** [if !s.is_empty() { serde_json::from_str(s).ok() } else { None }] on a column. *)
Definition json_col (row : DbRow) (i : nat) : option J :=
  s ← text_opt row i; if decide (s = "") then None else json_from_str s.
Definition row_to_tool_call (row : DbRow) : ToolCall J := {|
  call_id := int_or 0 row 0;
  call_name := default "" (text_opt row 1);
  call_parameters := json_col row 2;
  call_result := json_col row 3;
  call_error := s ← text_opt row 4; if decide (s = "") then None else Some s;
  call_status := default Pending (status_from <$> text_opt row 5);
  call_started_at := int_or 0 row 6;
  call_completed_at := int_opt row 7;
  call_duration_ms := int_opt row 8;
|}.
Definition row_to_stats (row : DbRow) : ToolCallStats := {|
  ts_name := default "" (text_opt row 0);
  ts_total_calls := int_or 0 row 1;
  ts_successful := int_or 0 row 2;
  ts_failed := int_or 0 row 3;
  ts_avg_duration_ms :=
    default 0 (v ← get_value row 4;
               match v with
               | Real f => Some f
               | Integer i => Some (f64_of_i64 i)
               | _ => None
               end);
|}.

Definition get (id : Z) : M (option (ToolCall J)) :=
  get_connection ≫= λ _,
  rows ← query (select_tool id);
  mret (row_to_tool_call <$> head rows).

Definition recent (limit : option Z) : M (list (ToolCall J)) :=
  get_connection ≫= λ _,
  let limit := default 100 limit in
  rows ← stmt (λ s, rows ← select_recent limit (cur s); Some (rows, s));
  mret (row_to_tool_call <$> rows).

Definition stats_for (name : string) : M (option ToolCallStats) :=
  get_connection ≫= λ _,
  rows ← query (select_stats_for name);
  mret (row_to_stats <$> head rows).

Definition stats : M (list ToolCallStats) :=
  get_connection ≫= λ _,
  rows ← query select_stats_all;
  mret (row_to_stats <$> rows).
End tool_calls.
End Tc.
