(* ===== verification/Snapshot.v ===== *)
(** * Snapshots

    [sdk/rust/src/snapshot/]: the rollback state of a volume ([state.rs]), committing and
    listing snapshots ([snapshots.rs]) and restoring one by replaying the undo tables
    ([restore.rs]).  Each statement is one call, in the order the source makes them. *)

From stdpp Require Import pretty.
From S2P Require Import Prelude Types Tables Monad.

#[local] Open Scope string_scope.
#[local] Open Scope list_scope.
#[local] Open Scope Z_scope.

(** ** [types.rs] *)

Record VolumeRollbackState := mkRollbackState {
  vrs_volume_id : string;
  vrs_rollback_enabled : bool;
  vrs_current_snap_id : Z;
}.
Record SnapshotInfo := mkSnapshotInfo {
  si_snap_id : Z;
  si_committed_at : Z;
  si_label : option string;
}.
Record DisableResult := mkDisableResult { dr_purged_snapshots : Z; dr_purged_undo_rows : Z }.
Record RestoreOutcome := mkRestoreOutcome { ro_pruned_snapshots : Z; ro_pruned_undo_rows : Z }.

Definition chr (n : nat) : Ascii.ascii := Ascii.ascii_of_nat n.
Definition from_char (c : Ascii.ascii) : option UndoOp :=
  if decide (c = chr 73) then Some UInsert
  else if decide (c = chr 85) then Some UUpdate
  else if decide (c = chr 68) then Some UDelete
  else None.
Definition to_char (op : UndoOp) : Ascii.ascii :=
  match op with UInsert => chr 73 | UUpdate => chr 85 | UDelete => chr 68 end.

(** ** The rows of the undo tables

    [WHERE volume_id = $1 AND snap_id > $2 ORDER BY undo_id DESC]; the columns of the
    before-image are [NULL] when there is none. *)

Definition newer {K R} (vid : string) (target : Z) (u : undo_row K R) : Prop :=
  u_volume u = vid ∧ target < u_snap u.
#[global] Instance newer_dec {K R} vid target (u : undo_row K R) : Decision (newer vid target u).
Proof. unfold newer. apply _. Defined.

Definition op_col {K R} (u : undo_row K R) : DbValue := Text (String (to_char (u_op u)) "").
Definition old_cols {K R} (n : nat) (cols : R → DbRow) (u : undo_row K R) : DbRow :=
  match u_old u with Some r => cols r | None => replicate n Null end.
Definition int_col (z : option Z) : DbValue := from_option Integer Null z.

Definition inode_undo_cols (u : undo_row Z inode) : DbRow :=
  [op_col u; Integer (u_key u)] ++
  old_cols 12 (λ r,
    [Integer (i_mode r); Integer (i_nlink r); Integer (i_uid r); Integer (i_gid r);
     Integer (i_size r); Integer (i_atime r); Integer (i_mtime r); Integer (i_ctime r);
     Integer (i_rdev r); Integer (i_atime_nsec r); Integer (i_mtime_nsec r);
     Integer (i_ctime_nsec r)]) u.
Definition dentry_undo_cols (u : undo_row Z (string * Z * Z)) : DbRow :=
  [op_col u; Integer (u_key u)] ++
  old_cols 3 (λ r, [Text r.1.1; Integer r.1.2; Integer r.2]) u.
Definition data_undo_cols (u : undo_row (Z * Z) (list byte)) : DbRow :=
  [op_col u; Integer (u_key u).1; Integer (u_key u).2] ++ old_cols 1 (λ b, [Blob b]) u.
Definition symlink_undo_cols (u : undo_row Z string) : DbRow :=
  [op_col u; Integer (u_key u)] ++ old_cols 1 (λ t, [Text t]) u.
Definition kv_undo_cols (u : undo_row string kv) : DbRow :=
  [op_col u; Text (u_key u)] ++
  old_cols 3 (λ r, [Text (kv_value r); int_col (kv_created_at r); int_col (kv_updated_at r)]) u.

(** [SELECT .. FROM <table>_undo WHERE ..] *)
Definition select_undo {K R} (table : undo_tables → list (undo_row K R))
    (cols : undo_row K R → DbRow) (vid : string) (target : Z) (d : db) : list DbRow :=
  cols <$> filter (newer vid target) (table (undo d)).

(** [DELETE FROM <table>_undo WHERE ..], for the five tables in the order of the loop. *)
Definition prune_inode_undo (P : string → Z → bool) (d : db) : db :=
  set_undo (set_fs_inode_undo (filter (λ u, P (u_volume u) (u_snap u) = false) (fs_inode_undo (undo d))) (undo d)) d.
Definition prune_dentry_undo (P : string → Z → bool) (d : db) : db :=
  set_undo (set_fs_dentry_undo (filter (λ u, P (u_volume u) (u_snap u) = false) (fs_dentry_undo (undo d))) (undo d)) d.
Definition prune_data_undo (P : string → Z → bool) (d : db) : db :=
  set_undo (set_fs_data_undo (filter (λ u, P (u_volume u) (u_snap u) = false) (fs_data_undo (undo d))) (undo d)) d.
Definition prune_symlink_undo (P : string → Z → bool) (d : db) : db :=
  set_undo (set_fs_symlink_undo (filter (λ u, P (u_volume u) (u_snap u) = false) (fs_symlink_undo (undo d))) (undo d)) d.
Definition prune_kv_undo (P : string → Z → bool) (d : db) : db :=
  set_undo (set_kv_store_undo (filter (λ u, P (u_volume u) (u_snap u) = false) (kv_store_undo (undo d))) (undo d)) d.
Definition prune_undo_tables : list ((string → Z → bool) → db → db) :=
  [prune_inode_undo; prune_dentry_undo; prune_data_undo; prune_symlink_undo; prune_kv_undo].
(** The number of rows of the five undo tables. *)
Definition undo_count (d : db) : Z :=
  Z.of_nat (length (fs_inode_undo (undo d)) + length (fs_dentry_undo (undo d)) +
    length (fs_data_undo (undo d)) + length (fs_symlink_undo (undo d)) +
    length (kv_store_undo (undo d))).
(** A deletion from the undo tables with the number of rows it removes. *)
Definition pruned (f : db → db) (d : db) : db * Z := (f d, undo_count d - undo_count (f d)).

(** ** [SELECT]s on the volume tables *)

Definition bool_int (b : bool) : Z := if b then 1 else 0.

(** [SELECT root_ino FROM fs_volumes WHERE id = $1] *)
Definition select_root (vid : string) (d : db) : list DbRow :=
  match fs_volumes (volumes d) !! vid with Some r => [[Integer r]] | None => [] end.
(** [SELECT .. FROM fs_volume_state WHERE volume_id = $1] *)
Definition select_vstate (cols : volume_state → DbRow) (vid : string) (d : db) : list DbRow :=
  match fs_volume_state (volumes d) !! vid with Some st => [cols st] | None => [] end.
(** The snapshots of a volume that satisfy [P]. *)
Definition snapshots_where (vid : string) (P : Z → snapshot_row → bool) (d : db)
    : list (Z * snapshot_row) :=
  omap (λ kv, if decide (kv.1.1 = vid ∧ P kv.1.2 kv.2 = true) then Some (kv.1.2, kv.2) else None)
    (map_to_list (fs_snapshots (volumes d))).

(** [from_option Text Null]: a nullable text column. *)
Definition text_col (s : option string) : DbValue := from_option Text Null s.
Definition snap_le (a b : Z * snapshot_row) : Prop := a.1 ≤ b.1.
#[global] Instance snap_le_dec : RelDecision snap_le.
Proof. intros a b. unfold snap_le. apply _. Defined.

Section snapshot.
Context {E : Env}.

(** ** Reading columns ([restore.rs]) *)

(** [row.get_value(i)?] *)
Definition get_value_ (row : DbRow) (i : nat) : M DbValue :=
  ok_or_internal "row index out of bounds" (get_value row i).
(** [*row.get_value(i)?.as_integer().ok_or_else(|| Error::Internal(msg))?] *)
Definition get_integer (msg : string) (row : DbRow) (i : nat) : M Z :=
  v ← get_value_ row i; ok_or_internal msg (as_integer v).
(** [match row.get_value(i)? { DbValue::Text(t) => t, _ => return Err(..) }] *)
Definition get_text (msg : string) (row : DbRow) (i : nat) : M string :=
  v ← get_value_ row i;
  match v with Text t => mret t | _ => throw (EInternal msg) end.
(** [match row.get_value(i)? { Text(t) => Some(t), Null => None, _ => return Err(..) }] *)
Definition get_text_or_null (msg : string) (row : DbRow) (i : nat) : M (option string) :=
  v ← get_value_ row i;
  match v with
  | Text t => mret (Some t)
  | Null => mret None
  | _ => throw (EInternal msg)
  end.
(** [match row.get_value(i)? { Integer(0) => false, Integer(_) => true, _ => .. }] *)
Definition get_flag (msg : string) (row : DbRow) (i : nat) : M bool :=
  v ← get_value_ row i;
  match v with Integer n => mret (negb (n =? 0)) | _ => throw (EInternal msg) end.

Definition read_i64 (row : DbRow) (idx : nat) : M Z :=
  get_integer ("col " +:+ pretty idx +:+ ": expected integer") row idx.
Definition read_text (row : DbRow) (idx : nat) : M string :=
  v ← get_value_ row idx;
  match v with
  | Text t => mret t
  | Null => throw (EInternal ("col " +:+ pretty idx +:+ ": unexpected NULL"))
  | _ => throw (EInternal ("col " +:+ pretty idx +:+ ": expected text"))
  end.
Definition read_op (row : DbRow) (idx : nat) : M UndoOp :=
  s ← read_text row idx;
  match s with
  | EmptyString => throw (EInternal "op: empty")
  | String c _ => ok_or_internal ("op: invalid '" +:+ String c "'") (from_char c)
  end.

(** ** [parse_ts] *)

(** [s.replace(' ', "T")] *)
Fixpoint spaces_to_t (s : string) : string :=
  match s with
  | EmptyString => EmptyString
  | String c s => String (if decide (c = chr 32) then chr 84 else c) (spaces_to_t s)
  end.
(** [s.ends_with(suffix)] *)
Fixpoint ends_with (s suffix : string) : bool :=
  bool_decide (s = suffix) ||
  match s with EmptyString => false | String _ s => ends_with s suffix end.

(** The instant, or [None] for the parse error. *)
Definition parse_ts_opt (s : string) : option Z :=
  match env_rfc3339 s with
  | Some dt => Some dt
  | None =>
      let normalized := spaces_to_t s in
      let normalized := if ends_with normalized "+00" then normalized +:+ ":00" else normalized in
      env_rfc3339 normalized
  end.
(** The message of the error carries [chrono]'s text, which nothing looks at. *)
Definition parse_ts (s : string) : M Z :=
  ok_or_internal ("parse timestamptz " +:+ s) (parse_ts_opt s).

(** ** [state.rs] *)

Definition get_state (volume_id : string) : M (option VolumeRollbackState) :=
  rows ← query (select_vstate (λ st,
    [Text volume_id; Integer (bool_int (rollback_enabled st)); Integer (current_snap_id st)]) volume_id);
  match rows with
  | row :: _ =>
      volume_id_val ← get_text "volume_id: expected TEXT" row 0;
      rollback_enabled ← get_flag "rollback_enabled: expected INTEGER (cast from BOOL)" row 1;
      current_snap_id ← get_integer "current_snap_id: expected INTEGER" row 2;
      mret (Some (mkRollbackState volume_id_val rollback_enabled current_snap_id))
  | [] => mret None
  end.

(** [INSERT .. VALUES ($1, TRUE, 1) ON CONFLICT (volume_id) DO UPDATE SET rollback_enabled = TRUE] *)
Definition upsert_enabled (vid : string) (d : db) : option db :=
  match fs_volume_state (volumes d) !! vid with
  | Some _ => Some (update_volume_state_row (λ st, mkVolumeState true (current_snap_id st)) vid d)
  | None => insert_volume_state_row vid (mkVolumeState true 1) d
  end.
Definition enable (volume_id : string) : M VolumeRollbackState :=
  execute (upsert_enabled volume_id) ≫= λ _,
  st ← get_state volume_id;
  ok_or_internal "fs_volume_state row missing after upsert" st.

(** [DELETE FROM fs_snapshots WHERE volume_id = $1] *)
Definition delete_snapshots (vid : string) (d : db) : db * Z :=
  let kept := filter (λ kv, kv.1.1 ≠ vid) (fs_snapshots (volumes d)) in
  (set_volumes (set_fs_snapshots kept (volumes d)) d,
   Z.of_nat (size (fs_snapshots (volumes d))) - Z.of_nat (size kept)).
Fixpoint purge_undo (vid : string) (tables : list ((string → Z → bool) → db → db)) (purged : Z) : M Z :=
  match tables with
  | [] => mret purged
  | prune :: tables =>
      n ← execute_count (pruned (prune (λ v _, bool_decide (v = vid))));
      purge_undo vid tables (purged + n)
  end.
Definition disable (volume_id : string) : M DisableResult :=
  purged_undo ← purge_undo volume_id prune_undo_tables 0;
  purged_snapshots ← execute_count (delete_snapshots volume_id);
  execute_ (update_volume_state_row (λ _, mkVolumeState false 1) volume_id) ≫= λ _,
  mret (mkDisableResult purged_snapshots purged_undo).

(** ** [snapshots.rs] *)

(** [UPDATE fs_volume_state SET current_snap_id = current_snap_id + 1]: [BIGINT] addition
    that overflows is an error. *)
Definition bump_snap_id (vid : string) (d : db) : option db :=
  match fs_volume_state (volumes d) !! vid with
  | Some st =>
      if 2 ^ 63 <=? current_snap_id st + 1 then None
      else Some (update_volume_state_row
             (λ st, mkVolumeState (rollback_enabled st) (current_snap_id st + 1)) vid d)
  | None => Some d
  end.

(** [SELECT snap_id, committed_at::text FROM fs_snapshots WHERE volume_id = $1 AND label = $2] *)
Definition select_labelled (vid label : string) (d : db) : list DbRow :=
  (λ s, [Integer s.1; Text (env_ts_text (sn_committed_at s.2))]) <$>
    snapshots_where vid (λ _ r, bool_decide (sn_label r = Some label)) d.
(** [SELECT committed_at::text FROM fs_snapshots WHERE volume_id = $1 AND snap_id = $2] *)
Definition select_committed_at (vid : string) (snap : Z) (d : db) : list DbRow :=
  match fs_snapshots (volumes d) !! (vid, snap) with
  | Some r => [[Text (env_ts_text (sn_committed_at r))]]
  | None => []
  end.
(** [INSERT INTO fs_snapshots (volume_id, snap_id, label) VALUES ($1, $2, $3)]: the driver
    checks the type of [$3] before the statement runs. *)
Definition insert_snapshot (vid : string) (snap : Z) (label_db : DbValue) : M unit :=
  if accepts TText label_db then
    execute_now (λ now, insert_snapshot_row vid snap
      (mkSnapshot now (match label_db with Text l => Some l | _ => None end)))
  else bind_error.

Definition commit_inner (volume_id : string) (label : option string) : M SnapshotInfo :=
  rows ← query (select_vstate (λ st,
    [Integer (current_snap_id st); Integer (bool_int (rollback_enabled st))]) volume_id);
  row ← ok_or_internal ("rollback not enabled for volume " +:+ volume_id) (head rows);
  current_snap_id ← get_integer "current_snap_id: expected integer" row 0;
  enabled ← get_flag "rollback_enabled: expected integer cast" row 1;
  if negb enabled then throw (EInternal ("rollback disabled for volume " +:+ volume_id)) else
  existing ← match label with
             | Some label_val => query (select_labelled volume_id label_val)
             | None => mret []
             end;
  match label, existing with
  | Some label_val, r :: _ =>
      snap_id ← get_integer "snap_id" r 0;
      ts_txt ← get_text "committed_at: expected text" r 1;
      committed_at ← parse_ts ts_txt;
      mret (mkSnapshotInfo snap_id committed_at (Some label_val))
  | _, _ =>
      insert_snapshot volume_id current_snap_id (text_col label) ≫= λ _,
      execute (bump_snap_id volume_id) ≫= λ _,
      rows ← query (select_committed_at volume_id current_snap_id);
      row ← ok_or_internal "just-inserted snapshot not found" (head rows);
      ts_txt ← get_text "committed_at: expected text" row 0;
      committed_at ← parse_ts ts_txt;
      mret (mkSnapshotInfo current_snap_id committed_at label)
  end.
Definition commit (volume_id : string) (label : option string) : M SnapshotInfo :=
  begin_txn ≫= λ _,
  result ← attempt (commit_inner volume_id label);
  finish result.

(** [SELECT snap_id, committed_at::text, label .. ORDER BY snap_id ASC] *)
Definition select_snapshots (vid : string) (d : db) : list DbRow :=
  (λ s, [Integer s.1; Text (env_ts_text (sn_committed_at s.2)); text_col (sn_label s.2)]) <$>
    merge_sort snap_le (snapshots_where vid (λ _ _, true) d).
Definition info_of_row (r : DbRow) : M SnapshotInfo :=
  snap_id ← get_integer "snap_id" r 0;
  ts_txt ← get_text "committed_at: expected text" r 1;
  label ← get_text_or_null "label: expected text or null" r 2;
  committed_at ← parse_ts ts_txt;
  mret (mkSnapshotInfo snap_id committed_at label).
Fixpoint collect {A} (f : DbRow → M A) (rows : list DbRow) (out : list A) : M (list A) :=
  match rows with
  | [] => mret out
  | r :: rows => a ← f r; collect f rows (out ++ [a])
  end.
Definition list_snapshots (volume_id : string) : M (list SnapshotInfo) :=
  rows ← query (select_snapshots volume_id);
  collect info_of_row rows [].

(** ** [restore.rs] *)

(** [while let Some(r) = rows.next().await? { ..; count += 1; }] *)
Fixpoint replay_loop (body : DbRow → M unit) (rows : list DbRow) (count : Z) : M Z :=
  match rows with
  | [] => mret count
  | r :: rows => body r ≫= λ _, replay_loop body rows (count + 1)
  end.
Definition not_insert (op : UndoOp) : bool := negb (bool_decide (op = UInsert)).

Definition replay_inode_row (r : DbRow) : M unit :=
  op ← read_op r 0;
  ino ← read_i64 r 1;
  execute_ (delete_inode_row ino) ≫= λ _,
  when (not_insert op) (
    mode ← read_i64 r 2; nlink ← read_i64 r 3; uid ← read_i64 r 4; gid ← read_i64 r 5;
    size ← read_i64 r 6; atime ← read_i64 r 7; mtime ← read_i64 r 8; ctime ← read_i64 r 9;
    rdev ← read_i64 r 10; atime_nsec ← read_i64 r 11; mtime_nsec ← read_i64 r 12;
    ctime_nsec ← read_i64 r 13;
    execute (insert_inode_row ino
      (mkInode mode nlink uid gid size atime mtime ctime rdev atime_nsec mtime_nsec ctime_nsec))).
Definition replay_fs_inode (volume_id : string) (target : Z) : M Z :=
  rows ← query (select_undo fs_inode_undo inode_undo_cols volume_id target);
  replay_loop replay_inode_row rows 0.

Definition replay_dentry_row (r : DbRow) : M unit :=
  op ← read_op r 0;
  id ← read_i64 r 1;
  execute_ (delete_dentry_where (λ _ e, bool_decide (d_id e = id))) ≫= λ _,
  when (not_insert op) (
    name ← read_text r 2; parent_ino ← read_i64 r 3; ino ← read_i64 r 4;
    execute (insert_dentry_row id name parent_ino ino)).
Definition replay_fs_dentry (volume_id : string) (target : Z) : M Z :=
  rows ← query (select_undo fs_dentry_undo dentry_undo_cols volume_id target);
  replay_loop replay_dentry_row rows 0.

Definition replay_data_row (r : DbRow) : M unit :=
  op ← read_op r 0;
  ino ← read_i64 r 1;
  chunk ← read_i64 r 2;
  execute_ (delete_data_row (ino, chunk)) ≫= λ _,
  when (not_insert op) (
    v ← get_value_ r 3;
    data ← match v with
           | Blob b => mret b
           | Null => throw (EInternal "fs_data_undo.data: NULL on non-INSERT")
           | _ => throw (EInternal "fs_data_undo.data: expected BYTEA")
           end;
    execute (insert_data_row (ino, chunk) data)).
Definition replay_fs_data (volume_id : string) (target : Z) : M Z :=
  rows ← query (select_undo fs_data_undo data_undo_cols volume_id target);
  replay_loop replay_data_row rows 0.

Definition replay_symlink_row (r : DbRow) : M unit :=
  op ← read_op r 0;
  ino ← read_i64 r 1;
  execute_ (delete_symlink_row ino) ≫= λ _,
  when (not_insert op) (
    target_path ← read_text r 2;
    execute (insert_symlink_row ino target_path)).
Definition replay_fs_symlink (volume_id : string) (target : Z) : M Z :=
  rows ← query (select_undo fs_symlink_undo symlink_undo_cols volume_id target);
  replay_loop replay_symlink_row rows 0.

Definition replay_kv_row (r : DbRow) : M unit :=
  op ← read_op r 0;
  key ← read_text r 1;
  execute_ (delete_kv_row key) ≫= λ _,
  when (not_insert op) (
    value ← read_text r 2;
    created_at ← read_i64 r 3;
    updated_at ← read_i64 r 4;
    execute (insert_kv_row key (mkKv value (Some created_at) (Some updated_at)))).
Definition replay_kv_store (volume_id : string) (target : Z) : M Z :=
  rows ← query (select_undo kv_store_undo kv_undo_cols volume_id target);
  replay_loop replay_kv_row rows 0.

(** [SELECT snap_id, label FROM fs_snapshots WHERE volume_id = $1 AND snap_id <= $2] and
    [SELECT COUNT( * ) .. AND snap_id > $2]. *)
Definition select_kept (vid : string) (target : Z) (d : db) : list DbRow :=
  (λ s, [Integer s.1; text_col (sn_label s.2)]) <$>
    snapshots_where vid (λ snap _, snap <=? target) d.
Definition count_newer (vid : string) (target : Z) (d : db) : list DbRow :=
  [[Integer (Z.of_nat (length (snapshots_where vid (λ snap _, target <? snap) d)))]].
Definition kept_of_row (r : DbRow) : M (Z * option string) :=
  sid ← get_integer "snap_id: expected integer" r 0;
  label ← get_text_or_null "label: expected text or null" r 1;
  mret (sid, label).

(** [INSERT .. SELECT .. WHERE NOT EXISTS (..)] into the three volume tables. *)
Definition reinsert_volume (vid : string) (root : Z) (d : db) : option db :=
  match fs_volumes (volumes d) !! vid with
  | Some _ => Some d
  | None => insert_volume_row vid root d
  end.
Definition reinsert_state (vid : string) (st : volume_state) (d : db) : option db :=
  match fs_volume_state (volumes d) !! vid with
  | Some _ => Some d
  | None => insert_volume_state_row vid st d
  end.
Definition reinsert_snapshot (vid : string) (s : Z * option string) : M unit :=
  if accepts TText (text_col s.2) then
    execute_now (λ now d,
      match fs_snapshots (volumes d) !! (vid, s.1) with
      | Some _ => Some d
      | None => insert_snapshot_row vid s.1 (mkSnapshot now s.2) d
      end)
  else bind_error.

(** The rows saved before the replay. *)
Definition saved_root_ino (volume_id : string) : M (option Z) :=
  rows ← query (select_root volume_id);
  match rows with
  | row :: _ => r ← get_integer "root_ino: expected integer" row 0; mret (Some r)
  | [] => mret None
  end.
Definition saved_volume_state (volume_id : string) : M (option (bool * Z)) :=
  rows ← query (select_vstate (λ st,
    [Integer (bool_int (rollback_enabled st)); Integer (current_snap_id st)]) volume_id);
  match rows with
  | row :: _ =>
      enabled ← get_flag "rollback_enabled: expected integer cast" row 0;
      csid ← get_integer "current_snap_id: expected integer" row 1;
      mret (Some (enabled, csid))
  | [] => mret None
  end.
Definition saved_snapshots (volume_id : string) (target : Z) : M (list (Z * option string)) :=
  rows ← query (select_kept volume_id target);
  collect kept_of_row rows [].
Definition count_pruned (volume_id : string) (target : Z) : M Z :=
  rows ← query (count_newer volume_id target);
  match rows with
  | row :: _ => get_integer "count: expected integer" row 0
  | [] => mret 0
  end.

(** The rows put back, and the journal rows that are no longer needed. *)
Definition reinsert_rows (volume_id : string) (target : Z) (root : option Z)
    (st : option (bool * Z)) (snaps : list (Z * option string)) : M unit :=
  match root with
  | Some root_ino => execute (reinsert_volume volume_id root_ino)
  | None => mret tt
  end ≫= λ _,
  match st with
  | Some (enabled, _) =>
      execute (reinsert_state volume_id (mkVolumeState enabled (Int.i64 (target + 1))))
  | None => mret tt
  end ≫= λ _,
  for_each snaps (reinsert_snapshot volume_id).
Definition prune_journal (volume_id : string) (target : Z) : M unit :=
  for_each prune_undo_tables (λ prune,
    execute_ (prune (λ v snap, bool_decide (v = volume_id) && (target <? snap)))).

(** [pruned_undo_rows += replay_<table>(..).await?], in the order of the source. *)
Definition replay_all (volume_id : string) (target : Z) : M Z :=
  n1 ← replay_fs_dentry volume_id target;
  n2 ← replay_fs_data volume_id target;
  n3 ← replay_fs_symlink volume_id target;
  n4 ← replay_fs_inode volume_id target;
  n5 ← replay_kv_store volume_id target;
  mret (n1 + n2 + n3 + n4 + n5).

Definition restore_inner (volume_id : string) (target : Z) : M RestoreOutcome :=
  set_local_suppress "true" ≫= λ _,
  root ← saved_root_ino volume_id;
  st ← saved_volume_state volume_id;
  snaps ← saved_snapshots volume_id target;
  pruned_snapshots ← count_pruned volume_id target;
  pruned_undo_rows ← replay_all volume_id target;
  reinsert_rows volume_id target root st snaps ≫= λ _,
  prune_journal volume_id target ≫= λ _,
  execute_ (update_volume_state_row
    (λ st, mkVolumeState (rollback_enabled st) (Int.i64 (target + 1))) volume_id) ≫= λ _,
  mret (mkRestoreOutcome pruned_snapshots pruned_undo_rows).
Definition restore_to (volume_id : string) (target : Z) : M RestoreOutcome :=
  begin_txn ≫= λ _,
  result ← attempt (restore_inner volume_id target);
  finish result.
End snapshot.
