(* ===== verification/Volume.v ===== *)
(** * Volumes

    [volume::ensure] and [volume::destroy] of [sdk/rust/src/filesystem/volume.rs], and the
    session settings a mount makes on its connection: a volume is a directory under the global root with a row in [fs_volumes]. *)

From S2P Require Import Prelude Types Tables Monad Sql File SecafsInode Snapshot.

#[local] Open Scope string_scope.
#[local] Open Scope list_scope.
#[local] Open Scope Z_scope.

(** ** [WITH RECURSIVE subtree(ino) AS (SELECT root UNION ALL SELECT d.ino FROM fs_dentry d
    JOIN subtree s ON d.parent_ino = s.ino)] *)

(** The join of the working table with [fs_dentry]: duplicates are kept. *)
Definition join_children (d : db) (work : list Z) : list Z :=
  work ≫= λ i, (children i d).*2.
(** The iteration ends when the working table is empty.  A chain of entries longer than
    [fs_dentry] repeats one, so with [subtree_fuel] turns [None] means that the query
    runs for ever. *)
Fixpoint subtree_from (d : db) (fuel : nat) (work : list Z) : option (list Z) :=
  match work, fuel with
  | [], _ => Some []
  | _, O => None
  | _, S fuel => rest ← subtree_from d fuel (join_children d work); Some (work ++ rest)
  end.
Definition subtree_fuel (d : db) : nat := S (S (size (fs_dentry d))).
Definition subtree (root : Z) (d : db) : option (list Z) :=
  subtree_from d (subtree_fuel d) [root].

(** [DELETE FROM fs_symlink WHERE ..] and [DELETE FROM fs_inode WHERE ..], row by row. *)
Definition delete_symlink_where (P : Z → bool) (d : db) : db :=
  foldr delete_symlink_row d ((map_to_list (filter (λ kv, P kv.1 = true) (fs_symlink d))).*1).
Definition delete_inode_where (P : Z → bool) (d : db) : db :=
  foldr delete_inode_row d ((map_to_list (filter (λ kv, P kv.1 = true) (fs_inode d))).*1).

(** [.. IN (SELECT ino FROM subtree)] *)
Definition in_subtree (l : list Z) (i : Z) : bool := bool_decide (i ∈ l).

Module Volume.
Section volume.
Context {E : Env}.

(** [ConnectionPool::set_volume_id_guc] on a pool of one connection: the quoting of the
    literal gives the same text back. *)
Definition set_volume_id_guc (volume_id : string) : M unit :=
  get_connection ≫= λ _,
  execute_ (λ d, set_session (set_guc_volume_id (Some volume_id) (session d)) d) ≫= λ _,
  execute_ (λ d, set_session (set_guc_suppress_undo (Some "false") (session d)) d).

(** [.as_integer().expect(..)] *)
Definition expect_integer (row : DbRow) (i : nat) : M Z :=
  v ← get_value_ row i;
  match as_integer v with Some z => mret z | None => panic end.

Definition ensure (id : string) : M Z :=
  rows ← query (select_root id);
  match rows with
  | row :: _ => expect_integer row 0
  | [] =>
      begin_txn ≫= λ _,
      t ← now;
      ino_row ← insert_inode (new_inode DEFAULT_DIR_MODE 2 env_uid env_gid 0 0 t);
      root_ino ← expect_integer ino_row 0;
      insert_dentry id 1 root_ino ≫= λ _,
      execute (insert_volume_row id root_ino) ≫= λ _,
      commit_txn ≫= λ _,
      mret root_ino
  end.

Definition destroy (id : string) : M bool :=
  rows ← query (select_root id);
  match rows with
  | [] => mret false
  | row :: _ =>
      root_ino ← expect_integer row 0;
      execute_ (delete_volume_row id) ≫= λ _,
      execute_ (delete_dentry_where (λ k e, bool_decide (k.1 = 1 ∧ d_ino e = root_ino))) ≫= λ _,
      execute (λ d, l ← subtree root_ino d;
        Some (delete_data_where (λ k, in_subtree l k.1) d)) ≫= λ _,
      execute (λ d, l ← subtree root_ino d;
        Some (delete_symlink_where (in_subtree l) d)) ≫= λ _,
      execute (λ d, l ← subtree root_ino d;
        Some (delete_inode_where (in_subtree l) d)) ≫= λ _,
      execute (λ d, l ← subtree root_ino d;
        Some (delete_dentry_where
          (λ k e, in_subtree l (d_ino e) || in_subtree l k.1) d)) ≫= λ _,
      mret true
  end.
End volume.
End Volume.
