(* ===== verification/Mounted.v ===== *)
(** * A mounted volume to run the model on

    The state of a client that opened the file system on an empty database, created the volume
    [vol], bound its connection to it and enabled rollback, by running the operations of the
    model; and [bool] as a type of JSON values. *)

From S2P Require Import Prelude Types Tables Monad Wp Instances Sql File SecafsInode Setup.
From S2P Require Import KvStore ToolCalls Snapshot Volume.

#[local] Open Scope string_scope.
#[local] Open Scope list_scope.
#[local] Open Scope Z_scope.

#[global] Instance json_bool : Json bool := {|
  json_to_string (b : bool) := Some (if b then "true" else "false");
  json_from_str s :=
    if decide (s = "true") then Some true
    else if decide (s = "false") then Some false else None;
|}.
#[global] Instance json_bool_laws : JsonLaws bool.
Proof. split; [intros [] s; simpl; by intros [= <-]|by intros []]. Qed.

Definition mount : @M calm_env unit :=
  from_pool ≫= λ _,
  Kv.from_pool ≫= λ _,
  Tc.from_pool ≫= λ _,
  Volume.ensure "vol" ≫= λ _,
  Volume.set_volume_id_guc "vol" ≫= λ _,
  enable "vol" ≫= λ _,
  mret tt.
Definition mounted : @state calm_env := (mount fresh_state).2.

Lemma mount_ok : (mount fresh_state).1 = Ok tt.
Proof. by vm_compute. Qed.
Lemma mounted_idle : txn mounted = None.
Proof. by vm_compute. Qed.
