(* ===== verification/KvThms.v ===== *)
(** * The key-value store implements a map

    Any sequence of calls on the store returns what the same calls return on a finite map
    from keys to values, and the rows of [kv_store] stay the serialised form of that map. *)

From S2P Require Import Prelude Types Tables Monad Wp Instances Sql Setup KvStore Mounted.

#[local] Open Scope string_scope.
#[local] Open Scope list_scope.
#[local] Open Scope Z_scope.

(** ** The specification: a finite map *)

Inductive kv_op (V : Type) :=
  | KvSet (key : string) (value : V)
  | KvGet (key : string)
  | KvDelete (key : string)
  | KvKeys.
Arguments KvSet {V}.
Arguments KvGet {V}.
Arguments KvDelete {V}.
Arguments KvKeys {V}.

Inductive kv_result (V : Type) :=
  | KvDone
  | KvValue (v : option V)
  | KvNames (l : list string).
Arguments KvDone {V}.
Arguments KvValue {V}.
Arguments KvNames {V}.

(** Results up to the order in which the database lists the keys. *)
Inductive same_result {V} : outcome (kv_result V) → outcome (kv_result V) → Prop :=
  | same_eq r : same_result r r
  | same_names l l' : l ≡ₚ l' → same_result (Ok (KvNames l)) (Ok (KvNames l')).

Section map_spec.
Context {V : Type} `{Json V}.

Definition map_step (op : kv_op V) (m : gmap string V) : outcome (kv_result V) * gmap string V :=
  match op with
  | KvSet k v =>
      match json_to_string v with
      | Some _ => (Ok KvDone, <[k:=v]> m)
      | None => (Err EJson, m)
      end
  | KvGet k => (Ok (KvValue (m !! k)), m)
  | KvDelete k => (Ok KvDone, delete k m)
  | KvKeys => (Ok (KvNames (map_to_list m).*1), m)
  end.
Fixpoint map_run (ops : list (kv_op V)) (m : gmap string V) :
    list (outcome (kv_result V)) * gmap string V :=
  match ops with
  | [] => ([], m)
  | op :: ops =>
      let '(r, m') := map_step op m in let '(rs, m'') := map_run ops m' in (r :: rs, m'')
  end.

(** [kv_store] holds the map: the same keys, and every row reads back as its value. *)
Definition kv_holds (m : gmap string V) (d : db) : Prop :=
  (λ r, json_from_str (kv_value r)) <$> kv_store d = Some <$> m.
End map_spec.

(** ** The implementation *)
Section implementation.
Context {E : Env} {V : Type} `{Json V}.

Definition kv_step (op : kv_op V) : M (kv_result V) :=
  match op with
  | KvSet k v => Kv.set k v ≫= λ _, mret KvDone
  | KvGet k => v ← Kv.get k; mret (KvValue v)
  | KvDelete k => Kv.delete k ≫= λ _, mret KvDone
  | KvKeys => l ← Kv.keys; mret (KvNames l)
  end.
(** Every call is made whatever the ones before it returned. *)
Fixpoint kv_run (ops : list (kv_op V)) (s : state) : list (outcome (kv_result V)) * state :=
  match ops with
  | [] => ([], s)
  | op :: ops =>
      let '(r, s') := kv_step op s in let '(rs, s'') := kv_run ops s' in (r :: rs, s'')
  end.
End implementation.

(** What a call on the store can change: the rows of [kv_store], and new rows in front of its
    journal [kv_store_undo], which its trigger writes. Every other table, the four other
    journals and the session settings are the same. *)
Definition only_kv (d d' : db) : Prop :=
  ∃ rows captured, d' = set_kv_store rows
    (set_undo (set_kv_store_undo (captured ++ kv_store_undo (undo d)) (undo d)) d).

#[global] Instance only_kv_preorder : PreOrder only_kv.
Proof.
  split; unfold only_kv.
  - intros d. exists (kv_store d), []. by destruct d as [? ? ? ? ? ? ? ? [] ? ?].
  - intros d ? ? (r1 & c1 & ->) (r2 & c2 & ->). exists r2, (c2 ++ c1).
    unfold set_kv_store, set_undo, set_kv_store_undo. simpl. by rewrite (assoc_L (++)).
Qed.
Lemma only_kv_capture op k old rows d : only_kv d (kv_store_capture_undo op k old (set_kv_store rows d)).
Proof. by eexists rows, _. Qed.
#[local] Hint Resolve only_kv_capture : core.

Section rows.
Context {V : Type} `{Json V} `{!JsonLaws V}.
Implicit Types (m : gmap string V) (d : db).

Lemma holds_lookup m d k :
  kv_holds m d → (λ r, json_from_str (kv_value r)) <$> kv_store d !! k = Some <$> m !! k.
Proof. intros Hh. by rewrite <- !lookup_fmap, Hh. Qed.
Lemma holds_get m d k r :
  kv_holds m d → kv_store d !! k = Some r → ∃ v, m !! k = Some v ∧ json_from_str (kv_value r) = Some v.
Proof.
  intros Hh Hr. pose proof (holds_lookup m d k Hh) as Hl. rewrite Hr in Hl. simpl in Hl.
  destruct (m !! k) as [v|]; simplify_eq/=. eauto.
Qed.
Lemma holds_none m d k : kv_holds m d → kv_store d !! k = None → m !! k = None.
Proof.
  intros Hh Hr. pose proof (holds_lookup m d k Hh) as Hl. rewrite Hr in Hl. by destruct (m !! k).
Qed.
Lemma holds_keys m d : kv_holds m d → (map_to_list (kv_store d)).*1 ≡ₚ (map_to_list m).*1.
Proof.
  intros Hh. transitivity ((map_to_list (Some <$> m)).*1).
  - rewrite <- Hh, map_to_list_fmap, <- list_fmap_compose. done.
  - rewrite map_to_list_fmap, <- list_fmap_compose. done.
Qed.
(** An upsert always succeeds and stores the text under the key. *)
Lemma upsert_kv_ok key value now d :
  ∃ d', upsert_kv key value now d = Some d' ∧ only_kv d d' ∧
    ∃ r, kv_store d' = <[key:=r]> (kv_store d) ∧ kv_value r = value ∧
      kv_updated_at r = Some (epoch_secs now) ∧
      kv_created_at r = from_option kv_created_at (Some (epoch_secs now)) (kv_store d !! key).
Proof.
  unfold upsert_kv, update_kv_row, insert_kv_row.
  destruct (kv_store d !! key) as [r|] eqn:Hr; eexists; (split; [done|]); (split; [by auto|]);
    eexists; by split_and!.
Qed.
Lemma delete_kv_row_ok key d :
  only_kv d (delete_kv_row key d) ∧ kv_store (delete_kv_row key d) = delete key (kv_store d).
Proof.
  unfold delete_kv_row. destruct (kv_store d !! key) eqn:Hr; [by auto|].
  split; [done|]. by rewrite delete_id.
Qed.
Lemma holds_set m d d' k v s r :
  kv_holds m d → json_to_string v = Some s → kv_value r = s → kv_store d' = <[k:=r]> (kv_store d) →
  kv_holds (<[k:=v]> m) d'.
Proof.
  intros Hh Hv Hr Hd. unfold kv_holds. rewrite Hd, !fmap_insert, Hr, (json_round_trip v s Hv).
  by rewrite Hh.
Qed.
Lemma holds_delete m d d' k :
  kv_holds m d → kv_store d' = delete k (kv_store d) → kv_holds (delete k m) d'.
Proof. intros Hh Hd. unfold kv_holds. by rewrite Hd, !fmap_delete, Hh. Qed.
End rows.

(** ** Refinement *)
Section refinement.
Context {E : Env} {HQ : Quiet E} {V : Type} `{Json V} `{!JsonLaws V}.
Implicit Types (m : gmap string V) (s : state).

(** One call refines one step of the map. *)
Lemma wp_kv_step op m s :
  txn s = None → kv_holds m (committed s) →
  wp (kv_step op) s (λ r s', txn s' = None ∧ same_result r (map_step op m).1 ∧
    kv_holds (map_step op m).2 (committed s') ∧ only_kv (committed s) (committed s')).
Proof.
  intros Ht Hh. assert (Hcur : cur s = committed s) by (unfold cur; by rewrite Ht).
  assert (Hab : aborted s = false) by (unfold aborted; by rewrite Ht).
  destruct op as [k v|k|k|]; cbn [kv_step map_step].
  - unfold Kv.set, Kv.serialize. wp_steps. destruct (json_to_string v) as [str|] eqn:Hv; wp_steps;
      [|split_and!; [done|apply same_eq|done|done]].
    destruct (upsert_kv_ok k str (env_server_now (S (S (n_stmt s)))) (committed s))
      as (d' & Hup & Ho & r & Hd' & Hr & _).
    eapply wp_stmt; [by st|st; simpl; rewrite Hcur; simpl; by rewrite Hup|].
    wp_steps. st. rewrite Ht. unfold set_cur. simpl. rewrite Ht. simpl. split_and!; [done|apply same_eq| |done].
    by apply (holds_set m (committed s) d' k v str r).
  - unfold Kv.get, Kv.deserialize. wp_steps. unfold select_value. st. rewrite Hcur.
    destruct (kv_store (committed s) !! k) as [r|] eqn:Hr.
    + destruct (holds_get m _ k r Hh Hr) as (v & Hm & Hj). cbn. rewrite Hj, Hm. wp_steps.
      split_and!; [done|apply same_eq|done|done].
    + rewrite (holds_none m _ k Hh Hr). wp_steps. split_and!; [done|apply same_eq|done|done].
  - unfold Kv.delete. wp_steps. st. rewrite Hcur, Ht. unfold set_cur. simpl. rewrite Ht. simpl.
    destruct (delete_kv_row_ok k (committed s)) as [Ho Hd].
    split_and!; [done|apply same_eq| |done]. by apply (holds_delete m (committed s)).
  - unfold Kv.keys. wp_steps. st. rewrite Hcur. split_and!; [done| |done|done].
    apply same_names. rewrite <- (holds_keys m (committed s)) by done. unfold select_keys.
    apply reflexive_eq. generalize (map_to_list (kv_store (committed s))) as l.
    intros l. induction l as [|[k r] l IH]; [done|]. cbn. f_equal. exact IH.
Qed.

Lemma kv_run_map ops m s :
  txn s = None → kv_holds m (committed s) →
  txn (kv_run ops s).2 = None ∧ Forall2 same_result (kv_run ops s).1 (map_run ops m).1 ∧
  kv_holds (map_run ops m).2 (committed (kv_run ops s).2) ∧
  only_kv (committed s) (committed (kv_run ops s).2).
Proof.
  revert m s. induction ops as [|op ops IH]; intros m s Ht Hh; [done|]. cbn [kv_run map_run].
  pose proof (wp_kv_step op m s Ht Hh) as Hw. unfold wp in Hw.
  destruct (kv_step op s) as [r s'], (map_step op m) as [r' m']. simpl in Hw.
  destruct Hw as (Ht' & Hr & Hh' & Ho). destruct (IH m' s' Ht' Hh') as (Ht'' & Hrs & Hh'' & Ho').
  destruct (kv_run ops s') as [rs s''], (map_run ops m') as [rs' m'']. simpl in *.
  split_and!; [done|by constructor|done|by etrans].
Qed.
End refinement.

(** ** Theorems *)

(** C36. The key-value store implements a finite map: from a table that holds a map, every
    sequence of [set], [get], [delete] and [keys] returns what the map returns (a value
    [serde_json] cannot serialise is refused and changes nothing), the table holds the
    resulting map, and nothing else in the database changes but the journal [kv_store_undo],
    to which the table's trigger may add rows: not the file system's tables, the
    configuration, the tool calls, the volumes, the overlay's tables, the other journals or
    the session settings. *)
Theorem kv_store_is_map {E : Env} {HQ : Quiet E} `{Json V} `{!JsonLaws V}
    (ops : list (kv_op V)) (m : gmap string V) (s : state) :
  txn s = None → kv_holds m (committed s) →
  Forall2 same_result (kv_run ops s).1 (map_run ops m).1 ∧
  kv_holds (map_run ops m).2 (committed (kv_run ops s).2) ∧
  only_kv (committed s) (committed (kv_run ops s).2).
Proof. intros Ht Hh. by destruct (kv_run_map ops m s Ht Hh) as (_ & ? & ? & ?). Qed.

Lemma kv_store_is_map_witness :
  kv_holds (V := bool) {[ "a" := true ]} (committed (kv_run [KvSet "a" true] mounted).2) ∧
  Forall2 same_result (kv_run [KvSet "a" true; KvGet "a"; KvDelete "a"; KvGet "a"; KvKeys] mounted).1
    [Ok KvDone; Ok (KvValue (Some true)); Ok KvDone; Ok (KvValue None); Ok (KvNames [])].
Proof.
  split.
  - refine (proj1 (proj2 (kv_store_is_map [KvSet "a" true] ∅ mounted _ _))); by vm_compute.
  - refine (proj1 (kv_store_is_map [KvSet "a" true; KvGet "a"; KvDelete "a"; KvGet "a"; KvKeys] ∅
      mounted _ _)); by vm_compute.
Defined.

(** A call that runs at most one statement, on a connection outside a transaction. *)
Lemma stmt_outside {E : Env} {A} (body : state → option (A * state)) s :
  txn s = None → (stmt body s).1 ≠ Panic ∧
  ((∀ a, (stmt body s).1 ≠ Ok a) → committed (stmt body s).2 = committed s).
Proof.
  intros Ht. unfold stmt, abort. rewrite txn_tick, Ht.
  destruct (_ || _); [done|]. destruct (body (tick s)) as [[a s']|]; [|done].
  split; [done|]. intros Hne. by destruct (Hne a).
Qed.

(** Run the statement of a call; what is left is the case where it succeeded. *)
Ltac outside Ht :=
  match goal with |- context [stmt ?b ?s'] =>
    let Hp := fresh in let Hc := fresh in
    pose proof (stmt_outside b s' Ht) as [Hp Hc]; destruct (stmt b s') as [[] ?] eqn:Hs;
    simpl in *; [|by eauto..]
  end.

(** In every environment, a call on the key-value store that returns an error, whether
    the pool, the database or the serialiser refused it, has changed nothing in the
    database; no call panics. *)
Theorem kv_failed_call_changes_nothing {E : Env} `{Json V} (op : kv_op V) (s : state) :
  txn s = None → (kv_step op s).1 ≠ Panic ∧
  ((∀ a, (kv_step op s).1 ≠ Ok a) → committed (kv_step op s).2 = committed s).
Proof.
  intros Ht. destruct op as [k v|k|k|];
    unfold kv_step, Kv.set, Kv.get, Kv.delete, Kv.keys, Kv.serialize, Kv.deserialize, query, execute_,
      execute, execute_now, get_connection, mbind, M_bind, mret, M_ret, throw;
    destruct (env_fault (n_stmt s)); try done.
  - destruct (json_to_string v); [|done]. outside Ht.
    split; [done|]. intros Hne. by destruct (Hne KvDone).
  - outside Ht. unfold stmt in Hs. destruct (_ || _); simplify_eq.
    destruct (select_value _ _) as [|row ?]; [done|]. destruct (text_opt row 0); [|done].
    by destruct (json_from_str _).
  - outside Ht. split; [done|]. intros Hne. by destruct (Hne KvDone).
  - outside Ht. split; [done|]. intros Hne. exfalso. by eapply Hne.
Qed.
Lemma kv_failed_call_changes_nothing_witness :
  let s : @state (list_env (λ n, Nat.eqb n 1)) := fresh_state in
  (kv_step (KvSet "a" true) s).1 = Err EPostgres ∧ committed (kv_step (KvSet "a" true) s).2 = committed s.
Proof.
  intros s. assert (Hr : (kv_step (KvSet "a" true) s).1 = Err EPostgres) by (by vm_compute).
  split; [exact Hr|].
  refine (proj2 (kv_failed_call_changes_nothing (KvSet "a" true) s _) _); [done|]. by rewrite Hr.
Defined.
