(* ===== verification/ToolThms.v ===== *)
(** * Tool-call records

    The table of tool calls refines a log from ids to records; [recent] lists its newest
    records, the statistics count them; a duration [record] computes can wrap around. *)

From S2P Require Import Prelude Types Tables Monad Wp Instances Sql Setup KvStore ToolCalls Mounted.

#[local] Open Scope string_scope.
#[local] Open Scope list_scope.
#[local] Open Scope Z_scope.

(** ** The specification: a log of calls *)

Inductive tool_op (J : Type) :=
  | TStart (name : string) (parameters : option J)
  | TSuccess (id : Z) (result : option J)
  | TError (id : Z) (error : string)
  | TRecord (name : string) (started_at completed_at : Z) (parameters result : option J)
      (error : option string)
  | TGet (id : Z).
Arguments TStart {J}.
Arguments TSuccess {J}.
Arguments TError {J}.
Arguments TRecord {J}.
Arguments TGet {J}.

Inductive tool_result (J : Type) :=
  | TId (id : Z)
  | TDone
  | TCall (c : option (ToolCall J)).
Arguments TId {J}.
Arguments TDone {J}.
Arguments TCall {J}.

Section log.
Context {J : Type} `{Json J}.

(** The last id that was given out, and the records. *)
Record log := mkLog { log_last : Z; log_calls : gmap Z (ToolCall J) }.

(** An empty message is no message. *)
Definition message (e : string) : option string := if decide (e = "") then None else Some e.

(** A value that is absent or can be serialised. *)
Definition serialisable (v : option J) : bool :=
  match v with Some v => bool_decide (is_Some (json_to_string v)) | None => true end.

Definition log_append (c : ToolCall J) (l : log) : outcome (tool_result J) * log :=
  (Ok (TId (call_id c)), mkLog (call_id c) (<[call_id c:=c]> (log_calls l))).
(** Complete the call [id] at [t]. *)
Definition log_complete (id t : Z) (f : ToolCall J → ToolCall J) (l : log) : outcome (tool_result J) * log :=
  match log_calls l !! id with
  | Some c =>
      (Ok TDone, mkLog (log_last l) (<[id:=
        let c := f c in
        mkToolCall (call_id c) (call_name c) (call_parameters c) (call_result c) (call_error c)
          (call_status c) (call_started_at c) (Some t)
          (Some (duration (call_started_at c) t))]> (log_calls l)))
  | None => (Err EToolCallNotFound, l)
  end.

Definition log_step (op : tool_op J) (now : Z) (l : log) : outcome (tool_result J) * log :=
  match op with
  | TStart name p =>
      if serialisable p then
        log_append (mkToolCall (log_last l + 1) name p None None Pending now None None) l
      else (Err EJson, l)
  | TSuccess id r =>
      if serialisable r then
        log_complete id now (λ c, mkToolCall (call_id c) (call_name c) (call_parameters c) r
          (call_error c) Success (call_started_at c) (call_completed_at c) (call_duration_ms c)) l
      else (Err EJson, l)
  | TError id e =>
      log_complete id now (λ c, mkToolCall (call_id c) (call_name c) (call_parameters c)
        (call_result c) (message e) Error_ (call_started_at c) (call_completed_at c)
        (call_duration_ms c)) l
  | TRecord name started completed p r e =>
      if serialisable p && serialisable r then
        log_append (mkToolCall (log_last l + 1) name p r (e ≫= message)
          (if e is Some _ then Error_ else Success) started (Some completed)
          (Some (duration started completed))) l
      else (Err EJson, l)
  | TGet id => (Ok (TCall (log_calls l !! id)), l)
  end.
(** How often a call reads the clock: a value is serialised before the time is taken, and
    [record] is given its times. *)
Definition readings (op : tool_op J) : nat :=
  match op with
  | TStart _ v | TSuccess _ v => if serialisable v then 1 else 0
  | TError _ _ => 1
  | TRecord _ _ _ _ _ _ | TGet _ => 0
  end.
(** The log along a sequence of calls: [clock n] is the [n]-th reading of the clock, and each
    call that takes the time takes the next reading. *)
Fixpoint log_run (clock : nat → Z) (n : nat) (ops : list (tool_op J)) (l : log) :
    list (outcome (tool_result J)) * log :=
  match ops with
  | [] => ([], l)
  | op :: ops =>
      let '(r, l') := log_step op (clock n) l in
      let '(rs, l'') := log_run clock (n + readings op) ops l' in (r :: rs, l'')
  end.

(** The log a state stands for. *)
Definition call_of (id : Z) (r : tool_row) : ToolCall J := Tc.row_to_tool_call (tool_cols id r).
Definition log_of {E : Env} (s : state) : log :=
  mkLog (seq_tool s) (map_imap (λ id r, Some (call_of id r)) (tool_calls (committed s))).
End log.

Section run.
Context {E : Env} {J : Type} `{Json J}.

Definition tool_step (op : tool_op J) : M (tool_result J) :=
  match op with
  | TStart name p => id ← Tc.start name p; mret (TId id)
  | TSuccess id r => Tc.success id r ≫= λ _, mret TDone
  | TError id e => Tc.error id e ≫= λ _, mret TDone
  | TRecord name st co p r e => id ← Tc.record name st co p r e; mret (TId id)
  | TGet id => c ← Tc.get id; mret (TCall c)
  end.
Fixpoint tool_run (ops : list (tool_op J)) (s : state) : list (outcome (tool_result J)) * state :=
  match ops with
  | [] => ([], s)
  | op :: ops =>
      let '(r, s') := tool_step op s in let '(rs, s'') := tool_run ops s' in (r :: rs, s'')
  end.

(** The [n]-th reading of the system's clock, in seconds since the epoch, as an [i64]. *)
Definition clock_secs (n : nat) : Z := from_option (λ t, Int.i64 t.1) 0 (env_clock n).

(** The sequence has not given out an id that is still to come. *)
Definition tool_fresh (s : state) : Prop := ∀ i, seq_tool s < i → tool_calls (committed s) !! i = None.
End run.

(** ** Refinement *)
Section refinement.
Context {E : Env} {HQ : Quiet E} {J : Type} `{Json J} `{!JsonLaws J}.
Implicit Types s : state.

Lemma imap_insert id r (m : gmap Z tool_row) :
  map_imap (λ id r, Some (call_of (J := J) id r)) (<[id:=r]> m) =
  <[id:=call_of id r]> (map_imap (λ id r, Some (call_of id r)) m).
Proof. by apply map_imap_insert_Some. Qed.
Lemma imap_lookup id (m : gmap Z tool_row) :
  map_imap (λ id r, Some (call_of (J := J) id r)) m !! id = call_of id <$> m !! id.
Proof. rewrite map_lookup_imap. by destruct (m !! id). Qed.

(** A column written from a value reads back as the value. *)
Lemma json_col_ok (v : option J) str :
  match v with Some v => json_to_string v = Some str | None => str = "" end →
  (if decide (str = "") then None else json_from_str str) = v.
Proof.
  destruct v as [v|]; intros Hs; [|by rewrite decide_True].
  rewrite decide_False; [by apply json_round_trip|]. intros ->. by apply (json_not_empty v).
Qed.
Lemma wp_serialize_opt (v : option J) s (Q : outcome (option string) → state → Prop) :
  (serialisable v = true → ∀ o, (if decide (default "" o = "") then None else json_from_str (default "" o)) = v →
     Q (Ok o) s) →
  (serialisable v = false → Q (Err EJson) s) → wp (Tc.serialize_opt v) s Q.
Proof.
  unfold Tc.serialize_opt, Kv.serialize, serialisable. intros Hok Herr.
  destruct v as [v|]; [|by apply wp_ret, Hok].
  destruct (json_to_string v) as [str|] eqn:Hv; wp_steps; [|by apply Herr, bool_decide_eq_false_2; intros [? ?]].
  apply Hok; [by apply bool_decide_eq_true_2; eauto|]. simpl. by apply (json_col_ok (Some v)).
Qed.

(** Inserting under the next id. *)
Lemma wp_insert_tool r s Q :
  txn s = None → tool_fresh s →
  Q (Ok [Integer (seq_tool s + 1)])
    (set_committed (set_tool_calls (<[seq_tool s + 1:=r]> (tool_calls (committed s))) (committed s))
      (set_seq_tool (seq_tool s + 1) (tick s))) →
  wp (Tc.insert_tool r) s Q.
Proof.
  intros Ht Hf HQ'. unfold Tc.insert_tool.
  eapply wp_stmt; [by unfold aborted; rewrite Ht| |exact HQ'].
  unfold cur, set_cur. simpl. rewrite Ht. simpl.
  rewrite (Hf (seq_tool s + 1)) by lia. unfold set_committed. simpl. by rewrite Ht.
Qed.

(** Completing a call that is there: [g] is what the [UPDATE] does to its row. *)
Lemma wp_started_at id s (Q : outcome Z → state → Prop) :
  txn s = None →
  match tool_calls (committed s) !! id with
  | Some r => Q (Ok (tc_started_at r)) (tick s)
  | None => Q (Err EToolCallNotFound) (tick s)
  end → wp (Tc.started_at_of id) s Q.
Proof.
  intros Ht HQ'. unfold Tc.started_at_of. apply wp_bind, wp_query; [by unfold aborted; rewrite Ht|].
  unfold select_started_at, cur. rewrite Ht. by destruct (tool_calls _ !! id).
Qed.

(** What a call on the records leaves alone: everything but its table. *)
Definition only_tools (s s' : state) : Prop :=
  ∃ m, committed s' = set_tool_calls m (committed s).

Definition refines (op : tool_op J) s (r : outcome (tool_result J)) (s' : state) : Prop :=
  r = (log_step op (clock_secs (n_clock s)) (log_of s)).1 ∧
  log_of s' = (log_step op (clock_secs (n_clock s)) (log_of s)).2 ∧
  n_clock s' = (n_clock s + readings op)%nat ∧ txn s' = None ∧ tool_fresh s' ∧ only_tools s s'.

Lemma wp_now_secs s (Q : outcome Z → state → Prop) :
  Q (Ok (clock_secs (n_clock s))) (tock s) → wp Tc.now_secs s Q.
Proof.
  unfold wp, Tc.now_secs, now, clock_secs, mbind, M_bind.
  destruct (quiet_clock (n_clock s)) as [t ->]. done.
Qed.

Lemma only_tools_refl s s' : committed s' = committed s → only_tools s s'.
Proof. intros Hc. exists (tool_calls (committed s)). rewrite Hc. by destruct (committed s). Qed.

Lemma refines_same op r s s' :
  n_clock s' = (n_clock s + readings op)%nat → txn s' = None → tool_fresh s → committed s' = committed s → seq_tool s' = seq_tool s →
  log_step op (clock_secs (n_clock s)) (log_of s) = (r, log_of s) → refines op s r s'.
Proof.
  intros Hn Ht Hf Hc Hq Hl. unfold refines. rewrite Hl. split_and!; [done| |done|done| |by apply only_tools_refl].
  - unfold log_of. by rewrite Hc, Hq.
  - unfold tool_fresh. by rewrite Hc, Hq.
Qed.
Lemma refines_insert op r row s s' :
  n_clock s' = (n_clock s + readings op)%nat → txn s' = None → tool_fresh s → seq_tool s' = seq_tool s + 1 →
  committed s' = set_tool_calls (<[seq_tool s + 1:=row]> (tool_calls (committed s))) (committed s) →
  log_step op (clock_secs (n_clock s)) (log_of s) = log_append (call_of (seq_tool s + 1) row) (log_of s) →
  r = Ok (TId (seq_tool s + 1)) → refines op s r s'.
Proof.
  intros Hn Ht Hf Hq Hc Hl ->. unfold refines. rewrite Hl. split_and!; [done| |done|done| |by eexists].
  - unfold log_of. rewrite Hc, Hq. simpl. by rewrite imap_insert.
  - intros i Hi. rewrite Hc, Hq in *. simpl. rewrite lookup_insert_ne by lia. apply Hf. lia.
Qed.
Lemma refines_update op row (g : tool_row → tool_row) id s s' :
  n_clock s' = (n_clock s + readings op)%nat → txn s' = None → tool_fresh s → seq_tool s' = seq_tool s →
  tool_calls (committed s) !! id = Some row →
  committed s' = update_tool g id (committed s) →
  log_step op (clock_secs (n_clock s)) (log_of s) =
    (Ok TDone, mkLog (seq_tool s) (<[id:=call_of id (g row)]> (log_calls (log_of s)))) →
  refines op s (Ok TDone) s'.
Proof.
  intros Hn Ht Hf Hq Hr Hc Hl. unfold refines. rewrite Hl.
  assert (Ha : alter g id (tool_calls (committed s)) = <[id:=g row]> (tool_calls (committed s))).
  { apply map_eq. intros j. destruct (decide (id = j)) as [<-|?].
    - by rewrite lookup_alter_eq, lookup_insert_eq, Hr.
    - by rewrite lookup_alter_ne, lookup_insert_ne. }
  split_and!; [done| |done|done| |by eexists].
  - unfold log_of. rewrite Hc, Hq. simpl. by rewrite Ha, imap_insert.
  - intros i Hi. rewrite Hc, Hq in *. simpl. rewrite Ha.
    destruct (decide (id = i)) as [->|?]; [by rewrite Hf in Hr by lia|].
    rewrite lookup_insert_ne by done. apply Hf. lia.
Qed.

(** How many readings of the clock a call took. *)
Ltac clock_count := cbn [readings]; repeat match goal with H : serialisable _ = _ |- _ => rewrite H end;
  unfold set_cur; simpl; repeat match goal with H : txn _ = None |- _ => rewrite H; simpl end; lia.

Lemma wp_start name p s :
  txn s = None → tool_fresh s → wp (tool_step (TStart name p)) s (refines (TStart name p) s).
Proof.
  intros Ht Hf. cbn [tool_step]. unfold Tc.start. wp_steps. apply wp_serialize_opt.
  - intros Hs o Ho. wp_steps. apply wp_now_secs. wp_steps. apply wp_insert_tool; [done|done|]. cbn. wp_steps.
    eapply refines_insert; [clock_count|done|done|done|done| |done].
    cbn [log_step]. rewrite Hs. unfold call_of, Tc.row_to_tool_call, Tc.json_col. cbn. by rewrite Ho.
  - intros Hs. eapply refines_same; [clock_count|done..|]. cbn [log_step]. by rewrite Hs.
Qed.
Lemma wp_record name st co p r e s :
  txn s = None → tool_fresh s →
  wp (tool_step (TRecord name st co p r e)) s (refines (TRecord name st co p r e) s).
Proof.
  intros Ht Hf. cbn [tool_step]. unfold Tc.record. wp_steps. apply wp_serialize_opt.
  - intros Hp o Ho. wp_steps. apply wp_serialize_opt.
    + intros Hr o' Ho'. wp_steps. apply wp_insert_tool; [done|done|]. cbn. wp_steps.
      eapply refines_insert; [clock_count|done|done|done|done| |done].
      cbn [log_step]. rewrite Hp, Hr. unfold call_of, Tc.row_to_tool_call, Tc.json_col. cbn.
      rewrite Ho, Ho'. by destruct e.
    + intros Hr. eapply refines_same; [clock_count|done..|]. cbn [log_step]. by rewrite Hp, Hr.
  - intros Hp. eapply refines_same; [clock_count|done..|]. cbn [log_step]. by rewrite Hp.
Qed.
Lemma wp_success id r s :
  txn s = None → tool_fresh s → wp (tool_step (TSuccess id r)) s (refines (TSuccess id r) s).
Proof.
  intros Ht Hf. cbn [tool_step]. unfold Tc.success. wp_steps. apply wp_serialize_opt.
  - intros Hs o Ho. wp_steps. apply wp_now_secs. wp_steps. apply wp_started_at; [done|]. simpl.
    destruct (tool_calls (committed s) !! id) as [row|] eqn:Hr.
    + apply wp_execute_; [by unfold aborted; simpl; rewrite Ht|]. wp_steps.
      eapply refines_update; [clock_count|by st; simpl; rewrite Ht|done
        |by unfold set_cur; simpl; rewrite Ht|done| |].
      { unfold set_cur, cur. simpl. rewrite Ht. done. }
      cbn [log_step]. rewrite Hs. unfold log_complete. cbn [log_of log_calls]. rewrite imap_lookup, Hr. cbn.
      unfold call_of, Tc.row_to_tool_call, Tc.json_col. cbn. by rewrite Ho.
    + eapply refines_same; [clock_count|done..|]. cbn [log_step]. rewrite Hs.
      unfold log_complete. cbn [log_of log_calls]. by rewrite imap_lookup, Hr.
  - intros Hs. eapply refines_same; [clock_count|done..|]. cbn [log_step]. by rewrite Hs.
Qed.
Lemma wp_error id e s :
  txn s = None → tool_fresh s → wp (tool_step (TError id e)) s (refines (TError id e) s).
Proof.
  intros Ht Hf. cbn [tool_step]. unfold Tc.error. wp_steps. apply wp_now_secs. wp_steps.
  apply wp_started_at; [done|]. simpl.
  destruct (tool_calls (committed s) !! id) as [row|] eqn:Hr.
  - apply wp_execute_; [by unfold aborted; simpl; rewrite Ht|]. wp_steps.
    eapply refines_update; [clock_count|by st; simpl; rewrite Ht|done
      |by unfold set_cur; simpl; rewrite Ht|done| |].
    { unfold set_cur, cur. simpl. rewrite Ht. done. }
    cbn [log_step]. unfold log_complete. cbn [log_of log_calls]. by rewrite imap_lookup, Hr.
  - eapply refines_same; [clock_count|done..|]. cbn [log_step].
    unfold log_complete. cbn [log_of log_calls]. by rewrite imap_lookup, Hr.
Qed.
Lemma wp_tool_get id s :
  txn s = None → tool_fresh s → wp (tool_step (TGet id)) s (refines (TGet id) s).
Proof.
  intros Ht Hf. cbn [tool_step]. unfold Tc.get. wp_steps.
  apply wp_query; [by unfold aborted; simpl; rewrite Ht|]. wp_steps.
  eapply refines_same; [clock_count|done..|]. cbn [log_step log_of log_calls]. rewrite imap_lookup.
  unfold select_tool, cur. simpl. rewrite Ht. by destruct (tool_calls _ !! id).
Qed.
Lemma wp_tool_step op s : txn s = None → tool_fresh s → wp (tool_step op) s (refines op s).
Proof. destruct op; auto using wp_start, wp_record, wp_success, wp_error, wp_tool_get. Qed.

Lemma only_tools_trans s1 s2 s3 : only_tools s1 s2 → only_tools s2 s3 → only_tools s1 s3.
Proof. intros [m1 H1] [m2 H2]. exists m2. by rewrite H2, H1. Qed.
End refinement.

(** ** Theorems *)

Lemma mounted_tools : tool_calls (committed mounted) = ∅.
Proof. by vm_compute. Qed.

(** *** The most recent calls *)

#[global] Instance started_ge_total : Total started_ge.
Proof. intros a b. unfold started_ge. lia. Qed.
#[global] Instance started_ge_trans : Transitive started_ge.
Proof. intros a b c. unfold started_ge. lia. Qed.

Section recent.
Context {E : Env} {HQ : Quiet E} {J : Type} `{Json J}.

Lemma size_log (s : state) : size (log_calls (log_of (J := J) s)) = size (tool_calls (committed s)).
Proof.
  rewrite <- !size_dom. f_equal. apply set_eq. intros id. simpl.
  rewrite !elem_of_dom, imap_lookup. by rewrite fmap_is_Some.
Qed.

(** The rows [recent] reads. *)
Definition newest (s : state) : list (Z * tool_row) :=
  merge_sort started_ge (map_to_list (tool_calls (committed s))).
Lemma wp_recent limit (s : state) :
  txn s = None →
  wp (Tc.recent (J := J) limit) s (λ r s', committed s' = committed s ∧
    let n := default 100 limit in
    if n <? 0 then r = Err EPostgres
    else r = Ok ((λ kv, call_of kv.1 kv.2) <$> take (Z.to_nat n) (newest s))).
Proof.
  intros Ht. unfold Tc.recent. wp_steps. unfold wp, stmt, select_recent, aborted. rewrite quiet_fault.
  simpl. rewrite Ht. simpl. destruct (default 100 limit <? 0).
  - unfold abort. simpl. by rewrite Ht.
  - unfold cur. simpl. rewrite Ht. split; [done|]. simpl. by rewrite <- list_fmap_compose.
Qed.

(** [recent] returns records of the log, newest first, as many as there are up to the
    limit (100 by default), and none that it leaves out started after one it returns; a
    negative limit is an error. Nothing is changed. *)
Theorem recent_lists_newest (limit : option Z) (s : state) :
  txn s = None →
  ∃ r s', Tc.recent limit s = (r, s') ∧ committed s' = committed s ∧
    let n := default 100 limit in
    let calls := log_calls (log_of (J := J) s) in
    if n <? 0 then r = Err EPostgres else
    ∃ l, r = Ok l ∧ length l = Nat.min (Z.to_nat n) (size calls) ∧
      StronglySorted (λ c c', call_started_at c' ≤ call_started_at c) l ∧
      (∀ c, c ∈ l → calls !! call_id c = Some c) ∧
      (∀ id c c', calls !! id = Some c → c ∉ l → c' ∈ l → call_started_at c ≤ call_started_at c').
Proof.
  intros Ht. destruct (wp_intro _ _ _ (wp_recent limit s Ht)) as (r & s' & Hrun & Hcom & Hr).
  exists r, s'. split; [done|]. split; [done|]. simpl in Hr. set (n := default 100 limit) in *. simpl.
  destruct (n <? 0); [done|]. subst r. eexists. split; [done|].
  set (m := map_to_list (tool_calls (committed s))). set (q := newest s).
  assert (Hp : q ≡ₚ m) by apply merge_sort_Permutation.
  assert (Hq : StronglySorted started_ge q) by (apply StronglySorted_merge_sort; apply _).
  destruct (strongly_sorted_take started_ge (Z.to_nat n) q Hq) as [Hs1 Hs2].
  split; [|split; [|split]].
  - rewrite length_fmap, length_take, Hp. unfold m. rewrite length_map_to_list.
    by rewrite <- (size_log s).
  - eapply strongly_sorted_fmap; [|exact Hs1]. by intros [] [].
  - intros c ([id row] & -> & Hin)%list_elem_of_fmap. change (call_id _) with id.
    simpl. rewrite imap_lookup. assert (Hin' : (id, row) ∈ m) by (rewrite <- Hp, <- (take_drop (Z.to_nat n) q); apply elem_of_app; by left).
    apply elem_of_map_to_list in Hin'. simpl in *. rewrite Hin'. done.
  - intros id c c' Hc Hn ([id' row'] & -> & Hin')%list_elem_of_fmap. simpl in Hc. rewrite imap_lookup in Hc.
    apply fmap_Some in Hc as (row & Hrow & ->).
    assert (Hin : (id, row) ∈ q) by (rewrite Hp; by apply elem_of_map_to_list).
    rewrite <- (take_drop (Z.to_nat n) q) in Hin. apply elem_of_app in Hin as [Hin|Hin].
    + destruct Hn. apply list_elem_of_fmap. by exists (id, row).
    + by apply (Hs2 (id', row') (id, row)).
Qed.
End recent.
Lemma recent_lists_newest_witness :
  ∃ s : @state calm_env, txn s = None ∧ (Tc.recent (J := bool) (Some (-1)) s).1 = Err EPostgres.
Proof.
  exists mounted. split; [exact mounted_idle|].
  destruct (recent_lists_newest (J := bool) (Some (-1)) mounted mounted_idle) as (r & s' & Hrun & _ & Hr).
  rewrite Hrun. exact Hr.
Defined.

(** *** Statistics *)

(** Two calls of one tool, the second still pending. *)
Definition traced : @state calm_env :=
  (tool_run (J := bool) [TRecord "grep" 5 9 None None None; TStart "grep" None] mounted).2.
Lemma traced_idle : txn traced = None.
Proof. by vm_compute. Qed.

Section stats.
Context {E : Env} {HQ : Quiet E}.

(** The counts of one tool, from its rows. *)
Definition stats_of (name : string) (rs : list tool_row) : ToolCallStats :=
  mkToolStats name (Z.of_nat (length rs)) (count_status "success" rs) (count_status "error" rs) 0.

Lemma row_to_stats_of name rs : Tc.row_to_stats (tool_stats_cols name rs) = stats_of name rs.
Proof. done. Qed.
Lemma length_statuses (rs : list tool_row) :
  Forall (λ r, tc_status r ∈ ["pending"; "success"; "error"]) rs →
  Z.of_nat (length rs) = count_status "pending" rs + count_status "success" rs + count_status "error" rs.
Proof.
  unfold count_status. induction 1 as [|r rs Hr Hrs IH]; [done|].
  rewrite !filter_cons. simpl length.
  apply elem_of_cons in Hr as [->|[->|[->|[]%not_elem_of_nil]%elem_of_cons]%elem_of_cons];
    simpl; lia.
Qed.

Lemma wp_stats_for name (s : state) :
  txn s = None →
  wp (Tc.stats_for name) s (λ r s',
    r = Ok (if decide (calls_named name (committed s) = []) then None
            else Some (stats_of name (calls_named name (committed s)))) ∧ committed s' = committed s).
Proof.
  intros Ht. unfold Tc.stats_for. wp_steps.
  apply wp_query; [by unfold aborted; simpl; rewrite Ht|]. wp_steps. split; [|done].
  unfold select_stats_for, cur. simpl. rewrite Ht.
  destruct (calls_named name (committed s)) as [|r rs]; [done|]. by rewrite decide_False.
Qed.

(** [stats_for] counts: the number of records with the name, of successful and of failed
    ones, [None] when there is none. But its average is 0 whatever the durations are: the
    server's [AVG] of a [BIGINT] is a [NUMERIC], which the client reads as [Null]. *)
Theorem stats_for_counts name (s : state) :
  txn s = None →
  ∃ s', Tc.stats_for name s =
      (Ok (if decide (calls_named name (committed s) = []) then None
           else Some (mkToolStats name (Z.of_nat (length (calls_named name (committed s))))
             (count_status "success" (calls_named name (committed s)))
             (count_status "error" (calls_named name (committed s))) 0)), s') ∧
    committed s' = committed s.
Proof.
  intros Ht. apply wp_ok. by apply (wp_stats_for name).
Qed.

(** The groups cover every row once. *)
Lemma tool_names_NoDup d : NoDup (tool_names d).
Proof. unfold tool_names. apply NoDup_elements. Qed.
Lemma elem_of_tool_names d name : name ∈ tool_names d ↔ calls_named name d ≠ [].
Proof.
  unfold tool_names, calls_named. rewrite elem_of_elements, elem_of_list_to_set, list_elem_of_fmap.
  split.
  - intros (r & -> & Hr) Hn. assert (Hin : r ∈ filter (λ r', tc_name r' = tc_name r) (map_to_list (tool_calls d)).*2)
      by (by apply list_elem_of_filter). rewrite Hn in Hin. by apply not_elem_of_nil in Hin.
  - intros Hne. destruct (filter _ _) as [|r l] eqn:Hf; [done|].
    assert (Hin : r ∈ filter (λ r, tc_name r = name) (map_to_list (tool_calls d)).*2) by (rewrite Hf; by left).
    apply list_elem_of_filter in Hin as [? ?]. by exists r.
Qed.

#[local] Instance more_calls_total : Total more_calls.
Proof. intros a b. unfold more_calls. lia. Qed.
#[local] Instance more_calls_trans : Transitive more_calls.
Proof. intros a b c. unfold more_calls. lia. Qed.

Lemma wp_stats (s : state) :
  txn s = None →
  wp Tc.stats s (λ r s', r = Ok ((λ g, stats_of g.1 g.2) <$> tool_groups (committed s)) ∧
    committed s' = committed s).
Proof.
  intros Ht. unfold Tc.stats. wp_steps. apply wp_query; [by unfold aborted; simpl; rewrite Ht|].
  wp_steps. split; [|done]. unfold select_stats_all, cur. simpl. rewrite Ht.
  by rewrite <- list_fmap_compose.
Qed.
(** [stats] returns one entry for every tool that has a record, the same one [stats_for]
    returns for it, ordered by the number of calls, most first. *)
Theorem stats_lists_every_tool (s : state) :
  txn s = None →
  ∃ l s', Tc.stats s = (Ok l, s') ∧ committed s' = committed s ∧ NoDup (ts_name <$> l) ∧
    StronglySorted (λ a b, ts_total_calls b ≤ ts_total_calls a) l ∧
    ∀ name st, (Tc.stats_for name s).1 = Ok (Some st) ↔ st ∈ l ∧ ts_name st = name.
Proof.
  intros Ht. destruct (wp_ok _ _ _ _ (wp_stats s Ht)) as (s' & Hrun & Hc).
  set (d := committed s) in *. assert (Hp : tool_groups d ≡ₚ (λ n, (n, calls_named n d)) <$> tool_names d)
    by apply merge_sort_Permutation.
  eexists _, s'. split; [done|]. split; [done|]. split; [|split].
  - rewrite <- list_fmap_compose. change (ts_name ∘ _) with (λ g : string * list tool_row, g.1).
    rewrite Hp, <- list_fmap_compose. rewrite list_fmap_id. apply tool_names_NoDup.
  - eapply strongly_sorted_fmap; [|by apply StronglySorted_merge_sort; apply _].
    intros [n1 l1] [n2 l2]. unfold more_calls. simpl. lia.
  - intros name st. rewrite (proj1 (wp_stats_for name s Ht)). fold d. rewrite list_elem_of_fmap.
    setoid_rewrite Hp. setoid_rewrite list_elem_of_fmap. split.
    + case_decide as Hn; [done|]. intros [= <-]. split; [|done].
      exists (name, calls_named name d). split; [done|]. exists name. split; [done|].
      by apply elem_of_tool_names.
    + intros ((g & -> & n & -> & Hn%elem_of_tool_names) & Hname). simpl in *. subst n.
      by rewrite decide_False.
Qed.
End stats.
(** The call of four seconds does not show in the average. *)
Lemma stats_for_counts_witness :
  (Tc.stats_for "grep" traced).1 = Ok (Some (mkToolStats "grep" 2 1 0 0)).
Proof.
  destruct (stats_for_counts "grep" traced traced_idle) as (s' & Hr & _). rewrite Hr. by vm_compute.
Defined.
Lemma stats_lists_every_tool_witness :
  ∃ l, (Tc.stats traced).1 = Ok l ∧ mkToolStats "grep" 2 1 0 0 ∈ l.
Proof.
  destruct (stats_lists_every_tool traced traced_idle) as (l & s' & Hr & _ & _ & _ & Hl).
  exists l. rewrite Hr. split; [done|]. apply (Hl "grep"). by vm_compute.
Defined.

(** *** The rows *)

(** A row has one of the three states, and a time of completion and a duration exactly when it
    is not pending. *)
Definition tool_row_wf (r : tool_row) : Prop :=
  tc_status r ∈ ["pending"; "success"; "error"] ∧
  (tc_completed_at r = None ↔ tc_status r = "pending") ∧
  (tc_duration_ms r = None ↔ tc_status r = "pending").
Definition tools_wf (d : db) : Prop := map_Forall (λ _, tool_row_wf) (tool_calls d).

Section well_formed.
Context {E : Env} {J : Type} `{Json J}.
Implicit Types s : state.

(** The committed rows and the ones of an open transaction. *)
Definition all_wf (s : state) : Prop := tools_wf (committed s) ∧ tools_wf (cur s).
Definition keeps_wf {A} (m : M A) : Prop := ∀ s, all_wf s → all_wf (m s).2.

Lemma keeps_wf_ret {A} (a : A) : keeps_wf (mret a).
Proof. by intros s. Qed.
Lemma keeps_wf_throw {A} e : keeps_wf (throw (A := A) e).
Proof. by intros s. Qed.
Lemma keeps_wf_bind {A B} (m : M A) (k : A → M B) :
  keeps_wf m → (∀ a, keeps_wf (k a)) → keeps_wf (m ≫= k).
Proof.
  intros Hm Hk s Hs. specialize (Hm s Hs). unfold mbind, M_bind.
  destruct (m s) as [[a| |] s']; simpl in *; [|done..]. by apply Hk.
Qed.
Lemma keeps_wf_connection : keeps_wf get_connection.
Proof. intros s Hs. unfold get_connection. by destruct (env_fault _). Qed.
Lemma keeps_wf_now : keeps_wf now.
Proof. intros s Hs. unfold now. by destruct (env_clock _). Qed.
Lemma all_wf_abort s : all_wf s → all_wf (abort s).
Proof. unfold all_wf, abort, cur. destruct (txn s) as [[d ab]|] eqn:Ht; simpl; [done|by rewrite Ht]. Qed.
Lemma keeps_wf_stmt {A} (body : state → option (A * state)) :
  (∀ s a s', all_wf s → body s = Some (a, s') → all_wf s') → keeps_wf (stmt body).
Proof.
  intros Hb s Hs. unfold stmt. destruct (_ || _); [by apply all_wf_abort|].
  destruct (body (tick s)) as [[a s']|] eqn:Hr; [by apply (Hb (tick s) a)|by apply all_wf_abort].
Qed.
Lemma keeps_wf_query {A} (f : db → A) : keeps_wf (query f).
Proof. apply keeps_wf_stmt. by intros s a s' Hs [= <- <-]. Qed.
Lemma all_wf_set_cur d s : all_wf s → tools_wf d → all_wf (set_cur d s).
Proof.
  intros [Hc _] Hd. unfold all_wf. st. split; [|done]. unfold set_cur. by destruct (txn s) as [[]|].
Qed.
Lemma keeps_wf_insert r : tool_row_wf r → keeps_wf (Tc.insert_tool r).
Proof.
  intros Hr. apply keeps_wf_stmt. intros s a s' Hs Hb.
  cbv beta zeta in Hb. destruct (tool_calls (cur s) !! (seq_tool s + 1)); [done|]. injection Hb as _ <-.
  apply all_wf_set_cur; [done|]. by apply map_Forall_insert_2; [|apply Hs].
Qed.
Lemma keeps_wf_update g id :
  (∀ r, tool_row_wf (g r)) → keeps_wf (execute_ (update_tool g id)).
Proof.
  intros Hg. apply keeps_wf_stmt. intros s a s' Hs [= <- <-]. apply all_wf_set_cur; [done|].
  intros j r. simpl. destruct (decide (id = j)) as [<-|?].
  - rewrite lookup_alter_eq. intros (r' & _ & ->)%fmap_Some. apply Hg.
  - rewrite lookup_alter_ne by done. apply Hs.
Qed.
Lemma keeps_wf_serialize (v : option J) : keeps_wf (Tc.serialize_opt v).
Proof. intros s Hs. unfold Tc.serialize_opt, Kv.serialize. destruct v; [|done]. by destruct (json_to_string _). Qed.
Lemma keeps_wf_ok_or {A} msg (o : option A) : keeps_wf (ok_or_internal msg o).
Proof. intros s Hs. by destruct o. Qed.

(** Every record is well-formed, in every environment and whatever call fails: its state is
    pending, success or error, and it has a time of completion and a duration exactly when
    it is no longer pending. *)
Theorem tool_rows_stay_well_formed (op : tool_op J) s :
  all_wf s → all_wf (tool_step op s).2.
Proof.
  assert (Hrow : ∀ st n p r e c d, st ∈ ["success"; "error"] →
    ∀ t, tool_row_wf (mkTool n p r e st t (Some c) (Some d))).
  { intros st n p r e c d Hst t. unfold tool_row_wf. simpl.
    apply elem_of_cons in Hst as [->|[->|[]%not_elem_of_nil]%elem_of_cons]; split_and!; try done; set_solver. }
  revert s. change (keeps_wf (tool_step op)).
  destruct op; cbn [tool_step]; apply keeps_wf_bind; auto using keeps_wf_ret;
    unfold Tc.start, Tc.success, Tc.error, Tc.record, Tc.get, Tc.started_at_of, Tc.now_secs;
    repeat first
      [ apply keeps_wf_ret | apply keeps_wf_throw | apply keeps_wf_connection | apply keeps_wf_now
      | apply keeps_wf_query | apply keeps_wf_serialize | apply keeps_wf_ok_or
      | apply keeps_wf_insert | apply keeps_wf_update; intros ? | apply keeps_wf_bind; [|intros ?]
      | case_match ]; try (apply Hrow; set_solver).
  unfold tool_row_wf. simpl. split_and!; try done. set_solver.
Qed.
End well_formed.
Lemma tool_rows_stay_well_formed_witness : all_wf (tool_step (J := bool) (TStart "grep" None) mounted).2.
Proof.
  apply (tool_rows_stay_well_formed (J := bool) (TStart "grep" None) mounted).
  unfold all_wf, cur, tools_wf. rewrite mounted_idle, mounted_tools. split; apply map_Forall_empty.
Defined.

(** *** Durations *)

(** [record] takes any two times: beyond [i64::MAX / 1000] seconds between them the duration it
    stores has wrapped around, here a positive one into a negative one. *)
Example record_wraps_duration :
  (tool_run (J := bool) [TRecord "grep" 0 9223372036854776 None None None; TGet 1] mounted).1 =
    [Ok (TId 1); Ok (TCall (Some (mkToolCall 1 "grep" None None None Success 0
      (Some 9223372036854776) (Some (-9223372036854775616)))))].
Proof. by vm_compute. Qed.
