(* ===== verification/Journal.v ===== *)
(** * The undo journal

    The capture triggers journal, for every row written, what undoes the write.  [replay]
    undoes a journal, newest entry first; [journal] is the invariant that replaying what
    has been journalled since a snapshot gives the tables back as they were, and this file
    proves that every row write keeps it. *)

From S2P Require Import Prelude Types Tables Monad Snapshot DbInv.

(** ** Undoing one entry *)

(** On a table with a primary key: delete the row, and put the before-image back unless
    the write was an [INSERT].  [ok] is what the replay needs of a before-image. *)
Definition undo_row_map {K R} `{Countable K} (ok : R → bool) (u : undo_row K R) (m : gmap K R)
    : option (gmap K R) :=
  match u_op u, u_old u with
  | UInsert, _ => Some (delete (u_key u) m)
  | _, Some r => if ok r then Some (<[u_key u:=r]> (delete (u_key u) m)) else None
  | _, None => None
  end.
Definition any {R} (r : R) : bool := true.
(** [created_at] and [updated_at] are read as integers. *)
Definition kv_complete (r : kv) : bool :=
  match kv_created_at r, kv_updated_at r with Some _, Some _ => true | _, _ => false end.

(** On [fs_dentry], whose rows are deleted by [id] and unique by [(parent_ino, name)]. *)
Definition without_id (id : Z) (m : gmap (Z * string) dentry) : gmap (Z * string) dentry :=
  filter (λ kv, d_id kv.2 ≠ id) m.
Definition undo_dentry (u : undo_row Z (string * Z * Z)) (m : gmap (Z * string) dentry)
    : option (gmap (Z * string) dentry) :=
  let m1 := without_id (u_key u) m in
  match u_op u, u_old u with
  | UInsert, _ => Some m1
  | _, Some (name, parent, ino) =>
      match m1 !! (parent, name) with
      | Some _ => None
      | None => Some (<[(parent, name):=mkDentry (u_key u) ino]> m1)
      end
  | _, None => None
  end.

Fixpoint replay {K R T} (undo : undo_row K R → T → option T) (l : list (undo_row K R)) (m : T)
    : option T :=
  match l with
  | [] => Some m
  | u :: l => m' ← undo u m; replay undo l m'
  end.

(** The [id]s of [fs_dentry] are its primary key. *)
Definition unique_ids (m : gmap (Z * string) dentry) : Prop :=
  ∀ k k' e e', m !! k = Some e → m !! k' = Some e' → d_id e = d_id e' → k = k'.

(** ** Each write is undone by its entry *)

Section inverse.
Context {K R : Type} `{Countable K}.
Implicit Types m : gmap K R.

Lemma undo_insert ok vid snap k r m :
  m !! k = None → undo_row_map ok (mkUndo vid snap UInsert k None) (<[k:=r]> m) = Some m.
Proof. intros Hk. unfold undo_row_map. simpl. by rewrite delete_insert_id. Qed.
Lemma undo_update ok vid snap k old r m :
  m !! k = Some old → ok old = true →
  undo_row_map ok (mkUndo vid snap UUpdate k (Some old)) (<[k:=r]> m) = Some m.
Proof.
  intros Hk Hok. unfold undo_row_map. simpl. rewrite Hok. f_equal.
  rewrite insert_delete_eq, insert_insert_eq. by apply insert_id.
Qed.
Lemma undo_delete ok vid snap k old m :
  m !! k = Some old → ok old = true →
  undo_row_map ok (mkUndo vid snap UDelete k (Some old)) (delete k m) = Some m.
Proof.
  intros Hk Hok. unfold undo_row_map. simpl. rewrite Hok. f_equal.
  rewrite delete_delete_eq. by apply insert_delete_id.
Qed.
End inverse.

Section dentries.
Implicit Types m : gmap (Z * string) dentry.

Lemma without_id_absent id m :
  (∀ k e, m !! k = Some e → d_id e ≠ id) → without_id id m = m.
Proof.
  intros Hm. apply map_filter_id. intros k e Hk. simpl. eauto.
Qed.
Lemma without_id_insert id k i m :
  (∀ k e, m !! k = Some e → d_id e ≠ id) → m !! k = None →
  without_id id (<[k:=mkDentry id i]> m) = m.
Proof.
  intros Hm Hk. unfold without_id. rewrite map_filter_insert_False by (simpl; auto).
  rewrite delete_id by done. by apply without_id_absent.
Qed.
Lemma undo_dentry_insert vid snap id p n i m :
  (∀ k e, m !! k = Some e → d_id e ≠ id) → m !! (p, n) = None →
  undo_dentry (mkUndo vid snap UInsert id None) (<[(p, n):=mkDentry id i]> m) = Some m.
Proof. intros. unfold undo_dentry. simpl. by rewrite without_id_insert. Qed.
Lemma unique_ids_delete k e m :
  unique_ids m → m !! k = Some e →
  ∀ k' e', delete k m !! k' = Some e' → d_id e' ≠ d_id e.
Proof.
  intros Hu Hk k' e' [Hne Hk']%lookup_delete_Some Hid. by destruct (Hu k k' e e').
Qed.
Lemma undo_dentry_delete vid snap p n e m :
  unique_ids m → m !! (p, n) = Some e →
  undo_dentry (mkUndo vid snap UDelete (d_id e) (Some (n, p, d_ino e))) (delete (p, n) m) = Some m.
Proof.
  intros Hu Hk. unfold undo_dentry. simpl.
  rewrite without_id_absent by (by apply unique_ids_delete).
  rewrite lookup_delete_eq. destruct e as [id i]. by rewrite insert_delete_id.
Qed.
Lemma undo_dentry_move vid snap p n np nn e m :
  unique_ids m → m !! (p, n) = Some e → ((np, nn) = (p, n) ∨ m !! (np, nn) = None) →
  undo_dentry (mkUndo vid snap UUpdate (d_id e) (Some (n, p, d_ino e)))
    (<[(np, nn):=e]> (delete (p, n) m)) = Some m.
Proof.
  intros Hu Hk Hnew. destruct e as [id i].
  assert (Hdel : delete (p, n) m !! (np, nn) = None).
  { rewrite lookup_delete_None. destruct Hnew as [Heq|]; [left|by right]. by rewrite Heq. }
  unfold undo_dentry. simpl.
  rewrite without_id_insert; [|by apply (unique_ids_delete (p, n) (mkDentry id i))|done].
  by rewrite lookup_delete_eq, insert_delete_id.
Qed.

Lemma unique_ids_subset m m' : unique_ids m → m' ⊆ m → unique_ids m'.
Proof. intros Hu Hs k k' e e' Hk Hk'. apply Hu; by eapply lookup_weaken. Qed.
Lemma unique_ids_insert k e m :
  unique_ids m → (∀ k' e', m !! k' = Some e' → d_id e' ≠ d_id e) → unique_ids (<[k:=e]> m).
Proof.
  intros Hu Hf k1 k2 e1 e2 [[<- <-]|[Hne1 H1]]%lookup_insert_Some
    [[<- <-]|[Hne2 H2]]%lookup_insert_Some Hid; [done| | |by eauto].
  - by destruct (Hf _ _ H2).
  - by destruct (Hf _ _ H1).
Qed.
End dentries.

(** ** The invariant *)

Section journal.
Context (vid : string) (target : Z) (d0 : db).
Implicit Types d : db.

(** What has been journalled for the volume since the snapshot [target]. *)
Definition since {K R} (table : undo_tables → list (undo_row K R)) (d : db) : list (undo_row K R) :=
  filter (newer vid target) (table (undo d)).

(** Replaying the journal gives the tables of [d0]; the volume's root exists then and now;
    the snapshots of the volume have distinct labels. *)
Record journal_ok (d : db) : Prop := {
  jo_inode : replay (undo_row_map any) (since fs_inode_undo d) (fs_inode d) = Some (fs_inode d0);
  jo_dentry : replay undo_dentry (since fs_dentry_undo d) (fs_dentry d) = Some (fs_dentry d0);
  jo_data : replay (undo_row_map any) (since fs_data_undo d) (fs_data d) = Some (fs_data d0);
  jo_symlink :
    replay (undo_row_map any) (since fs_symlink_undo d) (fs_symlink d) = Some (fs_symlink d0);
  jo_kv :
    replay (undo_row_map kv_complete) (since kv_store_undo d) (kv_store d) = Some (kv_store d0);
  jo_root : ∃ root, fs_volumes (volumes d) !! vid = Some root ∧
    is_Some (fs_inode d !! root) ∧ is_Some (fs_inode d0 !! root);
  jo_labelled snap r : fs_snapshots (volumes d) !! (vid, snap) = Some r → is_Some (sn_label r);
  jo_labels snap snap' r r' :
    fs_snapshots (volumes d) !! (vid, snap) = Some r →
    fs_snapshots (volumes d) !! (vid, snap') = Some r' →
    sn_label r = sn_label r' → snap = snap';
}.

(** The connection captures for the volume, or the volume is gone and nothing is
    promised. *)
Record journal (d : db) : Prop := {
  jn_local : guc_suppress_local (session d) = None;
  jn_ids : unique_ids (fs_dentry d);
  jn_kv : map_Forall (λ _ r, kv_complete r = true) (kv_store d);
  jn_ok snap : capture_target d = Some (vid, snap) → target < snap ∧ journal_ok d;
}.

Lemma since_entry {K R} d op k old snap (l : list (undo_row K R)) :
  capture_target d = Some (vid, snap) → target < snap →
  filter (newer vid target) (undo_entry d op k old ++ l) =
    mkUndo vid snap op k old :: filter (newer vid target) l.
Proof.
  intros Hc Hs. unfold undo_entry. rewrite Hc. simpl.
  by rewrite filter_cons_True by done.
Qed.

(** A captured write to one table, by cases on the parts of the invariant: what is left is
    the replay of that table and what else the write touches. *)
Ltac captured Hj snap Hc :=
  destruct Hj as [? ? ? Hj]; split; try done;
  intros snap Hc; destruct (Hj snap Hc) as [? [? ? ? ? ? Hroot ? ?]]; split; [done|];
  split; try done.
Ltac replay_entry Hc Hu :=
  unfold since; simpl; (erewrite since_entry; [|exact Hc|done]); simpl; by rewrite Hu.

Lemma journal_inode op k old m d :
  journal d → (∀ i, is_Some (fs_inode d !! i) → is_Some (m !! i)) →
  (∀ snap, undo_row_map any (mkUndo vid snap op k old) m = Some (fs_inode d)) →
  journal (fs_inode_capture_undo op k old (set_fs_inode m d)).
Proof.
  intros Hj Hm Hu. captured Hj snap Hc; [by replay_entry Hc Hu|].
  destruct Hroot as (root & ? & ? & ?). exists root. auto.
Qed.
Lemma journal_dentry op k old m d :
  journal d → unique_ids m →
  (∀ snap, undo_dentry (mkUndo vid snap op k old) m = Some (fs_dentry d)) →
  journal (fs_dentry_capture_undo op k old (set_fs_dentry m d)).
Proof. intros Hj Hm Hu. captured Hj snap Hc. by replay_entry Hc Hu. Qed.
Lemma journal_data op k old m d :
  journal d → (∀ snap, undo_row_map any (mkUndo vid snap op k old) m = Some (fs_data d)) →
  journal (fs_data_capture_undo op k old (set_fs_data m d)).
Proof. intros Hj Hu. captured Hj snap Hc. by replay_entry Hc Hu. Qed.
Lemma journal_symlink op k old m d :
  journal d → (∀ snap, undo_row_map any (mkUndo vid snap op k old) m = Some (fs_symlink d)) →
  journal (fs_symlink_capture_undo op k old (set_fs_symlink m d)).
Proof. intros Hj Hu. captured Hj snap Hc. by replay_entry Hc Hu. Qed.
Lemma journal_kv op k old m d :
  journal d → map_Forall (λ _ r, kv_complete r = true) m →
  (∀ snap, undo_row_map kv_complete (mkUndo vid snap op k old) m = Some (kv_store d)) →
  journal (kv_store_capture_undo op k old (set_kv_store m d)).
Proof. intros Hj Hm Hu. captured Hj snap Hc. by replay_entry Hc Hu. Qed.

(** *** The row writes *)

Lemma journal_insert_inode ino r d d' :
  journal d → insert_inode_row ino r d = Some d' → journal d'.
Proof.
  unfold insert_inode_row. destruct (fs_inode d !! ino) eqn:Hi; [done|]. intros Hj [= <-].
  apply journal_inode; [done| |intros; by apply undo_insert].
  intros i Hs. rewrite lookup_insert. by case_decide.
Qed.
Lemma journal_update_inode f ino d : journal d → journal (update_inode_row f ino d).
Proof.
  unfold update_inode_row. destruct (fs_inode d !! ino) eqn:Hi; [|done]. intros Hj.
  apply journal_inode; [done| |intros; by apply undo_update].
  intros i' Hs. rewrite lookup_insert. by case_decide.
Qed.

(** Deleting an inode takes the volumes rooted at it along. *)
Lemma cascade_capture ino d snap :
  capture_target (cascade_volumes ino d) = Some (vid, snap) →
  capture_target d = Some (vid, snap) ∧ fs_volumes (volumes d) !! vid ≠ Some ino.
Proof.
  unfold capture_target, cascade_volumes, suppress_setting. simpl.
  destruct (guc_volume_id (session d)) as [v|]; [|done].
  case_decide; [done|]. case_decide; [done|].
  destruct (filter _ (fs_volume_state _) !! v) as [st|] eqn:Hst; [|done].
  apply map_lookup_filter_Some in Hst as [Hst Hni]. rewrite Hst.
  destruct (rollback_enabled st); [|done]. intros [= -> ->]. split; [done|].
  intros Hroot. apply Hni. simpl. apply elem_of_dom. exists ino.
  by apply map_lookup_filter_Some.
Qed.
Lemma cascade_lookup ino v root d :
  fs_volumes (volumes d) !! v = Some root → root ≠ ino →
  fs_volumes (volumes (cascade_volumes ino d)) !! v = Some root.
Proof.
  intros Hv Hne. apply map_lookup_filter_Some. split; [done|]. simpl.
  intros [r Hr]%elem_of_dom. apply map_lookup_filter_Some in Hr as [Hr Hi]. simpl in Hi. congruence.
Qed.
Lemma cascade_snapshots ino d k r :
  fs_snapshots (volumes (cascade_volumes ino d)) !! k = Some r →
  fs_snapshots (volumes d) !! k = Some r.
Proof. intros H. by apply map_lookup_filter_Some in H as [? _]. Qed.

Lemma journal_delete_inode ino d : journal d → journal (delete_inode_row ino d).
Proof.
  unfold delete_inode_row. destruct (fs_inode d !! ino) as [old|] eqn:Hi; [|done]. intros Hj.
  destruct Hj as [? ? ? Hj]. split; try done. intros snap Hc'. simpl in Hc'.
  destruct (cascade_capture ino (set_fs_inode (delete ino (fs_inode d)) d) snap Hc')
    as [Hc Hne]. simpl in Hc, Hne.
  destruct (Hj snap Hc) as [Hs [? ? ? ? ? (root & Hv & Hr & Hr0) Hl Hl']]. split; [done|].
  assert (root ≠ ino) by congruence.
  split; try done.
  - unfold since. simpl. erewrite since_entry; [|exact Hc'|done]. cbn [replay].
    by rewrite undo_delete.
  - exists root. split; [by apply cascade_lookup|]. simpl. by rewrite lookup_delete_ne.
  - intros snap' r Hr'. apply cascade_snapshots in Hr'. eauto.
  - intros s1 s2 r1 r2 H1%cascade_snapshots H2%cascade_snapshots. eauto.
Qed.

Lemma id_not_taken id d k e :
  dentry_id_taken id d = false → fs_dentry d !! k = Some e → d_id e ≠ id.
Proof.
  intros Hf%bool_decide_eq_false%dec_stable Hk Hid.
  assert (Hl : filter (λ kv, d_id kv.2 = id) (fs_dentry d) !! k = Some e)
    by (by apply map_lookup_filter_Some).
  by rewrite Hf in Hl.
Qed.
Lemma journal_insert_dentry id n p i d d' :
  journal d → insert_dentry_row id n p i d = Some d' → journal d'.
Proof.
  unfold insert_dentry_row. destruct (dentry_id_taken id d) eqn:Hid; [done|].
  destruct (fs_dentry d !! (p, n)) eqn:Hk; [done|]. intros Hj [= <-].
  pose proof (λ k e, id_not_taken id d k e Hid) as Hfree.
  apply journal_dentry; [done| |intros; by apply undo_dentry_insert].
  apply unique_ids_insert; [apply Hj|done].
Qed.
Lemma journal_delete_dentry p n d : journal d → journal (delete_dentry_row p n d).
Proof.
  unfold delete_dentry_row. destruct (fs_dentry d !! (p, n)) eqn:Hk; [|done]. intros Hj.
  pose proof (jn_ids _ Hj).
  apply journal_dentry; [done| |intros; by apply undo_dentry_delete].
  eapply unique_ids_subset; [done|apply delete_subseteq].
Qed.
Lemma journal_move_dentry p n np nn d d' :
  journal d → move_dentry_row p n np nn d = Some d' → journal d'.
Proof.
  unfold move_dentry_row. destruct (fs_dentry d !! (p, n)) as [e|] eqn:Hk;
    [|by intros ? [= <-]].
  case_decide as Hd; [done|]. intros Hj [= <-]. pose proof (jn_ids _ Hj) as Hu.
  apply journal_dentry; [done| |].
  - apply unique_ids_insert; [|by apply unique_ids_delete].
    eapply unique_ids_subset; [done|apply delete_subseteq].
  - intros. apply undo_dentry_move; [done|done|].
    destruct (decide ((np, nn) = (p, n))); [by left|right].
    apply eq_None_not_Some. tauto.
Qed.

Lemma journal_insert_data k b d d' :
  journal d → insert_data_row k b d = Some d' → journal d'.
Proof.
  unfold insert_data_row. destruct (fs_data d !! k) eqn:Hk; [done|]. intros Hj [= <-].
  apply journal_data; [done|]. intros. by apply undo_insert.
Qed.
Lemma journal_update_data k b d : journal d → journal (update_data_row k b d).
Proof.
  unfold update_data_row. destruct (fs_data d !! k) eqn:Hk; [|done]. intros Hj.
  apply journal_data; [done|]. intros. by apply undo_update.
Qed.
Lemma journal_delete_data k d : journal d → journal (delete_data_row k d).
Proof.
  unfold delete_data_row. destruct (fs_data d !! k) eqn:Hk; [|done]. intros Hj.
  apply journal_data; [done|]. intros. by apply undo_delete.
Qed.
Lemma journal_upsert_data k b d : journal d → journal (upsert_data_row k b d).
Proof.
  unfold upsert_data_row. intros Hj. destruct (fs_data d !! k) eqn:Hk.
  - by apply journal_update_data.
  - destruct (insert_data_row k b d) eqn:Hi; [|done]. by eapply journal_insert_data.
Qed.
Lemma journal_delete_data_where P d : journal d → journal (delete_data_where P d).
Proof. apply delete_where_frame. intros. by apply journal_delete_data. Qed.

Lemma journal_insert_symlink ino t d d' :
  journal d → insert_symlink_row ino t d = Some d' → journal d'.
Proof.
  unfold insert_symlink_row. destruct (fs_symlink d !! ino) eqn:Hk; [done|]. intros Hj [= <-].
  apply journal_symlink; [done|]. intros. by apply undo_insert.
Qed.
Lemma journal_delete_symlink ino d : journal d → journal (delete_symlink_row ino d).
Proof.
  unfold delete_symlink_row. destruct (fs_symlink d !! ino) eqn:Hk; [|done]. intros Hj.
  apply journal_symlink; [done|]. intros. by apply undo_delete.
Qed.

Lemma journal_insert_kv k r d d' :
  kv_complete r = true → journal d → insert_kv_row k r d = Some d' → journal d'.
Proof.
  unfold insert_kv_row. destruct (kv_store d !! k) eqn:Hk; [done|]. intros Hr Hj [= <-].
  apply journal_kv; [done| |intros; by apply undo_insert].
  apply map_Forall_insert_2; [done|apply Hj].
Qed.
Lemma journal_update_kv f k d :
  (∀ r, kv_complete r = true → kv_complete (f r) = true) → journal d → journal (update_kv_row f k d).
Proof.
  unfold update_kv_row. intros Hf Hj. destruct (kv_store d !! k) eqn:Hk; [|done].
  pose proof (jn_kv _ Hj _ _ Hk).
  apply journal_kv; [done| |intros; by apply undo_update].
  apply map_Forall_insert_2; [by apply Hf|apply Hj].
Qed.
Lemma journal_delete_kv k d : journal d → journal (delete_kv_row k d).
Proof.
  unfold delete_kv_row. destruct (kv_store d !! k) eqn:Hk; [|done]. intros Hj.
  pose proof (jn_kv _ Hj _ _ Hk).
  apply journal_kv; [done| |intros; by apply undo_delete].
  apply map_Forall_delete, Hj.
Qed.

(** *** Snapshots and the rest *)

Lemma capture_target_alter f d snap :
  (∀ st, rollback_enabled (f st) = rollback_enabled st ∧ current_snap_id st ≤ current_snap_id (f st)) →
  capture_target (update_volume_state_row f vid d) = Some (vid, snap) →
  ∃ snap', capture_target d = Some (vid, snap') ∧ snap' ≤ snap.
Proof.
  intros Hf. unfold capture_target, update_volume_state_row, suppress_setting. simpl.
  destruct (guc_volume_id (session d)) as [v|]; [|done].
  case_decide; [done|]. case_decide; [done|].
  rewrite lookup_alter. case_decide as Hv; [subst v|].
  - destruct (fs_volume_state (volumes d) !! vid) as [st|]; [|done]. simpl.
    destruct (Hf st) as [He Hc]. rewrite He. destruct (rollback_enabled st); [|done].
    intros [= <-]. by exists (current_snap_id st).
  - destruct (fs_volume_state (volumes d) !! v) as [st|]; [|done].
    destruct (rollback_enabled st); [|done]. intros [= Hv' _]. congruence.
Qed.
Lemma journal_bump_snap_id d d' :
  journal d → bump_snap_id vid d = Some d' → journal d'.
Proof.
  unfold bump_snap_id. destruct (fs_volume_state (volumes d) !! vid) as [st|];
    [|by intros ? [= <-]].
  case_match; [done|]. intros [? ? ? Hj] [= <-]. split; try done. intros snap Hc.
  apply capture_target_alter in Hc as (snap' & Hc & Hle); [|intros st'; simpl; split; [done|lia]].
  destruct (Hj snap' Hc) as [? [? ? ? ? ? ? ? ?]]. split; [lia|]. by split.
Qed.
Lemma label_free label d snap r :
  label_taken vid (Some label) d = false → fs_snapshots (volumes d) !! (vid, snap) = Some r →
  sn_label r ≠ Some label.
Proof.
  intros Hf%bool_decide_eq_false%dec_stable Hk Hl.
  assert (Hi : filter (λ kv, kv.1.1 = vid ∧ sn_label kv.2 = Some label)
                 (fs_snapshots (volumes d)) !! (vid, snap) = Some r)
    by (by apply map_lookup_filter_Some).
  by rewrite Hf in Hi.
Qed.
Lemma journal_insert_snapshot snap label t d d' :
  journal d → insert_snapshot_row vid snap (mkSnapshot t (Some label)) d = Some d' → journal d'.
Proof.
  unfold insert_snapshot_row. destruct (fs_snapshots (volumes d) !! (vid, snap)) eqn:Hs; [done|].
  destruct (fs_volumes (volumes d) !! vid) eqn:Hv; [|done]. simpl sn_label.
  destruct (label_taken vid (Some label) d) eqn:Hl; [done|].
  intros [? ? ? Hj] [= <-]. split; try done. intros snap' Hc.
  destruct (Hj snap' Hc) as [? [? ? ? ? ? ? Hlab Huniq]]. split; [done|]. split; try done.
  - simpl. intros s r [[[= <-] <-]|[? Hr]]%lookup_insert_Some; [done|eauto].
  - simpl. intros s1 s2 r1 r2 [[[= <-] <-]|[? H1]]%lookup_insert_Some
      [[[= <-] <-]|[? H2]]%lookup_insert_Some; simpl; [done| | |by eauto].
    + intros Heq. by destruct (label_free _ _ _ _ Hl H2).
    + intros Heq. by destruct (label_free _ _ _ _ Hl H1).
Qed.
Lemma journal_tool_calls m d : journal d → journal (set_tool_calls m d).
Proof.
  intros [? ? ? Hj]. split; try done. intros snap Hc.
  destruct (Hj snap Hc) as [? [? ? ? ? ? ? ? ?]]. split; [done|]. by split.
Qed.
Lemma journal_end_local d : journal d → journal (end_local d).
Proof.
  intros Hj. unfold end_local. pose proof (jn_local _ Hj) as Hl.
  destruct d as [? ? ? ? ? ? ? ? ? [? ? ?] ?]. simpl in *. by subst.
Qed.
End journal.

(** Every row write of the file system keeps the journal. *)
#[global] Instance journal_rows vid target d0 : RowInv (journal vid target d0).
Proof.
  split; [apply journal_end_local|apply journal_insert_inode|apply journal_update_inode
    |apply journal_delete_inode|apply journal_insert_dentry|apply journal_delete_dentry
    |apply journal_move_dentry|apply journal_insert_data|apply journal_update_data
    |apply journal_delete_data|apply journal_upsert_data|apply journal_delete_data_where
    |apply journal_insert_symlink|apply journal_delete_symlink].
Qed.

(** ** Operations that keep the journal, whatever call fails *)

(** The committed database and the open transaction's copy. *)
Definition journalled {E : Env} (vid : string) (target : Z) (d0 : db) (s : state) : Prop :=
  held (journal vid target d0) s.
Abbreviation journals vid target d0 := (holds (journal vid target d0)).
#[export] Hint Resolve journal_rows journal_delete_kv journal_tool_calls journal_bump_snap_id : secafs_hold.
