(* ===== verification/JournalOps.v ===== *)
(** * Every operation keeps the journal

    In every environment, whatever call fails and wherever: the operations of the file
    system by inode and by path, of open files, of the key-value store, the tool-call
    records and [snapshot::commit] keep the invariant of [Journal], in the committed
    database and in a transaction they leave open. *)

From S2P Require Import Prelude Types Tables Monad Sql File Paths SecafsInode SecafsPath Setup.
From S2P Require Import Wp InodeSpec TreeInv SysInv Steps DbInv KvStore ToolCalls Snapshot Journal.

(** ** The other components *)

Section others.
Context {E : Env} (vid : string) (target : Z) (d0 : db).
Abbreviation journals := (journals vid target d0).

Lemma journals_upsert_kv k v t d d' :
  journal vid target d0 d → upsert_kv k v t d = Some d' → journal vid target d0 d'.
Proof.
  unfold upsert_kv. intros Hj. destruct (kv_store d !! k) eqn:Hk.
  - intros [= <-]. apply journal_update_kv; [|done]. intros r.
    unfold kv_complete. simpl. by destruct (kv_created_at r).
  - by apply journal_insert_kv.
Qed.
Lemma journals_insert_tool r : journals (Tc.insert_tool r).
Proof.
  apply holds_stmt. intros s a s' Hs Hb. simpl in Hb.
  destruct (tool_calls _ !! _); simplify_eq/=. apply held_set_cur; [done|].
  by apply journal_tool_calls, held_cur.
Qed.
Lemma journals_update_tool f i d :
  journal vid target d0 d → journal vid target d0 (update_tool f i d).
Proof. apply journal_tool_calls. Qed.
Lemma journals_recent limit :
  journals (stmt (λ s, rows ← select_recent limit (cur s); Some (rows, s))).
Proof. apply holds_stmt. intros s a s' Hs Hb. by destruct (select_recent _ _); simplify_eq/=. Qed.
#[local] Hint Resolve journals_upsert_kv journals_insert_tool journals_update_tool journals_recent :
  secafs_hold.

Lemma journals_kv {V} `{Json V} :
  (∀ k (v : V), journals (Kv.set k v)) ∧ (∀ k, journals (Kv.get (V := V) k)) ∧
  (∀ k, journals (Kv.delete k)) ∧ journals Kv.keys.
Proof.
  split_and!; intros; unfold Kv.set, Kv.get, Kv.delete, Kv.keys, Kv.serialize, Kv.deserialize; holding.
Qed.
Lemma journals_tools {J} `{Json J} :
  (∀ n (p : option J), journals (Tc.start n p)) ∧
  (∀ i (r : option J), journals (Tc.success i r)) ∧
  (∀ i e, journals (Tc.error i e)) ∧
  (∀ n a b (p r : option J) e, journals (Tc.record n a b p r e)) ∧
  (∀ i, journals (Tc.get (J := J) i)) ∧ (∀ l, journals (Tc.recent (J := J) l)) ∧
  (∀ n, journals (Tc.stats_for n)) ∧ journals Tc.stats.
Proof.
  split_and!; intros; unfold Tc.start, Tc.success, Tc.error, Tc.record, Tc.get, Tc.recent,
    Tc.stats_for, Tc.stats, Tc.serialize_opt, Kv.serialize, Tc.now_secs, Tc.started_at_of; holding.
Qed.

Lemma journals_collect {A} (f : DbRow → M A) rows out :
  (∀ r, journals (f r)) → journals (collect f rows out).
Proof.
  intros Hf. revert out. induction rows as [|r rows IH]; intros out; simpl; holding.
Qed.
Lemma journals_insert_snapshot snap label : journals (insert_snapshot vid snap (text_col label)).
Proof.
  unfold insert_snapshot. destruct label as [l|]; simpl; [|apply holds_bind_error].
  apply holds_execute_now. intros t d d'. apply journal_insert_snapshot.
Qed.
#[local] Hint Resolve journals_insert_snapshot : secafs_hold.
Lemma journals_commit_snapshot label : journals (commit vid label).
Proof.
  unfold commit, commit_inner, parse_ts, get_integer, get_text, get_flag, get_value_. holding.
Qed.
Lemma journals_list_snapshots v : journals (list_snapshots v).
Proof.
  unfold list_snapshots. apply holds_bind; [apply holds_query|]. intros.
  apply journals_collect. intros. unfold info_of_row, parse_ts, get_integer, get_text,
    get_text_or_null, get_value_. holding.
Qed.
Lemma journals_get_state v : journals (get_state v).
Proof. unfold get_state, get_integer, get_text, get_flag, get_value_. holding. Qed.
End others.

(** ** Sequences of calls *)

Section calls.
Context {E : Env} {V J : Type} `{Json V} `{Json J} (fs : SecAFS).

(** A call a client of a mounted volume may make. *)
Inductive call :=
  | CallFs (o : op)
  | CallPath (o : path_op)
  | KvSet (key : string) (value : V)
  | KvGet (key : string)
  | KvDelete (key : string)
  | KvKeys
  | ToolStart (name : string) (parameters : option J)
  | ToolSuccess (id : Z) (result : option J)
  | ToolError (id : Z) (error : string)
  | ToolRecord (name : string) (started_at completed_at : Z) (parameters result : option J)
      (error : option string)
  | ToolGet (id : Z)
  | ToolRecent (limit : option Z)
  | ToolStats
  | SnapCommit (label : option string)
  | SnapList
  | SnapState.

(** The call on a volume; its result is dropped. *)
Definition run_call (vid : string) (c : call) : M unit :=
  match c with
  | CallFs o => run_op fs o
  | CallPath o => run_path_op fs o
  | KvSet k v => Kv.set k v
  | KvGet k => void (Kv.get (V := V) k)
  | KvDelete k => Kv.delete k
  | KvKeys => void Kv.keys
  | ToolStart n p => void (Tc.start n p)
  | ToolSuccess i r => Tc.success i r
  | ToolError i e => Tc.error i e
  | ToolRecord n a b p r e => void (Tc.record n a b p r e)
  | ToolGet i => void (Tc.get (J := J) i)
  | ToolRecent l => void (Tc.recent (J := J) l)
  | ToolStats => void Tc.stats
  | SnapCommit l => void (commit vid l)
  | SnapList => void (list_snapshots vid)
  | SnapState => void (get_state vid)
  end.
(** Calls one after the other, whether or not they succeed. *)
Definition run_calls (vid : string) (cs : list call) (s : state) : state :=
  foldl (λ s c, (run_call vid c s).2) s cs.

Lemma journals_run_call vid target d0 c : journals vid target d0 (run_call vid c).
Proof.
  pose proof (holds_run_op (journal vid target d0) fs). pose proof (holds_run_path_op (journal vid target d0) fs).
  destruct (journals_tools vid target d0 (J := J)) as (T1 & T2 & T3 & T4 & T5 & T6 & _ & T8).
  destruct (journals_kv vid target d0 (V := V)) as (K1 & K2 & K3 & K4).
  pose proof (journals_commit_snapshot vid target d0). pose proof (journals_list_snapshots vid target d0).
  pose proof (journals_get_state vid target d0).
  destruct c; cbn [run_call]; unfold void;
    first [ solve [auto] | apply holds_bind; [solve [auto]|intros; apply holds_ret] ].
Qed.
Lemma journals_run_calls vid target d0 cs s :
  journalled vid target d0 s → journalled vid target d0 (run_calls vid cs s).
Proof.
  revert s. induction cs as [|c cs IH]; intros s Hs; simpl; [done|].
  apply IH. by apply journals_run_call.
Qed.
End calls.
