(* ===== verification/RestoreSpec.v ===== *)
(** * What restoring does to the tables

    Symbolic execution of [restore_inner] in a quiet environment.  The replay of an undo
    table runs [replay] of [Journal] on the table it undoes; the replay of [fs_inode] also
    cascades to the volume tables, which the statements after it repair. *)

From S2P Require Import Prelude Types Tables Monad Wp Snapshot Journal.

#[local] Open Scope string_scope.
#[local] Open Scope list_scope.
#[local] Open Scope Z_scope.

#[local] Arguments to_char : simpl never.

(** ** Capture is suppressed *)

Definition muted (d : db) : Prop := guc_suppress_local (session d) = Some "true".

Lemma muted_capture d : muted d → capture_target d = None.
Proof.
  unfold muted, capture_target, suppress_setting. intros ->.
  destruct (guc_volume_id (session d)); [|done]. case_decide; [done|].
  by rewrite decide_True.
Qed.
Lemma inode_capture_muted op k old d : muted d → fs_inode_capture_undo op k old d = d.
Proof.
  intros Hm%muted_capture. unfold fs_inode_capture_undo, undo_entry. rewrite Hm.
  by destruct d as [? ? ? ? ? ? ? ? [] ? ?].
Qed.
Lemma dentry_capture_muted op k old d : muted d → fs_dentry_capture_undo op k old d = d.
Proof.
  intros Hm%muted_capture. unfold fs_dentry_capture_undo, undo_entry. rewrite Hm.
  by destruct d as [? ? ? ? ? ? ? ? [] ? ?].
Qed.
Lemma data_capture_muted op k old d : muted d → fs_data_capture_undo op k old d = d.
Proof.
  intros Hm%muted_capture. unfold fs_data_capture_undo, undo_entry. rewrite Hm.
  by destruct d as [? ? ? ? ? ? ? ? [] ? ?].
Qed.
Lemma symlink_capture_muted op k old d : muted d → fs_symlink_capture_undo op k old d = d.
Proof.
  intros Hm%muted_capture. unfold fs_symlink_capture_undo, undo_entry. rewrite Hm.
  by destruct d as [? ? ? ? ? ? ? ? [] ? ?].
Qed.
Lemma kv_capture_muted op k old d : muted d → kv_store_capture_undo op k old d = d.
Proof.
  intros Hm%muted_capture. unfold kv_store_capture_undo, undo_entry. rewrite Hm.
  by destruct d as [? ? ? ? ? ? ? ? [] ? ?].
Qed.

(** ** Undoing one entry, as a step on the database *)

Definition step_dentry (u : undo_row Z (string * Z * Z)) (d : db) : option db :=
  m ← undo_dentry u (fs_dentry d); Some (set_fs_dentry m d).
Definition step_data (u : undo_row (Z * Z) (list byte)) (d : db) : option db :=
  m ← undo_row_map any u (fs_data d); Some (set_fs_data m d).
Definition step_symlink (u : undo_row Z string) (d : db) : option db :=
  m ← undo_row_map any u (fs_symlink d); Some (set_fs_symlink m d).
Definition step_kv (u : undo_row string kv) (d : db) : option db :=
  m ← undo_row_map kv_complete u (kv_store d); Some (set_kv_store m d).
(** Deleting an inode that is there cascades. *)
Definition step_inode (u : undo_row Z inode) (d : db) : option db :=
  m ← undo_row_map any u (fs_inode d);
  Some (set_fs_inode m
    (if bool_decide (is_Some (fs_inode d !! u_key u)) then cascade_volumes (u_key u) d else d)).

(** A replay of one table is a replay on the database. *)
Lemma replay_lift {K R T} (undo : undo_row K R → T → option T) (get : db → T) (set : T → db → db)
    l d m :
  (∀ d, set (get d) d = d) → (∀ m d, get (set m d) = m) →
  (∀ m m' d, set m (set m' d) = set m d) →
  replay undo l (get d) = Some m →
  replay (λ u d, m ← undo u (get d); Some (set m d)) l d = Some (set m d).
Proof.
  intros H1 H2 H3. revert d. induction l as [|u l IH]; intros d; cbn [replay].
  - intros [= <-]. by rewrite H1.
  - destruct (undo u (get d)) as [m'|] eqn:Hu; [|done]. simpl. intros Hr.
    rewrite <- (H3 m m' d). apply IH. by rewrite H2.
Qed.
Lemma replay_dentry l d m :
  replay undo_dentry l (fs_dentry d) = Some m → replay step_dentry l d = Some (set_fs_dentry m d).
Proof. apply replay_lift; [by intros []|done|done]. Qed.
Lemma replay_data l d m :
  replay (undo_row_map any) l (fs_data d) = Some m → replay step_data l d = Some (set_fs_data m d).
Proof. apply replay_lift; [by intros []|done|done]. Qed.
Lemma replay_symlink l d m :
  replay (undo_row_map any) l (fs_symlink d) = Some m →
  replay step_symlink l d = Some (set_fs_symlink m d).
Proof. apply replay_lift; [by intros []|done|done]. Qed.
Lemma replay_kv l d m :
  replay (undo_row_map kv_complete) l (kv_store d) = Some m →
  replay step_kv l d = Some (set_kv_store m d).
Proof. apply replay_lift; [by intros []|done|done]. Qed.

(** ** The rows *)

Lemma from_to_char op : from_char (to_char op) = Some op.
Proof. by destruct op. Qed.

Section rows.
Context {E : Env}.
Implicit Types s : state.

Lemma wp_read_op op rest s Q :
  Q (Ok op) s → wp (read_op (Text (String (to_char op) "") :: rest) 0) s Q.
Proof. by destruct op. Qed.
Lemma wp_read_i64 row i z s Q :
  get_value row i = Some (Integer z) → Q (Ok z) s → wp (read_i64 row i) s Q.
Proof. unfold wp, read_i64, get_integer, get_value_. by intros ->. Qed.
Lemma wp_read_text row i t s Q :
  get_value row i = Some (Text t) → Q (Ok t) s → wp (read_text row i) s Q.
Proof. unfold wp, read_text, get_value_. by intros ->. Qed.
Lemma wp_get_value row i v s (Q : outcome DbValue → state → Prop) :
  get_value row i = Some v → Q (Ok v) s → wp (get_value_ row i) s Q.
Proof. unfold wp, get_value_. by intros ->. Qed.
Lemma wp_get_integer msg row i z s Q :
  get_value row i = Some (Integer z) → Q (Ok z) s → wp (get_integer msg row i) s Q.
Proof. unfold wp, get_integer, get_value_. by intros ->. Qed.
Lemma wp_get_text msg row i t s Q :
  get_value row i = Some (Text t) → Q (Ok t) s → wp (get_text msg row i) s Q.
Proof. unfold wp, get_text, get_value_. by intros ->. Qed.
Lemma wp_get_flag msg row i b s Q :
  get_value row i = Some (Integer (bool_int b)) → Q (Ok b) s → wp (get_flag msg row i) s Q.
Proof. unfold wp, get_flag, get_value_. intros ->. by destruct b. Qed.
Lemma wp_get_text_or_null msg row i o s Q :
  get_value row i = Some (text_col o) → Q (Ok o) s → wp (get_text_or_null msg row i) s Q.
Proof. unfold wp, get_text_or_null, get_value_. intros ->. by destruct o. Qed.
End rows.

(** One step of a row that is read back. *)
Ltac row_step :=
  cbv beta iota;
  first [ wp_step
        | apply wp_read_op
        | eapply wp_read_i64; [reflexivity|]
        | eapply wp_read_text; [reflexivity|]
        | eapply wp_get_integer; [reflexivity|]
        | eapply wp_get_text; [reflexivity|]
        | eapply wp_get_flag; [reflexivity|]
        | eapply wp_get_text_or_null; [reflexivity|]
        | eapply wp_get_value; [reflexivity|] ].
Ltac row_steps := repeat row_step.

(** ** The loops *)

Section loops.
Context {E : Env} {HQ : Quiet E}.
Implicit Types s : state.

(** [body] on the row of [u] does [step u] to the database. *)
Definition undoes {K R} (body : DbRow → M unit) (cols : undo_row K R → DbRow)
    (step : undo_row K R → db → option db) : Prop :=
  ∀ u s d', aborted s = false → muted (cur s) → step u (cur s) = Some d' →
    wp (body (cols u)) s (λ r s', r = Ok tt ∧ db_step s s' ∧ cur s' = d').

Lemma wp_replay_loop {K R} (body : DbRow → M unit) (cols : undo_row K R → DbRow) step l n s d' :
  undoes body cols step → (∀ u d d', step u d = Some d' → session d' = session d) →
  aborted s = false → muted (cur s) → replay step l (cur s) = Some d' →
  wp (replay_loop body (cols <$> l) n) s (λ r s',
    r = Ok (n + Z.of_nat (length l)) ∧ db_step s s' ∧ cur s' = d').
Proof.
  intros Hb Hses. revert n s. induction l as [|u l IH]; intros n s Hab Hm; simpl.
  { intros [= <-]. apply wp_ret. split; [f_equal; lia|]. auto. }
  destruct (step u (cur s)) as [d1|] eqn:Hu; [|done]. simpl. intros Hr.
  apply wp_bind. eapply wp_mono; [|by apply Hb]. intros r s1 (-> & Hs1 & Hc1). subst d1.
  eapply wp_mono; [|apply IH].
  - intros r s2 (-> & Hs2 & Hc2). split; [f_equal; lia|]. split; [|done].
    by eapply db_step_trans.
  - by rewrite (db_step_aborted _ _ Hs1).
  - unfold muted. by rewrite (Hses _ _ _ Hu).
  - done.
Qed.

(** What a suppressed deletion and insertion do. *)
Lemma delete_data_muted k d : muted d → delete_data_row k d = set_fs_data (delete k (fs_data d)) d.
Proof.
  intros Hm. unfold delete_data_row. destruct (fs_data d !! k) eqn:Hk.
  - by rewrite data_capture_muted.
  - rewrite delete_id by done. by destruct d.
Qed.
Lemma insert_data_muted k b d :
  muted d → fs_data d !! k = None → insert_data_row k b d = Some (set_fs_data (<[k:=b]> (fs_data d)) d).
Proof. intros Hm Hk. unfold insert_data_row. by rewrite Hk, data_capture_muted. Qed.
Lemma delete_symlink_muted k d :
  muted d → delete_symlink_row k d = set_fs_symlink (delete k (fs_symlink d)) d.
Proof.
  intros Hm. unfold delete_symlink_row. destruct (fs_symlink d !! k) eqn:Hk.
  - by rewrite symlink_capture_muted.
  - rewrite delete_id by done. by destruct d.
Qed.
Lemma insert_symlink_muted k b d :
  muted d → fs_symlink d !! k = None →
  insert_symlink_row k b d = Some (set_fs_symlink (<[k:=b]> (fs_symlink d)) d).
Proof. intros Hm Hk. unfold insert_symlink_row. by rewrite Hk, symlink_capture_muted. Qed.
Lemma delete_kv_muted k d : muted d → delete_kv_row k d = set_kv_store (delete k (kv_store d)) d.
Proof.
  intros Hm. unfold delete_kv_row. destruct (kv_store d !! k) eqn:Hk.
  - by rewrite kv_capture_muted.
  - rewrite delete_id by done. by destruct d.
Qed.
Lemma insert_kv_muted k b d :
  muted d → kv_store d !! k = None →
  insert_kv_row k b d = Some (set_kv_store (<[k:=b]> (kv_store d)) d).
Proof. intros Hm Hk. unfold insert_kv_row. by rewrite Hk, kv_capture_muted. Qed.
Lemma delete_inode_muted k d :
  muted d → delete_inode_row k d = set_fs_inode (delete k (fs_inode d))
    (if bool_decide (is_Some (fs_inode d !! k)) then cascade_volumes k d else d).
Proof.
  intros Hm. unfold delete_inode_row. destruct (fs_inode d !! k) eqn:Hk.
  - rewrite inode_capture_muted by done. by rewrite bool_decide_eq_true_2 by eauto.
  - rewrite bool_decide_eq_false_2 by (by intros [? ?]).
    rewrite delete_id by done. by destruct d.
Qed.
Lemma insert_inode_muted k b d :
  muted d → fs_inode d !! k = None →
  insert_inode_row k b d = Some (set_fs_inode (<[k:=b]> (fs_inode d)) d).
Proof. intros Hm Hk. unfold insert_inode_row. by rewrite Hk, inode_capture_muted. Qed.

Lemma muted_cascade m (b : bool) k d :
  muted d → muted (set_fs_inode m (if b then cascade_volumes k d else d)).
Proof. by destruct b. Qed.

(** The statements of one row: the deletion, and the insertion of a before-image. *)
Ltac undo_cases step :=
  let Hs := fresh "Hs" in
  intros [v snap op k old] s d' Hab Hm Hs; unfold step, undo_row_map, undo_dentry in Hs;
  simpl in Hs; destruct op; [|destruct old as [old|]; [|done]..]; simplify_eq/=.
Ltac undo_steps Hdel Hins :=
  row_steps; rewrite Hdel by done; cbn [u_op u_key];
  lazymatch goal with |- wp (when (not_insert UInsert) _) _ _ => change (not_insert UInsert) with false
                    | |- wp (when (not_insert ?op) _) _ _ => change (not_insert op) with true end;
  cbn [when]; row_steps;
  try (eapply wp_execute;
       [by st|rewrite cur_set_cur; apply Hins; [first [done|by apply muted_cascade]|simpl; apply lookup_delete_eq]|]);
  st; (split_and!; [done|by auto 10|done]).

Lemma undoes_data : undoes replay_data_row data_undo_cols step_data.
Proof.
  undo_cases step_data; unfold replay_data_row, data_undo_cols, op_col, old_cols; destruct k as [ino c];
    undo_steps delete_data_muted insert_data_muted.
Qed.
Lemma undoes_symlink : undoes replay_symlink_row symlink_undo_cols step_symlink.
Proof.
  undo_cases step_symlink; unfold replay_symlink_row, symlink_undo_cols, op_col, old_cols;
    undo_steps delete_symlink_muted insert_symlink_muted.
Qed.
Lemma undoes_inode : undoes replay_inode_row inode_undo_cols step_inode.
Proof.
  undo_cases step_inode; unfold replay_inode_row, inode_undo_cols, op_col, old_cols;
    try lazymatch type of old with inode => destruct old end;
    undo_steps delete_inode_muted insert_inode_muted.
Qed.
Lemma undoes_kv : undoes replay_kv_row kv_undo_cols step_kv.
Proof.
  undo_cases step_kv; unfold replay_kv_row, kv_undo_cols, op_col, old_cols;
    try lazymatch type of old with
        | kv => destruct old as [value [c|] [u|]]; simplify_eq/=
        end;
    undo_steps delete_kv_muted insert_kv_muted.
Qed.

(** *** The directory table *)

Lemma delete_dentry_id_muted id d :
  muted d → delete_dentry_where (λ _ e, bool_decide (d_id e = id)) d =
    set_fs_dentry (without_id id (fs_dentry d)) d.
Proof.
  intros Hm. unfold delete_dentry_where.
  set (ks := (map_to_list _).*1).
  assert (Hks : ∀ k, k ∈ ks ↔ ∃ e, fs_dentry d !! k = Some e ∧ d_id e = id).
  { intros k. unfold ks. rewrite list_elem_of_fmap. split.
    - intros ([k' e] & -> & Hin%elem_of_map_to_list).
      apply map_lookup_filter_Some in Hin as [? Hid%bool_decide_eq_true]. eauto.
    - intros (e & He & Hid). exists (k, e). split; [done|].
      apply elem_of_map_to_list, map_lookup_filter_Some. split; [done|].
      by apply bool_decide_eq_true. }
  assert (Hf : ∀ l, foldr (λ k d, delete_dentry_row k.1 k.2 d) d l =
                 set_fs_dentry (filter (λ kv, kv.1 ∉ l) (fs_dentry d)) d).
  { induction l as [|[p n] l IH]; simpl.
    - rewrite map_filter_id by (intros; set_solver). by destruct d.
    - rewrite IH. unfold delete_dentry_row. simpl.
      assert (Hdel : delete (p, n) (filter (λ kv, kv.1 ∉ l) (fs_dentry d)) =
                filter (λ kv, kv.1 ∉ (p, n) :: l) (fs_dentry d)).
      { apply map_eq. intros k. apply option_eq. intros e.
        rewrite lookup_delete_Some, !map_lookup_filter_Some. simpl. set_solver. }
      rewrite <- Hdel. destruct (filter _ _ !! (p, n)) eqn:Hk.
      + by rewrite dentry_capture_muted.
      + by rewrite delete_id. }
  rewrite Hf. f_equal. apply map_eq. intros k. apply option_eq. intros e.
  unfold without_id. rewrite !map_lookup_filter_Some. simpl. rewrite Hks. naive_solver.
Qed.
Lemma insert_dentry_muted id n p i m d :
  muted d → fs_dentry d = without_id id m → without_id id m !! (p, n) = None →
  insert_dentry_row id n p i d = Some (set_fs_dentry (<[(p, n):=mkDentry id i]> (without_id id m)) d).
Proof.
  intros Hm Hd Hk. unfold insert_dentry_row, dentry_id_taken. rewrite Hd, Hk.
  rewrite bool_decide_eq_false_2; [by rewrite dentry_capture_muted|].
  intros Hne. apply Hne, map_empty_filter_2. intros k e He Hid.
  apply map_lookup_filter_Some in He as [_ ?]. done.
Qed.
Lemma undoes_dentry : undoes replay_dentry_row dentry_undo_cols step_dentry.
Proof.
  intros [v snap op k old] s d' Hab Hm Hs. unfold step_dentry, undo_dentry in Hs. simpl in Hs.
  unfold replay_dentry_row, dentry_undo_cols, op_col, old_cols. cbn [u_op u_key u_old].
  row_steps. rewrite delete_dentry_id_muted by done. cbn [u_op u_key] in *.
  destruct (decide (op = UInsert)) as [->|Hop].
  { simplify_eq/=. row_steps. st. split_and!; [done|by auto 10|done]. }
  assert (not_insert op = true) as -> by (by destruct op).
  destruct old as [[[n p] i]|]; [|by destruct op].
  destruct (without_id k (fs_dentry (cur s)) !! (p, n)) eqn:Hk; [by destruct op|].
  assert (set_fs_dentry (<[(p, n):=mkDentry k i]> (without_id k (fs_dentry (cur s)))) (cur s) = d')
    by (by destruct op; simplify_eq/=). subst d'.
  cbn [when]. row_steps.
  eapply wp_execute; [by st|rewrite cur_set_cur; by apply (insert_dentry_muted _ _ _ _ (fs_dentry (cur s)))|].
  st. split_and!; [done|by auto 10|done].
Qed.
End loops.

(** ** The volume tables under the replay of [fs_inode] *)

(** The rows of a volume are the same, or gone. *)
Record vol_same (vid : string) (d d' : db) : Prop := {
  vs_volume : fs_volumes (volumes d') !! vid = fs_volumes (volumes d) !! vid;
  vs_state : fs_volume_state (volumes d') !! vid = fs_volume_state (volumes d) !! vid;
  vs_snap snap : fs_snapshots (volumes d') !! (vid, snap) = fs_snapshots (volumes d) !! (vid, snap);
}.
Record vol_gone (vid : string) (d : db) : Prop := {
  vg_volume : fs_volumes (volumes d) !! vid = None;
  vg_state : fs_volume_state (volumes d) !! vid = None;
  vg_snap snap : fs_snapshots (volumes d) !! (vid, snap) = None;
}.

Section volumes.
Implicit Types d : db.

Lemma vol_same_trans vid d d' d'' : vol_same vid d d' → vol_same vid d' d'' → vol_same vid d d''.
Proof. intros [? ? H] [? ? H']. split; [congruence..|]. intros snap. by rewrite H', H. Qed.
Lemma vol_gone_same vid d d' : vol_gone vid d → vol_same vid d d' → vol_gone vid d'.
Proof. intros [? ? H] [? ? H']. split; [congruence..|]. intros snap. by rewrite H', H. Qed.

Lemma cascaded_iff vid ino d :
  vid ∈ dom (filter (λ kv, kv.2 = ino) (fs_volumes (volumes d))) ↔
    fs_volumes (volumes d) !! vid = Some ino.
Proof.
  rewrite elem_of_dom. unfold is_Some. setoid_rewrite map_lookup_filter_Some. naive_solver.
Qed.
Lemma cascade_same vid ino d :
  fs_volumes (volumes d) !! vid ≠ Some ino → vol_same vid d (cascade_volumes ino d).
Proof.
  rewrite <- cascaded_iff. intros Hni. split; [| |intros snap]; simpl; apply option_eq; intros x;
    rewrite map_lookup_filter_Some; simpl; tauto.
Qed.
Lemma cascade_gone vid ino d :
  fs_volumes (volumes d) !! vid = Some ino → vol_gone vid (cascade_volumes ino d).
Proof.
  rewrite <- cascaded_iff. intros Hin. split; [| |intros snap]; simpl; apply eq_None_not_Some;
    intros [x [_ Hx]%map_lookup_filter_Some]; by apply Hx.
Qed.

Lemma replay_inode_frame l d m :
  replay (undo_row_map any) l (fs_inode d) = Some m →
  ∃ v, replay step_inode l d = Some (set_fs_inode m (set_volumes v d)).
Proof.
  revert d. induction l as [|u l IH]; intros d; cbn [replay].
  { intros [= <-]. exists (volumes d). by destruct d. }
  destruct (step_inode u d) as [d1|] eqn:Hu; unfold step_inode in Hu;
    destruct (undo_row_map any u (fs_inode d)) as [m'|]; simplify_eq/=; [|done].
  intros Hr. case_bool_decide.
  - destruct (IH (set_fs_inode m' (cascade_volumes (u_key u) d)) Hr) as [v Hv]. by exists v.
  - destruct (IH (set_fs_inode m' d) Hr) as [v Hv]. by exists v.
Qed.
Lemma step_inode_cases u d d' :
  step_inode u d = Some d' →
  volumes d' = volumes d ∧ fs_inode d !! u_key u = None ∨
  volumes d' = volumes (cascade_volumes (u_key u) d) ∧ is_Some (fs_inode d !! u_key u).
Proof.
  unfold step_inode. destruct (undo_row_map _ _ _); [|done]. intros [= <-].
  case_bool_decide as Hk; [by right|left]. split; [done|]. by apply eq_None_not_Some.
Qed.
Lemma step_inode_lookup u d d' i :
  step_inode u d = Some d' → i ≠ u_key u → fs_inode d' !! i = fs_inode d !! i.
Proof.
  unfold step_inode, undo_row_map. intros Hs Hne.
  destruct (u_op u), (u_old u); simplify_eq/=; rewrite ?lookup_insert_ne, ?lookup_delete_ne by done;
    done.
Qed.

Lemma vol_same_volumes vid d d' : volumes d' = volumes d → vol_same vid d d'.
Proof. intros Hv. split; intros; by rewrite Hv. Qed.
Lemma step_inode_same vid u d d' :
  step_inode u d = Some d' → fs_volumes (volumes d) !! vid ≠ Some (u_key u) → vol_same vid d d'.
Proof.
  intros [[Hv _]|[Hv _]]%step_inode_cases Hne; [by apply vol_same_volumes|].
  eapply vol_same_trans; [by apply cascade_same|]. by apply vol_same_volumes.
Qed.
Lemma replay_inode_same vid l d d' :
  replay step_inode l d = Some d' →
  (∀ root, fs_volumes (volumes d) !! vid = Some root → root ∉ u_key <$> l) → vol_same vid d d'.
Proof.
  revert d. induction l as [|u l IH]; intros d; cbn [replay]; [intros [= <-] _; by apply vol_same_volumes|].
  destruct (step_inode u d) as [d1|] eqn:Hu; [|done]. cbn [mbind option_bind]. intros Hr Hni.
  assert (Hs : vol_same vid d d1).
  { apply (step_inode_same vid u); [done|]. intros Hv. apply (Hni _ Hv). set_solver. }
  eapply vol_same_trans; [exact Hs|]. apply IH; [done|]. rewrite (vs_volume _ _ _ Hs).
  intros root Hv Hin. apply (Hni _ Hv). set_solver.
Qed.
Lemma replay_inode_gone vid root l d d' :
  replay step_inode l d = Some d' → fs_volumes (volumes d) !! vid = Some root →
  is_Some (fs_inode d !! root) → root ∈ u_key <$> l → vol_gone vid d'.
Proof.
  revert d. induction l as [|u l IH]; intros d; cbn [replay]; [set_solver|].
  destruct (step_inode u d) as [d1|] eqn:Hu; [|done]. cbn [mbind option_bind]. intros Hr Hv Hi Hin.
  destruct (decide (root = u_key u)) as [->|Hne].
  - destruct (step_inode_cases _ _ _ Hu) as [[_ Hno]|[Hv1 _]]; [rewrite Hno in Hi; by destruct Hi|].
    assert (Hg : vol_gone vid d1).
    { eapply vol_gone_same; [by apply cascade_gone|]. by apply vol_same_volumes. }
    eapply vol_gone_same; [exact Hg|]. apply (replay_inode_same vid l d1); [done|].
    intros root. by rewrite (vg_volume _ _ Hg).
  - apply (IH d1); [done| | |set_solver].
    + rewrite (vs_volume _ d d1); [done|]. apply (step_inode_same vid u); [done|]. congruence.
    + by rewrite (step_inode_lookup u d d1).
Qed.
End volumes.

(** ** Saving and putting back *)

Definition mute (d : db) : db := set_session (set_guc_suppress_local (Some "true") (session d)) d.

(** [d'] has the snapshots of [d] and those of [l] that were missing. *)
Record snaps_added (vid : string) (l : list (Z * option string)) (d d' : db) : Prop := {
  sa_frame : ∃ m, d' = set_volumes (set_fs_snapshots m (volumes d)) d;
  sa_keep k r : fs_snapshots (volumes d) !! k = Some r → fs_snapshots (volumes d') !! k = Some r;
  sa_add snap label : (snap, label) ∈ l → fs_snapshots (volumes d) !! (vid, snap) = None →
    sn_label <$> fs_snapshots (volumes d') !! (vid, snap) = Some label;
  sa_only k r : fs_snapshots (volumes d') !! k = Some r →
    fs_snapshots (volumes d) !! k = Some r ∨ ∃ snap, k = (vid, snap) ∧ (snap, sn_label r) ∈ l;
}.
(** The snapshots of [l] can be added: distinct, labelled, with labels that are free. *)
Record snaps_fresh (vid : string) (l : list (Z * option string)) (d : db) : Prop := {
  sf_snaps : NoDup l.*1;
  sf_labels : NoDup l.*2;
  sf_free snap label : (snap, label) ∈ l → is_Some label ∧
    (is_Some (fs_snapshots (volumes d) !! (vid, snap)) ∨
     ∀ snap' r, fs_snapshots (volumes d) !! (vid, snap') = Some r → sn_label r ≠ label);
}.

Section saving.
Context {E : Env} {HQ : Quiet E}.
Implicit Types s : state.

Lemma wp_collect {A X} (f : DbRow → M A) (cols : X → DbRow) (g : X → A) l out s :
  (∀ x, x ∈ l → wp (f (cols x)) s (λ r s', r = Ok (g x) ∧ s' = s)) →
  wp (collect f (cols <$> l) out) s (λ r s', r = Ok (out ++ (g <$> l)) ∧ s' = s).
Proof.
  revert out. induction l as [|x l IH]; intros out Hf; simpl.
  { apply wp_ret. by rewrite app_nil_r. }
  apply wp_bind. eapply wp_mono; [|by apply Hf; left]. intros r s' [-> ->].
  eapply wp_mono; [|apply IH; intros; by apply Hf; right]. intros r s' [-> ->]. by rewrite <- app_assoc.
Qed.
Lemma wp_set_local_suppress s d ab Q :
  txn s = Some (d, ab) → ab = false → Q (Ok tt) (set_cur (mute d) (tick s)) →
  wp (set_local_suppress "true") s Q.
Proof.
  intros Ht -> HQ'. eapply wp_stmt.
  - unfold aborted. by rewrite Ht.
  - simpl. rewrite Ht. unfold cur. simpl. by rewrite Ht.
  - done.
Qed.
Lemma wp_execute_now f s d' (Q : outcome unit → state → Prop) :
  aborted s = false → f (env_server_now (S (n_stmt s))) (cur s) = Some d' →
  Q (Ok tt) (set_cur d' (tick s)) → wp (execute_now f) s Q.
Proof.
  intros Hab Hf HQ'. eapply wp_stmt; [done| |done].
  change (cur (tick s)) with (cur s). change (n_stmt (tick s)) with (S (n_stmt s)).
  by rewrite Hf.
Qed.
Lemma wp_saved_root vid root s :
  aborted s = false → fs_volumes (volumes (cur s)) !! vid = Some root →
  wp (saved_root_ino vid) s (λ r s', r = Ok (Some root) ∧ s' = tick s).
Proof. intros Hab Hv. unfold saved_root_ino. wp_steps. unfold select_root. rewrite Hv. by row_steps. Qed.
Lemma wp_saved_state vid v s :
  aborted s = false → fs_volume_state (volumes (cur s)) !! vid = Some v →
  wp (saved_volume_state vid) s (λ r s',
    r = Ok (Some (rollback_enabled v, current_snap_id v)) ∧ s' = tick s).
Proof.
  intros Hab Hv. unfold saved_volume_state. wp_steps. unfold select_vstate. rewrite Hv. by row_steps.
Qed.
Lemma wp_saved_snapshots vid target s :
  aborted s = false →
  wp (saved_snapshots vid target) s (λ r s',
    r = Ok ((λ x, (x.1, sn_label x.2)) <$> snapshots_where vid (λ snap _, snap <=? target) (cur s)) ∧
    s' = tick s).
Proof.
  intros Hab. unfold saved_snapshots. wp_steps. unfold select_kept.
  eapply wp_mono; [|apply (wp_collect _ _ (λ x, (x.1, sn_label x.2)))].
  - done.
  - intros [snap r] _. unfold kept_of_row. by row_steps.
Qed.
Lemma wp_count_pruned vid target s :
  aborted s = false →
  wp (count_pruned vid target) s (λ r s',
    r = Ok (Z.of_nat (length (snapshots_where vid (λ snap _, target <? snap) (cur s)))) ∧ s' = tick s).
Proof. intros Hab. unfold count_pruned. wp_steps. unfold count_newer. by row_steps. Qed.

(** One snapshot: left alone, or inserted with the time of the insertion. *)
Definition add_snapshot (vid : string) (snap : Z) (r : snapshot_row) (d : db) : db :=
  set_volumes (set_fs_snapshots (<[(vid, snap):=r]> (fs_snapshots (volumes d))) (volumes d)) d.
Lemma wp_reinsert_snapshot vid snap label s :
  aborted s = false → is_Some (fs_volumes (volumes (cur s)) !! vid) → snaps_fresh vid [(snap, label)] (cur s) →
  wp (reinsert_snapshot vid (snap, label)) s (λ r s', r = Ok tt ∧ db_step s s' ∧
    (is_Some (fs_snapshots (volumes (cur s)) !! (vid, snap)) ∧ cur s' = cur s ∨
     fs_snapshots (volumes (cur s)) !! (vid, snap) = None ∧
       ∃ t, cur s' = add_snapshot vid snap (mkSnapshot t label) (cur s))).
Proof.
  intros Hab [root Hv] [_ _ Hf]. destruct (Hf snap label) as [[l ->] Hfree]; [by left|].
  unfold reinsert_snapshot. cbn [fst snd text_col from_option].
  change (accepts TText (Text l)) with true. cbv iota.
  destruct (fs_snapshots (volumes (cur s)) !! (vid, snap)) as [r|] eqn:Hs.
  - eapply wp_execute_now; [done|by rewrite Hs|]. st. split_and!; [done|by auto|left; eauto].
  - destruct Hfree as [[? ?]|Hfree]; [done|].
    eapply wp_execute_now; [done| |].
    + rewrite Hs. unfold insert_snapshot_row. rewrite Hs, Hv. simpl sn_label.
      unfold label_taken. rewrite bool_decide_eq_false_2; [done|]. intros Hne. apply Hne.
      apply map_empty_filter_2. intros [v snap'] r Hr [Hvid Hl]. simpl in Hvid. subst v.
      by apply (Hfree snap' r).
    + st. split_and!; [done|by auto|]. right. split; [done|]. by eexists.
Qed.
Lemma snaps_fresh_cons vid x l d :
  snaps_fresh vid (x :: l) d → snaps_fresh vid [x] d ∧ snaps_fresh vid l d.
Proof.
  intros [[_ ?]%NoDup_cons [_ ?]%NoDup_cons Hf]. split; split; try done.
  - apply NoDup_singleton.
  - apply NoDup_singleton.
  - intros snap label Hin%list_elem_of_singleton. apply Hf. rewrite Hin. by left.
  - intros snap label Hin. apply Hf. by right.
Qed.
Lemma snaps_fresh_add vid snap label t l d :
  snaps_fresh vid ((snap, label) :: l) d →
  snaps_fresh vid l (add_snapshot vid snap (mkSnapshot t label) d).
Proof.
  intros Hall. pose proof (proj2 (snaps_fresh_cons _ _ _ _ Hall)) as [H1 H2 Hf].
  destruct Hall as [_ [Hlab _]%NoDup_cons _]. split; [done..|].
  intros snap' label' Hin. destruct (Hf _ _ Hin) as [? Hor]. split; [done|]. simpl.
  destruct Hor as [Hs|Hfree]; [left|right].
  - rewrite lookup_insert. case_decide; [done|]. done.
  - intros snap'' r [[[= <-] <-]|[_ Hr]]%lookup_insert_Some; [|by eapply Hfree].
    simpl. intros ->. apply Hlab. apply list_elem_of_fmap. by exists (snap', label').
Qed.
Lemma snaps_added_nil vid d : snaps_added vid [] d d.
Proof.
  split; [|done|set_solver|by left]. exists (fs_snapshots (volumes d)). by destruct d as [? ? ? ? ? ? ? []].
Qed.
Lemma snaps_added_skip vid snap label l d d' :
  is_Some (fs_snapshots (volumes d) !! (vid, snap)) → snaps_added vid l d d' →
  snaps_added vid ((snap, label) :: l) d d'.
Proof.
  intros [r Hr] [? ? Ha Ho]. split; [done|done| |].
  - intros snap' label' [[= -> ->]|Hin]%elem_of_cons; [congruence|by apply Ha].
  - intros k r' Hk. destruct (Ho k r' Hk) as [|(snap' & ? & ?)]; [by left|right].
    exists snap'. split; [done|by right].
Qed.
Lemma snaps_added_add vid snap label t l d d' :
  fs_snapshots (volumes d) !! (vid, snap) = None → snap ∉ l.*1 →
  snaps_added vid l (add_snapshot vid snap (mkSnapshot t label) d) d' →
  snaps_added vid ((snap, label) :: l) d d'.
Proof.
  intros Hn Hni [[m Hm] Hk Ha Ho]. simpl in *. split.
  - exists m. rewrite Hm. done.
  - intros k r Hr. apply Hk. rewrite lookup_insert. case_decide; [congruence|done].
  - intros snap' label' Hin Hn'. destruct (decide (snap' = snap)) as [->|Hne].
    + rewrite (Hk (vid, snap) (mkSnapshot t label)) by apply lookup_insert_eq. simpl.
      apply elem_of_cons in Hin as [[= ->]|Hin]; [done|].
      destruct Hni. apply list_elem_of_fmap. by exists (snap, label').
    + apply elem_of_cons in Hin as [[= -> ->]|Hin]; [done|].
      apply Ha; [done|]. by rewrite lookup_insert_ne by congruence.
  - intros k r Hr. destruct (Ho k r Hr) as [Hi|(snap' & ? & ?)].
    + apply lookup_insert_Some in Hi as [[<- <-]|[_ Hi]]; [right|by left].
      exists snap. split; [done|by left].
    + right. exists snap'. split; [done|by right].
Qed.
Lemma wp_reinsert_snaps vid l s :
  aborted s = false → is_Some (fs_volumes (volumes (cur s)) !! vid) → snaps_fresh vid l (cur s) →
  wp (for_each l (reinsert_snapshot vid)) s (λ r s',
    r = Ok tt ∧ db_step s s' ∧ snaps_added vid l (cur s) (cur s')).
Proof.
  revert s. induction l as [|[snap label] l IH]; intros s Hab Hv Hf; simpl.
  { apply wp_ret. split_and!; [done|done|apply snaps_added_nil]. }
  destruct (snaps_fresh_cons _ _ _ _ Hf) as [Hf1 Hfl].
  apply wp_bind. eapply wp_mono; [|by apply wp_reinsert_snapshot].
  intros r s1 (-> & Hs1 & Hcase). pose proof (db_step_aborted _ _ Hs1) as Hab1.
  eapply wp_mono; [|apply IH; [congruence| |]].
  - intros r s2 (-> & Hs2 & Hadd). split; [done|]. split; [by eapply db_step_trans|].
    destruct Hcase as [[Hi Hc]|[Hn [t Hc]]]; rewrite Hc in Hadd.
    + by apply snaps_added_skip.
    + eapply snaps_added_add; [done| |done]. apply (sf_snaps _ _ _) in Hf. by apply NoDup_cons in Hf as [? _].
  - by destruct Hcase as [[_ ->]|[_ [t ->]]].
  - destruct Hcase as [[_ ->]|[_ [t ->]]]; [done|]. by apply snaps_fresh_add.
Qed.
End saving.

(** ** The parts of [restore_inner] *)

(** The tables of [d0] with the volume tables [v], over [d]. *)
Definition with_tables (d0 : db) (v : volume_tables) (d : db) : db :=
  mkDb (fs_config d) (fs_inode d0) (fs_dentry d0) (fs_data d0) (fs_symlink d0) (kv_store d0)
    (tool_calls d) v (undo d) (session d) (overlay d).
(** The journal without the entries of the volume newer than [target]. *)
Definition older {K R} (vid : string) (target : Z) (l : list (undo_row K R)) : list (undo_row K R) :=
  filter (λ u, ¬ newer vid target u) l.
Definition prune_all (vid : string) (target : Z) (u : undo_tables) : undo_tables :=
  mkUndoTables (older vid target (fs_inode_undo u)) (older vid target (fs_dentry_undo u))
    (older vid target (fs_data_undo u)) (older vid target (fs_symlink_undo u))
    (older vid target (kv_store_undo u)).
Definition journal_length (vid : string) (target : Z) (d : db) : Z :=
  Z.of_nat (length (since vid target fs_dentry_undo d)) + Z.of_nat (length (since vid target fs_data_undo d)) +
  Z.of_nat (length (since vid target fs_symlink_undo d)) + Z.of_nat (length (since vid target fs_inode_undo d)) +
  Z.of_nat (length (since vid target kv_store_undo d)).

Section parts.
Context {E : Env} {HQ : Quiet E} (vid : string) (target : Z).
Implicit Types s : state.

(** A replay of one table: one query and the loop. *)
Lemma wp_replay {K R} (table : undo_tables → list (undo_row K R)) cols body step s d' :
  undoes body cols step → (∀ u d d', step u d = Some d' → session d' = session d) →
  aborted s = false → muted (cur s) → replay step (since vid target table (cur s)) (cur s) = Some d' →
  wp (query (select_undo table cols vid target) ≫= λ rows, replay_loop body rows 0) s
    (λ r s', r = Ok (Z.of_nat (length (since vid target table (cur s)))) ∧ db_step s s' ∧ cur s' = d').
Proof.
  intros Hb Hses Hab Hm Hr. wp_steps. unfold select_undo. st.
  eapply wp_mono; [|by eapply (wp_replay_loop _ _ _ _ _ _ d' Hb Hses)].
  intros r s' (-> & Hs & Hc). split; [done|]. split; [|done].
  eapply db_step_trans; [|exact Hs]. auto.
Qed.

Lemma step_session :
  (∀ u d d', step_dentry u d = Some d' → session d' = session d) ∧
  (∀ u d d', step_data u d = Some d' → session d' = session d) ∧
  (∀ u d d', step_symlink u d = Some d' → session d' = session d) ∧
  (∀ u d d', step_inode u d = Some d' → session d' = session d) ∧
  (∀ u d d', step_kv u d = Some d' → session d' = session d).
Proof.
  split_and!; intros u d d'; unfold step_dentry, step_data, step_symlink, step_inode, step_kv.
  - destruct (undo_dentry _ _); simpl; intros; by simplify_eq.
  - destruct (undo_row_map _ _ _); simpl; intros; by simplify_eq.
  - destruct (undo_row_map _ _ _); simpl; intros; by simplify_eq.
  - destruct (undo_row_map _ _ _); simpl; intros; simplify_eq. simpl. by case_bool_decide.
  - destruct (undo_row_map _ _ _); simpl; intros; by simplify_eq.
Qed.

(** A part whose result and database are known, and the rest. *)
Lemma wp_then {A B} (m : M A) (k : A → M B) s a d' Q :
  wp m s (λ r s', r = Ok a ∧ db_step s s' ∧ cur s' = d') →
  (∀ s', db_step s s' → aborted s' = aborted s → cur s' = d' → wp (k a) s' Q) →
  wp (m ≫= k) s Q.
Proof.
  intros Hm Hk. apply wp_bind. eapply wp_mono; [|exact Hm]. intros r s' (-> & Hs & Hc).
  apply Hk; [done| |done]. by apply db_step_aborted.
Qed.

Lemma wp_replay_all d0 s root :
  aborted s = false → muted (cur s) → journal_ok vid target d0 (cur s) →
  fs_volumes (volumes (cur s)) !! vid = Some root →
  wp (replay_all vid target) s (λ r s',
    r = Ok (journal_length vid target (cur s)) ∧ db_step s s' ∧
    ∃ v, cur s' = with_tables d0 v (cur s) ∧
      if bool_decide (root ∈ u_key <$> since vid target fs_inode_undo (cur s))
      then vol_gone vid (cur s') else vol_same vid (cur s) (cur s')).
Proof.
  intros Hab Hm [Hi Hd Hda Hsy Hkv (root' & Hv & Hr & _) _ _] Hv'. simplify_eq.
  destruct step_session as (Se1 & Se2 & Se3 & Se4 & Se5).
  set (d := cur s) in *. set (d1 := set_fs_dentry (fs_dentry d0) d).
  set (d2 := set_fs_data (fs_data d0) d1). set (d3 := set_fs_symlink (fs_symlink d0) d2).
  destruct (replay_inode_frame _ d3 _ Hi) as [v Hi3].
  set (d4 := set_fs_inode (fs_inode d0) (set_volumes v d3)) in *. unfold replay_all.
  eapply wp_then; [eapply (wp_replay _ _ _ _ _ d1 undoes_dentry Se1); [done|done|by apply replay_dentry]|].
  intros s1 Hs1 Ha1 Hc1.
  eapply wp_then; [eapply (wp_replay _ _ _ _ _ d2 undoes_data Se2);
    [congruence|by rewrite Hc1|rewrite Hc1; by apply replay_data]|].
  intros s2 Hs2 Ha2 Hc2.
  eapply wp_then; [eapply (wp_replay _ _ _ _ _ d3 undoes_symlink Se3);
    [congruence|by rewrite Hc2|rewrite Hc2; by apply replay_symlink]|].
  intros s3 Hs3 Ha3 Hc3.
  eapply wp_then; [eapply (wp_replay _ _ _ _ _ d4 undoes_inode Se4);
    [congruence|by rewrite Hc3|by rewrite Hc3]|].
  intros s4 Hs4 Ha4 Hc4.
  eapply wp_then; [eapply (wp_replay _ _ _ _ _ (set_kv_store (kv_store d0) d4) undoes_kv Se5);
    [congruence|by rewrite Hc4|rewrite Hc4; by apply replay_kv]|].
  intros s5 Hs5 Ha5 Hc5. apply wp_ret. rewrite Hc1, Hc2, Hc3, Hc4, Hc5.
  split; [done|]. split; [eauto 10 using db_step_trans|]. exists v. split; [done|].
  case_bool_decide as Hin.
  - eapply vol_gone_same; [by eapply (replay_inode_gone vid root' _ d3)|]. by apply vol_same_volumes.
  - apply (vol_same_trans _ d d3); [by apply vol_same_volumes|].
    eapply vol_same_trans; [eapply (replay_inode_same vid _ d3); [done|]|by apply vol_same_volumes].
    intros root. change (volumes d3) with (volumes d). rewrite Hv. by intros [= <-].
Qed.

(** Putting the rows back, after a cascade or without one. *)
Lemma wp_reinsert_rows d root st l s :
  aborted s = false → vol_gone vid (cur s) ∨ vol_same vid d (cur s) →
  fs_volumes (volumes d) !! vid = Some root → fs_volume_state (volumes d) !! vid = Some st →
  is_Some (fs_inode (cur s) !! root) → snaps_fresh vid l (cur s) →
  wp (reinsert_rows vid target (Some root) (Some (rollback_enabled st, current_snap_id st)) l) s
    (λ r s', r = Ok tt ∧ db_step s s' ∧
      ∃ v d', fs_snapshots v = fs_snapshots (volumes (cur s)) ∧ fs_volumes v !! vid = Some root ∧
        (rollback_enabled <$> fs_volume_state v !! vid = Some (rollback_enabled st)) ∧
        d' = set_volumes v (cur s) ∧ snaps_added vid l d' (cur s')).
Proof.
  intros Hab Hcase Hv Hst [ri Hri] Hf. unfold reinsert_rows.
  assert (∃ v1, reinsert_volume vid root (cur s) = Some (set_volumes v1 (cur s)) ∧
    fs_volumes v1 !! vid = Some root ∧ fs_volume_state v1 = fs_volume_state (volumes (cur s)) ∧
    fs_snapshots v1 = fs_snapshots (volumes (cur s))) as (v1 & Hv1 & Hr1 & Hs1 & Hn1).
  { unfold reinsert_volume, insert_volume_row. destruct Hcase as [[Hg _ _]|[Hs _ _]].
    - rewrite Hg, Hri. eexists. split; [done|]. simpl. by rewrite lookup_insert_eq.
    - rewrite Hs, Hv. exists (volumes (cur s)). split; [by destruct (cur s)|]. by rewrite Hs, Hv. }
  set (d1 := set_volumes v1 (cur s)).
  assert (∃ v2, reinsert_state vid (mkVolumeState (rollback_enabled st) (Int.i64 (target + 1))) d1 =
      Some (set_volumes v2 d1) ∧ fs_volumes v2 !! vid = Some root ∧
      rollback_enabled <$> fs_volume_state v2 !! vid = Some (rollback_enabled st) ∧
      fs_snapshots v2 = fs_snapshots (volumes (cur s))) as (v2 & Hv2 & Hr2 & Hs2 & Hn2).
  { unfold reinsert_state, insert_volume_state_row. simpl. rewrite Hs1, Hr1.
    destruct Hcase as [[_ Hg _]|[_ Hs _]].
    - rewrite Hg. eexists. split; [done|]. simpl. by rewrite lookup_insert_eq.
    - rewrite Hs, Hst. exists v1. split; [done|]. by rewrite Hs1, Hs, Hst. }
  apply wp_bind. eapply wp_execute; [done|exact Hv1|].
  apply wp_bind. eapply wp_execute; [by st|by st; exact Hv2|].
  eapply wp_mono; [|apply wp_reinsert_snaps; st; [done|by exists root|]].
  - intros r s' (-> & Hs & Hadd). st. split; [done|]. split.
    + eapply db_step_trans; [|exact Hs]. auto 10.
    + by exists v2, (set_volumes v2 (cur s)).
  - destruct Hf as [? ? Hf]. split; [done..|]. simpl. by rewrite Hn2.
Qed.

Lemma prune_older {K R} (l : list (undo_row K R)) :
  filter (λ u, bool_decide (u_volume u = vid) && (target <? u_snap u) = false) l = older vid target l.
Proof.
  apply list_filter_iff. intros u. unfold newer.
  rewrite andb_false_iff, bool_decide_eq_false, Z.ltb_ge. split.
  - intros [Hv|Hs] [? ?]; [done|lia].
  - intros Hn. destruct (decide (u_volume u = vid)); [right|by left]. apply Z.nlt_ge. auto.
Qed.
Lemma wp_prune_journal s :
  aborted s = false →
  wp (prune_journal vid target) s (λ r s', r = Ok tt ∧ db_step s s' ∧
    cur s' = set_undo (prune_all vid target (undo (cur s))) (cur s)).
Proof.
  intros Hab. unfold prune_journal, prune_undo_tables, for_each. wp_steps. st.
  split; [done|]. split; [by auto 20|].
  unfold prune_inode_undo, prune_dentry_undo, prune_data_undo, prune_symlink_undo, prune_kv_undo.
  simpl. rewrite !prune_older. done.
Qed.
End parts.
