(* ===== verification/SnapshotThms.v ===== *)
(** * Snapshots restore what they promise

    The theorems on [snapshot::commit], [restore_to], [enable] and [disable]. *)

From Stdlib Require Import Ascii.
From S2P Require Import Prelude Types Tables Monad Wp Instances Paths Snapshot Journal RestoreSpec.

#[local] Open Scope string_scope.
#[local] Open Scope list_scope.
#[local] Open Scope Z_scope.

(** ** The snapshots of a volume *)

Section saved.
Implicit Types d : db.

Lemma elem_of_snapshots_where vid P d snap r :
  (snap, r) ∈ snapshots_where vid P d ↔
    fs_snapshots (volumes d) !! (vid, snap) = Some r ∧ P snap r = true.
Proof.
  unfold snapshots_where. rewrite list_elem_of_omap. split.
  - intros ([[v s] r'] & Hin%elem_of_map_to_list & Hc). simpl in Hc.
    case_decide as Hd; [|done]. simplify_eq. destruct Hd as [-> HP]. done.
  - intros [Hl HP]. exists ((vid, snap), r). split; [by apply elem_of_map_to_list|].
    simpl. by rewrite decide_True.
Qed.
Lemma NoDup_omap_inj {A B} (f : A → option B) l :
  (∀ x y b, f x = Some b → f y = Some b → x = y) → NoDup l → NoDup (omap f l).
Proof.
  intros Hinj. induction 1 as [|x l Hx Hl IH]; simpl; [constructor|].
  destruct (f x) as [b|] eqn:Hf; [|done]. constructor; [|done].
  intros (y & Hy & Hfy)%list_elem_of_omap. by rewrite (Hinj x y b) in Hx.
Qed.
Lemma NoDup_snapshots_where vid P d : NoDup (snapshots_where vid P d).
Proof.
  apply NoDup_omap_inj; [|apply NoDup_map_to_list].
  intros [[v1 s1] r1] [[v2 s2] r2] b H1 H2. simpl in *. repeat case_decide; naive_solver.
Qed.

(** The rows [restore_inner] saves. *)
Definition kept (vid : string) (target : Z) (d : db) : list (Z * option string) :=
  (λ x, (x.1, sn_label x.2)) <$> snapshots_where vid (λ snap _, snap <=? target) d.
Lemma elem_of_kept vid target d snap label :
  (snap, label) ∈ kept vid target d ↔
    snap ≤ target ∧ sn_label <$> fs_snapshots (volumes d) !! (vid, snap) = Some label.
Proof.
  unfold kept. rewrite list_elem_of_fmap. split.
  - intros ([s r] & Heq & [Hr Hle%Z.leb_le]%elem_of_snapshots_where). simplify_eq/=.
    by rewrite Hr.
  - intros [Hle Hl]. destruct (fs_snapshots _ !! (vid, snap)) as [r|] eqn:Hr; simplify_eq/=.
    exists (snap, r). split; [done|]. rewrite elem_of_snapshots_where. split; [done|].
    by apply Z.leb_le.
Qed.
Lemma kept_fresh vid target d0 d d' :
  journal_ok vid target d0 d → vol_gone vid d' ∨ vol_same vid d d' →
  snaps_fresh vid (kept vid target d) d'.
Proof.
  intros Hj Hcase. split.
  - unfold kept. rewrite <- list_fmap_compose.
    apply NoDup_fmap_2_strong; [|apply NoDup_snapshots_where].
    intros [s1 r1] [s2 r2] [H1 _]%elem_of_snapshots_where [H2 _]%elem_of_snapshots_where Heq.
    simpl in Heq. subst. congruence.
  - unfold kept. rewrite <- list_fmap_compose.
    apply NoDup_fmap_2_strong; [|apply NoDup_snapshots_where].
    intros [s1 r1] [s2 r2] [H1 _]%elem_of_snapshots_where [H2 _]%elem_of_snapshots_where Heq.
    simpl in Heq. assert (s1 = s2) as -> by (by eapply (jo_labels _ _ _ _ Hj)). congruence.
  - intros snap label [_ Hl]%elem_of_kept.
    destruct (fs_snapshots (volumes d) !! (vid, snap)) as [r|] eqn:Hr; [|done]. simplify_eq/=.
    split; [by eapply (jo_labelled _ _ _ _ Hj)|].
    destruct Hcase as [Hg|Hs].
    + right. intros snap' r'. by rewrite (vg_snap _ _ Hg).
    + left. rewrite (vs_snap _ _ _ Hs), Hr. eauto.
Qed.
End saved.

(** ** What restoring guarantees *)

(** The tables are those of [d0]; the volume is where it was, with capture as it was and the
    snapshot counter after [target]; its snapshots up to [target] have kept their labels; the
    journal after [target] is gone.  Newer snapshots are gone exactly when the replay
    touched the volume's root inode. *)
Record restored (vid : string) (target : Z) (d0 d d' : db) : Prop := {
  rs_inode : fs_inode d' = fs_inode d0;
  rs_dentry : fs_dentry d' = fs_dentry d0;
  rs_data : fs_data d' = fs_data d0;
  rs_symlink : fs_symlink d' = fs_symlink d0;
  rs_kv : kv_store d' = kv_store d0;
  rs_config : fs_config d' = fs_config d;
  rs_tools : tool_calls d' = tool_calls d;
  rs_undo : undo d' = prune_all vid target (undo d);
  rs_volume : fs_volumes (volumes d') !! vid = fs_volumes (volumes d) !! vid;
  rs_state st : fs_volume_state (volumes d) !! vid = Some st →
    fs_volume_state (volumes d') !! vid = Some (mkVolumeState (rollback_enabled st) (Int.i64 (target + 1)));
  rs_kept snap : snap ≤ target →
    sn_label <$> fs_snapshots (volumes d') !! (vid, snap) =
      sn_label <$> fs_snapshots (volumes d) !! (vid, snap);
  rs_newer snap root : target < snap → fs_volumes (volumes d) !! vid = Some root →
    fs_snapshots (volumes d') !! (vid, snap) =
      if bool_decide (root ∈ u_key <$> since vid target fs_inode_undo d) then None
      else fs_snapshots (volumes d) !! (vid, snap);
}.

Section snapshots.
Implicit Types d : db.

Lemma added_same vid target d d1 d2 :
  (∀ snap, fs_snapshots (volumes d1) !! (vid, snap) = fs_snapshots (volumes d) !! (vid, snap)) →
  snaps_added vid (kept vid target d) d1 d2 →
  ∀ snap, fs_snapshots (volumes d2) !! (vid, snap) = fs_snapshots (volumes d) !! (vid, snap).
Proof.
  intros Hs [_ Hk _ Ho] snap. destruct (fs_snapshots (volumes d) !! (vid, snap)) as [r|] eqn:Hr.
  - apply Hk. by rewrite Hs.
  - destruct (fs_snapshots (volumes d2) !! (vid, snap)) as [r|] eqn:Hr2; [|done].
    destruct (Ho _ _ Hr2) as [H1|(snap' & [= <-] & [_ Hin]%elem_of_kept)].
    + by rewrite Hs, Hr in H1.
    + by rewrite Hr in Hin.
Qed.
Lemma added_gone vid target d d1 d2 :
  (∀ snap, fs_snapshots (volumes d1) !! (vid, snap) = None) →
  snaps_added vid (kept vid target d) d1 d2 →
  (∀ snap, snap ≤ target → sn_label <$> fs_snapshots (volumes d2) !! (vid, snap) =
                            sn_label <$> fs_snapshots (volumes d) !! (vid, snap)) ∧
  (∀ snap, target < snap → fs_snapshots (volumes d2) !! (vid, snap) = None).
Proof.
  intros Hg [_ _ Ha Ho].
  assert (Hin : ∀ snap r, fs_snapshots (volumes d2) !! (vid, snap) = Some r →
                  (snap, sn_label r) ∈ kept vid target d).
  { intros snap r Hr. destruct (Ho _ _ Hr) as [H1|(snap' & [= <-] & ?)]; [by rewrite Hg in H1|done]. }
  split; intros snap Hle.
  - destruct (fs_snapshots (volumes d) !! (vid, snap)) as [r|] eqn:Hr.
    + simpl. apply Ha; [|by apply Hg]. apply elem_of_kept. by rewrite Hr.
    + destruct (fs_snapshots (volumes d2) !! (vid, snap)) as [r|] eqn:Hr2; [|done].
      apply Hin, elem_of_kept in Hr2 as [_ Hr2]. by rewrite Hr in Hr2.
  - apply eq_None_not_Some. intros [r Hr%Hin%elem_of_kept]. lia.
Qed.
End snapshots.

Section restore.
Context {E : Env} {HQ : Quiet E} (vid : string) (target : Z) (d0 : db).
Implicit Types s : state.

Definition restore_outcome (d : db) : RestoreOutcome :=
  mkRestoreOutcome (Z.of_nat (length (snapshots_where vid (λ snap _, target <? snap) d)))
    (journal_length vid target d).

(** The statements after the replay. *)
Lemma wp_repair d st root v (out : RestoreOutcome) s :
  aborted s = false → journal_ok vid target d0 d → cur s = with_tables d0 v (mute d) →
  fs_volumes (volumes d) !! vid = Some root → is_Some (fs_inode d0 !! root) →
  fs_volume_state (volumes d) !! vid = Some st →
  (if bool_decide (root ∈ u_key <$> since vid target fs_inode_undo d)
   then vol_gone vid (cur s) else vol_same vid d (cur s)) →
  wp (reinsert_rows vid target (Some root) (Some (rollback_enabled st, current_snap_id st))
        (kept vid target d) ≫= λ _,
      prune_journal vid target ≫= λ _,
      execute_ (update_volume_state_row
        (λ st, mkVolumeState (rollback_enabled st) (Int.i64 (target + 1))) vid) ≫= λ _,
      mret out) s (λ r s',
    r = Ok out ∧ db_step s s' ∧ restored vid target d0 d (cur s') ∧
    session (cur s') = session (mute d)).
Proof.
  intros Hab Hj Hc Hv Hr0 Hst Hcase.
  assert (Hor : vol_gone vid (cur s) ∨ vol_same vid d (cur s)) by (case_bool_decide; auto).
  apply wp_bind. eapply wp_mono; [|apply (wp_reinsert_rows vid target d root); try done].
  2:{ by rewrite Hc. }
  2:{ by eapply kept_fresh. }
  intros ? s1 (-> & Hs1 & v1 & d1 & Hn1 & Hv1 & Hst1 & -> & Hadd).
  destruct (sa_frame _ _ _ _ Hadd) as [m Hm]. pose proof (db_step_aborted _ _ Hs1).
  assert (Hsn : (∀ snap, snap ≤ target → sn_label <$> fs_snapshots (volumes (cur s1)) !! (vid, snap) =
                   sn_label <$> fs_snapshots (volumes d) !! (vid, snap)) ∧
    (∀ snap, target < snap → fs_snapshots (volumes (cur s1)) !! (vid, snap) =
       if bool_decide (root ∈ u_key <$> since vid target fs_inode_undo d) then None
       else fs_snapshots (volumes d) !! (vid, snap))).
  { case_bool_decide.
    - eapply added_gone; [|exact Hadd]. intros snap. simpl. rewrite Hn1. apply Hcase.
    - assert (Hs : ∀ snap, fs_snapshots (volumes (cur s1)) !! (vid, snap) =
                     fs_snapshots (volumes d) !! (vid, snap)).
      { eapply added_same; [|exact Hadd]. intros snap. simpl. rewrite Hn1. apply Hcase. }
      split; intros snap _; by rewrite Hs. }
  apply wp_bind. eapply wp_mono; [|apply wp_prune_journal; congruence].
  intros ? s2 (-> & Hs2 & Hc2). pose proof (db_step_aborted _ _ Hs2).
  apply wp_bind, wp_execute_; [congruence|]. apply wp_ret. st.
  split; [done|]. split; [eauto using db_step_trans|].
  destruct Hsn as [Hkept Hnewer]. rewrite Hm, Hc in *. rewrite Hc2. split; [|done]. simpl in *.
  split; try done; simpl.
  - congruence.
  - intros st' Hst'. rewrite lookup_alter_eq. destruct (fs_volume_state v1 !! vid); simplify_eq/=.
    congruence.
  - intros snap root' Hlt Hv'. simplify_eq. by apply Hnewer.
Qed.
Lemma wp_restore_inner d st s :
  txn s = Some (d, false) → journal_ok vid target d0 d →
  fs_volume_state (volumes d) !! vid = Some st →
  wp (restore_inner vid target) s (λ r s',
    r = Ok (restore_outcome d) ∧ db_step s s' ∧ restored vid target d0 d (cur s') ∧
    session (cur s') = session (mute d)).
Proof.
  intros Ht Hj Hst. pose proof Hj as [_ _ _ _ _ (root & Hv & Hr & Hr0) _ _].
  unfold restore_inner. apply wp_bind. eapply wp_set_local_suppress; [exact Ht|done|].
  set (s1 := set_cur (mute d) (tick s)).
  assert (Hs1 : db_step s s1) by (unfold s1; auto).
  assert (Hc1 : cur s1 = mute d) by (unfold s1; by st).
  assert (Ha1 : aborted s1 = false).
  { rewrite (db_step_aborted _ _ Hs1). unfold aborted. by rewrite Ht. }
  clearbody s1.
  apply wp_bind. eapply wp_mono; [|apply (wp_saved_root vid root); [done|by rewrite Hc1]].
  intros ? ? [-> ->].
  apply wp_bind. eapply wp_mono; [|apply (wp_saved_state vid st); [by st|st; by rewrite Hc1]].
  intros ? ? [-> ->].
  apply wp_bind. eapply wp_mono; [|apply wp_saved_snapshots; by st]. intros ? ? [-> ->].
  apply wp_bind. eapply wp_mono; [|apply wp_count_pruned; by st]. intros ? ? [-> ->]. st.
  rewrite Hc1. apply wp_bind.
  eapply wp_mono; [|apply (wp_replay_all vid target d0 _ root); st; rewrite ?Hc1; try done].
  2:{ by destruct Hj. }
  st. rewrite Hc1. intros ? s2 (-> & Hs2 & v & Hc2 & Hcase).
  pose proof (db_step_aborted _ _ Hs2) as Ha2. st.
  eapply wp_mono; [|apply (wp_repair d st root v); try done; [congruence|]].
  - intros ? s3 (-> & Hs3 & Hres & Hses). split; [done|]. split; [|done].
    eapply db_step_trans; [exact Hs1|]. eapply db_step_trans; [|exact Hs3].
    eapply db_step_trans; [|exact Hs2]. auto.
  - change (since vid target fs_inode_undo (mute d)) with (since vid target fs_inode_undo d) in Hcase.
    destruct (bool_decide _); [done|]. eapply vol_same_trans; [|exact Hcase]. by apply vol_same_volumes.
Qed.

(** [restore_to] outside a transaction. *)
Lemma wp_restore_to st s :
  txn s = None → journal_ok vid target d0 (committed s) →
  guc_suppress_local (session (committed s)) = None →
  fs_volume_state (volumes (committed s)) !! vid = Some st →
  wp (restore_to vid target) s (λ r s',
    r = Ok (restore_outcome (committed s)) ∧ txn s' = None ∧ cache s' = cache s ∧
    restored vid target d0 (committed s) (committed s') ∧
    session (committed s') = session (committed s)).
Proof.
  intros Ht Hj Hloc Hst. unfold restore_to. apply wp_bind, wp_begin; [done|].
  apply wp_bind, wp_attempt.
  eapply wp_mono; [|apply (wp_restore_inner (committed s) st); [by st|done|done]].
  intros ? s2 (-> & Hs2 & Hres & Hses).
  assert (Ht2 : txn s2 = Some (cur s2, false)) by (by destruct Hs2 as [Hs2 _]; st).
  eapply wp_finish_ok; [exact Ht2|]. st.
  destruct Hs2 as (_ & _ & Hca & _). st. split_and!; [done|done|done| |].
  - destruct Hres. by split.
  - unfold end_local. simpl. rewrite Hses. unfold mute. simpl.
    destruct (session (committed s)) as [? ? ?]. simpl in *. by subst.
Qed.
End restore.

(** * Committing snapshots

    [snapshot::commit] on every branch: a new label, a label that is already taken, no label,
    a volume without rollback; and [parse_ts] on the time stamps the server renders. *)

#[local] Open Scope string_scope.
#[local] Open Scope list_scope.
#[local] Open Scope Z_scope.

(** ** Time stamps *)

(** From 1970 to the end of 9999, where a date has four digits for its year. *)
Definition is_time (t : Z) : Prop := 0 ≤ t < 253402300800000000.

(** A server in the time zone [UTC] renders a time stamp as [date time+00]; [chrono] reads the
    form with a [T] and the minutes of the zone, and not the short zone. *)
Class UtcServer (E : Env) := {
  ts_date : Z → string;
  ts_time : Z → string;
  ts_text t : is_time t → env_ts_text t = ts_date t +:+ " " +:+ ts_time t +:+ "+00";
  ts_no_space t : is_time t →
    spaces_to_t (ts_date t) = ts_date t ∧ spaces_to_t (ts_time t) = ts_time t;
  ts_short t : is_time t → env_rfc3339 (env_ts_text t) = None;
  ts_long t : is_time t → env_rfc3339 (ts_date t +:+ "T" +:+ ts_time t +:+ "+00:00") = Some t;
  ts_now n : is_time (env_server_now n);
}.

Lemma spaces_to_t_app a b : spaces_to_t (a +:+ b) = spaces_to_t a +:+ spaces_to_t b.
Proof.
  induction a as [|c a IH]; [done|].
  change (String c a +:+ b) with (String c (a +:+ b)). cbn [spaces_to_t]. by rewrite IH.
Qed.
Lemma ends_with_app a b : ends_with (a +:+ b) b = true.
Proof.
  induction a as [|c a IH].
  - change ("" +:+ b) with b. destruct b; cbn [ends_with]; by rewrite bool_decide_eq_true_2.
  - change (String c a +:+ b) with (String c (a +:+ b)). cbn [ends_with]. rewrite IH. apply orb_true_r.
Qed.

Lemma parse_ts_utc {E : Env} `{!UtcServer E} t : is_time t → parse_ts_opt (env_ts_text t) = Some t.
Proof.
  intros Ht. unfold parse_ts_opt. rewrite ts_short by done.
  destruct (ts_no_space t Ht) as [Hd Hm]. rewrite ts_text by done.
  rewrite !spaces_to_t_app, Hd, Hm. change (spaces_to_t " ") with "T".
  change (spaces_to_t "+00") with "+00". rewrite <- !string_app_assoc.
  rewrite ends_with_app. rewrite !string_app_assoc. change ("+00" +:+ ":00") with "+00:00".
  by apply ts_long.
Qed.

(** The sample environment is such a server. *)
Lemma stamp_bits_no_space t : spaces_to_t (Stamp.bits t) = Stamp.bits t.
Proof.
  assert (Hp : ∀ p, spaces_to_t (Stamp.pos_bits p) = Stamp.pos_bits p).
  { intros p. induction p as [p IH|p IH|]; simpl; rewrite ?IH; done. }
  destruct t; simpl; rewrite ?Hp; done.
Qed.
#[global] Instance list_env_utc fails : UtcServer (list_env fails).
Proof.
  refine (Build_UtcServer (list_env fails) (λ _, Stamp.date) Stamp.bits _ _ _ _ _).
  - done.
  - intros t _. split; [done|apply stamp_bits_no_space].
  - done.
  - intros t _. simpl. apply Stamp.read_bits_bits.
  - intros n. unfold is_time. simpl.
    pose proof (Z.mod_pos_bound (Z.of_nat n) 1000000000 ltac:(lia)). lia.
Defined.
#[global] Instance calm_env_utc : UtcServer calm_env := list_env_utc _.

(** ** Committing *)

(** The database after a snapshot was committed at [snap]. *)
Definition with_snapshot (vid : string) (snap : Z) (r : snapshot_row) (d : db) : db :=
  update_volume_state_row (λ st, mkVolumeState (rollback_enabled st) (current_snap_id st + 1)) vid
    (add_snapshot vid snap r d).

(** No snapshot of the volume has the label. *)
Definition label_unused (vid label : string) (d : db) : Prop :=
  ∀ snap r, fs_snapshots (volumes d) !! (vid, snap) = Some r → sn_label r ≠ Some label.

Lemma unused_snapshots vid label d :
  label_unused vid label d → snapshots_where vid (λ _ r, bool_decide (sn_label r = Some label)) d = [].
Proof.
  intros Hl. destruct (snapshots_where _ _ _) as [|[snap r] l] eqn:Hs; [done|].
  assert (Hin : (snap, r) ∈ snapshots_where vid (λ _ r, bool_decide (sn_label r = Some label)) d)
    by (rewrite Hs; by left).
  apply elem_of_snapshots_where in Hin as [Hr Hb%bool_decide_eq_true]. by destruct (Hl snap r).
Qed.
Lemma unused_not_taken vid label d : label_unused vid label d → label_taken vid (Some label) d = false.
Proof.
  intros Hl. unfold label_taken. apply bool_decide_eq_false_2. intros Hne. apply Hne.
  apply map_empty_filter_2. intros [v snap] r Hr [Hv Hlab]. simpl in *. subst. by apply (Hl snap r).
Qed.

Section commit.
Context {E : Env} {HQ : Quiet E} {HU : UtcServer E}.
Implicit Types s : state.

Lemma wp_parse_ts t s Q : is_time t → Q (Ok t) s → wp (parse_ts (env_ts_text t)) s Q.
Proof. intros Ht. unfold wp, parse_ts. by rewrite parse_ts_utc. Qed.

(** Up to the check that rollback is enabled. *)
Ltac commit_head Hst :=
  unfold commit_inner; wp_steps; unfold select_vstate; rewrite Hst; cbn [head ok_or_internal];
  row_steps; cbn [negb rollback_enabled current_snap_id]; row_steps.

Lemma wp_commit_inner_new vid root snap label s :
  aborted s = false → fs_volumes (volumes (cur s)) !! vid = Some root →
  fs_volume_state (volumes (cur s)) !! vid = Some (mkVolumeState true snap) →
  fs_snapshots (volumes (cur s)) !! (vid, snap) = None → label_unused vid label (cur s) →
  snap + 1 < 2 ^ 63 →
  wp (commit_inner vid (Some label)) s (λ r s', ∃ t, is_time t ∧
    r = Ok (mkSnapshotInfo snap t (Some label)) ∧ db_step s s' ∧
    cur s' = with_snapshot vid snap (mkSnapshot t (Some label)) (cur s)).
Proof.
  intros Hab Hv Hst Hn Hl Hmax. commit_head Hst. unfold select_labelled. st.
  rewrite unused_snapshots by done. cbn [fmap list_fmap].
  set (t := env_server_now (S (n_stmt (tick (tick s))))). pose proof (ts_now (S (n_stmt (tick (tick s))))) as Ht.
  fold t in Ht. apply wp_bind. unfold insert_snapshot. change (accepts TText (text_col (Some label))) with true.
  eapply wp_execute_now; [by st| |].
  { st. fold t. unfold insert_snapshot_row. rewrite Hn, Hv. simpl sn_label.
    rewrite unused_not_taken by done. done. }
  apply wp_bind. eapply wp_execute; [by st| |].
  { st. unfold bump_snap_id. simpl. rewrite Hst. simpl. destruct (Z.leb_spec (2 ^ 63) (snap + 1)); [lia|done]. }
  wp_steps. st. unfold select_committed_at. simpl. rewrite lookup_insert_eq. cbn [head ok_or_internal].
  row_steps. cbn [sn_committed_at]. apply wp_parse_ts; [done|]. row_steps. exists t. st.
  split; [exact Ht|]. split; [done|]. split; [by auto 10|done].
Qed.

(** A label that is taken: the snapshot that has it. *)
Lemma wp_commit_inner_again vid snap snap' r label s :
  aborted s = false →
  fs_volume_state (volumes (cur s)) !! vid = Some (mkVolumeState true snap) →
  fs_snapshots (volumes (cur s)) !! (vid, snap') = Some r → sn_label r = Some label →
  is_time (sn_committed_at r) →
  (∀ snap'' r'', fs_snapshots (volumes (cur s)) !! (vid, snap'') = Some r'' →
     sn_label r'' = Some label → snap'' = snap') →
  wp (commit_inner vid (Some label)) s (λ o s',
    o = Ok (mkSnapshotInfo snap' (sn_committed_at r) (Some label)) ∧ s' = tick (tick s)).
Proof.
  intros Hab Hst Hr Hl Ht Huniq. commit_head Hst. unfold select_labelled. st.
  destruct (snapshots_where _ _ _) as [|[sn r'] l] eqn:Hs.
  { assert (Hin : (snap', r) ∈ snapshots_where vid (λ _ r, bool_decide (sn_label r = Some label)) (cur s)).
    { apply elem_of_snapshots_where. split; [done|]. by apply bool_decide_eq_true. }
    rewrite Hs in Hin. by apply not_elem_of_nil in Hin. }
  assert (Hin : (sn, r') ∈ snapshots_where vid (λ _ r, bool_decide (sn_label r = Some label)) (cur s))
    by (rewrite Hs; by left).
  apply elem_of_snapshots_where in Hin as [Hr' Hl'%bool_decide_eq_true].
  assert (sn = snap') as -> by eauto. simplify_eq.
  cbn [fmap list_fmap fst snd]. row_steps. cbn [fst snd]. apply wp_parse_ts; [done|]. by row_steps.
Qed.
Lemma wp_commit_inner_unlabelled vid snap s :
  aborted s = false → fs_volume_state (volumes (cur s)) !! vid = Some (mkVolumeState true snap) →
  wp (commit_inner vid None) s (λ r s', r = Err EPostgres).
Proof.
  intros Hab Hst. commit_head Hst. unfold insert_snapshot. simpl.
  unfold wp, bind_error. by destruct (_ || _).
Qed.
(** A snapshot with the number of the counter is already there. *)
Lemma wp_commit_inner_conflict vid snap r label s :
  aborted s = false → fs_volume_state (volumes (cur s)) !! vid = Some (mkVolumeState true snap) →
  fs_snapshots (volumes (cur s)) !! (vid, snap) = Some r → label_unused vid label (cur s) →
  wp (commit_inner vid (Some label)) s (λ o s', o = Err EPostgres).
Proof.
  intros Hab Hst Hr Hl. commit_head Hst. unfold select_labelled. st.
  rewrite unused_snapshots by done. cbn [fmap list_fmap]. apply wp_bind.
  unfold insert_snapshot. change (accepts TText (text_col (Some label))) with true. cbv iota.
  unfold wp, execute_now, stmt. rewrite quiet_fault. st. rewrite Hab. cbn [orb].
  change (cur (tick (tick (tick s)))) with (cur s). unfold insert_snapshot_row. by rewrite Hr.
Qed.

End commit.
