(* ===== verification/RollbackThms.v ===== *)
(** * Rolling a volume back

    The theorems that tie the parts together: the triggers journal every write of every
    operation, a committed snapshot is a point the journal leads back to, and restoring it
    gives the tables back. *)

From S2P Require Import Prelude Types Tables Monad Wp Instances Sql File SecafsInode SecafsPath Setup InodeSpec.
From S2P Require Import TreeInv SysInv Steps DbInv Atomic KvStore ToolCalls Snapshot Volume Mounted Journal JournalOps RestoreSpec.
From S2P Require Import SnapshotThms.

#[local] Open Scope string_scope.
#[local] Open Scope list_scope.
#[local] Open Scope Z_scope.

(** ** A volume that can be snapshotted *)

(** The connection captures for [vid] at [snap]; nothing has been journalled beyond [snap];
    the constraints of the tables hold, and every key-value row has its time stamps. *)
Record ready (vid : string) (snap : Z) (d : db) : Prop := {
  rd_capture : capture_target d = Some (vid, snap);
  rd_local : guc_suppress_local (session d) = None;
  rd_ids : unique_ids (fs_dentry d);
  rd_kv : map_Forall (λ _ r, kv_complete r = true) (kv_store d);
  rd_root : ∃ root, fs_volumes (volumes d) !! vid = Some root ∧ is_Some (fs_inode d !! root);
  rd_journal : prune_all vid snap (undo d) = undo d;
  rd_labelled snap' r : fs_snapshots (volumes d) !! (vid, snap') = Some r → is_Some (sn_label r);
  rd_labels snap1 snap2 r1 r2 :
    fs_snapshots (volumes d) !! (vid, snap1) = Some r1 →
    fs_snapshots (volumes d) !! (vid, snap2) = Some r2 →
    sn_label r1 = sn_label r2 → snap1 = snap2;
}.

Section ready.
Implicit Types d : db.

Lemma capture_state vid snap d :
  capture_target d = Some (vid, snap) →
  fs_volume_state (volumes d) !! vid = Some (mkVolumeState true snap).
Proof.
  unfold capture_target. destruct (guc_volume_id (session d)) as [v|]; [|done].
  repeat (case_decide; [done|]).
  destruct (fs_volume_state (volumes d) !! v) as [[[] c]|] eqn:Hst; intros; by simplify_eq/=.
Qed.

Lemma ready_state vid snap d :
  ready vid snap d → fs_volume_state (volumes d) !! vid = Some (mkVolumeState true snap).
Proof. intros Hr. apply capture_state, Hr. Qed.
Lemma capture_of_state vid d st :
  guc_volume_id (session d) = Some vid → vid ≠ "" → suppress_setting d ≠ Some "true" →
  fs_volume_state (volumes d) !! vid = Some st → rollback_enabled st = true →
  capture_target d = Some (vid, current_snap_id st).
Proof.
  intros Hg Hv Hs Hst He. unfold capture_target. by rewrite Hg, !decide_False, Hst, He by done.
Qed.
Lemma older_all {K R} vid target (l : list (undo_row K R)) :
  older vid target l = l → filter (newer vid target) l = [].
Proof.
  intros Ho. destruct (filter (newer vid target) l) as [|u l'] eqn:Hf; [done|].
  assert (Hu : u ∈ filter (newer vid target) l) by (rewrite Hf; by left).
  apply list_elem_of_filter in Hu as [Hn Hu]. rewrite <- Ho in Hu.
  by apply list_elem_of_filter in Hu as [? _].
Qed.
Lemma pruned_since vid target d :
  prune_all vid target (undo d) = undo d →
  since vid target fs_inode_undo d = [] ∧ since vid target fs_dentry_undo d = [] ∧
  since vid target fs_data_undo d = [] ∧ since vid target fs_symlink_undo d = [] ∧
  since vid target kv_store_undo d = [].
Proof.
  unfold prune_all, since. destruct (undo d) as [a b c e f]. simpl. intros [= Ha Hb Hc He Hf].
  split_and!; by apply older_all.
Qed.

Lemma ready_capture_next vid snap r d :
  ready vid snap d → capture_target (end_local (with_snapshot vid snap r d)) = Some (vid, snap + 1).
Proof.
  intros [Hc Hloc _ _ _ _ _ _].
  unfold capture_target, suppress_setting, end_local, with_snapshot in *. simpl in *.
  rewrite Hloc in Hc.
  destruct (guc_volume_id (session d)) as [v|]; [|done]. repeat (case_decide; [done|]).
  destruct (fs_volume_state (volumes d) !! v) as [[[] c]|] eqn:Hst; simplify_eq/=.
  by rewrite lookup_alter_eq, Hst.
Qed.
(** Right after the commit the journal is empty: it leads back to this very database. *)
Lemma ready_journal vid snap r label d :
  ready vid snap d → label_unused vid label d → sn_label r = Some label →
  let d' := end_local (with_snapshot vid snap r d) in journal vid snap d' d'.
Proof.
  intros Hr Hl Hlab d'. pose proof (ready_capture_next vid snap r d Hr) as Hnext.
  pose proof (pruned_since _ _ _ (rd_journal _ _ _ Hr)) as (E1 & E2 & E3 & E4 & E5).
  destruct Hr as [Hc Hloc Hids Hkv (root & Hv & Hi) Hj Hll Hlu].
  split; [done|done|done|]. intros snap' Hc'. split.
  - rewrite (Hnext : capture_target d' = _) in Hc'. simplify_eq. lia.
  - split; unfold d'; simpl; unfold since in *; simpl in *; rewrite ?E1, ?E2, ?E3, ?E4, ?E5; try done.
    + by exists root.
    + intros s' r' [[[= <-] <-]|[_ Hr']]%lookup_insert_Some; [by rewrite Hlab|eauto].
    + intros s1 s2 r1 r2 [[[= <-] <-]|[_ H1]]%lookup_insert_Some
        [[[= <-] <-]|[_ H2]]%lookup_insert_Some; [done| | |by eauto].
      * rewrite Hlab. intros Heq. by destruct (Hl s2 r2).
      * rewrite Hlab. intros Heq. by destruct (Hl s1 r1).
Qed.
End ready.

(** ** The sample volume is ready *)

Lemma mounted_dentries : fs_dentry (committed mounted) = {[ (1, "vol") := mkDentry 1 2 ]}.
Proof. by vm_compute. Qed.
Lemma mounted_snapshots : fs_snapshots (volumes (committed mounted)) = ∅.
Proof. by vm_compute. Qed.
Lemma mounted_ready : ready "vol" 1 (committed mounted).
Proof.
  split.
  - by vm_compute.
  - by vm_compute.
  - rewrite mounted_dentries. intros k1 k2 e1 e2 [<- <-]%lookup_singleton_Some [<- <-]%lookup_singleton_Some. done.
  - assert (Hkv : kv_store (committed mounted) = ∅) by (by vm_compute). rewrite Hkv. apply map_Forall_empty.
  - exists 2. split; [by vm_compute|]. eexists. by vm_compute.
  - by vm_compute.
  - intros snap r. by rewrite mounted_snapshots, lookup_empty.
  - intros snap1 snap2 r1 r2. by rewrite mounted_snapshots, lookup_empty.
Qed.
Lemma mounted_unused label : label_unused "vol" label (committed mounted).
Proof. intros snap r. by rewrite mounted_snapshots, lookup_empty. Qed.
Lemma mounted_free snap : fs_snapshots (volumes (committed mounted)) !! ("vol", snap) = None.
Proof. by rewrite mounted_snapshots, lookup_empty. Qed.

(** The tables a snapshot covers. *)
Definition same_tables (d d' : db) : Prop :=
  fs_inode d' = fs_inode d ∧ fs_dentry d' = fs_dentry d ∧ fs_data d' = fs_data d ∧
  fs_symlink d' = fs_symlink d ∧ kv_store d' = kv_store d.

Section theorems.
Context {E : Env} {HQ : Quiet E} {HU : UtcServer E}.
Implicit Types s : state.

(** Committing in a transaction of its own. *)
Lemma wp_commit_new vid snap label s :
  txn s = None → ready vid snap (committed s) → label_unused vid label (committed s) →
  fs_snapshots (volumes (committed s)) !! (vid, snap) = None → snap + 1 < 2 ^ 63 →
  wp (commit vid (Some label)) s (λ r s', ∃ t, r = Ok (mkSnapshotInfo snap t (Some label)) ∧
    txn s' = None ∧
    committed s' = end_local (with_snapshot vid snap (mkSnapshot t (Some label)) (committed s)) ∧
    is_time t).
Proof.
  intros Ht Hr Hl Hn Hmax. pose proof (ready_state _ _ _ Hr) as Hst.
  destruct (rd_root _ _ _ Hr) as (root & Hv & _).
  unfold commit. apply wp_bind, wp_begin; [done|]. apply wp_bind, wp_attempt.
  eapply wp_mono; [|by apply (wp_commit_inner_new vid root snap)].
  intros ? s1 (t & Htime & -> & Hs1 & Hc1).
  assert (Ht1 : txn s1 = Some (cur s1, false)) by (by destruct Hs1 as [Hs1 _]; st).
  eapply wp_finish_ok; [exact Ht1|]. exists t. st. by rewrite Hc1.
Qed.

(** C3. Committing a snapshot under a new label records it at the volume's snapshot counter,
    moves the counter on by one and changes no file, directory, chunk, link target or key;
    from there on the undo journal leads back to this state. *)
Theorem commit_makes_restore_point vid snap label s :
  txn s = None → ready vid snap (committed s) → label_unused vid label (committed s) →
  fs_snapshots (volumes (committed s)) !! (vid, snap) = None → snap + 1 < 2 ^ 63 →
  ∃ t s', commit vid (Some label) s = (Ok (mkSnapshotInfo snap t (Some label)), s') ∧ txn s' = None ∧
    fs_snapshots (volumes (committed s')) !! (vid, snap) = Some (mkSnapshot t (Some label)) ∧
    capture_target (committed s') = Some (vid, snap + 1) ∧
    same_tables (committed s) (committed s') ∧ journalled vid snap (committed s') s'.
Proof.
  intros Ht Hr Hl Hn Hmax.
  destruct (wp_intro _ _ _ (wp_commit_new vid snap label s Ht Hr Hl Hn Hmax))
    as (r & s' & Hrun & t & -> & Ht' & Hc' & _).
  exists t, s'. split; [done|]. split; [done|].
  pose proof (ready_journal vid snap (mkSnapshot t (Some label)) label _ Hr Hl eq_refl) as Hj.
  rewrite <- Hc' in Hj. split_and!; try (by rewrite Hc').
  - rewrite Hc'. simpl. apply lookup_insert_eq.
  - rewrite Hc'. by apply ready_capture_next.
  - split; [done|]. by rewrite Ht'.
Qed.

End theorems.
Lemma commit_makes_restore_point_witness :
  ∃ t s', commit "vol" (Some "a") mounted = (Ok (mkSnapshotInfo 1 t (Some "a")), s') ∧
    capture_target (committed s') = Some ("vol", 2).
Proof.
  destruct (commit_makes_restore_point "vol" 1 "a" mounted mounted_idle mounted_ready (mounted_unused "a")
    (mounted_free 1) ltac:(lia)) as (t & s' & Hrun & _ & _ & Hc & _).
  exists t, s'. split; [exact Hrun|exact Hc].
Defined.

(** The sample volume with a snapshot [a], and after a client created and wrote a file, set a
    key, committed [b], removed the file and set the key again. *)
Definition info_a : SnapshotInfo := mkSnapshotInfo 1 1767225600000067 (Some "a").
Definition snapped : @state calm_env := (commit "vol" (Some "a") mounted).2.
Lemma snapped_info : (commit "vol" (Some "a") mounted).1 = Ok info_a.
Proof. by vm_compute. Qed.
Lemma snapped_run : commit "vol" (Some "a") mounted = (Ok info_a, snapped).
Proof. exact (run_pair (commit "vol" (Some "a")) mounted (Ok info_a) snapped_info). Qed.
Definition sample_calls : list (call (V := bool) (J := bool)) :=
  [CallPath (PPwrite "/vol/f" 0 [x61; x62]); KvSet "k" true; SnapCommit (Some "b");
   CallPath (PRemove "/vol/f"); CallPath (PMkdir "/vol/d" 0 0); KvSet "k" false; CallPath (PRemove "/nope")].
Abbreviation used := (run_calls (E := calm_env) (mkSecAFS 4096) "vol" sample_calls snapped).
Lemma used_idle : txn used = None.
Proof. by vm_compute. Qed.
Lemma used_capture : capture_target (committed used) = Some ("vol", 3).
Proof. by vm_compute. Qed.
Lemma used_keys : kv_store (committed used) ≠ kv_store (committed mounted).
Proof.
  assert (Hu : size (kv_store (committed used)) = 1%nat) by (by vm_compute).
  assert (Hm : size (kv_store (committed mounted)) = 0%nat) by (by vm_compute).
  intros Heq. rewrite Heq, Hm in Hu. discriminate Hu.
Qed.
Lemma snapped_journalled : journalled "vol" 1 (committed snapped) snapped.
Proof.
  pose proof (wp_commit_new "vol" 1 "a" mounted mounted_idle mounted_ready (mounted_unused "a")
    (mounted_free 1) ltac:(lia)) as Hw.
  destruct (wp_elim _ _ _ _ _ snapped_run Hw) as (t & _ & Ht & Hc & _).
  split; [|by rewrite Ht]. rewrite Hc. apply (ready_journal "vol" 1 _ "a"); [apply mounted_ready|apply mounted_unused|done].
Qed.
Lemma used_journalled : journalled "vol" 1 (committed snapped) used.
Proof. apply journals_run_calls, snapped_journalled. Qed.


(** [restore_to] from a journalled state. *)
Lemma restore_run {E : Env} {HQ : Quiet E} vid target d0 snap (s : state) :
  txn s = None → journalled vid target d0 s → capture_target (committed s) = Some (vid, snap) →
  ∃ out s', restore_to vid target s = (Ok out, s') ∧ out = restore_outcome vid target (committed s) ∧
    txn s' = None ∧ cache s' = cache s ∧ restored vid target d0 (committed s) (committed s') ∧
    session (committed s') = session (committed s).
Proof.
  intros Ht [Hj _] Hc. destruct (jn_ok _ _ _ _ Hj _ Hc) as [_ Hok].
  destruct (wp_intro _ _ _ (wp_restore_to vid target d0 _ s Ht Hok (jn_local _ _ _ _ Hj)
    (capture_state _ _ _ Hc))) as (r & s' & Hrun & -> & ?). by exists (restore_outcome vid target (committed s)), s'.
Qed.

Section rollback.
Context {E : Env} {HQ : Quiet E} {HU : UtcServer E}.

(** C1. Rollback: after a snapshot is committed and any sequence of calls on the file system,
    the key-value store and the tool-call records has run, including later commits and calls
    that fail, restoring the snapshot succeeds and gives back every inode, directory entry,
    chunk, link target and key-value row as they were when it was committed, as long as the
    volume is still there and no call left a transaction open. *)
Theorem rollback_restores `{Json V} `{Json J} (fs : SecAFS) (cs : list (call (V := V) (J := J)))
    vid snap label s0 info s1 snap2 :
  txn s0 = None → ready vid snap (committed s0) → label_unused vid label (committed s0) →
  fs_snapshots (volumes (committed s0)) !! (vid, snap) = None → snap + 1 < 2 ^ 63 →
  commit vid (Some label) s0 = (Ok info, s1) →
  let s2 := run_calls fs vid cs s1 in
  txn s2 = None → capture_target (committed s2) = Some (vid, snap2) →
  ∃ out s3, restore_to vid (si_snap_id info) s2 = (Ok out, s3) ∧ txn s3 = None ∧
    same_tables (committed s0) (committed s3) ∧
    restored vid (si_snap_id info) (committed s1) (committed s2) (committed s3).
Proof.
  intros Ht Hr Hl Hn Hmax Hrun s2 Ht2 Hc2.
  destruct (wp_elim _ _ _ _ _ Hrun (wp_commit_new vid snap label s0 Ht Hr Hl Hn Hmax))
    as (t & [= ->] & Ht1 & Hc1 & _).
  assert (Hj : journalled vid snap (committed s1) s1).
  { split; [|by rewrite Ht1]. rewrite Hc1. by apply (ready_journal vid snap _ label). }
  apply (journals_run_calls fs vid snap _ cs) in Hj.
  destruct (restore_run vid snap _ snap2 s2 Ht2 Hj Hc2) as (out & s3 & Hrun3 & _ & Ht3 & _ & Hres & _).
  exists out, s3. split_and!; [done|done| |done].
  destruct Hres. rewrite Hc1 in *. split_and!; done.
Qed.
End rollback.
Lemma rollback_restores_witness :
  kv_store (committed used) ≠ kv_store (committed mounted) ∧
  ∃ out s3, restore_to "vol" (si_snap_id info_a) used = (Ok out, s3) ∧ same_tables (committed mounted) (committed s3).
Proof.
  split; [exact used_keys|].
  pose proof used_idle as Hi. pose proof used_capture as Hc.
  pose proof (rollback_restores (mkSecAFS 4096) sample_calls "vol" 1 "a" mounted info_a snapped 3
    mounted_idle mounted_ready (mounted_unused "a") (mounted_free 1) ltac:(lia) snapped_run) as Hthm.
  cbv zeta in Hthm. destruct (Hthm Hi Hc) as (out & s3 & Hrun & _ & Hsame & _). exists out, s3. split; [exact Hrun|exact Hsame].
Defined.

(** ** Every operation is journalled *)

(** C2. In every environment, whatever call to the database fails, a sequence of calls keeps
    the journal: in the committed database, and in a transaction a failed call left open,
    replaying what the triggers captured leads back to the snapshot. *)
Theorem calls_keep_journal {E : Env} `{Json V} `{Json J} (fs : SecAFS)
    (cs : list (call (V := V) (J := J))) vid target d0 s :
  journalled vid target d0 s → journalled vid target d0 (run_calls fs vid cs s).
Proof. apply journals_run_calls. Qed.
Lemma calls_keep_journal_witness :
  journalled "vol" 1 (committed snapped) (run_calls (mkSecAFS 4096) "vol" sample_calls snapped).
Proof.
  apply (calls_keep_journal (mkSecAFS 4096) sample_calls "vol" 1 (committed snapped) snapped).
  exact snapped_journalled.
Defined.

(** ** Restoring touches only what was journalled *)

Lemma replay_other {K R} `{Countable K} (ok : R → bool) l (m m' : gmap K R) k :
  replay (undo_row_map ok) l m = Some m' → k ∉ u_key <$> l → m' !! k = m !! k.
Proof.
  revert m. induction l as [|u l IH]; intros m; cbn [replay]; [by intros [= <-]|].
  destruct (undo_row_map ok u m) as [m1|] eqn:Hu; [|done]. cbn [mbind option_bind]. intros Hr Hk.
  rewrite (IH m1 Hr) by set_solver. unfold undo_row_map in Hu.
  assert (k ≠ u_key u) by set_solver.
  destruct (u_op u), (u_old u); repeat case_match; simplify_eq;
    rewrite ?lookup_insert_ne, ?lookup_delete_ne by done; done.
Qed.
Lemma replay_dentry_other l m m' k e :
  replay undo_dentry l m = Some m' → m !! k = Some e → d_id e ∉ u_key <$> l → m' !! k = Some e.
Proof.
  revert m. induction l as [|u l IH]; intros m; cbn [replay]; [by intros [= <-]|].
  destruct (undo_dentry u m) as [m1|] eqn:Hu; [|done]. cbn [mbind option_bind]. intros Hr Hk Hid.
  apply (IH m1 Hr); [|set_solver].
  assert (Hw : without_id (u_key u) m !! k = Some e).
  { apply map_lookup_filter_Some. split; [done|]. simpl. set_solver. }
  unfold undo_dentry in Hu. destruct (u_op u), (u_old u) as [[[n p] i]|]; simplify_eq/=; [done..| |];
    destruct (without_id (u_key u) m !! (p, n)) eqn:Hpn; simplify_eq/=;
    rewrite lookup_insert_ne by (intros <-; congruence); done.
Qed.

Section isolation.
Context {E : Env} {HQ : Quiet E}.

(** C5. Restoring a volume changes no row that was not journalled for it: inodes, chunks,
    link targets, keys and directory entries of the other volumes are as they were. *)
Theorem restore_is_isolated vid target d0 snap s :
  txn s = None → journalled vid target d0 s → capture_target (committed s) = Some (vid, snap) →
  ∃ out s', restore_to vid target s = (Ok out, s') ∧
    let d := committed s in let d' := committed s' in
    (∀ i, i ∉ u_key <$> since vid target fs_inode_undo d → fs_inode d' !! i = fs_inode d !! i) ∧
    (∀ k, k ∉ u_key <$> since vid target fs_data_undo d → fs_data d' !! k = fs_data d !! k) ∧
    (∀ i, i ∉ u_key <$> since vid target fs_symlink_undo d → fs_symlink d' !! i = fs_symlink d !! i) ∧
    (∀ k, k ∉ u_key <$> since vid target kv_store_undo d → kv_store d' !! k = kv_store d !! k) ∧
    (∀ k e, fs_dentry d !! k = Some e → d_id e ∉ u_key <$> since vid target fs_dentry_undo d →
       fs_dentry d' !! k = Some e) ∧
    fs_config d' = fs_config d ∧ tool_calls d' = tool_calls d.
Proof.
  intros Ht Hj Hc. destruct (restore_run vid target d0 snap s Ht Hj Hc)
    as (out & s' & Hrun & _ & _ & _ & Hres & _).
  exists out, s'. split; [done|]. simpl.
  destruct (jn_ok _ _ _ _ (proj1 Hj) _ Hc) as [_ [Hi Hd Hda Hsy Hkv _ _ _]].
  destruct Hres as [-> -> -> -> -> ? ? _ _ _ _ _].
  split_and!; eauto using replay_other, replay_dentry_other.
Qed.
End isolation.
Lemma restore_is_isolated_witness :
  ∃ out s', restore_to "vol" 1 used = (Ok out, s') ∧ fs_config (committed s') = fs_config (committed used).
Proof.
  destruct (restore_is_isolated "vol" 1 (committed snapped) 3 used used_idle used_journalled used_capture)
    as (out & s' & Hrun & _ & _ & _ & _ & _ & Hc & _). exists out, s'. split; [exact Hrun|exact Hc].
Defined.

(** ** Atomicity *)

Section atomic.
Context {E : Env}.

Lemma keeps_collect {A} (f : DbRow → M A) rows out :
  (∀ r, keeps (f r)) → keeps (collect f rows out).
Proof. intros Hf. revert out. induction rows as [|r rows IH]; intros out; simpl; closes. Qed.
Lemma keeps_replay_loop body rows n : (∀ r, keeps (body r)) → keeps (replay_loop body rows n).
Proof. intros Hb. revert n. induction rows as [|r rows IH]; intros n; simpl; closes. Qed.
#[local] Hint Resolve keeps_collect keeps_replay_loop : secafs_atomic.

Lemma keeps_commit_inner vid label : keeps (commit_inner vid label).
Proof.
  unfold commit_inner, insert_snapshot, parse_ts, get_integer, get_text, get_flag, get_value_. closes.
Qed.
Lemma keeps_rows :
  (∀ r, keeps (replay_inode_row r)) ∧ (∀ r, keeps (replay_dentry_row r)) ∧
  (∀ r, keeps (replay_data_row r)) ∧ (∀ r, keeps (replay_symlink_row r)) ∧
  (∀ r, keeps (replay_kv_row r)) ∧ (∀ r, keeps (kept_of_row r)).
Proof.
  split_and!; intros; unfold replay_inode_row, replay_dentry_row, replay_data_row, replay_symlink_row,
    replay_kv_row, kept_of_row, read_op, read_text, read_i64, get_text_or_null, get_integer, get_value_; closes.
Qed.
Lemma keeps_restore_inner vid target : keeps (restore_inner vid target).
Proof.
  destruct keeps_rows as (? & ? & ? & ? & ? & ?).
  unfold restore_inner, saved_root_ino, saved_volume_state, saved_snapshots, count_pruned, replay_all,
    replay_fs_dentry, replay_fs_data, replay_fs_symlink, replay_fs_inode, replay_kv_store, reinsert_rows,
    reinsert_snapshot, prune_journal, get_flag, get_integer, get_value_. closes.
Qed.
#[local] Hint Resolve keeps_commit_inner keeps_restore_inner : secafs_atomic.

(** C4. Committing and restoring a snapshot are atomic: whatever call fails, either the
    operation succeeds or the committed database is as it was. *)
Theorem snapshot_ops_atomic vid :
  (∀ label, all_or_nothing no_txn (commit vid label)) ∧
  (∀ target, all_or_nothing no_txn (restore_to vid target)).
Proof. split; intros; unfold commit, restore_to; atomically. Qed.
End atomic.

Section failing.
Context {E : Env} {HQ : Quiet E}.
Implicit Types s : state.

(** A commit whose body fails is rolled back. *)
Lemma commit_failed vid label e s :
  txn s = None →
  wp (commit_inner vid label) (set_txn (Some (committed s, false)) (tick s)) (λ r _, r = Err e) →
  ∃ s', commit vid label s = (Err e, s') ∧ txn s' = None ∧ committed s' = committed s.
Proof.
  intros Ht Hin.
  assert (Hc : committed (commit_inner vid label (set_txn (Some (committed s, false)) (tick s))).2 = committed s).
  { destruct (keeps_commit_inner vid label (set_txn (Some (committed s, false)) (tick s))) as [-> _]; [|done].
    by eexists. }
  apply wp_err. unfold commit. apply wp_bind, wp_begin; [done|]. apply wp_bind, wp_attempt.
  revert Hin Hc. unfold wp at 1 2. destruct (commit_inner _ _ _) as [r s']. simpl. intros -> Hc.
  apply wp_finish_err. by st.
Qed.

(** A commit without a label never succeeds: the driver refuses to bind the label, because
    [to_pg_value] encodes [Null] as a missing [i64] and the column is text.  The error is a
    database error and nothing is committed. *)
Theorem commit_without_label_fails vid snap s :
  txn s = None → fs_volume_state (volumes (committed s)) !! vid = Some (mkVolumeState true snap) →
  ∃ s', commit vid None s = (Err EPostgres, s') ∧ txn s' = None ∧ committed s' = committed s.
Proof. intros Ht Hst. apply commit_failed; [done|]. by apply (wp_commit_inner_unlabelled vid snap). Qed.

(** Restoring keeps the newer snapshots when nothing journalled touched the volume's root
    inode: they are reported as pruned and are still there, and because the counter goes
    back to [target + 1] every later commit fails on the number that is taken. *)
Theorem restore_leaves_newer_snapshots vid target d0 snap root r s :
  txn s = None → journalled vid target d0 s → capture_target (committed s) = Some (vid, snap) →
  fs_volumes (volumes (committed s)) !! vid = Some root →
  root ∉ u_key <$> since vid target fs_inode_undo (committed s) →
  fs_snapshots (volumes (committed s)) !! (vid, target + 1) = Some r →
  Int.is_i64 (target + 1) →
  ∃ out s1, restore_to vid target s = (Ok out, s1) ∧ 0 < ro_pruned_snapshots out ∧
    fs_snapshots (volumes (committed s1)) !! (vid, target + 1) = Some r ∧
    ∀ label, label_unused vid label (committed s1) →
      ∃ s2, commit vid (Some label) s1 = (Err EPostgres, s2) ∧ committed s2 = committed s1.
Proof.
  intros Ht Hj Hc Hv Hni Hr Hi64.
  destruct (restore_run vid target d0 snap s Ht Hj Hc) as (out & s1 & Hrun & -> & Ht1 & _ & Hres & _).
  assert (Hr1 : fs_snapshots (volumes (committed s1)) !! (vid, target + 1) = Some r).
  { rewrite (rs_newer _ _ _ _ _ Hres _ root) by (done || lia). by rewrite bool_decide_eq_false_2. }
  pose proof (rs_state _ _ _ _ _ Hres _ (capture_state _ _ _ Hc)) as Hst1. simpl in Hst1.
  rewrite Int.i64_small in Hst1 by done.
  exists (restore_outcome vid target (committed s)), s1. split_and!; [done| |done|].
  - simpl. assert (Hin : (target + 1, r) ∈ snapshots_where vid (λ snap _, target <? snap) (committed s)).
    { apply elem_of_snapshots_where. split; [done|]. apply Z.ltb_lt. lia. }
    destruct (snapshots_where _ _ _); [by apply not_elem_of_nil in Hin|]. simpl. lia.
  - intros label Hl. destruct (commit_failed vid (Some label) EPostgres s1 Ht1) as (s2 & ? & _ & ?).
    + by apply (wp_commit_inner_conflict vid (target + 1) r).
    + by exists s2.
Qed.
End failing.
Lemma commit_without_label_fails_witness :
  ∃ s', commit "vol" None mounted = (Err EPostgres, s') ∧ txn s' = None ∧ committed s' = committed mounted.
Proof.
  apply (commit_without_label_fails "vol" 1 mounted mounted_idle). exact (ready_state _ _ _ mounted_ready).
Defined.

(** The sample volume with two snapshots and a key that was set between them. *)
Definition two_calls : list (call (V := bool) (J := bool)) := [KvSet "k" true; SnapCommit (Some "b")].
Abbreviation twice := (run_calls (E := calm_env) (mkSecAFS 4096) "vol" two_calls snapped).
Lemma twice_facts :
  txn twice = None ∧ capture_target (committed twice) = Some ("vol", 3) ∧
  fs_volumes (volumes (committed twice)) !! "vol" = Some 2 ∧ fs_inode_undo (undo (committed twice)) = [].
Proof. split_and!; by vm_compute. Qed.
Definition info_b : snapshot_row := mkSnapshot 1767225600000076 (Some "b").
Lemma twice_snapshot : fs_snapshots (volumes (committed twice)) !! ("vol", 2) = Some info_b.
Proof. by vm_compute. Qed.
Lemma twice_journalled : journalled "vol" 1 (committed snapped) twice.
Proof. apply journals_run_calls, snapped_journalled. Qed.
Lemma restore_leaves_newer_snapshots_witness :
  ∃ out s1, restore_to "vol" 1 twice = (Ok out, s1) ∧ 0 < ro_pruned_snapshots out ∧
    fs_snapshots (volumes (committed s1)) !! ("vol", 2) = Some info_b.
Proof.
  destruct twice_facts as (Hi & Hc & Hv & Hu).
  destruct (restore_leaves_newer_snapshots "vol" 1 (committed snapped) 3 2 info_b twice Hi twice_journalled Hc
    Hv) as (out & s1 & Hrun & Hp & Hs & _).
  - unfold since. rewrite Hu. apply not_elem_of_nil.
  - exact twice_snapshot.
  - unfold Int.is_i64. lia.
  - exists out, s1. split_and!; [exact Hrun|exact Hp|exact Hs].
Defined.

(** * Turning rollback on and off

    [snapshot::enable], [::disable] and [::get_state], [snapshot::list], and committing under a
    label that is taken. *)

#[local] Open Scope string_scope.
#[local] Open Scope list_scope.
#[local] Open Scope Z_scope.

(** ** Reading the state *)

Section state.
Context {E : Env} {HQ : Quiet E}.
Implicit Types s : state.

Lemma wp_get_state vid s :
  aborted s = false →
  wp (get_state vid) s (λ r s', s' = tick s ∧
    r = Ok ((λ st, mkRollbackState vid (rollback_enabled st) (current_snap_id st)) <$>
              fs_volume_state (volumes (cur s)) !! vid)).
Proof.
  intros Hab. unfold get_state. wp_steps. unfold select_vstate.
  destruct (fs_volume_state _ !! vid) as [st|]; by row_steps.
Qed.

Lemma wp_execute_count f s Q :
  aborted s = false → Q (Ok (f (cur s)).2) (set_cur (f (cur s)).1 (tick s)) → wp (execute_count f) s Q.
Proof.
  intros Hab HQ'. unfold execute_count. eapply wp_stmt; [done| |exact HQ'].
  cbv beta. rewrite cur_tick. by destruct (f (cur s)).
Qed.

(** The undo tables without the rows of a volume. *)
Definition others {K R} (vid : string) (l : list (undo_row K R)) : list (undo_row K R) :=
  filter (λ u, u_volume u ≠ vid) l.
Definition purged (vid : string) (u : undo_tables) : undo_tables :=
  mkUndoTables (others vid (fs_inode_undo u)) (others vid (fs_dentry_undo u))
    (others vid (fs_data_undo u)) (others vid (fs_symlink_undo u)) (others vid (kv_store_undo u)).
Lemma prune_others {K R} vid (l : list (undo_row K R)) :
  filter (λ u, bool_decide (u_volume u = vid) = false) l = others vid l.
Proof. apply list_filter_iff. intros u. apply bool_decide_eq_false. Qed.

Lemma wp_purge_undo vid s :
  aborted s = false →
  wp (purge_undo vid prune_undo_tables 0) s (λ r s', db_step s s' ∧
    cur s' = set_undo (purged vid (undo (cur s))) (cur s) ∧
    r = Ok (undo_count (cur s) - undo_count (cur s'))).
Proof.
  intros Hab. unfold prune_undo_tables. cbn [purge_undo].
  do 5 (apply wp_bind, wp_execute_count; [by st|]; cbn [pruned fst snd]). wp_steps. st.
  assert (Heq : prune_kv_undo (λ v _, bool_decide (v = vid)) (prune_symlink_undo (λ v _, bool_decide (v = vid))
    (prune_data_undo (λ v _, bool_decide (v = vid)) (prune_dentry_undo (λ v _, bool_decide (v = vid))
    (prune_inode_undo (λ v _, bool_decide (v = vid)) (cur s))))) = set_undo (purged vid (undo (cur s))) (cur s)).
  { unfold prune_kv_undo, prune_symlink_undo, prune_data_undo, prune_dentry_undo, prune_inode_undo.
    simpl. by rewrite !prune_others. }
  split; [by auto 20|]. split; [exact Heq|]. f_equal. lia.
Qed.

(** The database after rollback was disabled. *)
Definition disabled (vid : string) (d : db) : db :=
  set_volumes (mkVolumes (fs_volumes (volumes d))
      (alter (λ _, mkVolumeState false 1) vid (fs_volume_state (volumes d)))
      (filter (λ kv, kv.1.1 ≠ vid) (fs_snapshots (volumes d))))
    (set_undo (purged vid (undo d)) d).

Lemma wp_disable vid s :
  aborted s = false →
  wp (disable vid) s (λ r s', db_step s s' ∧ cur s' = disabled vid (cur s) ∧
    r = Ok (mkDisableResult
      (Z.of_nat (size (fs_snapshots (volumes (cur s)))) - Z.of_nat (size (fs_snapshots (volumes (cur s')))))
      (undo_count (cur s) - undo_count (cur s')))).
Proof.
  intros Hab. unfold disable. apply wp_bind. eapply wp_mono; [|by apply wp_purge_undo].
  intros r s1 (Hs1 & Hc1 & ->). pose proof (db_step_aborted _ _ Hs1) as Hab1. rewrite Hab in Hab1.
  apply wp_bind, wp_execute_count; [done|]. wp_steps. st. rewrite Hc1.
  split; [by eapply db_step_trans; [exact Hs1|auto 10]|]. split; done.
Qed.
End state.

Section theorems.
Context {E : Env} {HQ : Quiet E} {HU : UtcServer E}.
Implicit Types s : state.

Lemma wp_commit_inner_disabled vid label snap s :
  aborted s = false → fs_volume_state (volumes (cur s)) !! vid = Some (mkVolumeState false snap) →
  wp (commit_inner vid label) s (λ r _, r = Err (EInternal ("rollback disabled for volume " +:+ vid))).
Proof.
  intros Hab Hst. unfold commit_inner. wp_steps. unfold select_vstate. rewrite Hst.
  cbn [head ok_or_internal]. row_steps. by cbn [negb rollback_enabled]; row_steps.
Qed.

Lemma others_none {K R} vid (l : list (undo_row K R)) u : u ∈ others vid l → u_volume u ≠ vid.
Proof. by intros [? _]%list_elem_of_filter. Qed.
Lemma capture_not_disabled vid d snap : capture_target (disabled vid d) ≠ Some (vid, snap).
Proof.
  intros Hc. pose proof (capture_state _ _ _ Hc) as Hst. simpl in Hst.
  rewrite lookup_alter_eq in Hst. by destruct (fs_volume_state (volumes d) !! vid).
Qed.

(** Disabling rollback forgets the volume's history and nothing else: its snapshots and
    journal entries are gone and counted, its counter is back at 1, the journal and the
    snapshots of other volumes and every file and key stay; from then on nothing is
    captured for the volume and a commit is refused. *)
Theorem disable_forgets_history vid st s :
  txn s = None → fs_volume_state (volumes (committed s)) !! vid = Some st →
  ∃ r s', disable vid s = (Ok r, s') ∧ txn s' = None ∧
    let d := committed s in let d' := committed s' in
    fs_volume_state (volumes d') !! vid = Some (mkVolumeState false 1) ∧
    undo d' = purged vid (undo d) ∧ dr_purged_undo_rows r = undo_count d - undo_count d' ∧
    (∀ k, fs_snapshots (volumes d') !! k = if decide (k.1 = vid) then None else fs_snapshots (volumes d) !! k) ∧
    dr_purged_snapshots r =
      Z.of_nat (size (fs_snapshots (volumes d))) - Z.of_nat (size (fs_snapshots (volumes d'))) ∧
    same_tables d d' ∧ (∀ snap, capture_target d' ≠ Some (vid, snap)) ∧
    ∀ label, ∃ s'', commit vid label s' =
      (Err (EInternal ("rollback disabled for volume " +:+ vid)), s'') ∧ committed s'' = committed s'.
Proof.
  intros Ht Hst. assert (Hcur : cur s = committed s) by (unfold cur; by rewrite Ht).
  assert (Hab : aborted s = false) by (unfold aborted; by rewrite Ht).
  destruct (wp_intro _ _ _ (wp_disable vid s Hab)) as (r & s' & Hrun & Hs & Hc & ->).
  assert (Ht' : txn s' = None) by (destruct Hs as [-> _]; by rewrite Ht).
  assert (Hcur' : cur s' = committed s') by (unfold cur; by rewrite Ht'). rewrite Hcur, Hcur' in *.
  assert (Hst' : fs_volume_state (volumes (committed s')) !! vid = Some (mkVolumeState false 1)).
  { rewrite Hc. simpl. by rewrite lookup_alter_eq, Hst. }
  eexists _, s'. split; [exact Hrun|]. split; [done|]. simpl. split_and!; try done; try (by rewrite Hc).
  - intros [v n]. rewrite Hc. simpl. rewrite map_lookup_filter. simpl.
    destruct (fs_snapshots (volumes (committed s)) !! (v, n)); simpl; repeat case_decide; by try case_guard.
  - rewrite Hc. apply capture_not_disabled.
  - intros label. destruct (commit_failed vid label (EInternal ("rollback disabled for volume " +:+ vid)) s' Ht')
      as (s'' & ? & _ & ?); [|by exists s''].
    by apply (wp_commit_inner_disabled vid label 1).
Qed.

(** What the upsert does. *)
Definition enabled_at (vid : string) (snap : Z) (d : db) : db :=
  set_volumes (set_fs_volume_state (<[vid:=mkVolumeState true snap]> (fs_volume_state (volumes d)))
    (volumes d)) d.
Lemma upsert_existing vid st d :
  fs_volume_state (volumes d) !! vid = Some st →
  upsert_enabled vid d = Some (enabled_at vid (current_snap_id st) d).
Proof.
  intros Hst. unfold upsert_enabled, update_volume_state_row, enabled_at. rewrite Hst. do 3 f_equal.
  apply map_eq. intros v. destruct (decide (vid = v)) as [<-|?].
  - by rewrite lookup_alter_eq, lookup_insert_eq, Hst.
  - by rewrite lookup_alter_ne, lookup_insert_ne.
Qed.
Lemma wp_enable vid snap s :
  txn s = None → upsert_enabled vid (committed s) = Some (enabled_at vid snap (committed s)) →
  wp (enable vid) s (λ r s', r = Ok (mkRollbackState vid true snap) ∧ txn s' = None ∧
    committed s' = enabled_at vid snap (committed s)).
Proof.
  intros Ht Hup. assert (Hcur : cur s = committed s) by (unfold cur; by rewrite Ht).
  assert (Hab : aborted s = false) by (unfold aborted; by rewrite Ht).
  unfold enable. apply wp_bind. eapply wp_execute; [done|by rewrite Hcur|].
  apply wp_bind. eapply wp_mono; [|by apply wp_get_state; st]. intros r s' [-> ->]. st.
  cbn [volumes enabled_at set_volumes fs_volume_state set_fs_volume_state]. rewrite lookup_insert_eq.
  cbn [fmap option_fmap option_map ok_or_internal]. apply wp_ret. split; [done|]. st. rewrite Ht.
  split; [done|]. unfold set_cur. simpl. by rewrite Ht.
Qed.
Lemma enable_twice vid snap s s' :
  txn s' = None → committed s' = enabled_at vid snap (committed s) →
  ∃ s'', enable vid s' = (Ok (mkRollbackState vid true snap), s'') ∧ committed s'' = committed s'.
Proof.
  intros Ht Hc. assert (Hst : fs_volume_state (volumes (committed s')) !! vid = Some (mkVolumeState true snap)).
  { rewrite Hc. simpl. apply lookup_insert_eq. }
  destruct (wp_ok _ _ _ _ (wp_enable vid snap s' Ht (upsert_existing _ _ _ Hst))) as (s'' & Hrun & _ & Hc'').
  exists s''. split; [done|]. rewrite Hc'', Hc. unfold enabled_at. simpl. by rewrite insert_insert_eq.
Qed.

(** Enabling rollback is idempotent: a volume that has no state starts at snapshot 1, one
    that has keeps its counter, and the state returned is the one stored; enabling again
    changes nothing. Enabling a volume that does not exist is refused. *)
Theorem enable_is_idempotent vid s :
  txn s = None →
  if decide (is_Some (fs_volumes (volumes (committed s)) !! vid) ∨
             is_Some (fs_volume_state (volumes (committed s)) !! vid))
  then ∃ snap s', enable vid s = (Ok (mkRollbackState vid true snap), s') ∧
    snap = from_option current_snap_id 1 (fs_volume_state (volumes (committed s)) !! vid) ∧
    fs_volume_state (volumes (committed s')) !! vid = Some (mkVolumeState true snap) ∧
    same_tables (committed s) (committed s') ∧
    ∃ s'', enable vid s' = (Ok (mkRollbackState vid true snap), s'') ∧ committed s'' = committed s'
  else ∃ s', enable vid s = (Err EPostgres, s') ∧ committed s' = committed s.
Proof.
  intros Ht. assert (Hok : ∀ snap,
    upsert_enabled vid (committed s) = Some (enabled_at vid snap (committed s)) →
    ∃ s', enable vid s = (Ok (mkRollbackState vid true snap), s') ∧
      fs_volume_state (volumes (committed s')) !! vid = Some (mkVolumeState true snap) ∧
      same_tables (committed s) (committed s') ∧
      ∃ s'', enable vid s' = (Ok (mkRollbackState vid true snap), s'') ∧ committed s'' = committed s').
  { intros snap Hup. destruct (wp_ok _ _ _ _ (wp_enable vid snap s Ht Hup)) as (s' & Hrun & Ht' & Hc').
    exists s'. split; [done|]. split; [rewrite Hc'; simpl; apply lookup_insert_eq|].
    split; [by rewrite Hc'|]. by apply (enable_twice vid snap s). }
  destruct (fs_volume_state (volumes (committed s)) !! vid) as [st|] eqn:Hst.
  - rewrite decide_True by (right; eauto). destruct (Hok (current_snap_id st)) as (s' & ? & ? & ? & ?);
      [by apply upsert_existing|]. by exists (current_snap_id st), s'.
  - destruct (fs_volumes (volumes (committed s)) !! vid) as [root|] eqn:Hv.
    + rewrite decide_True by (left; eauto). destruct (Hok 1) as (s' & ? & ? & ? & ?).
      { unfold upsert_enabled, insert_volume_state_row. by rewrite Hst, Hv. }
      by exists 1, s'.
    + rewrite decide_False by (intros [[? ?]|[? ?]]; done).
      unfold enable, mbind, M_bind, execute, stmt, aborted, cur. rewrite quiet_fault. simpl. rewrite Ht. simpl.
      unfold upsert_enabled, insert_volume_state_row. rewrite Hst, Hv. simpl. unfold abort. simpl. rewrite Ht.
      by eexists.
Qed.

(** ** Committing again *)

(** Committing is idempotent: a second commit under the same label returns the snapshot
    the first one made, with its number and time, and changes nothing. *)
Theorem commit_is_idempotent vid snap label s info s1 :
  txn s = None → ready vid snap (committed s) → label_unused vid label (committed s) →
  fs_snapshots (volumes (committed s)) !! (vid, snap) = None → snap + 1 < 2 ^ 63 →
  commit vid (Some label) s = (Ok info, s1) →
  ∃ s2, commit vid (Some label) s1 = (Ok info, s2) ∧ committed s2 = committed s1.
Proof.
  intros Ht Hr Hl Hn Hmax Hrun.
  destruct (wp_elim _ _ _ _ _ Hrun (wp_commit_new vid snap label s Ht Hr Hl Hn Hmax))
    as (t & [= ->] & Ht1 & Hc1 & Htime).
  apply wp_ok. unfold commit. apply wp_bind, wp_begin; [done|]. apply wp_bind, wp_attempt.
  eapply wp_mono; [|apply (wp_commit_inner_again vid (snap + 1) snap (mkSnapshot t (Some label))); try done].
  - intros ? s2 [-> ->]. eapply wp_finish_ok; [done|]. split; [done|]. st. rewrite Hc1. done.
  - st. apply capture_state. rewrite Hc1. by apply ready_capture_next.
  - st. rewrite Hc1. simpl. apply lookup_insert_eq.
  - st. rewrite Hc1. simpl. intros n r [[[= <-] _]|[_ Hnr]]%lookup_insert_Some Hlab; [done|].
    by destruct (Hl n r).
Qed.

(** ** Listing *)

Definition info_of (x : Z * snapshot_row) : SnapshotInfo :=
  mkSnapshotInfo x.1 (sn_committed_at x.2) (sn_label x.2).

#[local] Instance snap_le_total : Total snap_le.
Proof. intros a b. unfold snap_le. lia. Qed.
#[local] Instance snap_le_trans : Transitive snap_le.
Proof. intros a b c. unfold snap_le. lia. Qed.

(** [snapshot::list] returns the snapshots of the volume, every one of them and nothing else,
    each with the number, time and label it was committed with, in the order of their
    numbers. *)
Theorem list_returns_snapshots vid s :
  txn s = None →
  (∀ snap r, fs_snapshots (volumes (committed s)) !! (vid, snap) = Some r → is_time (sn_committed_at r)) →
  ∃ l s', list_snapshots vid s = (Ok l, s') ∧ committed s' = committed s ∧
    StronglySorted (λ a b, si_snap_id a ≤ si_snap_id b) l ∧
    ∀ info, info ∈ l ↔ fs_snapshots (volumes (committed s)) !! (vid, si_snap_id info) =
      Some (mkSnapshot (si_committed_at info) (si_label info)).
Proof.
  intros Ht Htime. assert (Hcur : cur s = committed s) by (unfold cur; by rewrite Ht).
  set (xs := merge_sort snap_le (snapshots_where vid (λ _ _, true) (committed s))).
  assert (Hxs : ∀ x, x ∈ xs ↔ fs_snapshots (volumes (committed s)) !! (vid, x.1) = Some x.2).
  { intros [n r]. unfold xs. rewrite merge_sort_Permutation, elem_of_snapshots_where. naive_solver. }
  assert (Hw : wp (list_snapshots vid) s (λ r s', r = Ok (info_of <$> xs) ∧ committed s' = committed s)).
  { unfold list_snapshots. apply wp_bind, wp_query; [by unfold aborted; rewrite Ht|].
    unfold select_snapshots. rewrite Hcur. fold xs.
    eapply wp_mono; [|apply (wp_collect info_of_row _ info_of)]; [by intros r s' [-> ->]|].
    intros [n r] Hx. unfold info_of_row. row_steps.
    apply wp_parse_ts; [|by row_steps]. apply Hxs in Hx. by apply (Htime n). }
  destruct (wp_ok _ _ _ _ Hw) as (s' & Hrun & Hc). exists (info_of <$> xs), s'. split_and!; [done|done| |].
  - eapply (strongly_sorted_fmap info_of _ snap_le); [done|].
    apply StronglySorted_merge_sort; apply _.
  - intros [n t lab]. simpl. rewrite list_elem_of_fmap. split.
    + intros ([n' r] & [= -> -> ->] & Hx%Hxs). simpl in *. rewrite Hx. by destruct r.
    + intros Hl. exists (n, mkSnapshot t lab). split; [done|]. by apply Hxs.
Qed.
End theorems.

(** ** On the sample volume *)

Lemma mounted_state :
  fs_volume_state (volumes (committed mounted)) !! "vol" = Some (mkVolumeState true 1).
Proof. exact (ready_state _ _ _ mounted_ready). Qed.
Lemma disable_forgets_history_witness :
  ∃ r s', disable "vol" mounted = (Ok r, s') ∧
    fs_volume_state (volumes (committed s')) !! "vol" = Some (mkVolumeState false 1).
Proof.
  destruct (disable_forgets_history "vol" (mkVolumeState true 1) mounted mounted_idle mounted_state)
    as (r & s' & Hrun & _ & Hst & _). exists r, s'. split; [exact Hrun|exact Hst].
Defined.
Lemma enable_is_idempotent_witness :
  ∃ s', enable "nope" mounted = (Err EPostgres, s') ∧ committed s' = committed mounted.
Proof. exact (enable_is_idempotent "nope" mounted mounted_idle). Defined.
Lemma commit_is_idempotent_witness :
  ∃ s2, commit "vol" (Some "a") snapped = (Ok info_a, s2) ∧ committed s2 = committed snapped.
Proof.
  exact (commit_is_idempotent "vol" 1 "a" mounted info_a snapped mounted_idle mounted_ready
    (mounted_unused "a") (mounted_free 1) ltac:(lia) snapped_run).
Defined.
Lemma snapped_snapshots :
  fs_snapshots (volumes (committed snapped)) = {[ ("vol", 1) := mkSnapshot 1767225600000067 (Some "a") ]}.
Proof. by vm_compute. Qed.
Lemma snapped_idle : txn snapped = None.
Proof. by vm_compute. Qed.
Lemma list_returns_snapshots_witness :
  ∃ l s', list_snapshots "vol" snapped = (Ok l, s') ∧ info_a ∈ l.
Proof.
  destruct (list_returns_snapshots "vol" snapped snapped_idle) as (l & s' & Hrun & _ & _ & Hl).
  - intros snap r. rewrite snapped_snapshots. intros [_ <-]%lookup_singleton_Some. unfold is_time. simpl. lia.
  - exists l, s'. split; [exact Hrun|]. apply Hl. rewrite snapped_snapshots. apply lookup_singleton_eq.
Defined.
