(* ===== verification/VolumeThms.v ===== *)
(** * Volumes are created and destroyed as a whole

    [volume::ensure] creates a volume once and keeps the system invariant; [volume::destroy]
    removes exactly the inodes reachable from the volume's root, and its recursive queries
    end when the directory table has no cycle. *)

From S2P Require Import Prelude Types Tables Monad Wp Instances Sql File SecafsInode InodeSpec.
From S2P Require Import Paths SecafsPath TreeInv SysInv Samples Snapshot RestoreSpec Volume Mounted.

#[local] Open Scope string_scope.
#[local] Open Scope list_scope.
#[local] Open Scope Z_scope.

(** ** The recursive query *)

(** [i] has an entry in [p]; the inodes below [root], [root] included. *)
Definition is_child (d : db) (p i : Z) : Prop := ∃ n e, fs_dentry d !! (p, n) = Some e ∧ d_ino e = i.
Definition below (d : db) (root i : Z) : Prop := rtc (is_child d) root i.
(** The directory table has no cycle: some depth strictly decreases along every entry. *)
Definition forest (d : db) : Prop :=
  ∃ depth : Z → nat, ∀ p i, is_child d p i → (depth i < depth p)%nat.

Section subtree.
Implicit Types d : db.

Lemma elem_of_child_rows p d n i :
  (n, i) ∈ children p d ↔ ∃ e, fs_dentry d !! (p, n) = Some e ∧ d_ino e = i.
Proof.
  unfold children. rewrite omap_key_elem. split.
  - intros ([p' n'] & e & He & Hc). simpl in Hc. case_decide; simplify_eq. eauto.
  - intros (e & He & <-). exists (p, n), e. split; [done|]. simpl. by rewrite decide_True.
Qed.
Lemma elem_of_join d w i : i ∈ join_children d w ↔ ∃ p, p ∈ w ∧ is_child d p i.
Proof.
  unfold join_children. rewrite list_elem_of_bind. split.
  - intros (p & Hi & Hp). exists p. split; [done|].
    apply list_elem_of_fmap in Hi as ([n i'] & -> & (e & ? & ?)%elem_of_child_rows). by exists n, e.
  - intros (p & Hp & n & e & He & <-). exists p. split; [|done].
    apply list_elem_of_fmap. exists (n, d_ino e). split; [done|]. apply elem_of_child_rows. eauto.
Qed.
Lemma subtree_ext root d d' : fs_dentry d' = fs_dentry d → subtree root d' = subtree root d.
Proof.
  intros Hd. unfold subtree, subtree_fuel. rewrite Hd.
  generalize (S (S (size (fs_dentry d)))), [root]. intros fuel.
  assert (Hj : ∀ w, join_children d' w = join_children d w).
  { intros w. unfold join_children, children. by rewrite Hd. }
  induction fuel as [|fuel IH]; intros w; destruct w; cbn [subtree_from]; try done. by rewrite Hj, IH.
Qed.
Lemma elem_of_subtree_from d fuel w l i :
  subtree_from d fuel w = Some l → i ∈ l ↔ ∃ r, r ∈ w ∧ below d r i.
Proof.
  revert w l. induction fuel as [|fuel IH]; intros w l; destruct w as [|x w];
    cbn [subtree_from]; try done; [intros [= <-]; set_solver..|].
  destruct (subtree_from d fuel _) as [rest|] eqn:Hr; [|done]. cbn [mbind option_bind]. intros [= <-].
  change (x :: w ++ rest) with ((x :: w) ++ rest). rewrite elem_of_app, (IH _ _ Hr).
  setoid_rewrite elem_of_join. split.
  - intros [Hi|(r & (p & Hp & Hc) & Hb)]; [exists i; split; [done|apply rtc_refl]|].
    exists p. split; [done|]. by eapply rtc_l.
  - intros (r & Hi & Hb). apply rtc_inv in Hb as [->|(y & Hc & Hb)]; [by left|right].
    exists y. split; [|done]. eauto.
Qed.

(** When a level is reached, there is a chain of as many different entries. *)
Lemma level_chain d depth n w i :
  (∀ p i, is_child d p i → (depth i < depth p)%nat) → i ∈ Nat.iter n (join_children d) w →
  ∃ ks : list (Z * string), length ks = n ∧ NoDup ks ∧
    ∀ k, k ∈ ks → is_Some (fs_dentry d !! k) ∧ (depth i < depth k.1)%nat.
Proof.
  intros Hdepth. revert i. induction n as [|n IH]; intros i Hi; simpl in Hi.
  { exists []. split; [done|]. split; [constructor|set_solver]. }
  apply elem_of_join in Hi as (p & (ks & Hlen & Hnd & Hks)%IH & Hc).
  pose proof (Hdepth p i Hc) as Hlt. destruct Hc as (name & e & He & _).
  exists ((p, name) :: ks). split; [simpl; lia|]. split.
  - constructor; [|done]. intros Hin. destruct (Hks _ Hin). simpl in *. lia.
  - intros k [->|Hin]%elem_of_cons; [by eauto|]. destruct (Hks _ Hin). split; [done|lia].
Qed.
Lemma chain_bound (m : gmap (Z * string) dentry) ks :
  NoDup ks → (∀ k, k ∈ ks → is_Some (m !! k)) → (length ks ≤ size m)%nat.
Proof.
  intros Hnd Hin. rewrite <- size_dom. rewrite <- (size_list_to_set (C := gset (Z * string)) ks Hnd).
  apply subseteq_size. intros k. rewrite elem_of_list_to_set, elem_of_dom. apply Hin.
Qed.
Lemma subtree_from_none d fuel w : subtree_from d fuel w = None → Nat.iter fuel (join_children d) w ≠ [].
Proof.
  revert w. induction fuel as [|fuel IH]; intros w; destruct w as [|x w]; try done.
  cbn [subtree_from]. destruct (subtree_from d fuel _) eqn:Hs; [done|]. intros _.
  rewrite Nat.iter_succ_r. by apply IH.
Qed.
Lemma subtree_terminates d root : forest d → ∃ l, subtree root d = Some l.
Proof.
  intros [depth Hdepth]. unfold subtree. destruct (subtree_from d _ _) as [l|] eqn:Hs; [eauto|].
  apply subtree_from_none in Hs. destruct (Nat.iter _ _ _) as [|i l] eqn:Hi; [done|].
  destruct (level_chain d depth (subtree_fuel d) [root] i) as (ks & Hlen & Hnd & Hks); [done|rewrite Hi; by left|].
  pose proof (chain_bound (fs_dentry d) ks Hnd (λ k Hk, proj1 (Hks k Hk))).
  unfold subtree_fuel in Hlen. lia.
Qed.
End subtree.

(** ** Deleting many rows *)

Section batches.
Implicit Types d : db.

Lemma foldr_delete {K A} `{Countable K} (get : db → gmap K A) (del : K → db → db) ks d :
  (∀ k d, get (del k d) = delete k (get d)) →
  get (foldr del d ks) = filter (λ kv, kv.1 ∉ ks) (get d).
Proof.
  intros Hdel. induction ks as [|k ks IH]; simpl.
  - symmetry. apply map_filter_id. intros. simpl. set_solver.
  - rewrite Hdel, IH. apply map_eq. intros i. apply option_eq. intros x.
    rewrite lookup_delete_Some, !map_lookup_filter_Some. simpl. set_solver.
Qed.
Lemma filter_keys {K A} `{Countable K} (P : K → A → bool) (m : gmap K A) :
  filter (λ kv, kv.1 ∉ (map_to_list (filter (λ kv, P kv.1 kv.2 = true) m)).*1) m =
    filter (λ kv, P kv.1 kv.2 = false) m.
Proof.
  apply map_filter_ext. intros k x Hk. simpl. rewrite <- not_true_iff_false.
  apply not_iff_compat. rewrite list_elem_of_fmap. split.
  - intros ([k' y] & -> & Hin%elem_of_map_to_list). apply map_lookup_filter_Some in Hin as [Hy HP].
    simpl in *. congruence.
  - intros HP. exists (k, x). split; [done|]. apply elem_of_map_to_list. by apply map_lookup_filter_Some.
Qed.
Lemma fs_dentry_delete_where P d :
  fs_dentry (delete_dentry_where P d) = filter (λ kv, P kv.1 kv.2 = false) (fs_dentry d).
Proof.
  unfold delete_dentry_where.
  rewrite (foldr_delete fs_dentry (λ k d, delete_dentry_row k.1 k.2 d)), filter_keys; [done|].
  intros [p n] d'. apply fs_dentry_delete_row.
Qed.
Lemma fs_symlink_delete_where P d :
  fs_symlink (delete_symlink_where P d) = filter (λ kv, P kv.1 = false) (fs_symlink d).
Proof.
  unfold delete_symlink_where. rewrite (foldr_delete fs_symlink delete_symlink_row).
  - apply (filter_keys (λ k _, P k)).
  - intros. apply fs_symlink_delete_row.
Qed.
Lemma fs_inode_delete_where P d :
  fs_inode (delete_inode_where P d) = filter (λ kv, P kv.1 = false) (fs_inode d).
Proof.
  unfold delete_inode_where. rewrite (foldr_delete fs_inode delete_inode_row).
  - apply (filter_keys (λ k _, P k)).
  - intros. apply fs_inode_delete_row.
Qed.
(** A batch leaves what a single deletion leaves. *)
Lemma foldr_frame {K B} (get : db → B) (del : K → db → db) ks d :
  (∀ k d, get (del k d) = get d) → get (foldr del d ks) = get d.
Proof. intros Hdel. induction ks as [|k ks IH]; simpl; [done|]. by rewrite Hdel. Qed.
Lemma dentry_where_frame P d :
  fs_inode (delete_dentry_where P d) = fs_inode d ∧ fs_data (delete_dentry_where P d) = fs_data d ∧
  fs_symlink (delete_dentry_where P d) = fs_symlink d.
Proof.
  unfold delete_dentry_where. split_and!; apply foldr_frame; intros; autorewrite with secafs_db; done.
Qed.
Lemma symlink_where_frame P d :
  fs_inode (delete_symlink_where P d) = fs_inode d ∧ fs_data (delete_symlink_where P d) = fs_data d ∧
  fs_dentry (delete_symlink_where P d) = fs_dentry d.
Proof.
  unfold delete_symlink_where. split_and!; apply foldr_frame; intros; autorewrite with secafs_db; done.
Qed.
Lemma inode_where_frame P d :
  fs_symlink (delete_inode_where P d) = fs_symlink d ∧ fs_data (delete_inode_where P d) = fs_data d ∧
  fs_dentry (delete_inode_where P d) = fs_dentry d.
Proof.
  unfold delete_inode_where. split_and!; apply foldr_frame; intros; autorewrite with secafs_db; done.
Qed.
End batches.

(** ** Destroying *)

(** Which rows are left when the inodes of [R] are gone. *)
Record removed (R : Z → Prop) (d d' : db) : Prop := {
  rm_inode i r : fs_inode d' !! i = Some r ↔ fs_inode d !! i = Some r ∧ ¬ R i;
  rm_data k b : fs_data d' !! k = Some b ↔ fs_data d !! k = Some b ∧ ¬ R k.1;
  rm_symlink i t : fs_symlink d' !! i = Some t ↔ fs_symlink d !! i = Some t ∧ ¬ R i;
  rm_dentry k e : fs_dentry d' !! k = Some e ↔ fs_dentry d !! k = Some e ∧ ¬ R (d_ino e) ∧ ¬ R k.1;
}.

(** Removing a set of inodes that is closed under children leaves a consistent tree. *)
Lemma removed_tree R d d' :
  removed R d d' → (∀ p i, is_child d p i → R p → R i) → ¬ R ROOT_INO →
  tree_inv (fs_inode d) (fs_dentry d) → tree_inv (fs_inode d') (fs_dentry d').
Proof.
  intros [Hi _ _ Hd] Hcl Hroot Ht.
  assert (Hlinks : ∀ ino, ¬ R ino → links (fs_dentry d') ino = links (fs_dentry d) ino).
  { intros ino Hino. unfold links, names_of. do 2 f_equal. apply map_eq. intros [p n].
    apply option_eq. intros e. rewrite !map_lookup_filter_Some, Hd. simpl. split; [tauto|].
    intros [He <-]. split_and!; [done|done| |done]. intros Hp. apply Hino, (Hcl p); [by exists n, e|done]. }
  assert (Hdir : ∀ i, dir_row (fs_inode d) i → ¬ R i → dir_row (fs_inode d') i).
  { intros i (r & Hr & Hdr) HR. exists r. split; [by apply Hi|done]. }
  split.
  - intros ino r [Hr HR]%Hi Hnd. rewrite Hlinks by done. by apply Ht.
  - intros ino r [Hr HR]%Hi Hdr. rewrite Hlinks by done. by eapply ti_dir.
  - intros k e (He & HR & _)%Hd. destruct (ti_target _ _ Ht _ _ He) as [r Hr]. exists r. by apply Hi.
  - intros k e (He & _ & HR)%Hd. apply Hdir; [by eapply ti_parent|done].
  - apply Hdir; [apply Ht|done].
  - rewrite Hlinks by done. apply Ht.
Qed.

Section destroy.
Implicit Types d : db.

(** The entry of the volume under the global root is not needed to walk the volume. *)
Definition unnamed (root : Z) (d : db) : db :=
  delete_dentry_where (λ k e, bool_decide (k.1 = 1 ∧ d_ino e = root)) d.
Lemma unnamed_lookup root d k e :
  fs_dentry (unnamed root d) !! k = Some e ↔ fs_dentry d !! k = Some e ∧ ¬ (k.1 = 1 ∧ d_ino e = root).
Proof.
  unfold unnamed. rewrite fs_dentry_delete_where, map_lookup_filter_Some. simpl.
  by rewrite bool_decide_eq_false.
Qed.
Lemma below_root d root i :
  root ≠ ROOT_INO → links (fs_dentry d) ROOT_INO = 0 → below d root i → i ≠ ROOT_INO.
Proof.
  intros Hne Hl Hb. apply rtc_inv_r in Hb as [->|(p & _ & n & e & He & <-)]; [done|].
  by eapply links_zero.
Qed.
Lemma below_unnamed d root i :
  root ≠ ROOT_INO → links (fs_dentry d) ROOT_INO = 0 →
  below (unnamed root d) root i ↔ below d root i.
Proof.
  intros Hne Hl. split; intros Hb.
  - eapply rtc_subrel; [|exact Hb]. intros p j (n & e & [He _]%unnamed_lookup & Hj). by exists n, e.
  - revert i Hb. apply (rtc_ind_r (below (unnamed root d) root) root); [apply rtc_refl|].
    intros p j Hb Hc IH. eapply rtc_r; [exact IH|]. destruct Hc as (n & e & He & Hj). exists n, e. split; [|done].
    apply unnamed_lookup. split; [done|]. simpl. intros [Hp _]. by apply (below_root d root p).
Qed.
Lemma forest_unnamed root d : forest d → forest (unnamed root d).
Proof.
  intros [depth Hd]. exists depth. intros p i (n & e & [He _]%unnamed_lookup & Hi).
  apply Hd. by exists n, e.
Qed.

(** The four statements that walk the subtree [l]. *)
Definition destroyed (l : list Z) (d : db) : db :=
  delete_dentry_where (λ k e, in_subtree l (d_ino e) || in_subtree l k.1)
    (delete_inode_where (in_subtree l) (delete_symlink_where (in_subtree l)
      (delete_data_where (λ k, in_subtree l k.1) d))).
Lemma destroyed_removed (R : Z → Prop) l root d d1 :
  (∀ i, in_subtree l i = false ↔ ¬ R i) → R root →
  fs_inode d1 = fs_inode d → fs_dentry d1 = fs_dentry d → fs_data d1 = fs_data d →
  fs_symlink d1 = fs_symlink d → removed R d (destroyed l (unnamed root d1)).
Proof.
  intros Hin Hroot Hi Hd Hda Hs. unfold destroyed.
  set (d2 := unnamed root d1). set (d3 := delete_data_where _ d2).
  set (d4 := delete_symlink_where _ d3). set (d5 := delete_inode_where _ d4).
  assert (fs_inode d2 = fs_inode d1 ∧ fs_data d2 = fs_data d1 ∧ fs_symlink d2 = fs_symlink d1)
    as (U1 & U2 & U3) by apply dentry_where_frame.
  assert (fs_inode d4 = fs_inode d3 ∧ fs_data d4 = fs_data d3 ∧ fs_dentry d4 = fs_dentry d3)
    as (S1 & S2 & S3) by apply symlink_where_frame.
  assert (fs_symlink d5 = fs_symlink d4 ∧ fs_data d5 = fs_data d4 ∧ fs_dentry d5 = fs_dentry d4)
    as (I1 & I2 & I3) by apply inode_where_frame.
  destruct (dentry_where_frame (λ k e, in_subtree l (d_ino e) || in_subtree l k.1) d5) as (V1 & V2 & V3).
  assert (fs_inode d3 = fs_inode d2 ∧ fs_dentry d3 = fs_dentry d2 ∧ fs_symlink d3 = fs_symlink d2)
    as (D1 & D2 & D3) by (unfold d3; by autorewrite with secafs_db).
  split.
  - intros i r. rewrite V1. unfold d5. rewrite fs_inode_delete_where, map_lookup_filter_Some. simpl.
    by rewrite Hin, S1, D1, U1, Hi.
  - intros k b. rewrite V2, I2, S2. unfold d3. autorewrite with secafs_db.
    rewrite map_lookup_filter_Some. simpl. by rewrite Hin, U2, Hda.
  - intros i t. rewrite V3, I1. unfold d4. rewrite fs_symlink_delete_where, map_lookup_filter_Some. simpl.
    by rewrite Hin, D3, U3, Hs.
  - intros k e. rewrite fs_dentry_delete_where, map_lookup_filter_Some, I3, S3, D2. simpl.
    unfold d2. rewrite unnamed_lookup, Hd, orb_false_iff, !Hin. clear -Hroot. split; [tauto|].
    intros (He & He1 & He2). split_and!; [done| |done|done]. intros [_ <-]. done.
Qed.
(** A volume that is not registered stays so. *)
Lemma unregistered_frame id l root d :
  fs_volumes (volumes d) !! id = None →
  fs_volumes (volumes (destroyed l (unnamed root d))) !! id = None.
Proof.
  assert (Hfold : ∀ K (del : K → db → db) ks d,
    (∀ k d, fs_volumes (volumes d) !! id = None → fs_volumes (volumes (del k d)) !! id = None) →
    fs_volumes (volumes d) !! id = None → fs_volumes (volumes (foldr del d ks)) !! id = None).
  { intros K del ks d' Hdel Hd. induction ks; simpl; auto. }
  intros Hd. unfold destroyed, unnamed, delete_dentry_where, delete_inode_where, delete_symlink_where,
    delete_data_where. repeat (apply Hfold; [intros|]); try done.
  - unfold delete_dentry_row. by case_match.
  - unfold delete_inode_row. case_match; [|done]. simpl. apply map_lookup_filter_None. by left.
  - unfold delete_symlink_row. by case_match.
  - unfold delete_data_row. by case_match.
  - unfold delete_dentry_row. by case_match.
Qed.
(** The subtree does not change while it is being deleted. *)
Lemma subtree_stable root l d :
  let d3 := delete_data_where (λ k, in_subtree l k.1) d in
  let d4 := delete_symlink_where (in_subtree l) d3 in
  subtree root d3 = subtree root d ∧ subtree root d4 = subtree root d ∧
  subtree root (delete_inode_where (in_subtree l) d4) = subtree root d.
Proof.
  intros d3 d4. assert (H3 : fs_dentry d3 = fs_dentry d) by (unfold d3; by autorewrite with secafs_db).
  assert (S3 : fs_dentry d4 = fs_dentry d3) by apply symlink_where_frame.
  assert (I3 : fs_dentry (delete_inode_where (in_subtree l) d4) = fs_dentry d4)
    by apply inode_where_frame.
  split_and!; apply subtree_ext; congruence.
Qed.

Context {E : Env} {HQ : Quiet E}.
Implicit Types s : state.

Lemma wp_destroy id root s :
  txn s = None → fs_volumes (volumes (cur s)) !! id = Some root → root ≠ ROOT_INO →
  links (fs_dentry (cur s)) ROOT_INO = 0 → forest (cur s) →
  wp (Volume.destroy id) s (λ r s', r = Ok true ∧ db_step s s' ∧
    removed (below (cur s) root) (cur s) (cur s') ∧ fs_volumes (volumes (cur s')) !! id = None).
Proof.
  intros Ht Hv Hne Hl Hf. pose proof (no_txn_aborted s Ht) as Hab.
  unfold Volume.destroy, Volume.expect_integer. wp_steps. unfold select_root. rewrite Hv. row_steps.
  cbn [as_integer]. row_steps. st.
  set (d1 := delete_volume_row id (cur s)). fold (unnamed root d1). set (d2 := unnamed root d1).
  destruct (subtree_terminates d2 root) as [l Hsub]; [by apply forest_unnamed|].
  destruct (subtree_stable root l d2) as (Hs3 & Hs4 & Hs5).
  eapply wp_execute; [by st|by st; rewrite Hsub|]. st.
  apply wp_bind. eapply wp_execute; [by st|st; by rewrite Hs3, Hsub|]. st.
  apply wp_bind. eapply wp_execute; [by st|st; by rewrite Hs4, Hsub|]. st.
  apply wp_bind. eapply wp_execute; [by st|st; by rewrite Hs5, Hsub|]. st.
  wp_steps. st. split; [done|]. split; [by auto 20|]. split.
  - apply (destroyed_removed _ _ root _ d1); try done; [|apply rtc_refl].
    intros i. unfold in_subtree. rewrite bool_decide_eq_false.
    rewrite (elem_of_subtree_from _ _ _ _ i Hsub). apply not_iff_compat.
    change (below (cur s) root i) with (below d1 root i).
    rewrite <- (below_unnamed d1 root i Hne Hl). split; [by intros (r & ->%list_elem_of_singleton & ?)|].
    intros Hb. exists root. split; [by apply list_elem_of_singleton|done].
  - apply (unregistered_frame id l root d1). simpl. apply lookup_delete_eq.
Qed.
End destroy.

(** ** Creating *)

Section ensure.
Context {E : Env} {HQ : Quiet E}.
Implicit Types s : state.

(** Row insertions as the databases they produce. *)
Lemma wp_insert_inode_row r s Q :
  aborted s = false → fs_inode (cur s) !! (seq_ino s + 1) = None →
  Q (Ok [Integer (seq_ino s + 1)])
    (set_cur (fs_inode_capture_undo UInsert (seq_ino s + 1) None
       (set_fs_inode (<[seq_ino s + 1:=r]> (fs_inode (cur s))) (cur s)))
       (set_seqs (seq_ino s + 1) (seq_dentry s) (tick s))) →
  wp (insert_inode r) s Q.
Proof.
  intros Hab Hf HQ'. unfold insert_inode. eapply wp_stmt; [done| |exact HQ']. st.
  unfold insert_inode_row. by rewrite Hf.
Qed.
Lemma wp_insert_dentry_row n p ino s Q :
  aborted s = false → dentry_id_taken (seq_dentry s + 1) (cur s) = false →
  fs_dentry (cur s) !! (p, n) = None →
  Q (Ok tt)
    (set_cur (fs_dentry_capture_undo UInsert (seq_dentry s + 1) None
       (set_fs_dentry (<[(p, n):=mkDentry (seq_dentry s + 1) ino]> (fs_dentry (cur s))) (cur s)))
       (set_seqs (seq_ino s) (seq_dentry s + 1) (tick s))) →
  wp (insert_dentry n p ino) s Q.
Proof.
  intros Hab Hid Hf HQ'. unfold insert_dentry. eapply wp_stmt; [done| |exact HQ']. st.
  unfold insert_dentry_row. by rewrite Hid, Hf.
Qed.

(** What creating a volume does. *)
Record ensured (id : string) (t : Z * Z) (s s' : state) : Prop := {
  en_txn : txn s' = None;
  en_cache : cache s' = cache s;
  en_seq_ino : seq_ino s' = seq_ino s + 1;
  en_seq_dentry : seq_dentry s' = seq_dentry s + 1;
  en_inode : fs_inode (cur s') =
    <[seq_ino s + 1:=new_inode DEFAULT_DIR_MODE 2 env_uid env_gid 0 0 t]> (fs_inode (cur s));
  en_dentry : fs_dentry (cur s') =
    <[(1, id):=mkDentry (seq_dentry s + 1) (seq_ino s + 1)]> (fs_dentry (cur s));
  en_data : fs_data (cur s') = fs_data (cur s);
  en_symlink : fs_symlink (cur s') = fs_symlink (cur s);
  en_volumes : fs_volumes (volumes (cur s')) = <[id:=seq_ino s + 1]> (fs_volumes (volumes (cur s)));
}.

Lemma wp_ensure_new id s :
  txn s = None → fresh_ids s → fs_volumes (volumes (cur s)) !! id = None →
  fs_dentry (cur s) !! (1, id) = None →
  wp (Volume.ensure id) s (λ r s', ∃ t, r = Ok (seq_ino s + 1) ∧ ensured id t s s').
Proof.
  intros Ht Hfr Hv Hn. pose proof (no_txn_aborted s Ht) as Hab.
  assert (Hcur : cur s = committed s) by (unfold cur; by rewrite Ht).
  unfold Volume.ensure, Volume.expect_integer. wp_steps. unfold select_root. rewrite Hv.
  apply wp_bind, wp_begin; [done|]. wp_steps.
  apply wp_insert_inode_row; [done|st; rewrite <- Hcur; apply Hfr; lia|]. st.
  row_steps. cbn [as_integer]. row_steps. st.
  apply wp_insert_dentry_row; [by st| |by st; simpl; rewrite <- Hcur|].
  { st. apply dentry_id_free. simpl. rewrite <- Hcur. intros k e Hk.
    pose proof (fresh_dentry _ Hfr k e Hk). lia. }
  st. row_steps.
  eapply wp_execute; [by st| |].
  { st. unfold insert_volume_row. simpl. rewrite <- Hcur, Hv, lookup_insert_eq. done. }
  st. apply wp_bind. eapply wp_commit; [by st|]. wp_steps. eexists. split; [done|].
  split; st; simpl; rewrite ?Hcur; done.
Qed.

Lemma ensured_inv id t s s' :
  sys_inv s → fs_dentry (cur s) !! (1, id) = None → ensured id t s s' → sys_inv s'.
Proof.
  intros [Ht Hf Htr Hc] Hn [H1 H2 H3 H4 H5 H6 H7 H8 _].
  assert (Hnew : fs_inode (cur s) !! (seq_ino s + 1) = None) by (apply Hf; lia).
  split; [done| | |].
  - apply (fresh_ids_step s); rewrite ?H3, ?H4, ?H5, ?H6, ?H7, ?H8; try done; try lia.
    + intros i Hi Hnone. rewrite lookup_insert_ne by lia. done.
    + intros k e [[<- <-]|[_ Hk]]%lookup_insert_Some; simpl; [right; lia|left; eauto].
  - rewrite H5, H6. apply tree_create; try done. apply Htr.
  - rewrite H2, H6. by apply coherent_free.
Qed.

(** A second call. *)
Lemma wp_ensure_again id root s :
  txn s = None → fs_volumes (volumes (cur s)) !! id = Some root →
  wp (Volume.ensure id) s (λ r s', r = Ok root ∧ s' = tick s).
Proof.
  intros Ht Hv. pose proof (no_txn_aborted s Ht) as Hab.
  unfold Volume.ensure, Volume.expect_integer. wp_steps. unfold select_root. rewrite Hv.
  row_steps. by cbn [as_integer]; row_steps.
Qed.

(** [volume::ensure] of a new id creates an empty directory for it under the global root,
    registers it, keeps the system invariant and touches no existing file; calling it again
    returns the same root and changes nothing. *)
Theorem ensure_creates_volume id s :
  sys_inv s → fs_volumes (volumes (cur s)) !! id = None → child (cur s) 1 id = None →
  ∃ root s', Volume.ensure id s = (Ok root, s') ∧ sys_inv s' ∧
    fs_volumes (volumes (cur s')) !! id = Some root ∧ child (cur s') 1 id = Some root ∧
    dir_row (fs_inode (cur s')) root ∧ children root (cur s') = [] ∧
    (∀ i r, fs_inode (cur s) !! i = Some r → fs_inode (cur s') !! i = Some r) ∧
    fs_data (cur s') = fs_data (cur s) ∧
    ∃ s'', Volume.ensure id s' = (Ok root, s'') ∧ cur s'' = cur s'.
Proof.
  intros Hinv Hv Hc. pose proof (proj1 (child_None _ _ _) Hc) as Hn.
  pose proof Hinv as [Ht Hf Htr Hca].
  destruct (wp_intro _ _ _ (wp_ensure_new id s Ht Hf Hv Hn)) as (r & s' & Hrun & t & -> & Hen).
  pose proof (ensured_inv id t s s' Hinv Hn Hen) as Hinv'. exists (seq_ino s + 1), s'.
  destruct Hen as [H1 _ _ _ H5 H6 H7 _ H9].
  assert (Hnew : fs_inode (cur s) !! (seq_ino s + 1) = None) by (apply Hf; lia).
  split_and!; [done|done|by rewrite H9, lookup_insert_eq| | | | |done|].
  - unfold child. rewrite H6, lookup_insert_eq. done.
  - rewrite H5. eexists. rewrite lookup_insert_eq. done.
  - destruct (children _ _) as [|[n i] l] eqn:Hch; [done|].
    assert (Hin : (n, i) ∈ children (seq_ino s + 1) (cur s')) by (rewrite Hch; by left).
    apply elem_of_child_rows in Hin as (e & He & _). rewrite H6 in He.
    apply lookup_insert_Some in He as [[Heq _]|[_ He]].
    + simplify_eq. destruct (ti_root _ _ Htr) as (rr & Hrr & _). unfold ROOT_INO in Hrr. congruence.
    + destruct (ti_parent _ _ Htr _ _ He) as (rr & Hrr & _). simpl in Hrr. congruence.
  - intros i r Hr. rewrite H5, lookup_insert_ne by congruence. done.
  - destruct (wp_intro _ _ _ (wp_ensure_again id (seq_ino s + 1) s' H1 ltac:(by rewrite H9, lookup_insert_eq)))
      as (r & s'' & Hrun' & -> & ->). eexists. split; [done|done].
Qed.

(** [volume::ensure] does not roll back: when the id is already the name of a file under
    the global root, it fails and leaves the connection inside an aborted transaction, so
    that every later statement on it fails. *)
Theorem ensure_leaks_transaction id i s :
  sys_inv s → fs_volumes (volumes (cur s)) !! id = None → child (cur s) 1 id = Some i →
  ∃ s', Volume.ensure id s = (Err EPostgres, s') ∧ committed s' = committed s ∧
    aborted s' = true ∧ ∀ A (f : db → A), (query f s').1 = Err EPostgres.
Proof.
  intros [Ht Hf Htr _] Hv Hc. pose proof (no_txn_aborted s Ht) as Hab.
  assert (Hcur : cur s = committed s) by (unfold cur; by rewrite Ht).
  apply fmap_Some in Hc as (e & He & _).
  assert (Hw : wp (Volume.ensure id) s (λ r s', r = Err EPostgres ∧
    committed s' = committed s ∧ aborted s' = true)).
  { unfold Volume.ensure, Volume.expect_integer. wp_steps. unfold select_root. rewrite Hv.
    apply wp_bind, wp_begin; [done|]. wp_steps.
    apply wp_insert_inode_row; [done|st; rewrite <- Hcur; apply Hf; lia|]. st.
    row_steps. cbn [as_integer]. row_steps. st.
    unfold insert_dentry, wp, stmt. rewrite quiet_fault. st. cbn [orb].
    unfold insert_dentry_row. simpl. rewrite <- Hcur, He. by destruct (dentry_id_taken _ _). }
  destruct (wp_err _ _ _ _ Hw) as (s' & Hrun & Hc' & Hab'). exists s'.
  split_and!; [done|done|done|]. intros A f. unfold query, stmt. by rewrite Hab', orb_true_r.
Qed.
End ensure.

Section destroy_volume.
Context {E : Env} {HQ : Quiet E}.

(** C38. [volume::destroy] of a volume in a tree without cycles succeeds and removes exactly the
    inodes reachable from the volume's root, with their chunks, link targets and every
    directory entry in them or to them (hard links from outside the volume included); the
    rest of the name space is untouched and stays consistent, and the id is free again. *)
Theorem destroy_removes_volume id root (s : state) :
  txn s = None → tree_inv (fs_inode (cur s)) (fs_dentry (cur s)) → forest (cur s) →
  fs_volumes (volumes (cur s)) !! id = Some root → root ≠ ROOT_INO →
  ∃ s', Volume.destroy id s = (Ok true, s') ∧ removed (below (cur s) root) (cur s) (cur s') ∧
    tree_inv (fs_inode (cur s')) (fs_dentry (cur s')) ∧
    fs_volumes (volumes (cur s')) !! id = None ∧
    ∃ s'', Volume.destroy id s' = (Ok false, s'') ∧ cur s'' = cur s'.
Proof.
  intros Ht Htr Hf Hv Hne.
  destruct (wp_ok _ _ _ _ (wp_destroy id root s Ht Hv Hne (ti_root_unnamed _ _ Htr) Hf))
    as (s' & Hrun & Hs & Hrm & Hv'). exists s'. split_and!; [done|done| |done|].
  - eapply removed_tree; [done| | |done].
    + intros p i Hc Hb. by eapply rtc_r.
    + intros Hb. eapply (below_root (cur s) root); [done|apply Htr|done|done].
  - assert (Ht' : aborted s' = false) by (rewrite (db_step_aborted _ _ Hs); by apply no_txn_aborted).
    assert (Hw : wp (Volume.destroy id) s' (λ r s'', r = Ok false ∧ cur s'' = cur s')).
    { unfold Volume.destroy. wp_steps. unfold select_root. rewrite Hv'. by wp_steps. }
    by apply wp_ok in Hw.
Qed.
End destroy_volume.

(** ** On sample file systems *)

Lemma ensure_creates_volume_witness :
  ∃ root s', Volume.ensure "vol" demo = (Ok root, s') ∧ child (cur s') 1 "vol" = Some root.
Proof.
  destruct (ensure_creates_volume "vol" demo demo_inv) as (root & s' & Hrun & _ & _ & Hc & _).
  - by vm_compute.
  - by vm_compute.
  - exists root, s'. split; [exact Hrun|exact Hc].
Defined.
Lemma ensure_leaks_transaction_witness :
  ∃ s', Volume.ensure "f" demo = (Err EPostgres, s') ∧ aborted s' = true.
Proof.
  destruct (ensure_leaks_transaction "f" 2 demo demo_inv) as (s' & Hrun & _ & Hab & _).
  - by vm_compute.
  - by vm_compute.
  - exists s'. split; [exact Hrun|exact Hab].
Defined.

(** The sample volume with a directory and a file in it. *)
Definition filled : @state calm_env :=
  ((Path.mkdir "/vol/d" 0 0 ≫= λ _, Path.pwrite (mkSecAFS 4096) "/vol/d/f" 0 [x61]) mounted).2.
Definition depth_of (i : Z) : nat := if decide (i = 1) then 3 else if decide (i = 2) then 2 else if decide (i = 3) then 1 else 0.
Lemma forest_check (depth : Z → nat) d :
  map_Forall (λ k e, depth (d_ino e) < depth k.1)%nat (fs_dentry d) → forest d.
Proof. intros Hd. exists depth. intros p i (n & e & He & <-). by apply (Hd (p, n) e). Qed.
Lemma filled_forest : forest (cur filled).
Proof. apply (forest_check depth_of). refine (bool_decide_eq_true_1 _ _). by vm_compute. Qed.
Lemma filled_tree : tree_inv (fs_inode (cur filled)) (fs_dentry (cur filled)).
Proof. apply tree_check_sound. by vm_compute. Qed.
Lemma filled_facts : txn filled = None ∧ fs_volumes (volumes (cur filled)) !! "vol" = Some 2 ∧
  child (cur filled) 2 "d" = Some 3 ∧ child (cur filled) 3 "f" = Some 4.
Proof. split_and!; by vm_compute. Qed.
Lemma destroy_removes_volume_witness :
  ∃ s', Volume.destroy "vol" filled = (Ok true, s') ∧ removed (below (cur filled) 2) (cur filled) (cur s').
Proof.
  destruct filled_facts as (Ht & Hv & _).
  destruct (destroy_removes_volume "vol" 2 filled Ht filled_tree filled_forest Hv) as (s' & Hrun & Hr & _).
  - unfold ROOT_INO. lia.
  - exists s'. split; [exact Hrun|exact Hr].
Defined.
