(* ===== verification/Overlay.v ===== *)
(** * The overlay file system

    [OverlayFS] of [sdk/rust/src/filesystem/overlayfs.rs]: a writable SecAFS, the delta, over a
    read-only file system, the base.  It keeps maps between its own inode numbers and those
    of the layers in memory, and the paths deleted from the base and the origins of copied
    files both in memory and in tables of the delta's database.

    The base is a [dyn FileSystem]: the class [BaseFS] has the operations the overlay calls on
    it.  It is read-only, so an operation is the value it returns. *)

From S2P Require Import Prelude Types Tables Monad Instances Sql File Paths SecafsInode Setup.

#[local] Open Scope string_scope.
#[local] Open Scope list_scope.
#[local] Open Scope Z_scope.

(** ** The base layer *)

(** The operations of the trait [FileSystem] the overlay calls on its base; [base_open] with
    [O_RDONLY] gives the [pread] of the file. *)
Class BaseFS := {
  base_lookup : Z → string → outcome (option Stats);
  base_getattr : Z → outcome (option Stats);
  base_readlink : Z → outcome (option string);
  base_readdir : Z → outcome (option (list string));
  base_readdir_plus : Z → outcome (option (list DirEntry));
  base_open : Z → outcome (Z → Z → outcome (list byte));
}.

(** ** State *)

Inductive Layer := Delta | Base.
#[global] Instance Layer_eq_dec : EqDecision Layer.
Proof. solve_decision. Defined.
#[global] Instance Layer_countable : Countable Layer.
Proof.
  refine (inj_countable' (λ l, match l with Delta => true | Base => false end)
    (λ b : bool, if b then Delta else Base) _). by intros [].
Defined.

Record InodeInfo := mkInfo {
  layer : Layer;
  underlying_ino : Z;
  info_path : string;
}.

Record overlay_maps := mkMaps {
  inode_map : gmap Z InodeInfo;
  reverse_map : gmap (Layer * Z) Z;
  path_map : gmap string Z;
  next_ino : Z;
  whiteouts : gset string;
  origin_map : gmap Z Z;
}.

Definition set_whiteouts (w : gset string) (o : overlay_maps) : overlay_maps :=
  mkMaps (inode_map o) (reverse_map o) (path_map o) (next_ino o) w (origin_map o).
Definition set_origin_map (m : gmap Z Z) (o : overlay_maps) : overlay_maps :=
  mkMaps (inode_map o) (reverse_map o) (path_map o) (next_ino o) (whiteouts o) m.
Definition set_inode_maps (im : gmap Z InodeInfo) (rm : gmap (Layer * Z) Z) (o : overlay_maps) :
    overlay_maps :=
  mkMaps im rm (path_map o) (next_ino o) (whiteouts o) (origin_map o).

(** [OverlayFS::new] *)
Definition new : overlay_maps :=
  mkMaps {[ ROOT_INO := mkInfo Delta 1 "/" ]} {[ (Delta, 1) := ROOT_INO ]} {[ "/" := ROOT_INO ]}
    2 ∅ ∅.

(** ** Paths *)

(** [format!("{}/{}", dir, name)], or [/name] under the root. *)
Definition child_path (dir name : string) : string :=
  if decide (dir = "/") then "/" +:+ name else dir +:+ "/" +:+ name.
(** The loop of [is_whiteout]: a prefix of the path is whited out. *)
Fixpoint whited (w : gset string) (current : string) (cs : list string) : bool :=
  match cs with
  | [] => false
  | c :: cs =>
      let current := current +:+ "/" +:+ c in
      bool_decide (current ∈ w) || whited w current cs
  end.
(** [p.trim_start_matches('/')] *)
Fixpoint trim_start (s : string) : string :=
  match s with String c s' => if is_slash c then trim_start s' else s | EmptyString => s end.
(** [&p[prefix.len()..]] *)
Fixpoint skip (n : nat) (s : string) : string :=
  match n, s with S n, String _ s => skip n s | _, _ => s end.
Definition child_whiteout (dir_path p : string) : option string :=
  if decide (dir_path = "/") then
    let trimmed := trim_start p in
    if no_slash trimmed then Some trimmed else None
  else
    let prefix := dir_path +:+ "/" in
    if starts_with prefix p then
      let rest := skip (String.length prefix) p in
      if no_slash rest then Some rest else None
    else None.

(** The order of [sort] on strings. *)
Definition str_le (a b : string) : Prop := bytewise a b = true.
#[global] Instance str_le_dec : RelDecision str_le.
Proof. intros a b. unfold str_le. apply _. Defined.
#[global] Instance str_le_trans : Transitive str_le.
Proof. intros x y z. apply bytewise_trans. Qed.
#[global] Instance str_le_total : Total str_le.
Proof. intros x y. apply bytewise_total. Qed.
Definition entry_le (a b : DirEntry) : Prop := str_le (de_name a) (de_name b).
#[global] Instance entry_le_dec : RelDecision entry_le.
Proof. intros a b. unfold entry_le. apply _. Defined.

(** [stats.ino = ino] *)
Definition with_ino (ino : Z) (s : Stats) : Stats :=
  mkStats ino (st_mode s) (st_nlink s) (st_uid s) (st_gid s) (st_size s) (st_atime s) (st_mtime s)
    (st_ctime s) (st_atime_nsec s) (st_mtime_nsec s) (st_ctime_nsec s) (st_rdev s).

(** ** Effects *)

(** An operation of the overlay: the maps and the delta's state are threaded, also through
    errors. *)
Definition O {E : Env} (A : Type) : Type :=
  overlay_maps * state → outcome A * (overlay_maps * state).

Section effects.
Context {E : Env}.

#[global] Instance O_ret : MRet O := λ A a s, (Ok a, s).
#[global] Instance O_bind : MBind O := λ A B k m s,
  match m s with
  | (Ok a, s') => k a s'
  | (Err e, s') => (Err e, s')
  | (Panic, s') => (Panic, s')
  end.

(** A call on the delta, a call on the base, an access to the maps. *)
Definition lift {A} (m : M A) : O A := λ s, let '(r, s') := m s.2 in (r, (s.1, s')).
Definition on_base {A} (r : outcome A) : O A := λ s, (r, s).
Definition gets {A} (f : overlay_maps → A) : O A := λ s, (Ok (f s.1), s).
Definition modify (f : overlay_maps → overlay_maps) : O unit := λ s, (Ok tt, (f s.1, s.2)).
Definition ofail {A} (e : FsError) : O A := λ s, (Err (EFs e), s).
Definition or_not_found {A} (o : option A) : O A :=
  match o with Some a => mret a | None => ofail NotFound end.
End effects.

(** ** Row writes and queries of the overlay's tables *)

Definition upsert_whiteout (path : string) (t : Z) (d : db) : db :=
  set_overlay (mkOverlay (<[path:=t]> (fs_whiteout (overlay d))) (fs_overlay_config (overlay d))
    (fs_origin (overlay d))) d.
Definition delete_whiteout (path : string) (d : db) : db :=
  set_overlay (mkOverlay (delete path (fs_whiteout (overlay d))) (fs_overlay_config (overlay d))
    (fs_origin (overlay d))) d.
Definition upsert_origin (delta_ino base_ino : Z) (d : db) : db :=
  set_overlay (mkOverlay (fs_whiteout (overlay d)) (fs_overlay_config (overlay d))
    (<[delta_ino:=base_ino]> (fs_origin (overlay d)))) d.
Definition upsert_overlay_config (k v : string) (d : db) : db :=
  set_overlay (mkOverlay (fs_whiteout (overlay d)) (<[k:=v]> (fs_overlay_config (overlay d)))
    (fs_origin (overlay d))) d.
Definition select_whiteouts (d : db) : list DbRow :=
  (λ kv, [Text kv.1]) <$> map_to_list (fs_whiteout (overlay d)).
Definition select_origins (d : db) : list DbRow :=
  (λ kv, [Integer kv.1; Integer kv.2]) <$> map_to_list (fs_origin (overlay d)).

Module Ov.
Section overlay.
Context {E : Env} {B : BaseFS} (fs : SecAFS).

(** ** Persistence *)

Definition init_schema (base_path : string) : M unit :=
  ddls 2 ≫= λ _,
  execute_ (upsert_overlay_config "base_path" base_path) ≫= λ _,
  ddl.
Definition load_whiteouts : O unit :=
  rows ← lift (query select_whiteouts);
  let paths := omap (λ row, text_opt row 0) rows in
  modify (λ o, set_whiteouts (foldl (λ w p, {[ p ]} ∪ w) (whiteouts o) paths) o).
(** [let result = conn.query(..).await; if let Ok(mut rows) = result { .. }] *)
Definition load_origins : O unit :=
  result ← lift (attempt (query select_origins));
  match result with
  | Ok rows =>
      let mappings := omap (λ row, d ← int_opt row 0; b ← int_opt row 1; Some (d, b)) rows in
      modify (λ o, set_origin_map (foldl (λ m p, <[p.1:=p.2]> m) (origin_map o) mappings) o)
  | _ => mret tt
  end.
Definition init (base_path : string) : O unit :=
  lift get_connection ≫= λ _,
  lift (init_schema base_path) ≫= λ _,
  load_whiteouts ≫= λ _,
  load_origins.
Definition load : O unit :=
  lift get_connection ≫= λ _,
  load_whiteouts ≫= λ _,
  load_origins.

Definition load_whiteouts_public : O unit := lift get_connection ≫= λ _, load_whiteouts.

(** ** Whiteouts *)

Definition is_whiteout (path : string) : O bool :=
  gets (λ o, whited (whiteouts o) "" (components path)).
Definition create_whiteout (path : string) : O unit :=
  lift get_connection ≫= λ _,
  t ← lift now;
  lift (execute_ (upsert_whiteout path (Int.i64 t.1))) ≫= λ _,
  modify (λ o, set_whiteouts ({[ path ]} ∪ whiteouts o) o).
Definition remove_whiteout (path : string) : O unit :=
  present ← gets (λ o, bool_decide (path ∈ whiteouts o));
  if negb present then mret tt else
  lift get_connection ≫= λ _,
  lift (execute_ (delete_whiteout path)) ≫= λ _,
  modify (λ o, set_whiteouts (whiteouts o ∖ {[ path ]}) o).
Definition get_child_whiteouts (dir_path : string) : O (gset string) :=
  gets (λ o, list_to_set (omap (child_whiteout dir_path) (elements (whiteouts o)))).

(** ** Inode numbers *)

(** [alloc_ino]: [fetch_add] wraps. *)
Definition get_or_create_overlay_ino (l : Layer) (u : Z) (path : string) : O Z := λ s,
  match reverse_map s.1 !! (l, u) with
  | Some ino => (Ok ino, s)
  | None =>
      let ino := next_ino s.1 in
      (Ok ino, (mkMaps (<[ino:=mkInfo l u path]> (inode_map s.1)) (<[(l, u):=ino]> (reverse_map s.1))
                  (<[path:=ino]> (path_map s.1)) (Int.i64 (ino + 1)) (whiteouts s.1) (origin_map s.1), s.2))
  end.
Definition get_inode_info (ino : Z) : O (option InodeInfo) := gets (λ o, inode_map o !! ino).
(** [self.get_inode_info(ino).ok_or(FsError::NotFound)?] *)
Definition known (ino : Z) : O InodeInfo := i ← get_inode_info ino; or_not_found i.
Definition build_path (parent_ino : Z) (name : string) : O string :=
  info ← known parent_ino; mret (child_path (info_path info) name).
Definition add_origin_mapping (delta_ino base_ino : Z) : O unit :=
  lift get_connection ≫= λ _,
  lift (execute_ (upsert_origin delta_ino base_ino)) ≫= λ _,
  modify (λ o, set_origin_map (<[delta_ino:=base_ino]> (origin_map o)) o).
Definition get_origin_ino (delta_ino : Z) : O (option Z) := gets (λ o, origin_map o !! delta_ino).
Definition promoted (path : string) (delta_ino : Z) (o : overlay_maps) : overlay_maps :=
  match path_map o !! path with
  | None => o
  | Some overlay_ino =>
      match inode_map o !! overlay_ino with
      | Some (mkInfo Base old_base_ino p) =>
          set_inode_maps (<[overlay_ino:=mkInfo Delta delta_ino p]> (inode_map o))
            (<[(Delta, delta_ino):=overlay_ino]> (delete (Base, old_base_ino) (reverse_map o))) o
      | _ => o
      end
  end.
Definition promote_to_delta (path : string) (delta_ino : Z) : O unit := modify (promoted path delta_ino).

(** ** Walking the layers *)

(** [for comp in .. { if let Some(s) = delta.lookup(ino, comp).await? { ino = s.ino } else {
    found_all = false; break } }] *)
Fixpoint walk_delta (cs : list string) (ino : Z) : O (option Z) :=
  match cs with
  | [] => mret (Some ino)
  | c :: cs =>
      s ← lift (Fs.lookup ino c);
      match s with Some s => walk_delta cs (st_ino s) | None => mret None end
  end.
Fixpoint walk_base (cs : list string) (ino : Z) : O (option Z) :=
  match cs with
  | [] => mret (Some ino)
  | c :: cs =>
      s ← on_base (base_lookup ino c);
      match s with Some s => walk_base cs (st_ino s) | None => mret None end
  end.
(** The loop without an [else]: a component that is missing is skipped. *)
Fixpoint walk_delta_skip (cs : list string) (ino : Z) : O Z :=
  match cs with
  | [] => mret ino
  | c :: cs =>
      s ← lift (Fs.lookup ino c);
      match s with Some s => walk_delta_skip cs (st_ino s) | None => walk_delta_skip cs ino end
  end.
(** The delta inode of a directory of the overlay. *)
Definition delta_parent (info : InodeInfo) : O Z :=
  match layer info with
  | Delta => mret (underlying_ino info)
  | Base => walk_delta_skip (components (info_path info)) 1
  end.
(** The base inode of a directory of the overlay, if the base has one at its path. *)
Definition base_parent (info : InodeInfo) : O (option Z) :=
  match layer info with
  | Base => mret (Some (underlying_ino info))
  | Delta => walk_base (components (info_path info)) 1
  end.

(** ** Copying up *)

Fixpoint ensure_dirs (cs : list string) (current_path : string) (delta_ino base_ino uid gid : Z) : O unit :=
  match cs with
  | [] => mret tt
  | c :: cs =>
      let current_path := current_path +:+ "/" +:+ c in
      remove_whiteout current_path ≫= λ _,
      stats ← lift (Fs.lookup delta_ino c);
      match stats with
      | Some stats =>
          if is_directory stats then
            bs ← on_base (base_lookup base_ino c);
            ensure_dirs cs current_path (st_ino stats)
              (from_option st_ino base_ino bs) uid gid
          else ofail NotADirectory
      | None =>
          base_stats ← on_base (base_lookup base_ino c);
          let '(dir_uid, dir_gid, next_base) :=
            match base_stats with
            | Some s => (st_uid s, st_gid s, st_ino s)
            | None => (uid, gid, base_ino)
            end in
          new_stats ← lift (Fs.mkdir delta_ino c 0x1ed dir_uid dir_gid);
          match base_stats with
          | Some s =>
              add_origin_mapping (st_ino new_stats) (st_ino s) ≫= λ _,
              promote_to_delta current_path (st_ino new_stats)
          | None => mret tt
          end ≫= λ _,
          ensure_dirs cs current_path (st_ino new_stats) next_base uid gid
      end
  end.
Definition ensure_parent_dirs (path : string) (uid gid : Z) : O unit :=
  ensure_dirs (removelast (components path)) "" 1 1 uid gid.

(** The copy itself, by the type of the base file. *)
Definition copy_file (parent_ino : Z) (name : string) (base_ino : Z) (base_stats : Stats) : O Z :=
  if is_symlink base_stats then
    target ← on_base (base_readlink base_ino);
    target ← or_not_found target;
    stats ← lift (Fs.symlink parent_ino name target (st_uid base_stats) (st_gid base_stats));
    mret (st_ino stats)
  else if is_directory base_stats then
    stats ← lift (Fs.mkdir parent_ino name (Z.land (st_mode base_stats) 0xfff)
      (st_uid base_stats) (st_gid base_stats));
    mret (st_ino stats)
  else
    base_file ← on_base (base_open base_ino);
    content ← on_base (base_file 0 (Int.u64 (st_size base_stats)));
    r ← lift (Fs.create_file fs parent_ino name (st_mode base_stats) (st_uid base_stats)
      (st_gid base_stats));
    lift (pwrite r.2 0 content) ≫= λ _,
    mret (st_ino r.1).

Definition copy_up (path : string) (base_ino : Z) : O Z :=
  let comps := components path in
  match last comps with
  | None => ofail RootOperation
  | Some name =>
      found ← walk_delta (removelast comps) 1;
      existing ← match found with
                 | Some parent_ino => lift (Fs.lookup parent_ino name)
                 | None => mret None
                 end;
      match existing with
      | Some stats => mret (st_ino stats)
      | None =>
          base_stats ← on_base (base_getattr base_ino);
          base_stats ← or_not_found base_stats;
          ensure_parent_dirs path (st_uid base_stats) (st_gid base_stats) ≫= λ _,
          parent ← walk_delta (removelast comps) 1;
          parent_ino ← or_not_found parent;
          delta_ino ← copy_file parent_ino name base_ino base_stats;
          add_origin_mapping delta_ino base_ino ≫= λ _,
          mret delta_ino
      end
  end.
Definition copy_up_and_update_mapping (overlay_ino : Z) (info : InodeInfo) : O Z :=
  delta_ino ← copy_up (info_path info) (underlying_ino info);
  modify (λ o, set_inode_maps
    (<[overlay_ino:=mkInfo Delta delta_ino (info_path info)]> (inode_map o))
    (<[(Delta, delta_ino):=overlay_ino]> (reverse_map o)) o) ≫= λ _,
  mret delta_ino.
(** [match info.layer { Delta => info.underlying_ino, Base => copy_up_and_update_mapping }] *)
Definition writable (ino : Z) : O Z :=
  info ← known ino;
  match layer info with
  | Delta => mret (underlying_ino info)
  | Base => copy_up_and_update_mapping ino info
  end.

(** ** [impl FileSystem for OverlayFS] *)

Definition lookup (parent_ino : Z) (name : string) : O (option Stats) :=
  parent_info ← known parent_ino;
  path ← build_path parent_ino name;
  hidden ← is_whiteout path;
  if hidden : bool then mret None else
  delta_parent_ino ← match layer parent_info with
                     | Delta => mret (Some (underlying_ino parent_info))
                     | Base => walk_delta (components (info_path parent_info)) 1
                     end;
  delta_stats ← match delta_parent_ino with
                | Some ino => lift (Fs.lookup ino name)
                | None => mret None
                end;
  match delta_stats with
  | Some stats =>
      ino ← get_or_create_overlay_ino Delta (st_ino stats) path;
      origin ← get_origin_ino (st_ino stats);
      match origin with
      | Some base_ino =>
          ino ← get_or_create_overlay_ino Base base_ino path;
          mret (Some (with_ino ino stats))
      | None => mret (Some (with_ino ino stats))
      end
  | None =>
      base_parent_ino ← base_parent parent_info;
      match base_parent_ino with
      | None => mret None
      | Some base_parent_ino =>
          base_stats ← on_base (base_lookup base_parent_ino name);
          match base_stats with
          | Some stats =>
              ino ← get_or_create_overlay_ino Base (st_ino stats) path;
              mret (Some (with_ino ino stats))
          | None => mret None
          end
      end
  end.

Definition getattr (ino : Z) : O (option Stats) :=
  info ← get_inode_info ino;
  match info with
  | None => mret None
  | Some info =>
      stats ← match layer info with
              | Delta => lift (Fs.getattr (underlying_ino info))
              | Base => on_base (base_getattr (underlying_ino info))
              end;
      mret (with_ino ino <$> stats)
  end.

Definition readlink (ino : Z) : O (option string) :=
  info ← known ino;
  match layer info with
  | Delta => lift (Fs.readlink (underlying_ino info))
  | Base => on_base (base_readlink (underlying_ino info))
  end.

(** Whether an entry of the base is shown. *)
Definition shown (info : InodeInfo) (child_whiteouts : gset string) (o : overlay_maps) (name : string) : bool :=
  negb (whited (whiteouts o) "" (components (child_path (info_path info) name))) &&
  negb (bool_decide (name ∈ child_whiteouts)).

Definition readdir (ino : Z) : O (option (list string)) :=
  info ← known ino;
  child_whiteouts ← get_child_whiteouts (info_path info);
  delta_entries ← match layer info with
                  | Delta => l ← lift (Fs.readdir (underlying_ino info)); mret (default [] l)
                  | Base => mret []
                  end;
  base_ino ← base_parent info;
  base_entries ← match base_ino with
                 | Some base_ino =>
                     l ← on_base (base_readdir base_ino);
                     keep ← gets (shown info child_whiteouts);
                     mret (filter (λ n, keep n = true) (default [] l))
                 | None => mret []
                 end;
  let entries : gset string := list_to_set delta_entries ∪ list_to_set base_entries in
  mret (Some (merge_sort str_le (elements entries))).

(** The loops of [readdir_plus]: [entries_map.insert(name, entry)], with the overlay's inode. *)
Fixpoint add_base_entries (info : InodeInfo) (child_whiteouts : gset string) (es : list DirEntry)
    (m : gmap string DirEntry) : O (gmap string DirEntry) :=
  match es with
  | [] => mret m
  | e :: es =>
      keep ← gets (shown info child_whiteouts);
      if keep (de_name e) : bool then
        ino ← get_or_create_overlay_ino Base (st_ino (de_stats e)) (child_path (info_path info) (de_name e));
        add_base_entries info child_whiteouts es
          (<[de_name e:=mkDirEntry (de_name e) (with_ino ino (de_stats e))]> m)
      else add_base_entries info child_whiteouts es m
  end.
Fixpoint add_delta_entries (info : InodeInfo) (es : list DirEntry) (m : gmap string DirEntry) :
    O (gmap string DirEntry) :=
  match es with
  | [] => mret m
  | e :: es =>
      let path := child_path (info_path info) (de_name e) in
      origin ← get_origin_ino (st_ino (de_stats e));
      ino ← match origin with
            | Some base_ino => get_or_create_overlay_ino Base base_ino path
            | None => get_or_create_overlay_ino Delta (st_ino (de_stats e)) path
            end;
      add_delta_entries info es (<[de_name e:=mkDirEntry (de_name e) (with_ino ino (de_stats e))]> m)
  end.
Definition readdir_plus (ino : Z) : O (option (list DirEntry)) :=
  info ← known ino;
  child_whiteouts ← get_child_whiteouts (info_path info);
  base_ino ← base_parent info;
  m ← match base_ino with
      | Some base_ino =>
          l ← on_base (base_readdir_plus base_ino);
          add_base_entries info child_whiteouts (default [] l) ∅
      | None => mret ∅
      end;
  m ← match layer info with
      | Delta =>
          l ← lift (Fs.readdir_plus (underlying_ino info));
          add_delta_entries info (default [] l) m
      | Base => mret m
      end;
  mret (Some (merge_sort entry_le (map_to_list m).*2)).

Definition chmod (ino mode : Z) : O unit :=
  delta_ino ← writable ino; lift (Fs.chmod delta_ino mode).
Definition chown (ino : Z) (uid gid : option Z) : O unit :=
  delta_ino ← writable ino; lift (Fs.chown delta_ino uid gid).
Definition utimens (ino : Z) (atime mtime : TimeChange) : O unit :=
  delta_ino ← writable ino; lift (Fs.utimens delta_ino atime mtime).
Definition open (ino flags : Z) : O SecAFSFile :=
  delta_ino ← writable ino; lift (Fs.open fs delta_ino flags).

(** [let overlay_ino = self.get_or_create_overlay_ino(Layer::Delta, stats.ino, &path);
    stats.ino = overlay_ino] *)
Definition register (stats : Stats) (path : string) : O Stats :=
  ino ← get_or_create_overlay_ino Delta (st_ino stats) path;
  mret (with_ino ino stats).

Definition mkdir (parent_ino : Z) (name : string) (mode uid gid : Z) : O Stats :=
  parent_info ← known parent_ino;
  path ← build_path parent_ino name;
  existing ← lookup parent_ino name;
  match existing with
  | Some _ => ofail AlreadyExists
  | None =>
      remove_whiteout path ≫= λ _,
      ensure_parent_dirs path uid gid ≫= λ _,
      delta_parent_ino ← delta_parent parent_info;
      stats ← lift (Fs.mkdir delta_parent_ino name mode uid gid);
      register stats path
  end.
Definition create_file (parent_ino : Z) (name : string) (mode uid gid : Z) : O (Stats * SecAFSFile) :=
  parent_info ← known parent_ino;
  path ← build_path parent_ino name;
  remove_whiteout path ≫= λ _,
  ensure_parent_dirs path uid gid ≫= λ _,
  delta_parent_ino ← delta_parent parent_info;
  r ← lift (Fs.create_file fs delta_parent_ino name mode uid gid);
  stats ← register r.1 path;
  mret (stats, r.2).
Definition mknod (parent_ino : Z) (name : string) (mode rdev uid gid : Z) : O Stats :=
  parent_info ← known parent_ino;
  path ← build_path parent_ino name;
  remove_whiteout path ≫= λ _,
  ensure_parent_dirs path uid gid ≫= λ _,
  delta_parent_ino ← delta_parent parent_info;
  stats ← lift (Fs.mknod delta_parent_ino name mode rdev uid gid);
  register stats path.
Definition symlink (parent_ino : Z) (name target : string) (uid gid : Z) : O Stats :=
  parent_info ← known parent_ino;
  path ← build_path parent_ino name;
  remove_whiteout path ≫= λ _,
  ensure_parent_dirs path uid gid ≫= λ _,
  delta_parent_ino ← delta_parent parent_info;
  stats ← lift (Fs.symlink delta_parent_ino name target uid gid);
  register stats path.

(** The end of [unlink], [rmdir] and [rename]: hide the name if the base has it. *)
Definition hide_in_base (parent_info : InodeInfo) (name path : string) : O unit :=
  base_parent_ino ← base_parent parent_info;
  match base_parent_ino with
  | None => mret tt
  | Some base_parent_ino =>
      s ← on_base (base_lookup base_parent_ino name);
      match s with Some _ => create_whiteout path | None => mret tt end
  end.

Definition unlink (parent_ino : Z) (name : string) : O unit :=
  parent_info ← known parent_ino;
  path ← build_path parent_ino name;
  stats ← lookup parent_ino name;
  stats ← or_not_found stats;
  if is_directory stats then ofail IsADirectory else
  match layer parent_info with
  | Delta => lift (attempt (Fs.unlink (underlying_ino parent_info) name)) ≫= λ _, mret tt
  | Base => mret tt
  end ≫= λ _,
  hide_in_base parent_info name path.
Definition rmdir (parent_ino : Z) (name : string) : O unit :=
  parent_info ← known parent_ino;
  path ← build_path parent_ino name;
  stats ← lookup parent_ino name;
  stats ← or_not_found stats;
  if negb (is_directory stats) then ofail NotADirectory else
  dir_entries ← readdir (st_ino stats);
  if negb (bool_decide (default [] dir_entries = [])) then ofail NotEmpty else
  match layer parent_info with
  | Delta => lift (attempt (Fs.rmdir (underlying_ino parent_info) name)) ≫= λ _, mret tt
  | Base => mret tt
  end ≫= λ _,
  hide_in_base parent_info name path.

Definition link (ino newparent_ino : Z) (newname : string) : O Stats :=
  info ← known ino;
  parent_info ← known newparent_ino;
  new_path ← build_path newparent_ino newname;
  delta_ino ← match layer info with
              | Delta => mret (underlying_ino info)
              | Base => copy_up (info_path info) (underlying_ino info)
              end;
  remove_whiteout new_path ≫= λ _,
  ensure_parent_dirs new_path 0 0 ≫= λ _,
  delta_parent_ino ← delta_parent parent_info;
  stats ← lift (Fs.link delta_ino delta_parent_ino newname);
  mret (with_ino ino stats).

Definition rename (oldparent_ino : Z) (oldname : string) (newparent_ino : Z) (newname : string) : O unit :=
  old_parent_info ← known oldparent_ino;
  new_parent_info ← known newparent_ino;
  old_path ← build_path oldparent_ino oldname;
  new_path ← build_path newparent_ino newname;
  src_stats ← lookup oldparent_ino oldname;
  src_stats ← or_not_found src_stats;
  src_info ← known (st_ino src_stats);
  delta_src_parent_ino ← delta_parent old_parent_info;
  match layer src_info with
  | Base => copy_up old_path (underlying_ino src_info) ≫= λ _, mret tt
  | Delta => mret tt
  end ≫= λ _,
  remove_whiteout new_path ≫= λ _,
  ensure_parent_dirs new_path 0 0 ≫= λ _,
  delta_dst_parent_ino ← delta_parent new_parent_info;
  lift (Fs.rename delta_src_parent_ino oldname delta_dst_parent_ino newname) ≫= λ _,
  hide_in_base old_parent_info oldname old_path.

Definition statfs : O FilesystemStats := lift Fs.statfs.
End overlay.
End Ov.
