(* ===== verification/OverlaySpec.v ===== *)
(** * The overlay file system: specifications

    [owp] reasons about overlay operations.  The reference is [merged]: the delta's directory
    tree laid over the base's, less the paths that are whited out. *)

From S2P Require Import Prelude Types Tables Monad Wp Instances Sql File Paths SecafsInode SecafsPath Setup.
From S2P Require Import InodeSpec TreeInv SysInv Samples Steps PathSpec Overlay.

#[local] Open Scope string_scope.
#[local] Open Scope list_scope.
#[local] Open Scope Z_scope.

(** ** The base as a tree *)

(** The base answers every look-up of a name that fits. *)
Definition valid_name (n : string) : Prop := clean n ∧ str_len n ≤ MAX_NAME_LEN.
Class BaseAnswers (B : BaseFS) := {
  base_lookup_ok i n : valid_name n → ∃ r, base_lookup i n = Ok r;
}.

Section base.
Context {B : BaseFS}.
Definition base_child (i : Z) (n : string) : option Stats :=
  match base_lookup i n with Ok r => r | _ => None end.
Fixpoint bwalk (i : Z) (cs : list string) : option Z :=
  match cs with
  | [] => Some i
  | c :: cs => base_child i c ≫= λ s, bwalk (st_ino s) cs
  end.
Lemma base_lookup_child `{!BaseAnswers B} i n : valid_name n → base_lookup i n = Ok (base_child i n).
Proof. intros Hn. unfold base_child. by destruct (base_lookup_ok i n Hn) as [r ->]. Qed.

(** What is at a path of the overlay, and in which layer. *)
Definition merged (w : gset string) (d : db) (cs : list string) (n : string) : option (Layer * Stats) :=
  if whited w "" (cs ++ [n]) then None
  else match walk d 1 (cs ++ [n]) ≫= λ i, stats_of i <$> fs_inode d !! i with
       | Some st => Some (Delta, st)
       | None => pair Base <$> (bwalk 1 cs ≫= λ b, base_child b n)
       end.
End base.

(** ** Paths *)

Lemma join_snoc cs n : cs ≠ [] → join (cs ++ [n]) = join cs +:+ "/" +:+ n.
Proof.
  unfold join. induction cs as [|c [|c' cs] IH]; intros Hne; [done|done|].
  change (String.concat "/" ((c :: c' :: cs) ++ [n])) with
    (c +:+ "/" +:+ String.concat "/" ((c' :: cs) ++ [n])).
  rewrite IH by done. change (String.concat "/" (c :: c' :: cs)) with (c +:+ "/" +:+ String.concat "/" (c' :: cs)).
  by rewrite !string_app_assoc.
Qed.
Lemma child_path_render cs n : Forall clean cs → child_path (render cs) n = render (cs ++ [n]).
Proof.
  intros Hcs. unfold child_path. case_decide as Hr.
  - apply render_root in Hr as ->; [|done]. done.
  - assert (Hne : cs ≠ []) by (intros ->; done). unfold render. rewrite !decide_False by (done || by destruct cs).
    by rewrite join_snoc, string_app_assoc by done.
Qed.
Lemma components_child cs n :
  Forall clean cs → clean n → components (child_path (render cs) n) = cs ++ [n].
Proof.
  intros Hcs Hn. rewrite child_path_render by done. apply components_render.
  apply Forall_app. auto.
Qed.

(** ** Weakest preconditions *)

Section owp.
Context {E : Env}.
Implicit Types s : overlay_maps * state.

Definition owp {A} (m : O A) s (Q : outcome A → overlay_maps * state → Prop) : Prop :=
  Q (m s).1 (m s).2.

Lemma owp_mono {A} (m : O A) s (Q Q' : outcome A → overlay_maps * state → Prop) :
  (∀ r s', Q r s' → Q' r s') → owp m s Q → owp m s Q'.
Proof. unfold owp. auto. Qed.
Lemma owp_intro {A} (m : O A) s (Q : outcome A → overlay_maps * state → Prop) :
  owp m s Q → ∃ r s', m s = (r, s') ∧ Q r s'.
Proof. unfold owp. destruct (m s) as [r s']. eauto. Qed.
Lemma owp_ret {A} (a : A) s (Q : outcome A → overlay_maps * state → Prop) : Q (Ok a) s → owp (mret a) s Q.
Proof. done. Qed.
Lemma owp_fail {A} e s (Q : outcome A → overlay_maps * state → Prop) :
  Q (Err (EFs e)) s → owp (ofail e) s Q.
Proof. done. Qed.
Lemma owp_bind {A C} (m : O A) (k : A → O C) s Q :
  owp m s (λ r s', match r with
                   | Ok a => owp (k a) s' Q
                   | Err e => Q (Err e) s'
                   | Panic => Q Panic s'
                   end) →
  owp (m ≫= k) s Q.
Proof. unfold owp, mbind, O_bind. by destruct (m s) as [[] ?]. Qed.
Lemma owp_assoc {A C D} (m : O A) (f : A → O C) (g : C → O D) s Q :
  owp ((m ≫= f) ≫= g) s Q → owp (m ≫= λ x, f x ≫= g) s Q.
Proof. unfold owp, mbind, O_bind. by destruct (m s) as [[] ?]. Qed.
Lemma owp_lift {A} (m : M A) s (Q : outcome A → overlay_maps * state → Prop) :
  wp m s.2 (λ r t, Q r (s.1, t)) → owp (lift m) s Q.
Proof. unfold wp, owp, lift. by destruct (m s.2). Qed.
Lemma owp_base {A} (r : outcome A) s (Q : outcome A → overlay_maps * state → Prop) :
  Q r s → owp (on_base r) s Q.
Proof. done. Qed.
Lemma owp_gets {A} (f : overlay_maps → A) s (Q : outcome A → overlay_maps * state → Prop) :
  Q (Ok (f s.1)) s → owp (gets f) s Q.
Proof. done. Qed.
Lemma owp_modify f s (Q : outcome unit → overlay_maps * state → Prop) :
  Q (Ok tt) (f s.1, s.2) → owp (modify f) s Q.
Proof. done. Qed.
Lemma owp_known ino info s (Q : outcome InodeInfo → overlay_maps * state → Prop) :
  inode_map s.1 !! ino = Some info → Q (Ok info) s → owp (Ov.known ino) s Q.
Proof. intros Hi HQ. unfold Ov.known. apply owp_bind, owp_gets. by rewrite Hi. Qed.
Lemma owp_build_path ino n info s (Q : outcome string → overlay_maps * state → Prop) :
  inode_map s.1 !! ino = Some info → Q (Ok (child_path (info_path info) n)) s → owp (Ov.build_path ino n) s Q.
Proof. intros Hi HQ. unfold Ov.build_path. apply owp_bind. by eapply owp_known. Qed.
End owp.

Ltac owp_step :=
  lazymatch goal with
  | |- owp (_ ≫= _) _ _ => apply owp_bind
  | |- owp (mret _) _ _ => apply owp_ret
  | |- owp (ofail _) _ _ => apply owp_fail
  | |- owp (on_base _) _ _ => apply owp_base
  | |- owp (gets _) _ _ => apply owp_gets
  | |- owp (modify _) _ _ => apply owp_modify
  end; cbv beta iota.
Ltac owp_steps := repeat owp_step.

(** ** Looking up in the delta *)

Section delta.
Context {E : Env} {HQ : Quiet E} {HL : LruLaws E}.
Implicit Types s : state.

(** A look-up only counts calls and fills the cache. *)
Lemma wp_lookup p n s :
  sys_inv s → valid_name n →
  wp (Fs.lookup p n) s (λ r s',
    r = Ok (child (cur s) p n ≫= λ i, stats_of i <$> fs_inode (cur s) !! i) ∧
    resolved s s' ∧ sys_inv s').
Proof.
  intros Hinv [(_ & _ & Hdot & _) Hlen].
  assert (Hkeep : wp (Fs.lookup p n) s (λ _ s', sys_inv s')) by (by apply keep_lookup).
  assert (Hw : wp (Fs.lookup p n) s (λ r s',
    r = Ok (child (cur s) p n ≫= λ i, stats_of i <$> fs_inode (cur s) !! i) ∧ resolved s s')).
  { pose proof (no_txn_aborted s (si_txn _ Hinv)). unfold Fs.lookup. fs_steps.
    rewrite (proj2 (Z.ltb_ge _ _)) by done. fs_steps. rewrite decide_False by done. fs_steps. st.
    destruct (child (cur s) p n) as [i|] eqn:Hc; fs_steps; [|by split; [|repeat apply resolved_tick]].
    unfold select_stats, select_inode. st. destruct (fs_inode (cur s) !! i) eqn:Hi; fs_steps; simpl; rewrite Hi;
      [|by split; [|repeat apply resolved_tick]].
    split; [done|]. by apply (resolved_put p n i s (tick (tick (tick s)))). }
  unfold wp in *. naive_solver.
Qed.

Lemma resolved_walk s s' i cs : resolved s s' → walk (cur s') i cs = walk (cur s) i cs.
Proof. intros Hr. by rewrite (resolved_cur _ _ Hr). Qed.

(** Under the invariant an entry leads to an inode. *)
Lemma child_row s p n i : sys_inv s → child (cur s) p n = Some i → ∃ r, fs_inode (cur s) !! i = Some r.
Proof.
  intros Hinv (e & He & ->)%fmap_Some. destruct (ti_target _ _ (si_tree _ Hinv) _ _ He) as [r Hr]. eauto.
Qed.

Lemma owp_walk_delta cs i o s :
  sys_inv s → Forall valid_name cs →
  owp (Ov.walk_delta cs i) (o, s) (λ r t, ∃ s1, t = (o, s1) ∧ r = Ok (walk (cur s) i cs) ∧
    resolved s s1 ∧ sys_inv s1).
Proof.
  revert i s. induction cs as [|c cs IH]; intros i s Hinv Hcs; cbn [Ov.walk_delta walk].
  { owp_steps. eauto 10 using resolved_refl. }
  apply Forall_cons in Hcs as [Hc Hcs]. apply owp_bind, owp_lift.
  eapply wp_mono; [|by apply wp_lookup]. intros r s1 (-> & Hr1 & Hinv1). simpl.
  destruct (child (cur s) i c) as [j|] eqn:Hj; simpl.
  - destruct (child_row s i c j Hinv Hj) as [row ->]. simpl.
    change (st_ino (stats_of j row)) with j.
    eapply owp_mono; [|by apply IH]. intros r s' (s2 & -> & -> & Hr2 & Hinv2). exists s2.
    split_and!; [done| |by eapply resolved_trans|done]. by rewrite (resolved_walk s s1).
  - owp_steps. eauto 10.
Qed.
End delta.

(** ** Looking up in the overlay *)

(** The maps after look-ups: inode numbers are only added. *)
Record extended (o o' : overlay_maps) : Prop := {
  ex_whiteouts : whiteouts o' = whiteouts o;
  ex_origins : origin_map o' = origin_map o;
  ex_reverse k i : reverse_map o !! k = Some i → reverse_map o' !! k = Some i;
  ex_inode i info : inode_map o !! i = Some info → inode_map o' !! i = Some info;
}.
#[global] Instance extended_preorder : PreOrder extended.
Proof.
  split; [by intros o|]. intros o1 o2 o3 [H1 H2 H3 H4] [H1' H2' H3' H4'].
  split; [congruence|congruence|auto|auto].
Qed.
(** The counter is ahead of the inodes it gave out, and [k] more fit in [i64]. *)
Definition room (k : Z) (o : overlay_maps) : Prop :=
  (∀ i info, inode_map o !! i = Some info → i < next_ino o) ∧ 0 ≤ next_ino o ∧ next_ino o + k < 2 ^ 63.

(** The inode [ino] of the overlay stands for the path [cs]: its layer has it there. *)
Record at_path {B : BaseFS} (o : overlay_maps) (d : db) (ino : Z) (cs : list string) (info : InodeInfo) :
    Prop := {
  ap_info : inode_map o !! ino = Some info;
  ap_path : info_path info = render cs;
  ap_valid : Forall valid_name cs;
  ap_layer : match layer info with
             | Delta => walk d 1 cs = Some (underlying_ino info)
             | Base => bwalk 1 cs = Some (underlying_ino info)
             end;
}.

(** The key under which a look-up finds the overlay's inode: the origin of a copied file. *)
Definition inode_key (o : overlay_maps) (l : Layer) (ino : Z) : Layer * Z :=
  match l with
  | Delta => match origin_map o !! ino with Some b => (Base, b) | None => (Delta, ino) end
  | Base => (Base, ino)
  end.

Lemma valid_clean cs : Forall valid_name cs → Forall clean cs.
Proof. intros Hcs. eapply Forall_impl; [exact Hcs|]. by intros c [? _]. Qed.

Section lookup.
Context {E : Env} {HQ : Quiet E} {HL : LruLaws E} {B : BaseFS} {HB : BaseAnswers B}.
Implicit Types (s : state) (o : overlay_maps).

Lemma owp_get_or_create k l u path o s :
  0 ≤ k → room (k + 1) o →
  owp (Ov.get_or_create_overlay_ino l u path) (o, s) (λ r t, ∃ ino o', t = (o', s) ∧ r = Ok ino ∧
    reverse_map o' !! (l, u) = Some ino ∧ extended o o' ∧ room k o').
Proof.
  intros Hk (Hlt & Hpos & Hmax). unfold owp, Ov.get_or_create_overlay_ino. simpl.
  destruct (reverse_map o !! (l, u)) as [ino|] eqn:Hr; simpl.
  - exists ino, o. split_and!; [done|done|done|done|]. split_and!; [done|done|lia].
  - eexists _, _. split; [done|]. split; [done|]. simpl. split; [apply lookup_insert_eq|]. split.
    + split; simpl; [done|done| |]; intros x y Hx; (rewrite lookup_insert_ne; [done|]); [congruence|].
      intros <-. apply Hlt in Hx. lia.
    + unfold room. simpl. rewrite Int.i64_small by (unfold Int.is_i64; lia). split_and!; [|lia|lia].
      intros i info [[<- _]|[_ Hi]]%lookup_insert_Some; [lia|]. apply Hlt in Hi. lia.
Qed.
Lemma owp_walk_base cs i o s :
  Forall valid_name cs →
  owp (Ov.walk_base cs i) (o, s) (λ r t, t = (o, s) ∧ r = Ok (bwalk i cs)).
Proof.
  revert i. induction cs as [|c cs IH]; intros i Hcs; cbn [Ov.walk_base bwalk]; [by owp_steps|].
  apply Forall_cons in Hcs as [Hc Hcs]. owp_steps. rewrite base_lookup_child by done.
  destruct (base_child i c) as [st|]; simpl; [by apply IH|by owp_steps].
Qed.
Lemma owp_base_parent o d ino cs info s :
  at_path o d ino cs info →
  owp (Ov.base_parent info) (o, s) (λ r t, t = (o, s) ∧ r = Ok (bwalk 1 cs)).
Proof.
  intros [_ Hp Hv Hl]. unfold Ov.base_parent. destruct (layer info).
  - rewrite Hp, components_render by (by apply valid_clean). by apply owp_walk_base.
  - owp_steps. by rewrite Hl.
Qed.

(** Finding an entry in the delta, whichever layer the directory is in. *)
Lemma owp_in_delta o ino cs n info s :
  sys_inv s → at_path o (cur s) ino cs info → valid_name n →
  owp (delta_parent_ino ← match layer info with
                          | Delta => mret (Some (underlying_ino info))
                          | Base => Ov.walk_delta (components (info_path info)) 1
                          end;
       match delta_parent_ino with Some i => lift (Fs.lookup i n) | None => mret None end)
    (o, s) (λ r t, ∃ s', t = (o, s') ∧ resolved s s' ∧ sys_inv s' ∧
      r = Ok (walk (cur s) 1 (cs ++ [n]) ≫= λ i, stats_of i <$> fs_inode (cur s) !! i)).
Proof.
  intros Hinv [_ Hp Hv Hl] Hn. rewrite walk_last.
  assert (Hlook : ∀ i s1, sys_inv s1 → resolved s s1 →
    owp (lift (Fs.lookup i n)) (o, s1) (λ r t, ∃ s', t = (o, s') ∧ resolved s s' ∧ sys_inv s' ∧
      r = Ok (child (cur s) i n ≫= λ j, stats_of j <$> fs_inode (cur s) !! j))).
  { intros i s1 Hinv1 Hr1. apply owp_lift. eapply wp_mono; [|by apply wp_lookup].
    intros r s' (-> & Hr' & Hinv'). exists s'. simpl. rewrite (resolved_cur _ _ Hr1).
    split_and!; [done|by eapply resolved_trans|done|done]. }
  destruct (layer info).
  - owp_steps. rewrite Hl. simpl. apply Hlook; [done|apply resolved_refl].
  - apply owp_bind. rewrite Hp, components_render by (by apply valid_clean).
    eapply owp_mono; [|by apply owp_walk_delta]. intros r t (s1 & -> & -> & Hr1 & Hinv1).
    destruct (walk (cur s) 1 cs) as [i|]; simpl; [by apply Hlook|]. owp_steps. eauto 10.
Qed.

(** [lookup] is the look-up in the merged tree. *)
Lemma owp_lookup k ino n cs info o s :
  0 ≤ k → room (k + 2) o → sys_inv s → at_path o (cur s) ino cs info → valid_name n →
  owp (Ov.lookup ino n) (o, s) (λ r t, ∃ o' s', t = (o', s') ∧ resolved s s' ∧ sys_inv s' ∧ extended o o' ∧ room k o' ∧
    match merged (whiteouts o) (cur s) cs n with
    | None => r = Ok None
    | Some (l, st) => ∃ i, r = Ok (Some (with_ino i st)) ∧
        reverse_map o' !! inode_key o l (st_ino st) = Some i
    end).
Proof.
  intros Hk Hroom Hinv Hap Hn. pose proof Hap as [Hi Hp Hv Hl].
  assert (Hroom1 : room (k + 1) o) by (destruct Hroom as (? & ? & ?); split_and!; (done || lia)).
  assert (Hroom0 : room k o) by (destruct Hroom as (? & ? & ?); split_and!; (done || lia)).
  assert (Hcl : Forall clean cs) by (by apply valid_clean).
  unfold Ov.lookup, merged. apply owp_bind. eapply owp_known; [done|].
  apply owp_bind. eapply owp_build_path; [done|]. unfold Ov.is_whiteout. owp_steps. simpl.
  assert (Hc : components (child_path (info_path info) n) = cs ++ [n])
    by (rewrite Hp; apply components_child; [done|by destruct Hn]).
  rewrite Hc. destruct (whited _ _ _).
  { owp_steps. exists o, s. split_and!; auto using resolved_refl; reflexivity. }
  apply owp_assoc, owp_bind. eapply owp_mono; [|by eapply owp_in_delta].
  intros r t (s1 & -> & Hr1 & Hinv1 & ->). cbv beta iota.
  destruct (walk (cur s) 1 (cs ++ [n]) ≫= _) as [st|].
  - apply owp_bind. eapply owp_mono; [|apply (owp_get_or_create (k + 1)); [lia|]].
    2: { by replace (k + 1 + 1) with (k + 2) by lia. }
    intros r t (i & o1 & -> & -> & Hrev & Hex & Hro). unfold Ov.get_origin_ino. owp_steps. simpl.
    rewrite (ex_origins _ _ Hex). destruct (origin_map o !! st_ino st) as [b|] eqn:Hb.
    + apply owp_bind. eapply owp_mono; [|by apply (owp_get_or_create k)].
      intros r t (i' & o2 & -> & -> & Hrev' & Hex' & Hro'). owp_steps. exists o2, s1.
      split_and!; [done|done|done|by etrans|done|]. exists i'. split; [done|]. unfold inode_key. simpl. by rewrite ?Hb.
    + owp_steps. exists o1, s1. split_and!; [done..| |].
      { destruct Hro as (? & ? & ?). split_and!; (done || lia). }
      exists i. split; [done|]. unfold inode_key. simpl. by rewrite ?Hb.
  - apply owp_bind. eapply owp_mono; [|by eapply owp_base_parent]. intros r t [-> ->]. cbv beta iota.
    destruct (bwalk 1 cs) as [b|]; simpl.
    + owp_steps. rewrite base_lookup_child by done. destruct (base_child b n) as [st|]; simpl.
      * apply owp_bind. eapply owp_mono; [|by apply (owp_get_or_create k)].
        intros r t (i & o1 & -> & -> & Hrev & Hex & Hro). owp_steps. exists o1, s1. eauto 10.
      * owp_steps. exists o, s1. by split_and!.
    + owp_steps. exists o, s1. by split_and!.
Qed.
End lookup.

(** * The overlay file system: samples

    A SecAFS volume that is not written is a base layer: [frozen].  The theorems are tried on
    an empty delta over the sample file system. *)

#[local] Open Scope string_scope.
#[local] Open Scope list_scope.
#[local] Open Scope Z_scope.

Section frozen.
Context {E : Env} (fs : SecAFS) (s : state).
Definition frozen : BaseFS := {|
  base_lookup p n := (Fs.lookup p n s).1;
  base_getattr i := (Fs.getattr i s).1;
  base_readlink i := (Fs.readlink i s).1;
  base_readdir i := (Fs.readdir i s).1;
  base_readdir_plus i := (Fs.readdir_plus i s).1;
  base_open i := match (Fs.open fs i 0 s).1 with
                 | Ok f => Ok (λ offset size, (pread f offset size s).1)
                 | Err e => Err e
                 | Panic => Panic
                 end;
|}.
Lemma frozen_answers `{!Quiet E, !LruLaws E} : sys_inv s → BaseAnswers frozen.
Proof.
  intros Hs. split. intros i n Hn.
  pose proof (wp_lookup i n s Hs Hn) as Hw. unfold wp in Hw. destruct Hw as [Hw _].
  exists (child (cur s) i n ≫= λ j, stats_of j <$> fs_inode (cur s) !! j). exact Hw.
Qed.
End frozen.

Definition sample_fs : SecAFS := mkSecAFS 4096.
#[global] Instance demo_base : BaseFS := frozen sample_fs demo.
#[global] Instance demo_answers : BaseAnswers demo_base.
Proof. apply (frozen_answers sample_fs demo). apply demo_inv. Qed.

(** A delta with nothing but its root. *)
Definition blank : @state calm_env :=
  mkState calm_env (set_fs_inode {[ 1 := new_inode DEFAULT_DIR_MODE 2 0 0 0 0 (0, 0) ]} empty_db)
    None 1 0 0 (ListLru.new 16) 0 0.
Lemma blank_inv : sys_inv blank.
Proof.
  split; [done|by apply fresh_check_sound; vm_compute|by apply tree_check_sound; vm_compute|].
  intros p n i. by change (cache blank) with (lru_new (Env := calm_env) 16); rewrite lru_new_spec.
Qed.
(** The overlay as it is mounted. *)
Definition mounted : overlay_maps * @state calm_env := (Ov.init (E := calm_env) "/base" (new, blank)).2.

Lemma root_at_path {B : BaseFS} d : at_path new d 1 [] (mkInfo Delta 1 "/").
Proof. split; [done|done|constructor|done]. Qed.
