(* ===== verification/OverlayInv.v ===== *)
(** * The overlay file system: invariants in every environment

    Whatever call on the delta or the base fails: an inode number the overlay handed out
    stands for the same path for ever, an inode of the delta does not fall back to the base,
    and every number in a reply is known.  The file system of the delta never writes the
    overlay's tables. *)

From S2P Require Import Prelude Types Tables Monad Wp Instances Sql File Paths SecafsInode Setup.
From S2P Require Import SecafsPath InodeSpec TreeInv SysInv Samples Steps DbInv Overlay OverlaySpec.
From S2P Require Import OverlaySpec.

#[local] Open Scope string_scope.
#[local] Open Scope list_scope.
#[local] Open Scope Z_scope.

(** ** The overlay's tables *)

Definition overlay_is (v : overlay_tables) (d : db) : Prop := overlay d = v.

(** Unfold a row write down to the record it builds. *)
Ltac overlay_frame :=
  unfold overlay_is, insert_inode_row, update_inode_row, delete_inode_row, insert_dentry_row,
    delete_dentry_row, move_dentry_row, upsert_data_row, insert_data_row, update_data_row,
    delete_data_row, insert_symlink_row, delete_symlink_row, fs_inode_capture_undo,
    fs_dentry_capture_undo, fs_data_capture_undo, fs_symlink_capture_undo, cascade_volumes;
  intros; repeat case_match; simplify_eq/=; repeat case_match; simplify_eq/=; done.
Lemma overlay_delete_data k d : overlay (delete_data_row k d) = overlay d.
Proof. overlay_frame. Qed.
#[global] Instance overlay_rows v : RowInv (overlay_is v).
Proof.
  split; try overlay_frame. intros Q d Hd. unfold overlay_is, delete_data_where in *.
  induction (map_to_list _).*1 as [|k ks IH]; simpl; [done|]. by rewrite overlay_delete_data.
Qed.

(** Between calls, what the delta's file system does leaves the overlay's tables. *)
Lemma overlay_untouched {E : Env} {A} (m : M A) s r s' :
  (∀ v, holds (overlay_is v) m) → m s = (r, s') → txn s = None → overlay (cur s') = overlay (cur s).
Proof.
  intros Hm Hrun Ht. specialize (Hm (overlay (cur s)) s). rewrite Hrun in Hm. simpl in Hm.
  by apply held_cur, Hm, held_idle.
Qed.

(** ** Inode numbers *)

(** The largest [i64]: once it has been handed out the counter wraps. *)
Definition last_ino : Z := 2 ^ 63 - 1.
Definition exhausted (o : overlay_maps) : Prop := is_Some (inode_map o !! last_ino).

Record maps_ok (o : overlay_maps) : Prop := {
  mo_next i info : inode_map o !! i = Some info → i < next_ino o;
  mo_range : 0 ≤ next_ino o ≤ last_ino;
  mo_reverse k i : reverse_map o !! k = Some i → is_Some (inode_map o !! i);
  mo_path p i : path_map o !! p = Some i → ∃ info, inode_map o !! i = Some info ∧ info_path info = p;
}.
(** Every number keeps its path, and what it stands for in the delta. *)
Definition stable (o o' : overlay_maps) : Prop :=
  ∀ i info, inode_map o !! i = Some info → ∃ info', inode_map o' !! i = Some info' ∧
    info_path info' = info_path info ∧ (layer info = Delta → info' = info).
(** A number the overlay can answer for, and that [reverse_map] holds only such numbers. *)
Definition known_in (o : overlay_maps) (i : Z) : Prop := is_Some (inode_map o !! i).
Definition reverse_ok (o : overlay_maps) : Prop := ∀ k i, reverse_map o !! k = Some i → known_in o i.
Definition advance (o o' : overlay_maps) : Prop :=
  (∀ i, known_in o i → known_in o' i) ∧ (reverse_ok o → reverse_ok o') ∧
  (maps_ok o → exhausted o' ∨ (stable o o' ∧ maps_ok o')).

#[global] Instance stable_preorder : PreOrder stable.
Proof.
  split; [by intros o i info; eauto|]. intros o1 o2 o3 H12 H23 i info Hi.
  destruct (H12 i info Hi) as (info2 & Hi2 & Hp2 & Hd2).
  destruct (H23 i info2 Hi2) as (info3 & Hi3 & Hp3 & Hd3). exists info3.
  split_and!; [done|congruence|]. intros Hd. rewrite <- (Hd2 Hd). apply Hd3. by rewrite Hd2.
Qed.
#[global] Instance advance_preorder : PreOrder advance.
Proof.
  split; [intros o; split_and!; [done|done|intros Hok; right; by split]|].
  intros o1 o2 o3 (Hg & Hr & H12) (Hg' & Hr' & H23). split_and!; [by auto|by auto|].
  intros Hok. destruct (H12 Hok) as [He|[Hs Hok2]]; [left; by apply Hg'|].
  destruct (H23 Hok2) as [He|[Hs' Hok3]]; [by left|right]. split; [by etrans|done].
Qed.

(** Only the tables the numbers are not in change. *)
Lemma advance_same o o' :
  inode_map o' = inode_map o → reverse_map o' = reverse_map o → path_map o' = path_map o →
  next_ino o' = next_ino o → advance o o'.
Proof.
  destruct o, o'; simpl; intros; subst. split_and!; [done|done|]. intros [H1 H2 H3 H4]. right. split; [|by split].
  intros i info Hi. eauto.
Qed.
Lemma maps_ok_update ino old info k o :
  maps_ok o → inode_map o !! ino = Some old → info_path info = info_path old →
  maps_ok (set_inode_maps (<[ino:=info]> (inode_map o)) (<[k:=ino]> (reverse_map o)) o).
Proof.
  intros [H1 H2 H3 H4] Ho Hp. split; simpl; [|done| |].
  - intros i x [[<- _]|[_ Hi]]%lookup_insert_Some; eauto.
  - intros k' i Hk. destruct (decide (i = ino)) as [->|Hne]; [rewrite lookup_insert_eq; eauto|].
    rewrite lookup_insert_ne by done. apply lookup_insert_Some in Hk as [[_ <-]|[_ Hk]]; eauto.
  - intros p i Hi. destruct (H4 p i Hi) as (x & Hx & <-). destruct (decide (i = ino)) as [->|Hne].
    + exists info. rewrite lookup_insert_eq. by simplify_eq.
    + exists x. by rewrite lookup_insert_ne.
Qed.
Lemma stable_update ino old info rm o :
  inode_map o !! ino = Some old → layer old = Base → info_path info = info_path old →
  stable o (set_inode_maps (<[ino:=info]> (inode_map o)) rm o).
Proof.
  intros Ho Hl Hp i x Hx. simpl. destruct (decide (i = ino)) as [->|Hne].
  - exists info. rewrite lookup_insert_eq. simplify_eq. split_and!; congruence.
  - exists x. by rewrite lookup_insert_ne.
Qed.
Lemma grows_insert ino info (m : gmap Z InodeInfo) i :
  is_Some (m !! i) → is_Some (<[ino:=info]> m !! i).
Proof. rewrite lookup_insert_is_Some'. auto. Qed.
Lemma maps_ok_drop k o :
  maps_ok o → maps_ok (set_inode_maps (inode_map o) (delete k (reverse_map o)) o).
Proof. intros [H1 H2 H3 H4]. split; simpl; try done. intros k' i [_ Hk]%lookup_delete_Some. eauto. Qed.

Lemma reverse_ok_update ino info k o :
  reverse_ok o → reverse_ok (set_inode_maps (<[ino:=info]> (inode_map o)) (<[k:=ino]> (reverse_map o)) o).
Proof.
  intros Hr k' i. unfold known_in. simpl. intros [[_ <-]|[_ Hk]]%lookup_insert_Some.
  - rewrite lookup_insert_eq. eauto.
  - apply grows_insert. by apply (Hr k').
Qed.
Lemma reverse_ok_drop k o :
  reverse_ok o → reverse_ok (set_inode_maps (inode_map o) (delete k (reverse_map o)) o).
Proof. intros Hr k' i. simpl. intros [_ Hk]%lookup_delete_Some. by apply (Hr k'). Qed.

Lemma advance_promoted path u o : advance o (Ov.promoted path u o).
Proof.
  unfold Ov.promoted. destruct (path_map o !! path) as [ino|]; [|done].
  destruct (inode_map o !! ino) as [[[] b p]|] eqn:Hi; [done| |done].
  split_and!; [intros i; apply grows_insert| |].
  { intros Hr. exact (reverse_ok_update ino (mkInfo Delta u p) (Delta, u) _ (reverse_ok_drop (Base, b) o Hr)). }
  intros Hok. right. split.
  - by eapply stable_update.
  - pose proof (maps_ok_update ino (mkInfo Base b p) (mkInfo Delta u p) (Delta, u) _
      (maps_ok_drop (Base, b) o Hok) Hi eq_refl) as Hm. exact Hm.
Qed.
(** A copy made while other numbers may have been handed out. *)
Lemma advance_copied ino info u o o1 :
  inode_map o !! ino = Some info → layer info = Base → advance o o1 →
  advance o (set_inode_maps (<[ino:=mkInfo Delta u (info_path info)]> (inode_map o1))
    (<[(Delta, u):=ino]> (reverse_map o1)) o1).
Proof.
  intros Hi Hl (Hg & Hr & Hp). split_and!; [intros i Hx; apply grows_insert; by apply Hg| |].
  { intros Ho. by apply reverse_ok_update, Hr. }
  intros Hok.
  destruct (Hp Hok) as [He|[Hs Hok1]]; [left; simpl; by apply grows_insert|right].
  destruct (Hs ino info Hi) as (info1 & Hi1 & Hp1 & _). split.
  - intros i x Hx. simpl. destruct (decide (i = ino)) as [->|Hne].
    + rewrite lookup_insert_eq. eexists. simplify_eq. split_and!; [done|done|congruence].
    + rewrite lookup_insert_ne by done. by apply Hs.
  - by apply (maps_ok_update ino info1).
Qed.

Section keeps.
Context {E : Env} {B : BaseFS} (fs : SecAFS).

Definition numbers {A} (m : O A) : Prop := ∀ s, advance s.1 (m s).2.1.

Lemma numbers_ret {A} (a : A) : numbers (mret a).
Proof. by intros s. Qed.
Lemma numbers_fail {A} e : numbers (ofail (A := A) e).
Proof. by intros s. Qed.
Lemma numbers_base {A} (r : outcome A) : numbers (on_base r).
Proof. by intros s. Qed.
Lemma numbers_gets {A} (f : overlay_maps → A) : numbers (gets f).
Proof. by intros s. Qed.
Lemma numbers_lift {A} (m : M A) : numbers (lift m).
Proof. intros s. unfold lift. by destruct (m s.2). Qed.
Lemma numbers_modify f : (∀ o, advance o (f o)) → numbers (modify f).
Proof. by intros Hf s. Qed.
Lemma numbers_bind {A C} (m : O A) (k : A → O C) :
  numbers m → (∀ a, numbers (k a)) → numbers (m ≫= k).
Proof.
  intros Hm Hk s. specialize (Hm s). unfold mbind, O_bind.
  destruct (m s) as [[a|e|] s']; simpl in *; [|done..]. etrans; [exact Hm|apply Hk].
Qed.
Lemma numbers_get_or_create l u path : numbers (Ov.get_or_create_overlay_ino l u path).
Proof.
  intros [o s]. unfold Ov.get_or_create_overlay_ino. simpl.
  destruct (reverse_map o !! (l, u)) as [i|]; [done|]. simpl.
  split_and!; [intros i; apply grows_insert| |].
  { intros Hr k i. unfold known_in. simpl. intros [[_ <-]|[_ Hk]]%lookup_insert_Some;
      [rewrite lookup_insert_eq; eauto|apply grows_insert; by apply (Hr k)]. }
  intros [H1 H2 H3 H4].
  destruct (decide (next_ino o = last_ino)) as [Hl|Hl].
  { left. unfold exhausted. simpl. rewrite Hl, lookup_insert_eq. eauto. }
  assert (Hfree : ∀ i, is_Some (inode_map o !! i) → i ≠ next_ino o).
  { intros i [x Hx] ->. apply H1 in Hx. lia. }
  right. unfold last_ino in *. split; [|split]; simpl; rewrite ?Int.i64_small by (unfold Int.is_i64; lia).
  - intros i x Hx. exists x. simpl. rewrite lookup_insert_ne; [done|]. apply not_eq_sym, Hfree. eauto.
  - intros i x [[<- _]|[_ Hx]]%lookup_insert_Some; [lia|]. apply H1 in Hx. lia.
  - unfold last_ino. lia.
  - intros k i [[_ <-]|[_ Hk]]%lookup_insert_Some; [rewrite lookup_insert_eq; eauto|].
    apply grows_insert. eauto.
  - intros p i [[<- <-]|[_ Hp]]%lookup_insert_Some; [rewrite lookup_insert_eq; eauto|].
    destruct (H4 p i Hp) as (x & Hx & Hxp). exists x. rewrite lookup_insert_ne; [done|].
    apply not_eq_sym, Hfree. eauto.
Qed.

Create HintDb secafs_numbers.
#[local] Hint Resolve numbers_ret numbers_fail numbers_base numbers_gets numbers_lift
  numbers_get_or_create advance_promoted : secafs_numbers.
Ltac numbers_step :=
  lazymatch goal with
  | |- ∀ _, _ => intros
  | |- numbers (_ ≫= _) => apply numbers_bind
  | |- numbers (modify _) => apply numbers_modify
  | |- _ => first
      [ solve [eauto 3 with secafs_numbers]
      | solve [by apply advance_same]
      | progress unfold or_not_found, Ov.known, Ov.get_inode_info, Ov.build_path, Ov.is_whiteout,
          Ov.get_origin_ino, Ov.get_child_whiteouts, Ov.create_whiteout, Ov.remove_whiteout,
          Ov.add_origin_mapping, Ov.promote_to_delta, Ov.register, Ov.load_whiteouts, Ov.load_origins
      | case_match ]
  end.
Ltac numbering := repeat numbers_step.

Lemma numbers_walk_delta cs i : numbers (Ov.walk_delta cs i).
Proof. revert i. induction cs as [|c cs IH]; intros i; simpl; numbering. Qed.
Lemma numbers_walk_base cs i : numbers (Ov.walk_base cs i).
Proof. revert i. induction cs as [|c cs IH]; intros i; simpl; numbering. Qed.
Lemma numbers_walk_delta_skip cs i : numbers (Ov.walk_delta_skip cs i).
Proof. revert i. induction cs as [|c cs IH]; intros i; simpl; numbering. Qed.
Lemma numbers_ensure_dirs cs path d b u g : numbers (Ov.ensure_dirs cs path d b u g).
Proof. revert path d b. induction cs as [|c cs IH]; intros path d b; simpl; numbering. Qed.
#[local] Hint Resolve numbers_walk_delta numbers_walk_base numbers_walk_delta_skip
  numbers_ensure_dirs : secafs_numbers.
Lemma numbers_base_parent info : numbers (Ov.base_parent info).
Proof. unfold Ov.base_parent. numbering. Qed.
#[local] Hint Resolve numbers_base_parent : secafs_numbers.
Lemma numbers_copy_up path b : numbers (Ov.copy_up fs path b).
Proof. unfold Ov.copy_up, Ov.ensure_parent_dirs, Ov.copy_file. numbering. Qed.
Lemma numbers_writable ino : numbers (Ov.writable fs ino).
Proof.
  intros [o s]. unfold Ov.writable, Ov.known, Ov.get_inode_info, Ov.copy_up_and_update_mapping.
  unfold mbind, O_bind. simpl. destruct (inode_map o !! ino) as [info|] eqn:Hi; simpl; [|done].
  destruct (layer info) eqn:Hl; simpl; [done|].
  pose proof (numbers_copy_up (info_path info) (underlying_ino info) (o, s)) as Hc.
  destruct (Ov.copy_up _ _ _ (o, s)) as [[u|e|] [o1 s1]]; simpl in *; [|done..].
  by apply advance_copied.
Qed.
#[local] Hint Resolve numbers_copy_up numbers_writable : secafs_numbers.
Lemma numbers_lookup p n : numbers (Ov.lookup p n).
Proof. unfold Ov.lookup. numbering. Qed.
Lemma numbers_readdir i : numbers (Ov.readdir i).
Proof. unfold Ov.readdir. numbering. Qed.
Lemma numbers_add_base info w es m : numbers (Ov.add_base_entries info w es m).
Proof. revert m. induction es as [|e es IH]; intros m; simpl; numbering. Qed.
Lemma numbers_add_delta info es m : numbers (Ov.add_delta_entries info es m).
Proof. revert m. induction es as [|e es IH]; intros m; simpl; numbering. Qed.
#[local] Hint Resolve numbers_lookup numbers_readdir numbers_add_base numbers_add_delta :
  secafs_numbers.

(** ** Calls *)

Inductive ocall :=
  | VInit (base_path : string)
  | VLoad
  | VLookup (parent : Z) (name : string)
  | VGetattr (ino : Z)
  | VReadlink (ino : Z)
  | VReaddir (ino : Z)
  | VReaddirPlus (ino : Z)
  | VChmod (ino mode : Z)
  | VChown (ino : Z) (uid gid : option Z)
  | VUtimens (ino : Z) (atime mtime : TimeChange)
  | VOpen (ino flags : Z)
  | VMkdir (parent : Z) (name : string) (mode uid gid : Z)
  | VCreate (parent : Z) (name : string) (mode uid gid : Z)
  | VMknod (parent : Z) (name : string) (mode rdev uid gid : Z)
  | VSymlink (parent : Z) (name target : string) (uid gid : Z)
  | VUnlink (parent : Z) (name : string)
  | VRmdir (parent : Z) (name : string)
  | VLink (ino parent : Z) (name : string)
  | VRename (oldparent : Z) (oldname : string) (newparent : Z) (newname : string)
  | VStatfs
  | VFile (m : op).
(** The call, with the inode numbers of its reply.  [VFile] is a call on an open file, which is
    one of the delta's. *)
Definition replies {A} (f : A → list Z) (m : O A) : O (list Z) := a ← m; mret (f a).
Definition no_number {A} (_ : A) : list Z := [].
Definition entry_inos (l : option (list DirEntry)) : list Z := (st_ino ∘ de_stats) <$> default [] l.
Definition stat_ino (s : option Stats) : list Z := st_ino <$> option_list s.
Definition run_ocall (c : ocall) : O (list Z) :=
  match c with
  | VInit b => replies no_number (Ov.init b)
  | VLoad => replies no_number Ov.load
  | VLookup p n => replies stat_ino (Ov.lookup p n)
  | VGetattr i => replies stat_ino (Ov.getattr i)
  | VReadlink i => replies no_number (Ov.readlink i)
  | VReaddir i => replies no_number (Ov.readdir i)
  | VReaddirPlus i => replies entry_inos (Ov.readdir_plus i)
  | VChmod i m => replies no_number (Ov.chmod fs i m)
  | VChown i u g => replies no_number (Ov.chown fs i u g)
  | VUtimens i a m => replies no_number (Ov.utimens fs i a m)
  | VOpen i fl => replies no_number (Ov.open fs i fl)
  | VMkdir p n m u g => replies (λ s, [st_ino s]) (Ov.mkdir p n m u g)
  | VCreate p n m u g => replies (λ r, [st_ino r.1]) (Ov.create_file fs p n m u g)
  | VMknod p n m d u g => replies (λ s, [st_ino s]) (Ov.mknod p n m d u g)
  | VSymlink p n t u g => replies (λ s, [st_ino s]) (Ov.symlink p n t u g)
  | VUnlink p n => replies no_number (Ov.unlink p n)
  | VRmdir p n => replies no_number (Ov.rmdir p n)
  | VLink i p n => replies (λ s, [st_ino s]) (Ov.link fs i p n)
  | VRename p n np nn => replies no_number (Ov.rename fs p n np nn)
  | VStatfs => replies no_number Ov.statfs
  | VFile m => replies no_number (lift (run_op fs m))
  end.
(** Calls one after the other, whether or not they succeed, with every number in a reply. *)
Fixpoint run_ocalls (cs : list ocall) (s : overlay_maps * state) : list Z * (overlay_maps * state) :=
  match cs with
  | [] => ([], s)
  | c :: cs =>
      let '(r, s') := run_ocall c s in
      let '(inos, s'') := run_ocalls cs s' in
      (match r with Ok l => l | _ => [] end ++ inos, s'')
  end.

Lemma numbers_replies {A} (f : A → list Z) m : numbers m → numbers (replies f m).
Proof. intros Hm. apply numbers_bind; [done|]. intros. apply numbers_ret. Qed.
Lemma numbers_run_ocall c : numbers (run_ocall c).
Proof.
  destruct c; cbn [run_ocall]; apply numbers_replies; unfold Ov.init, Ov.load, Ov.getattr, Ov.readlink,
    Ov.readdir_plus, Ov.chmod, Ov.chown, Ov.utimens, Ov.open, Ov.mkdir,
    Ov.create_file, Ov.mknod, Ov.symlink, Ov.unlink, Ov.rmdir, Ov.link, Ov.rename, Ov.statfs,
    Ov.hide_in_base, Ov.delta_parent, Ov.ensure_parent_dirs; numbering.
Qed.

(** ** Numbers in replies

    [answers ks m f]: where the numbers [ks] are known, a value [a] that [m] returns holds
    only known numbers [f a]. *)
Definition answers {A} (ks : list Z) (m : O A) (f : A → list Z) : Prop :=
  ∀ s, reverse_ok s.1 → Forall (known_in s.1) ks →
  ∀ a, (m s).1 = Ok a → Forall (known_in (m s).2.1) (f a).

Lemma answers_none {A} ks (m : O A) : answers ks m no_number.
Proof. intros s _ _ a _. constructor. Qed.
Lemma answers_ret {A} ks (a : A) f : f a ⊆ ks → answers ks (mret a) f.
Proof. intros Hsub s _ Hks a' [= <-]. rewrite Forall_forall in *. set_solver. Qed.
Lemma answers_fail {A} ks e f : answers (A := A) ks (ofail e) f.
Proof. by intros s _ _ a. Qed.
(** What was known stays known, so that a step may add to what is known. *)
Lemma answers_bind_with {A C} ks (m : O A) (g : A → list Z) (k : A → O C) f :
  numbers m → answers ks m g → (∀ a, answers (g a ++ ks) (k a) f) → answers ks (m ≫= k) f.
Proof.
  intros Hn Hm Hk s Hr Hks c. specialize (Hn s) as (Hg & Hr' & _). specialize (Hm s Hr Hks).
  unfold mbind, O_bind. destruct (m s) as [[a|e|] s']; simpl in *; [|done..].
  apply Hk; [by apply Hr'|]. apply Forall_app. split; [by apply Hm|].
  eapply Forall_impl; [exact Hks|]. apply Hg.
Qed.
Lemma answers_bind {A C} ks (m : O A) (k : A → O C) f :
  numbers m → (∀ a, answers ks (k a) f) → answers ks (m ≫= k) f.
Proof. intros Hn Hk. eapply answers_bind_with; [done|apply answers_none|exact Hk]. Qed.
Lemma answers_number ks l u path : answers ks (Ov.get_or_create_overlay_ino l u path) (λ i, [i]).
Proof.
  intros [o s] Hr _ a. unfold Ov.get_or_create_overlay_ino, known_in. simpl in *.
  destruct (reverse_map o !! (l, u)) as [i|] eqn:Hi; simpl; intros [= <-]; constructor; try done.
  - by apply (Hr (l, u)).
  - rewrite lookup_insert_eq. eauto.
Qed.
Lemma answers_known ks ino : answers ks (Ov.known ino) (λ _, [ino]).
Proof.
  intros [o s] _ _ a. unfold Ov.known, Ov.get_inode_info, or_not_found, mbind, O_bind, gets. simpl.
  destruct (inode_map o !! ino) eqn:Hi; simpl; [|done]. intros _. constructor; [|done]. by eexists.
Qed.

Ltac answers_step :=
  lazymatch goal with
  | |- answers _ (Ov.get_or_create_overlay_ino _ _ _ ≫= _) _ =>
      eapply answers_bind_with; [numbering|apply answers_number|intros ?]
  | |- answers _ (Ov.known _ ≫= _) _ =>
      eapply answers_bind_with; [numbering|apply answers_known|intros ?]
  | |- answers _ (Ov.register _ _ ≫= _) _ => fail
  | |- answers _ (_ ≫= _) _ => apply answers_bind; [numbering|intros ?]
  | |- answers _ (ofail _) _ => apply answers_fail
  | |- answers _ (mret _) _ => apply answers_ret; set_solver
  | |- _ => case_match
  end.
Ltac answering := repeat answers_step.

Lemma answers_register ks st path : answers ks (Ov.register st path) (λ s, [st_ino s]).
Proof. unfold Ov.register. answering. Qed.
Lemma answers_lookup p n : answers [] (Ov.lookup p n) stat_ino.
Proof. unfold Ov.lookup. answering. Qed.
Lemma answers_getattr i : answers [] (Ov.getattr i) stat_ino.
Proof.
  intros [o s] _ _ a. unfold Ov.getattr, Ov.get_inode_info, mbind, O_bind, gets. simpl.
  destruct (inode_map o !! i) as [info|] eqn:Hi; simpl; [|intros [= <-]; constructor].
  assert (Hk : ∀ st, Forall (known_in o) (stat_ino (with_ino i <$> st))).
  { intros [st|]; repeat constructor. by eexists. }
  destruct (layer info); unfold lift, on_base; simpl.
  - destruct (Fs.getattr (underlying_ino info) s) as [[]]; simpl; intros [= <-]; apply Hk.
  - destruct (base_getattr (underlying_ino info)); simpl; intros [= <-]; apply Hk.
Qed.

(** The numbers in the entries gathered so far. *)
Definition map_inos (m : gmap string DirEntry) : list Z := (st_ino ∘ de_stats) <$> (map_to_list m).*2.
Lemma elem_of_map_inos i m : i ∈ map_inos m ↔ ∃ n e, m !! n = Some e ∧ i = st_ino (de_stats e).
Proof.
  unfold map_inos. rewrite list_elem_of_fmap. setoid_rewrite list_elem_of_fmap. split.
  - intros (e & -> & [n e'] & -> & Hin%elem_of_map_to_list). by exists n, e'.
  - intros (n & e & Hm & ->). exists e. split; [done|]. exists (n, e). by rewrite elem_of_map_to_list.
Qed.
Lemma map_inos_insert n e m i : i ∈ map_inos (<[n:=e]> m) → i = st_ino (de_stats e) ∨ i ∈ map_inos m.
Proof.
  rewrite !elem_of_map_inos. intros (n' & e' & [[_ <-]|[_ Hm]]%lookup_insert_Some & ->); [by left|right].
  by exists n', e'.
Qed.
Lemma answers_weaken {A} ks ks' (m : O A) f : answers ks m f → ks ⊆ ks' → answers ks' m f.
Proof. intros Hm Hsub s Hr Hks. apply Hm; [done|]. rewrite Forall_forall in *. set_solver. Qed.
Lemma answers_add_base info w es m : answers (map_inos m) (Ov.add_base_entries info w es m) map_inos.
Proof.
  revert m. induction es as [|e es IH]; intros m; simpl; [by apply answers_ret|].
  apply answers_bind; [numbering|]. intros keep. case_match; [|apply IH].
  eapply answers_bind_with; [numbering|apply answers_number|]. intros ino.
  eapply answers_weaken; [apply IH|]. intros i Hi%map_inos_insert. simpl in Hi. set_solver.
Qed.
Lemma answers_add_delta info es m : answers (map_inos m) (Ov.add_delta_entries info es m) map_inos.
Proof.
  revert m. induction es as [|e es IH]; intros m; simpl; [by apply answers_ret|].
  apply answers_bind; [numbering|]. intros origin.
  eapply (answers_bind_with _ _ (λ i, [i])); [numbering|case_match; apply answers_number|]. intros ino.
  eapply answers_weaken; [apply IH|]. intros i Hi%map_inos_insert. simpl in Hi. set_solver.
Qed.
Lemma answers_readdir_plus i : answers [] (Ov.readdir_plus i) entry_inos.
Proof.
  unfold Ov.readdir_plus. do 3 (apply answers_bind; [numbering|intros ?]).
  eapply (answers_bind_with _ _ map_inos).
  { numbering. }
  { case_match; [|by apply answers_ret]. apply answers_bind; [numbering|intros ?].
    eapply answers_weaken; [apply answers_add_base|]. by intros i0 (n & e & Hn & _)%elem_of_map_inos. }
  intros m. eapply (answers_bind_with _ _ map_inos).
  { numbering. }
  { case_match; [|apply answers_ret; set_solver]. apply answers_bind; [numbering|intros ?].
    eapply answers_weaken; [apply answers_add_delta|set_solver]. }
  intros m'. apply answers_ret. unfold entry_inos. simpl. rewrite merge_sort_Permutation. set_solver.
Qed.
Lemma answers_replies {A} (f : A → list Z) m : answers [] m f → answers [] (replies f m) id.
Proof.
  intros Hm s Hr Hks l. specialize (Hm s Hr Hks). unfold replies, mbind, O_bind.
  destruct (m s) as [[a|e|] s']; simpl in *; [|done..]. intros [= <-]. by apply Hm.
Qed.
Lemma answers_run_ocall c : answers [] (run_ocall c) id.
Proof.
  destruct c; cbn [run_ocall]; apply answers_replies;
    auto using answers_none, answers_lookup, answers_getattr, answers_readdir_plus;
    unfold Ov.mkdir, Ov.create_file, Ov.mknod, Ov.symlink, Ov.link, Ov.delta_parent, Ov.ensure_parent_dirs.
  all: answering; auto using answers_register.
  eapply answers_bind_with; [numbering|apply answers_register|intros ?]. apply answers_ret. set_solver.
Qed.

Lemma advance_run_ocalls cs s :
  advance s.1 (run_ocalls cs s).2.1 ∧
  (reverse_ok s.1 → Forall (known_in (run_ocalls cs s).2.1) (run_ocalls cs s).1).
Proof.
  revert s. induction cs as [|c cs IH]; intros s; [by split|]. simpl.
  pose proof (numbers_run_ocall c s) as Hn. pose proof (answers_run_ocall c s) as Ha.
  destruct (run_ocall c s) as [r s']. destruct (IH s') as [Hadv Hk]. simpl in Hn, Ha.
  destruct (run_ocalls cs s') as [inos s'']. simpl in *. split; [by etrans|]. intros Hr.
  destruct Hn as (_ & Hr' & _), Hadv as (Hg & _ & _). apply Forall_app. split; [|by auto].
  destruct r as [l| |]; [|constructor..]. eapply Forall_impl; [by apply (Ha Hr ltac:(constructor) l)|]. done.
Qed.
End keeps.

(** ** Theorems *)

Lemma new_ok : maps_ok new.
Proof.
  split; simpl.
  - intros i info [<- _]%lookup_singleton_Some. done.
  - done.
  - intros k i [_ <-]%lookup_singleton_Some. eauto.
  - intros p i [<- <-]%lookup_singleton_Some. eauto.
Qed.

(** C22. Whatever calls are made on the overlay, in any order, in every environment and over any
    base: every inode number in a reply (of lookup, getattr, readdir_plus, mkdir, create, mknod,
    symlink and link) is one the overlay knows then and still knows after all the calls; and
    unless the largest inode number has been handed out, every number keeps the path it was
    handed out for, and an inode of the delta stays the same inode of the delta. *)
Theorem overlay_inodes_stable {E : Env} {B : BaseFS} (fs : SecAFS) cs (t : overlay_maps * state) :
  maps_ok t.1 →
  let '(inos, t') := run_ocalls fs cs t in
  Forall (known_in t'.1) inos ∧ (exhausted t'.1 ∨ stable t.1 t'.1 ∧ maps_ok t'.1).
Proof.
  intros Hok. destruct (advance_run_ocalls fs cs t) as [(_ & _ & Ha) Hk].
  destruct (run_ocalls fs cs t) as [inos t']. split; [by apply Hk; intros k i; apply (mo_reverse _ Hok)|by apply Ha].
Qed.

(** Create a file in a directory of the base, look it up, remove a file of the base. *)
Definition sample_ocalls : list ocall :=
  [VInit "/base"; VLookup 1 "d"; VCreate 2 "new" 0x1a4 0 0; VReaddirPlus 1; VOpen 2 0; VUnlink 1 "g"].
Lemma overlay_inodes_stable_witness :
  let '(inos, t') := run_ocalls (E := calm_env) sample_fs sample_ocalls (new, blank) in
  Forall (known_in t'.1) inos ∧ length inos = 7%nat ∧ stable new t'.1.
Proof.
  pose proof (overlay_inodes_stable (E := calm_env) sample_fs sample_ocalls (new, blank) new_ok) as Hs.
  destruct (run_ocalls sample_fs sample_ocalls (new, blank)) as [inos t'] eqn:Hr.
  destruct Hs as [Hk Hs]. split; [exact Hk|].
  assert (Hx : (length inos, inode_map t'.1 !! last_ino) = (7%nat, None)).
  { replace inos with (run_ocalls (E := calm_env) sample_fs sample_ocalls (new, blank)).1 by (by rewrite Hr).
    replace t' with (run_ocalls (E := calm_env) sample_fs sample_ocalls (new, blank)).2 by (by rewrite Hr).
    vm_compute. reflexivity. }
  injection Hx as Hl Hn. split; [exact Hl|]. destruct Hs as [[x Hx]|[Hs _]]; [|exact Hs].
  rewrite Hn in Hx. discriminate Hx.
Defined.
