(* ===== verification/OverlayThms.v ===== *)
(** * The overlay file system: theorems

    Looking up, removing and listing in the overlay against the merged tree. *)

From S2P Require Import Prelude Types Tables Monad Wp Instances Sql File Paths SecafsInode Setup.
From S2P Require Import SecafsPath InodeSpec TreeInv SysInv Samples Steps DbInv PathSpec Overlay OverlaySpec.
From S2P Require Import ListingThms OverlaySpec OverlayInv.

#[local] Open Scope string_scope.
#[local] Open Scope list_scope.
#[local] Open Scope Z_scope.

(** ** Hidden paths *)

Lemma whited_mem (w : gset string) cur cs :
  cs ≠ [] → cur +:+ "/" +:+ join cs ∈ w → whited w cur cs = true.
Proof.
  revert cur. induction cs as [|c cs IH]; intros cur Hne Hw; [done|]. cbn [whited].
  apply orb_true_iff. destruct cs as [|c' cs].
  - left. by apply bool_decide_eq_true.
  - right. apply IH; [done|].
    change (join (c :: c' :: cs)) with (c +:+ "/" +:+ join (c' :: cs)) in Hw.
    by rewrite !string_app_assoc.
Qed.
Lemma whited_render (w : gset string) cs :
  cs ≠ [] → render cs ∈ w → whited w "" cs = true.
Proof. intros Hne Hw. apply whited_mem; [done|]. unfold render in Hw. by rewrite decide_False in Hw. Qed.

Section delta.
Implicit Types d : db.

(** Removing a name of a file leaves the ways to directories. *)
Lemma walk_unname d d' p n i0 cs u :
  tree_inv (fs_inode d) (fs_dentry d) →
  fs_dentry d' = delete (p, n) (fs_dentry d) →
  (∀ i, child d p n = Some i → ¬ dir_row (fs_inode d) i) →
  dir_row (fs_inode d) u → walk d i0 cs = Some u → walk d' i0 cs = Some u.
Proof.
  intros Htr Hd Hleaf Hu. revert i0. induction cs as [|c cs IH]; intros i0; simpl; [done|].
  destruct (child d i0 c) as [x|] eqn:Hx; simpl; [|done]. intros Hw.
  assert (Hne : (p, n) ≠ (i0, c)).
  { intros [= -> ->]. apply (Hleaf x Hx). destruct cs as [|c' cs]; simpl in Hw; [by simplify_eq|].
    destruct (child d x c') as [y|] eqn:Hy; [|done]. apply fmap_Some in Hy as (e & He & _).
    by apply (ti_parent _ _ Htr (x, c') e). }
  assert (Hc : child d' i0 c = Some x) by (unfold child in *; by rewrite Hd, lookup_delete_ne).
  rewrite Hc. simpl. by apply IH.
Qed.
End delta.

Section unlink.
Context {E : Env} {HQ : Quiet E} {HL : LruLaws E} {B : BaseFS} {HB : BaseAnswers B}.
Implicit Types (s : state) (o : overlay_maps).

Lemma owp_create_whiteout path o s :
  txn s = None →
  owp (Ov.create_whiteout path) (o, s) (λ r t, ∃ s' tm, r = Ok tt ∧
    t = (set_whiteouts ({[ path ]} ∪ whiteouts o) o, s') ∧ db_step s s' ∧
    cur s' = upsert_whiteout path tm (cur s)).
Proof.
  intros Ht. pose proof (no_txn_aborted s Ht) as Hab. unfold Ov.create_whiteout.
  apply owp_bind, owp_lift. wp_steps. apply owp_bind, owp_lift. wp_steps.
  apply owp_bind, owp_lift. simpl. wp_steps. owp_steps. simpl. eexists _, _. split; [done|]. split; [done|].
  split; [auto 10|]. by st.
Qed.

(** A write to the overlay's own tables. *)
Lemma overlay_write_inv v s s' :
  sys_inv s → db_step s s' → cur s' = set_overlay v (cur s) → sys_inv s'.
Proof.
  intros [Ht Hf Htr Hc] (Ht' & _ & Hca & Hi & Hd) Hcur. split.
  - by rewrite Ht', Ht.
  - apply (fresh_ids_step s); rewrite ?Hcur, ?Hi, ?Hd; simpl; (done || lia || eauto).
  - by rewrite Hcur.
  - by rewrite Hca, Hcur.
Qed.

(** The maps and the tables agree. *)
Definition persisted o (d : db) : Prop :=
  whiteouts o = dom (fs_whiteout (overlay d)) ∧ origin_map o = fs_origin (overlay d).

(** Hiding a name: the path is whited out when the base has it. *)
Lemma owp_hide_in_base d ino cs info n path o s :
  sys_inv s → at_path o d ino cs info → valid_name n →
  owp (Ov.hide_in_base info n path) (o, s) (λ r t, ∃ o' s', r = Ok tt ∧ t = (o', s') ∧ sys_inv s' ∧
    (∃ v, cur s' = set_overlay v (cur s)) ∧ (persisted o (cur s) → persisted o' (cur s')) ∧
    o' = match bwalk 1 cs ≫= λ b, base_child b n with
         | Some _ => set_whiteouts ({[ path ]} ∪ whiteouts o) o
         | None => o
         end).
Proof.
  intros Hinv Hap Hn. assert (Hsame : ∃ v, cur s = set_overlay v (cur s)).
  { exists (overlay (cur s)). by destruct (cur s). }
  unfold Ov.hide_in_base. apply owp_bind. eapply owp_mono; [|by eapply owp_base_parent].
  intros r t [-> ->]. cbv beta iota. destruct (bwalk 1 cs) as [b|]; simpl; [|owp_steps; by exists o, s].
  owp_steps. rewrite base_lookup_child by done. destruct (base_child b n) as [st|]; [|owp_steps; by exists o, s].
  eapply owp_mono; [|by apply owp_create_whiteout; apply Hinv].
  intros r t (s' & tm & -> & -> & Hs & Hc). eexists _, s'. split_and!; [done|done| |by eexists| |done].
  - by eapply overlay_write_inv.
  - intros [Hw Ho]. rewrite Hc. split; simpl; [|done]. by rewrite dom_insert_L, Hw.
Qed.

(** The removal from the delta, if the directory is there. *)
Lemma owp_unlink_delta info n o s :
  sys_inv s →
  owp (match layer info with
       | Delta => lift (attempt (Fs.unlink (underlying_ino info) n)) ≫= λ _, mret tt
       | Base => mret tt
       end) (o, s) (λ r t, ∃ s', t = (o, s') ∧ r = Ok tt ∧ sys_inv s' ∧ overlay (cur s') = overlay (cur s) ∧
    (layer info = Delta → unlink_err (cur s) (underlying_ino info) n = None →
     fs_dentry (cur s') = delete (underlying_ino info, n) (fs_dentry (cur s)))).
Proof.
  intros Hinv. destruct (layer info); [|owp_steps; by exists s].
  apply owp_bind, owp_lift, wp_attempt. simpl. set (u := underlying_ino info).
  assert (Hkeep : wp (Fs.unlink u n) s (λ _ s', sys_inv s')) by (by apply keep_unlink).
  assert (Hsame : wp (Fs.unlink u n) s (λ _ s', overlay (cur s') = overlay (cur s))).
  { unfold wp. destruct (Fs.unlink u n s) as [r s'] eqn:Hr.
    eapply (overlay_untouched _ _ _ _ (λ v, holds_run_op _ (mkSecAFS 1) (OUnlink u n)));
      [exact Hr|apply Hinv]. }
  destruct (unlink_err (cur s) u n) as [e|] eqn:He.
  - pose proof (wp_unlink_refused u n e s (si_txn _ Hinv) He) as Hw. unfold wp in *.
    destruct (Fs.unlink u n s) as [r s']. simpl in *. destruct Hw as [-> _]. owp_steps. by exists s'.
  - unfold unlink_err in He. destruct (Z.ltb_spec MAX_NAME_LEN (str_len n)); [done|].
    destruct (child (cur s) u n) as [i|] eqn:Hc; [|done].
    pose proof (wp_unlink u n i s (si_txn _ Hinv) ltac:(lia) Hc) as Hw.
    assert (Hdir : ∀ r, fs_inode (cur s) !! i = Some r → has_type S_IFDIR (i_mode r) = false).
    { intros r Hr. rewrite Hr in He. by destruct (has_type _ _). }
    specialize (Hw Hdir). unfold wp in *. destruct (Fs.unlink u n s) as [r s']. simpl in *.
    destruct Hw as (-> & t & d & Hp & _ & Hd & _). owp_steps. exists s'. split_and!; [done|done|done|done|].
    intros _ _. by rewrite (pg_dentry _ _ _ Hp).
Qed.
End unlink.

Section theorems.
Context {E : Env} {HQ : Quiet E} {HL : LruLaws E} {B : BaseFS} {HB : BaseAnswers B}.
Implicit Types (s : state) (o : overlay_maps).

Lemma at_path_extended o o' d d' ino cs info :
  at_path o d ino cs info → extended o o' → (∀ u, layer info = Delta → walk d 1 cs = Some u → walk d' 1 cs = Some u) →
  at_path o' d' ino cs info.
Proof.
  intros [Hi Hp Hv Hl] Hex Hw. split; [by apply Hex|done|done|].
  destruct (layer info) eqn:Hla; [|done]. by apply Hw.
Qed.

(** C20. Looking a name up in a directory of the overlay finds what the merged tree has there: the
    delta's entry, else the base's, unless the path or one of its parents is whited out.  The
    answer carries the overlay's inode number for that entry, the one of the base file a
    copied entry came from; nothing in the database changes. *)
Theorem overlay_lookup_is_merged ino n cs info o s :
  room 2 o → sys_inv s → at_path o (cur s) ino cs info → valid_name n →
  ∃ r o' s', Ov.lookup ino n (o, s) = (Ok r, (o', s')) ∧ cur s' = cur s ∧ extended o o' ∧
    match merged (whiteouts o) (cur s) cs n with
    | None => r = None
    | Some (l, st) => ∃ i, r = Some (with_ino i st) ∧
        reverse_map o' !! inode_key o l (st_ino st) = Some i
    end.
Proof.
  intros Hroom Hinv Hap Hn.
  destruct (owp_intro _ _ _ (owp_lookup 0 ino n cs info o s ltac:(lia) Hroom Hinv Hap Hn))
    as (r & t & Hrun & o' & s' & -> & Hres & _ & Hex & _ & Hm).
  destruct (merged (whiteouts o) (cur s) cs n) as [[l st]|].
  - destruct Hm as (i & -> & Hi). exists (Some (with_ino i st)), o', s'.
    split_and!; [done|by apply resolved_cur|done|eauto].
  - subst r. exists None, o', s'. split_and!; [done|by apply resolved_cur|done|done].
Qed.

(** What is hidden or gone in both layers is not in the merged tree. *)
Lemma merged_none w d cs n :
  whited w "" (cs ++ [n]) = true ∨
  (walk d 1 (cs ++ [n]) = None ∧ (bwalk 1 cs ≫= λ b, base_child b n) = None) →
  merged w d cs n = None.
Proof.
  unfold merged. intros [->|[-> ->]]; [done|]. by destruct (whited _ _ _).
Qed.
Lemma merged_delta w d cs n l st :
  merged w d cs n = Some (l, st) → (bwalk 1 cs ≫= λ b, base_child b n) = None →
  ∃ i row, walk d 1 (cs ++ [n]) = Some i ∧ fs_inode d !! i = Some row ∧ st = stats_of i row.
Proof.
  unfold merged. destruct (whited _ _ _); [done|]. intros Hm Hb. rewrite Hb in Hm.
  destruct (walk d 1 (cs ++ [n])) as [i|]; [|done]. simpl in Hm.
  destruct (fs_inode d !! i) as [row|] eqn:Hr; [|done]. simpl in Hm. simplify_eq. eauto.
Qed.
Lemma stats_of_dir i row : is_directory (stats_of i row) = is_dir row.
Proof. apply is_directory_stats. Qed.

(** The way from an inode of the delta that is a file. *)
Lemma unlinked_walk d d' cs n u i row :
  tree_inv (fs_inode d) (fs_dentry d) → walk d 1 cs = Some u → child d u n = Some i →
  fs_inode d !! i = Some row → is_dir row = false →
  fs_dentry d' = delete (u, n) (fs_dentry d) →
  walk d' 1 cs = Some u ∧ walk d' 1 (cs ++ [n]) = None.
Proof.
  intros Htr Hw Hc Hr Hd Hdel. assert (Hu : dir_row (fs_inode d) u).
  { apply fmap_Some in Hc as (e & He & _). by apply (ti_parent _ _ Htr (u, n) e). }
  assert (Hw' : walk d' 1 cs = Some u).
  { eapply (walk_unname d); try done. intros j Hj (row' & Hrow' & Hdir). simplify_eq. congruence. }
  split; [done|]. rewrite walk_last, Hw'. simpl. unfold child. by rewrite Hdel, lookup_delete_eq.
Qed.

Lemma owp_unlink ino n cs info l st o s :
  room 4 o → sys_inv s → at_path o (cur s) ino cs info → valid_name n →
  merged (whiteouts o) (cur s) cs n = Some (l, st) → is_directory st = false →
  layer info = Delta ∨ is_Some (bwalk 1 cs ≫= λ b, base_child b n) →
  owp (Ov.unlink ino n) (o, s) (λ r t, ∃ o' s', r = Ok tt ∧ t = (o', s') ∧ sys_inv s' ∧
    merged (whiteouts o') (cur s') cs n = None ∧ (persisted o (cur s) → persisted o' (cur s')) ∧
    whiteouts o' = (if decide (is_Some (bwalk 1 cs ≫= λ b, base_child b n))
                    then {[ render (cs ++ [n]) ]} ∪ whiteouts o else whiteouts o)).
Proof.
  intros Hroom Hinv Hap Hn Hm Hdir Hor. pose proof Hap as [Hi Hp Hv Hl].
  assert (Hcl : Forall clean cs) by (by apply valid_clean).
  unfold Ov.unlink. apply owp_bind. eapply owp_known; [done|].
  apply owp_bind. eapply owp_build_path; [done|]. rewrite Hp, child_path_render by done.
  apply owp_bind. eapply owp_mono; [|by eapply (owp_lookup 2)].
  intros r t (o1 & s1 & -> & Hres & Hinv1 & Hex & Hro & Hr). rewrite Hm in Hr.
  destruct Hr as (i & -> & Hrev). cbn [or_not_found]. owp_steps.
  change (is_directory (with_ino i st)) with (is_directory st). rewrite Hdir.
  apply owp_bind. eapply owp_mono; [|by apply owp_unlink_delta].
  intros r t (s2 & -> & -> & Hinv2 & Hsame & Hdel). cbv beta iota.
  rewrite (resolved_cur _ _ Hres) in Hdel, Hsame.
  eapply owp_mono; [|eapply (owp_hide_in_base (cur s) ino cs info); [done| |done]].
  2: { by eapply at_path_extended. }
  intros r t (o' & s' & -> & -> & Hinv' & (v & Hc') & Hper & ->). eexists _, s'.
  split_and!; [done|done|done| | |].
  - apply merged_none. destruct (bwalk 1 cs ≫= _) as [bs|] eqn:Hb.
    + left. apply whited_render; [by destruct cs|]. simpl. set_solver.
    + right. split; [|done]. destruct Hor as [Hla|[? ?]]; [|done]. rewrite Hla in Hl.
      destruct (merged_delta _ _ _ _ _ _ Hm Hb) as (j & row & Hj & Hrow & ->).
      rewrite walk_last, Hl in Hj. simpl in Hj. rewrite stats_of_dir in Hdir.
      assert (Hue : unlink_err (cur s) (underlying_ino info) n = None).
      { unfold unlink_err. destruct Hn as [_ Hlen]. rewrite (proj2 (Z.ltb_ge _ _)) by done.
        rewrite Hj, Hrow. unfold is_dir in Hdir. by rewrite Hdir. }
      eapply (unlinked_walk (cur s)); [apply Hinv|done|done|done|done|]. rewrite Hc'. simpl. by apply Hdel.
  - intros [Hw Ho]. apply Hper. unfold persisted. rewrite Hsame, (ex_whiteouts _ _ Hex), (ex_origins _ _ Hex).
    done.
  - rewrite (ex_whiteouts _ _ Hex). destruct (bwalk 1 cs ≫= λ b, base_child b n) eqn:Hb.
    + by rewrite decide_True by (by eexists).
    + rewrite decide_False by (by intros [? ?]). by rewrite (ex_whiteouts _ _ Hex).
Qed.

(** ** Mounting again *)

Lemma insert_all (l : list string) (w : gset string) :
  foldl (λ w p, {[ p ]} ∪ w) w l = list_to_set l ∪ w.
Proof.
  revert w. induction l as [|p l IH]; intros w; simpl; [set_solver|]. rewrite IH. set_solver.
Qed.
Lemma insert_pairs (l : list (Z * Z)) (m : gmap Z Z) :
  NoDup l.*1 → foldl (λ m p, <[p.1:=p.2]> m) m l = list_to_map l ∪ m.
Proof.
  revert m. induction l as [|[k v] l IH]; intros m Hnd; simpl; [by rewrite (left_id_L ∅ (∪))|].
  apply NoDup_cons in Hnd as [Hk Hnd]. rewrite IH by done. simpl.
  rewrite <- insert_union_l, <- insert_union_r; [done|]. by apply not_elem_of_list_to_map_1.
Qed.
Lemma omap_rows {A C D} (f : A → C) (g : C → option D) (h : A → D) (l : list A) :
  (∀ a, g (f a) = Some (h a)) → omap g (f <$> l) = h <$> l.
Proof. intros Hg. induction l as [|a l IH]; simpl; [done|]. rewrite Hg. f_equal. exact IH. Qed.

(** Loading gives the maps what the tables hold. *)
Lemma owp_load s :
  txn s = None →
  owp Ov.load (new, s) (λ r t, ∃ o' s', r = Ok tt ∧ t = (o', s') ∧ cur s' = cur s ∧ persisted o' (cur s)).
Proof.
  intros Ht. pose proof (no_txn_aborted s Ht). unfold Ov.load, Ov.load_whiteouts, Ov.load_origins.
  apply owp_bind, owp_lift. wp_steps. apply owp_bind. apply owp_bind, owp_lift. simpl. wp_steps. owp_steps.
  apply owp_lift, wp_attempt. simpl. wp_steps. owp_steps. simpl.
  eexists _, _. split; [done|]. split; [done|]. split; [by st|]. unfold persisted. simpl. st.
  unfold select_whiteouts, select_origins. split.
  - rewrite insert_all, (right_id_L ∅ (∪)). apply set_eq. intros x. rewrite dom_alt.
    by rewrite (omap_rows _ _ fst).
  - rewrite (omap_rows _ _ id), list_fmap_id, insert_pairs, (right_id_L ∅ (∪)), list_to_map_to_list;
      [done|apply NoDup_fst_map_to_list|by intros []].
Qed.

(** Removing a file through the overlay succeeds and hides it: afterwards the merged tree has
    nothing at the path, because the delta's entry is gone and a whiteout hides the base's.  The
    parent must be a directory of the delta, or the base must have the file. *)
Theorem overlay_unlink_hides ino n cs info l st o s :
  room 4 o → sys_inv s → at_path o (cur s) ino cs info → valid_name n →
  merged (whiteouts o) (cur s) cs n = Some (l, st) → is_directory st = false →
  layer info = Delta ∨ is_Some (bwalk 1 cs ≫= λ b, base_child b n) →
  ∃ o' s', Ov.unlink ino n (o, s) = (Ok tt, (o', s')) ∧ sys_inv s' ∧
    merged (whiteouts o') (cur s') cs n = None ∧
    whiteouts o' = (if decide (is_Some (bwalk 1 cs ≫= λ b, base_child b n))
                    then {[ render (cs ++ [n]) ]} ∪ whiteouts o else whiteouts o).
Proof.
  intros Hroom Hinv Hap Hn Hm Hdir Hor.
  destruct (owp_intro _ _ _ (owp_unlink _ _ _ _ _ _ _ _ Hroom Hinv Hap Hn Hm Hdir Hor))
    as (r & t & Hrun & o' & s' & -> & -> & Hi & Hmm & _ & Hw). by exists o', s'.
Qed.

(** C40. A file removed through the overlay is gone, and stays gone when the overlay is mounted again
    on the same database: the removal succeeds, the merged tree then has nothing at the path,
    [load] gives a new overlay the whiteouts and the origins the old one had, and with these the
    merged tree still has nothing there. The parent must be a directory of the delta, or the
    base must have the file; the base does not change, and no call on the database fails. *)
Theorem overlay_unlink_survives ino n cs info l st o s :
  room 4 o → sys_inv s → persisted o (cur s) → at_path o (cur s) ino cs info → valid_name n →
  merged (whiteouts o) (cur s) cs n = Some (l, st) → is_directory st = false →
  layer info = Delta ∨ is_Some (bwalk 1 cs ≫= λ b, base_child b n) →
  ∃ o' s' o2 s2, Ov.unlink ino n (o, s) = (Ok tt, (o', s')) ∧ Ov.load (new, s') = (Ok tt, (o2, s2)) ∧
    merged (whiteouts o') (cur s') cs n = None ∧
    whiteouts o2 = whiteouts o' ∧ origin_map o2 = origin_map o' ∧
    merged (whiteouts o2) (cur s2) cs n = None.
Proof.
  intros Hroom Hinv Hper Hap Hn Hm Hdir Hor.
  destruct (owp_intro _ _ _ (owp_unlink _ _ _ _ _ _ _ _ Hroom Hinv Hap Hn Hm Hdir Hor))
    as (r & t & Hrun & o' & s' & -> & -> & Hi & Hmm & Hp & Hw).
  destruct (owp_intro _ _ _ (owp_load s' (si_txn _ Hi))) as (r & t & Hload & o2 & s2 & -> & -> & Hc & Hp2).
  destruct (Hp Hper) as [Hw1 Ho1], Hp2 as [Hw2 Ho2]. exists o', s', o2, s2.
  split_and!; [done|done|done|congruence|congruence|]. rewrite Hc. by rewrite Hw2, <- Hw1.
Qed.
End theorems.

(** ** Listing a directory *)

(** The whiteouts are paths the overlay built. *)
Definition paths_built (w : gset string) : Prop :=
  ∀ p, p ∈ w → ∃ ws, Forall clean ws ∧ p = render ws.

Lemma starts_with_skip pre p :
  starts_with pre p = true → p = pre +:+ skip (String.length pre) p.
Proof.
  unfold starts_with. revert p. induction pre as [|c pre IH]; intros p Hs; [done|].
  destruct p as [|c' p]; [done|]. simpl in Hs. destruct (Ascii.ascii_dec c c') as [->|]; [|done].
  simpl. rewrite string_app_cons. f_equal. by apply IH.
Qed.
Lemma trim_start_clean w x : clean w → trim_start (w +:+ x) = w +:+ x.
Proof.
  intros (Hne & _ & _ & Hs). destruct w as [|c w]; [done|]. rewrite string_app_cons. simpl in *.
  apply andb_prop in Hs as [Hc _]. by destruct (is_slash c).
Qed.
Lemma trim_start_render ws : Forall clean ws → trim_start (render ws) = join ws.
Proof.
  intros Hw. unfold render. case_decide as He; [by rewrite He|]. destruct ws as [|w ws]; [done|].
  apply Forall_cons in Hw as [Hw _]. change (trim_start (join (w :: ws)) = join (w :: ws)). unfold join.
  destruct ws as [|w' ws].
  - simpl. pose proof (trim_start_clean w "" Hw) as Ht. by rewrite string_app_nil_r in Ht.
  - change (String.concat "/" (w :: w' :: ws)) with (w +:+ "/" +:+ String.concat "/" (w' :: ws)).
    by apply trim_start_clean.
Qed.

(** A name hidden below a directory is the name of a whiteout. *)
Lemma child_whiteout_hidden w cs n p :
  paths_built w → Forall clean cs → clean n → p ∈ w → child_whiteout (render cs) p = Some n →
  render (cs ++ [n]) ∈ w.
Proof.
  intros Hb Hcs Hn Hp. unfold child_whiteout. case_decide as Hr.
  - apply render_root in Hr as ->; [|done]. destruct (Hb p Hp) as (ws & Hws & Hpr).
    rewrite Hpr, trim_start_render by done. destruct (no_slash (join ws)); [|done]. intros [= Hj].
    assert (Hne : ws ≠ []) by (intros ->; destruct Hn as [Hn _]; by rewrite <- Hj in Hn).
    assert (Heq : render ([] ++ [n]) = p); [|by rewrite Heq].
    rewrite Hpr. unfold render. rewrite !decide_False by (done || by destruct cs). by rewrite Hj.
  - destruct (starts_with _ p) eqn:Hs; [|done]. destruct (no_slash _); [|done]. intros [= Hk].
    apply starts_with_skip in Hs. rewrite Hk in Hs. rewrite <- child_path_render by done.
    unfold child_path. rewrite decide_False by done. by rewrite <- string_app_assoc, <- Hs.
Qed.

Section listing.
Context {E : Env} {HQ : Quiet E} {HL : LruLaws E} {B : BaseFS} {HB : BaseAnswers B}.
Implicit Types (s : state) (o : overlay_maps).

(** An entry of the base is shown unless its path is whited out. *)
Lemma shown_whited info cs n o :
  paths_built (whiteouts o) → info_path info = render cs → Forall clean cs → clean n →
  Ov.shown info (list_to_set (omap (child_whiteout (info_path info)) (elements (whiteouts o)))) o n =
  negb (whited (whiteouts o) "" (cs ++ [n])).
Proof.
  intros Hb Hp Hcs Hn. unfold Ov.shown. rewrite Hp, components_child by done.
  destruct (whited _ _ _) eqn:Hw; [done|]. simpl. apply negb_true_iff, bool_decide_eq_false.
  intros (p & Hin & Hc)%elem_of_list_to_set%list_elem_of_omap. apply elem_of_elements in Hin.
  assert (Hh : render (cs ++ [n]) ∈ whiteouts o) by (by eapply child_whiteout_hidden).
  apply whited_render in Hh; [congruence|by destruct cs].
Qed.

(** The listing of the base, if the base has the directory. *)
Lemma owp_base_entries info cs o d ino s :
  paths_built (whiteouts o) → at_path o d ino cs info →
  (∀ b, bwalk 1 cs = Some b → ∃ l, base_readdir b = Ok (Some l) ∧
     ∀ n, n ∈ l ↔ valid_name n ∧ is_Some (base_child b n)) →
  owp (base_ino ← Ov.base_parent info;
       match base_ino with
       | Some base_ino =>
           l ← on_base (base_readdir base_ino);
           keep ← gets (Ov.shown info (list_to_set (omap (child_whiteout (info_path info)) (elements (whiteouts o)))));
           mret (filter (λ n, keep n = true) (default [] l))
       | None => mret []
       end) (o, s) (λ r t, t = (o, s) ∧ ∃ l, r = Ok l ∧
    ∀ n, n ∈ l ↔ valid_name n ∧ is_Some (bwalk 1 cs ≫= λ b, base_child b n) ∧
                 whited (whiteouts o) "" (cs ++ [n]) = false).
Proof.
  intros Hb Hap Hlist. apply owp_bind. eapply owp_mono; [|by eapply owp_base_parent].
  intros r t [-> ->]. destruct (bwalk 1 cs) as [b|]; simpl; owp_steps.
  2: { split; [done|]. eexists. split; [done|]. intros n. split; [by intros ?%not_elem_of_nil|].
       intros (_ & [? ?] & _). done. }
  destruct (Hlist b eq_refl) as (l & -> & Hl). owp_steps. split; [done|]. eexists. split; [done|].
  intros n. simpl. rewrite list_elem_of_filter, Hl. split.
  - intros [Hk [Hn Hc]]. rewrite (shown_whited _ cs) in Hk; [|done|apply Hap|apply valid_clean, Hap|apply Hn].
    apply negb_true_iff in Hk. done.
  - intros (Hn & Hc & Hw). split; [|done].
    rewrite (shown_whited _ cs), Hw; [done|done|apply Hap|apply valid_clean, Hap|apply Hn].
Qed.

(** Listing a directory of the delta through the overlay gives the valid names of the merged
    tree, each once and in byte order: the delta's and those of the base that are not whited
    out. *)
Theorem overlay_readdir_lists ino cs info o s :
  sys_inv s → at_path o (cur s) ino cs info → layer info = Delta →
  dir_row (fs_inode (cur s)) (underlying_ino info) → paths_built (whiteouts o) →
  (∀ n i, child (cur s) (underlying_ino info) n = Some i → whited (whiteouts o) "" (cs ++ [n]) = false) →
  (∀ b, bwalk 1 cs = Some b → ∃ l, base_readdir b = Ok (Some l) ∧
     ∀ n, n ∈ l ↔ valid_name n ∧ is_Some (base_child b n)) →
  ∃ l s', Ov.readdir ino (o, s) = (Ok (Some l), (o, s')) ∧ cur s' = cur s ∧ NoDup l ∧
    StronglySorted str_le l ∧
    ∀ n, valid_name n → n ∈ l ↔ is_Some (merged (whiteouts o) (cur s) cs n).
Proof.
  intros Hinv Hap Hd Hdir Hb Hshow Hlist.
  assert (Hgoal : owp (Ov.readdir ino) (o, s) (λ r t, ∃ l s', r = Ok (Some l) ∧ t = (o, s') ∧ cur s' = cur s ∧
    NoDup l ∧ StronglySorted str_le l ∧
    ∀ n, valid_name n → n ∈ l ↔ is_Some (merged (whiteouts o) (cur s) cs n))).
  { unfold Ov.readdir, Ov.get_child_whiteouts. apply owp_bind. eapply owp_known; [apply Hap|]. owp_steps.
    rewrite Hd. apply owp_bind, owp_lift. eapply wp_mono; [|by apply wp_readdir; [apply Hinv|]].
    intros r s1 [-> Hc]. cbv beta iota. apply owp_ret. apply owp_assoc, owp_bind. simpl.
    eapply owp_mono; [|by eapply owp_base_entries].
    intros r t [-> (l & -> & Hl)]. owp_steps. eexists _, s1. split; [done|]. split; [done|]. split; [done|].
    split; [|split].
    - rewrite merge_sort_Permutation. apply NoDup_elements.
    - apply (StronglySorted_merge_sort str_le).
    - intros n Hn. rewrite merge_sort_Permutation, elem_of_elements, elem_of_union, !elem_of_list_to_set. simpl.
      rewrite elem_of_listed, Hl. unfold merged. rewrite walk_last.
      pose proof (ap_layer _ _ _ _ _ Hap) as Hw. rewrite Hd in Hw. rewrite Hw. simpl.
      destruct (child (cur s) (underlying_ino info) n) as [i|] eqn:Hi; simpl.
      + rewrite (Hshow n i Hi). destruct (child_row s _ _ _ Hinv Hi) as [row ->]. simpl.
        split; [by eauto|]. intros _. left. split; [apply Hn|by eauto].
      + destruct (whited _ _ _); [naive_solver|]. destruct (bwalk 1 cs ≫= _); simpl; naive_solver. }
  destruct (owp_intro _ _ _ Hgoal) as (r & t & Hrun & l & s' & -> & -> & H). by exists l, s'.
Qed.
End listing.

(** ** The sample *)

Lemma valid_names (l : list string) :
  bool_decide (Forall (λ n, n ≠ "" ∧ n ≠ "." ∧ n ≠ ".." ∧ no_slash n = true ∧ str_len n ≤ MAX_NAME_LEN) l) = true →
  Forall valid_name l.
Proof.
  intros Hl%bool_decide_eq_true_1. eapply Forall_impl; [exact Hl|]. intros n (? & ? & ? & ? & ?).
  split; [by split_and!|done].
Qed.
Lemma sample_valid : Forall valid_name ["d"; "f"; "g"].
Proof. apply valid_names. vm_compute. reflexivity. Qed.
Lemma g_valid : valid_name "g".
Proof. pose proof sample_valid as H. by repeat apply Forall_cons in H as [? H]. Qed.
Lemma new_room k : k < 2 ^ 62 → room k new.
Proof.
  intros Hk. unfold room, new. simpl. split_and!; [|done|lia].
  intros i info [<- _]%lookup_singleton_Some. done.
Qed.
Lemma blank_persisted : persisted new (cur blank).
Proof. split; reflexivity. Qed.
Lemma g_merged : ∃ st, merged (whiteouts new) (cur blank) [] "g" = Some (Base, st) ∧ is_directory st = false.
Proof. eexists. split; [vm_compute; reflexivity|reflexivity]. Qed.

Lemma overlay_lookup_is_merged_witness :
  ∃ r o' s', Ov.lookup 1 "g" (new, blank) = (Ok (Some r), (o', s')) ∧ st_size r = 0 ∧ st_nlink r = 2.
Proof.
  destruct (overlay_lookup_is_merged 1 "g" [] (mkInfo Delta 1 "/") new blank (new_room 2 eq_refl) blank_inv
    (root_at_path _) g_valid) as (r & o' & s' & Hrun & _ & _ & Hm).
  assert (Hg : merged (whiteouts new) (cur blank) [] "g" =
    Some (Base, stats_of 5 (new_inode DEFAULT_FILE_MODE 2 0 0 0 0 (0, 0)))) by (vm_compute; reflexivity).
  rewrite Hg in Hm. destruct Hm as (i & -> & _). eexists _, o', s'. split; [exact Hrun|]. by split.
Defined.
Lemma overlay_unlink_hides_witness :
  ∃ o' s', Ov.unlink 1 "g" (new, blank) = (Ok tt, (o', s')) ∧
    merged (whiteouts o') (cur s') [] "g" = None ∧ whiteouts o' = {[ "/g" ]}.
Proof.
  destruct g_merged as (st & Hm & Hd).
  destruct (overlay_unlink_hides 1 "g" [] (mkInfo Delta 1 "/") Base st new blank (new_room 4 eq_refl) blank_inv
    (root_at_path _) g_valid Hm Hd (or_introl eq_refl)) as (o' & s' & Hrun & _ & Hn & Hw).
  exists o', s'. split; [exact Hrun|]. split; [exact Hn|]. rewrite Hw, decide_True; [reflexivity|].
  eexists. vm_compute. reflexivity.
Defined.
Lemma overlay_unlink_survives_witness :
  ∃ o' s' o2 s2, Ov.unlink 1 "g" (new, blank) = (Ok tt, (o', s')) ∧ Ov.load (new, s') = (Ok tt, (o2, s2)) ∧
    merged (whiteouts o2) (cur s2) [] "g" = None.
Proof.
  destruct g_merged as (st & Hm & Hd).
  destruct (overlay_unlink_survives 1 "g" [] (mkInfo Delta 1 "/") Base st new blank (new_room 4 eq_refl) blank_inv
    blank_persisted (root_at_path _) g_valid Hm Hd (or_introl eq_refl)) as (o' & s' & o2 & s2 & Hu & Hl & _ & _ & _ & Hn).
  exists o', s', o2, s2. split; [exact Hu|]. split; [exact Hl|exact Hn].
Defined.

(** The base's own listing agrees with its look-ups. *)
Lemma frozen_lists {E : Env} `{!Quiet E, !LruLaws E} fs s b :
  sys_inv s → dir_row (fs_inode (cur s)) b → Forall valid_name (listed b (cur s)) →
  base_readdir (BaseFS := frozen fs s) b = Ok (Some (listed b (cur s))) ∧
  ∀ n, n ∈ listed b (cur s) ↔ valid_name n ∧ is_Some (base_child (B := frozen fs s) b n).
Proof.
  intros Hinv Hdir Hv. split.
  - destruct (wp_readdir b s (si_txn _ Hinv) Hdir) as [Hw _]. exact Hw.
  - intros n. rewrite Forall_forall in Hv.
    assert (Hch : valid_name n → is_Some (base_child (B := frozen fs s) b n) ↔ is_Some (child (cur s) b n)).
    { intros Hn. unfold base_child. simpl. destruct (wp_lookup b n s Hinv Hn) as [-> _]. simpl.
      destruct (child (cur s) b n) as [i|] eqn:Hi; [|split; by intros [? ?]]. simpl.
      destruct (child_row s b n i Hinv Hi) as [row ->]. simpl. split; eauto. }
    split.
    + intros Hin. pose proof (Hv n Hin) as Hn. split; [done|]. apply Hch; [done|].
      by apply elem_of_listed in Hin as [_ ?].
    + intros [Hn Hc]. apply elem_of_listed. split; [apply Hn|]. by apply Hch in Hc.
Qed.
Lemma root_names : Forall valid_name (listed (E := calm_env) 1 (cur demo)).
Proof. apply valid_names. vm_compute. reflexivity. Qed.
Lemma overlay_readdir_lists_witness :
  ∃ l s', Ov.readdir 1 (new, blank) = (Ok (Some l), (new, s')) ∧ "g" ∈ l.
Proof.
  destruct (overlay_readdir_lists 1 [] (mkInfo Delta 1 "/") new blank blank_inv (root_at_path _) eq_refl)
    as (l & s' & Hrun & _ & _ & _ & Hl).
  - apply dir_at_row. vm_compute. reflexivity.
  - intros p Hp. by apply elem_of_empty in Hp.
  - intros n i Hc. reflexivity.
  - intros b [= <-]. eexists. apply (frozen_lists sample_fs demo); [apply demo_inv| |apply root_names].
    apply dir_at_row. vm_compute. reflexivity.
  - exists l, s'. split; [exact Hrun|]. apply (Hl "g" g_valid). eexists. vm_compute. reflexivity.
Defined.

(** ** Where the overlay differs from the merged tree *)

#[local] Existing Instance calm_env.
Definition ino_of (r : option Stats) : Z := from_option st_ino 0 r.

(** Creating a file in a directory of the base promotes the directory's inode, and forgets that the
    base's directory had one: the next look-up hands out another inode, of the base, and
    removing the new file through it succeeds and leaves the file. *)
Definition remove_created : O (Z * Z * option Z) :=
  d ← Ov.lookup 1 "d";
  Ov.create_file sample_fs (ino_of d) "new" 0x1a4 0 0 ≫= λ _,
  d' ← Ov.lookup 1 "d";
  Ov.unlink (ino_of d') "new" ≫= λ _,
  left ← Ov.lookup (ino_of d') "new";
  mret (ino_of d, ino_of d', st_ino <$> left).
Theorem promoted_directory_keeps_file : (remove_created mounted).1 = Ok (2, 4, Some 3).
Proof. vm_compute. reflexivity. Qed.

(** Renaming a directory of the base copies the directory without what is in it: its entries are
    not found under the new name. *)
Definition rename_directory : O (list string * list string) :=
  d ← Ov.lookup 1 "d";
  before ← Ov.readdir (ino_of d);
  Ov.rename sample_fs 1 "d" 1 "k" ≫= λ _,
  k ← Ov.lookup 1 "k";
  after ← Ov.readdir (ino_of k);
  mret (default [] before, default [] after).
Theorem renamed_directory_is_empty : (rename_directory mounted).1 = Ok (["e"; "h"], []).
Proof. vm_compute. reflexivity. Qed.

(** Renaming a file out of a directory only the base has fails: the directory's inode in the delta
    is looked for before the copy creates it. *)
Definition rename_out : O unit :=
  d ← Ov.lookup 1 "d";
  Ov.rename sample_fs (ino_of d) "h" 1 "z".
Theorem rename_out_of_base_fails : (rename_out mounted).1 = Err (EFs NotFound).
Proof. vm_compute. reflexivity. Qed.

(** Creating a file in a directory of the base that only its owner may read leaves it readable by
    everyone: the delta's copy of the directory has mode 0755. *)
Definition locked_base : BaseFS := frozen sample_fs (Fs.chmod 3 0x1c0 demo).2.
Definition create_in_locked : O (option Z * option Z) :=
  d ← Ov.lookup (B := locked_base) 1 "d";
  Ov.create_file (B := locked_base) sample_fs (ino_of d) "new" 0x1a4 0 0 ≫= λ _,
  d' ← Ov.lookup (B := locked_base) 1 "d";
  mret (st_mode <$> d, st_mode <$> d').
Theorem copied_directory_mode :
  (create_in_locked mounted).1 = Ok (Some (Z.lor S_IFDIR 0x1c0), Some (Z.lor S_IFDIR 0x1ed)).
Proof. vm_compute. reflexivity. Qed.
