(* ===== verification/OverlayCopy.v ===== *)
(** * The overlay file system: copying a base file into the delta

    Before a file of the base is written to, [copy_up] makes the directories above it and a
    copy of it in the delta. *)

From S2P Require Import Prelude Types Tables Monad Wp Instances Sql File FileSpec Paths SecafsInode Setup.
From S2P Require Import SecafsPath InodeSpec TreeInv SysInv Samples Steps DbInv PathSpec Overlay OverlaySpec.
From S2P Require Import OverlaySpec OverlayInv OverlayThms.

#[local] Open Scope string_scope.
#[local] Open Scope list_scope.
#[local] Open Scope Z_scope.

(** ** Growing the delta *)

(** What is not touched of an inode: its type, owner and size (a directory's times and link
    count change when an entry is added). *)
Definition same_file (r r' : inode) : Prop :=
  i_mode r' = i_mode r ∧ i_uid r' = i_uid r ∧ i_gid r' = i_gid r ∧ i_size r' = i_size r.
Record grown {E : Env} (s s' : state) : Prop := {
  gr_inv : sys_inv s → sys_inv s';
  gr_walk i cs j : walk (cur s) i cs = Some j → walk (cur s') i cs = Some j;
  gr_row i r : fs_inode (cur s) !! i = Some r → ∃ r', fs_inode (cur s') !! i = Some r' ∧ same_file r r';
  gr_data i c : is_Some (fs_inode (cur s) !! i) → fs_data (cur s') !! (i, c) = fs_data (cur s) !! (i, c);
  gr_seq : seq_ino s ≤ seq_ino s';
}.

(** The file system's tables are the same. *)
Record same_fs {E : Env} (s s' : state) : Prop := {
  sf_inv : sys_inv s → sys_inv s';
  sf_seq : seq_ino s' = seq_ino s;
  sf_inode : fs_inode (cur s') = fs_inode (cur s);
  sf_dentry : fs_dentry (cur s') = fs_dentry (cur s);
  sf_data : fs_data (cur s') = fs_data (cur s);
}.
Lemma walk_same d d' i cs : fs_dentry d' = fs_dentry d → walk d' i cs = walk d i cs.
Proof.
  intros Hd. revert i. induction cs as [|c cs IH]; intros i; simpl; [done|].
  unfold child. rewrite Hd. destruct (_ <$> _); simpl; [apply IH|done].
Qed.

Section grown.
Context {E : Env} {HQ : Quiet E} {HL : LruLaws E}.
Implicit Types (s : state) (o : overlay_maps).

Lemma grown_trans s1 s2 s3 : grown s1 s2 → grown s2 s3 → grown s1 s3.
Proof.
  intros [I1 W1 R1 D1 S1] [I2 W2 R2 D2 S2]. split; [auto|eauto| | |lia].
  - intros i r Hr. destruct (R1 i r Hr) as (r1 & Hr1 & (? & ? & ? & ?)).
    destruct (R2 i r1 Hr1) as (r2 & Hr2 & (? & ? & ? & ?)). exists r2.
    split; [done|]. split_and!; congruence.
  - intros i c [r Hr]. destruct (R1 i r Hr) as (r1 & Hr1 & _). rewrite D2 by eauto. apply D1. eauto.
Qed.
Lemma grown_same s s' : same_fs s s' → grown s s'.
Proof.
  intros [Hi Hs Hn Hd Hf]. split; rewrite ?Hn, ?Hf; [done| |by intros i r Hr; exists r|done|lia].
  intros i cs j. by rewrite (walk_same (cur s) (cur s')).
Qed.
Lemma same_refl s : same_fs s s.
Proof. done. Qed.
Lemma grown_refl s : grown s s.
Proof. apply grown_same, same_refl. Qed.
Lemma same_resolved s s' : sys_inv s' → resolved s s' → same_fs s s'.
Proof. intros Hi Hr. split; rewrite ?(resolved_cur _ _ Hr); try done. apply Hr. Qed.
Lemma same_overlay v s s' : db_step s s' → cur s' = set_overlay v (cur s) → same_fs s s'.
Proof.
  intros Hs Hc. split; rewrite ?Hc; try done; [|apply Hs]. intros Hi. by eapply overlay_write_inv.
Qed.
Lemma same_tick s s' : same_fs s s' → same_fs s (tick s').
Proof.
  intros [Hi Hs Hn Hd Hf]. split; st; try done. intros Hinv. destruct (Hi Hinv) as [Ht [F1 F2 F3 F4 F5] Htr Hc].
  split; st; [done|split; st; done|done|done].
Qed.
Lemma same_trans s1 s2 s3 : same_fs s1 s2 → same_fs s2 s3 → same_fs s1 s3.
Proof. intros [] []. split; [auto|congruence..]. Qed.
Lemma grown_created p n row up tgt s s' :
  sys_inv s → dir_row (fs_inode (cur s)) p → child (cur s) p n = None →
  (is_dir row = false → i_nlink row = 1) → (∀ r, is_dir (up r) = is_dir r) → (∀ r, same_file r (up r)) →
  created p n row up tgt s s' → grown s s'.
Proof.
  intros Hinv Hp Hfree Hrow Hup Hsame Hcr. split.
  - intros _. by eapply created_inv.
  - intros i cs j. eapply walk_insert; [apply Hcr|by apply child_None].
  - intros i r Hr. rewrite (cr_inode _ _ _ _ _ _ _ Hcr).
    assert (Hne : seq_ino s + 1 ≠ i).
    { intros <-. rewrite (fresh_ino _ (si_fresh _ Hinv)) in Hr by lia. done. }
    destruct (decide (p = i)) as [->|Hpi].
    + rewrite lookup_alter_eq, lookup_insert_ne, Hr by done. simpl. eauto.
    + rewrite lookup_alter_ne, lookup_insert_ne, Hr by done. exists r. by split.
  - intros i c _. by rewrite (cr_data _ _ _ _ _ _ _ Hcr).
  - rewrite (cr_seq_ino _ _ _ _ _ _ _ Hcr). lia.
Qed.
Lemma grown_dir s s' i : grown s s' → dir_row (fs_inode (cur s)) i → dir_row (fs_inode (cur s')) i.
Proof.
  intros Hg (r & Hr & Hd). destruct (gr_row _ _ Hg i r Hr) as (r' & Hr' & Hm & _). exists r'.
  split; [done|]. unfold is_dir in *. by rewrite Hm.
Qed.

(** *** Steps of the copy *)

Lemma owp_remove_whiteout path o s :
  txn s = None →
  owp (Ov.remove_whiteout path) (o, s) (λ r t, ∃ o' s', r = Ok tt ∧ t = (o', s') ∧ same_fs s s').
Proof.
  intros Ht. pose proof (no_txn_aborted s Ht) as Hab. unfold Ov.remove_whiteout. owp_steps. simpl.
  destruct (bool_decide _); simpl; [|owp_steps; eauto 10 using same_refl].
  apply owp_bind, owp_lift. wp_steps. apply owp_bind, owp_lift. simpl. wp_steps. owp_steps. simpl.
  eexists _, _. split; [done|]. split; [done|]. eapply same_overlay; [auto 10|by st].
Qed.
Lemma owp_add_origin d b o s :
  txn s = None →
  owp (Ov.add_origin_mapping d b) (o, s) (λ r t, ∃ s', r = Ok tt ∧
    t = (set_origin_map (<[d:=b]> (origin_map o)) o, s') ∧ same_fs s s').
Proof.
  intros Ht. pose proof (no_txn_aborted s Ht) as Hab. unfold Ov.add_origin_mapping.
  apply owp_bind, owp_lift. wp_steps. apply owp_bind, owp_lift. simpl. wp_steps. owp_steps. simpl.
  eexists. split; [done|]. split; [done|]. eapply same_overlay; [auto 10|by st].
Qed.
Lemma touch_same t k r : same_file r (set_mtime t (set_ctime t (add_nlink k r))).
Proof. done. Qed.

(** A directory just made has nothing in it. *)
Lemma fresh_no_child p n row up tgt s s' c :
  sys_inv s → dir_row (fs_inode (cur s)) p → created p n row up tgt s s' →
  child (cur s') (seq_ino s + 1) c = None.
Proof.
  intros Hinv (r & Hr & _) Hcr. pose proof (si_fresh _ Hinv) as Hf.
  assert (Hp : p ≠ seq_ino s + 1).
  { intros ->. rewrite (fresh_ino _ Hf) in Hr by lia. done. }
  apply child_None. rewrite (cr_dentry _ _ _ _ _ _ _ Hcr), lookup_insert_ne by congruence.
  destruct (fs_dentry (cur s) !! (seq_ino s + 1, c)) as [e|] eqn:He; [|done].
  destruct (ti_parent _ _ (si_tree _ Hinv) _ _ He) as (r' & Hr' & _). simpl in Hr'.
  rewrite (fresh_ino _ Hf) in Hr' by lia. done.
Qed.
Lemma wp_mkdir_grown p c m u g s :
  sys_inv s → dir_row (fs_inode (cur s)) p → child (cur s) p c = None → str_len c ≤ MAX_NAME_LEN →
  wp (Fs.mkdir p c m u g) s (λ r s', ∃ st, r = Ok st ∧ grown s s' ∧ sys_inv s' ∧
    child (cur s') p c = Some (st_ino st) ∧ dir_row (fs_inode (cur s')) (st_ino st) ∧
    ∀ n, child (cur s') (st_ino st) n = None).
Proof.
  intros Hinv Hp Hc Hlen.
  eapply wp_mono; [|apply wp_mkdir; split_and!; [apply Hinv|apply Hinv|done|done]].
  intros r s' (t & -> & Hcr). set (m' := Z.lor S_IFDIR (Z.land m 0xfff)) in *.
  assert (Hdir : is_dir (new_inode m' 2 u g 0 0 t) = true) by apply has_type_dir_perm.
  assert (Hg : grown s s').
  { refine (grown_created _ _ _ _ _ _ _ Hinv Hp Hc _ _ _ Hcr); [by rewrite Hdir|done|intros; apply touch_same]. }
  eexists. split; [done|]. split; [done|]. split; [by apply Hg|]. simpl. split_and!.
  - unfold child. rewrite (cr_dentry _ _ _ _ _ _ _ Hcr), lookup_insert_eq. done.
  - rewrite (cr_inode _ _ _ _ _ _ _ Hcr). apply dir_row_alter; [done|].
    eexists. by rewrite lookup_insert_eq.
  - intros n. by eapply fresh_no_child.
Qed.
Lemma grown_child s s' p n i : grown s s' → child (cur s) p n = Some i → child (cur s') p n = Some i.
Proof.
  intros Hg Hc. pose proof (gr_walk _ _ Hg p [n] i) as Hw. simpl in Hw. rewrite Hc in Hw.
  specialize (Hw eq_refl). by destruct (child (cur s') p n).
Qed.
Lemma walk_cons d i c cs j k : child d i c = Some j → walk d j cs = Some k → walk d i (c :: cs) = Some k.
Proof. intros Hc Hw. simpl. by rewrite Hc. Qed.
End grown.

(** ** The directories above a file *)

(** No file of the delta is in the way. *)
Definition clear_way (d : db) (i : Z) (cs : list string) : Prop :=
  ∀ pre x, pre `prefix_of` cs → walk d i pre = Some x → dir_row (fs_inode d) x.

Section ensure.
Context {E : Env} {HQ : Quiet E} {HL : LruLaws E} {B : BaseFS} {HB : BaseAnswers B}.
Implicit Types (s : state) (o : overlay_maps).

Lemma clear_way_tail d i c cs j : clear_way d i (c :: cs) → child d i c = Some j → clear_way d j cs.
Proof.
  intros Hw Hc pre x Hp Hx. apply (Hw (c :: pre) x); [by apply prefix_cons|]. simpl. by rewrite Hc.
Qed.
Lemma clear_way_empty d i cs :
  dir_row (fs_inode d) i → (∀ n, child d i n = None) → clear_way d i cs.
Proof.
  intros Hi Hn pre x Hp. destruct pre as [|c pre]; simpl; [by intros [= <-]|]. by rewrite Hn.
Qed.
Lemma same_clear s s' i cs : same_fs s s' → clear_way (cur s) i cs → clear_way (cur s') i cs.
Proof.
  intros [_ _ Hi Hd _] Hw pre x Hp. rewrite Hi, (walk_same (cur s) (cur s')) by done. by apply Hw.
Qed.
Lemma same_child s s' p n : same_fs s s' → child (cur s') p n = child (cur s) p n.
Proof. intros Hs. unfold child. by rewrite (sf_dentry _ _ Hs). Qed.
Lemma same_dir s s' i : same_fs s s' → dir_row (fs_inode (cur s)) i → dir_row (fs_inode (cur s')) i.
Proof. intros Hs. by rewrite (sf_inode _ _ Hs). Qed.

(** [ensure_parent_dirs] makes the way in the delta, and loses nothing. *)
Lemma owp_ensure_dirs cs path i b u g o s :
  sys_inv s → Forall valid_name cs → dir_row (fs_inode (cur s)) i → clear_way (cur s) i cs →
  owp (Ov.ensure_dirs cs path i b u g) (o, s) (λ r t, ∃ o' s' j, r = Ok tt ∧ t = (o', s') ∧ grown s s' ∧
    sys_inv s' ∧ walk (cur s') i cs = Some j ∧ dir_row (fs_inode (cur s')) j ∧
    ∀ n, child (cur s') j n = walk (cur s) i (cs ++ [n])).
Proof.
  revert path i b o s. induction cs as [|c cs IH]; intros path i b o s Hinv Hv Hi Hw; cbn [Ov.ensure_dirs].
  { owp_steps. exists o, s, i. split_and!; auto using grown_refl. intros n. by rewrite walk_last. }
  apply Forall_cons in Hv as [Hc Hv]. apply owp_bind. eapply owp_mono; [|apply owp_remove_whiteout, Hinv].
  intros r t (o1 & s1 & -> & -> & Hs1). cbv beta iota.
  apply owp_bind, owp_lift. eapply wp_mono; [|by apply wp_lookup; [apply Hs1|]].
  intros r s2 (-> & Hr2 & Hinv2). simpl.
  assert (Hs2 : same_fs s s2) by (eapply same_trans; [done|by apply same_resolved]).
  rewrite (same_child s s1) by done. rewrite (sf_inode _ _ Hs1).
  destruct (child (cur s) i c) as [j|] eqn:Hj; simpl.
  - assert (Hjd : dir_row (fs_inode (cur s)) j).
    { apply (Hw [c] j); [by apply prefix_cons, prefix_nil|]. simpl. by rewrite Hj. }
    pose proof Hjd as (row & Hrow & Hd). rewrite Hrow. simpl. rewrite is_directory_stats.
    unfold is_dir in Hd. rewrite Hd. owp_steps. rewrite base_lookup_child by done.
    eapply owp_mono; [|apply (IH _ j); [done|done|by eapply same_dir|]].
    2: { eapply same_clear; [done|]. by eapply clear_way_tail. }
    intros r t (o3 & s3 & k & -> & -> & Hg & Hinv3 & Hwk & Hkd & Hend). exists o3, s3, k.
    assert (Hg' : grown s s3) by (eapply grown_trans; [by apply grown_same|done]).
    split_and!; try done; [eapply walk_cons; [by eapply grown_child|done]|].
    intros n. rewrite Hend. apply walk_same, Hs2.
  - owp_steps. rewrite base_lookup_child by done. cbv iota. set (bs := base_child b c).
    destruct (match bs with Some s0 => _ | None => _ end) as [[du dg] nb].
    apply owp_bind, owp_lift. eapply wp_mono; [|apply wp_mkdir_grown; [done|by eapply same_dir| |apply Hc]].
    2: { by rewrite (same_child s). }
    intros r s3 (st & -> & Hg3 & Hinv3 & Hc3 & Hd3 & He3). simpl. apply owp_bind.
    assert (Hstep : owp (match bs with
      | Some s0 => Ov.add_origin_mapping (st_ino st) (st_ino s0) ≫= λ _,
          Ov.promote_to_delta (path +:+ "/" +:+ c) (st_ino st)
      | None => mret tt end) (o1, s3) (λ r t, ∃ o4 s4, r = Ok tt ∧ t = (o4, s4) ∧ same_fs s3 s4)).
    { destruct bs as [b0|]; [|owp_steps; eauto 10 using same_refl]. apply owp_bind.
      eapply owp_mono; [|apply owp_add_origin, Hinv3]. intros r t (s4 & -> & -> & Hs4). simpl.
      unfold Ov.promote_to_delta. owp_steps. eauto 10. }
    eapply owp_mono; [|exact Hstep]. intros r t (o4 & s4 & -> & -> & Hs4). cbv beta iota.
    eapply owp_mono; [|apply (IH _ (st_ino st)); [by apply Hs4|done|by eapply same_dir|]].
    2: { eapply same_clear; [done|]. by apply clear_way_empty. }
    intros r t (o5 & s5 & k & -> & -> & Hg5 & Hinv5 & Hwk & Hkd & Hend). exists o5, s5, k.
    assert (Hg35 : grown s3 s5) by (eapply grown_trans; [by apply grown_same|done]).
    split_and!; try done.
    + eapply grown_trans; [by apply grown_same|]. by eapply grown_trans.
    + eapply walk_cons; [by eapply grown_child|done].
    + intros n. rewrite Hend, (walk_same (cur s3)) by apply Hs4.
      destruct cs; simpl; by rewrite He3.
Qed.
End ensure.

(** ** The file itself *)

Section file.
Context {E : Env} {HQ : Quiet E} {HL : LruLaws E} (fs : SecAFS).
Hypothesis Hcs : 0 < chunk_size fs.
Implicit Types (s : state) (o : overlay_maps).

(** Writing leaves the mode and the owner of a file. *)
Lemma wp_pwrite_row f off b s :
  0 < f_chunk_size f → sys_inv s →
  wp (pwrite f off b) s (λ _ s', seq_ino s' = seq_ino s ∧
    ∀ r, fs_inode (cur s) !! f_ino f = Some r → ∃ r', fs_inode (cur s') !! f_ino f = Some r' ∧
      i_mode r' = i_mode r ∧ i_uid r' = i_uid r ∧ i_gid r' = i_gid r).
Proof.
  intros Hc Hinv. pose proof (si_txn _ Hinv) as Htx. pose proof (no_txn_cur s Htx) as Hcur.
  unfold pwrite. case_decide; [fs_steps; by eauto 10|]. fs_steps. apply wp_begin; [by st|]. fs_steps.
  unfold write_data_at_offset_with_conn. rewrite decide_False by done.
  eapply wp_mono; [|apply wp_write_loop_frame; [done|by st]].
  intros r s1 (-> & Hs & Ho). pose proof (db_step_aborted _ _ Hs) as Hab. st.
  rewrite <- Hcur in *. fs_steps. destruct Hs as (Ht1 & _ & Hca & Hsi & Hsd). st. simpl in Ht1.
  eapply wp_commit; [st; by rewrite Ht1|]. split; [by st|]. intros row Hrow. tables.
  rewrite (od_inode _ _ _ Ho), lookup_alter_eq, Hrow. simpl. eauto 10.
Qed.

Lemma contents_new d ino : file_size d ino = 0 → contents (chunk_size fs) d ino = [].
Proof. unfold contents. by intros ->. Qed.
Lemma spec_write_new data : spec_write 0 data [] = data.
Proof.
  pose proof (Vec.len_nonneg data). apply Vec.ext.
  - rewrite len_spec_write by lia. change (Vec.len []) with 0. lia.
  - intros i Hi. rewrite len_spec_write in Hi by lia. change (Vec.len []) with 0 in Hi.
    rewrite get_spec_write by lia. rewrite decide_True by lia. f_equal. lia.
Qed.

(** The copy: the new file [j] has the bytes, the permissions and the owner. *)
Record copied (p : Z) (n : string) (mode u g : Z) (data : list byte) (s s' : state) (j : Z) : Prop := {
  cp_grown : grown s s';
  cp_child : child (cur s') p n = Some j;
  cp_contents : contents (chunk_size fs) (cur s') j = data;
  cp_row : ∃ row, fs_inode (cur s') !! j = Some row ∧
    i_mode row = Z.lor S_IFREG (Z.land mode 0xfff) ∧ i_uid row = u ∧ i_gid row = g;
}.

Lemma touch_same' t r : same_file r (set_mtime t (set_ctime t r)).
Proof. done. Qed.
Lemma wp_create_grown p n m u g s :
  sys_inv s → dir_row (fs_inode (cur s)) p → child (cur s) p n = None → str_len n ≤ MAX_NAME_LEN →
  wp (Fs.create_file fs p n m u g) s (λ r s', ∃ st, r = Ok (st, mkFile (seq_ino s + 1) (chunk_size fs)) ∧
    st_ino st = seq_ino s + 1 ∧ copied p n m u g [] s s' (seq_ino s + 1) ∧ sys_inv s' ∧
    seq_ino s' = seq_ino s + 1 ∧ file_wf (chunk_size fs) (cur s') (seq_ino s + 1)).
Proof.
  intros Hinv Hp Hc Hlen.
  eapply wp_mono; [|apply wp_create_file; split_and!; [apply Hinv|apply Hinv|done|done]].
  intros r s' (t & -> & Hcr). set (m' := Z.lor S_IFREG (Z.land m 0xfff)) in *.
  assert (Hg : grown s s').
  { refine (grown_created _ _ _ _ _ _ _ Hinv Hp Hc _ _ _ Hcr); [done|done|intros; apply touch_same']. }
  assert (Hpn : p ≠ seq_ino s + 1).
  { destruct Hp as (rp & Hrp & _). intros ->. by rewrite (fresh_ino _ (si_fresh _ Hinv)) in Hrp by lia. }
  assert (Hrow : fs_inode (cur s') !! (seq_ino s + 1) = Some (new_inode m' 1 u g 0 0 t)).
  { rewrite (cr_inode _ _ _ _ _ _ _ Hcr), lookup_alter_ne by done. apply lookup_insert_eq. }
  assert (Hsize : file_size (cur s') (seq_ino s + 1) = 0) by (unfold file_size; by rewrite Hrow).
  eexists. split; [done|]. split; [done|]. split; [|split_and!; [by apply Hg|apply Hcr|]].
  - split; [done| |by apply contents_new|eauto 10].
    unfold child. by rewrite (cr_dentry _ _ _ _ _ _ _ Hcr), lookup_insert_eq.
  - split; rewrite Hsize; [lia|]. intros c b Hb. rewrite (cr_data _ _ _ _ _ _ _ Hcr) in Hb.
    by rewrite (fresh_data _ (si_fresh _ Hinv) (_, _)) in Hb by (simpl; lia).
Qed.

(** Filling the new file. *)
Lemma wp_fill p n m u g data s s1 :
  sys_inv s → sys_inv s1 → Vec.len data < 2 ^ 63 → seq_ino s1 = seq_ino s + 1 →
  copied p n m u g [] s s1 (seq_ino s + 1) → file_wf (chunk_size fs) (cur s1) (seq_ino s + 1) →
  wp (pwrite (mkFile (seq_ino s + 1) (chunk_size fs)) 0 data) s1 (λ r s', r = Ok tt ∧ sys_inv s' ∧
    copied p n m u g data s s' (seq_ino s + 1)).
Proof.
  intros Hinv0 Hinv Hlen Hseq Hcp Hwf. pose proof Hcp as [Hg Hch Hco (row & Hrow & Hm & Hu & Hgi)].
  destruct (decide (data = [])) as [->|Hne].
  { unfold pwrite. rewrite decide_True by done. by fs_steps. }
  set (f := mkFile (seq_ino s + 1) (chunk_size fs)).
  pose proof (wp_pwrite f 0 data s1 Hcs (si_txn _ Hinv) Hwf ltac:(eauto) ltac:(lia) ltac:(lia) Hne) as Hw.
  pose proof (keep_pwrite f 0 data s1 ltac:(split; simpl; lia) Hinv) as Hk.
  pose proof (wp_pwrite_row f 0 data s1 Hcs Hinv) as Hr. unfold wp in *.
  destruct (pwrite f 0 data s1) as [r s']. simpl in *.
  destruct Hw as (-> & _ & _ & Hc' & _ & [Hfi Hfd Hfe _]), Hr as [Hseq' Hr].
  destruct (Hr row Hrow) as (row' & Hrow' & Hm' & Hu' & Hg').
  assert (Hold : ∀ i, is_Some (fs_inode (cur s) !! i) → i ≠ seq_ino s + 1).
  { intros i [x Hx] ->. by rewrite (fresh_ino _ (si_fresh _ Hinv0)) in Hx by lia. }
  split; [done|]. split; [done|]. split.
  - destruct Hg as [I W R D S]. split; [done| | | |lia].
    + intros i cs j Hwk. rewrite (walk_same (cur s1) (cur s')) by done. by apply W.
    + intros i x Hx. rewrite Hfi by eauto. by apply R.
    + intros i c Hi. rewrite Hfd by (simpl; by apply Hold). by apply D.
  - unfold child in *. by rewrite Hfe.
  - rewrite Hc', Hco. apply spec_write_new.
  - exists row'. split_and!; congruence.
Qed.
End file.

(** ** Opening a file of the base *)

Section open.
Context {E : Env} {HQ : Quiet E} {HL : LruLaws E} {B : BaseFS} {HB : BaseAnswers B} (fs : SecAFS).
Hypothesis Hcs : 0 < chunk_size fs.
Implicit Types (s : state) (o : overlay_maps).

(** The base has a regular file, readable as a whole. *)
Record base_file (b : Z) (st : Stats) (data : list byte) : Prop := {
  bf_stats : base_getattr b = Ok (Some st);
  bf_symlink : is_symlink st = false;
  bf_directory : is_directory st = false;
  bf_read : ∃ read, base_open b = Ok read ∧ read 0 (Int.u64 (st_size st)) = Ok data;
  bf_len : Vec.len data < 2 ^ 63;
}.

Lemma walk_root_dir s : sys_inv s → dir_row (fs_inode (cur s)) 1.
Proof. intros Hinv. apply (ti_root _ _ (si_tree _ Hinv)). Qed.
(** The file is not in the delta yet, in whatever directory the way leads to. *)
Lemma owp_not_copied cs n o s :
  sys_inv s → Forall valid_name (cs ++ [n]) → walk (cur s) 1 (cs ++ [n]) = None →
  owp (found ← Ov.walk_delta cs 1;
       match found with Some parent => lift (Fs.lookup parent n) | None => mret None end) (o, s)
    (λ r t, ∃ s', r = Ok None ∧ t = (o, s') ∧ same_fs s s' ∧ sys_inv s').
Proof.
  intros Hinv [Hv [Hn _]%Forall_cons]%Forall_app Hw. rewrite walk_last in Hw. apply owp_bind.
  eapply owp_mono; [|by apply owp_walk_delta]. intros r t (s1 & -> & -> & Hr & Hinv1). cbv beta iota.
  assert (Hs1 : same_fs s s1) by (by apply same_resolved).
  destruct (walk (cur s) 1 cs) as [p|]; simpl in Hw; [|owp_steps; by exists s1].
  apply owp_lift. eapply wp_mono; [|by apply wp_lookup]. intros r s2 (-> & Hr2 & Hinv2). simpl. exists s2.
  rewrite (same_child s s1), Hw by done. split_and!; [done|done| |done].
  eapply same_trans; [done|by apply same_resolved].
Qed.

Lemma owp_copy_up cs n b st data o s :
  sys_inv s → Forall valid_name (cs ++ [n]) → walk (cur s) 1 (cs ++ [n]) = None → clear_way (cur s) 1 cs →
  base_file b st data →
  owp (Ov.copy_up fs (render (cs ++ [n])) b) (o, s) (λ r t, ∃ j o' s' p s1, r = Ok j ∧ t = (o', s') ∧
    sys_inv s' ∧ grown s s' ∧ walk (cur s') 1 (cs ++ [n]) = Some j ∧ origin_map o' !! j = Some b ∧
    copied fs p n (st_mode st) (st_uid st) (st_gid st) data s1 s' j).
Proof.
  intros Hinv Hv Hw Hclear [Hst Hsym Hdir (read & Hop & Hrd) Hlen]. unfold Ov.copy_up.
  rewrite components_render by (by apply valid_clean). rewrite last_snoc, removelast_last.
  pose proof Hv as [Hvc [Hn _]%Forall_cons]%Forall_app.
  apply owp_assoc, owp_bind. eapply owp_mono; [|by apply owp_not_copied].
  intros r t (s1 & -> & -> & Hs1 & Hinv1). cbv beta iota. owp_steps. rewrite Hst. cbn [or_not_found]. owp_steps.
  unfold Ov.ensure_parent_dirs. rewrite components_render by (by apply valid_clean). rewrite removelast_last.
  eapply owp_mono; [|apply (owp_ensure_dirs cs); [done|done|by apply walk_root_dir|by eapply same_clear]].
  intros r t (o2 & s2 & p & -> & -> & Hg2 & Hinv2 & Hp & Hpd & Hend). cbv beta iota. apply owp_bind.
  eapply owp_mono; [|by apply owp_walk_delta]. intros r t (s3 & -> & -> & Hr3 & Hinv3). rewrite Hp.
  cbn [or_not_found]. owp_steps. assert (Hs3 : same_fs s2 s3) by (by apply same_resolved).
  assert (Hg3 : grown s s3).
  { eapply grown_trans; [by apply grown_same|]. eapply grown_trans; [done|by apply grown_same]. }
  assert (Hnone : child (cur s3) p n = None).
  { by rewrite (same_child s2), Hend, (walk_same (cur s)) by (done || apply Hs1). }
  unfold Ov.copy_file. rewrite Hsym, Hdir, Hop. owp_steps. rewrite Hrd. apply owp_bind, owp_lift.
  eapply wp_mono; [|apply wp_create_grown; [done|by eapply same_dir|done|apply Hn]].
  intros r s4 (st' & -> & Hino & Hcp & Hinv4 & Hseq & Hwf). simpl. apply owp_bind, owp_lift.
  eapply wp_mono; [|by eapply (wp_fill fs Hcs p n)]. intros r s5 (-> & Hinv5 & Hcp5). simpl. owp_steps.
  rewrite Hino. eapply owp_mono; [|apply owp_add_origin, Hinv5]. intros r t (s6 & -> & -> & Hs6). cbv iota. owp_steps.
  assert (Hg56 : grown s5 s6) by (by apply grown_same).
  eexists _, _, s6, p, s3. split; [done|]. split; [done|]. split; [by apply Hs6|].
  split; [eapply grown_trans; [exact Hg3|]; eapply grown_trans; [apply Hcp5|done]|].
  assert (Hch : child (cur s6) p n = Some (seq_ino s3 + 1)) by (eapply grown_child; [exact Hg56|]; exact (cp_child _ _ _ _ _ _ _ _ _ _ Hcp5)).
  split; [|split; [apply lookup_insert_eq|]].
  - assert (Hg26 : grown s2 s6).
    { eapply grown_trans; [by apply grown_same|]. eapply grown_trans; [apply Hcp5|done]. }
    by rewrite walk_last, (gr_walk _ _ Hg26 1 cs p Hp).
  - destruct Hcp5 as [G C K R]. split; [by eapply grown_trans|done| |].
    + rewrite (contents_frame _ (cur s5)); [done|by rewrite (sf_inode _ _ Hs6)|by rewrite (sf_data _ _ Hs6)].
    + by rewrite (sf_inode _ _ Hs6).
Qed.

(** C21. Opening a file only the base has gives a handle on a faithful copy in the delta: the same
    path leads to it, it has the bytes of the base file, its permission bits and its owner; it is
    remembered as the copy of that file and the overlay's inode stands for it from then on.
    Nothing that was in the delta is lost: every path still leads where it led, and no file that
    existed changes its type, owner, size or bytes. *)
Theorem overlay_open_copies ino cs n info st data flags o s :
  sys_inv s → at_path o (cur s) ino (cs ++ [n]) info → layer info = Base →
  walk (cur s) 1 (cs ++ [n]) = None → clear_way (cur s) 1 cs → base_file (underlying_ino info) st data →
  ∃ j o' s', Ov.open fs ino flags (o, s) = (Ok (mkFile j (chunk_size fs)), (o', s')) ∧
    grown s s' ∧ walk (cur s') 1 (cs ++ [n]) = Some j ∧ contents (chunk_size fs) (cur s') j = data ∧
    (∃ row, fs_inode (cur s') !! j = Some row ∧ i_mode row = Z.lor S_IFREG (Z.land (st_mode st) 0xfff) ∧
       i_uid row = st_uid st ∧ i_gid row = st_gid st) ∧
    inode_map o' !! ino = Some (mkInfo Delta j (render (cs ++ [n]))) ∧
    origin_map o' !! j = Some (underlying_ino info).
Proof.
  intros Hinv Hap Hl Hw Hclear Hbf.
  assert (Hgoal : owp (Ov.open fs ino flags) (o, s) (λ r t, ∃ j o' s', r = Ok (mkFile j (chunk_size fs)) ∧
    t = (o', s') ∧ grown s s' ∧ walk (cur s') 1 (cs ++ [n]) = Some j ∧ contents (chunk_size fs) (cur s') j = data ∧
    (∃ row, fs_inode (cur s') !! j = Some row ∧ i_mode row = Z.lor S_IFREG (Z.land (st_mode st) 0xfff) ∧
       i_uid row = st_uid st ∧ i_gid row = st_gid st) ∧
    inode_map o' !! ino = Some (mkInfo Delta j (render (cs ++ [n]))) ∧
    origin_map o' !! j = Some (underlying_ino info))).
  { unfold Ov.open, Ov.writable, Ov.copy_up_and_update_mapping. apply owp_bind, owp_bind.
    eapply owp_known; [apply Hap|]. rewrite Hl. apply owp_bind. rewrite (ap_path _ _ _ _ _ Hap).
    eapply owp_mono; [|apply (owp_copy_up cs n); [done|apply Hap|done|done|done]].
    intros r t (j & o1 & s1 & p & s0 & -> & -> & Hinv1 & Hg & Hwk & Horg & [_ Hch Hc (row & Hrow & Hat)]).
    cbv beta iota. owp_steps. apply owp_lift. simpl. pose proof (no_txn_aborted s1 (si_txn _ Hinv1)).
    unfold Fs.open. fs_steps. rewrite bool_decide_eq_true_2 by (st; eauto). simpl. fs_steps.
    eexists j, _, _. split; [done|]. split; [done|].
    split; [eapply grown_trans; [exact Hg|]; apply grown_same, same_tick, same_tick, same_refl|].
    st. split_and!; [done|done|by eauto|apply lookup_insert_eq|done]. }
  destruct (owp_intro _ _ _ Hgoal) as (r & t & Hrun & j & o' & s' & -> & -> & H). by exists j, o', s'.
Qed.
End open.

(** ** The sample: opening [/d/h] of the base *)

(** The overlay after [/d] and [/d/h] were looked up. *)
Definition looked_up : overlay_maps * @state calm_env :=
  (Ov.lookup (E := calm_env) 2 "h" (Ov.lookup (E := calm_env) 1 "d" (new, blank)).2).2.
Lemma looked_up_inv : sys_inv looked_up.2.
Proof.
  split; [done|by apply fresh_check_sound; vm_compute|by apply tree_check_sound; vm_compute|].
  intros p n i. change (cache looked_up.2) with (lru_new (Env := calm_env) 16). by rewrite lru_new_spec.
Qed.
Lemma overlay_open_copies_witness :
  ∃ j o' s', Ov.open (E := calm_env) sample_fs 3 0 looked_up = (Ok (mkFile j 4096), (o', s')) ∧
    walk (cur s') 1 ["d"; "h"] = Some j ∧ contents 4096 (cur s') j = [].
Proof.
  destruct (overlay_open_copies (E := calm_env) sample_fs eq_refl 3 ["d"] "h" (mkInfo Base 5 "/d/h")
    (stats_of 5 (new_inode DEFAULT_FILE_MODE 2 0 0 0 0 (0, 0))) [] 0 looked_up.1 looked_up.2)
    as (j & o' & s' & Hrun & _ & Hw & Hc & _).
  - exact looked_up_inv.
  - split; [vm_compute; reflexivity|reflexivity| |vm_compute; reflexivity].
    apply valid_names. vm_compute. reflexivity.
  - reflexivity.
  - vm_compute. reflexivity.
  - intros pre x Hp Hx. destruct pre as [|c pre]; [|exfalso].
    + injection Hx as <-. apply dir_at_row. vm_compute. reflexivity.
    + apply prefix_cons_inv_1 in Hp as Hc. subst c. vm_compute in Hx. discriminate.
  - split; [vm_compute; reflexivity|reflexivity|reflexivity| |reflexivity].
    exists (λ offset size, (pread (mkFile 5 4096) offset size demo).1). split; [reflexivity|vm_compute; reflexivity].
  - exists j, o', s'. split; [exact Hrun|]. split; [exact Hw|exact Hc].
Defined.
