(* ===== verification/Utf8.v ===== *)
(** * UTF-8

    When a byte string is a Rust [str]. *)

From S2P Require Import Prelude.

#[local] Open Scope list_scope.
#[local] Open Scope Z_scope.

Definition cont (b : Z) : bool := (0x80 <=? b) && (b <=? 0xbf).
Definition between (lo b hi : Z) : bool := (lo <=? b) && (b <=? hi).
(** The first two bytes of a sequence of three, and of four. *)
Definition lead3 (a b : Z) : bool :=
  (a =? 0xe0) && between 0xa0 b 0xbf || between 0xe1 a 0xec && cont b ||
  (a =? 0xed) && between 0x80 b 0x9f || between 0xee a 0xef && cont b.
Definition lead4 (a b : Z) : bool :=
  (a =? 0xf0) && between 0x90 b 0xbf || between 0xf1 a 0xf3 && cont b ||
  (a =? 0xf4) && between 0x80 b 0x8f.
Fixpoint utf8 (l : list Z) : bool :=
  match l with
  | [] => true
  | a :: l1 =>
      if a <? 0x80 then utf8 l1
      else match l1 with
           | [] => false
           | b :: l2 =>
               if between 0xc2 a 0xdf && cont b then utf8 l2
               else match l2 with
                    | [] => false
                    | c :: l3 =>
                        if lead3 a b && cont c then utf8 l3
                        else match l3 with
                             | [] => false
                             | d :: l4 => if lead4 a b && cont c && cont d then utf8 l4 else false
                             end
                    end
           end
  end.
