(* ===== verification/FsClass.v ===== *)
(** * The file-system interface

    The trait [FileSystem] of [sdk/rust/src/filesystem/mod.rs], as the servers see it: a class of
    stateful operations.  SecAFS and the overlay are its two instances here. *)

From S2P Require Import Prelude Types Tables Monad Sql File SecafsInode Overlay.

(** An operation on a state [S]: the state is threaded through errors too. *)
Definition St (S A : Type) : Type := S → outcome A * S.

Class FileSystem (S : Type) := {
  BoxedFile : Type;
  fs_lookup : Z → string → St S (option Stats);
  fs_getattr : Z → St S (option Stats);
  fs_readlink : Z → St S (option string);
  fs_readdir : Z → St S (option (list string));
  fs_readdir_plus : Z → St S (option (list DirEntry));
  fs_chmod : Z → Z → St S unit;
  fs_chown : Z → option Z → option Z → St S unit;
  fs_utimens : Z → TimeChange → TimeChange → St S unit;
  fs_open : Z → Z → St S BoxedFile;
  fs_mkdir : Z → string → Z → Z → Z → St S Stats;
  fs_create_file : Z → string → Z → Z → Z → St S (Stats * BoxedFile);
  fs_mknod : Z → string → Z → Z → Z → Z → St S Stats;
  fs_symlink : Z → string → string → Z → Z → St S Stats;
  fs_unlink : Z → string → St S unit;
  fs_rmdir : Z → string → St S unit;
  fs_link : Z → Z → string → St S Stats;
  fs_rename : Z → string → Z → string → St S unit;
  fs_statfs : St S FilesystemStats;
  fs_forget : Z → Z → St S unit;
  file_pread : BoxedFile → Z → Z → St S (list byte);
  file_pwrite : BoxedFile → Z → list byte → St S unit;
  file_truncate : BoxedFile → Z → St S unit;
  file_fsync : BoxedFile → St S unit;
  file_fstat : BoxedFile → St S Stats;
}.

Section instances.
Context {E : Env} (fs : SecAFS).

(** The provided method [forget]: nothing.  The overlay passes it on to a layer: the delta is SecAFS,
    and the base has no state here. *)
Definition default_forget {S} (ino nlookup : Z) : St S unit := λ s, (Ok tt, s).

(** [impl FileSystem for SecAFS], [impl File for SecAFSFile] *)
Definition secafs_fs : FileSystem state := {|
  BoxedFile := SecAFSFile;
  fs_lookup := Fs.lookup;
  fs_getattr := Fs.getattr;
  fs_readlink := Fs.readlink;
  fs_readdir := Fs.readdir;
  fs_readdir_plus := Fs.readdir_plus;
  fs_chmod := Fs.chmod;
  fs_chown := Fs.chown;
  fs_utimens := Fs.utimens;
  fs_open := Fs.open fs;
  fs_mkdir := Fs.mkdir;
  fs_create_file := Fs.create_file fs;
  fs_mknod := Fs.mknod;
  fs_symlink := Fs.symlink;
  fs_unlink := Fs.unlink;
  fs_rmdir := Fs.rmdir;
  fs_link := Fs.link;
  fs_rename := Fs.rename;
  fs_statfs := Fs.statfs;
  fs_forget := default_forget;
  file_pread := pread;
  file_pwrite := pwrite;
  file_truncate := truncate;
  file_fsync _ := fsync;
  file_fstat f := fstat f;
|}.

(** [impl FileSystem for OverlayFS]: its open files are files of the delta. *)
Definition overlay_fs {B : BaseFS} : FileSystem (overlay_maps * state) := {|
  BoxedFile := SecAFSFile;
  fs_lookup := Ov.lookup;
  fs_getattr := Ov.getattr;
  fs_readlink := Ov.readlink;
  fs_readdir := Ov.readdir;
  fs_readdir_plus := Ov.readdir_plus;
  fs_chmod := Ov.chmod fs;
  fs_chown := Ov.chown fs;
  fs_utimens := Ov.utimens fs;
  fs_open := Ov.open fs;
  fs_mkdir := Ov.mkdir;
  fs_create_file := Ov.create_file fs;
  fs_mknod := Ov.mknod;
  fs_symlink := Ov.symlink;
  fs_unlink := Ov.unlink;
  fs_rmdir := Ov.rmdir;
  fs_link := Ov.link fs;
  fs_rename := Ov.rename fs;
  fs_statfs := Ov.statfs;
  fs_forget := default_forget;
  file_pread f o n := lift (pread f o n);
  file_pwrite f o b := lift (pwrite f o b);
  file_truncate f n := lift (truncate f n);
  file_fsync _ := lift fsync;
  file_fstat f := lift (fstat f);
|}.
End instances.
