(* ===== verification/Fuse.v ===== *)
(** * The FUSE server

    [SecAFSFuse] of [cli/src/fuse.rs]: the kernel's requests, answered from a file system behind
    the class [FileSystem].  It keeps the table of open files and shows the directory it serves
    as the kernel's inode 1.  A callback ends in the one reply it sends; the directory buffers
    are those of [cli/src/fuser/ll/reply.rs]. *)

From S2P Require Import Prelude Utf8 Types Tables Monad FsClass.

#[local] Open Scope string_scope.
#[local] Open Scope list_scope.
#[local] Open Scope Z_scope.

(** ** Names *)

Definition codes (s : string) : list Z :=
  (λ c, Z.of_nat (Ascii.nat_of_ascii c)) <$> String.list_ascii_of_string s.
(** [OsStr::to_str] *)
Definition to_str (name : string) : option string := if utf8 (codes name) then Some name else None.

(** ** Attributes *)

Inductive FileType := NamedPipe | CharDevice | BlockDevice | Directory | RegularFile | Symlink | Socket.

Record FileAttr := mkAttr {
  fa_ino : Z;
  fa_size : Z;
  fa_blocks : Z;
  fa_atime : Z * Z;
  fa_mtime : Z * Z;
  fa_ctime : Z * Z;
  fa_crtime : Z * Z;
  fa_kind : FileType;
  fa_perm : Z;
  fa_nlink : Z;
  fa_uid : Z;
  fa_gid : Z;
  fa_rdev : Z;
  fa_flags : Z;
  fa_blksize : Z;
}.

Definition error_to_errno (e : Error) : Z :=
  match e with
  | EFs fs_err => to_errno fs_err
  | EIo raw => default libc.EIO raw
  | EPostgres => libc.EAGAIN
  | EConnectionPoolTimeout => libc.EAGAIN
  | _ => libc.EIO
  end.

(** [UNIX_EPOCH + Duration::new(secs as u64, nsec)], which panics when it is beyond the last
    [SystemTime]; the time since the epoch. *)
Definition system_time (secs nsec : Z) : option (Z * Z) :=
  let s := Int.u64 secs + nsec `div` 1000000000 in
  if s <? 2 ^ 63 then Some (s, nsec `mod` 1000000000) else None.
Definition div_ceil (a b : Z) : Z := (a + b - 1) `div` b.
Definition kind_of (mode : Z) : FileType :=
  let t := Z.land mode S_IFMT in
  if t =? S_IFDIR then Directory
  else if t =? S_IFLNK then Symlink
  else if t =? S_IFIFO then NamedPipe
  else if t =? S_IFCHR then CharDevice
  else if t =? S_IFBLK then BlockDevice
  else if t =? S_IFSOCK then Socket
  else RegularFile.
Definition fillattr (st : Stats) : option FileAttr :=
  let size := if Z.land (st_mode st) S_IFMT =? S_IFDIR then 4096 else Int.u64 (st_size st) in
  atime ← system_time (st_atime st) (st_atime_nsec st);
  mtime ← system_time (st_mtime st) (st_mtime_nsec st);
  ctime ← system_time (st_ctime st) (st_ctime_nsec st);
  Some (mkAttr (Int.u64 (st_ino st)) size (div_ceil size 512) atime mtime ctime (0, 0)
    (kind_of (st_mode st)) (Z.land (st_mode st) 0xfff) (st_nlink st) (st_uid st) (st_gid st)
    (Int.u32 (st_rdev st)) 0 512).
Definition with_attr_ino (ino : Z) (a : FileAttr) : FileAttr :=
  mkAttr ino (fa_size a) (fa_blocks a) (fa_atime a) (fa_mtime a) (fa_ctime a) (fa_crtime a)
    (fa_kind a) (fa_perm a) (fa_nlink a) (fa_uid a) (fa_gid a) (fa_rdev a) (fa_flags a) (fa_blksize a).

(** [mode_from_kind_and_perm] *)
Definition mode_from_kind_and_perm (kind : FileType) (perm : Z) : Z :=
  Z.lor match kind with
        | NamedPipe => S_IFIFO
        | CharDevice => S_IFCHR
        | BlockDevice => S_IFBLK
        | Directory => S_IFDIR
        | RegularFile => S_IFREG
        | Symlink => S_IFLNK
        | Socket => S_IFSOCK
        end perm.

(** ** Directory buffers *)

(** [fuse_dirent] with its name. *)
Record dirent := mkDirent { dt_ino : Z; dt_off : Z; dt_typ : Z; dt_name : string }.
(** [size_of::<fuse_dirent>()], [size_of::<fuse_direntplus>()] *)
Definition DIRENT_SIZE : Z := 24.
Definition DIRENTPLUS_SIZE : Z := 152.
(** [EntListBuf]: the entries pushed and the bytes they take. *)
Record EntListBuf (A : Type) := mkBuf { max_size : Z; buf_len : Z; pushed : list A }.
Arguments mkBuf {A}.
Arguments max_size {A}.
Arguments buf_len {A}.
Arguments pushed {A}.
Definition entsize (header name_len : Z) : Z := (header + name_len + 7) `div` 8 * 8.
(** [EntListBuf::push] of a header and a name: [true] when the entry does not fit;
    [None] for [expect("Name too long")]. *)
Definition push {A} (header : Z) (name : string) (ent : A) (b : EntListBuf A) : option (bool * EntListBuf A) :=
  let n := Z.of_nat (String.length name) in
  if 2 ^ 32 <=? n then None
  else if max_size b <? buf_len b + entsize header n then Some (true, b)
  else Some (false, mkBuf (max_size b) (buf_len b + entsize header n) (pushed b ++ [ent])).

(** ** Replies *)

(** [ReplyNone]: a request that has no reply. *)
Inductive reply :=
  | ReplyNone
  | ReplyError (errno : Z)
  | ReplyEntry (attr : FileAttr)
  | ReplyAttr (attr : FileAttr)
  | ReplyData (data : list byte)
  | ReplyEmpty
  | ReplyOpen (fh : Z)
  | ReplyCreate (attr : FileAttr) (fh : Z)
  | ReplyWrite (size : Z)
  | ReplyStatfs (blocks bfree bavail files ffree bsize namelen frsize : Z)
  | ReplyDirectory (entries : list dirent)
  | ReplyDirectoryPlus (entries : list (dirent * FileAttr)).

Inductive TimeOrNow := SpecificTime (secs nsec : Z) | NowTime.
(** [t.duration_since(UNIX_EPOCH).unwrap_or_default()] *)
Definition time_change (t : option TimeOrNow) : TimeChange :=
  match t with
  | Some (SpecificTime secs nsec) => if secs <? 0 then SetTime 0 0 else SetTime secs nsec
  | Some NowTime => Now
  | None => Omit
  end.

(** ** The server *)

Section server.
Context {S : Type} {FS : FileSystem S}.

Record fuse := mkFuse { open_files : gmap Z BoxedFile; next_fh : Z }.
(** [SecAFSFuse::new] *)
Definition new_fuse : fuse := mkFuse ∅ 1.

(** A callback: the server's table and the file system's state are threaded; [None] is a
    panic. *)
Definition Fu (A : Type) : Type := fuse * S → option A * (fuse * S).
#[global] Instance Fu_ret : MRet Fu := λ A a t, (Some a, t).
#[global] Instance Fu_bind : MBind Fu := λ A B k m t,
  match m t with (Some a, t') => k a t' | (None, t') => (None, t') end.
Definition or_panic {A} (o : option A) : Fu A := λ t, (o, t).
(** [runtime.block_on(..)]: a call on the file system, whose error is a value. *)
Definition call {A} (m : St S A) : Fu (Error + A) := λ t,
  match m t.2 with
  | (Ok a, s) => (Some (inr a), (t.1, s))
  | (Err e, s) => (Some (inl e), (t.1, s))
  | (Panic, s) => (None, (t.1, s))
  end.
Definition open_file (fh : Z) : Fu (option BoxedFile) := λ t, (Some (open_files t.1 !! fh), t).
(** [alloc_fh] and [open_files.lock().insert(fh, OpenFile { file })] *)
Definition alloc_fh (file : BoxedFile) : Fu Z := λ t,
  let fh := next_fh t.1 in
  (Some fh, (mkFuse (<[fh:=file]> (open_files t.1)) (Int.u64 (fh + 1)), t.2)).
Definition remove_fh (fh : Z) : Fu unit := λ t,
  (Some tt, (mkFuse (delete fh (open_files t.1)) (next_fh t.1), t.2)).
End server.
Arguments fuse S {FS}.
Arguments Fu S {FS}.

Module Fuse.
Section callbacks.
Context {S : Type} {FS : FileSystem S} (root_ino : Z).

Definition kernel_to_db (kernel_ino : Z) : Z :=
  if kernel_ino =? 1 then root_ino else Int.i64 kernel_ino.
Definition db_to_kernel (db_ino : Z) : Z :=
  if db_ino =? root_ino then 1 else Int.u64 db_ino.
Definition fillattr_kernel (st : Stats) : option FileAttr :=
  with_attr_ino (db_to_kernel (st_ino st)) <$> fillattr st.

(** [let Some(name_str) = name.to_str() else { reply.error(libc::EINVAL); return }] *)
Definition with_name (name : string) (k : string → Fu S reply) : Fu S reply :=
  match to_str name with Some n => k n | None => mret (ReplyError libc.EINVAL) end.
(** [Ok(stats) => reply.entry(&TTL, &self.fillattr_kernel(&stats), 0)] *)
Definition reply_entry (st : Stats) : Fu S reply :=
  a ← or_panic (fillattr_kernel st); mret (ReplyEntry a).
Definition reply_attr (st : Stats) : Fu S reply :=
  a ← or_panic (fillattr_kernel st); mret (ReplyAttr a).
Definition reply_err (e : Error) : Fu S reply := mret (ReplyError (error_to_errno e)).
Definition on_ok {A} (r : Error + A) (k : A → Fu S reply) : Fu S reply :=
  match r with inr a => k a | inl e => reply_err e end.
Definition on_found {A} (r : Error + option A) (k : A → Fu S reply) : Fu S reply :=
  match r with
  | inr (Some a) => k a
  | inr None => mret (ReplyError libc.ENOENT)
  | inl e => reply_err e
  end.

(** *** Names and attributes *)

Definition lookup (parent : Z) (name : string) : Fu S reply :=
  with_name name (λ n,
    r ← call (fs_lookup (kernel_to_db parent) n);
    on_found r reply_entry).
Definition getattr (ino : Z) : Fu S reply :=
  r ← call (fs_getattr (kernel_to_db ino));
  on_found r reply_attr.
Definition readlink (ino : Z) : Fu S reply :=
  r ← call (fs_readlink (kernel_to_db ino));
  on_found r (λ target, mret (ReplyData (String.list_byte_of_string target))).

(** [if let Err(e) = result { reply.error(..); return }] *)
Definition unless_err (r : Error + unit) (k : Fu S reply) : Fu S reply :=
  match r with inr _ => k | inl e => reply_err e end.
Definition setattr_mode (ino : Z) (mode : option Z) (k : Fu S reply) : Fu S reply :=
  match mode with
  | Some m => r ← call (fs_chmod ino m); unless_err r k
  | None => k
  end.
Definition setattr_owner (ino : Z) (uid gid : option Z) (k : Fu S reply) : Fu S reply :=
  match uid, gid with
  | None, None => k
  | _, _ => r ← call (fs_chown ino uid gid); unless_err r k
  end.
Definition setattr_size (ino : Z) (size fh : option Z) (k : Fu S reply) : Fu S reply :=
  match size with
  | None => k
  | Some new_size =>
      match fh with
      | Some fh =>
          file ← open_file fh;
          match file with
          | Some file => r ← call (file_truncate file new_size); unless_err r k
          | None => mret (ReplyError libc.EBADF)
          end
      | None =>
          file ← call (fs_open ino libc.O_RDWR);
          match file with
          | inr file => r ← call (file_truncate file new_size); unless_err r k
          | inl e => reply_err e
          end
      end
  end.
Definition setattr_times (ino : Z) (atime mtime : option TimeOrNow) (k : Fu S reply) : Fu S reply :=
  match atime, mtime with
  | None, None => k
  | _, _ => r ← call (fs_utimens ino (time_change atime) (time_change mtime)); unless_err r k
  end.
Definition setattr (ino : Z) (mode uid gid size : option Z) (atime mtime : option TimeOrNow)
    (fh : option Z) : Fu S reply :=
  let db_ino := kernel_to_db ino in
  setattr_mode db_ino mode (
  setattr_owner db_ino uid gid (
  setattr_size db_ino size fh (
  setattr_times db_ino atime mtime (
  r ← call (fs_getattr db_ino);
  on_found r reply_attr)))).

(** *** Directories *)

Definition entry_kind (st : Stats) : FileType :=
  if is_directory st then Directory else if is_symlink st then Symlink else RegularFile.
Definition all_entries (ino : Z) (entries : list DirEntry) : list (Z * FileType * string) :=
  (ino, Directory, ".") :: (1, Directory, "..") ::
  ((λ e, (db_to_kernel (st_ino (de_stats e)), entry_kind (de_stats e), de_name e)) <$> entries).
(** [for (i, entry) in all_entries.iter().enumerate().skip(offset as usize) { if reply.add(..)
    { break } }] *)
Fixpoint add_entries (i offset : Z) (es : list (Z * FileType * string)) (b : EntListBuf dirent) :
    option (EntListBuf dirent) :=
  match es with
  | [] => Some b
  | (ino, kind, name) :: es =>
      if i <? offset then add_entries (i + 1) offset es b
      else
        '(full, b) ← push DIRENT_SIZE name
          (mkDirent ino (i + 1) (Z.shiftr (mode_from_kind_and_perm kind 0) 12) name) b;
        if full : bool then Some b else add_entries (i + 1) offset es b
  end.
Definition readdir (ino offset size : Z) : Fu S reply :=
  r ← call (fs_readdir_plus (kernel_to_db ino));
  on_found r (λ entries,
    b ← or_panic (add_entries 0 (Int.u64 offset) (all_entries ino entries) (mkBuf size 0 []));
    mret (ReplyDirectory (pushed b))).

(** One entry of [readdirplus], if the kernel has not seen it; [true] when the buffer is full. *)
Definition add_plus (offset counter : Z) (name : string) (st : option Stats)
    (b : EntListBuf (dirent * FileAttr)) : option (bool * EntListBuf (dirent * FileAttr)) :=
  if counter <? offset then Some (false, b)
  else match st with
       | None => Some (false, b)
       | Some st =>
           a ← fillattr_kernel st;
           push DIRENTPLUS_SIZE name
             (mkDirent (fa_ino a) (counter + 1)
                (Z.shiftr (mode_from_kind_and_perm (fa_kind a) (fa_perm a)) 12) name, a) b
       end.
Fixpoint add_plus_entries (offset counter : Z) (es : list (string * option Stats))
    (b : EntListBuf (dirent * FileAttr)) : option (EntListBuf (dirent * FileAttr)) :=
  match es with
  | [] => Some b
  | (name, st) :: es =>
      '(full, b) ← add_plus offset counter name st b;
      if full : bool then Some b else add_plus_entries offset (counter + 1) es b
  end.
Definition ok_flatten {A} (r : Error + option A) : option A :=
  match r with inr o => o | inl _ => None end.
Definition readdirplus (ino offset size : Z) : Fu S reply :=
  let db_ino := kernel_to_db ino in
  r ← call (fs_readdir_plus db_ino);
  on_found r (λ entries,
    dir ← call (fs_getattr db_ino);
    let dir_stats := ok_flatten dir in
    parent_stats ← (if db_ino =? root_ino then mret dir_stats
                    else p ← call (fs_getattr root_ino); mret (ok_flatten p));
    b ← or_panic (add_plus_entries offset 0
      ((".", dir_stats) :: ("..", parent_stats) :: ((λ e, (de_name e, Some (de_stats e))) <$> entries))
      (mkBuf size 0 []));
    mret (ReplyDirectoryPlus (pushed b))).

(** *** Creation and removal *)

Definition mknod (uid gid parent : Z) (name : string) (mode rdev : Z) : Fu S reply :=
  with_name name (λ n,
    r ← call (fs_mknod (kernel_to_db parent) n mode rdev uid gid);
    on_ok r reply_entry).
Definition mkdir (uid gid parent : Z) (name : string) (mode : Z) : Fu S reply :=
  with_name name (λ n,
    r ← call (fs_mkdir (kernel_to_db parent) n mode uid gid);
    on_ok r reply_entry).
Definition rmdir (parent : Z) (name : string) : Fu S reply :=
  with_name name (λ n,
    r ← call (fs_rmdir (kernel_to_db parent) n);
    on_ok r (λ _, mret ReplyEmpty)).
Definition create (uid gid parent : Z) (name : string) (mode : Z) : Fu S reply :=
  with_name name (λ n,
    r ← call (fs_create_file (kernel_to_db parent) n mode uid gid);
    on_ok r (λ '(st, file),
      a ← or_panic (fillattr_kernel st);
      fh ← alloc_fh file;
      mret (ReplyCreate a fh))).
Definition symlink (uid gid parent : Z) (link_name target : string) : Fu S reply :=
  with_name link_name (λ n,
    with_name target (λ t,
      r ← call (fs_symlink (kernel_to_db parent) n t uid gid);
      on_ok r reply_entry)).
Definition link (ino newparent : Z) (newname : string) : Fu S reply :=
  with_name newname (λ n,
    r ← call (fs_link (kernel_to_db ino) (kernel_to_db newparent) n);
    on_ok r reply_entry).
Definition unlink (parent : Z) (name : string) : Fu S reply :=
  with_name name (λ n,
    r ← call (fs_unlink (kernel_to_db parent) n);
    on_ok r (λ _, mret ReplyEmpty)).
(** The flags of the request are not looked at. *)
Definition rename (parent : Z) (name : string) (newparent : Z) (newname : string) (flags : Z) : Fu S reply :=
  with_name name (λ n,
    with_name newname (λ n',
      r ← call (fs_rename (kernel_to_db parent) n (kernel_to_db newparent) n');
      on_ok r (λ _, mret ReplyEmpty))).

(** *** Open files *)

Definition open (ino flags : Z) : Fu S reply :=
  r ← call (fs_open (kernel_to_db ino) flags);
  on_ok r (λ file, fh ← alloc_fh file; mret (ReplyOpen fh)).
(** [let Some(open_file) = open_files.get(&fh) else { reply.error(libc::EBADF); return }] *)
Definition with_file (fh : Z) (k : BoxedFile → Fu S reply) : Fu S reply :=
  file ← open_file fh;
  match file with Some file => k file | None => mret (ReplyError libc.EBADF) end.
Definition read (fh offset size : Z) : Fu S reply :=
  with_file fh (λ file,
    r ← call (file_pread file (Int.u64 offset) size);
    on_ok r (λ data, mret (ReplyData data))).
Definition write (fh offset : Z) (data : list byte) : Fu S reply :=
  with_file fh (λ file,
    r ← call (file_pwrite file (Int.u64 offset) data);
    on_ok r (λ _, mret (ReplyWrite (Int.u32 (Vec.len data))))).
Definition flush (fh : Z) : Fu S reply := with_file fh (λ _, mret ReplyEmpty).
Definition fsync (fh : Z) : Fu S reply :=
  with_file fh (λ file, r ← call (file_fsync file); on_ok r (λ _, mret ReplyEmpty)).
Definition release (fh : Z) : Fu S reply := remove_fh fh ≫= λ _, mret ReplyEmpty.

Definition BLOCK_SIZE : Z := 4096.
Definition TOTAL_INODES : Z := 1000000.
Definition TOTAL_BLOCKS : Z := 1024 * 1024 * 1024.
Definition MAX_NAMELEN : Z := 255.
Definition statfs : Fu S reply :=
  r ← call fs_statfs;
  let '(used_blocks, used_inodes) :=
    match r with
    | inr st => (div_ceil (fst_bytes_used st) BLOCK_SIZE, fst_inodes st)
    | inl _ => (0, 1)
    end in
  let free_blocks := Int.sat_sub TOTAL_BLOCKS used_blocks in
  let free_inodes := Int.sat_sub TOTAL_INODES used_inodes in
  mret (ReplyStatfs TOTAL_BLOCKS free_blocks free_blocks TOTAL_INODES free_inodes BLOCK_SIZE
    MAX_NAMELEN BLOCK_SIZE).

(** *** Inodes the kernel drops *)

Definition forget (ino nlookup : Z) : Fu S reply :=
  call (fs_forget (kernel_to_db ino) nlookup) ≫= λ _, mret ReplyNone.
Fixpoint batch_forget (nodes : list (Z * Z)) : Fu S reply :=
  match nodes with
  | [] => mret ReplyNone
  | (ino, nlookup) :: nodes => forget ino nlookup ≫= λ _, batch_forget nodes
  end.

(** *** Requests *)

(** A request of the kernel; [uid] and [gid] are those of the calling process. *)
Inductive request :=
  | Lookup (parent : Z) (name : string)
  | Getattr (ino : Z)
  | Readlink (ino : Z)
  | Setattr (ino : Z) (mode uid gid size : option Z) (atime mtime : option TimeOrNow) (fh : option Z)
  | Readdir (ino offset size : Z)
  | Readdirplus (ino offset size : Z)
  | Mknod (uid gid parent : Z) (name : string) (mode rdev : Z)
  | Mkdir (uid gid parent : Z) (name : string) (mode : Z)
  | Rmdir (parent : Z) (name : string)
  | Create (uid gid parent : Z) (name : string) (mode : Z)
  | Symlink' (uid gid parent : Z) (name target : string)
  | Link (ino newparent : Z) (newname : string)
  | Unlink (parent : Z) (name : string)
  | Rename (parent : Z) (name : string) (newparent : Z) (newname : string) (flags : Z)
  | Open (ino flags : Z)
  | Read (fh offset size : Z)
  | Write (fh offset : Z) (data : list byte)
  | Flush (fh : Z)
  | Fsync (fh : Z)
  | Release (fh : Z)
  | Statfs
  | Forget (ino nlookup : Z)
  | BatchForget (nodes : list (Z * Z)).
Definition serve (r : request) : Fu S reply :=
  match r with
  | Lookup p n => lookup p n
  | Getattr i => getattr i
  | Readlink i => readlink i
  | Setattr i m u g sz a t fh => setattr i m u g sz a t fh
  | Readdir i o n => readdir i o n
  | Readdirplus i o n => readdirplus i o n
  | Mknod u g p n m d => mknod u g p n m d
  | Mkdir u g p n m => mkdir u g p n m
  | Rmdir p n => rmdir p n
  | Create u g p n m => create u g p n m
  | Symlink' u g p n t => symlink u g p n t
  | Link i p n => link i p n
  | Unlink p n => unlink p n
  | Rename p n p' n' fl => rename p n p' n' fl
  | Open i fl => open i fl
  | Read fh o n => read fh o n
  | Write fh o b => write fh o b
  | Flush fh => flush fh
  | Fsync fh => fsync fh
  | Release fh => release fh
  | Statfs => statfs
  | Forget i n => forget i n
  | BatchForget l => batch_forget l
  end.
(** Requests one after the other, with their replies; a panic ends the session. *)
Fixpoint session (rs : list request) (t : fuse S * S) : list reply * (fuse S * S) :=
  match rs with
  | [] => ([], t)
  | r :: rs =>
      match serve r t with
      | (Some a, t') => let '(l, t'') := session rs t' in (a :: l, t'')
      | (None, t') => ([], t')
      end
  end.
End callbacks.
End Fuse.
