(* ===== verification/FuseThms.v ===== *)
(** * The FUSE server: theorems

    Inode numbers, the table of open files, reading and writing through handles, and reading a
    directory to its end. *)

From S2P Require Import Prelude Types Tables Monad Wp Instances Sql File FileSpec FileThms SecafsInode InodeSpec.
From S2P Require Import TreeInv SysInv Samples Steps ListingThms Overlay FsClass Fuse.

#[local] Open Scope string_scope.
#[local] Open Scope list_scope.
#[local] Open Scope Z_scope.

(** ** The table of open files *)

Section handles.
Context {S : Type} {FS : FileSystem S} (root_ino : Z).
Implicit Types t : fuse S * S.

(** Callbacks that leave the table alone. *)
Definition calm {A} (m : Fu S A) : Prop := ∀ t, (m t).2.1 = t.1.
Lemma calm_ret {A} (a : A) : calm (mret a).
Proof. done. Qed.
Lemma calm_panic {A} (o : option A) : calm (or_panic o).
Proof. done. Qed.
Lemma calm_call {A} (m : St S A) : calm (call m).
Proof. intros t. unfold call. by destruct (m t.2) as [[]]. Qed.
Lemma calm_open_file fh : calm (open_file fh).
Proof. done. Qed.
Lemma calm_bind {A C} (m : Fu S A) (k : A → Fu S C) : calm m → (∀ a, calm (k a)) → calm (m ≫= k).
Proof.
  intros Hm Hk t. specialize (Hm t). unfold mbind, Fu_bind. destruct (m t) as [[a|] t']; simpl in *; [|done].
  by rewrite Hk.
Qed.
Create HintDb secafs_calm.
#[local] Hint Resolve calm_ret calm_panic calm_call calm_open_file : secafs_calm.
Ltac calm_step :=
  lazymatch goal with
  | |- ∀ _, _ => intros
  | |- calm (_ ≫= _) => apply calm_bind
  | |- _ => first [ solve [eauto 2 with secafs_calm] | case_match ]
  end.

Lemma calm_batch_forget nodes : calm (Fuse.batch_forget root_ino nodes).
Proof.
  induction nodes as [|[i n] nodes IH]; cbn [Fuse.batch_forget]; [apply calm_ret|].
  apply calm_bind; [|done]. apply calm_bind; [apply calm_call|]. intros. apply calm_ret.
Qed.
#[local] Hint Resolve calm_batch_forget : secafs_calm.

(** A request that opens or releases no file leaves the table. *)
Definition touches (r : Fuse.request) : bool :=
  match r with Fuse.Create _ _ _ _ _ | Fuse.Open _ _ | Fuse.Release _ => true | _ => false end.
Lemma calm_serve r : touches r = false → calm (Fuse.serve root_ino r).
Proof.
  destruct r; try done; intros _; cbn [Fuse.serve];
    unfold Fuse.lookup, Fuse.getattr, Fuse.readlink, Fuse.setattr, Fuse.setattr_mode, Fuse.setattr_owner,
      Fuse.setattr_size, Fuse.setattr_times, Fuse.readdir, Fuse.readdirplus, Fuse.mknod, Fuse.mkdir,
      Fuse.rmdir, Fuse.symlink, Fuse.link, Fuse.unlink, Fuse.rename, Fuse.read, Fuse.write, Fuse.flush,
      Fuse.fsync, Fuse.statfs, Fuse.forget, Fuse.with_name, Fuse.with_file, Fuse.on_found, Fuse.on_ok,
      Fuse.unless_err, Fuse.reply_err, Fuse.reply_entry, Fuse.reply_attr;
    repeat calm_step.
Qed.

(** The handle a reply hands out. *)
Definition handle_of (a : reply) : option Z :=
  match a with ReplyOpen fh | ReplyCreate _ fh => Some fh | _ => None end.
Definition mute (m : Fu S reply) : Prop := ∀ t a, (m t).1 = Some a → handle_of a = None.
Lemma mute_ret a : handle_of a = None → mute (mret a).
Proof. by intros Ha t a' [= <-]. Qed.
Lemma mute_bind {A} (m : Fu S A) (k : A → Fu S reply) : (∀ a, mute (k a)) → mute (m ≫= k).
Proof. intros Hk t a. unfold mbind, Fu_bind. destruct (m t) as [[b|] t']; [apply Hk|done]. Qed.
Lemma mute_batch_forget nodes : mute (Fuse.batch_forget root_ino nodes).
Proof.
  induction nodes as [|[i n] nodes IH]; cbn [Fuse.batch_forget]; [by apply mute_ret|].
  by apply mute_bind.
Qed.
Ltac mute_step :=
  lazymatch goal with
  | |- ∀ _, _ => intros
  | |- mute (mret _) => by apply mute_ret
  | |- mute (Fuse.batch_forget _ _) => apply mute_batch_forget
  | |- mute (_ ≫= _) => apply mute_bind
  | |- _ => case_match
  end.
Lemma mute_serve r : touches r = false → mute (Fuse.serve root_ino r).
Proof.
  destruct r; try done; intros _; cbn [Fuse.serve];
    unfold Fuse.lookup, Fuse.getattr, Fuse.readlink, Fuse.setattr, Fuse.setattr_mode, Fuse.setattr_owner,
      Fuse.setattr_size, Fuse.setattr_times, Fuse.readdir, Fuse.readdirplus, Fuse.mknod, Fuse.mkdir,
      Fuse.rmdir, Fuse.symlink, Fuse.link, Fuse.unlink, Fuse.rename, Fuse.read, Fuse.write, Fuse.flush,
      Fuse.fsync, Fuse.statfs, Fuse.forget, Fuse.with_name, Fuse.with_file, Fuse.on_found, Fuse.on_ok,
      Fuse.unless_err, Fuse.reply_err, Fuse.reply_entry, Fuse.reply_attr;
    repeat mute_step.
Qed.

(** What a request does to the table. *)
Inductive table_step (r : Fuse.request) (fu : fuse S) : option reply → fuse S → Prop :=
  | table_same a : (a ≫= handle_of) = None → table_step r fu a fu
  | table_open a f : handle_of a = Some (next_fh fu) →
      table_step r fu (Some a) (mkFuse (<[next_fh fu:=f]> (open_files fu)) (Int.u64 (next_fh fu + 1)))
  | table_release fh : r = Fuse.Release fh →
      table_step r fu (Some ReplyEmpty) (mkFuse (delete fh (open_files fu)) (next_fh fu)).
Lemma serve_step r t : table_step r t.1 (Fuse.serve root_ino r t).1 (Fuse.serve root_ino r t).2.1.
Proof.
  destruct (touches r) eqn:Hr.
  - destruct r; try done; cbn [Fuse.serve].
    + unfold Fuse.create, Fuse.with_name. destruct (to_str name) as [n|]; [|by apply table_same].
      unfold mbind, Fu_bind, call. destruct (fs_create_file _ _ _ _ _ _) as [[[st f]|e|] s']; simpl;
        [|by apply table_same..].
      unfold or_panic. destruct (Fuse.fillattr_kernel root_ino st); simpl; [by apply table_open|by apply table_same].
    + unfold Fuse.open, mbind, Fu_bind, call. destruct (fs_open _ _ _) as [[f|e|] s']; simpl;
        [by apply table_open|by apply table_same..].
    + by apply table_release.
  - rewrite (calm_serve r Hr t). apply table_same.
    destruct (Fuse.serve root_ino r t).1 as [a|] eqn:Ha; [|done]. simpl. by apply (mute_serve r Hr t).
Qed.

(** Whatever requests the kernel sends, to whatever file system: no handle is handed out twice
    and none that was open before, an open handle stands for the same open file until it is
    released, and every open handle is one that was handed out.  The counter must not pass
    [u64::MAX]. *)
Theorem fuse_handles rs t :
  (∀ fh, is_Some (open_files t.1 !! fh) → fh < next_fh t.1) → 0 ≤ next_fh t.1 →
  next_fh t.1 + Z.of_nat (length rs) < 2 ^ 64 →
  let handles := omap handle_of (Fuse.session root_ino rs t).1 in
  let t' := (Fuse.session root_ino rs t).2 in
  NoDup handles ∧ Forall (λ h, next_fh t.1 ≤ h) handles ∧
  (∀ fh f, open_files t.1 !! fh = Some f → Fuse.Release fh ∉ rs → open_files t'.1 !! fh = Some f) ∧
  (∀ fh, is_Some (open_files t'.1 !! fh) → is_Some (open_files t.1 !! fh) ∨ fh ∈ handles).
Proof.
  revert t. induction rs as [|r rs IH]; intros [fu s] Hlt Hpos Hmax; simpl in *.
  { split_and!; [constructor|constructor|done|by left]. }
  pose proof (serve_step r (fu, s)) as Hst. destruct (Fuse.serve root_ino r (fu, s)) as [oa [fu1 s1]].
  simpl in Hst. inversion Hst; clear Hst; subst.
  - destruct oa as [a|]; simpl in *; [|split_and!; [constructor|constructor|done|by left]].
    destruct (IH (fu1, s1)) as (Hnd & Hge & Hkeep & Hfrom); [done|done|simpl; lia|].
    destruct (Fuse.session root_ino rs (fu1, s1)) as [l t2]. simpl in *.
    match goal with H : handle_of a = None |- _ => rewrite H end.
    split_and!; [done|done| |done]. intros fh f Hf Hr. apply Hkeep; [done|]. set_solver.
  - match goal with H : handle_of a = Some _ |- _ => rename H into Ha end.
    destruct (IH (mkFuse (<[next_fh fu:=f]> (open_files fu)) (Int.u64 (next_fh fu + 1)), s1))
      as (Hnd & Hge & Hkeep & Hfrom); simpl; [|rewrite Int.u64_small; lia|rewrite Int.u64_small; lia|].
    { rewrite Int.u64_small by lia. intros h Hx. destruct (decide (h = next_fh fu)) as [->|Hne]; [lia|].
      rewrite lookup_insert_ne in Hx by done. apply Hlt in Hx. lia. }
    destruct (Fuse.session root_ino rs _) as [l t2]. simpl in *. rewrite Ha.
    rewrite Int.u64_small in Hge by lia. split_and!.
    + constructor; [|done]. intros Hin. rewrite Forall_forall in Hge. apply Hge in Hin. lia.
    + constructor; [lia|]. eapply Forall_impl; [exact Hge|]. simpl. lia.
    + intros h g Hg Hr. apply Hkeep; [|set_solver]. rewrite lookup_insert_ne; [done|].
      intros <-. specialize (Hlt _ (mk_is_Some _ _ Hg)). lia.
    + intros h Hh. destruct (Hfrom h Hh) as [Hx|Hx]; [|right; set_solver].
      destruct (decide (h = next_fh fu)) as [->|Hne]; [right; set_solver|].
      rewrite lookup_insert_ne in Hx by done. by left.
  - destruct (IH (mkFuse (delete fh (open_files fu)) (next_fh fu), s1)) as (Hnd & Hge & Hkeep & Hfrom);
      simpl; [|lia|lia|].
    { intros h Hx. apply lookup_delete_is_Some in Hx as [_ Hx]. by apply Hlt. }
    destruct (Fuse.session root_ino rs _) as [l t2]. simpl in *. split_and!; [done|done| |].
    + intros h g Hg Hr. apply Hkeep; [|set_solver]. rewrite lookup_delete_ne; [done|]. set_solver.
    + intros h Hh. destruct (Hfrom h Hh) as [[_ Hx]%lookup_delete_is_Some|Hx]; [by left|by right].
Qed.

(** One request on an open file, and one on a handle that is not open. *)
Lemma write_ok fh f offset data fu s s' :
  open_files fu !! fh = Some f → file_pwrite f (Int.u64 offset) data s = (Ok tt, s') →
  Fuse.write fh offset data (fu, s) = (Some (ReplyWrite (Int.u32 (Vec.len data))), (fu, s')).
Proof.
  intros Hf Hw. unfold Fuse.write, Fuse.with_file, mbind, Fu_bind, open_file, call. cbn [fst].
  rewrite Hf. cbv beta iota. cbn [snd]. by rewrite Hw.
Qed.
Lemma read_ok fh f offset size data fu s s' :
  open_files fu !! fh = Some f → file_pread f (Int.u64 offset) size s = (Ok data, s') →
  Fuse.read fh offset size (fu, s) = (Some (ReplyData data), (fu, s')).
Proof.
  intros Hf Hr. unfold Fuse.read, Fuse.with_file, mbind, Fu_bind, open_file, call. cbn [fst].
  rewrite Hf. cbv beta iota. cbn [snd]. by rewrite Hr.
Qed.
Lemma session_cons r rs t a t' :
  Fuse.serve root_ino r t = (Some a, t') →
  (Fuse.session root_ino (r :: rs) t).1 = a :: (Fuse.session root_ino rs t').1.
Proof. intros H. cbn [Fuse.session]. rewrite H. by destruct (Fuse.session root_ino rs t'). Qed.

(** The handle a request carries, and what is left of the request when that handle is not
    open. *)
Definition handle_in (r : Fuse.request) : option Z :=
  match r with
  | Fuse.Read fh _ _ | Fuse.Write fh _ _ | Fuse.Flush fh | Fuse.Fsync fh | Fuse.Release fh => Some fh
  | Fuse.Setattr _ _ _ _ _ _ _ fh => fh
  | _ => None
  end.
Definition on_bad_handle (r : Fuse.request) : Fu S reply :=
  match r with
  | Fuse.Release _ => mret ReplyEmpty
  | Fuse.Setattr ino mode uid gid (Some _) _ _ _ =>
      let db_ino := Fuse.kernel_to_db root_ino ino in
      Fuse.setattr_mode db_ino mode (Fuse.setattr_owner db_ino uid gid (mret (ReplyError libc.EBADF)))
  | Fuse.Setattr ino mode uid gid None atime mtime _ =>
      Fuse.serve root_ino (Fuse.Setattr ino mode uid gid None atime mtime None)
  | _ => mret (ReplyError libc.EBADF)
  end.
Lemma setattr_size_bad ino n fh k t :
  open_files t.1 !! fh = None →
  Fuse.setattr_size ino (Some n) (Some fh) k t = (Some (ReplyError libc.EBADF), t).
Proof. intros Hf. unfold Fuse.setattr_size, mbind, Fu_bind, open_file. by rewrite Hf. Qed.
Lemma setattr_owner_bad ino uid gid (k k' : Fu S reply) t :
  (∀ s, k (t.1, s) = k' (t.1, s)) → Fuse.setattr_owner ino uid gid k t = Fuse.setattr_owner ino uid gid k' t.
Proof.
  destruct t as [fu s]. intros Hk. unfold Fuse.setattr_owner, mbind, Fu_bind, call, Fuse.unless_err.
  destruct uid, gid; simpl; repeat case_match; simplify_eq/=; auto.
Qed.
Lemma setattr_mode_bad ino mode (k k' : Fu S reply) t :
  (∀ s, k (t.1, s) = k' (t.1, s)) → Fuse.setattr_mode ino mode k t = Fuse.setattr_mode ino mode k' t.
Proof.
  destruct t as [fu s]. intros Hk. unfold Fuse.setattr_mode, mbind, Fu_bind, call, Fuse.unless_err.
  destruct mode; simpl; repeat case_match; simplify_eq/=; auto.
Qed.

(** C24. What every request that carries a handle does when that handle is not open, over any file
    system: no file is reached through it. Read, write, flush and fsync are answered [EBADF] and
    change nothing, in the server or in the file system. Release is answered with success and
    changes nothing. Setattr with a size changes the mode and the owner it also carries, and only
    then is answered [EBADF] (or with the error of that change), its size and times dropped;
    setattr without a size does not look at the handle. *)
Theorem fuse_bad_handle fh r t :
  open_files t.1 !! fh = None → handle_in r = Some fh →
  Fuse.serve root_ino r t = on_bad_handle r t.
Proof.
  intros Hf Hr. assert (Hopen : open_file fh t = (Some None, t)) by (unfold open_file; by rewrite Hf).
  destruct r; simplify_eq/=; try
    (unfold Fuse.flush, Fuse.fsync, Fuse.read, Fuse.write, Fuse.with_file, mbind, Fu_bind; by rewrite Hopen).
  - unfold Fuse.setattr. destruct size as [n|]; [|done].
    apply setattr_mode_bad. intros s. apply setattr_owner_bad. intros s'. by apply setattr_size_bad.
  - unfold Fuse.release, remove_fh, mbind, Fu_bind. destruct t as [fu s]. simpl in *.
    rewrite delete_id by done. by destruct fu.
Qed.
End handles.

(** ** Inode numbers *)

Section inodes.
Context (root_ino : Z).

(** Every inode number the server shows the kernel comes back as the database inode it stands
    for; the kernel's inode 1 is the served directory.  The exception is database inode 1 on a
    mount of another directory, whose number is taken. *)
Theorem fuse_ino_roundtrip i :
  0 < i < 2 ^ 63 → (i = 1 → root_ino = 1) →
  Fuse.kernel_to_db root_ino (Fuse.db_to_kernel root_ino i) = i ∧
  Fuse.db_to_kernel root_ino (Fuse.kernel_to_db root_ino 1) = 1.
Proof.
  intros Hi Hone. unfold Fuse.kernel_to_db, Fuse.db_to_kernel. split; [|by rewrite Z.eqb_refl].
  destruct (Z.eqb_spec i root_ino) as [->|Hne]; [done|]. rewrite Int.u64_small by lia.
  destruct (Z.eqb_spec i 1) as [->|_]; [by destruct Hne; rewrite Hone|]. rewrite Int.i64_small; lia.
Qed.
End inodes.
Lemma fuse_ino_roundtrip_witness :
  Fuse.kernel_to_db 42 (Fuse.db_to_kernel 42 7) = 7 ∧ Fuse.db_to_kernel 42 (Fuse.kernel_to_db 42 1) = 1.
Proof. apply (fuse_ino_roundtrip 42 7); [lia|discriminate]. Defined.

(** ** Attributes *)

(** The attributes of an object can be shown exactly when none of its times is before 1970: a
    negative second count becomes a duration past the end of time, and adding it panics. *)
Theorem fillattr_total st :
  Int.is_i64 (st_atime st) → Int.is_i64 (st_mtime st) → Int.is_i64 (st_ctime st) →
  0 ≤ st_atime_nsec st < 1000000000 → 0 ≤ st_mtime_nsec st < 1000000000 → 0 ≤ st_ctime_nsec st < 1000000000 →
  is_Some (fillattr st) ↔ 0 ≤ st_atime st ∧ 0 ≤ st_mtime st ∧ 0 ≤ st_ctime st.
Proof.
  intros Ha Hm Hc Han Hmn Hcn.
  assert (Ht : ∀ x n, Int.is_i64 x → 0 ≤ n < 1000000000 → is_Some (system_time x n) ↔ 0 ≤ x).
  { intros x n Hx Hn. unfold system_time. rewrite (Z.div_small n) by lia. unfold Int.is_i64 in Hx.
    assert (Hu : Int.u64 x = if decide (0 ≤ x) then x else x + 2 ^ 64).
    { unfold Int.u64. case_decide; [apply Z.mod_small; lia|].
      rewrite <- (Z.mod_add x 1) by lia. apply Z.mod_small. lia. }
    rewrite Hu. case_decide; destruct (Z.ltb_spec (x + 0) (2 ^ 63)), (Z.ltb_spec (x + 2 ^ 64 + 0) (2 ^ 63));
      split; intros; try lia; eauto; by match goal with H : is_Some None |- _ => destruct H end. }
  rewrite <- (Ht (st_atime st) (st_atime_nsec st)), <- (Ht (st_mtime st) (st_mtime_nsec st)),
    <- (Ht (st_ctime st) (st_ctime_nsec st)) by done.
  unfold fillattr. destruct (system_time (st_atime st) _), (system_time (st_mtime st) _),
    (system_time (st_ctime st) _); simpl; split; try (intros [? ?]; done); intros; eauto;
    repeat match goal with H : _ ∧ _ |- _ => destruct H | H : is_Some None |- _ => destruct H end; done.
Qed.

(** ** Reading a directory to its end *)

(** The entries in order, each with the offset of the next. *)
Fixpoint dents (i : Z) (es : list (Z * FileType * string)) : list dirent :=
  match es with
  | [] => []
  | (ino, kind, name) :: es =>
      mkDirent ino (i + 1) (Z.shiftr (mode_from_kind_and_perm kind 0) 12) name :: dents (i + 1) es
  end.
Definition dent_fits (size : Z) (d : dirent) : Prop :=
  let n := Z.of_nat (String.length (dt_name d)) in n < 2 ^ 32 ∧ entsize DIRENT_SIZE n ≤ size.

Lemma length_dents i es : length (dents i es) = length es.
Proof. revert i. induction es as [|[[? ?] ?] es IH]; intros i; simpl; [done|]. by rewrite IH. Qed.
Lemma dents_off i es k d : dents i es !! k = Some d → dt_off d = i + Z.of_nat k + 1.
Proof.
  revert i k. induction es as [|[[? ?] ?] es IH]; intros i [|k]; simpl; [done|done|intros [= <-]; simpl; lia|].
  intros Hd. rewrite (IH _ _ Hd). lia.
Qed.

(** A pass puts a prefix of the entries from the offset on into the buffer, at least one if the
    buffer was empty. *)
Lemma add_entries_prefix es i offset b :
  Forall (dent_fits (max_size b)) (dents i es) →
  ∃ b' pre, Fuse.add_entries i offset es b = Some b' ∧ pushed b' = pushed b ++ pre ∧
    pre `prefix_of` drop (Z.to_nat (offset - i)) (dents i es) ∧
    (buf_len b = 0 → drop (Z.to_nat (offset - i)) (dents i es) ≠ [] → pre ≠ []).
Proof.
  revert i b. induction es as [|[[ino kind] name] es IH]; intros i b Hfit; simpl.
  { exists b, []. rewrite app_nil_r. split_and!; [done|done|apply prefix_nil|]. by rewrite drop_nil. }
  apply Forall_cons in Hfit as [[Hlen Hsz] Hfit]. simpl in Hlen, Hsz. destruct (Z.ltb_spec i offset) as [Hlt|Hge].
  - destruct (IH (i + 1) b Hfit) as (b' & pre & Hadd & Hp & Hpre & Hne). exists b', pre.
    replace (Z.to_nat (offset - i)) with (S (Z.to_nat (offset - (i + 1)))) by lia. done.
  - replace (Z.to_nat (offset - i)) with 0%nat by lia. rewrite drop_0. unfold push.
    rewrite (proj2 (Z.leb_gt _ _)) by lia. set (d := mkDirent _ _ _ _).
    destruct (Z.ltb_spec (max_size b) (buf_len b + entsize DIRENT_SIZE (Z.of_nat (String.length name)))) as [Hf|Hf]; simpl.
    + exists b, []. rewrite app_nil_r. split_and!; [done|done|apply prefix_nil|lia].
    + destruct (IH (i + 1) (mkBuf (max_size b) (buf_len b + entsize DIRENT_SIZE (Z.of_nat (String.length name)))
        (pushed b ++ [d])) Hfit) as (b' & pre & Hadd & Hp & Hpre & _). simpl in *.
      exists b', (d :: pre). rewrite Hp, <- app_assoc. split_and!; [done|done| |done].
      replace (Z.to_nat (offset - (i + 1))) with 0%nat in Hpre by lia. rewrite drop_0 in Hpre. by apply prefix_cons.
Qed.

Section listing.
Context {S : Type} {FS : FileSystem S} (root_ino ino size : Z).

(** The kernel reads on from the offset of the last entry it got, until a reply is empty. *)
Fixpoint read_all (fuel : nat) (offset : Z) (acc : list dirent) : Fu S (list dirent) :=
  match fuel with
  | 0%nat => or_panic None
  | Datatypes.S fuel =>
      r ← Fuse.readdir root_ino ino offset size;
      match r with
      | ReplyDirectory l =>
          match last l with
          | None => mret acc
          | Some d => read_all fuel (dt_off d) (acc ++ l)
          end
      | _ => or_panic None
      end
  end.

Context (I : S → Prop) (entries : list DirEntry).
Hypothesis Hstable : ∀ s, I s → ∃ s', fs_readdir_plus (Fuse.kernel_to_db root_ino ino) s = (Ok (Some entries), s') ∧ I s'.
Let es := Fuse.all_entries root_ino ino entries.
Hypothesis Hfit : Forall (dent_fits size) (dents 0 es).

Lemma readdir_pass k (t : fuse S * S) :
  I t.2 → Z.of_nat k < 2 ^ 64 →
  ∃ pre t', Fuse.readdir root_ino ino (Z.of_nat k) size t = (Some (ReplyDirectory pre), t') ∧ I t'.2 ∧
    pre `prefix_of` drop k (dents 0 es) ∧ (drop k (dents 0 es) ≠ [] → pre ≠ []).
Proof.
  intros Hi Hk. unfold Fuse.readdir, mbind, Fu_bind, call. destruct (Hstable _ Hi) as (s' & Hrun & Hi'). rewrite Hrun.
  cbn [Fuse.on_found]. rewrite Int.u64_small by lia.
  destruct (add_entries_prefix es 0 (Z.of_nat k) (mkBuf size 0 [])) as (b' & pre & Hadd & Hp & Hpre & Hne);
    [done|]. unfold or_panic. fold es. rewrite Hadd. simpl in *. exists pre, (t.1, s'). rewrite Hp.
  replace (Z.to_nat (Z.of_nat k - 0)) with k in * by lia. split_and!; [done|done|done|by apply Hne].
Qed.
Lemma read_all_rest fuel k t :
  I t.2 → (k ≤ length es)%nat → (length es - k < fuel)%nat → Z.of_nat (length es) < 2 ^ 64 →
  ∃ t', read_all fuel (Z.of_nat k) (take k (dents 0 es)) t = (Some (dents 0 es), t') ∧ I t'.2.
Proof.
  revert k t. induction fuel as [|fuel IH]; intros k t Hi Hk Hf Hmax; [lia|]. cbn [read_all].
  destruct (readdir_pass k t Hi ltac:(lia)) as (pre & t1 & Hrun & Hi1 & [suf Hpre] & Hne).
  unfold mbind at 1, Fu_bind. rewrite Hrun. cbv beta iota.
  destruct (last pre) as [d|] eqn:Hlast.
  - assert (Hlen : (0 < length pre)%nat) by (destruct pre; simpl in *; [done|lia]).
    assert (Hsum : (length pre + length suf = length es - k)%nat).
    { rewrite <- length_app, <- Hpre, length_drop, length_dents. done. }
    assert (Hoff : dt_off d = Z.of_nat (k + length pre)).
    { rewrite last_lookup in Hlast. assert (Hd : dents 0 es !! (k + pred (length pre))%nat = Some d).
      { rewrite <- lookup_drop, Hpre. by apply lookup_app_l_Some. }
      rewrite (dents_off _ _ _ _ Hd). lia. }
    rewrite Hoff. assert (Htake : take k (dents 0 es) ++ pre = take (k + length pre) (dents 0 es)).
    { rewrite <- (take_drop k (dents 0 es)) at 2. rewrite take_app_add', Hpre, take_app_length.
      + done.
      + rewrite length_take, length_dents. lia. }
    rewrite Htake. apply IH; [done|lia|lia|done].
  - apply last_None in Hlast as ->. destruct (drop k (dents 0 es)) as [|x l] eqn:Hd; [|by destruct Hne].
    exists t1. split; [|done]. rewrite <- (take_drop k (dents 0 es)) at 2. rewrite Hd, app_nil_r. done.
Qed.
End listing.

Section composed.
Context {E : Env} {HQ : Quiet E} (fs : SecAFS) (root_ino : Z).
#[local] Instance served : FileSystem state := secafs_fs fs.
Implicit Types s : state.

Lemma names_dents i es : dt_name <$> dents i es = es.*2.
Proof. revert i. induction es as [|[[? ?] ?] es IH]; intros i; simpl; [done|]. by rewrite IH. Qed.

(** C23. The kernel reads a directory of SecAFS to its end with [readdir] requests, each going on
    from the last offset it got, whatever the size of its buffer (it must hold any one of the
    entries).  It terminates, and has then seen [.], [..] and every name of the directory, each
    once and in the order of the listing. *)
Theorem fuse_readdir_complete ino bufsize fu s :
  let dir := Fuse.kernel_to_db root_ino ino in
  let es := Fuse.all_entries root_ino ino (listed_plus dir (cur s)) in
  sys_inv s → dir_row (fs_inode (cur s)) dir →
  Forall (dent_fits bufsize) (dents 0 es) → Z.of_nat (length es) < 2 ^ 64 →
  ∃ names t', read_all root_ino ino bufsize (Datatypes.S (length es)) 0 [] (fu, s) = (Some (dents 0 es), t') ∧
    cur t'.2 = cur s ∧ dt_name <$> dents 0 es = "." :: ".." :: names ∧ NoDup names ∧
    (∀ n, n ∈ names ↔ n ≠ "" ∧ is_Some (child (cur s) dir n)).
Proof.
  intros dir es Hinv Hdir Hfit Hmax. exists (listed dir (cur s)).
  destruct (read_all_rest root_ino ino bufsize (λ s', txn s' = None ∧ cur s' = cur s)
    (listed_plus dir (cur s))) with (fuel := Datatypes.S (length es)) (k := 0%nat) (t := (fu, s))
    as (t' & Hrun & _ & Hcur); [|done|split; [apply Hinv|done]|apply Nat.le_0_l|unfold es; lia|done|].
  { intros s1 [Htx Hc]. rewrite <- Hc in Hdir.
    destruct (wp_intro _ _ _ (wp_readdir_plus dir s1 Htx Hdir)) as (r & s2 & Hrun & -> & Hc2 & Htx2).
    exists s2. rewrite Hc in Hrun. split; [exact Hrun|]. split; [done|congruence]. }
  exists t'. split_and!; [exact Hrun|done| |apply listed_NoDup|apply elem_of_listed].
  rewrite names_dents. unfold es, Fuse.all_entries. rewrite !fmap_cons, <- list_fmap_compose.
  by rewrite <- (listed_plus_names dir (cur s)) by apply Hinv.
Qed.

(** What a process wrote through one handle, every handle open on the same file reads back. *)
Theorem fuse_write_read fh fh' f g offset data fu s :
  open_files fu !! fh = Some f → open_files fu !! fh' = Some g →
  f_ino g = f_ino f → f_chunk_size g = f_chunk_size f → 0 < f_chunk_size f →
  txn s = None → file_wf (f_chunk_size f) (cur s) (f_ino f) → is_Some (fs_inode (cur s) !! f_ino f) →
  0 ≤ offset → offset + Vec.len data < 2 ^ 63 → data ≠ [] →
  (Fuse.session root_ino [Fuse.Write fh offset data; Fuse.Read fh' offset (Vec.len data)] (fu, s)).1 =
    [ReplyWrite (Int.u32 (Vec.len data)); ReplyData data].
Proof.
  intros Hf Hg Hi Hc Hcs Htx Hwf Hrow Ho Hl Hd. pose proof (Vec.len_nonneg data).
  assert (g = f) as -> by (destruct f, g; simpl in *; congruence).
  destruct (wp_intro _ _ _ (wp_pwrite f offset data s Hcs Htx Hwf Hrow Ho Hl Hd))
    as (r & s' & Hw & -> & Htx' & _ & Hcont & Hwf' & _).
  destruct (wp_intro _ _ _ (wp_pread f offset (Vec.len data) s' Hcs (no_txn_aborted _ Htx') Hwf'
    ltac:(lia) ltac:(lia))) as (r & s'' & Hr & -> & _).
  rewrite Hcont, spec_read_write in Hr by done. rewrite <- (Int.u64_small offset) in Hw, Hr by lia.
  erewrite session_cons by exact (write_ok fh f offset data fu s s' Hf Hw).
  by erewrite session_cons by exact (read_ok fh' f offset (Vec.len data) data fu s' s'' Hg Hr).
Qed.
End composed.

(** ** Witnesses and examples *)

#[local] Instance demo_served : FileSystem (@state calm_env) := secafs_fs (mkSecAFS 4096).

(** Two opens of [/f], and the first handle released. *)
Definition demo_requests : list Fuse.request := [Fuse.Open 2 0; Fuse.Open 2 0; Fuse.Release 1].
Lemma fuse_handles_witness :
  NoDup (omap handle_of (Fuse.session 1 demo_requests (new_fuse, demo)).1) ∧
  omap handle_of (Fuse.session 1 demo_requests (new_fuse, demo)).1 = [1; 2].
Proof.
  split; [|by vm_compute].
  apply (fuse_handles 1 demo_requests (new_fuse, demo)); [|done|done].
  intros fh [f Hf]. done.
Defined.

(** A flush, and a truncation that also sets the mode: the mode of the file is 0600 when the
    request is refused. *)
Lemma fuse_bad_handle_witness :
  let r := Fuse.Setattr 2 (Some 0x180) None None (Some 0) None None (Some 5) in
  let mode (s : @state calm_env) := i_mode <$> fs_inode (cur s) !! 2 in
  Fuse.serve 1 (Fuse.Flush 5) (new_fuse, demo) = (Some (ReplyError libc.EBADF), (new_fuse, demo)) ∧
  ((Fuse.serve 1 r (new_fuse, demo)).1, mode demo, mode (Fuse.serve 1 r (new_fuse, demo)).2.2) =
    (Some (ReplyError libc.EBADF), Some 0x81a4, Some 0x8180).
Proof.
  intros r mode. split; [exact (fuse_bad_handle 1 5 (Fuse.Flush 5) (new_fuse, demo) eq_refl eq_refl)|].
  rewrite (fuse_bad_handle 1 5 r (new_fuse, demo) eq_refl eq_refl). vm_compute. reflexivity.
Defined.

Lemma fillattr_total_witness : is_Some (fillattr (stats_of 2 (new_inode DEFAULT_FILE_MODE 1 0 0 3 0 (0, 0)))).
Proof. apply fillattr_total; vm_compute; intuition discriminate. Defined.

(** A buffer that holds one entry at a time. *)
Lemma fuse_readdir_complete_witness :
  ∃ t', read_all 1 3 40 5 0 [] (new_fuse, demo) =
    (Some [mkDirent 3 1 4 "."; mkDirent 1 2 4 ".."; mkDirent 4 3 4 "e"; mkDirent 5 4 8 "h"], t').
Proof.
  destruct (fuse_readdir_complete (mkSecAFS 4096) 1 3 40 new_fuse demo) as (names & t' & Hrun & _);
    [apply demo_inv|by apply dir_at_row; vm_compute|repeat constructor; vm_compute; intuition discriminate|done|].
  exists t'. exact Hrun.
Defined.

Definition two_handles : fuse (@state calm_env) :=
  mkFuse (<[1:=sample_file]> (<[2:=sample_file]> ∅)) 3.
Lemma fuse_write_read_witness :
  (Fuse.session 1 [Fuse.Write 1 3 [x31; x32; x33]; Fuse.Read 2 3 3] (two_handles, sample_state)).1 =
    [ReplyWrite 3; ReplyData [x31; x32; x33]].
Proof.
  apply (fuse_write_read (mkSecAFS 4096) 1 1 2 sample_file sample_file 3 [x31; x32; x33] two_handles sample_state);
    try done. apply sample_wf.
Defined.

(** [renameat2] with [RENAME_EXCHANGE] is answered with success, but does a plain rename: the
    other file is gone. *)
Definition RENAME_EXCHANGE : Z := 2.
Example fuse_exchange_destroys :
  (Fuse.session 1 [Fuse.Rename 1 "f" 1 "g" RENAME_EXCHANGE; Fuse.Lookup 1 "f"] (new_fuse, demo)).1 =
    [ReplyEmpty; ReplyError libc.ENOENT].
Proof. by vm_compute. Qed.
(** So is [RENAME_NOREPLACE], over a file that is there. *)
Definition RENAME_NOREPLACE : Z := 1.
Example fuse_noreplace_replaces :
  (Fuse.session 1 [Fuse.Rename 1 "f" 1 "g" RENAME_NOREPLACE; Fuse.Lookup 1 "f"] (new_fuse, demo)).1 =
    [ReplyEmpty; ReplyError libc.ENOENT].
Proof. by vm_compute. Qed.
(** A named pipe has its kind in its attributes, and is listed as a regular file. *)
Example fuse_fifo_listed_as_file :
  ∃ a, (Fuse.session 1 [Fuse.Mknod 0 0 4 "p" (Z.lor S_IFIFO 0x1a4) 0; Fuse.Readdir 4 2 4096] (new_fuse, demo)).1 =
    [ReplyEntry a; ReplyDirectory [mkDirent 8 3 (Z.shiftr S_IFREG 12) "p"]] ∧ fa_kind a = NamedPipe.
Proof. eexists. split; [by vm_compute|done]. Qed.
