(* ===== verification/Xdr.v ===== *)
(** * The wire format

    The trait [XDR] of [cli/src/nfsserve/xdr.rs] and its implementations: a [codec] writes a value
    as bytes and reads it back from the front of an input.  The macros [XDREnumSerde],
    [XDRStruct] and [XDRBoolUnion] are combinators, and [Lawful] is the law they keep. *)

From S2P Require Import Prelude.

#[local] Open Scope list_scope.
#[local] Open Scope Z_scope.

(** ** Numbers as bytes, the most significant first *)

Definition byte_of (z : Z) : byte := default x00 (Byte.of_N (Z.to_N (z `mod` 256))).
Definition byte_val (b : byte) : Z := Z.of_N (Byte.to_N b).
Fixpoint be_bytes (n : nat) (x : Z) : list byte :=
  match n with
  | 0%nat => []
  | S n => byte_of (x `div` 256 ^ Z.of_nat n) :: be_bytes n x
  end.
Definition be_value (l : list byte) : Z := foldl (λ acc b, acc * 256 + byte_val b) 0 l.

Lemma byte_val_of z : byte_val (byte_of z) = z `mod` 256.
Proof.
  unfold byte_val, byte_of. pose proof (Z.mod_pos_bound z 256 ltac:(lia)).
  destruct (Byte.of_N (Z.to_N (z `mod` 256))) as [b|] eqn:Hb; simpl.
  - apply Byte.to_of_N in Hb. rewrite Hb. lia.
  - apply Byte.of_N_None_iff in Hb. lia.
Qed.
Lemma byte_val_range b : 0 ≤ byte_val b < 256.
Proof. unfold byte_val. pose proof (Byte.to_N_bounded b). lia. Qed.
Lemma byte_of_val b : byte_of (byte_val b) = b.
Proof.
  unfold byte_of. pose proof (byte_val_range b). rewrite Z.mod_small by done. unfold byte_val.
  by rewrite N2Z.id, Byte.of_to_N.
Qed.
Lemma length_be n x : length (be_bytes n x) = n.
Proof. induction n; simpl; auto. Qed.
Lemma be_value_acc l a :
  foldl (λ acc b, acc * 256 + byte_val b) a l = a * 256 ^ Z.of_nat (length l) + be_value l.
Proof.
  unfold be_value. revert a. induction l as [|b l IH]; intros a; simpl; [lia|].
  rewrite IH, (IH (_ + byte_val b)). rewrite Nat2Z.inj_succ, Z.pow_succ_r by lia. lia.
Qed.
Lemma be_value_bytes n x : be_value (be_bytes n x) = x `mod` 256 ^ Z.of_nat n.
Proof.
  induction n as [|n IH]; [by rewrite Z.mod_1_r|]. simpl be_bytes. unfold be_value. simpl foldl.
  rewrite be_value_acc, length_be, IH, byte_val_of, Nat2Z.inj_succ, Z.pow_succ_r by lia.
  rewrite (Z.mul_comm 256), (Z.rem_mul_r x (256 ^ Z.of_nat n) 256) by lia. lia.
Qed.
Lemma be_value_range l : 0 ≤ be_value l < 256 ^ Z.of_nat (length l).
Proof.
  induction l as [|b l IH]; [done|]. unfold be_value. simpl foldl. rewrite be_value_acc.
  pose proof (byte_val_range b). simpl length. rewrite Nat2Z.inj_succ, Z.pow_succ_r by lia. nia.
Qed.

(** ** Codecs *)

(** [valid] are the values of the Rust type (a [u32] is a [Z] here) whose byte strings and lists of numbers
    are shorter than [u32::MAX], the length at which their writers assert.  [serialize] is [None] for a
    panic, [deserialize] for an [io::Error]; it returns the rest of the input. *)
Record codec (A : Type) := mkCodec {
  valid : A → Prop;
  serialize : A → option (list byte);
  deserialize : list byte → option (A * list byte);
}.
Arguments mkCodec {A}.
Arguments valid {A}.
Arguments serialize {A}.
Arguments deserialize {A}.

(** What is written can be read back, whatever follows it. *)
Class Lawful {A} (c : codec A) := xdr_law :
  ∀ a, valid c a → ∃ bs, serialize c a = Some bs ∧ ∀ rest, deserialize c (bs ++ rest) = Some (a, rest).

(** [Read::read_exact] *)
Definition read_exact (n : nat) (l : list byte) : option (list byte * list byte) :=
  if decide (n ≤ length l)%nat then Some (take n l, drop n l) else None.
Lemma read_exact_app n l rest : length l = n → read_exact n (l ++ rest) = Some (l, rest).
Proof.
  intros <-. unfold read_exact. rewrite length_app, decide_True by lia.
  by rewrite take_app_length, drop_app_length.
Qed.

(** *** Numbers *)

Definition be_codec (n : nat) : codec Z := mkCodec (λ x, 0 ≤ x < 256 ^ Z.of_nat n)
  (λ x, Some (be_bytes n x))
  (λ l, '(b, l) ← read_exact n l; Some (be_value b, l)).
#[global] Instance be_lawful n : Lawful (be_codec n).
Proof.
  intros x Hx. exists (be_bytes n x). split; [done|]. intros rest. simpl.
  rewrite read_exact_app by apply length_be. simpl. by rewrite be_value_bytes, Z.mod_small.
Qed.
(** [impl XDR for u32], [u64] *)
Definition u32 : codec Z := be_codec 4.
Definition u64 : codec Z := be_codec 8.
(** [impl XDR for i32], [i64]: two's complement *)
Definition signed (n : nat) (x : Z) : Z :=
  if x <? 256 ^ Z.of_nat n / 2 then x else x - 256 ^ Z.of_nat n.
Definition signed_codec (n : nat) : codec Z :=
  mkCodec (λ x, - (256 ^ Z.of_nat n / 2) ≤ x < 256 ^ Z.of_nat n / 2)
    (λ x, Some (be_bytes n x))
    (λ l, '(b, l) ← read_exact n l; Some (signed n (be_value b), l)).
Definition i32 : codec Z := signed_codec 4.
Definition i64 : codec Z := signed_codec 8.
Lemma signed_mod n x :
  (0 < n)%nat → - (256 ^ Z.of_nat n / 2) ≤ x < 256 ^ Z.of_nat n / 2 → signed n (x `mod` 256 ^ Z.of_nat n) = x.
Proof.
  intros Hn Hx. unfold signed. set (m := 256 ^ Z.of_nat n) in *.
  assert (Hm : m = 2 * (m / 2) ∧ 0 < m / 2).
  { destruct n as [|n]; [lia|]. unfold m in *. rewrite Nat2Z.inj_succ, Z.pow_succ_r in * by lia.
    replace (256 * 256 ^ Z.of_nat n) with (128 * 256 ^ Z.of_nat n * 2) by lia. rewrite Z.div_mul by lia. lia. }
  destruct (decide (0 ≤ x)) as [Hp|Hp].
  - rewrite Z.mod_small by lia. destruct (Z.ltb_spec x (m / 2)); lia.
  - replace (x `mod` m) with (x + m).
    + destruct (Z.ltb_spec (x + m) (m / 2)); lia.
    + rewrite <- (Z.mod_add x 1 m), Z.mod_small by lia. lia.
Qed.
Lemma signed_lawful n : (0 < n)%nat → Lawful (signed_codec n).
Proof.
  intros Hn x Hx. exists (be_bytes n x). split; [done|]. intros rest. simpl.
  rewrite read_exact_app by apply length_be. simpl. by rewrite be_value_bytes, signed_mod.
Qed.
#[global] Instance i32_lawful : Lawful i32.
Proof. apply signed_lawful. lia. Qed.
#[global] Instance i64_lawful : Lawful i64.
Proof. apply signed_lawful. lia. Qed.

(** [impl XDR for bool]: anything above zero is true. *)
Definition xbool : codec bool := mkCodec (λ _ : bool, True)
  (λ b : bool, serialize u32 (if b then 1 else 0))
  (λ l, '(v, l) ← deserialize u32 l; Some (bool_decide (0 < v), l)).
#[global] Instance xbool_lawful : Lawful xbool.
Proof.
  intros b _. destruct (xdr_law (c := u32) (if b then 1 else 0)) as (bs & Hs & Hd); [by destruct b|].
  exists bs. split; [done|]. intros rest. unfold xbool, deserialize at 1. rewrite Hd. by destruct b.
Qed.

(** *** Arrays *)

(** [impl XDR for [u8; N]] *)
Definition fixed (n : nat) : codec (list byte) :=
  mkCodec (λ v, length v = n) Some (read_exact n).
#[global] Instance fixed_lawful n : Lawful (fixed n).
Proof. intros v Hv. exists v. split; [done|]. intros rest. by apply read_exact_app. Qed.

Definition pad (n : Z) : nat := Z.to_nat ((4 - n `mod` 4) `mod` 4).
(** [impl XDR for Vec<u8>] and [nfsstring]: the length, the bytes and zeros up to a multiple of four;
    [assert!(self.len() < u32::MAX)]. *)
Definition opaque : codec (list byte) := mkCodec (λ v, Vec.len v < 2 ^ 32 - 1)
  (λ v, if Vec.len v <? 2 ^ 32 - 1
        then Some (be_bytes 4 (Vec.len v) ++ v ++ replicate (pad (Vec.len v)) x00)
        else None)
  (λ l, '(n, l) ← deserialize u32 l;
        '(v, l) ← read_exact (Z.to_nat n) l;
        '(_, l) ← read_exact (pad n) l;
        Some (v, l)).
#[global] Instance opaque_lawful : Lawful opaque.
Proof.
  intros v Hv. simpl in Hv. pose proof (Vec.len_nonneg v).
  exists (be_bytes 4 (Vec.len v) ++ v ++ replicate (pad (Vec.len v)) x00). split.
  { unfold opaque, serialize. by rewrite (proj2 (Z.ltb_lt _ _)). }
  destruct (xdr_law (c := u32) (Vec.len v)) as (bn & [= <-] & Hn); [simpl; lia|].
  intros rest. unfold opaque, deserialize at 1. rewrite <- app_assoc, Hn. cbn [mbind option_bind].
  rewrite <- app_assoc, read_exact_app by (unfold Vec.len; lia). cbn [mbind option_bind].
  by rewrite read_exact_app by apply length_replicate.
Qed.

Fixpoint read_seq {A} (c : codec A) (n : nat) (l : list byte) : option (list A * list byte) :=
  match n with
  | 0%nat => Some ([], l)
  | S n => '(a, l) ← deserialize c l; '(v, l) ← read_seq c n l; Some (a :: v, l)
  end.
Definition ser_app (a b : option (list byte)) : option (list byte) :=
  a ≫= λ x, b ≫= λ y, Some (x ++ y).
(** [impl XDR for Vec<u32>] *)
Definition vec_u32 : codec (list Z) :=
  mkCodec (λ v, Z.of_nat (length v) < 2 ^ 32 - 1 ∧ Forall (valid u32) v)
    (λ v, if Z.of_nat (length v) <? 2 ^ 32 - 1
          then ser_app (serialize u32 (Z.of_nat (length v)))
                 (foldr (λ i acc, ser_app (serialize u32 i) acc) (Some []) v)
          else None)
    (λ l, '(n, l) ← deserialize u32 l; read_seq u32 (Z.to_nat n) l).
#[global] Instance vec_u32_lawful : Lawful vec_u32.
Proof.
  intros v [Hl Hv]. destruct (xdr_law (c := u32) (Z.of_nat (length v))) as (bn & Hsn & Hdn); [simpl; lia|].
  assert (Hall : ∃ bs, foldr (λ i acc, ser_app (serialize u32 i) acc) (Some []) v = Some bs ∧
    ∀ rest, read_seq u32 (length v) (bs ++ rest) = Some (v, rest)).
  { clear Hl bn Hsn Hdn. induction Hv as [|x v Hx Hv (bs & Hs & Hd)]; [by exists []|].
    destruct (xdr_law (c := u32) x Hx) as (bx & Hsx & Hdx). exists (bx ++ bs). split.
    - cbn [foldr]. by rewrite Hsx, Hs.
    - intros rest. cbn [length read_seq]. rewrite <- app_assoc, Hdx. cbn [mbind option_bind]. by rewrite Hd. }
  destruct Hall as (bs & Hs & Hd). exists (bn ++ bs). split.
  - unfold vec_u32, serialize at 1. rewrite (proj2 (Z.ltb_lt _ _)) by done. by rewrite Hsn, Hs.
  - intros rest. unfold vec_u32, deserialize at 1. rewrite <- app_assoc, Hdn. cbn [mbind option_bind].
    by rewrite Nat2Z.id.
Qed.

(** *** Structures and unions *)

(** [XDRStruct!]: one field after the other. *)
Definition xpair {A B} (c : codec A) (d : codec B) : codec (A * B) :=
  mkCodec (λ p, valid c p.1 ∧ valid d p.2)
    (λ p, ser_app (serialize c p.1) (serialize d p.2))
    (λ l, '(a, l) ← deserialize c l; '(b, l) ← deserialize d l; Some ((a, b), l)).
Definition xmap {A B} (f : A → B) (g : B → A) (c : codec A) : codec B :=
  mkCodec (λ b, valid c (g b)) (λ b, serialize c (g b))
    (λ l, '(a, l) ← deserialize c l; Some (f a, l)).
#[global] Instance xpair_lawful {A B} (c : codec A) (d : codec B) : Lawful c → Lawful d → Lawful (xpair c d).
Proof.
  intros Hc Hd [a b] [Ha Hb]. destruct (Hc a Ha) as (x & Hx & Hdx), (Hd b Hb) as (y & Hy & Hdy).
  exists (x ++ y). simpl in *. rewrite Hx, Hy. split; [done|]. intros rest.
  rewrite <- app_assoc, Hdx. simpl. by rewrite Hdy.
Qed.
Lemma xmap_lawful {A B} (f : A → B) (g : B → A) (c : codec A) :
  (∀ b, f (g b) = b) → Lawful c → Lawful (xmap f g c).
Proof.
  intros Hfg Hc b Hb. destruct (Hc (g b) Hb) as (x & Hx & Hdx). exists x. split; [done|].
  intros rest. simpl. rewrite Hdx. simpl. by rewrite Hfg.
Qed.

(** [XDREnumSerde!]: the discriminant as a [u32]. *)
Definition xenum {A} (to : A → Z) (from : Z → option A) : codec A :=
  mkCodec (λ _, True) (λ a, serialize u32 (to a))
    (λ l, '(n, l) ← deserialize u32 l; a ← from n; Some (a, l)).
Lemma xenum_lawful {A} (to : A → Z) (from : Z → option A) :
  (∀ a, valid u32 (to a) ∧ from (to a) = Some a) → Lawful (xenum to from).
Proof.
  intros H a _. destruct (H a) as [Hv Hf]. destruct (xdr_law (c := u32) (to a) Hv) as (x & Hx & Hd).
  exists x. split; [done|]. intros rest. simpl. simpl in Hd. rewrite Hd. simpl. by rewrite Hf.
Qed.

(** [XDRBoolUnion!]: [Void] is [None]. *)
Definition xopt {A} (c : codec A) : codec (option A) :=
  mkCodec (from_option (valid c) True)
    (λ o, match o with
          | None => serialize xbool false
          | Some a => ser_app (serialize xbool true) (serialize c a)
          end)
    (λ l, '(b, l) ← deserialize xbool l;
          if b : bool then '(a, l) ← deserialize c l; Some (Some a, l) else Some (None, l)).
#[global] Instance xopt_lawful {A} (c : codec A) : Lawful c → Lawful (xopt c).
Proof.
  intros Hc [a|] Ha.
  - destruct (Hc a Ha) as (x & Hx & Hd), (xdr_law (c := xbool) true I) as (y & Hy & Hdy).
    exists (y ++ x). split; [unfold xopt, serialize at 1; by rewrite Hy, Hx|]. intros rest.
    unfold xopt, deserialize at 1. rewrite <- app_assoc, Hdy. cbn [mbind option_bind]. by rewrite Hd.
  - destruct (xdr_law (c := xbool) false I) as (y & Hy & Hdy). exists y. split; [done|]. intros rest.
    unfold xopt, deserialize at 1. by rewrite Hdy.
Qed.

(** A union on a [u32] tag: the branch a value is in, how its arm is written, and the arm read for
    each tag. *)
Definition xunion {A} (ok : A → Prop) (tag : A → Z) (arm : A → option (list byte))
    (read : Z → list byte → option (A * list byte)) : codec A :=
  mkCodec ok (λ a, ser_app (serialize u32 (tag a)) (arm a)) (λ l, '(t, l) ← deserialize u32 l; read t l).
Lemma xunion_lawful {A} (ok : A → Prop) tag arm read :
  (∀ a, ok a → valid u32 (tag a) ∧ ∃ bs, arm a = Some bs ∧ ∀ rest, read (tag a) (bs ++ rest) = Some (a, rest)) →
  Lawful (xunion ok tag arm read).
Proof.
  intros H a Ha. destruct (H a Ha) as (Hv & bs & Hs & Hd).
  destruct (xdr_law (c := u32) (tag a) Hv) as (x & Hx & Hdx). exists (x ++ bs). split.
  - unfold xunion, serialize at 1. by rewrite Hx, Hs.
  - intros rest. unfold xunion, deserialize at 1. rewrite <- app_assoc, Hdx. cbn [mbind option_bind]. apply Hd.
Qed.
(** Reading an arm of a union. *)
Definition read_arm {A B} (c : codec A) (f : A → B) (l : list byte) : option (B * list byte) :=
  '(a, l) ← deserialize c l; Some (f a, l).
Lemma read_arm_lawful {A B} (c : codec A) (f : A → B) a :
  Lawful c → valid c a →
  ∃ bs, serialize c a = Some bs ∧ ∀ rest, read_arm c f (bs ++ rest) = Some (f a, rest).
Proof.
  intros Hc Ha. destruct (Hc a Ha) as (x & Hx & Hd). exists x. split; [done|]. intros rest.
  unfold read_arm. by rewrite Hd.
Qed.
