(* ===== verification/Text.v ===== *)
(** * Text

    The operations of [str] and [String] the components share, on the bytes of a text. *)

From S2P Require Import Prelude Utf8 Xdr.

#[local] Open Scope string_scope.
#[local] Open Scope list_scope.
#[local] Open Scope Z_scope.

Definition bytes (s : string) : list byte := String.list_byte_of_string s.
Definition is_utf8 (p : list byte) : bool := utf8 (byte_val <$> p).
(** [str::starts_with] with [str::strip_prefix] *)
Fixpoint strip (p l : list byte) : option (list byte) :=
  match p, l with
  | [], _ => Some l
  | a :: p, b :: l => if decide (a = b) then strip p l else None
  | _ :: _, [] => None
  end.
(** [str::split] by one character *)
Fixpoint split_at (sep : byte) (l : list byte) : list (list byte) :=
  match l with
  | [] => [[]]
  | b :: l =>
      if decide (b = sep) then [] :: split_at sep l
      else match split_at sep l with
           | p :: ps => (b :: p) :: ps
           | [] => [[b]]
           end
  end.

(** ** Paths *)

Definition SLASH : byte := x2f.
(** [Path::is_absolute] and its negation [Path::is_relative] *)
Definition is_absolute (p : list byte) : bool := match p with b :: _ => bool_decide (b = SLASH) | [] => false end.
(** [Path::join] *)
Definition join (p q : list byte) : list byte :=
  if is_absolute q then q
  else match last p with
       | Some b => if decide (b = SLASH) then p ++ q else p ++ SLASH :: q
       | None => q
       end.

(** ** Trimming *)

(** [char::is_whitespace], as the UTF-8 bytes of the characters. *)
Definition whitespace : list (list byte) :=
  [[x09]; [x0a]; [x0b]; [x0c]; [x0d]; [x20]; [xc2; x85]; [xc2; xa0]; [xe1; x9a; x80];
   [xe2; x80; x80]; [xe2; x80; x81]; [xe2; x80; x82]; [xe2; x80; x83]; [xe2; x80; x84]; [xe2; x80; x85];
   [xe2; x80; x86]; [xe2; x80; x87]; [xe2; x80; x88]; [xe2; x80; x89]; [xe2; x80; x8a]; [xe2; x80; xa8];
   [xe2; x80; xa9]; [xe2; x80; xaf]; [xe2; x81; x9f]; [xe3; x80; x80]].
Definition strip_any (ps : list (list byte)) (l : list byte) : option (list byte) :=
  foldr (λ p acc, match strip p l with Some r => Some r | None => acc end) None ps.
(** Removes what it can from the front; a turn removes at least a byte. *)
Fixpoint trim_with (ps : list (list byte)) (fuel : nat) (l : list byte) : list byte :=
  match fuel with
  | 0%nat => l
  | S fuel => match strip_any ps l with Some r => trim_with ps fuel r | None => l end
  end.
Definition trim_start (ps : list (list byte)) (l : list byte) : list byte := trim_with ps (length l) l.
Definition trim_end (ps : list (list byte)) (l : list byte) : list byte :=
  reverse (trim_start (reverse <$> ps) (reverse l)).
(** [str::trim] *)
Definition trim (l : list byte) : list byte := trim_end whitespace (trim_start whitespace l).

(** ** Bytes that are not text *)

(** [String::from_utf8_lossy]: what is not UTF-8 becomes U+FFFD, one for the longest start of a sequence. *)
Definition REPLACEMENT : list byte := [xef; xbf; xbd].
Definition valid_at (l : list byte) : bool * nat :=
  match byte_val <$> l with
  | [] => (true, 0%nat)
  | a :: l =>
      if a <? 0x80 then (true, 1%nat)
      else if between 0xc2 a 0xdf then
        match l with b :: _ => if cont b then (true, 2%nat) else (false, 1%nat) | [] => (false, 1%nat) end
      else if between 0xe0 a 0xef then
        match l with
        | b :: c :: _ => if negb (lead3 a b) then (false, 1%nat) else if cont c then (true, 3%nat) else (false, 2%nat)
        | [b] => if lead3 a b then (false, 2%nat) else (false, 1%nat)
        | [] => (false, 1%nat)
        end
      else if between 0xf0 a 0xf4 then
        match l with
        | b :: l => if negb (lead4 a b) then (false, 1%nat)
                    else match l with
                         | c :: l => if negb (cont c) then (false, 2%nat)
                                     else match l with
                                          | d :: _ => if cont d then (true, 4%nat) else (false, 3%nat)
                                          | [] => (false, 3%nat)
                                          end
                         | [] => (false, 2%nat)
                         end
        | [] => (false, 1%nat)
        end
      else (false, 1%nat)
  end.
(** A turn takes at least a byte. *)
Fixpoint lossy_from (fuel : nat) (l : list byte) : list byte :=
  match fuel, l with
  | S fuel, _ :: _ =>
      let '(ok, n) := valid_at l in
      (if ok then take n l else REPLACEMENT) ++ lossy_from fuel (drop n l)
  | _, _ => []
  end.
Definition to_string_lossy (l : list byte) : list byte := lossy_from (length l) l.
