(* ===== verification/Rpc.v ===== *)
(** * Remote procedure calls

    The messages of [cli/src/nfsserve/rpc.rs] with their codecs, the replies the server builds, and
    the table of [transaction_tracker.rs] that recognises retransmissions. *)

From S2P Require Import Prelude Xdr.

#[local] Open Scope string_scope.
#[local] Open Scope list_scope.
#[local] Open Scope Z_scope.

Ltac xenum_law := apply xenum_lawful; intros []; (split; [simpl; lia|done]).
Ltac xmap_law := apply xmap_lawful; [by intros []|apply _].

(** ** Messages *)

Inductive auth_stat := AUTH_BADCRED | AUTH_REJECTEDCRED | AUTH_BADVERF | AUTH_REJECTEDVERF | AUTH_TOOWEAK.
Definition auth_stat_xdr : codec auth_stat :=
  xenum (λ s, match s with
              | AUTH_BADCRED => 1 | AUTH_REJECTEDCRED => 2 | AUTH_BADVERF => 3
              | AUTH_REJECTEDVERF => 4 | AUTH_TOOWEAK => 5
              end)
    (λ n, match n with
          | 1 => Some AUTH_BADCRED | 2 => Some AUTH_REJECTEDCRED | 3 => Some AUTH_BADVERF
          | 4 => Some AUTH_REJECTEDVERF | 5 => Some AUTH_TOOWEAK | _ => None
          end).
#[global] Instance auth_stat_lawful : Lawful auth_stat_xdr.
Proof. xenum_law. Qed.

Inductive auth_flavor := AUTH_NULL | AUTH_UNIX | AUTH_SHORT | AUTH_DES.
Definition auth_flavor_val (f : auth_flavor) : Z :=
  match f with AUTH_NULL => 0 | AUTH_UNIX => 1 | AUTH_SHORT => 2 | AUTH_DES => 3 end.
Definition auth_flavor_xdr : codec auth_flavor :=
  xenum auth_flavor_val
    (λ n, match n with
          | 0 => Some AUTH_NULL | 1 => Some AUTH_UNIX | 2 => Some AUTH_SHORT | 3 => Some AUTH_DES
          | _ => None
          end).
#[global] Instance auth_flavor_lawful : Lawful auth_flavor_xdr.
Proof. xenum_law. Qed.

Record auth_unix := mkAuthUnix {
  au_stamp : Z;
  au_machinename : list byte;
  au_uid : Z;
  au_gid : Z;
  au_gids : list Z;
}.
(** [auth_unix::default()] *)
Definition auth_unix_default : auth_unix := mkAuthUnix 0 [] 0 0 [].
Definition auth_unix_xdr : codec auth_unix :=
  xmap (λ '(stamp, machinename, uid, gid, gids), mkAuthUnix stamp machinename uid gid gids)
    (λ a, (au_stamp a, au_machinename a, au_uid a, au_gid a, au_gids a))
    (xpair (xpair (xpair (xpair u32 opaque) u32) u32) vec_u32).
#[global] Instance auth_unix_lawful : Lawful auth_unix_xdr.
Proof. xmap_law. Qed.

Record opaque_auth := mkOpaqueAuth { oa_flavor : auth_flavor; oa_body : list byte }.
Definition opaque_auth_default : opaque_auth := mkOpaqueAuth AUTH_NULL [].
Definition opaque_auth_xdr : codec opaque_auth :=
  xmap (λ '(flavor, body), mkOpaqueAuth flavor body) (λ a, (oa_flavor a, oa_body a))
    (xpair auth_flavor_xdr opaque).
#[global] Instance opaque_auth_lawful : Lawful opaque_auth_xdr.
Proof. xmap_law. Qed.

Record mismatch_info := mkMismatch { mi_low : Z; mi_high : Z }.
Definition mismatch_info_default : mismatch_info := mkMismatch 0 0.
Definition mismatch_info_xdr : codec mismatch_info :=
  xmap (λ '(low, high), mkMismatch low high) (λ m, (mi_low m, mi_high m)) (xpair u32 u32).
#[global] Instance mismatch_info_lawful : Lawful mismatch_info_xdr.
Proof. xmap_law. Qed.

Inductive accept_body :=
  | SUCCESS
  | PROG_UNAVAIL
  | PROG_MISMATCH (info : mismatch_info)
  | PROC_UNAVAIL
  | GARBAGE_ARGS.
(** A tag above three reads as [GARBAGE_ARGS]. *)
Definition accept_body_xdr : codec accept_body :=
  xunion (λ b, match b with PROG_MISMATCH v => valid mismatch_info_xdr v | _ => True end)
    (λ b, match b with
          | SUCCESS => 0 | PROG_UNAVAIL => 1 | PROG_MISMATCH _ => 2 | PROC_UNAVAIL => 3
          | GARBAGE_ARGS => 4
          end)
    (λ b, match b with PROG_MISMATCH v => serialize mismatch_info_xdr v | _ => Some [] end)
    (λ c l,
      if c =? 0 then Some (SUCCESS, l)
      else if c =? 1 then Some (PROG_UNAVAIL, l)
      else if c =? 2 then read_arm mismatch_info_xdr PROG_MISMATCH l
      else if c =? 3 then Some (PROC_UNAVAIL, l)
      else Some (GARBAGE_ARGS, l)).
#[global] Instance accept_body_lawful : Lawful accept_body_xdr.
Proof.
  apply xunion_lawful. intros [| |v| |] Hv; (split; [simpl; lia|]); try (by exists []).
  exact (read_arm_lawful mismatch_info_xdr PROG_MISMATCH v _ Hv).
Qed.

Record accepted_reply := mkAccepted { ar_verf : opaque_auth; ar_reply_data : accept_body }.
Definition accepted_reply_xdr : codec accepted_reply :=
  xmap (λ '(verf, data), mkAccepted verf data) (λ r, (ar_verf r, ar_reply_data r))
    (xpair opaque_auth_xdr accept_body_xdr).
#[global] Instance accepted_reply_lawful : Lawful accepted_reply_xdr.
Proof. xmap_law. Qed.

Inductive rejected_reply := RPC_MISMATCH (info : mismatch_info) | AUTH_ERROR (stat : auth_stat).
(** An unknown tag leaves the default value of the caller. *)
Definition rejected_reply_xdr : codec rejected_reply :=
  xunion (λ r, match r with RPC_MISMATCH v => valid mismatch_info_xdr v | AUTH_ERROR v => valid auth_stat_xdr v end)
    (λ r, match r with RPC_MISMATCH _ => 0 | AUTH_ERROR _ => 1 end)
    (λ r, match r with
          | RPC_MISMATCH v => serialize mismatch_info_xdr v
          | AUTH_ERROR v => serialize auth_stat_xdr v
          end)
    (λ c l,
      if c =? 0 then read_arm mismatch_info_xdr RPC_MISMATCH l
      else if c =? 1 then read_arm auth_stat_xdr AUTH_ERROR l
      else Some (RPC_MISMATCH mismatch_info_default, l)).
#[global] Instance rejected_reply_lawful : Lawful rejected_reply_xdr.
Proof.
  apply xunion_lawful. intros [v|v] Hv; (split; [simpl; lia|]).
  - exact (read_arm_lawful mismatch_info_xdr RPC_MISMATCH v _ Hv).
  - exact (read_arm_lawful auth_stat_xdr AUTH_ERROR v _ Hv).
Qed.

Inductive reply_body := MSG_ACCEPTED (r : accepted_reply) | MSG_DENIED (r : rejected_reply).
Definition reply_body_default : reply_body := MSG_ACCEPTED (mkAccepted opaque_auth_default SUCCESS).
Definition reply_body_xdr : codec reply_body :=
  xunion (λ r, match r with MSG_ACCEPTED v => valid accepted_reply_xdr v | MSG_DENIED v => valid rejected_reply_xdr v end)
    (λ r, match r with MSG_ACCEPTED _ => 0 | MSG_DENIED _ => 1 end)
    (λ r, match r with
          | MSG_ACCEPTED v => serialize accepted_reply_xdr v
          | MSG_DENIED v => serialize rejected_reply_xdr v
          end)
    (λ c l,
      if c =? 0 then read_arm accepted_reply_xdr MSG_ACCEPTED l
      else if c =? 1 then read_arm rejected_reply_xdr MSG_DENIED l
      else Some (reply_body_default, l)).
#[global] Instance reply_body_lawful : Lawful reply_body_xdr.
Proof.
  apply xunion_lawful. intros [v|v] Hv; (split; [simpl; lia|]).
  - exact (read_arm_lawful accepted_reply_xdr MSG_ACCEPTED v _ Hv).
  - exact (read_arm_lawful rejected_reply_xdr MSG_DENIED v _ Hv).
Qed.

Record call_body := mkCall {
  cb_rpcvers : Z;
  cb_prog : Z;
  cb_vers : Z;
  cb_proc : Z;
  cb_cred : opaque_auth;
  cb_verf : opaque_auth;
}.
Definition call_body_default : call_body := mkCall 0 0 0 0 opaque_auth_default opaque_auth_default.
Definition call_body_xdr : codec call_body :=
  xmap (λ '(rpcvers, prog, vers, proc, cred, verf), mkCall rpcvers prog vers proc cred verf)
    (λ c, (cb_rpcvers c, cb_prog c, cb_vers c, cb_proc c, cb_cred c, cb_verf c))
    (xpair (xpair (xpair (xpair (xpair u32 u32) u32) u32) opaque_auth_xdr) opaque_auth_xdr).
#[global] Instance call_body_lawful : Lawful call_body_xdr.
Proof. xmap_law. Qed.

Inductive rpc_body := CALL (c : call_body) | REPLY (r : reply_body).
Definition rpc_body_xdr : codec rpc_body :=
  xunion (λ r, match r with CALL v => valid call_body_xdr v | REPLY v => valid reply_body_xdr v end)
    (λ r, match r with CALL _ => 0 | REPLY _ => 1 end)
    (λ r, match r with CALL v => serialize call_body_xdr v | REPLY v => serialize reply_body_xdr v end)
    (λ c l,
      if c =? 0 then read_arm call_body_xdr CALL l
      else if c =? 1 then read_arm reply_body_xdr REPLY l
      else Some (CALL call_body_default, l)).
#[global] Instance rpc_body_lawful : Lawful rpc_body_xdr.
Proof.
  apply xunion_lawful. intros [v|v] Hv; (split; [simpl; lia|]).
  - exact (read_arm_lawful call_body_xdr CALL v _ Hv).
  - exact (read_arm_lawful reply_body_xdr REPLY v _ Hv).
Qed.

Record rpc_msg := mkMsg { rm_xid : Z; rm_body : rpc_body }.
Definition rpc_msg_xdr : codec rpc_msg :=
  xmap (λ '(xid, body), mkMsg xid body) (λ m, (rm_xid m, rm_body m)) (xpair u32 rpc_body_xdr).
#[global] Instance rpc_msg_lawful : Lawful rpc_msg_xdr.
Proof. xmap_law. Qed.

(** ** Replies *)

Definition accepted (xid : Z) (b : accept_body) : rpc_msg :=
  mkMsg xid (REPLY (MSG_ACCEPTED (mkAccepted opaque_auth_default b))).
Definition proc_unavail_reply_message (xid : Z) : rpc_msg := accepted xid PROC_UNAVAIL.
Definition prog_unavail_reply_message (xid : Z) : rpc_msg := accepted xid PROG_UNAVAIL.
Definition prog_mismatch_reply_message (xid accepted_ver : Z) : rpc_msg :=
  accepted xid (PROG_MISMATCH (mkMismatch accepted_ver accepted_ver)).
Definition garbage_args_reply_message (xid : Z) : rpc_msg := accepted xid GARBAGE_ARGS.
Definition rpc_vers_mismatch (xid : Z) : rpc_msg :=
  mkMsg xid (REPLY (MSG_DENIED (RPC_MISMATCH mismatch_info_default))).
Definition make_success_reply (xid : Z) : rpc_msg := accepted xid SUCCESS.

(** ** Retransmissions *)

Inductive TransactionState := InProgress | Completed (completion_time : Z).
(** The table of [TransactionTracker]; times count from the epoch. *)
Abbreviation transactions := (gmap (Z * string) TransactionState).

Definition recent (cutoff : Z) (v : TransactionState) : bool :=
  match v with InProgress => true | Completed completion_time => cutoff <=? completion_time end.
Definition housekeeping (now max_age : Z) (t : transactions) : transactions :=
  filter (λ kv, recent (now - max_age) kv.2 = true) t.
(** [true] for a retransmission; a new transaction is entered as in progress. *)
Definition is_retransmission (retention now xid : Z) (client : string) (t : transactions) : bool * transactions :=
  let t := housekeeping now retention t in
  match t !! (xid, client) with
  | None => (false, <[(xid, client):=InProgress]> t)
  | Some _ => (true, t)
  end.
Definition mark_processed (now xid : Z) (client : string) (t : transactions) : transactions :=
  match t !! (xid, client) with
  | Some _ => <[(xid, client):=Completed now]> t
  | None => t
  end.
