(* ===== verification/NfsTypes.v ===== *)
(** * The data of the NFS protocol

    The types of [cli/src/nfsserve/nfs.rs] and [mount.rs] with their codecs, and the permission
    checks of [permissions.rs]. *)

From S2P Require Import Prelude Xdr Rpc.

#[local] Open Scope list_scope.
#[local] Open Scope Z_scope.

(** ** Types *)

Inductive nfsstat3 :=
  | NFS3_OK | NFS3ERR_PERM | NFS3ERR_NOENT | NFS3ERR_IO | NFS3ERR_NXIO | NFS3ERR_ACCES
  | NFS3ERR_EXIST | NFS3ERR_XDEV | NFS3ERR_NODEV | NFS3ERR_NOTDIR | NFS3ERR_ISDIR | NFS3ERR_INVAL
  | NFS3ERR_FBIG | NFS3ERR_NOSPC | NFS3ERR_ROFS | NFS3ERR_MLINK | NFS3ERR_NAMETOOLONG
  | NFS3ERR_NOTEMPTY | NFS3ERR_DQUOT | NFS3ERR_STALE | NFS3ERR_REMOTE | NFS3ERR_BADHANDLE
  | NFS3ERR_NOT_SYNC | NFS3ERR_BAD_COOKIE | NFS3ERR_NOTSUPP | NFS3ERR_TOOSMALL
  | NFS3ERR_SERVERFAULT | NFS3ERR_BADTYPE | NFS3ERR_JUKEBOX.
Definition nfsstat3_val (s : nfsstat3) : Z :=
  match s with
  | NFS3_OK => 0 | NFS3ERR_PERM => 1 | NFS3ERR_NOENT => 2 | NFS3ERR_IO => 5 | NFS3ERR_NXIO => 6
  | NFS3ERR_ACCES => 13 | NFS3ERR_EXIST => 17 | NFS3ERR_XDEV => 18 | NFS3ERR_NODEV => 19
  | NFS3ERR_NOTDIR => 20 | NFS3ERR_ISDIR => 21 | NFS3ERR_INVAL => 22 | NFS3ERR_FBIG => 27
  | NFS3ERR_NOSPC => 28 | NFS3ERR_ROFS => 30 | NFS3ERR_MLINK => 31 | NFS3ERR_NAMETOOLONG => 63
  | NFS3ERR_NOTEMPTY => 66 | NFS3ERR_DQUOT => 69 | NFS3ERR_STALE => 70 | NFS3ERR_REMOTE => 71
  | NFS3ERR_BADHANDLE => 10001 | NFS3ERR_NOT_SYNC => 10002 | NFS3ERR_BAD_COOKIE => 10003
  | NFS3ERR_NOTSUPP => 10004 | NFS3ERR_TOOSMALL => 10005 | NFS3ERR_SERVERFAULT => 10006
  | NFS3ERR_BADTYPE => 10007 | NFS3ERR_JUKEBOX => 10008
  end.
Definition nfsstat3_of (n : Z) : option nfsstat3 :=
  match n with
  | 0 => Some NFS3_OK | 1 => Some NFS3ERR_PERM | 2 => Some NFS3ERR_NOENT | 5 => Some NFS3ERR_IO
  | 6 => Some NFS3ERR_NXIO | 13 => Some NFS3ERR_ACCES | 17 => Some NFS3ERR_EXIST
  | 18 => Some NFS3ERR_XDEV | 19 => Some NFS3ERR_NODEV | 20 => Some NFS3ERR_NOTDIR
  | 21 => Some NFS3ERR_ISDIR | 22 => Some NFS3ERR_INVAL | 27 => Some NFS3ERR_FBIG
  | 28 => Some NFS3ERR_NOSPC | 30 => Some NFS3ERR_ROFS | 31 => Some NFS3ERR_MLINK
  | 63 => Some NFS3ERR_NAMETOOLONG | 66 => Some NFS3ERR_NOTEMPTY | 69 => Some NFS3ERR_DQUOT
  | 70 => Some NFS3ERR_STALE | 71 => Some NFS3ERR_REMOTE | 10001 => Some NFS3ERR_BADHANDLE
  | 10002 => Some NFS3ERR_NOT_SYNC | 10003 => Some NFS3ERR_BAD_COOKIE
  | 10004 => Some NFS3ERR_NOTSUPP | 10005 => Some NFS3ERR_TOOSMALL
  | 10006 => Some NFS3ERR_SERVERFAULT | 10007 => Some NFS3ERR_BADTYPE
  | 10008 => Some NFS3ERR_JUKEBOX | _ => None
  end.
Definition nfsstat3_xdr : codec nfsstat3 := xenum nfsstat3_val nfsstat3_of.
#[global] Instance nfsstat3_lawful : Lawful nfsstat3_xdr.
Proof. xenum_law. Qed.

Inductive ftype3 := NF3REG | NF3DIR | NF3BLK | NF3CHR | NF3LNK | NF3SOCK | NF3FIFO.
Definition ftype3_val (t : ftype3) : Z :=
  match t with
  | NF3REG => 1 | NF3DIR => 2 | NF3BLK => 3 | NF3CHR => 4 | NF3LNK => 5 | NF3SOCK => 6 | NF3FIFO => 7
  end.
(** [ftype3::from_u32] *)
Definition ftype3_of (n : Z) : option ftype3 :=
  match n with
  | 1 => Some NF3REG | 2 => Some NF3DIR | 3 => Some NF3BLK | 4 => Some NF3CHR | 5 => Some NF3LNK
  | 6 => Some NF3SOCK | 7 => Some NF3FIFO | _ => None
  end.
Definition ftype3_xdr : codec ftype3 := xenum ftype3_val ftype3_of.
#[global] Instance ftype3_lawful : Lawful ftype3_xdr.
Proof. xenum_law. Qed.
#[global] Instance ftype3_eq_dec : EqDecision ftype3.
Proof. solve_decision. Defined.

Record specdata3 := mkSpecdata { specdata1 : Z; specdata2 : Z }.
Definition specdata3_default : specdata3 := mkSpecdata 0 0.
Definition specdata3_xdr : codec specdata3 :=
  xmap (λ '(a, b), mkSpecdata a b) (λ s, (specdata1 s, specdata2 s)) (xpair u32 u32).
#[global] Instance specdata3_lawful : Lawful specdata3_xdr.
Proof. xmap_law. Qed.

(** [nfs_fh3]: its bytes. *)
Definition nfs_fh3 : Type := list byte.
Definition nfs_fh3_xdr : codec nfs_fh3 := opaque.
#[global] Instance nfs_fh3_lawful : Lawful nfs_fh3_xdr.
Proof. apply opaque_lawful. Qed.

Record nfstime3 := mkTime { seconds : Z; nseconds : Z }.
Definition nfstime3_xdr : codec nfstime3 :=
  xmap (λ '(s, n), mkTime s n) (λ t, (seconds t, nseconds t)) (xpair u32 u32).
#[global] Instance nfstime3_lawful : Lawful nfstime3_xdr.
Proof. xmap_law. Qed.

Record fattr3 := mkFattr {
  at_ftype : ftype3;
  at_mode : Z;
  at_nlink : Z;
  at_uid : Z;
  at_gid : Z;
  at_size : Z;
  at_used : Z;
  at_rdev : specdata3;
  at_fsid : Z;
  at_fileid : Z;
  at_atime : nfstime3;
  at_mtime : nfstime3;
  at_ctime : nfstime3;
}.
Definition fattr3_xdr : codec fattr3 :=
  xmap (λ '(ftype, mode, nlink, uid, gid, size, used, rdev, fsid, fileid, atime, mtime, ctime),
          mkFattr ftype mode nlink uid gid size used rdev fsid fileid atime mtime ctime)
    (λ a, (at_ftype a, at_mode a, at_nlink a, at_uid a, at_gid a, at_size a, at_used a, at_rdev a,
           at_fsid a, at_fileid a, at_atime a, at_mtime a, at_ctime a))
    (xpair (xpair (xpair (xpair (xpair (xpair (xpair (xpair (xpair (xpair (xpair (xpair
      ftype3_xdr u32) u32) u32) u32) u64) u64) specdata3_xdr) u64) u64)
      nfstime3_xdr) nfstime3_xdr) nfstime3_xdr).
#[global] Instance fattr3_lawful : Lawful fattr3_xdr.
Proof. xmap_law. Qed.

Record wcc_attr := mkWccAttr { wa_size : Z; wa_mtime : nfstime3; wa_ctime : nfstime3 }.
Definition wcc_attr_xdr : codec wcc_attr :=
  xmap (λ '(size, mtime, ctime), mkWccAttr size mtime ctime)
    (λ a, (wa_size a, wa_mtime a, wa_ctime a)) (xpair (xpair u64 nfstime3_xdr) nfstime3_xdr).
#[global] Instance wcc_attr_lawful : Lawful wcc_attr_xdr.
Proof. xmap_law. Qed.

(** [pre_op_attr], [post_op_attr], [post_op_fh3]: [Void] is [None]. *)
Definition pre_op_attr_xdr : codec (option wcc_attr) := xopt wcc_attr_xdr.
Definition post_op_attr_xdr : codec (option fattr3) := xopt fattr3_xdr.
Definition post_op_fh3_xdr : codec (option nfs_fh3) := xopt nfs_fh3_xdr.
#[global] Instance pre_op_attr_lawful : Lawful pre_op_attr_xdr.
Proof. apply _. Qed.
#[global] Instance post_op_attr_lawful : Lawful post_op_attr_xdr.
Proof. apply _. Qed.
#[global] Instance post_op_fh3_lawful : Lawful post_op_fh3_xdr.
Proof. apply _. Qed.

Record wcc_data := mkWcc { wcc_before : option wcc_attr; wcc_after : option fattr3 }.
Definition wcc_data_default : wcc_data := mkWcc None None.
Definition wcc_data_xdr : codec wcc_data :=
  xmap (λ '(before, after), mkWcc before after) (λ w, (wcc_before w, wcc_after w))
    (xpair pre_op_attr_xdr post_op_attr_xdr).
#[global] Instance wcc_data_lawful : Lawful wcc_data_xdr.
Proof. xmap_law. Qed.

Record fsinfo3 := mkFsinfo {
  fi_obj_attributes : option fattr3;
  fi_rtmax : Z;
  fi_rtpref : Z;
  fi_rtmult : Z;
  fi_wtmax : Z;
  fi_wtpref : Z;
  fi_wtmult : Z;
  fi_dtpref : Z;
  fi_maxfilesize : Z;
  fi_time_delta : nfstime3;
  fi_properties : Z;
}.
Definition fsinfo3_xdr : codec fsinfo3 :=
  xmap (λ '(attr, rtmax, rtpref, rtmult, wtmax, wtpref, wtmult, dtpref, maxfilesize, delta, properties),
          mkFsinfo attr rtmax rtpref rtmult wtmax wtpref wtmult dtpref maxfilesize delta properties)
    (λ i, (fi_obj_attributes i, fi_rtmax i, fi_rtpref i, fi_rtmult i, fi_wtmax i, fi_wtpref i,
           fi_wtmult i, fi_dtpref i, fi_maxfilesize i, fi_time_delta i, fi_properties i))
    (xpair (xpair (xpair (xpair (xpair (xpair (xpair (xpair (xpair (xpair
      post_op_attr_xdr u32) u32) u32) u32) u32) u32) u32) u64) nfstime3_xdr) u32).
#[global] Instance fsinfo3_lawful : Lawful fsinfo3_xdr.
Proof. xmap_law. Qed.
Definition FSF_SYMLINK : Z := 0x0002.
Definition FSF_HOMOGENEOUS : Z := 0x0008.
Definition FSF_CANSETTIME : Z := 0x0010.

(** [set_atime], [set_mtime] *)
Inductive set_time := DONT_CHANGE | SET_TO_SERVER_TIME | SET_TO_CLIENT_TIME (t : nfstime3).
Definition set_time_xdr : codec set_time :=
  xunion (λ s, match s with SET_TO_CLIENT_TIME v => valid nfstime3_xdr v | _ => True end)
    (λ s, match s with DONT_CHANGE => 0 | SET_TO_SERVER_TIME => 1 | SET_TO_CLIENT_TIME _ => 2 end)
    (λ s, match s with SET_TO_CLIENT_TIME v => serialize nfstime3_xdr v | _ => Some [] end)
    (λ c l,
      if c =? 0 then Some (DONT_CHANGE, l)
      else if c =? 1 then Some (SET_TO_SERVER_TIME, l)
      else if c =? 2 then read_arm nfstime3_xdr SET_TO_CLIENT_TIME l
      else None).
#[global] Instance set_time_lawful : Lawful set_time_xdr.
Proof.
  apply xunion_lawful. intros [| |v] Hv; (split; [simpl; lia|]); try (by exists []).
  exact (read_arm_lawful nfstime3_xdr SET_TO_CLIENT_TIME v _ Hv).
Qed.

(** [set_mode3], [set_uid3], [set_gid3], [set_size3] are options. *)
Record sattr3 := mkSattr {
  sa_mode : option Z;
  sa_uid : option Z;
  sa_gid : option Z;
  sa_size : option Z;
  sa_atime : set_time;
  sa_mtime : set_time;
}.
Definition sattr3_default : sattr3 := mkSattr None None None None DONT_CHANGE DONT_CHANGE.
Definition sattr3_xdr : codec sattr3 :=
  xmap (λ '(mode, uid, gid, size, atime, mtime), mkSattr mode uid gid size atime mtime)
    (λ s, (sa_mode s, sa_uid s, sa_gid s, sa_size s, sa_atime s, sa_mtime s))
    (xpair (xpair (xpair (xpair (xpair (xopt u32) (xopt u32)) (xopt u32)) (xopt u64)) set_time_xdr) set_time_xdr).
#[global] Instance sattr3_lawful : Lawful sattr3_xdr.
Proof. xmap_law. Qed.
Definition with_mode (mode : option Z) (s : sattr3) : sattr3 :=
  mkSattr mode (sa_uid s) (sa_gid s) (sa_size s) (sa_atime s) (sa_mtime s).

Record diropargs3 := mkDirop { do_dir : nfs_fh3; do_name : list byte }.
Definition diropargs3_xdr : codec diropargs3 :=
  xmap (λ '(dir, name), mkDirop dir name) (λ d, (do_dir d, do_name d)) (xpair nfs_fh3_xdr opaque).
#[global] Instance diropargs3_lawful : Lawful diropargs3_xdr.
Proof. xmap_law. Qed.

Record symlinkdata3 := mkSymlinkdata { sl_attributes : sattr3; sl_data : list byte }.
Definition symlinkdata3_xdr : codec symlinkdata3 :=
  xmap (λ '(attr, data), mkSymlinkdata attr data) (λ s, (sl_attributes s, sl_data s)) (xpair sattr3_xdr opaque).
#[global] Instance symlinkdata3_lawful : Lawful symlinkdata3_xdr.
Proof. xmap_law. Qed.

(** The mount protocol's status, of which the server uses two values. *)
Inductive mountstat3 :=
  | MNT3_OK | MNT3ERR_PERM | MNT3ERR_NOENT | MNT3ERR_IO | MNT3ERR_ACCES | MNT3ERR_NOTDIR
  | MNT3ERR_INVAL | MNT3ERR_NAMETOOLONG | MNT3ERR_NOTSUPP | MNT3ERR_SERVERFAULT.
Definition mountstat3_xdr : codec mountstat3 :=
  xenum (λ s, match s with
              | MNT3_OK => 0 | MNT3ERR_PERM => 1 | MNT3ERR_NOENT => 2 | MNT3ERR_IO => 5
              | MNT3ERR_ACCES => 13 | MNT3ERR_NOTDIR => 20 | MNT3ERR_INVAL => 22
              | MNT3ERR_NAMETOOLONG => 63 | MNT3ERR_NOTSUPP => 10004 | MNT3ERR_SERVERFAULT => 10006
              end)
    (λ n, match n with
          | 0 => Some MNT3_OK | 1 => Some MNT3ERR_PERM | 2 => Some MNT3ERR_NOENT | 5 => Some MNT3ERR_IO
          | 13 => Some MNT3ERR_ACCES | 20 => Some MNT3ERR_NOTDIR | 22 => Some MNT3ERR_INVAL
          | 63 => Some MNT3ERR_NAMETOOLONG | 10004 => Some MNT3ERR_NOTSUPP
          | 10006 => Some MNT3ERR_SERVERFAULT | _ => None
          end).
#[global] Instance mountstat3_lawful : Lawful mountstat3_xdr.
Proof. xenum_law. Qed.

(** ** Permissions *)

Definition S_IRUSR : Z := 0x100.
Definition S_IWUSR : Z := 0x80.
Definition S_IXUSR : Z := 0x40.
Definition S_IRGRP : Z := 0x20.
Definition S_IWGRP : Z := 0x10.
Definition S_IXGRP : Z := 0x8.
Definition S_IROTH : Z := 0x4.
Definition S_IWOTH : Z := 0x2.
Definition S_IXOTH : Z := 0x1.
Definition S_ISVTX : Z := 0x200.
Definition ACCESS3_READ : Z := 0x0001.
Definition ACCESS3_LOOKUP : Z := 0x0002.
Definition ACCESS3_MODIFY : Z := 0x0004.
Definition ACCESS3_EXTEND : Z := 0x0008.
Definition ACCESS3_DELETE : Z := 0x0010.
Definition ACCESS3_EXECUTE : Z := 0x0020.

Inductive Permission := PRead | PWrite | PExecute.
Definition has_bit (mode bit : Z) : bool := negb (Z.land mode bit =? 0).
Definition is_in_group (auth : auth_unix) (gid : Z) : bool :=
  (au_gid auth =? gid) || bool_decide (gid ∈ au_gids auth).
Definition check_permission (auth : auth_unix) (attr : fattr3) (perm : Permission) : bool :=
  if au_uid auth =? 0 then true
  else
    let '(read_bit, write_bit, exec_bit) :=
      if au_uid auth =? at_uid attr then (S_IRUSR, S_IWUSR, S_IXUSR)
      else if is_in_group auth (at_gid attr) then (S_IRGRP, S_IWGRP, S_IXGRP)
      else (S_IROTH, S_IWOTH, S_IXOTH) in
    match perm with
    | PRead => has_bit (at_mode attr) read_bit
    | PWrite => has_bit (at_mode attr) write_bit
    | PExecute => has_bit (at_mode attr) exec_bit
    end.
Definition can_read (auth : auth_unix) (attr : fattr3) : bool := check_permission auth attr PRead.
Definition can_write (auth : auth_unix) (attr : fattr3) : bool := check_permission auth attr PWrite.
Definition can_execute (auth : auth_unix) (attr : fattr3) : bool := check_permission auth attr PExecute.
Definition grant (b : bool) (bit result : Z) : Z := if b then Z.lor result bit else result.
Definition compute_access (auth : auth_unix) (attr : fattr3) (requested : Z) : Z :=
  let is_dir := bool_decide (at_ftype attr = NF3DIR) in
  grant (has_bit requested ACCESS3_EXECUTE && negb is_dir && can_execute auth attr) ACCESS3_EXECUTE (
  grant (has_bit requested ACCESS3_DELETE && (is_dir && can_write auth attr)) ACCESS3_DELETE (
  grant (has_bit requested ACCESS3_EXTEND && can_write auth attr) ACCESS3_EXTEND (
  grant (has_bit requested ACCESS3_MODIFY && can_write auth attr) ACCESS3_MODIFY (
  grant (has_bit requested ACCESS3_LOOKUP && is_dir && can_execute auth attr) ACCESS3_LOOKUP (
  grant (has_bit requested ACCESS3_READ && can_read auth attr) ACCESS3_READ 0))))).
Definition can_modify_directory (auth : auth_unix) (dir_attr : fattr3) : bool :=
  can_write auth dir_attr && can_execute auth dir_attr.
Definition can_delete_entry (auth : auth_unix) (dir_attr entry_attr : fattr3) : bool :=
  if negb (can_modify_directory auth dir_attr) then false
  else if Z.land (at_mode dir_attr) S_ISVTX =? 0 then true
  else (au_uid auth =? 0) || (au_uid auth =? at_uid dir_attr) || (au_uid auth =? at_uid entry_attr).
Definition is_owner (auth : auth_unix) (attr : fattr3) : bool :=
  (au_uid auth =? 0) || (au_uid auth =? at_uid attr).
