(* ===== verification/Nfs.v ===== *)
(** * The NFS adapter

    [AgentNFS] of [cli/src/nfs.rs]: the trait [NFSFileSystem] on top of a file system behind the
    class [FileSystem], with the provided methods of the trait ([cli/src/nfsserve/vfs.rs]). *)

From S2P Require Import Prelude Utf8 Types Tables Monad FsClass Xdr Rpc NfsTypes.

#[local] Open Scope string_scope.
#[local] Open Scope list_scope.
#[local] Open Scope Z_scope.

(** ** Results *)

Inductive nres (A : Type) := NOk (a : A) | NErr (stat : nfsstat3) | NPanic.
Arguments NOk {A}.
Arguments NErr {A}.
Arguments NPanic {A}.
(** A method of the adapter: [Result<A, nfsstat3>] and the state of the file system. *)
Definition N (S A : Type) : Type := S → nres A * S.
#[global] Instance N_ret S : MRet (N S) := λ A a s, (NOk a, s).
#[global] Instance N_bind S : MBind (N S) := λ A B k m s,
  match m s with
  | (NOk a, s') => k a s'
  | (NErr e, s') => (NErr e, s')
  | (NPanic, s') => (NPanic, s')
  end.
Definition nfail {S A} (stat : nfsstat3) : N S A := λ s, (NErr stat, s).
Definition ok_or {S A} (o : option A) (stat : nfsstat3) : N S A :=
  match o with Some a => mret a | None => nfail stat end.

Definition error_to_nfsstat (e : Error) : nfsstat3 :=
  match e with
  | EFs NotFound => NFS3ERR_NOENT
  | EFs AlreadyExists => NFS3ERR_EXIST
  | EFs NotEmpty => NFS3ERR_NOTEMPTY
  | EFs NotADirectory => NFS3ERR_NOTDIR
  | EFs IsADirectory => NFS3ERR_ISDIR
  | EFs NameTooLong => NFS3ERR_NAMETOOLONG
  | EFs RootOperation => NFS3ERR_ACCES
  | EConnectionPoolTimeout => NFS3ERR_JUKEBOX
  | _ => NFS3ERR_IO
  end.
(** [..await.map_err(f)?] *)
Definition map_err {S A} (f : Error → nfsstat3) (m : St S A) : N S A := λ s,
  match m s with
  | (Ok a, s') => (NOk a, s')
  | (Err e, s') => (NErr (f e), s')
  | (Panic, s') => (NPanic, s')
  end.
Abbreviation ncall m := (map_err error_to_nfsstat m).

(** [std::str::from_utf8] *)
Definition from_utf8 (b : list byte) : option string :=
  if utf8 (byte_val <$> b) then Some (String.string_of_list_byte b) else None.

(** The device numbers of [libc]. *)
Class LibcDev := { major : Z → Z; minor : Z → Z; makedev : Z → Z → Z }.

Inductive VFSCapabilities := ReadOnly | ReadWrite.

Record NfsEntry := mkNfsEntry { ne_fileid : Z; ne_name : list byte; ne_attr : fattr3 }.
Record ReadDirResult := mkReadDir { rd_entries : list NfsEntry; rd_end : bool }.
Record ReadDirSimpleResult := mkReadDirSimple { rs_entries : list (Z * list byte); rs_end : bool }.

Module Nfs.
Section adapter.
Context {S : Type} {FS : FileSystem S} {D : LibcDev}.

Definition ROOT_INO : Z := 1.
Definition root_dir : Z := ROOT_INO.
Definition capabilities : VFSCapabilities := ReadWrite.
Definition id_to_fs_ino (id : Z) : Z := Int.i64 id.
Definition name_of (name : list byte) : N S string := ok_or (from_utf8 name) NFS3ERR_INVAL.

Definition ftype_of (mode : Z) : ftype3 :=
  let t := Z.land mode S_IFMT in
  if t =? S_IFREG then NF3REG
  else if t =? S_IFDIR then NF3DIR
  else if t =? S_IFLNK then NF3LNK
  else if t =? S_IFIFO then NF3FIFO
  else if t =? S_IFCHR then NF3CHR
  else if t =? S_IFBLK then NF3BLK
  else if t =? S_IFSOCK then NF3SOCK
  else NF3REG.
Definition stats_to_fattr (st : Stats) : fattr3 :=
  mkFattr (ftype_of (st_mode st)) (Z.land (st_mode st) 0xfff) (st_nlink st) (st_uid st) (st_gid st)
    (Int.u64 (st_size st)) (Int.u64 (st_size st))
    (mkSpecdata (Int.u32 (major (Int.u64 (st_rdev st)))) (Int.u32 (minor (Int.u64 (st_rdev st)))))
    0 (Int.u64 (st_ino st))
    (mkTime (Int.u32 (st_atime st)) (st_atime_nsec st))
    (mkTime (Int.u32 (st_mtime st)) (st_mtime_nsec st))
    (mkTime (Int.u32 (st_ctime st)) (st_ctime_nsec st)).

Definition lookup (dirid : Z) (filename : list byte) : N S Z :=
  name ← name_of filename;
  if decide (name = ".") then mret dirid
  else if decide (name = "..") then
    o ← ncall (fs_lookup (id_to_fs_ino dirid) "..");
    stats ← ok_or o NFS3ERR_NOENT;
    mret (Int.u64 (st_ino stats))
  else
    d ← ncall (fs_getattr (id_to_fs_ino dirid));
    dir_stats ← ok_or d NFS3ERR_NOENT;
    if negb (is_directory dir_stats) then nfail NFS3ERR_NOTDIR
    else
      o ← ncall (fs_lookup (id_to_fs_ino dirid) name);
      stats ← ok_or o NFS3ERR_NOENT;
      mret (Int.u64 (st_ino stats)).
Definition getattr (id : Z) : N S fattr3 :=
  o ← ncall (fs_getattr (id_to_fs_ino id));
  stats ← ok_or o NFS3ERR_NOENT;
  mret (stats_to_fattr stats).

Definition time_change (t : set_time) : TimeChange :=
  match t with
  | SET_TO_CLIENT_TIME t => SetTime (seconds t) (nseconds t)
  | SET_TO_SERVER_TIME => Now
  | DONT_CHANGE => Omit
  end.
Definition is_omit (t : TimeChange) : bool := match t with Omit => true | _ => false end.
Definition setattr (id : Z) (s : sattr3) : N S fattr3 :=
  let fs_ino := id_to_fs_ino id in
  (match sa_mode s with Some mode => ncall (fs_chmod fs_ino mode) | None => mret tt end) ≫= λ _,
  (match sa_uid s, sa_gid s with
   | None, None => mret tt
   | new_uid, new_gid => ncall (fs_chown fs_ino new_uid new_gid)
   end) ≫= λ _,
  (match sa_size s with
   | Some size => file ← ncall (fs_open fs_ino libc.O_RDWR); ncall (file_truncate file size)
   | None => mret tt
   end) ≫= λ _,
  let new_atime := time_change (sa_atime s) in
  let new_mtime := time_change (sa_mtime s) in
  (if negb (is_omit new_atime) || negb (is_omit new_mtime)
   then ncall (fs_utimens fs_ino new_atime new_mtime) else mret tt) ≫= λ _,
  o ← ncall (fs_getattr fs_ino);
  stats ← ok_or o NFS3ERR_NOENT;
  mret (stats_to_fattr stats).

Definition read (id offset count : Z) : N S (list byte * bool) :=
  file ← map_err (λ _, NFS3ERR_NOENT) (fs_open (id_to_fs_ino id) libc.O_RDONLY);
  data ← ncall (file_pread file offset count);
  stats ← ncall (file_fstat file);
  let eof := Int.u64 (st_size stats) <=? Int.u64_add offset (Vec.len data) in
  mret (data, eof).
Definition write (id offset : Z) (data : list byte) : N S fattr3 :=
  file ← ncall (fs_open (id_to_fs_ino id) libc.O_RDWR);
  ncall (file_pwrite file offset data) ≫= λ _,
  o ← ncall (fs_getattr (id_to_fs_ino id));
  stats ← ok_or o NFS3ERR_NOENT;
  mret (stats_to_fattr stats).

(** [let ino = stats.ino as fileid3; let fattr = self.stats_to_fattr(&stats); Ok((ino, fattr))] *)
Definition created (stats : Stats) : Z * fattr3 := (Int.u64 (st_ino stats), stats_to_fattr stats).
Definition perm_bits (attr : sattr3) (dflt : Z) : Z :=
  match sa_mode attr with Some m => Z.land m 0xfff | None => dflt end.
Definition create (dirid : Z) (filename : list byte) (attr : sattr3) (auth : auth_unix) : N S (Z * fattr3) :=
  name ← name_of filename;
  let mode := perm_bits attr 0x1a4 in
  r ← ncall (fs_create_file (id_to_fs_ino dirid) name (Z.lor S_IFREG mode) (au_uid auth) (au_gid auth));
  mret (created r.1).
Definition create_exclusive (dirid : Z) (filename : list byte) (auth : auth_unix) : N S Z :=
  name ← name_of filename;
  o ← ncall (fs_lookup (id_to_fs_ino dirid) name);
  match o with
  | Some _ => nfail NFS3ERR_EXIST
  | None =>
      r ← ncall (fs_create_file (id_to_fs_ino dirid) name (Z.lor S_IFREG 0x1a4) (au_uid auth) (au_gid auth));
      mret (Int.u64 (st_ino r.1))
  end.
Definition mkdir (dirid : Z) (dirname : list byte) (attr : sattr3) (auth : auth_unix) : N S (Z * fattr3) :=
  name ← name_of dirname;
  let mode := perm_bits attr 0x1ed in
  stats ← ncall (fs_mkdir (id_to_fs_ino dirid) name mode (au_uid auth) (au_gid auth));
  mret (created stats).
Definition type_mode (t : ftype3) : option Z :=
  match t with
  | NF3CHR => Some S_IFCHR
  | NF3BLK => Some S_IFBLK
  | NF3SOCK => Some S_IFSOCK
  | NF3FIFO => Some S_IFIFO
  | _ => None
  end.
Definition mknod (dirid : Z) (filename : list byte) (ftype : ftype3) (attr : sattr3) (rdev : specdata3)
    (auth : auth_unix) : N S (Z * fattr3) :=
  name ← name_of filename;
  let perm_mode := perm_bits attr 0x1a4 in
  tm ← ok_or (type_mode ftype) NFS3ERR_BADTYPE;
  let rdev_val := Int.u64 (makedev (specdata1 rdev) (specdata2 rdev)) in
  stats ← ncall (fs_mknod (id_to_fs_ino dirid) name (Z.lor tm perm_mode) rdev_val (au_uid auth) (au_gid auth));
  mret (created stats).

Definition remove (dirid : Z) (filename : list byte) : N S unit :=
  name ← name_of filename;
  o ← ncall (fs_lookup (id_to_fs_ino dirid) name);
  stats ← ok_or o NFS3ERR_NOENT;
  if is_directory stats then ncall (fs_rmdir (id_to_fs_ino dirid) name)
  else ncall (fs_unlink (id_to_fs_ino dirid) name).
Definition rename (from_dirid : Z) (from_filename : list byte) (to_dirid : Z) (to_filename : list byte) : N S unit :=
  from_name ← name_of from_filename;
  to_name ← name_of to_filename;
  ncall (fs_rename (id_to_fs_ino from_dirid) from_name (id_to_fs_ino to_dirid) to_name).
Definition link (id dirid : Z) (filename : list byte) : N S fattr3 :=
  name ← name_of filename;
  stats ← ncall (fs_link (id_to_fs_ino id) (id_to_fs_ino dirid) name);
  mret (stats_to_fattr stats).
Definition symlink (dirid : Z) (linkname target : list byte) (auth : auth_unix) : N S (Z * fattr3) :=
  name ← name_of linkname;
  tgt ← name_of target;
  stats ← ncall (fs_symlink (id_to_fs_ino dirid) name tgt (au_uid auth) (au_gid auth));
  mret (created stats).
Definition readlink (id : Z) : N S (list byte) :=
  o ← ncall (fs_readlink (id_to_fs_ino id));
  target ← ok_or o NFS3ERR_NOENT;
  mret (String.list_byte_of_string target).

(** The loop of [readdir]: the entries after the one with the number [start_after], at most
    [max_entries]; with the count of those skipped. *)
Definition entry_of (e : DirEntry) : NfsEntry :=
  mkNfsEntry (Int.u64 (st_ino (de_stats e))) (String.list_byte_of_string (de_name e))
    (stats_to_fattr (de_stats e)).
Fixpoint page (start_after max_entries : Z) (skip : bool) (es : list DirEntry) (acc : list NfsEntry)
    (skipped : Z) : list NfsEntry * Z :=
  match es with
  | [] => (acc, skipped)
  | e :: es =>
      if skip then
        page start_after max_entries (negb (Int.u64 (st_ino (de_stats e)) =? start_after)) es acc (skipped + 1)
      else if max_entries <=? Z.of_nat (length acc) then (acc, skipped)
      else page start_after max_entries false es (acc ++ [entry_of e]) skipped
  end.
Definition readdir (dirid start_after max_entries : Z) : N S ReadDirResult :=
  o ← ncall (fs_readdir_plus (id_to_fs_ino dirid));
  entries ← ok_or o NFS3ERR_NOENT;
  let '(res, skipped_count) := page start_after max_entries (0 <? start_after) entries [] 0 in
  mret (mkReadDir res (Z.of_nat (length entries) <=? Z.of_nat (length res) + skipped_count)).

(** *** Provided methods *)

Definition readdir_simple (dirid count : Z) : N S ReadDirSimpleResult :=
  r ← readdir dirid 0 count;
  mret (mkReadDirSimple ((λ e, (ne_fileid e, ne_name e)) <$> rd_entries r) (rd_end r)).

(** A result as a value: [match self.getattr(id).await { Ok(v) => .., Err(_) => .. }] *)
Definition try {A} (m : N S A) : N S (nfsstat3 + A) := λ s,
  match m s with
  | (NOk a, s') => (NOk (inr a), s')
  | (NErr e, s') => (NOk (inl e), s')
  | (NPanic, s') => (NPanic, s')
  end.
Definition ok {A} (r : nfsstat3 + A) : option A := match r with inr a => Some a | inl _ => None end.

Definition fsinfo (root_fileid : Z) : N S fsinfo3 :=
  r ← try (getattr root_fileid);
  mret (mkFsinfo (ok r) (1024 * 1024) (1024 * 124) (1024 * 1024) (1024 * 1024) (1024 * 1024) (1024 * 1024)
    (1024 * 1024) (128 * 1024 * 1024 * 1024) (mkTime 0 1000000)
    (Z.lor (Z.lor FSF_SYMLINK FSF_HOMOGENEOUS) FSF_CANSETTIME)).

Fixpoint split_slash (l : list byte) : list (list byte) :=
  match l with
  | [] => [[]]
  | b :: l =>
      if decide (b = x2f) then [] :: split_slash l
      else match split_slash l with
           | [] => [[b]]
           | w :: ws => (b :: w) :: ws
           end
  end.
Fixpoint walk (fid : Z) (components : list (list byte)) : N S Z :=
  match components with
  | [] => mret fid
  | c :: cs => if decide (c = []) then walk fid cs else fid' ← lookup fid c; walk fid' cs
  end.
Definition path_to_id (path : list byte) : N S Z := walk root_dir (split_slash path).
End adapter.

(** *** File handles *)

(** [to_le_bytes], [from_le_bytes] of a [u64] *)
Definition to_le_bytes (x : Z) : list byte := reverse (be_bytes 8 x).
Definition from_le_bytes (l : list byte) : Z := be_value (reverse l).

(** [gennum] is the time the server started, which [get_generation_number] keeps. *)
Definition id_to_fh (gennum id : Z) : nfs_fh3 := to_le_bytes gennum ++ to_le_bytes id.
Definition fh_to_id (gennum : Z) (fh : nfs_fh3) : nfsstat3 + Z :=
  if negb (Nat.eqb (length fh) 16) then inl NFS3ERR_BADHANDLE
  else
    let gen := from_le_bytes (take 8 fh) in
    let id := from_le_bytes (drop 8 fh) in
    match gen ?= gennum with
    | Lt => inl NFS3ERR_STALE
    | Gt => inl NFS3ERR_BADHANDLE
    | Eq => inr id
    end.
Definition serverid (gennum : Z) : list byte := to_le_bytes gennum.
End Nfs.
