(* ===== verification/NfsHandlers.v ===== *)
(** * The NFS server: procedures

    [cli/src/nfsserve/nfs_handlers.rs]: each procedure reads its arguments from the bytes of the call,
    checks permissions, calls the adapter and writes the bytes of the reply. *)

From S2P Require Import Prelude Types Tables Monad FsClass Xdr Rpc NfsTypes Nfs.

#[local] Open Scope list_scope.
#[local] Open Scope Z_scope.

(** ** The effect of a procedure *)

(** The bytes of the call that are left, the bytes written, the file system. *)
Record hstate (S : Type) := mkH { h_in : list byte; h_out : list byte; h_fs : S }.
Arguments mkH {S}.
Arguments h_in {S}.
Arguments h_out {S}.
Arguments h_fs {S}.
(** [HErr] is an [anyhow::Error], which ends the connection. *)
Inductive hres (A : Type) := HOk (a : A) | HErr | HPanic.
Arguments HOk {A}.
Arguments HErr {A}.
Arguments HPanic {A}.
Definition H (S A : Type) : Type := hstate S → hres A * hstate S.
#[global] Instance H_ret S : MRet (H S) := λ A a h, (HOk a, h).
#[global] Instance H_bind S : MBind (H S) := λ A B k m h,
  match m h with
  | (HOk a, h') => k a h'
  | (HErr, h') => (HErr, h')
  | (HPanic, h') => (HPanic, h')
  end.

Section effects.
Context {S : Type}.
(** [x.deserialize(input)?] *)
Definition recv {A} (c : codec A) : H S A := λ h,
  match deserialize c (h_in h) with
  | Some (a, rest) => (HOk a, mkH rest (h_out h) (h_fs h))
  | None => (HErr, h)
  end.
Definition write_all (b : list byte) : H S unit := λ h, (HOk tt, mkH (h_in h) (h_out h ++ b) (h_fs h)).
Definition unwrap {A} (o : option A) : H S A := λ h,
  match o with Some a => (HOk a, h) | None => (HPanic, h) end.
(** [x.serialize(output)?] *)
Definition send {A} (c : codec A) (a : A) : H S unit := b ← unwrap (serialize c a); write_all b.
Definition bytes_written : H S Z := λ h, (HOk (Vec.len (h_out h)), h).
(** A call on the adapter, its result a value. *)
Definition vfs {A} (m : N S A) : H S (nfsstat3 + A) := λ h,
  match m (h_fs h) with
  | (NOk a, s) => (HOk (inr a), mkH (h_in h) (h_out h) s)
  | (NErr e, s) => (HOk (inl e), mkH (h_in h) (h_out h) s)
  | (NPanic, s) => (HPanic, mkH (h_in h) (h_out h) s)
  end.
End effects.

(** [RPCContext], with the generation number of the handles. *)
Record RPCContext := mkContext { local_port : Z; auth : auth_unix; export_name : list byte; gennum : Z }.

(** ** Arguments and results *)

Record READ3args := mkReadArgs { ra_file : nfs_fh3; ra_offset : Z; ra_count : Z }.
Definition READ3args_xdr : codec READ3args :=
  xmap (λ '(file, offset, count), mkReadArgs file offset count) (λ a, (ra_file a, ra_offset a, ra_count a))
    (xpair (xpair nfs_fh3_xdr u64) u32).
#[global] Instance READ3args_lawful : Lawful READ3args_xdr.
Proof. xmap_law. Qed.
Record READ3resok := mkReadRes { rr_attributes : option fattr3; rr_count : Z; rr_eof : bool; rr_data : list byte }.
Definition READ3resok_xdr : codec READ3resok :=
  xmap (λ '(attr, count, eof, data), mkReadRes attr count eof data)
    (λ r, (rr_attributes r, rr_count r, rr_eof r, rr_data r))
    (xpair (xpair (xpair post_op_attr_xdr u32) xbool) opaque).
#[global] Instance READ3resok_lawful : Lawful READ3resok_xdr.
Proof. xmap_law. Qed.

Record PATHCONF3resok := mkPathconf {
  pc_obj_attributes : option fattr3;
  pc_linkmax : Z;
  pc_name_max : Z;
  pc_no_trunc : bool;
  pc_chown_restricted : bool;
  pc_case_insensitive : bool;
  pc_case_preserving : bool;
}.
Definition PATHCONF3resok_xdr : codec PATHCONF3resok :=
  xmap (λ '(attr, linkmax, name_max, no_trunc, chown, insensitive, preserving),
          mkPathconf attr linkmax name_max no_trunc chown insensitive preserving)
    (λ r, (pc_obj_attributes r, pc_linkmax r, pc_name_max r, pc_no_trunc r, pc_chown_restricted r,
           pc_case_insensitive r, pc_case_preserving r))
    (xpair (xpair (xpair (xpair (xpair (xpair post_op_attr_xdr u32) u32) xbool) xbool) xbool) xbool).
#[global] Instance PATHCONF3resok_lawful : Lawful PATHCONF3resok_xdr.
Proof. xmap_law. Qed.

Record FSSTAT3resok := mkFsstat {
  ft_obj_attributes : option fattr3;
  ft_tbytes : Z;
  ft_fbytes : Z;
  ft_abytes : Z;
  ft_tfiles : Z;
  ft_ffiles : Z;
  ft_afiles : Z;
  ft_invarsec : Z;
}.
Definition FSSTAT3resok_xdr : codec FSSTAT3resok :=
  xmap (λ '(attr, tbytes, fbytes, abytes, tfiles, ffiles, afiles, invarsec),
          mkFsstat attr tbytes fbytes abytes tfiles ffiles afiles invarsec)
    (λ r, (ft_obj_attributes r, ft_tbytes r, ft_fbytes r, ft_abytes r, ft_tfiles r, ft_ffiles r,
           ft_afiles r, ft_invarsec r))
    (xpair (xpair (xpair (xpair (xpair (xpair (xpair post_op_attr_xdr u64) u64) u64) u64) u64) u64) u32).
#[global] Instance FSSTAT3resok_lawful : Lawful FSSTAT3resok_xdr.
Proof. xmap_law. Qed.

Record READDIRPLUS3args := mkReaddirplusArgs {
  rp_dir : nfs_fh3;
  rp_cookie : Z;
  rp_cookieverf : list byte;
  rp_dircount : Z;
  rp_maxcount : Z;
}.
Definition READDIRPLUS3args_xdr : codec READDIRPLUS3args :=
  xmap (λ '(dir, cookie, verf, dircount, maxcount), mkReaddirplusArgs dir cookie verf dircount maxcount)
    (λ a, (rp_dir a, rp_cookie a, rp_cookieverf a, rp_dircount a, rp_maxcount a))
    (xpair (xpair (xpair (xpair nfs_fh3_xdr u64) (fixed 8)) u32) u32).
#[global] Instance READDIRPLUS3args_lawful : Lawful READDIRPLUS3args_xdr.
Proof. xmap_law. Qed.
Record READDIR3args := mkReaddirArgs {
  rda_dir : nfs_fh3;
  rda_cookie : Z;
  rda_cookieverf : list byte;
  rda_dircount : Z;
}.
Definition READDIR3args_xdr : codec READDIR3args :=
  xmap (λ '(dir, cookie, verf, dircount), mkReaddirArgs dir cookie verf dircount)
    (λ a, (rda_dir a, rda_cookie a, rda_cookieverf a, rda_dircount a))
    (xpair (xpair (xpair nfs_fh3_xdr u64) (fixed 8)) u32).
#[global] Instance READDIR3args_lawful : Lawful READDIR3args_xdr.
Proof. xmap_law. Qed.
Record entry3 := mkEntry3 { e3_fileid : Z; e3_name : list byte; e3_cookie : Z }.
Definition entry3_xdr : codec entry3 :=
  xmap (λ '(fileid, name, cookie), mkEntry3 fileid name cookie) (λ e, (e3_fileid e, e3_name e, e3_cookie e))
    (xpair (xpair u64 opaque) u64).
#[global] Instance entry3_lawful : Lawful entry3_xdr.
Proof. xmap_law. Qed.
Record entryplus3 := mkEntryPlus3 {
  ep_fileid : Z;
  ep_name : list byte;
  ep_cookie : Z;
  ep_name_attributes : option fattr3;
  ep_name_handle : option nfs_fh3;
}.
Definition entryplus3_xdr : codec entryplus3 :=
  xmap (λ '(fileid, name, cookie, attr, handle), mkEntryPlus3 fileid name cookie attr handle)
    (λ e, (ep_fileid e, ep_name e, ep_cookie e, ep_name_attributes e, ep_name_handle e))
    (xpair (xpair (xpair (xpair u64 opaque) u64) post_op_attr_xdr) post_op_fh3_xdr).
#[global] Instance entryplus3_lawful : Lawful entryplus3_xdr.
Proof. xmap_law. Qed.

Inductive stable_how := UNSTABLE | DATA_SYNC | FILE_SYNC.
Definition stable_how_xdr : codec stable_how :=
  xenum (λ s, match s with UNSTABLE => 0 | DATA_SYNC => 1 | FILE_SYNC => 2 end)
    (λ n, match n with 0 => Some UNSTABLE | 1 => Some DATA_SYNC | 2 => Some FILE_SYNC | _ => None end).
#[global] Instance stable_how_lawful : Lawful stable_how_xdr.
Proof. xenum_law. Qed.
Record WRITE3args := mkWriteArgs {
  wr_file : nfs_fh3;
  wr_offset : Z;
  wr_count : Z;
  wr_stable : Z;
  wr_data : list byte;
}.
Definition WRITE3args_xdr : codec WRITE3args :=
  xmap (λ '(file, offset, count, stable, data), mkWriteArgs file offset count stable data)
    (λ a, (wr_file a, wr_offset a, wr_count a, wr_stable a, wr_data a))
    (xpair (xpair (xpair (xpair nfs_fh3_xdr u64) u32) u32) opaque).
#[global] Instance WRITE3args_lawful : Lawful WRITE3args_xdr.
Proof. xmap_law. Qed.
Record WRITE3resok := mkWriteRes {
  ws_file_wcc : wcc_data;
  ws_count : Z;
  ws_committed : stable_how;
  ws_verf : list byte;
}.
Definition WRITE3resok_xdr : codec WRITE3resok :=
  xmap (λ '(wcc, count, committed, verf), mkWriteRes wcc count committed verf)
    (λ r, (ws_file_wcc r, ws_count r, ws_committed r, ws_verf r))
    (xpair (xpair (xpair wcc_data_xdr u32) stable_how_xdr) (fixed 8)).
#[global] Instance WRITE3resok_lawful : Lawful WRITE3resok_xdr.
Proof. xmap_law. Qed.

Inductive createmode3 := UNCHECKED | GUARDED | EXCLUSIVE.
Definition createmode3_xdr : codec createmode3 :=
  xenum (λ s, match s with UNCHECKED => 0 | GUARDED => 1 | EXCLUSIVE => 2 end)
    (λ n, match n with 0 => Some UNCHECKED | 1 => Some GUARDED | 2 => Some EXCLUSIVE | _ => None end).
#[global] Instance createmode3_lawful : Lawful createmode3_xdr.
Proof. xenum_law. Qed.

(** The guard, [sattrguard3], is an option. *)
Record SETATTR3args := mkSetattrArgs {
  st_object : nfs_fh3;
  st_new_attribute : sattr3;
  st_guard : option nfstime3;
}.
Definition SETATTR3args_xdr : codec SETATTR3args :=
  xmap (λ '(object, attr, guard), mkSetattrArgs object attr guard)
    (λ a, (st_object a, st_new_attribute a, st_guard a))
    (xpair (xpair nfs_fh3_xdr sattr3_xdr) (xopt nfstime3_xdr)).
#[global] Instance SETATTR3args_lawful : Lawful SETATTR3args_xdr.
Proof. xmap_law. Qed.
(** [MKDIR3args], [SYMLINK3args], [LINK3args] *)
Definition MKDIR3args_xdr : codec (diropargs3 * sattr3) := xpair diropargs3_xdr sattr3_xdr.
Definition SYMLINK3args_xdr : codec (diropargs3 * symlinkdata3) := xpair diropargs3_xdr symlinkdata3_xdr.
Definition LINK3args_xdr : codec (nfs_fh3 * diropargs3) := xpair nfs_fh3_xdr diropargs3_xdr.

(** ** Procedures *)

Module Handlers.
Section procedures.
Context {S : Type} {FS : FileSystem S} {D : LibcDev} (context : RPCContext) (xid : Z).

(** [make_success_reply(xid).serialize(output)?; stat.serialize(output)?] *)
Definition status (stat : nfsstat3) : H S unit :=
  send rpc_msg_xdr (make_success_reply xid);; send nfsstat3_xdr stat.
Definition send_attr (a : option fattr3) : H S unit := send post_op_attr_xdr a.
Definition send_wcc (w : wcc_data) : H S unit := send wcc_data_xdr w.
(** [let id = context.vfs.fh_to_id(&handle); if let Err(stat) = id { ..; return Ok(()) }] *)
Definition with_fh (fh : nfs_fh3) (bad : nfsstat3 → H S unit) (k : Z → H S unit) : H S unit :=
  match Nfs.fh_to_id (gennum context) fh with inl stat => bad stat | inr id => k id end.
(** [match context.vfs.getattr(id).await { Ok(v) => v, Err(stat) => { ..; return Ok(()) } }] *)
Definition with_attr (id : Z) (bad : nfsstat3 → H S unit) (k : fattr3 → H S unit) : H S unit :=
  r ← vfs (Nfs.getattr id);
  match r with inl stat => bad stat | inr attr => k attr end.
Definition post_attr (id : Z) : H S (option fattr3) := r ← vfs (Nfs.getattr id); mret (Nfs.ok r).
Definition pre_op (attr : fattr3) : option wcc_attr :=
  Some (mkWccAttr (at_size attr) (at_mtime attr) (at_ctime attr)).
Definition fail_attr (stat : nfsstat3) : H S unit := status stat;; send_attr None.
Definition fail_wcc (stat : nfsstat3) : H S unit := status stat;; send_wcc wcc_data_default.
(** [if !matches!(context.vfs.capabilities(), VFSCapabilities::ReadWrite) { ..; return Ok(()) }] *)
Definition read_write (refuse k : H S unit) : H S unit :=
  match Nfs.capabilities with ReadWrite => k | ReadOnly => refuse end.

Definition nfsproc3_null : H S unit := send rpc_msg_xdr (make_success_reply xid).
Definition nfsproc3_getattr : H S unit :=
  handle ← recv nfs_fh3_xdr;
  with_fh handle status (λ id,
  with_attr id status (λ fh,
    status NFS3_OK;; send fattr3_xdr fh)).
Definition nfsproc3_lookup : H S unit :=
  dirops ← recv diropargs3_xdr;
  with_fh (do_dir dirops) fail_attr (λ dirid,
  with_attr dirid fail_attr (λ dir_attr,
  if negb (can_execute (auth context) dir_attr) then status NFS3ERR_ACCES;; send_attr (Some dir_attr)
  else
    r ← vfs (Nfs.lookup dirid (do_name dirops));
    match r with
    | inr fid =>
        obj_attr ← post_attr fid;
        status NFS3_OK;;
        send nfs_fh3_xdr (Nfs.id_to_fh (gennum context) fid);;
        send_attr obj_attr;;
        send_attr (Some dir_attr)
    | inl stat => status stat;; send_attr (Some dir_attr)
    end)).
Definition nfsproc3_read : H S unit :=
  args ← recv READ3args_xdr;
  with_fh (ra_file args) fail_attr (λ id,
  with_attr id fail_attr (λ attr,
  if negb (can_read (auth context) attr) then status NFS3ERR_ACCES;; send_attr (Some attr)
  else
    r ← vfs (Nfs.read id (ra_offset args) (ra_count args));
    match r with
    | inr (bytes, eof) =>
        status NFS3_OK;;
        send READ3resok_xdr (mkReadRes (Some attr) (Int.u32 (Vec.len bytes)) eof bytes)
    | inl stat => status stat;; send_attr (Some attr)
    end)).
Definition nfsproc3_fsinfo : H S unit :=
  handle ← recv nfs_fh3_xdr;
  with_fh handle fail_attr (λ id,
    r ← vfs (Nfs.fsinfo id);
    match r with
    | inr fsinfo => status NFS3_OK;; send fsinfo3_xdr fsinfo
    | inl stat => status stat
    end).
Definition nfsproc3_access : H S unit :=
  handle ← recv nfs_fh3_xdr;
  requested_access ← recv u32;
  with_fh handle fail_attr (λ id,
  with_attr id fail_attr (λ attr,
    let granted_access := compute_access (auth context) attr requested_access in
    let granted_access :=
      match Nfs.capabilities with
      | ReadWrite => granted_access
      | ReadOnly => Z.land granted_access (Z.lor (Z.lor ACCESS3_READ ACCESS3_LOOKUP) ACCESS3_EXECUTE)
      end in
    status NFS3_OK;; send_attr (Some attr);; send u32 granted_access)).
Definition nfsproc3_pathconf : H S unit :=
  handle ← recv nfs_fh3_xdr;
  with_fh handle fail_attr (λ id,
    obj_attr ← post_attr id;
    status NFS3_OK;; send PATHCONF3resok_xdr (mkPathconf obj_attr 0 32768 true true false true)).
Definition nfsproc3_fsstat : H S unit :=
  handle ← recv nfs_fh3_xdr;
  with_fh handle fail_attr (λ id,
    obj_attr ← post_attr id;
    status NFS3_OK;;
    send FSSTAT3resok_xdr (mkFsstat obj_attr (1024 * 1024 * 1024 * 1024) (1024 * 1024 * 1024 * 1024)
      (1024 * 1024 * 1024 * 1024) (1024 * 1024 * 1024) (1024 * 1024 * 1024) (1024 * 1024 * 1024) (2 ^ 32 - 1))).
Definition nfsproc3_readlink : H S unit :=
  handle ← recv nfs_fh3_xdr;
  with_fh handle status (λ id,
  with_attr id fail_attr (λ symlink_attr,
    r ← vfs (Nfs.readlink id);
    match r with
    | inr path => status NFS3_OK;; send_attr (Some symlink_attr);; send opaque path
    | inl stat => status stat;; send_attr (Some symlink_attr)
    end)).

(** *** Directories *)

Definition dirversion (dir_attr : fattr3) : list byte :=
  be_bytes 8 (Z.lor (Z.shiftl (seconds (at_mtime dir_attr)) 32) (nseconds (at_mtime dir_attr))).
(** [size_of::<fileid3>() + size_of::<u32>() + entry.name.len() + size_of::<cookie3>()] *)
Definition added_dircount (name : list byte) : Z := 8 + 4 + Vec.len name + 8.
(** The entries that fit, each behind a [true]; [true] when all of them did. *)
Fixpoint send_entryplus (start max_bytes max_dircount dircount : Z) (es : list NfsEntry) : H S bool :=
  match es with
  | [] => mret true
  | e :: es =>
      buf ← unwrap (ser_app (serialize xbool true) (serialize entryplus3_xdr
        (mkEntryPlus3 (ne_fileid e) (ne_name e) (ne_fileid e) (Some (ne_attr e))
           (Some (Nfs.id_to_fh (gennum context) (ne_fileid e))))));
      w ← bytes_written;
      if (Vec.len buf + (w - start) <? max_bytes) && (added_dircount (ne_name e) + dircount <? max_dircount)
      then
        write_all buf;;
        send_entryplus start max_bytes max_dircount (dircount + added_dircount (ne_name e)) es
      else mret false
  end.
Definition nfsproc3_readdirplus : H S unit :=
  args ← recv READDIRPLUS3args_xdr;
  with_fh (rp_dir args) fail_attr (λ dirid,
  with_attr dirid fail_attr (λ dir_attr,
  if negb (can_read (auth context) dir_attr) then status NFS3ERR_ACCES;; send_attr (Some dir_attr)
  else
    let max_bytes_allowed := Int.u64 (rp_maxcount args - 128) in
    let estimated_max_results := rp_dircount args `div` 16 in
    r ← vfs (Nfs.readdir dirid (rp_cookie args) estimated_max_results);
    match r with
    | inr result =>
        start ← bytes_written;
        status NFS3_OK;;
        send_attr (Some dir_attr);;
        send (fixed 8) (dirversion dir_attr);;
        all_entries_written ← send_entryplus start max_bytes_allowed (rp_dircount args) 0 (rd_entries result);
        send xbool false;;
        send xbool (if all_entries_written : bool then rd_end result else false)
    | inl stat => status stat;; send_attr (Some dir_attr)
    end)).
Fixpoint send_entry (start max_bytes : Z) (es : list (Z * list byte)) : H S bool :=
  match es with
  | [] => mret true
  | (fileid, name) :: es =>
      buf ← unwrap (ser_app (serialize xbool true) (serialize entry3_xdr (mkEntry3 fileid name fileid)));
      w ← bytes_written;
      if Vec.len buf + (w - start) <? max_bytes then write_all buf;; send_entry start max_bytes es
      else mret false
  end.
Definition nfsproc3_readdir : H S unit :=
  args ← recv READDIR3args_xdr;
  with_fh (rda_dir args) fail_attr (λ dirid,
  with_attr dirid fail_attr (λ dir_attr,
  if negb (can_read (auth context) dir_attr) then status NFS3ERR_ACCES;; send_attr (Some dir_attr)
  else
    let max_bytes_allowed := Int.u64 (rda_dircount args - 128) in
    let estimated_max_results := rda_dircount args `div` 16 in
    r ← vfs (Nfs.readdir_simple dirid estimated_max_results);
    match r with
    | inr result =>
        start ← bytes_written;
        status NFS3_OK;;
        send_attr (Some dir_attr);;
        send (fixed 8) (dirversion dir_attr);;
        all_entries_written ← send_entry start max_bytes_allowed (rs_entries result);
        send xbool false;;
        send xbool (if all_entries_written : bool then rs_end result else false)
    | inl stat => status stat;; send_attr (Some dir_attr)
    end)).

(** *** Writes *)

Definition nfsproc3_write : H S unit :=
  read_write (fail_wcc NFS3ERR_ROFS) (
  args ← recv WRITE3args_xdr;
  if negb (Vec.len (wr_data args) =? wr_count args) then send rpc_msg_xdr (garbage_args_reply_message xid)
  else
  with_fh (wr_file args) fail_wcc (λ id,
  with_attr id fail_wcc (λ attr,
  if negb (can_write (auth context) attr)
  then status NFS3ERR_ACCES;; send_wcc (mkWcc (pre_op attr) (Some attr))
  else
    r ← vfs (Nfs.write id (wr_offset args) (wr_data args));
    match r with
    | inr fattr =>
        fattr ←
          (if negb (au_uid (auth context) =? 0) && has_bit (at_mode fattr) 0xc00
           then
             u ← vfs (Nfs.setattr id (with_mode (Some (Z.land (at_mode fattr) (Z.lnot 0xc00))) sattr3_default));
             mret (match u with inr updated => updated | inl _ => fattr end)
           else mret fattr);
        status NFS3_OK;;
        send WRITE3resok_xdr (mkWriteRes (mkWcc (pre_op attr) (Some fattr)) (wr_count args) FILE_SYNC
          (Nfs.serverid (gennum context)))
    | inl stat => fail_wcc stat
    end))).

(** Creating operations end alike: the handle and the attributes of the new object and what became of
    the directory, or the error. *)
Definition create_result (dirid : Z) (dir_attr : fattr3) (r : nfsstat3 + (Z * option fattr3)) : H S unit :=
  post_dir_attr ← post_attr dirid;
  let wcc_res := mkWcc (pre_op dir_attr) post_dir_attr in
  match r with
  | inr (fid, attr) =>
      status NFS3_OK;;
      send post_op_fh3_xdr (Some (Nfs.id_to_fh (gennum context) fid));;
      send_attr attr;;
      send_wcc wcc_res
  | inl e => status e;; send_wcc wcc_res
  end.
(** [{ let post_dir_attr = ..; status; wcc_data { before: pre_dir_attr, after: post_dir_attr } }] *)
Definition refuse_wcc (stat : nfsstat3) (dirid : Z) (dir_attr : fattr3) : H S unit :=
  post_dir_attr ← post_attr dirid;
  status stat;; send_wcc (mkWcc (pre_op dir_attr) post_dir_attr).
Definition with_some {A} (r : nfsstat3 + (Z * A)) : nfsstat3 + (Z * option A) :=
  match r with inr (fid, a) => inr (fid, Some a) | inl e => inl e end.

Definition nfsproc3_create : H S unit :=
  read_write (fail_wcc NFS3ERR_ROFS) (
  dirops ← recv diropargs3_xdr;
  createhow ← recv createmode3_xdr;
  with_fh (do_dir dirops) fail_wcc (λ dirid,
  with_attr dirid fail_wcc (λ dir_attr,
  if negb (can_modify_directory (auth context) dir_attr) then refuse_wcc NFS3ERR_ACCES dirid dir_attr
  else
    match createhow with
    | EXCLUSIVE =>
        r ← vfs (Nfs.create_exclusive dirid (do_name dirops) (auth context));
        create_result dirid dir_attr (match r with inr fid => inr (fid, None) | inl e => inl e end)
    | UNCHECKED =>
        target_attributes ← recv sattr3_xdr;
        r ← vfs (Nfs.create dirid (do_name dirops) target_attributes (auth context));
        create_result dirid dir_attr (with_some r)
    | GUARDED =>
        target_attributes ← recv sattr3_xdr;
        found ← vfs (Nfs.lookup dirid (do_name dirops));
        match found with
        | inr _ => refuse_wcc NFS3ERR_EXIST dirid dir_attr
        | inl _ =>
            r ← vfs (Nfs.create dirid (do_name dirops) target_attributes (auth context));
            create_result dirid dir_attr (with_some r)
        end
    end))).
Definition nfsproc3_mkdir : H S unit :=
  read_write (fail_wcc NFS3ERR_ROFS) (
  args ← recv MKDIR3args_xdr;
  with_fh (do_dir args.1) fail_wcc (λ dirid,
  with_attr dirid fail_wcc (λ dir_attr,
  if negb (can_modify_directory (auth context) dir_attr) then refuse_wcc NFS3ERR_ACCES dirid dir_attr
  else
    r ← vfs (Nfs.mkdir dirid (do_name args.1) args.2 (auth context));
    create_result dirid dir_attr (with_some r)))).
Definition nfsproc3_symlink : H S unit :=
  read_write (fail_wcc NFS3ERR_ROFS) (
  args ← recv SYMLINK3args_xdr;
  with_fh (do_dir args.1) fail_wcc (λ dirid,
  with_attr dirid fail_wcc (λ dir_attr,
  if negb (can_modify_directory (auth context) dir_attr) then refuse_wcc NFS3ERR_ACCES dirid dir_attr
  else
    r ← vfs (Nfs.symlink dirid (do_name args.1) (sl_data args.2) (auth context));
    create_result dirid dir_attr (with_some r)))).
Definition nfsproc3_mknod : H S unit :=
  read_write (fail_wcc NFS3ERR_ROFS) (
  dirops ← recv diropargs3_xdr;
  t ← recv u32;
  let ftype := default NF3REG (ftype3_of t) in
  let make (attr : sattr3) (rdev : specdata3) :=
    with_fh (do_dir dirops) fail_wcc (λ dirid,
    with_attr dirid fail_wcc (λ dir_attr,
    if negb (can_modify_directory (auth context) dir_attr) then refuse_wcc NFS3ERR_ACCES dirid dir_attr
    else
      r ← vfs (Nfs.mknod dirid (do_name dirops) ftype attr rdev (auth context));
      create_result dirid dir_attr (with_some r))) in
  match ftype with
  | NF3CHR | NF3BLK => attr ← recv sattr3_xdr; rdev ← recv specdata3_xdr; make attr rdev
  | NF3SOCK | NF3FIFO => attr ← recv sattr3_xdr; make attr specdata3_default
  | _ => fail_wcc NFS3ERR_BADTYPE
  end).

(** *** Attributes *)

(** [S_ISGID] is dropped when a user outside the group sets it, both bits when a user changes the
    owner or the group and not the mode. *)
Definition settled_mode (attr : fattr3) (s : sattr3) : option Z :=
  if au_uid (auth context) =? 0 then sa_mode s
  else
    match sa_mode s with
    | Some mode =>
        if has_bit mode 0x400 && negb (is_in_group (auth context) (default (at_gid attr) (sa_gid s)))
        then Some (Z.land mode (Z.lnot 0x400))
        else Some mode
    | None =>
        match sa_uid s, sa_gid s with
        | None, None => None
        | _, _ => if has_bit (at_mode attr) 0xc00 then Some (Z.land (at_mode attr) (Z.lnot 0xc00)) else None
        end
    end.
Definition is_client_time (t : set_time) : bool :=
  match t with SET_TO_CLIENT_TIME _ => true | _ => false end.
(** The checks on what is changed, in order: the status that refuses the request. *)
Definition setattr_refused (attr : fattr3) (s : sattr3) : option nfsstat3 :=
  let a := auth context in
  if bool_decide (is_Some (sa_size s)) && negb (can_write a attr) then Some NFS3ERR_ACCES
  else if bool_decide (is_Some (sa_mode s)) && negb (is_owner a attr) then Some NFS3ERR_PERM
  else if from_option (λ target_uid, negb (au_uid a =? 0) && negb (target_uid =? at_uid attr)) false (sa_uid s)
  then Some NFS3ERR_PERM
  else if from_option (λ target_gid,
            negb (au_uid a =? 0) && (negb (is_owner a attr) || negb (is_in_group a target_gid))) false (sa_gid s)
  then Some NFS3ERR_PERM
  else if (is_client_time (sa_atime s) || is_client_time (sa_mtime s)) && negb (is_owner a attr)
  then Some NFS3ERR_PERM
  else None.
Definition nfsproc3_setattr : H S unit :=
  read_write (fail_wcc NFS3ERR_ROFS) (
  args ← recv SETATTR3args_xdr;
  with_fh (st_object args) status (λ id,
  with_attr id fail_wcc (λ attr,
  match setattr_refused attr (st_new_attribute args) with
  | Some stat => status stat;; send_wcc (mkWcc (pre_op attr) (Some attr))
  | None =>
      let s := with_mode (settled_mode attr (st_new_attribute args)) (st_new_attribute args) in
      (match st_guard args with
       | None => mret tt
       | Some c =>
           if negb (seconds c =? seconds (at_ctime attr)) || negb (nseconds c =? nseconds (at_ctime attr))
           then fail_wcc NFS3ERR_NOT_SYNC else mret tt
       end);;
      r ← vfs (Nfs.setattr id s);
      match r with
      | inr post => status NFS3_OK;; send_wcc (mkWcc (pre_op attr) (Some post))
      | inl stat => fail_wcc stat
      end
  end))).

(** *** Removing and renaming *)

(** Removal of an entry: with the sticky bit its owner matters, if it can be found.  [own] is the further
    check of [rename] on the entry. *)
Definition entry_allowed (dirid : Z) (name : list byte) (dir_attr : fattr3) (own : fattr3 → bool) : H S bool :=
  if has_bit (at_mode dir_attr) S_ISVTX then
    l ← vfs (Nfs.lookup dirid name);
    match l with
    | inr entry_id =>
        e ← vfs (Nfs.getattr entry_id);
        match e with
        | inr entry_attr => mret (can_delete_entry (auth context) dir_attr entry_attr && own entry_attr)
        | inl _ => mret (can_modify_directory (auth context) dir_attr)
        end
    | inl _ => mret (can_modify_directory (auth context) dir_attr)
    end
  else mret (can_modify_directory (auth context) dir_attr).
Definition nfsproc3_remove : H S unit :=
  read_write (fail_wcc NFS3ERR_ROFS) (
  dirops ← recv diropargs3_xdr;
  with_fh (do_dir dirops) fail_wcc (λ dirid,
  with_attr dirid fail_wcc (λ dir_attr,
    remove_allowed ← entry_allowed dirid (do_name dirops) dir_attr (λ _, true);
    if negb remove_allowed then refuse_wcc NFS3ERR_ACCES dirid dir_attr
    else
      res ← vfs (Nfs.remove dirid (do_name dirops));
      post_dir_attr ← post_attr dirid;
      status (match res with inr _ => NFS3_OK | inl e => e end);;
      send_wcc (mkWcc (pre_op dir_attr) post_dir_attr)))).
Definition rename_result (stat : nfsstat3) (from_dirid to_dirid : Z) (from_attr to_attr : fattr3) : H S unit :=
  post_from ← post_attr from_dirid;
  post_to ← post_attr to_dirid;
  status stat;;
  send_wcc (mkWcc (pre_op from_attr) post_from);;
  send_wcc (mkWcc (pre_op to_attr) post_to).
(** A directory that moves to another parent out of a sticky directory: its owner or root. *)
Definition may_reparent (from_dirid to_dirid : Z) (entry_attr : fattr3) : bool :=
  negb (bool_decide (at_ftype entry_attr = NF3DIR) && negb (from_dirid =? to_dirid) &&
        negb (au_uid (auth context) =? 0) && negb (au_uid (auth context) =? at_uid entry_attr)).
Definition nfsproc3_rename : H S unit :=
  read_write (fail_wcc NFS3ERR_ROFS) (
  fromdirops ← recv diropargs3_xdr;
  todirops ← recv diropargs3_xdr;
  with_fh (do_dir fromdirops) fail_wcc (λ from_dirid,
  with_fh (do_dir todirops) fail_wcc (λ to_dirid,
  with_attr from_dirid fail_wcc (λ from_dir_attr,
  with_attr to_dirid fail_wcc (λ to_dir_attr,
    from_allowed ← entry_allowed from_dirid (do_name fromdirops) from_dir_attr (may_reparent from_dirid to_dirid);
    if negb from_allowed then rename_result NFS3ERR_ACCES from_dirid to_dirid from_dir_attr to_dir_attr
    else
      to_allowed ← entry_allowed to_dirid (do_name todirops) to_dir_attr (λ _, true);
      if negb to_allowed then rename_result NFS3ERR_ACCES from_dirid to_dirid from_dir_attr to_dir_attr
      else
        res ← vfs (Nfs.rename from_dirid (do_name fromdirops) to_dirid (do_name todirops));
        rename_result (match res with inr _ => NFS3_OK | inl e => e end)
          from_dirid to_dirid from_dir_attr to_dir_attr))))).
Definition nfsproc3_link : H S unit :=
  let bad (attr : option fattr3) (stat : nfsstat3) : H S unit :=
    status stat;; send_attr attr;; send_wcc wcc_data_default in
  read_write (bad None NFS3ERR_ROFS) (
  args ← recv LINK3args_xdr;
  with_fh args.1 (bad None) (λ fileid,
  with_attr fileid (bad None) (λ file_attr,
  if bool_decide (at_ftype file_attr = NF3DIR) then bad (Some file_attr) NFS3ERR_ISDIR
  else
  with_fh (do_dir args.2) (bad (Some file_attr)) (λ dirid,
  with_attr dirid (bad (Some file_attr)) (λ dir_attr,
  if negb (can_modify_directory (auth context) dir_attr) then
    post_dir_attr ← post_attr dirid;
    status NFS3ERR_ACCES;; send_attr (Some file_attr);; send_wcc (mkWcc (pre_op dir_attr) post_dir_attr)
  else
    res ← vfs (Nfs.link fileid dirid (do_name args.2));
    post_dir_attr ← post_attr dirid;
    let wcc_res := mkWcc (pre_op dir_attr) post_dir_attr in
    match res with
    | inr new_attr => status NFS3_OK;; send_attr (Some new_attr);; send_wcc wcc_res
    | inl e =>
        post_file_attr ← post_attr fileid;
        status e;; send_attr post_file_attr;; send_wcc wcc_res
    end))))).

(** *** Dispatch *)

Definition NFS_VERSION : Z := 3.
Definition handle_nfs (call : call_body) : H S unit :=
  if negb (cb_vers call =? NFS_VERSION) then send rpc_msg_xdr (prog_mismatch_reply_message xid NFS_VERSION)
  else
    match cb_proc call with
    | 0 => nfsproc3_null
    | 1 => nfsproc3_getattr
    | 2 => nfsproc3_setattr
    | 3 => nfsproc3_lookup
    | 4 => nfsproc3_access
    | 5 => nfsproc3_readlink
    | 6 => nfsproc3_read
    | 7 => nfsproc3_write
    | 8 => nfsproc3_create
    | 9 => nfsproc3_mkdir
    | 10 => nfsproc3_symlink
    | 11 => nfsproc3_mknod
    | 12 => nfsproc3_remove
    | 13 => nfsproc3_remove
    | 14 => nfsproc3_rename
    | 15 => nfsproc3_link
    | 16 => nfsproc3_readdir
    | 17 => nfsproc3_readdirplus
    | 18 => nfsproc3_fsstat
    | 19 => nfsproc3_fsinfo
    | 20 => nfsproc3_pathconf
    | _ => send rpc_msg_xdr (proc_unavail_reply_message xid)
    end.
End procedures.
End Handlers.
