(* ===== verification/NfsServer.v ===== *)
(** * The NFS server: calls

    A record of the stream, one call, its reply: [cli/src/nfsserve/rpcwire.rs], with the mount and
    port-mapper programs ([mount_handlers.rs], [portmap_handlers.rs]).  Calls are handled one after the
    other. *)

From S2P Require Import Prelude Utf8 Types Tables Monad FsClass Xdr Text Rpc NfsTypes Nfs NfsHandlers.

#[local] Open Scope string_scope.
#[local] Open Scope list_scope.
#[local] Open Scope Z_scope.

(** ** Text *)

Definition slash : list (list byte) := [[x2f]].
(** [path.trim_start_matches('/').trim_end_matches('/').trim()] *)
Definition trim_path (l : list byte) : list byte :=
  trim_end whitespace (trim_start whitespace (trim_end slash (trim_start slash l))).
(** [std::str::from_utf8(&path).unwrap_or_default()], as bytes *)
Definition utf8_or_default (l : list byte) : list byte :=
  match from_utf8 l with Some _ => l | None => [] end.

(** ** The mount program and the port mapper *)

Module Server.
Section programs.
Context {S : Type} {FS : FileSystem S} {D : LibcDev} (context : RPCContext) (xid : Z).

Definition mountproc3_null : H S unit := send rpc_msg_xdr (make_success_reply xid).
Definition mount_status (stat : mountstat3) : H S unit :=
  send rpc_msg_xdr (make_success_reply xid);; send mountstat3_xdr stat.
(** [mountres3_ok] *)
Definition mountres3_ok_xdr : codec (list byte * list Z) := xpair opaque vec_u32.
Definition mountproc3_mnt : H S unit :=
  path ← recv opaque;
  match strip (export_name context) (utf8_or_default path) with
  | None => mount_status MNT3ERR_NOENT
  | Some path =>
      r ← vfs (Nfs.path_to_id (x2f :: trim_path path));
      match r with
      | inr fileid =>
          mount_status MNT3_OK;;
          send mountres3_ok_xdr (Nfs.id_to_fh (gennum context) fileid,
            [auth_flavor_val AUTH_NULL; auth_flavor_val AUTH_UNIX])
      | inl _ => mount_status MNT3ERR_NOENT
      end
  end.
Definition mountproc3_export : H S unit :=
  send rpc_msg_xdr (make_success_reply xid);;
  send xbool true;;
  send opaque (export_name context);;
  send xbool false;;
  send xbool false.
Definition mountproc3_umnt : H S unit := recv opaque ≫= λ _, mount_status MNT3_OK.
Definition mountproc3_umnt_all : H S unit := mount_status MNT3_OK.
Definition handle_mount (call : call_body) : H S unit :=
  match cb_proc call with
  | 0 => mountproc3_null
  | 1 => mountproc3_mnt
  | 3 => mountproc3_umnt
  | 4 => mountproc3_umnt_all
  | 5 => mountproc3_export
  | _ => send rpc_msg_xdr (proc_unavail_reply_message xid)
  end.

(** [mapping] *)
Definition mapping_xdr : codec (Z * Z * Z * Z) := xpair (xpair (xpair u32 u32) u32) u32.
Definition pmapproc_null : H S unit := send rpc_msg_xdr (make_success_reply xid).
Definition pmapproc_getport : H S unit :=
  recv mapping_xdr ≫= λ _,
  send rpc_msg_xdr (make_success_reply xid);; send u32 (local_port context).
Definition PORTMAP_VERSION : Z := 2.
Definition handle_portmap (call : call_body) : H S unit :=
  if negb (cb_vers call =? PORTMAP_VERSION)
  then send rpc_msg_xdr (prog_mismatch_reply_message xid PORTMAP_VERSION)
  else
    match cb_proc call with
    | 0 => pmapproc_null
    | 3 => pmapproc_getport
    | _ => send rpc_msg_xdr (proc_unavail_reply_message xid)
    end.

Definition NFS_PROGRAM : Z := 100003.
Definition PORTMAP_PROGRAM : Z := 100000.
Definition MOUNT_PROGRAM : Z := 100005.
(** The other programs get [PROG_UNAVAIL], those of the ACL, id-map and metadata services among them. *)
Definition dispatch (call : call_body) : H S unit :=
  if cb_prog call =? NFS_PROGRAM then Handlers.handle_nfs context xid call
  else if cb_prog call =? PORTMAP_PROGRAM then handle_portmap call
  else if cb_prog call =? MOUNT_PROGRAM then handle_mount call
  else send rpc_msg_xdr (prog_unavail_reply_message xid).
End programs.

(** ** A call *)

(** The clock at the check and at the end, the retention period and the client. *)
Record tracking := mkTracking { tk_retention : Z; tk_now : Z; tk_done : Z; tk_client : string }.
Definition with_auth (a : auth_unix) (c : RPCContext) : RPCContext :=
  mkContext (local_port c) a (export_name c) (gennum c).

Section call.
Context {S : Type} {FS : FileSystem S} {D : LibcDev}.

(** [Ok(true)] with the reply in [h_out], [Ok(false)] when there is none. *)
Definition handle_rpc (tk : tracking) (context : RPCContext) (t : transactions) (input : list byte) (s : S) :
    hres bool * list byte * transactions * S :=
  match deserialize rpc_msg_xdr input with
  | None => (HErr, [], t, s)
  | Some (recv, rest) =>
      let xid := rm_xid recv in
      match rm_body recv with
      | REPLY _ => (HErr, [], t, s)
      | CALL call =>
          match (match oa_flavor (cb_cred call) with
                 | AUTH_UNIX => fst <$> deserialize auth_unix_xdr (oa_body (cb_cred call))
                 | _ => Some (auth context)
                 end) with
          | None => (HErr, [], t, s)
          | Some a =>
              let context := with_auth a context in
              if negb (cb_rpcvers call =? 2) then
                match serialize rpc_msg_xdr (rpc_vers_mismatch xid) with
                | Some b => (HOk true, b, t, s)
                | None => (HPanic, [], t, s)
                end
              else
                let '(again, t) := is_retransmission (tk_retention tk) (tk_now tk) xid (tk_client tk) t in
                if again : bool then (HOk false, [], t, s)
                else
                  match dispatch context xid call (mkH rest [] s) with
                  | (HOk _, h) => (HOk true, h_out h, mark_processed (tk_done tk) xid (tk_client tk) t, h_fs h)
                  | (HErr, h) => (HErr, h_out h, mark_processed (tk_done tk) xid (tk_client tk) t, h_fs h)
                  | (HPanic, h) => (HPanic, h_out h, t, h_fs h)
                  end
          end
      end
  end.
End call.

(** ** Records of the stream *)

(** [None] when the stream ends. *)
Definition read_fragment (socket append_to : list byte) : option (bool * list byte * list byte) :=
  '(header_buf, socket) ← read_exact 4 socket;
  let fragment_header := be_value header_buf in
  let is_last := negb (Z.land fragment_header (Z.shiftl 1 31) =? 0) in
  let length := Z.land fragment_header (Z.shiftl 1 31 - 1) in
  '(data, socket) ← read_exact (Z.to_nat length) socket;
  Some (is_last, append_to ++ data, socket).
(** [assert!(buf.len() < (1 << 31))] *)
Definition write_fragment (buf : list byte) : option (list byte) :=
  if Vec.len buf <? Z.shiftl 1 31
  then Some (be_bytes 4 (Vec.len buf + Z.shiftl 1 31) ++ buf)
  else None.
(** [SocketMessageHandler::read] until a record is complete; each turn takes at least the header. *)
Fixpoint read_record (fuel : nat) (socket cur_fragment : list byte) : option (list byte * list byte) :=
  match fuel with
  | 0%nat => None
  | Datatypes.S fuel =>
      '(is_last, cur_fragment, socket) ← read_fragment socket cur_fragment;
      if is_last : bool then Some (cur_fragment, socket) else read_record fuel socket cur_fragment
  end.
End Server.
