(* ===== verification/WireThms.v ===== *)
(** * The NFS server: the wire

    Messages, handles, records of the stream, retransmissions and the access check. *)

From S2P Require Import Prelude Types Tables Monad Wp Instances Sql File SecafsInode Samples FsClass Xdr Text.
From S2P Require Import Rpc NfsTypes Nfs NfsHandlers NfsServer.

(** * A sample NFS server

    The sample file system behind the server, for witnesses and for the defects at the end of [NfsThms]. *)

#[local] Open Scope list_scope.
#[local] Open Scope Z_scope.

Definition demo_served : FileSystem (@state calm_env) := secafs_fs (mkSecAFS 4096).
(** The device numbers of Linux. *)
Definition linux_dev : LibcDev := {|
  major d := Z.lor (Z.land (Z.shiftr d 8) 0xfff) (Z.land (Z.shiftr d 32) 0xfffff000);
  minor d := Z.lor (Z.land d 0xff) (Z.land (Z.shiftr d 12) 0xffffff00);
  makedev a b := Z.lor (Z.lor (Z.shiftl (Z.land a 0xfff) 8) (Z.shiftl (Z.land a 0xfffff000) 32))
                   (Z.lor (Z.land b 0xff) (Z.shiftl (Z.land b 0xffffff00) 12)) |}.
Definition user (uid : Z) : auth_unix := mkAuthUnix 0 [] uid uid [].
Definition demo_context (uid : Z) : RPCContext := mkContext 2049 (user uid) [x2f] 77.
Definition demo_fh (id : Z) : nfs_fh3 := Nfs.id_to_fh 77 id.
(** The bytes of a value. *)
Definition bytes {A} (c : codec A) (a : A) : list byte := default [] (serialize c a).
Definition demo_call (proc : Z) (cred : opaque_auth) : call_body :=
  mkCall 2 Server.NFS_PROGRAM 3 proc cred opaque_auth_default.
(** A WRITE call of two bytes to the file [/f], and its arguments. *)
Definition demo_write : list byte := bytes WRITE3args_xdr (mkWriteArgs (demo_fh 2) 0 2 0 [x31; x32]).
Definition call_bytes (proc : Z) (cred : opaque_auth) (args : list byte) : list byte :=
  bytes rpc_msg_xdr (mkMsg 9 (CALL (demo_call proc cred))) ++ args.
(** [AUTH_UNIX] credentials. *)
Definition unix_cred (uid : Z) : opaque_auth := mkOpaqueAuth AUTH_UNIX (bytes auth_unix_xdr (user uid)).
Definition demo_tracking (now : Z) : Server.tracking := Server.mkTracking 60 now now "client".

(** * Theorems *)

#[local] Open Scope string_scope.
#[local] Open Scope list_scope.
#[local] Open Scope Z_scope.

(** ** Messages *)

Definition roundtrips {A} (c : codec A) : Prop := ∀ a rest, valid c a →
  ∃ bs, serialize c a = Some bs ∧ deserialize c (bs ++ rest) = Some (a, rest).
Lemma lawful_roundtrips {A} (c : codec A) : Lawful c → roundtrips c.
Proof. intros Hc a rest Ha. destruct (Hc a Ha) as (bs & Hs & Hd). by exists bs. Qed.

#[local] Instance MKDIR3args_lawful : Lawful MKDIR3args_xdr.
Proof. apply xpair_lawful; apply _. Qed.
#[local] Instance SYMLINK3args_lawful : Lawful SYMLINK3args_xdr.
Proof. apply xpair_lawful; apply _. Qed.
#[local] Instance LINK3args_lawful : Lawful LINK3args_xdr.
Proof. apply xpair_lawful; apply _. Qed.
#[local] Instance mountres3_ok_lawful : Lawful Server.mountres3_ok_xdr.
Proof. apply xpair_lawful; apply _. Qed.
#[local] Instance mapping_lawful : Lawful Server.mapping_xdr.
Proof. repeat apply xpair_lawful; apply _. Qed.

(** Every type with an [impl XDR]: the base types, the messages of [rpc.rs], the types of [nfs.rs], the
    arguments and results of [nfs_handlers.rs], and those of the mount program and the port mapper. *)
Definition wire_types : list {A : Type & codec A} :=
  [existT _ xbool; existT _ i32; existT _ i64; existT _ u32; existT _ u64; existT _ (fixed 8); existT _ opaque;
   existT _ vec_u32] ++
  [existT _ auth_stat_xdr; existT _ auth_flavor_xdr; existT _ auth_unix_xdr; existT _ opaque_auth_xdr;
   existT _ mismatch_info_xdr; existT _ accept_body_xdr; existT _ accepted_reply_xdr; existT _ rejected_reply_xdr;
   existT _ reply_body_xdr; existT _ call_body_xdr; existT _ rpc_body_xdr; existT _ rpc_msg_xdr] ++
  [existT _ nfsstat3_xdr; existT _ ftype3_xdr; existT _ specdata3_xdr; existT _ nfs_fh3_xdr; existT _ nfstime3_xdr;
   existT _ fattr3_xdr; existT _ wcc_attr_xdr; existT _ pre_op_attr_xdr; existT _ post_op_attr_xdr;
   existT _ post_op_fh3_xdr; existT _ wcc_data_xdr; existT _ fsinfo3_xdr; existT _ set_time_xdr; existT _ sattr3_xdr;
   existT _ diropargs3_xdr; existT _ symlinkdata3_xdr] ++
  [existT _ READ3args_xdr; existT _ READ3resok_xdr; existT _ PATHCONF3resok_xdr; existT _ FSSTAT3resok_xdr;
   existT _ READDIRPLUS3args_xdr; existT _ READDIR3args_xdr; existT _ entry3_xdr; existT _ entryplus3_xdr;
   existT _ stable_how_xdr; existT _ WRITE3args_xdr; existT _ WRITE3resok_xdr; existT _ createmode3_xdr;
   existT _ SETATTR3args_xdr; existT _ MKDIR3args_xdr; existT _ SYMLINK3args_xdr; existT _ LINK3args_xdr] ++
  [existT _ mountstat3_xdr; existT _ Server.mountres3_ok_xdr; existT _ Server.mapping_xdr].

(** C27. Every type the server reads or writes survives the wire: a value of it whose byte strings and lists of
    numbers are shorter than [u32::MAX] (the numbers within their width) is written without a panic, and
    reading the bytes gives the value back and stops exactly behind it, whatever follows.  The bound is
    needed, and exact: a longer byte string or list trips the assertion of its writer. *)
Theorem wire_roundtrip :
  Forall (λ t, roundtrips (projT2 t)) wire_types ∧
  (∀ v, serialize opaque v = None ↔ 2 ^ 32 - 1 ≤ Vec.len v) ∧
  (∀ v, serialize vec_u32 v = None ↔ 2 ^ 32 - 1 ≤ Z.of_nat (length v)).
Proof.
  split_and!.
  - unfold wire_types. cbn [app].
    repeat (apply Forall_cons; split; [apply lawful_roundtrips; cbn [projT2]; apply _|]). by apply Forall_nil.
  - intros v. unfold opaque, serialize. destruct (Z.ltb_spec (Vec.len v) (2 ^ 32 - 1)); split; try done; lia.
  - intros v. unfold vec_u32, serialize at 1. destruct (Z.ltb_spec (Z.of_nat (length v)) (2 ^ 32 - 1)) as [Hl|Hl];
      [|split; [lia|done]]. split; [|lia]. intros Hn. exfalso. clear Hl.
    assert (Hsome : is_Some (foldr (λ i acc, ser_app (serialize u32 i) acc) (Some []) v)).
    { clear Hn. induction v as [|x v [b Hb]]; cbn [foldr]; [by eexists|]. rewrite Hb. by eexists. }
    destruct Hsome as [b Hb]. rewrite Hb in Hn. done.
Qed.

(** ** Handles *)

Lemma from_to_le x : 0 ≤ x < 2 ^ 64 → Nfs.from_le_bytes (Nfs.to_le_bytes x) = x.
Proof.
  intros Hx. unfold Nfs.from_le_bytes, Nfs.to_le_bytes.
  by rewrite reverse_involutive, be_value_bytes, Z.mod_small.
Qed.
Lemma length_le x : length (Nfs.to_le_bytes x) = 8%nat.
Proof. unfold Nfs.to_le_bytes. by rewrite length_reverse, length_be. Qed.
Lemma length_id_to_fh g i : length (Nfs.id_to_fh g i) = 16%nat.
Proof. unfold Nfs.id_to_fh. by rewrite length_app, !length_le. Qed.
Lemma be_bytes_value l : be_bytes (length l) (be_value l) = l.
Proof.
  assert (Hg : ∀ a, 0 ≤ a → be_bytes (length l) (a * 256 ^ Z.of_nat (length l) + be_value l) = l).
  2:{ specialize (Hg 0). rewrite Z.mul_0_l, Z.add_0_l in Hg. apply Hg. lia. }
  induction l as [|b l IH]; intros a Ha; [done|]. cbn [length be_bytes].
  assert (Hv : be_value (b :: l) = byte_val b * 256 ^ Z.of_nat (length l) + be_value l).
  { unfold be_value at 1. cbn [foldl]. rewrite be_value_acc. lia. }
  pose proof (be_value_range l) as Hr. pose proof (byte_val_range b) as Hb.
  rewrite Hv, Nat2Z.inj_succ, Z.pow_succ_r by lia. set (m := 256 ^ Z.of_nat (length l)) in *.
  replace (a * (256 * m) + (byte_val b * m + be_value l)) with ((a * 256 + byte_val b) * m + be_value l) by lia.
  f_equal; [|unfold m; apply IH; lia].
  rewrite Z.div_add_l by lia. rewrite (Z.div_small (be_value l)) by done. rewrite Z.add_0_r.
  unfold byte_of. rewrite Z.add_comm, Z.mod_add by lia. rewrite Z.mod_small by done.
  unfold byte_val. by rewrite N2Z.id, Byte.of_to_N.
Qed.
Lemma to_from_le l : length l = 8%nat → Nfs.to_le_bytes (Nfs.from_le_bytes l) = l.
Proof.
  intros Hl. unfold Nfs.to_le_bytes, Nfs.from_le_bytes.
  rewrite <- Hl, <- (length_reverse l), be_bytes_value. apply reverse_involutive.
Qed.
Lemma fh_to_id_own g id :
  0 ≤ g < 2 ^ 64 → 0 ≤ id < 2 ^ 64 → Nfs.fh_to_id g (Nfs.id_to_fh g id) = inr id.
Proof.
  intros Hg Hi. unfold Nfs.fh_to_id. rewrite length_id_to_fh. cbn [Nat.eqb negb]. unfold Nfs.id_to_fh.
  rewrite take_app_length', drop_app_length' by (by rewrite length_le). rewrite !from_to_le by done.
  by rewrite Z.compare_refl.
Qed.

(** A handle given out leads back to its file, one of an earlier run of the server is refused as
    stale, and the only handle accepted for a file is the one given out for it. *)
Theorem fh_roundtrip g g' id fh :
  0 ≤ g < 2 ^ 64 → 0 ≤ g' < 2 ^ 64 → 0 ≤ id < 2 ^ 64 →
  Nfs.fh_to_id g (Nfs.id_to_fh g id) = inr id ∧
  (g' < g → Nfs.fh_to_id g (Nfs.id_to_fh g' id) = inl NFS3ERR_STALE) ∧
  (Nfs.fh_to_id g fh = inr id → fh = Nfs.id_to_fh g id).
Proof.
  intros Hg Hg' Hi. split; [by apply fh_to_id_own|]. split.
  - intros Hlt. unfold Nfs.fh_to_id. rewrite length_id_to_fh. cbn [Nat.eqb negb]. unfold Nfs.id_to_fh.
    rewrite take_app_length' by (by rewrite length_le). rewrite from_to_le by done. by rewrite (proj2 (Z.compare_lt_iff _ _)).
  - unfold Nfs.fh_to_id. destruct (Nat.eqb_spec (length fh) 16) as [Hl|]; [|done]. cbn [negb].
    destruct (Z.compare_spec (Nfs.from_le_bytes (take 8 fh)) g) as [Hc|Hc|Hc]; try done. intros [= <-].
    unfold Nfs.id_to_fh. rewrite <- Hc, !to_from_le; [by rewrite take_drop|rewrite length_drop; lia|rewrite length_take; lia].
Qed.
Lemma fh_roundtrip_witness : Nfs.fh_to_id 7 (Nfs.id_to_fh 7 2) = inr 2 ∧ Nfs.fh_to_id 7 (Nfs.id_to_fh 3 2) = inl NFS3ERR_STALE.
Proof. destruct (fh_roundtrip 7 3 2 []) as (H1 & H2 & _); [lia..|]. split; [done|]. by apply H2. Defined.

(** ** Records *)

(** A fragment as a client sends it. *)
Definition fragment (last : bool) (data : list byte) : list byte :=
  be_bytes 4 (Vec.len data + if last then 2 ^ 31 else 0) ++ data.
(** A record: all fragments but the last have a clear top bit. *)
Definition record (parts : list (list byte)) (final : list byte) : list byte :=
  concat (fragment false <$> parts) ++ fragment true final.

Lemma read_fragment_ok last data acc rest :
  Vec.len data < 2 ^ 31 → Server.read_fragment (fragment last data ++ rest) acc = Some (last, acc ++ data, rest).
Proof.
  intros Hl. pose proof (Vec.len_nonneg data). unfold Server.read_fragment, fragment. rewrite <- app_assoc.
  rewrite read_exact_app by apply length_be. cbn [mbind option_bind]. rewrite be_value_bytes.
  set (x := Vec.len data) in *. rewrite Z.mod_small by (destruct last; lia).
  assert (Hland : Z.land (x + (if last then 2 ^ 31 else 0)) (Z.shiftl 1 31) = if last then 2 ^ 31 else 0).
  { rewrite Z.shiftl_mul_pow2, Z.mul_1_l by lia. apply Z.bits_inj'. intros i Hi.
    rewrite Z.land_spec, Z.pow2_bits_eqb by lia. destruct (Z.eqb_spec 31 i) as [<-|Hne].
    - rewrite andb_true_r. destruct last.
      + rewrite Z.pow2_bits_true by lia. rewrite Z.testbit_true by lia.
        rewrite (Z.add_comm x), <- (Z.mul_1_l (2 ^ 31)), Z.div_add_l, (Z.div_small x) by lia. done.
      + rewrite Z.add_0_r, Z.bits_0. apply Z.testbit_false; [lia|]. by rewrite Z.div_small by lia.
    - rewrite andb_false_r. destruct last; [|by rewrite Z.bits_0]. by rewrite Z.pow2_bits_false. }
  assert (Hlen : Z.land (x + (if last then 2 ^ 31 else 0)) (Z.shiftl 1 31 - 1) = x).
  { rewrite Z.shiftl_mul_pow2, Z.mul_1_l by lia. replace (2 ^ 31 - 1) with (Z.ones 31) by done.
    rewrite Z.land_ones by lia. destruct last.
    - replace (x + 2 ^ 31) with (x + 1 * 2 ^ 31) by lia. rewrite Z.mod_add, Z.mod_small by lia. lia.
    - rewrite Z.add_0_r. by apply Z.mod_small. }
  rewrite Hland, Hlen, read_exact_app by (unfold x, Vec.len; lia). cbn [mbind option_bind]. by destruct last.
Qed.

(** A record is put together again however the client cuts it into fragments, and reading it stops
    where it ends; a reply goes out as a record of one fragment. *)
Theorem record_roundtrip parts final rest :
  Forall (λ d, Vec.len d < 2 ^ 31) parts → Vec.len final < 2 ^ 31 →
  Server.read_record (S (length parts)) (record parts final ++ rest) [] = Some (concat parts ++ final, rest) ∧
  Server.write_fragment final = Some (record [] final).
Proof.
  intros Hp Hf. split.
  - assert (Hg : ∀ acc, Server.read_record (S (length parts)) (record parts final ++ rest) acc =
        Some (acc ++ concat parts ++ final, rest)); [|apply Hg].
    induction Hp as [|d parts Hd Hp IH]; intros acc.
    + unfold record. cbn [fmap list_fmap concat app length Server.read_record].
      by rewrite read_fragment_ok by done.
    + unfold record in *. cbn [length fmap list_fmap concat]. rewrite <- !app_assoc. cbn [Server.read_record].
      rewrite read_fragment_ok by done. cbn [mbind option_bind]. rewrite <- app_assoc in IH. cbn [Server.read_record] in IH.
      rewrite IH. by rewrite <- !app_assoc.
  - unfold Server.write_fragment, record. cbn [fmap list_fmap concat app]. unfold fragment.
    rewrite Z.shiftl_mul_pow2, Z.mul_1_l by lia. by rewrite (proj2 (Z.ltb_lt _ _)).
Qed.
Lemma record_roundtrip_witness :
  Server.read_record 2 (record [[x01]] [x02; x03] ++ [xff]) [] = Some ([x01; x02; x03], [xff]).
Proof. apply (record_roundtrip [[x01]] [x02; x03] [xff]); [by repeat constructor|done]. Defined.

(** ** Access *)

Lemma has_bit_pow m i : 0 ≤ i → has_bit m (2 ^ i) = Z.testbit m i.
Proof.
  intros Hi. unfold has_bit. destruct (Z.testbit m i) eqn:Hb.
  - apply negb_true_iff, Z.eqb_neq. intros H0. assert (Hz : Z.testbit (Z.land m (2 ^ i)) i = false) by (rewrite H0; apply Z.bits_0).
    rewrite Z.land_spec, Hb, Z.pow2_bits_true in Hz by done. done.
  - apply negb_false_iff, Z.eqb_eq. apply Z.bits_inj'. intros j Hj. rewrite Z.land_spec, Z.bits_0, Z.pow2_bits_eqb by done.
    destruct (Z.eqb_spec i j) as [<-|]; [by rewrite Hb|apply andb_false_r].
Qed.
Lemma testbit_grant b k r j :
  0 ≤ k → 0 ≤ j → Z.testbit (grant b (2 ^ k) r) j = Z.testbit r j || (b && (k =? j)).
Proof.
  intros Hk Hj. unfold grant. destruct b; [|by rewrite orb_false_r].
  by rewrite Z.lor_spec, Z.pow2_bits_eqb.
Qed.

(** The access granted: each of the six bits is set when it was asked for and the permission bits
    that apply to the caller allow it (lookup and deletion only for directories, execution only for
    the rest), and no other bit is. *)
Theorem compute_access_spec a attr requested j :
  0 ≤ j →
  Z.testbit (compute_access a attr requested) j =
    Z.testbit requested j &&
    match j with
    | 0 => can_read a attr
    | 1 => bool_decide (at_ftype attr = NF3DIR) && can_execute a attr
    | 2 | 3 => can_write a attr
    | 4 => bool_decide (at_ftype attr = NF3DIR) && can_write a attr
    | 5 => negb (bool_decide (at_ftype attr = NF3DIR)) && can_execute a attr
    | _ => false
    end.
Proof.
  intros Hj. unfold compute_access.
  change ACCESS3_READ with (2 ^ 0). change ACCESS3_LOOKUP with (2 ^ 1). change ACCESS3_MODIFY with (2 ^ 2).
  change ACCESS3_EXTEND with (2 ^ 3). change ACCESS3_DELETE with (2 ^ 4). change ACCESS3_EXECUTE with (2 ^ 5).
  rewrite !testbit_grant, !has_bit_pow, Z.bits_0 by lia.
  destruct (decide (j < 6)) as [Hlt|Hge].
  - assert (j = 0 ∨ j = 1 ∨ j = 2 ∨ j = 3 ∨ j = 4 ∨ j = 5) as [->|[->|[->|[->|[->| ->]]]]] by lia; cbn [Z.eqb];
      rewrite ?andb_false_r, ?orb_false_r, ?andb_true_r; cbn [orb]; rewrite <- ?andb_assoc; done.
  - rewrite !(proj2 (Z.eqb_neq _ j)) by lia. rewrite !andb_false_r. cbn [orb]. symmetry.
    assert (Hm : match j with 0 => can_read a attr | 1 => bool_decide (at_ftype attr = NF3DIR) && can_execute a attr
      | 2 | 3 => can_write a attr | 4 => bool_decide (at_ftype attr = NF3DIR) && can_write a attr
      | 5 => negb (bool_decide (at_ftype attr = NF3DIR)) && can_execute a attr | _ => false end = false).
    { destruct j as [|p|p]; [lia| |lia]. do 3 (destruct p as [p|p|]; try lia); done. }
    rewrite Hm. apply andb_false_r.
Qed.
Lemma compute_access_spec_witness :
  Z.testbit (compute_access (mkAuthUnix 0 [] 5 5 []) (mkFattr NF3REG 0x1a4 1 5 5 0 0 specdata3_default 0 2
    (mkTime 0 0) (mkTime 0 0) (mkTime 0 0)) 0x3f) 2 = true.
Proof. rewrite (compute_access_spec _ _ _ 2) by lia. by vm_compute. Defined.

(** ** Retransmissions *)

Section calls.
Context {S : Type} {FS : FileSystem S} {D : LibcDev}.

(** A call is executed at most once: after it was answered, the same bytes from the same client
    within the retention period get no reply and leave the file system alone. *)
Theorem retransmission_dropped tk tk' context t input s out t1 s1 s' xid call rest :
  deserialize rpc_msg_xdr input = Some (mkMsg xid (CALL call), rest) → cb_rpcvers call = 2 →
  Server.handle_rpc tk context t input s = (HOk true, out, t1, s1) →
  Server.tk_client tk' = Server.tk_client tk →
  Server.tk_now tk' ≤ Server.tk_done tk + Server.tk_retention tk' →
  ∃ t2, Server.handle_rpc tk' context t1 input s' = (HOk false, [], t2, s').
Proof.
  intros Hd Hv Hrun Hc Hn. unfold Server.handle_rpc in *. rewrite Hd in *. cbn [rm_body rm_xid] in *.
  destruct (match oa_flavor (cb_cred call) with AUTH_UNIX => _ | _ => _ end) as [a|]; [|done].
  rewrite Hv in *. cbn [Z.eqb negb Pos.eqb] in *. rewrite Hc.
  destruct (is_retransmission (Server.tk_retention tk) _ _ _ _) as [again t0] eqn:Hr.
  destruct again; [done|].
  destruct (Server.dispatch _ _ _ _) as [[u| |] h]; simplify_eq.
  unfold is_retransmission in Hr |- *.
  destruct (housekeeping _ _ t !! _) as [v|]; simplify_eq.
  unfold mark_processed. rewrite lookup_insert_eq.
  assert (Hk : housekeeping (Server.tk_now tk') (Server.tk_retention tk')
      (<[(xid, Server.tk_client tk):=Completed (Server.tk_done tk)]>
        (<[(xid, Server.tk_client tk):=InProgress]> (housekeeping (Server.tk_now tk) (Server.tk_retention tk) t)))
      !! (xid, Server.tk_client tk) = Some (Completed (Server.tk_done tk))).
  { unfold housekeeping at 1. apply map_lookup_filter_Some. rewrite lookup_insert_eq. split; [done|].
    simpl. apply Z.leb_le. lia. }
  rewrite Hk. eauto.
Qed.
End calls.

#[local] Existing Instances demo_served linux_dev.
(** A WRITE call sent twice. *)
Lemma retransmission_dropped_witness :
  ∃ t2, Server.handle_rpc (demo_tracking 30) (demo_context 0)
    (Server.handle_rpc (demo_tracking 0) (demo_context 0) ∅ (call_bytes 7 (unix_cred 0) demo_write) demo).1.2
    (call_bytes 7 (unix_cred 0) demo_write) demo = (HOk false, [], t2, demo).
Proof.
  destruct (Server.handle_rpc (demo_tracking 0) (demo_context 0) ∅ (call_bytes 7 (unix_cred 0) demo_write) demo)
    as [[[r out] t1] s1] eqn:Hrun.
  assert (Hr : r = HOk true).
  { apply (f_equal (λ x, x.1.1.1)) in Hrun. cbn [fst] in Hrun. rewrite <- Hrun. by vm_compute. }
  subst r. eapply (retransmission_dropped (demo_tracking 0) (demo_tracking 30)); [| |exact Hrun|done|simpl; lia];
    by vm_compute.
Defined.
