(* ===== verification/NfsSafety.v ===== *)
(** * The NFS server: nothing changes without permission

    Which requests can change the database: those whose caller passes the permission check on the
    attributes the database holds.  It is proved for SecAFS in every environment, that is for every
    pattern of failing database calls. *)

From S2P Require Import Prelude Types Tables Monad Wp Instances Sql File SecafsInode Setup Atomic FsClass.
From S2P Require Import Samples Xdr Rpc NfsTypes Nfs NfsHandlers NfsServer WireThms.

#[local] Open Scope string_scope.
#[local] Open Scope list_scope.
#[local] Open Scope Z_scope.

Section safety.
Context {E : Env} {D : LibcDev} (fs : SecAFS).
#[local] Instance served : FileSystem state := secafs_fs fs.
Implicit Types (s : state) (h : hstate state).

(** ** Steps that only read *)

Definition nreads {A} (m : N state A) : Prop :=
  ∀ s, txn s = None → committed (m s).2 = committed s ∧ txn (m s).2 = None.
Definition hreads {A} (m : H state A) : Prop :=
  ∀ h, txn (h_fs h) = None → committed (h_fs (m h).2) = committed (h_fs h) ∧ txn (h_fs (m h).2) = None.

Lemma nreads_ret {A} (a : A) : nreads (mret a).
Proof. done. Qed.
Lemma nreads_fail {A} e : nreads (nfail (A := A) e).
Proof. done. Qed.
Lemma nreads_bind {A B} (m : N state A) (k : A → N state B) : nreads m → (∀ a, nreads (k a)) → nreads (m ≫= k).
Proof.
  intros Hm Hk s Hs. unfold mbind, N_bind. destruct (Hm s Hs) as [Hc Ht]. destruct (m s) as [[a|e|] s'];
    simpl in *; [|done..]. destruct (Hk a s' Ht) as [Hc' ?]. split; [congruence|done].
Qed.
Lemma nreads_call {A} f (m : M A) : reads m → nreads (map_err f m).
Proof. intros Hm s Hs. specialize (Hm s Hs). unfold map_err. by destruct (m s) as [[]]; simpl in *. Qed.
Lemma reads_getattr i : reads (Fs.getattr i).
Proof. unfold Fs.getattr. closes. Qed.
Lemma reads_lookup p n : reads (Fs.lookup p n).
Proof. unfold Fs.lookup. closes. Qed.
Lemma reads_readlink i : reads (Fs.readlink i).
Proof. unfold Fs.readlink. closes. Qed.
Lemma reads_readdir_plus i : reads (Fs.readdir_plus i).
Proof. unfold Fs.readdir_plus. closes. Qed.
Lemma reads_open i fl : reads (Fs.open fs i fl).
Proof. unfold Fs.open. closes. Qed.
Lemma reads_panic {A} : reads (panic (A := A)).
Proof. by intros s. Qed.
Lemma reads_pread f o n : reads (pread f o n).
Proof. unfold pread. closes; apply reads_panic. Qed.
Lemma reads_fstat f : reads (fstat f).
Proof. unfold fstat. closes. Qed.
#[local] Hint Resolve nreads_ret nreads_fail : core.
(** The class is unfolded by conversion. *)
Ltac reads_call :=
  first [ exact (reads_getattr _) | exact (reads_lookup _ _) | exact (reads_readlink _) | exact (reads_readdir_plus _)
        | exact (reads_open _ _) | exact (reads_pread _ _ _) | exact (reads_fstat _) ].
Ltac nreads_step :=
  lazymatch goal with
  | |- ∀ _, _ => intros
  | |- nreads (_ ≫= _) => apply nreads_bind
  | |- _ => first [ solve [eauto 2] | apply nreads_call; reads_call | case_match ]
  end.
Lemma nreads_getattr i : nreads (Nfs.getattr i).
Proof. unfold Nfs.getattr, ok_or. repeat nreads_step. Qed.
Lemma nreads_lookup d n : nreads (Nfs.lookup d n).
Proof. unfold Nfs.lookup, Nfs.name_of, ok_or. repeat nreads_step. Qed.
Lemma nreads_read i o n : nreads (Nfs.read i o n).
Proof. unfold Nfs.read, ok_or. repeat nreads_step. Qed.
Lemma nreads_readlink i : nreads (Nfs.readlink i).
Proof. unfold Nfs.readlink, ok_or. repeat nreads_step. Qed.
Lemma nreads_readdir d a n : nreads (Nfs.readdir d a n).
Proof. unfold Nfs.readdir, ok_or. repeat nreads_step. Qed.
Lemma nreads_try {A} (m : N state A) : nreads m → nreads (Nfs.try m).
Proof. intros Hm s Hs. specialize (Hm s Hs). unfold Nfs.try. by destruct (m s) as [[]]; simpl in *. Qed.

Lemma hreads_ret {A} (a : A) : hreads (mret a).
Proof. done. Qed.
Lemma hreads_bind {A B} (m : H state A) (k : A → H state B) : hreads m → (∀ a, hreads (k a)) → hreads (m ≫= k).
Proof.
  intros Hm Hk h Hs. unfold mbind, H_bind. destruct (Hm h Hs) as [Hc Ht]. destruct (m h) as [[a| |] h'];
    simpl in *; [|done..]. destruct (Hk a h' Ht) as [Hc' ?]. split; [congruence|done].
Qed.
Lemma hreads_recv {A} (c : codec A) : hreads (recv c).
Proof. intros h Hs. unfold recv. by destruct (deserialize c (h_in h)) as [[]|]. Qed.
Lemma hreads_send {A} (c : codec A) a : hreads (send c a).
Proof. intros h Hs. unfold send, mbind, H_bind, unwrap. by destruct (serialize c a). Qed.
Lemma hreads_unwrap {A} (o : option A) : hreads (unwrap o).
Proof. intros h Hs. unfold unwrap. by destruct o. Qed.
Lemma hreads_write_all b : hreads (write_all b).
Proof. done. Qed.
Lemma hreads_written : hreads bytes_written.
Proof. done. Qed.
Lemma hreads_vfs {A} (m : N state A) : nreads m → hreads (vfs m).
Proof. intros Hm h Hs. specialize (Hm _ Hs). unfold vfs. by destruct (m (h_fs h)) as [[]]; simpl in *. Qed.
#[local] Hint Resolve hreads_ret hreads_recv hreads_send hreads_unwrap hreads_write_all hreads_written
  nreads_getattr nreads_lookup nreads_read nreads_readlink nreads_readdir nreads_try : core.

(** Close a goal [hreads m] by the structure of [m]. *)
Ltac hcloses :=
  repeat match goal with
  | |- ∀ _, _ => intros
  | |- hreads (_ ≫= _) => apply hreads_bind
  | |- hreads (vfs _) => apply hreads_vfs
  | |- _ => first
      [ solve [eauto 2]
      | progress unfold Handlers.status, Handlers.send_attr, Handlers.send_wcc, Handlers.fail_attr,
          Handlers.fail_wcc, Handlers.post_attr, Handlers.refuse_wcc, Handlers.rename_result,
          Handlers.with_fh, Handlers.with_attr, Handlers.read_write, Handlers.entry_allowed
      | case_match ]
  end.

(** ** Guarded changes *)

(** [h] is a state in which nothing has changed since [s]. *)
Definition unchanged s h : Prop := committed (h_fs h) = committed s ∧ txn (h_fs h) = None.
(** [m] run in [h] leaves the tables of [s], or [φ] holds. *)
Definition guards {A} s (m : H state A) h (φ : Prop) : Prop := committed (h_fs (m h).2) = committed s ∨ φ.

Lemma guards_reads {A} s (m : H state A) h φ : hreads m → unchanged s h → guards s m h φ.
Proof. intros Hm [Hc Ht]. left. destruct (Hm h Ht) as [Hc' _]. congruence. Qed.
Lemma guards_bind {A B} s (m : H state A) (k : A → H state B) h φ :
  hreads m → unchanged s h →
  (∀ a h', m h = (HOk a, h') → unchanged s h' → guards s (k a) h' φ) → guards s (m ≫= k) h φ.
Proof.
  intros Hm [Hc Ht] Hk. destruct (Hm h Ht) as [Hc' Ht']. unfold guards, mbind, H_bind.
  destruct (m h) as [[a| |] h'] eqn:Hrun; simpl in *; [|left; congruence..].
  apply (Hk a h'); [done|]. split; [congruence|done].
Qed.
Lemma guards_recv {A B} s (c : codec A) (k : A → H state B) h φ :
  unchanged s h →
  (∀ a rest, deserialize c (h_in h) = Some (a, rest) →
     guards s (k a) (mkH rest (h_out h) (h_fs h)) φ) → guards s (recv c ≫= k) h φ.
Proof.
  intros Hu Hk. apply guards_bind; [apply hreads_recv|done|]. intros a h' Hrun _. unfold recv in Hrun.
  destruct (deserialize c (h_in h)) as [[a' rest]|] eqn:Hd; simplify_eq. by apply Hk.
Qed.

(** The attributes behind a handle, read from the tables of [s]. *)
Definition attr_of (g : Z) s (fh : nfs_fh3) (attr : fattr3) : Prop :=
  ∃ id s0 s1, Nfs.fh_to_id g fh = inr id ∧ committed s0 = committed s ∧ txn s0 = None ∧
    Nfs.getattr id s0 = (NOk attr, s1).

Section procedure.
Context (context : RPCContext) (xid : Z).
Abbreviation g := (gennum context).

(** Looking at the object of a handle. *)
Lemma guards_attr s fh bad bad' k h φ :
  unchanged s h → (∀ e, hreads (bad e)) → (∀ e, hreads (bad' e)) →
  (∀ id attr h', Nfs.fh_to_id g fh = inr id → attr_of g s fh attr → unchanged s h' → guards s (k id attr) h' φ) →
  guards s (Handlers.with_fh context fh bad (λ id, Handlers.with_attr id bad' (λ attr, k id attr))) h φ.
Proof.
  intros Hu Hb Hb' Hk. unfold Handlers.with_fh. destruct (Nfs.fh_to_id g fh) as [e|id] eqn:Hf.
  { by apply guards_reads. }
  unfold Handlers.with_attr. apply guards_bind; [by apply hreads_vfs|done|]. intros r h' Hrun Hu'.
  unfold vfs in Hrun. destruct (Nfs.getattr id (h_fs h)) as [[attr|e|] s1] eqn:Hg; simplify_eq.
  - apply Hk; [done| |done]. exists id, (h_fs h), s1. destruct Hu. done.
  - by apply guards_reads.
Qed.

(** Who may do what: the condition each procedure puts on its caller. *)
Definition may_modify s (fh : nfs_fh3) : Prop :=
  ∃ attr, attr_of g s fh attr ∧ can_modify_directory (auth context) attr = true.
Definition authorised (proc : Z) (input : list byte) s : Prop :=
  match proc with
  | 2 => ∃ args rest attr, deserialize SETATTR3args_xdr input = Some (args, rest) ∧
      attr_of g s (st_object args) attr ∧ Handlers.setattr_refused context attr (st_new_attribute args) = None
  | 7 => ∃ args rest attr, deserialize WRITE3args_xdr input = Some (args, rest) ∧
      attr_of g s (wr_file args) attr ∧ can_write (auth context) attr = true
  | 8 | 9 | 10 | 11 | 12 | 13 => ∃ dirops rest, deserialize diropargs3_xdr input = Some (dirops, rest) ∧
      may_modify s (do_dir dirops)
  | 14 => ∃ from to rest rest', deserialize diropargs3_xdr input = Some (from, rest) ∧
      deserialize diropargs3_xdr rest = Some (to, rest') ∧ may_modify s (do_dir from) ∧ may_modify s (do_dir to)
  | 15 => ∃ fh link rest rest', deserialize nfs_fh3_xdr input = Some (fh, rest) ∧
      deserialize diropargs3_xdr rest = Some (link, rest') ∧ may_modify s (do_dir link)
  | _ => False
  end.

Lemma xpair_inv {A B} (c : codec A) (d : codec B) l p rest :
  deserialize (xpair c d) l = Some (p, rest) →
  ∃ l', deserialize c l = Some (p.1, l') ∧ deserialize d l' = Some (p.2, rest).
Proof.
  unfold xpair, deserialize at 1. destruct (deserialize c l) as [[a l1]|]; [|done]. cbn [mbind option_bind].
  destruct (deserialize d l1) as [[b l2]|] eqn:Hd; [|done]. intros [= <- <-]. eauto.
Qed.
Lemma allowed_modify dirid n attr own h h' :
  Handlers.entry_allowed context dirid n attr own h = (HOk true, h') → can_modify_directory (auth context) attr = true.
Proof.
  unfold Handlers.entry_allowed, mbind, H_bind, vfs. destruct (has_bit _ _); [|by intros [= -> _]].
  destruct (Nfs.lookup _ _ _) as [[eid|e|] s1]; cbn [h_fs]; [| |done].
  - destruct (Nfs.getattr eid s1) as [[ea|e|] s2]; [| |done]; intros [= Hb _]; [|done].
    apply andb_true_iff in Hb as [Hb _]. unfold can_delete_entry in Hb. by destruct (can_modify_directory _ _).
  - by intros [= -> _].
Qed.

(** *** Procedures that read *)

Lemma nreads_fsinfo i : nreads (Nfs.fsinfo i).
Proof. unfold Nfs.fsinfo. apply nreads_bind; [by apply nreads_try|done]. Qed.
Lemma nreads_readdir_simple d n : nreads (Nfs.readdir_simple d n).
Proof. unfold Nfs.readdir_simple. by apply nreads_bind. Qed.
Lemma hreads_send_entryplus st mb md dc es : hreads (Handlers.send_entryplus context st mb md dc es).
Proof. revert dc. induction es as [|e es IH]; intros dc; cbn [Handlers.send_entryplus]; hcloses. Qed.
Lemma hreads_send_entry st mb es : hreads (Handlers.send_entry st mb es).
Proof. induction es as [|[i n] es IH]; cbn [Handlers.send_entry]; hcloses. Qed.
#[local] Hint Resolve nreads_fsinfo nreads_readdir_simple hreads_send_entryplus hreads_send_entry : core.
Lemma hreads_reading :
  hreads (Handlers.nfsproc3_null xid) ∧ hreads (Handlers.nfsproc3_getattr context xid) ∧
  hreads (Handlers.nfsproc3_lookup context xid) ∧ hreads (Handlers.nfsproc3_read context xid) ∧
  hreads (Handlers.nfsproc3_fsinfo context xid) ∧ hreads (Handlers.nfsproc3_access context xid) ∧
  hreads (Handlers.nfsproc3_pathconf context xid) ∧ hreads (Handlers.nfsproc3_fsstat context xid) ∧
  hreads (Handlers.nfsproc3_readlink context xid) ∧ hreads (Handlers.nfsproc3_readdir context xid) ∧
  hreads (Handlers.nfsproc3_readdirplus context xid).
Proof.
  split_and!; unfold Handlers.nfsproc3_null, Handlers.nfsproc3_getattr, Handlers.nfsproc3_lookup,
    Handlers.nfsproc3_read, Handlers.nfsproc3_fsinfo, Handlers.nfsproc3_access, Handlers.nfsproc3_pathconf,
    Handlers.nfsproc3_fsstat, Handlers.nfsproc3_readlink, Handlers.nfsproc3_readdir,
    Handlers.nfsproc3_readdirplus; hcloses.
Qed.

(** *** Procedures that write *)

Lemma hreads_fail_wcc e : hreads (Handlers.fail_wcc xid e).
Proof. hcloses. Qed.
Lemma hreads_refuse_wcc e d a : hreads (Handlers.refuse_wcc xid e d a).
Proof. hcloses. Qed.
Lemma hreads_status e : hreads (Handlers.status xid e).
Proof. hcloses. Qed.
Lemma hreads_entry_allowed d n a own : hreads (Handlers.entry_allowed context d n a own).
Proof. hcloses. Qed.
Lemma hreads_rename_result e d d' a a' : hreads (Handlers.rename_result xid e d d' a a').
Proof. hcloses. Qed.
#[local] Hint Resolve hreads_fail_wcc hreads_refuse_wcc hreads_status hreads_entry_allowed hreads_rename_result : core.

Lemma guards_write s h : unchanged s h → guards s (Handlers.nfsproc3_write context xid) h (authorised 7 (h_in h) s).
Proof.
  intros Hu. unfold Handlers.nfsproc3_write, Handlers.read_write. cbn [Nfs.capabilities].
  apply guards_recv; [done|]. intros args rest Hd. case_match; [by apply guards_reads|].
  apply guards_attr; [done..|]. intros id attr h' _ Ha Hu'. destruct (can_write _ _) eqn:Hw; cbn [negb].
  - right. by exists args, rest, attr.
  - apply guards_reads; [hcloses|done].
Qed.
Lemma guards_setattr s h : unchanged s h → guards s (Handlers.nfsproc3_setattr context xid) h (authorised 2 (h_in h) s).
Proof.
  intros Hu. unfold Handlers.nfsproc3_setattr, Handlers.read_write. cbn [Nfs.capabilities].
  apply guards_recv; [done|]. intros args rest Hd.
  apply guards_attr; [done..|]. intros id attr h' _ Ha Hu'. destruct (Handlers.setattr_refused _ _ _) eqn:Hw.
  - apply guards_reads; [hcloses|done].
  - right. by exists args, rest, attr.
Qed.
(** The end of every creating procedure. *)
Lemma guards_modify s h (dirops : diropargs3) (k : Z → fattr3 → H state unit) φ :
  unchanged s h → (may_modify s (do_dir dirops) → φ) →
  guards s (Handlers.with_fh context (do_dir dirops) (Handlers.fail_wcc xid) (λ dirid,
    Handlers.with_attr dirid (Handlers.fail_wcc xid) (λ attr,
      if negb (can_modify_directory (auth context) attr) then Handlers.refuse_wcc xid NFS3ERR_ACCES dirid attr
      else k dirid attr))) h φ.
Proof.
  intros Hu Hφ. apply guards_attr; [done..|]. intros id attr h' _ Ha Hu'.
  destruct (can_modify_directory _ _) eqn:Hw; cbn [negb]; [|by apply guards_reads].
  right. apply Hφ. by exists attr.
Qed.
Lemma guards_create s h : unchanged s h → guards s (Handlers.nfsproc3_create context xid) h (authorised 8 (h_in h) s).
Proof.
  intros Hu. unfold Handlers.nfsproc3_create, Handlers.read_write. cbn [Nfs.capabilities].
  apply guards_recv; [done|]. intros d rest Hd. apply guards_recv; [done|]. intros how rest' _.
  apply guards_modify; [done|]. intros Hm. by exists d, rest.
Qed.
Lemma guards_mkdir s h : unchanged s h → guards s (Handlers.nfsproc3_mkdir context xid) h (authorised 9 (h_in h) s).
Proof.
  intros Hu. unfold Handlers.nfsproc3_mkdir, Handlers.read_write. cbn [Nfs.capabilities].
  apply guards_recv; [done|]. intros args rest (l & Hd & _)%xpair_inv.
  apply guards_modify; [done|]. intros Hm. by exists args.1, l.
Qed.
Lemma guards_symlink s h : unchanged s h → guards s (Handlers.nfsproc3_symlink context xid) h (authorised 10 (h_in h) s).
Proof.
  intros Hu. unfold Handlers.nfsproc3_symlink, Handlers.read_write. cbn [Nfs.capabilities].
  apply guards_recv; [done|]. intros args rest (l & Hd & _)%xpair_inv.
  apply guards_modify; [done|]. intros Hm. by exists args.1, l.
Qed.
Lemma guards_mknod s h : unchanged s h → guards s (Handlers.nfsproc3_mknod context xid) h (authorised 11 (h_in h) s).
Proof.
  intros Hu. unfold Handlers.nfsproc3_mknod, Handlers.read_write. cbn [Nfs.capabilities].
  apply guards_recv; [done|]. intros d rest Hd. apply guards_recv; [done|]. intros t rest' _.
  assert (Hφ : may_modify s (do_dir d) → authorised 11 (h_in h) s) by (intros Hm; by exists d, rest).
  destruct (default NF3REG (ftype3_of t)); try (by apply guards_reads);
    repeat (apply guards_recv; [done|]; intros); by apply guards_modify.
Qed.
Lemma guards_remove s h n :
  n = 12 ∨ n = 13 → unchanged s h → guards s (Handlers.nfsproc3_remove context xid) h (authorised n (h_in h) s).
Proof.
  intros Hn Hu. unfold Handlers.nfsproc3_remove, Handlers.read_write. cbn [Nfs.capabilities].
  apply guards_recv; [done|]. intros d rest Hd. apply guards_attr; [done..|]. intros id attr h' _ Ha Hu'.
  apply guards_bind; [done|done|]. intros [] h2 Hrun Hu2; cbn [negb]; [|by apply guards_reads].
  apply allowed_modify in Hrun. right.
  assert (Hm : ∃ dirops rest, deserialize diropargs3_xdr (h_in h) = Some (dirops, rest) ∧ may_modify s (do_dir dirops)).
  { exists d, rest. split; [done|]. by exists attr. }
  by destruct Hn as [->| ->].
Qed.
Lemma guards_rename s h : unchanged s h → guards s (Handlers.nfsproc3_rename context xid) h (authorised 14 (h_in h) s).
Proof.
  intros Hu. unfold Handlers.nfsproc3_rename, Handlers.read_write. cbn [Nfs.capabilities].
  apply guards_recv; [done|]. intros d rest Hd. apply guards_recv; [done|]. intros d' rest' Hd'.
  unfold Handlers.with_fh. destruct (Nfs.fh_to_id g (do_dir d)) as [e|from] eqn:Hf; [by apply guards_reads|].
  destruct (Nfs.fh_to_id g (do_dir d')) as [e|to] eqn:Ht; [by apply guards_reads|].
  set (h0 := mkH rest' _ _). assert (Hu0 : unchanged s h0) by done. clearbody h0.
  pose proof (guards_attr s (do_dir d) (Handlers.fail_wcc xid) (Handlers.fail_wcc xid)) as Hga.
  unfold Handlers.with_fh in Hga. rewrite Hf in Hga. apply (Hga (λ _ a, _)); [done..|].
  intros ? a h1 [= <-] Ha Hu1.
  pose proof (guards_attr s (do_dir d') (Handlers.fail_wcc xid) (Handlers.fail_wcc xid)) as Hgb.
  unfold Handlers.with_fh in Hgb. rewrite Ht in Hgb. apply (Hgb (λ _ a', _)); [done..|].
  intros ? a' h2 [= <-] Ha' Hu2.
  apply guards_bind; [done|done|]. intros [] h3 Hrun3 Hu3; cbn [negb]; [|by apply guards_reads].
  apply guards_bind; [done|done|]. intros [] h4 Hrun4 Hu4; cbn [negb]; [|by apply guards_reads].
  apply allowed_modify in Hrun3, Hrun4. right. exists d, d', rest, rest'. split_and!; [done|done|by exists a|by exists a'].
Qed.
Lemma guards_link s h : unchanged s h → guards s (Handlers.nfsproc3_link context xid) h (authorised 15 (h_in h) s).
Proof.
  intros Hu. unfold Handlers.nfsproc3_link, Handlers.read_write. cbn [Nfs.capabilities].
  apply guards_recv; [done|]. intros args rest (l & Hd & Hd')%xpair_inv.
  apply guards_attr; [done|intros; hcloses..|]. intros id attr h' _ Ha Hu'.
  case_match; [apply guards_reads; [hcloses|done]|].
  apply guards_attr; [done|intros; hcloses..|]. intros dirid dattr h2 _ Hda Hu2.
  destruct (can_modify_directory _ _) eqn:Hw; cbn [negb]; [|apply guards_reads; [hcloses|done]].
  right. exists args.1, args.2, l, rest. split_and!; [done|done|]. by exists dattr.
Qed.

(** C7. Whatever bytes a client sends to the NFS program, and whatever database calls fail: the
    committed tables change only if the procedure is one that writes and the caller passes its
    permission check, on the attributes the tables hold for the handle in the arguments (write
    permission on the file; write and search permission on each directory; for attributes the rules
    of [setattr]). *)
Theorem nfs_changes_need_permission call input s :
  txn s = None →
  committed (h_fs (Handlers.handle_nfs context xid call (mkH input [] s)).2) ≠ committed s →
  authorised (cb_proc call) input s.
Proof.
  intros Htx Hne. set (h := mkH input [] s) in *. assert (Hu : unchanged s h) by done.
  assert (Hg : guards s (Handlers.handle_nfs context xid call) h (authorised (cb_proc call) input s)).
  2:{ by destruct Hg. }
  unfold Handlers.handle_nfs. case_match; [by apply guards_reads|].
  pose proof hreads_reading as (? & ? & ? & ? & ? & ? & ? & ? & ? & ? & ?).
  destruct (cb_proc call) as [|p|p]; [by apply guards_reads| |by apply guards_reads].
  do 5 (try (destruct p as [p|p|]; try by apply guards_reads));
    first [ by apply (guards_write s h) | by apply (guards_setattr s h) | by apply (guards_create s h)
          | by apply (guards_mkdir s h) | by apply (guards_symlink s h) | by apply (guards_mknod s h)
          | apply (guards_remove s h 12); [by left|done] | apply (guards_remove s h 13); [by right|done]
          | by apply (guards_rename s h) | by apply (guards_link s h) ].
Qed.
End procedure.
End safety.

#[local] Existing Instances demo_served linux_dev.
Lemma nfs_changes_need_permission_witness :
  authorised (mkSecAFS 4096) (demo_context 0) 7 demo_write demo.
Proof.
  apply (nfs_changes_need_permission (mkSecAFS 4096) (demo_context 0) 9 (demo_call 7 opaque_auth_default)); [done|].
  intros Heq. apply (f_equal (λ d, fs_data d !! (2, 0))) in Heq. vm_compute in Heq. discriminate.
Defined.
