(* ===== verification/NfsThms.v ===== *)
(** * The NFS server: theorems on SecAFS

    Writing and reading over the wire, and listing a directory page by page. *)

From S2P Require Import Prelude Types Tables Monad Wp Instances Sql File FileSpec FileThms SecafsInode InodeSpec.
From S2P Require Import TreeInv SysInv Samples Steps ListingThms OverlayCopy FsClass Xdr Rpc NfsTypes Nfs NfsHandlers NfsServer.
From S2P Require Import WireThms.

#[local] Open Scope string_scope.
#[local] Open Scope list_scope.
#[local] Open Scope Z_scope.

(** ** Running a procedure *)

Section run.
Context {S : Type}.
Implicit Types h : hstate S.

Lemma hbind_ok {A B} (m : H S A) (k : A → H S B) h a h' : m h = (HOk a, h') → (m ≫= k) h = k a h'.
Proof. intros Hm. unfold mbind, H_bind. by rewrite Hm. Qed.
Lemma recv_ok {A} (c : codec A) a b out s :
  Lawful c → valid c a → serialize c a = Some b → recv c (mkH b out s) = (HOk a, mkH [] out s : hstate S).
Proof.
  intros Hc Ha Hs. destruct (Hc a Ha) as (b' & Hs' & Hd). assert (b' = b) as -> by congruence.
  unfold recv. cbn [h_in]. specialize (Hd []). rewrite app_nil_r in Hd. by rewrite Hd.
Qed.
Lemma send_ok {A} (c : codec A) a b i out s :
  serialize c a = Some b → send c a (mkH i out s) = (HOk tt, mkH i (out ++ b) s : hstate S).
Proof. intros Hs. unfold send, mbind, H_bind, unwrap. by rewrite Hs. Qed.
Lemma vfs_ok {A} (m : N S A) a i out s s' :
  m s = (NOk a, s') → vfs m (mkH i out s) = (HOk (inr a), mkH i out s').
Proof. intros Hm. unfold vfs. cbn [h_fs]. by rewrite Hm. Qed.
Lemma nbind_ok {A B} (m : N S A) (k : A → N S B) s a s' : m s = (NOk a, s') → (m ≫= k) s = k a s'.
Proof. intros Hm. unfold mbind, N_bind. by rewrite Hm. Qed.
Lemma map_err_ok {A} f (m : St S A) s a s' : m s = (Ok a, s') → map_err f m s = (NOk a, s').
Proof. intros Hm. unfold map_err. by rewrite Hm. Qed.
End run.

(** The bytes of a successful reply. *)
Definition ok_reply {A} (xid : Z) (c : codec A) (a : A) : option (list byte) :=
  ser_app (serialize rpc_msg_xdr (make_success_reply xid))
    (ser_app (serialize nfsstat3_xdr NFS3_OK) (serialize c a)).
Lemma send_reply {S A} xid (c : codec A) a b (s : S) :
  serialize c a = Some b →
  ∃ out, ok_reply xid c a = Some out ∧
    (Handlers.status xid NFS3_OK ≫= λ _, send c a) (mkH [] [] s) = (HOk tt, mkH [] out s).
Proof.
  intros Hs. unfold ok_reply. rewrite Hs. eexists. split; [done|].
  erewrite hbind_ok.
  2:{ unfold Handlers.status. erewrite hbind_ok by (by apply send_ok). by apply send_ok. }
  by erewrite send_ok by done.
Qed.

(** The permission bits and the owner decide the check. *)
Lemma check_permission_ext a p x y :
  at_mode x = at_mode y → at_uid x = at_uid y → at_gid x = at_gid y → check_permission a x p = check_permission a y p.
Proof. intros Hm Hu Hg. unfold check_permission. by rewrite Hm, Hu, Hg. Qed.

(** ** Writing and reading *)

Section data.
Context {E : Env} {HQ : Quiet E} {D : LibcDev} (fs : SecAFS).
#[local] Instance served : FileSystem state := secafs_fs fs.
Implicit Types s : state.
Abbreviation cs := (chunk_size fs).

Lemma id_ino id : 0 ≤ id < 2 ^ 63 → Nfs.id_to_fs_ino id = id.
Proof. intros. unfold Nfs.id_to_fs_ino. apply Int.i64_small. lia. Qed.
Lemma nfs_getattr_ok id r s :
  0 ≤ id < 2 ^ 63 → txn s = None → fs_inode (cur s) !! id = Some r →
  ∃ s', Nfs.getattr id s = (NOk (Nfs.stats_to_fattr (stats_of id r)), s') ∧ cur s' = cur s ∧ txn s' = None.
Proof.
  intros Hi Htx Hr. pose proof (no_txn_aborted s Htx) as Hab.
  destruct (wp_ok (Fs.getattr id) s (Some (stats_of id r)) (λ s', cur s' = cur s ∧ txn s' = None))
    as (s' & Hrun & Hc & Ht).
  { unfold Fs.getattr. fs_steps. st. by rewrite Hr. }
  exists s'. split; [|done]. unfold Nfs.getattr. rewrite id_ino by done.
  by erewrite nbind_ok by exact (map_err_ok _ _ _ _ _ Hrun).
Qed.
Lemma fs_open_ok id fl r s :
  txn s = None → fs_inode (cur s) !! id = Some r →
  ∃ s', Fs.open fs id fl s = (Ok (mkFile id cs), s') ∧ cur s' = cur s ∧ txn s' = None.
Proof.
  intros Htx Hr. pose proof (no_txn_aborted s Htx) as Hab. apply (wp_ok (Fs.open fs id fl) s).
  unfold Fs.open. fs_steps. st. rewrite bool_decide_eq_true_2 by eauto. simpl. fs_steps. by st.
Qed.
Lemma fstat_ok id r s :
  txn s = None → fs_inode (cur s) !! id = Some r →
  ∃ s', fstat (mkFile id cs) s = (Ok (stats_of id r), s') ∧ cur s' = cur s ∧ txn s' = None.
Proof.
  intros Htx Hr. pose proof (no_txn_aborted s Htx) as Hab. apply (wp_ok (fstat (mkFile id cs)) s).
  unfold fstat. fs_steps. st. unfold select_stats, select_inode. simpl. rewrite Hr. fs_steps. by st.
Qed.

Lemma nfs_write_ok id offset data r s :
  0 < cs → 0 ≤ id < 2 ^ 63 → sys_inv s → fs_inode (cur s) !! id = Some r → file_wf cs (cur s) id →
  0 ≤ offset → offset + Vec.len data < 2 ^ 63 → data ≠ [] →
  ∃ r' s', Nfs.write id offset data s = (NOk (Nfs.stats_to_fattr (stats_of id r')), s') ∧ txn s' = None ∧
    fs_inode (cur s') !! id = Some r' ∧ i_mode r' = i_mode r ∧ i_uid r' = i_uid r ∧ i_gid r' = i_gid r ∧
    contents cs (cur s') id = spec_write offset data (contents cs (cur s) id) ∧ file_wf cs (cur s') id.
Proof.
  intros Hcs Hi Hinv Hr Hwf Ho Hl Hd.
  destruct (wp_intro _ _ _ (keep_open fs id libc.O_RDWR s Hinv)) as (ro & so & Hopen' & Hinvo).
  destruct (fs_open_ok id libc.O_RDWR r s (si_txn _ Hinv) Hr) as (s1 & Hopen & Hc1 & Ht1).
  assert (so = s1) as -> by congruence.
  set (f := mkFile id cs) in *. rewrite <- Hc1 in Hr, Hwf.
  destruct (wp_intro _ _ _ (wp_pwrite f offset data s1 Hcs Ht1 Hwf ltac:(eauto) Ho Hl Hd))
    as (r2 & s2 & Hw & -> & Ht2 & _ & Hcont & Hwf2 & _).
  destruct (wp_intro _ _ _ (wp_pwrite_row f offset data s1 Hcs Hinvo)) as (r3 & s3 & Hw3 & _ & Hrow).
  assert (s3 = s2) as -> by congruence. destruct (Hrow r Hr) as (r' & Hr' & Hm & Hu & Hg). simpl in Hr'.
  destruct (wp_ok (Fs.getattr id) s2 (Some (stats_of id r')) (λ s', cur s' = cur s2 ∧ txn s' = None))
    as (s4 & Hget & Hc4 & Ht4).
  { pose proof (no_txn_aborted _ Ht2). unfold Fs.getattr. fs_steps. st. by rewrite Hr'. }
  exists r', s4. rewrite Hc4. simpl in *. rewrite Hc1 in Hcont. split_and!; try done.
  unfold Nfs.write. rewrite id_ino by done.
  erewrite nbind_ok by exact (map_err_ok _ _ _ _ _ Hopen).
  erewrite nbind_ok by exact (map_err_ok _ _ _ _ _ Hw).
  by erewrite nbind_ok by exact (map_err_ok _ _ _ _ _ Hget).
Qed.
Lemma nfs_read_ok id offset count r s :
  0 < cs → 0 ≤ id < 2 ^ 63 → txn s = None → fs_inode (cur s) !! id = Some r → file_wf cs (cur s) id →
  0 ≤ offset < 2 ^ 63 → 0 ≤ count < 2 ^ 32 →
  ∃ eof s', Nfs.read id offset count s = (NOk (spec_read offset count (contents cs (cur s) id), eof), s') ∧
    cur s' = cur s ∧ txn s' = None.
Proof.
  intros Hcs Hi Htx Hr Hwf Ho Hn.
  destruct (fs_open_ok id libc.O_RDONLY r s Htx Hr) as (s1 & Hopen & Hc1 & Ht1). set (f := mkFile id cs) in *.
  rewrite <- Hc1 in Hr, Hwf.
  destruct (wp_intro _ _ _ (wp_pread f offset count s1 Hcs (no_txn_aborted _ Ht1) Hwf ltac:(lia) ltac:(lia)))
    as (rr & s2 & Hread & -> & Hc2 & Ht2 & _). rewrite <- Hc2 in Hr. rewrite Ht1 in Ht2.
  destruct (fstat_ok id r s2 Ht2 Hr) as (s3 & Hst & Hc3 & Ht3). eexists _, s3.
  rewrite Hc3, Hc2, Hc1. split; [|done]. unfold Nfs.read. rewrite id_ino by done. simpl in Hread. rewrite Hc1 in Hread.
  erewrite nbind_ok by exact (map_err_ok _ _ _ _ _ Hopen).
  erewrite nbind_ok by exact (map_err_ok _ _ _ _ _ Hread).
  by erewrite nbind_ok by exact (map_err_ok _ _ _ _ _ Hst).
Qed.

Lemma valid_fh g id : valid nfs_fh3_xdr (Nfs.id_to_fh g id).
Proof. simpl. unfold Vec.len. rewrite length_id_to_fh. lia. Qed.
Lemma fattr_owner id r r' :
  i_mode r' = i_mode r → i_uid r' = i_uid r → i_gid r' = i_gid r →
  at_mode (Nfs.stats_to_fattr (stats_of id r')) = at_mode (Nfs.stats_to_fattr (stats_of id r)) ∧
  at_uid (Nfs.stats_to_fattr (stats_of id r')) = at_uid (Nfs.stats_to_fattr (stats_of id r)) ∧
  at_gid (Nfs.stats_to_fattr (stats_of id r')) = at_gid (Nfs.stats_to_fattr (stats_of id r)).
Proof.
  intros Hm Hu Hg. unfold Nfs.stats_to_fattr, stats_of, build_stats_from_row, stats_cols. cbn.
  by rewrite Hm, Hu, Hg.
Qed.
Lemma keeps_inv_getattr id a s s' :
  0 ≤ id < 2 ^ 63 → sys_inv s → Nfs.getattr id s = (NOk a, s') → sys_inv s'.
Proof.
  intros Hi Hinv Hget. pose proof (keep_getattr id s Hinv) as Hk. unfold Nfs.getattr in Hget.
  rewrite id_ino in Hget by done. unfold mbind, N_bind, map_err in Hget. unfold wp in Hk.
  change (fs_getattr id s) with (Fs.getattr id s) in Hget.
  destruct (Fs.getattr id s) as [[o|e|] s0']; simpl in *; [|done..].
  destruct o; cbv [ok_or mret N_ret nfail] in Hget; by simplify_eq.
Qed.
(** A WRITE call that the permission bits allow. *)
Lemma proc_write_ok context xid id offset data r win s :
  let a := Nfs.stats_to_fattr (stats_of id r) in
  let args := mkWriteArgs (Nfs.id_to_fh (gennum context) id) offset (Vec.len data) 0 data in
  0 < cs → 0 ≤ gennum context < 2 ^ 64 → 0 ≤ id < 2 ^ 63 → sys_inv s →
  fs_inode (cur s) !! id = Some r → file_wf cs (cur s) id →
  0 ≤ offset → offset + Vec.len data < 2 ^ 63 → data ≠ [] → can_write (auth context) a = true →
  au_uid (auth context) = 0 ∨ has_bit (at_mode a) 0xc00 = false →
  valid WRITE3args_xdr args → serialize WRITE3args_xdr args = Some win →
  ∃ r' wout wres s1, Handlers.nfsproc3_write context xid (mkH win [] s) = (HOk tt, mkH [] wout s1) ∧
    ok_reply xid WRITE3resok_xdr wres = Some wout ∧ ws_count wres = Vec.len data ∧ txn s1 = None ∧
    fs_inode (cur s1) !! id = Some r' ∧ i_mode r' = i_mode r ∧ i_uid r' = i_uid r ∧ i_gid r' = i_gid r ∧
    contents cs (cur s1) id = spec_write offset data (contents cs (cur s) id) ∧ file_wf cs (cur s1) id.
Proof.
  intros a args Hcs Hg Hi Hinv Hr Hwf Ho Hl Hd Hw Hsuid Hv Hs.
  destruct (nfs_getattr_ok id r s Hi (si_txn _ Hinv) Hr) as (s0 & Hget & Hc0 & Ht0).
  pose proof (keeps_inv_getattr _ _ _ _ Hi Hinv Hget) as Hinv0. rewrite <- Hc0 in Hr, Hwf |- *.
  destruct (nfs_write_ok id offset data r s0 Hcs Hi Hinv0 Hr Hwf Ho Hl Hd)
    as (r' & s1 & Hwrite & Ht1 & Hr1 & Hm & Hu & Hgi & Hcont & Hwf1).
  set (a' := Nfs.stats_to_fattr (stats_of id r')) in *.
  set (wres := mkWriteRes (mkWcc (Handlers.pre_op a) (Some a')) (Vec.len data) FILE_SYNC (Nfs.serverid (gennum context))).
  destruct (send_reply (S := state) xid WRITE3resok_xdr wres _ s1 eq_refl) as (wout & Hwout & Hsend).
  exists r', wout, wres, s1. split_and!; try done.
  unfold Handlers.nfsproc3_write, Handlers.read_write. cbn [Nfs.capabilities].
  erewrite hbind_ok by exact (recv_ok _ _ _ _ _ _ Hv Hs). cbn [wr_data wr_count wr_file wr_offset args].
  rewrite Z.eqb_refl. cbn [negb]. unfold Handlers.with_fh. rewrite fh_to_id_own by lia.
  unfold Handlers.with_attr. erewrite hbind_ok by exact (vfs_ok _ _ _ _ _ _ Hget). cbv beta iota. fold a. rewrite Hw. cbn [negb].
  erewrite hbind_ok by exact (vfs_ok _ _ _ _ _ _ Hwrite). cbv beta iota.
  assert (Hns : negb (au_uid (auth context) =? 0) && has_bit (at_mode a') 0xc00 = false).
  { assert (at_mode a' = at_mode a) as -> by (by apply fattr_owner).
    destruct Hsuid as [Hz|Hz]; rewrite Hz; [done|apply andb_false_r]. }
  rewrite Hns. erewrite hbind_ok by done. exact Hsend.
Qed.
(** A READ call that the permission bits allow. *)
Lemma proc_read_ok context xid id offset count r rin s :
  let a := Nfs.stats_to_fattr (stats_of id r) in
  let args := mkReadArgs (Nfs.id_to_fh (gennum context) id) offset count in
  let data := spec_read offset count (contents cs (cur s) id) in
  0 < cs → 0 ≤ gennum context < 2 ^ 64 → 0 ≤ id < 2 ^ 63 → txn s = None →
  fs_inode (cur s) !! id = Some r → file_wf cs (cur s) id → 0 ≤ offset < 2 ^ 63 → 0 ≤ count < 2 ^ 32 →
  Vec.len data < 2 ^ 32 - 1 → can_read (auth context) a = true →
  valid READ3args_xdr args → serialize READ3args_xdr args = Some rin →
  ∃ eof rout s1, Handlers.nfsproc3_read context xid (mkH rin [] s) = (HOk tt, mkH [] rout s1) ∧
    ok_reply xid READ3resok_xdr (mkReadRes (Some a) (Vec.len data) eof data) = Some rout.
Proof.
  intros a args data Hcs Hg Hi Htx Hr Hwf Ho Hn Hld Hrd Hv Hs. pose proof (Vec.len_nonneg data).
  destruct (nfs_getattr_ok id r s Hi Htx Hr) as (s0 & Hget & Hc0 & Ht0). rewrite <- Hc0 in Hr, Hwf.
  destruct (nfs_read_ok id offset count r s0 Hcs Hi Ht0 Hr Hwf Ho Hn) as (eof & s1 & Hread & _ & _).
  rewrite Hc0 in Hread. fold data in Hread.
  assert (Hsres : is_Some (serialize READ3resok_xdr (mkReadRes (Some a) (Vec.len data) eof data))).
  { change (serialize READ3resok_xdr _) with
      (ser_app (serialize (xpair (xpair post_op_attr_xdr u32) xbool) (Some a, Vec.len data, eof)) (serialize opaque data)).
    unfold opaque, serialize at 2. rewrite (proj2 (Z.ltb_lt _ _)) by done. by eexists. }
  destruct Hsres as [bres Hsres].
  destruct (send_reply (S := state) xid READ3resok_xdr _ _ s1 Hsres) as (rout & Hrout & Hsend).
  exists eof, rout, s1. split; [|done]. unfold Handlers.nfsproc3_read.
  erewrite hbind_ok by exact (recv_ok _ _ _ _ _ _ Hv Hs). cbn [ra_file ra_offset ra_count args].
  unfold Handlers.with_fh. rewrite fh_to_id_own by lia. unfold Handlers.with_attr.
  erewrite hbind_ok by exact (vfs_ok _ _ _ _ _ _ Hget). cbv beta iota. fold a. rewrite Hrd. cbn [negb].
  erewrite hbind_ok by exact (vfs_ok _ _ _ _ _ _ Hread). cbv beta iota.
  rewrite Int.u32_small by lia. exact Hsend.
Qed.

(** C26. Over the wire: a WRITE call with a handle of the server, from a caller the permission bits
    allow it, is answered with success, and a READ call of the same range by the same caller is then
    answered with success and exactly the bytes written.  (A caller other than root who writes a
    set-uid file has its bits cleared; that case is left out here.) *)
Theorem nfs_write_read context xid xid' id offset data r s :
  let a := Nfs.stats_to_fattr (stats_of id r) in
  let fh := Nfs.id_to_fh (gennum context) id in
  0 < cs → 0 ≤ gennum context < 2 ^ 64 → 0 ≤ id < 2 ^ 63 → sys_inv s →
  fs_inode (cur s) !! id = Some r → file_wf cs (cur s) id →
  0 ≤ offset → offset + Vec.len data < 2 ^ 63 → data ≠ [] → Vec.len data < 2 ^ 32 - 1 →
  can_write (auth context) a = true → can_read (auth context) a = true →
  au_uid (auth context) = 0 ∨ has_bit (at_mode a) 0xc00 = false →
  ∃ win rin wout rout wres rattr eof s1 s2,
    serialize WRITE3args_xdr (mkWriteArgs fh offset (Vec.len data) 0 data) = Some win ∧
    serialize READ3args_xdr (mkReadArgs fh offset (Vec.len data)) = Some rin ∧
    Handlers.nfsproc3_write context xid (mkH win [] s) = (HOk tt, mkH [] wout s1) ∧
    Handlers.nfsproc3_read context xid' (mkH rin [] s1) = (HOk tt, mkH [] rout s2) ∧
    ok_reply xid WRITE3resok_xdr wres = Some wout ∧ ws_count wres = Vec.len data ∧
    ok_reply xid' READ3resok_xdr (mkReadRes (Some rattr) (Vec.len data) eof data) = Some rout.
Proof.
  intros a fh Hcs Hg Hi Hinv Hr Hwf Ho Hl Hd Hld Hw Hrd Hsuid. pose proof (Vec.len_nonneg data) as Hn.
  assert (Hvw : valid WRITE3args_xdr (mkWriteArgs fh offset (Vec.len data) 0 data)).
  { simpl. split_and!; try lia; apply (valid_fh (gennum context) id). }
  assert (Hvr : valid READ3args_xdr (mkReadArgs fh offset (Vec.len data))).
  { simpl. split_and!; try lia; apply (valid_fh (gennum context) id). }
  destruct (xdr_law (c := WRITE3args_xdr) _ Hvw) as (win & Hsw & _).
  destruct (xdr_law (c := READ3args_xdr) _ Hvr) as (rin & Hsr & _).
  destruct (proc_write_ok context xid id offset data r win s Hcs Hg Hi Hinv Hr Hwf Ho Hl Hd Hw Hsuid Hvw Hsw)
    as (r' & wout & wres & s1 & Hrunw & Hwout & Hcount & Ht1 & Hr1 & Hm & Hu & Hgi & Hcont & Hwf1).
  assert (Hdata : spec_read offset (Vec.len data) (contents cs (cur s1) id) = data).
  { by rewrite Hcont, spec_read_write. }
  assert (Hrd' : can_read (auth context) (Nfs.stats_to_fattr (stats_of id r')) = true).
  { unfold can_read. rewrite (check_permission_ext _ _ _ a); [done|by apply fattr_owner..]. }
  destruct (proc_read_ok context xid' id offset (Vec.len data) r' rin s1) as (eof & rout & s2 & Hrunr & Hrout);
    rewrite ?Hdata; try (done || lia).
  rewrite Hdata in Hrout. by exists win, rin, wout, rout, wres, (Nfs.stats_to_fattr (stats_of id r')), eof, s1, s2.
Qed.
End data.

(** ** Listing a directory page by page *)

Section pages.
Context {S : Type} {FS : FileSystem S} {D : LibcDev} (dirid max : Z).

Definition fileid (e : DirEntry) : Z := Int.u64 (st_ino (de_stats e)).
Lemma page_take start es acc k :
  Nfs.page start max false es acc k = (acc ++ take (Z.to_nat (max - Z.of_nat (length acc))) (Nfs.entry_of <$> es), k).
Proof.
  revert acc. induction es as [|e es IH]; intros acc; cbn [Nfs.page fmap list_fmap].
  { by rewrite take_nil, app_nil_r. }
  destruct (Z.leb_spec max (Z.of_nat (length acc))) as [Hm|Hm].
  - by replace (Z.to_nat (max - Z.of_nat (length acc))) with 0%nat by lia; rewrite app_nil_r.
  - rewrite IH, length_app. cbn [length].
    replace (Z.to_nat (max - Z.of_nat (length acc))) with
      (Datatypes.S (Z.to_nat (max - Z.of_nat (length acc + 1)))) by lia.
    cbn [take]. by rewrite <- app_assoc.
Qed.
Lemma page_skip start pre e post acc k :
  Forall (λ x, fileid x ≠ start) pre → fileid e = start →
  Nfs.page start max true (pre ++ e :: post) acc k =
    Nfs.page start max false post acc (k + Z.of_nat (length pre) + 1).
Proof.
  intros Hpre He. revert k. induction Hpre as [|x pre Hx Hpre IH]; intros k; cbn [app Nfs.page length].
  - fold (fileid e). rewrite He, Z.eqb_refl. cbn [negb]. f_equal. lia.
  - fold (fileid x). rewrite (proj2 (Z.eqb_neq _ _)) by done. cbn [negb]. rewrite IH. f_equal. lia.
Qed.

Context (I : S → Prop) (entries : list DirEntry).
Hypothesis Hstable : ∀ s, I s →
  ∃ s', fs_readdir_plus (Nfs.id_to_fs_ino dirid) s = (Ok (Some entries), s') ∧ I s'.
Hypothesis Hdistinct : NoDup (fileid <$> entries).
Hypothesis Hpos : Forall (λ e, 0 < fileid e) entries.
Hypothesis Hmax : 0 < max.

Lemma readdir_ok start s :
  I s → ∃ s', Nfs.readdir dirid start max s =
    (NOk (let '(res, k) := Nfs.page start max (0 <? start) entries [] 0 in
          mkReadDir res (Z.of_nat (length entries) <=? Z.of_nat (length res) + k)), s') ∧ I s'.
Proof.
  intros Hi. destruct (Hstable s Hi) as (s' & Hrun & Hi'). exists s'. split; [|done].
  unfold Nfs.readdir. erewrite nbind_ok by exact (map_err_ok _ _ _ _ _ Hrun).
  unfold ok_or, mbind, N_bind, mret, N_ret. cbv beta iota. by destruct (Nfs.page _ _ _ _ _ _).
Qed.

(** The page behind the first [k] entries. *)
Definition cookie_at (k : nat) : Z := from_option fileid 0 (entries !! pred k).
Lemma page_at k :
  (k ≤ length entries)%nat →
  Nfs.page (if decide (k = 0%nat) then 0 else cookie_at k) max
    (0 <? if decide (k = 0%nat) then 0 else cookie_at k) entries [] 0 =
  (take (Z.to_nat max) (drop k (Nfs.entry_of <$> entries)), Z.of_nat k).
Proof.
  intros Hk. destruct k as [|k].
  - rewrite decide_True by done. cbn [Z.ltb Z.compare]. rewrite page_take. cbn [app length drop].
    by rewrite Z.sub_0_r.
  - rewrite decide_False by done. unfold cookie_at. cbn [pred].
    destruct (entries !! k) as [e|] eqn:He; [|apply lookup_ge_None in He; lia]. cbn [from_option].
    pose proof (proj1 (Forall_lookup _ _) Hpos k e He) as Hp. rewrite (proj2 (Z.ltb_lt _ _)) by done.
    assert (Hsplit : entries = take k entries ++ e :: drop (Datatypes.S k) entries).
    { symmetry. by apply take_drop_middle. }
    rewrite Hsplit at 1. rewrite page_skip; [|apply Forall_lookup|done].
    + rewrite page_take. cbn [app length]. rewrite Z.sub_0_r, length_take, fmap_drop.
      f_equal. apply lookup_lt_Some in He. lia.
    + intros j x Hx Heq. apply lookup_take_Some in Hx as [Hx Hj].
      assert (k = j); [|lia]. apply (NoDup_lookup (fileid <$> entries) k j (fileid e)); [done|..];
        rewrite list_lookup_fmap, ?He, ?Hx; simpl; congruence.
Qed.

End pages.

(** *** The client *)

(** The reply to READDIRPLUS as a client reads it: the success of the call, the attributes of the directory, a
    verifier, entries each behind a [true], and whether they were the last. *)
Fixpoint read_entries (fuel : nat) (l : list byte) : option (list entryplus3 * list byte) :=
  match fuel with
  | 0%nat => None
  | Datatypes.S fuel =>
      '(more, l) ← deserialize xbool l;
      if more : bool then
        '(e, l) ← deserialize entryplus3_xdr l; '(es, l) ← read_entries fuel l; Some (e :: es, l)
      else Some ([], l)
  end.
Definition read_plus (xid : Z) (l : list byte) : option (list byte * list entryplus3 * bool) :=
  '(msg, l) ← deserialize rpc_msg_xdr l;
  '(stat, l) ← deserialize nfsstat3_xdr l;
  match msg, stat with
  | mkMsg x (REPLY (MSG_ACCEPTED (mkAccepted _ SUCCESS))), NFS3_OK =>
      '(_, l) ← deserialize post_op_attr_xdr l;
      '(verf, l) ← deserialize (fixed 8) l;
      '(es, l) ← read_entries (length l) l;
      '(eof, l) ← deserialize xbool l;
      if (x =? xid) && bool_decide (l = []) then Some (verf, es, eof) else None
  | _, _ => None
  end.

Section client.
Context {S : Type} {FS : FileSystem S} {D : LibcDev} (context : RPCContext) (xid dirid dircount maxcount : Z).

(** The client calls READDIRPLUS with the cookie of the last entry it got and the verifier that came with it,
    until the server says that it has sent the last entry. *)
Fixpoint list_plus (fuel : nat) (cookie : Z) (verf : list byte) (acc : list entryplus3) (s : S) :
    option (list entryplus3 * S) :=
  match fuel with
  | 0%nat => None
  | Datatypes.S fuel =>
      args ← serialize READDIRPLUS3args_xdr
        (mkReaddirplusArgs (Nfs.id_to_fh (gennum context) dirid) cookie verf dircount maxcount);
      match Handlers.nfsproc3_readdirplus context xid (mkH args [] s) with
      | (HOk _, h) =>
          '(verf, es, eof) ← read_plus xid (h_out h);
          if eof : bool then Some (acc ++ es, h_fs h)
          else match last es with
               | Some e => list_plus fuel (ep_cookie e) verf (acc ++ es) (h_fs h)
               | None => None
               end
      | _ => None
      end
  end.

(** An entry on the wire. *)
Definition plus_of (e : NfsEntry) : entryplus3 :=
  mkEntryPlus3 (ne_fileid e) (ne_name e) (ne_fileid e) (Some (ne_attr e))
    (Some (Nfs.id_to_fh (gennum context) (ne_fileid e))).
Definition plus_ser (e : NfsEntry) : option (list byte) :=
  ser_app (serialize xbool true) (serialize entryplus3_xdr (plus_of e)).
Definition plus_bytes (es : list NfsEntry) : option (list byte) :=
  foldr (λ e acc, ser_app (plus_ser e) acc) (Some []) es.

Lemma ser_app_some a b l : ser_app a b = Some l → ∃ x y, a = Some x ∧ b = Some y ∧ l = x ++ y.
Proof. destruct a as [x|], b as [y|]; simpl; intros [= <-]. by exists x, y. Qed.
Lemma len_fattr a b : serialize fattr3_xdr a = Some b → Vec.len b = 84.
Proof. destruct a. intros [= <-]. reflexivity. Qed.
Lemma len_post_attr a b : serialize post_op_attr_xdr (Some a) = Some b → Vec.len b = 88.
Proof.
  intros (x & y & [= <-] & Hy%len_fattr & ->)%ser_app_some. unfold Vec.len in *. rewrite length_app. simpl. lia.
Qed.
Lemma len_opaque v b : serialize opaque v = Some b → Vec.len b = 4 + Vec.len v + (4 - Vec.len v `mod` 4) `mod` 4.
Proof.
  unfold opaque, serialize. case_match; [|done]. intros Hb. apply (inj Some) in Hb as <-. unfold Vec.len, pad.
  rewrite !length_app, length_be, length_replicate. pose proof (Z.mod_pos_bound (4 - Z.of_nat (length v) `mod` 4) 4). lia.
Qed.
Lemma len_plus e b : plus_ser e = Some b → 4 ≤ Vec.len b ≤ 139 + Vec.len (ne_name e).
Proof.
  intros (t & x & [= <-] & Hx & ->)%ser_app_some.
  apply ser_app_some in Hx as (x1 & fh & (x2 & at' & (x3 & ck & (fi & nm & [= <-] & Hnm%len_opaque & ->)%ser_app_some
    & [= <-] & ->)%ser_app_some & Hat%len_post_attr & ->)%ser_app_some & Hfh & ->).
  apply ser_app_some in Hfh as (y1 & y2 & [= <-] & Hy%len_opaque & ->).
  assert (Hid : Vec.len (Nfs.id_to_fh (gennum context) (ne_fileid e)) = 16) by (unfold Vec.len; by rewrite length_id_to_fh).
  cbn [plus_of ep_name_handle] in Hy. rewrite Hid in Hy. cbn [ep_name plus_of fst snd] in Hnm. pose proof (Z.mod_pos_bound (4 - Vec.len (ne_name e) `mod` 4) 4).
  pose proof (Vec.len_nonneg (ne_name e)).
  change ((4 - 16 `mod` 4) `mod` 4) with 0 in Hy. unfold Vec.len in *. rewrite !length_app. simpl length. lia.
Qed.

(** What the loop of the handler sends: the first entries, as many as fit, at least one if the first does. *)
Lemma send_entryplus_ok start mb md es dc (h : hstate S) :
  Forall (λ e, is_Some (plus_ser e)) es →
  ∃ k bs, (k ≤ length es)%nat ∧ plus_bytes (take k es) = Some bs ∧
    Handlers.send_entryplus context start mb md dc es h =
      (HOk (bool_decide (k = length es)), mkH (h_in h) (h_out h ++ bs) (h_fs h)) ∧
    (k = 0%nat → ∀ e es', es = e :: es' → ∀ b, plus_ser e = Some b →
      ¬ (Vec.len b + (Vec.len (h_out h) - start) < mb ∧ Handlers.added_dircount (ne_name e) + dc < md)).
Proof.
  intros Hall. revert dc h. induction Hall as [|e es [b Hb] Hall IH]; intros dc h.
  { exists 0%nat, []. destruct h. simpl. rewrite app_nil_r. by split_and!. }
  cbn [Handlers.send_entryplus]. change (ser_app (serialize xbool true) _) with (plus_ser e). rewrite Hb.
  unfold unwrap, bytes_written, write_all, mbind, H_bind, mret, H_ret. cbv beta iota.
  destruct (_ && _) eqn:Hfit.
  - destruct (IH (dc + Handlers.added_dircount (ne_name e)) (mkH (h_in h) (h_out h ++ b) (h_fs h)))
      as (k & bs & Hk & Hbs & Hrun & _). exists (Datatypes.S k), (b ++ bs). cbn [h_in h_out h_fs] in Hrun.
    rewrite Hrun. split_and!; [simpl; lia| |by rewrite app_assoc; repeat f_equal; apply bool_decide_ext; simpl; lia|done].
    cbn [take plus_bytes foldr]. fold (plus_bytes (take k es)). by rewrite Hb, Hbs.
  - exists 0%nat, []. rewrite app_nil_r. destruct h. split_and!; [lia|done|done|].
    intros _ e' es' [= <- <-] b' Hb'. simplify_eq. intros [H1 H2].
    cbn [NfsHandlers.h_out] in *. apply andb_false_iff in Hfit as [Hf|Hf]; apply Z.ltb_ge in Hf; lia.
Qed.
(** And what the client reads. *)
Lemma read_entries_ok es bs z rest fuel :
  Forall (λ e, valid entryplus3_xdr (plus_of e)) es → plus_bytes es = Some bs → serialize xbool false = Some z →
  (length es < fuel)%nat → read_entries fuel (bs ++ z ++ rest) = Some (plus_of <$> es, rest).
Proof.
  intros Hv. revert bs fuel. induction Hv as [|e es He Hv IH]; intros bs fuel Hbs Hz Hf;
    (destruct fuel as [|fuel]; [simpl in Hf; lia|]); cbn [read_entries].
  - injection Hbs as <-. destruct (xdr_law (c := xbool) false I) as (z' & Hz' & Hd). rewrite Hz in Hz'. injection Hz' as <-.
    cbn [app]. by rewrite Hd.
  - apply ser_app_some in Hbs as (b & bs' & (t & b' & Ht & Hb' & ->)%ser_app_some & Hbs & ->).
    destruct (xdr_law (c := xbool) true I) as (t' & Ht' & Hdt). rewrite Ht in Ht'. injection Ht' as <-.
    destruct (xdr_law (c := entryplus3_xdr) _ He) as (x & Hx & Hdx). rewrite Hb' in Hx. injection Hx as <-.
    rewrite <- !app_assoc, Hdt. cbn [mbind option_bind]. rewrite Hdx. cbn [mbind option_bind].
    rewrite (IH bs' fuel Hbs Hz) by (simpl in Hf; lia). done.
Qed.
Lemma len_plus_bytes es bs : plus_bytes es = Some bs → (length es ≤ length bs)%nat.
Proof.
  revert bs. induction es as [|e es IH]; intros bs Hbs; [simpl; lia|].
  apply ser_app_some in Hbs as (b & bs' & Hb%len_plus & Hbs%IH & ->). rewrite length_app. unfold Vec.len in Hb.
  simpl. lia.
Qed.
Lemma valid_success : 0 ≤ xid < 2 ^ 32 → valid rpc_msg_xdr (make_success_reply xid).
Proof. intros Hx. simpl. split_and!; try done; lia. Qed.
(** A whole reply, read back. *)
Lemma read_plus_ok attr verf es bs eof :
  0 ≤ xid < 2 ^ 32 → valid fattr3_xdr attr → length verf = 8%nat →
  Forall (λ e, valid entryplus3_xdr (plus_of e)) es → plus_bytes es = Some bs →
  ∃ m st a z ef, serialize rpc_msg_xdr (make_success_reply xid) = Some m ∧ serialize nfsstat3_xdr NFS3_OK = Some st ∧
    serialize post_op_attr_xdr (Some attr) = Some a ∧ serialize xbool false = Some z ∧ serialize xbool eof = Some ef ∧
    Vec.len m + Vec.len st + Vec.len a + Vec.len verf = 124 ∧
    read_plus xid (m ++ st ++ a ++ verf ++ bs ++ z ++ ef) = Some (verf, plus_of <$> es, eof).
Proof.
  intros Hx Ha Hl Hv Hbs.
  destruct (xdr_law (c := rpc_msg_xdr) _ (valid_success Hx)) as (m & Hm & Hdm).
  destruct (xdr_law (c := nfsstat3_xdr) NFS3_OK I) as (st & Hst & Hdst).
  destruct (xdr_law (c := post_op_attr_xdr) (Some attr) Ha) as (a & Ha' & Hda).
  destruct (xdr_law (c := xbool) false I) as (z & Hz & _).
  destruct (xdr_law (c := xbool) eof I) as (ef & Hef & Hdef).
  exists m, st, a, z, ef. split_and!; try done.
  - assert (Vec.len m = 24) as -> by (injection Hm as <-; reflexivity).
    assert (Vec.len st = 4) as -> by (injection Hst as <-; reflexivity).
    rewrite (len_post_attr _ _ Ha'). unfold Vec.len. lia.
  - unfold read_plus. rewrite Hdm. cbn [mbind option_bind]. rewrite Hdst. cbn [mbind option_bind].
    unfold make_success_reply, accepted. rewrite Hda. cbn [mbind option_bind].
    destruct (xdr_law (c := fixed 8) verf Hl) as (v & Hv' & Hdv). apply (inj Some) in Hv' as <-.
    rewrite Hdv. cbn [mbind option_bind].
    rewrite (read_entries_ok es bs z ef) by (done || (pose proof (len_plus_bytes _ _ Hbs);
      assert (length z = 4%nat) by (injection Hz as <-; reflexivity); rewrite !length_app; lia)).
    cbn [mbind option_bind]. specialize (Hdef []). rewrite app_nil_r in Hdef. rewrite Hdef. cbn [mbind option_bind].
    by rewrite Z.eqb_refl.
Qed.

(** A READDIRPLUS call of a caller that may read the directory, when every entry of the page would fit a reply
    alone: the reply holds a beginning of the page, not an empty one if the page is not. *)
Lemma readdirplus_reply args b attr res fin (s s1 s2 : S) :
  0 ≤ xid < 2 ^ 32 → rp_maxcount args < 2 ^ 32 →
  valid READDIRPLUS3args_xdr args → serialize READDIRPLUS3args_xdr args = Some b →
  Nfs.fh_to_id (gennum context) (rp_dir args) = inr dirid → valid fattr3_xdr attr →
  can_read (auth context) attr = true → Nfs.getattr dirid s = (NOk attr, s1) →
  Nfs.readdir dirid (rp_cookie args) (rp_dircount args `div` 16) s1 = (NOk (mkReadDir res fin), s2) →
  Forall (λ e, valid entryplus3_xdr (plus_of e)) res →
  Forall (λ e, Vec.len (ne_name e) + 391 < rp_maxcount args ∧ Vec.len (ne_name e) + 20 < rp_dircount args) res →
  ∃ k out, (k ≤ length res)%nat ∧ (res ≠ [] → (0 < k)%nat) ∧
    Handlers.nfsproc3_readdirplus context xid (mkH b [] s) = (HOk tt, mkH [] out s2) ∧
    read_plus xid out = Some (Handlers.dirversion attr, plus_of <$> take k res, bool_decide (k = length res) && fin).
Proof.
  intros Hx Hmax Hva Hb Hfh Hattr Hcan Hget Hrd Hv Hfit.
  assert (Hver : length (Handlers.dirversion attr) = 8%nat) by apply length_be.
  destruct (read_plus_ok attr (Handlers.dirversion attr) [] [] true Hx Hattr Hver (Forall_nil_2 _) eq_refl)
    as (m & st & at' & z & _ & Hm & Hst & Hat & Hz & _ & Hhead & _).
  set (out0 := ((([] ++ m) ++ st) ++ at') ++ Handlers.dirversion attr).
  destruct (send_entryplus_ok 0 (Int.u64 (rp_maxcount args - 128)) (rp_dircount args) res 0 (mkH [] out0 s2))
    as (k & bs & Hk & Hbs & Hsend & Hprog).
  { eapply Forall_impl; [exact Hv|]. intros e He.
    destruct (xdr_law (c := entryplus3_xdr) _ He) as (x & Hsx & _). unfold plus_ser. rewrite Hsx. by eexists. }
  set (eof := bool_decide (k = length res) && fin).
  destruct (read_plus_ok attr (Handlers.dirversion attr) (take k res) bs eof Hx Hattr Hver (Forall_take _ _ _ Hv) Hbs)
    as (m' & st' & a' & z' & ef & Hm' & Hst' & Ha' & Hz' & Hef & _ & Hread).
  simplify_eq. exists k, (((out0 ++ bs) ++ z) ++ ef). split_and!; [done| | |].
  - intros Hne. destruct res as [|e res]; [done|]. destruct k; [exfalso|lia].
    apply Forall_cons in Hv as [Hve _], Hfit as [[Hn1 Hn2] _].
    destruct (xdr_law (c := entryplus3_xdr) _ Hve) as (x & Hsx & _).
    assert (Hp : plus_ser e = Some (be_bytes 4 1 ++ x)) by (unfold plus_ser; by rewrite Hsx).
    apply (Hprog eq_refl e res eq_refl _ Hp). pose proof (len_plus e _ Hp). cbn [h_out]. unfold Handlers.added_dircount.
    assert (Vec.len out0 = 124) by (unfold out0, Vec.len in *; rewrite !length_app; simpl length; lia).
    pose proof (Vec.len_nonneg (ne_name e)). rewrite Int.u64_small by lia. lia.
  - unfold Handlers.nfsproc3_readdirplus. erewrite hbind_ok by exact (recv_ok _ _ _ _ _ _ Hva Hb).
    unfold Handlers.with_fh. rewrite Hfh. unfold Handlers.with_attr.
    erewrite hbind_ok by exact (vfs_ok _ _ _ _ _ _ Hget). cbv beta iota. rewrite Hcan. cbn [negb].
    erewrite hbind_ok by exact (vfs_ok _ _ _ _ _ _ Hrd). cbv beta iota. cbn [rd_entries rd_end].
    erewrite hbind_ok by reflexivity. cbn [h_out].
    erewrite hbind_ok.
    2:{ unfold Handlers.status. erewrite hbind_ok by exact (send_ok _ _ _ _ _ _ Hm). exact (send_ok _ _ _ _ _ _ Hst). }
    erewrite hbind_ok by exact (send_ok _ _ _ _ _ _ Hat). erewrite hbind_ok by (by apply send_ok).
    fold out0. erewrite hbind_ok by exact Hsend. cbn [h_in h_out h_fs].
    erewrite hbind_ok by exact (send_ok _ _ _ _ _ _ Hz).
    replace (if bool_decide (k = length res) then fin else false) with eof by (unfold eof; by destruct (bool_decide _)).
    exact (send_ok _ _ _ _ _ _ Hef).
  - etrans; [|exact Hread]. f_equal. unfold out0. by rewrite <- !app_assoc.
Qed.
End client.

(** *** The theorem *)

Section listing.
Context {E : Env} {HQ : Quiet E} {D : LibcDev} (fs : SecAFS).
#[local] Instance listed_fs : FileSystem state := secafs_fs fs.
Context (context : RPCContext) (xid dirid dircount maxcount : Z).
Implicit Types s : state.

Definition name_len (e : DirEntry) : Z := Vec.len (String.list_byte_of_string (de_name e)).

Lemma valid_fattr_stats i r : valid fattr3_xdr (Nfs.stats_to_fattr (stats_of i r)).
Proof.
  assert (H32 : ∀ x, 0 ≤ Int.u32 x < 256 ^ 4) by (intros; apply Z.mod_pos_bound; lia).
  assert (H64 : ∀ x, 0 ≤ Int.u64 x < 256 ^ 8) by (intros; apply Z.mod_pos_bound; lia).
  assert (Hland : ∀ x, 0 ≤ Z.land x 0xfff < 256 ^ 4).
  { intros x. change 0xfff with (Z.ones 12). rewrite Z.land_ones by lia.
    pose proof (Z.mod_pos_bound x (2 ^ 12)). lia. }
  unfold Nfs.stats_to_fattr, stats_of, build_stats_from_row. cbn -[Z.pow Z.land Int.u32 Int.u64].
  split_and!; try (apply H32 || apply H64 || apply Hland); try done; lia.
Qed.

Section page.
Context (d : db) (r : inode).
Abbreviation es := (listed_plus dirid d).
Abbreviation a := (Nfs.stats_to_fattr (stats_of dirid r)).
Hypothesis Hxid : 0 ≤ xid < 2 ^ 32.
Hypothesis Hgen : 0 ≤ gennum context < 2 ^ 64.
Hypothesis Hid : 0 ≤ dirid < 2 ^ 63.
Hypothesis Hrow : fs_inode d !! dirid = Some r.
Hypothesis Hdir : dir_row (fs_inode d) dirid.
Hypothesis Hread : can_read (auth context) a = true.
Hypothesis Hdc : dircount < 2 ^ 32.
Hypothesis Hmc : maxcount < 2 ^ 32.
Hypothesis Hroom : 391 < maxcount ∧ 20 < dircount.
Hypothesis Hfit : Forall (λ e, name_len e + 391 < maxcount ∧ name_len e + 20 < dircount) es.
Hypothesis Hdistinct : NoDup (fileid <$> es).
Hypothesis Hpos : Forall (λ e, 0 < fileid e) es.

Lemma valid_listed : Forall (λ e, valid entryplus3_xdr (plus_of context e)) (Nfs.entry_of <$> es).
Proof.
  apply Forall_fmap, Forall_forall. intros e He. rewrite Forall_forall in Hfit. specialize (Hfit e He) as [Hn _].
  apply elem_of_listed_plus in He as (i & r' & _ & _ & _ & Hst).
  assert (H64 : ∀ x, 0 ≤ Int.u64 x < 256 ^ 8) by (intros; apply Z.mod_pos_bound; lia).
  unfold plus_of, Nfs.entry_of. cbn -[Z.pow Int.u64 fattr3_xdr Nfs.stats_to_fattr]. rewrite Hst.
  split_and!; try apply H64; [|apply valid_fattr_stats|apply valid_fh]. unfold name_len in Hn. lia.
Qed.

(** One call of the client: the page starts behind the first [j] entries, makes progress, and says so when it
    reaches the end. *)
Lemma readdirplus_page j verf s :
  (j ≤ length es)%nat → length verf = 8%nat → txn s = None → cur s = d →
  let cookie := if decide (j = 0%nat) then 0 else cookie_at es j in
  ∃ args out s' k, serialize READDIRPLUS3args_xdr
      (mkReaddirplusArgs (Nfs.id_to_fh (gennum context) dirid) cookie verf dircount maxcount) = Some args ∧
    Handlers.nfsproc3_readdirplus context xid (mkH args [] s) = (HOk tt, mkH [] out s') ∧ txn s' = None ∧ cur s' = d ∧
    read_plus xid out = Some (Handlers.dirversion a,
      plus_of context <$> take k (drop j (Nfs.entry_of <$> es)), bool_decide (j + k = length es)%nat) ∧
    (j + k ≤ length es)%nat ∧ ((j < length es)%nat → (0 < k)%nat).
Proof.
  intros Hj Hverf Htx Hcur cookie. set (les := Nfs.entry_of <$> es).
  assert (Hlen : length les = length es) by apply length_fmap.
  set (args := mkReaddirplusArgs (Nfs.id_to_fh (gennum context) dirid) cookie verf dircount maxcount).
  assert (Hva : valid READDIRPLUS3args_xdr args).
  { simpl. split_and!; try (done || lia || apply valid_fh); unfold cookie, cookie_at;
      (case_decide; [lia|]); destruct (es !! pred j) as [e|]; simpl; try lia;
      pose proof (Z.mod_pos_bound (st_ino (de_stats e)) (2 ^ 64)); unfold fileid, Int.u64; lia. }
  destruct (xdr_law (c := READDIRPLUS3args_xdr) _ Hva) as (b & Hb & _).
  destruct (nfs_getattr_ok fs dirid r s Hid Htx) as (s1 & Hget & Hc1 & Ht1); [by rewrite Hcur|].
  set (est := dircount `div` 16). assert (Hest : 1 ≤ est) by (apply Z.div_le_lower_bound; lia).
  destruct (readdir_ok dirid est (λ s', txn s' = None ∧ cur s' = d) es) with (start := cookie) (s := s1)
    as (s2 & Hrd & Ht2 & Hc2).
  { intros s0 [Ht0 Hc0]. rewrite id_ino by done. rewrite <- Hc0 in Hdir.
    destruct (wp_intro _ _ _ (wp_readdir_plus dirid s0 Ht0 Hdir)) as (r0 & s0' & Hrun & -> & Hc0' & Ht0').
    exists s0'. rewrite Hc0 in Hrun. split; [exact Hrun|]. split; [done|congruence]. }
  { split; [done|congruence]. }
  unfold cookie in Hrd. rewrite page_at in Hrd by done. fold cookie les in Hrd. cbv zeta in Hrd.
  set (res := take (Z.to_nat est) (drop j les)) in *.
  assert (Hres : ∀ P, Forall P les → Forall P res) by (intros P HP; by apply Forall_take, Forall_drop).
  destruct (readdirplus_reply context xid dirid args b a res
    (Z.of_nat (length es) <=? Z.of_nat (length res) + Z.of_nat j) s s1 s2 Hxid Hmc Hva Hb) as (k & out & Hk & Hprog & Hrun & Hread');
    [by apply fh_to_id_own; lia|apply valid_fattr_stats|done|done|exact Hrd|apply Hres, valid_listed| |].
  { apply Hres, Forall_fmap. exact Hfit. }
  assert (Hlr : length res = (Z.to_nat est `min` (length es - j))%nat).
  { unfold res. by rewrite length_take, length_drop, Hlen. }
  exists b, out, s2, k. split_and!; [done|done|done|done| |lia|].
  - assert (take k res = take k (drop j les)) as Htk by (unfold res in *; rewrite take_take; f_equal; lia).
    rewrite Hread', Htk. do 2 f_equal.
    destruct (Z.leb_spec (Z.of_nat (length es)) (Z.of_nat (length res) + Z.of_nat j));
      repeat case_bool_decide; try done; lia.
  - intros Hlt. apply Hprog. intros Hnil. apply (f_equal length) in Hnil. simpl in Hnil. lia.
Qed.

(** The client's loop from the [j]-th entry on. *)
Lemma list_plus_rest fuel j verf s :
  (j ≤ length es)%nat → length verf = 8%nat → txn s = None → cur s = d → (length es - j < fuel)%nat →
  ∃ s', list_plus context xid dirid dircount maxcount fuel (if decide (j = 0%nat) then 0 else cookie_at es j) verf
      (plus_of context <$> take j (Nfs.entry_of <$> es)) s = Some (plus_of context <$> (Nfs.entry_of <$> es), s') ∧
    cur s' = d.
Proof.
  revert j verf s. induction fuel as [|fuel IH]; intros j verf s Hj Hverf Htx Hcur Hf; [lia|].
  destruct (readdirplus_page j verf s Hj Hverf Htx Hcur) as (args & out & s' & k & Hs & Hrun & Ht' & Hc' & Hrd & Hk & Hprog).
  cbn [list_plus]. rewrite Hs. cbn [mbind option_bind]. rewrite Hrun. cbn [h_out h_fs]. rewrite Hrd. cbn [mbind option_bind].
  set (les := Nfs.entry_of <$> es) in *. assert (Hlen : length les = length es) by apply length_fmap.
  rewrite <- fmap_app, take_take_drop. case_bool_decide as Hend.
  - exists s'. by rewrite Hend, <- Hlen, firstn_all.
  - specialize (Hprog ltac:(lia)).
    destruct (last (plus_of context <$> take k (drop j les))) as [e|] eqn:Hlast.
    2:{ apply last_None, fmap_nil_inv, (f_equal length) in Hlast. rewrite length_take, length_drop in Hlast. simpl in Hlast. lia. }
    destruct (IH (j + k)%nat (Handlers.dirversion a) s') as (s'' & Hrec & Hc''); [lia|apply length_be|done|done|lia|].
    exists s''. split; [|done]. rewrite decide_False in Hrec by lia. rewrite <- Hrec. do 2 f_equal.
    rewrite fmap_last in Hlast. apply fmap_Some in Hlast as (x & Hx & ->). rewrite last_lookup in Hx.
    apply lookup_take_Some in Hx as [Hx _]. rewrite lookup_drop, length_take, length_drop, Hlen in Hx.
    replace (j + pred (k `min` (length es - j)))%nat with (pred (j + k)) in Hx by lia.
    unfold cookie_at. unfold les in Hx. rewrite list_lookup_fmap in Hx. by destruct (es !! pred (j + k)); simplify_eq/=.
Qed.
End page.

(** C25. A client lists a directory of SecAFS over the wire with READDIRPLUS: it sends the first call with cookie 0,
    each later one with the cookie of the last entry it got, and decodes the replies, until one says that it
    is the last. If the caller may read the directory, nothing changes meanwhile, no two of its names are
    links to one file, and the two limits of the calls leave room for any single entry (its name and 391
    bytes in [maxcount], its name and 20 bytes in [dircount]), it has after at most one call more than there
    are entries got every entry of the directory once and in order, with its attributes and handle. *)
Theorem nfs_readdirplus_complete r s :
  let es := listed_plus dirid (cur s) in
  0 ≤ xid < 2 ^ 32 → 0 ≤ gennum context < 2 ^ 64 → 0 ≤ dirid < 2 ^ 63 → txn s = None →
  fs_inode (cur s) !! dirid = Some r → is_dir r = true →
  can_read (auth context) (Nfs.stats_to_fattr (stats_of dirid r)) = true →
  391 < maxcount < 2 ^ 32 → 20 < dircount < 2 ^ 32 →
  Forall (λ e, name_len e + 391 < maxcount ∧ name_len e + 20 < dircount) es →
  NoDup (fileid <$> es) → Forall (λ e, 0 < fileid e) es →
  ∃ s', list_plus context xid dirid dircount maxcount (Datatypes.S (length es)) 0 (replicate 8 x00) [] s =
    Some (plus_of context <$> (Nfs.entry_of <$> es), s') ∧ cur s' = cur s.
Proof.
  intros es Hx Hg Hi Htx Hr Hd Hcan Hmc Hdc Hfit Hnd Hpos.
  apply (list_plus_rest (cur s) r) with (j := 0%nat); try (done || lia); [by exists r|fold es; lia].
Qed.
End listing.

(** ** Witnesses *)

#[local] Existing Instances demo_served linux_dev.

(** The directory [/d] of the sample, one entry at a time. *)
Lemma nfs_readdirplus_complete_witness :
  ∃ es s', list_plus (demo_context 0) 7 3 23 4096 3 0 (replicate 8 x00) [] demo = Some (es, s') ∧
    ep_name <$> es = [[x65]; [x68]].
Proof.
  destruct (nfs_readdirplus_complete (mkSecAFS 4096) (demo_context 0) 7 3 23 4096
    (new_inode DEFAULT_DIR_MODE 3 0 0 0 0 (0, 0)) demo) as (s' & Hrun & _);
    [lia|simpl; lia|lia|done|by vm_compute|by vm_compute|by vm_compute|lia|lia
    |by apply (bool_decide_unpack _); vm_compute|by apply (bool_decide_unpack _); vm_compute
    |by apply (bool_decide_unpack _); vm_compute|].
  eexists _, s'. split; [exact Hrun|]. by vm_compute.
Defined.

Lemma nfs_write_read_witness :
  ∃ win rin wout rout wres rattr eof s1 s2,
    serialize WRITE3args_xdr (mkWriteArgs (demo_fh 2) 1 2 0 [x31; x32]) = Some win ∧
    serialize READ3args_xdr (mkReadArgs (demo_fh 2) 1 2) = Some rin ∧
    Handlers.nfsproc3_write (demo_context 0) 5 (mkH win [] demo) = (HOk tt, mkH [] wout s1) ∧
    Handlers.nfsproc3_read (demo_context 0) 6 (mkH rin [] s1) = (HOk tt, mkH [] rout s2) ∧
    ok_reply 5 WRITE3resok_xdr wres = Some wout ∧ ws_count wres = 2 ∧
    ok_reply 6 READ3resok_xdr (mkReadRes (Some rattr) 2 eof [x31; x32]) = Some rout.
Proof.
  apply (nfs_write_read (mkSecAFS 4096) (demo_context 0) 5 6 2 1 [x31; x32]
    (new_inode DEFAULT_FILE_MODE 1 0 0 3 0 (0, 0)) demo);
    [simpl; lia|simpl; lia|lia|apply demo_inv|by vm_compute|by apply file_wf_b_sound; vm_compute|lia
    |vm_compute; intuition discriminate|discriminate|by vm_compute|by vm_compute|by vm_compute|by left].
Defined.

(** * The NFS server: defects

    Behaviour the code surely does not mean to have, stated on the sample server. *)

#[local] Open Scope string_scope.
#[local] Open Scope list_scope.
#[local] Open Scope Z_scope.
#[local] Existing Instances demo_served linux_dev.

(** The chunk of [/f] and its mode after a call. *)
Definition file_data (s : @state calm_env) : option (list byte) := fs_data (cur s) !! (2, 0).
Definition file_mode (s : @state calm_env) : option Z := i_mode <$> fs_inode (cur s) !! 2.
(** A procedure run by a user, on the bytes of its arguments. *)
Definition run_nfs (uid proc : Z) (args : list byte) (s : @state calm_env) : hres unit * hstate (@state calm_env) :=
  Handlers.handle_nfs (demo_context uid) 9 (demo_call proc opaque_auth_default) (mkH args [] s).
Definition setattr_bytes (id : Z) (a : sattr3) (guard : option nfstime3) : list byte :=
  bytes SETATTR3args_xdr (mkSetattrArgs (demo_fh id) a guard).
Definition success_bytes : list byte := bytes rpc_msg_xdr (make_success_reply 9).

(** A caller that sends no credentials is root: the context starts with [auth_unix::default()], whose
    uid is zero.  The same call with the credentials of an ordinary user is refused. *)
Example no_credentials_is_root :
  let start := mkContext 2049 auth_unix_default [x2f] 77 in
  let after cred := (Server.handle_rpc (demo_tracking 0) start ∅ (call_bytes 7 cred demo_write) demo).2 in
  file_data (after opaque_auth_default) = Some [x31; x32; x63] ∧
  file_data (after (unix_cred 1000)) = Some [x61; x62; x63].
Proof. by vm_compute. Qed.

(** SETATTR with a guard that does not match: the refusal is written, but the attributes are set all the
    same, and a second reply follows in the same record. *)
Example setattr_guard_ignored :
  let r := run_nfs 0 2 (setattr_bytes 2 (with_mode (Some 0) sattr3_default) (Some (mkTime 1 1))) demo in
  file_mode (h_fs r.2) = Some S_IFREG ∧
  take 28 (h_out r.2) = success_bytes ++ bytes nfsstat3_xdr NFS3ERR_NOT_SYNC ∧
  take 28 (drop 36 (h_out r.2)) = success_bytes ++ bytes nfsstat3_xdr NFS3_OK.
Proof. by vm_compute. Qed.

(** A user who does not own a set-uid file takes its bit away, by setting the owner to what it is. *)
Example stranger_clears_suid :
  let owned := h_fs (run_nfs 0 2 (setattr_bytes 2 (with_mode (Some 0x9ed) sattr3_default) None) demo).2 in
  let same_owner := mkSattr None (Some 0) None None DONT_CHANGE DONT_CHANGE in
  file_mode owned = Some (Z.lor S_IFREG 0x9ed) ∧
  file_mode (h_fs (run_nfs 1000 2 (setattr_bytes 2 same_owner None) owned).2) = Some (Z.lor S_IFREG 0x1ed).
Proof. by vm_compute. Qed.

(** Setting the times to the server's clock is refused to nobody, with or without write permission. *)
Theorem server_time_unchecked context attr :
  Handlers.setattr_refused context attr (mkSattr None None None None SET_TO_SERVER_TIME SET_TO_SERVER_TIME) = None.
Proof. done. Qed.

(** RMDIR of a file removes it, REMOVE of an empty directory too. *)
Example rmdir_removes_file :
  let gone proc p n := fs_dentry (cur (h_fs (run_nfs 0 proc (bytes diropargs3_xdr (mkDirop (demo_fh p) n)) demo).2)) in
  gone 13 1 [x66] !! (1, "f") = None ∧ gone 12 3 [x65] !! (3, "e") = None.
Proof. by vm_compute. Qed.

(** With two links to one file in a directory, a client that reads one entry at a time comes back to
    the first of them for ever. *)
Definition linked : @state calm_env := (Fs.link 5 1 "a" demo).2.
Example hard_links_list_forever :
  fst <$> list_plus (demo_context 0) 7 1 23 4096 64 0 (replicate 8 x00) [] linked = None.
Proof. by vm_compute. Qed.

(** When the last entry of a page is removed before the next page is read, the rest of the listing is
    lost: an empty last page. *)
Example removed_cookie_loses_rest :
  let page s start := match (Nfs.readdir 1 start 2 s).1 with
                      | NOk r => Some (ne_fileid <$> rd_entries r, rd_end r) | _ => None end in
  page demo 0 = Some ([3; 2], false) ∧
  page (Nfs.remove 1 [x66] demo).2 2 = Some ([], true).
Proof. by vm_compute. Qed.

(** READDIR does not look at the cookie: it starts from the beginning whatever was read before. *)
Theorem readdir_ignores_cookie {S} {FS : FileSystem S} {D : LibcDev} context xid args args' b b' out (s : S) :
  valid READDIR3args_xdr args → valid READDIR3args_xdr args' →
  serialize READDIR3args_xdr args = Some b → serialize READDIR3args_xdr args' = Some b' →
  rda_dir args' = rda_dir args → rda_dircount args' = rda_dircount args →
  Handlers.nfsproc3_readdir context xid (mkH b out s) = Handlers.nfsproc3_readdir context xid (mkH b' out s).
Proof.
  intros Hv Hv' Hs Hs' Hd Hc. unfold Handlers.nfsproc3_readdir.
  erewrite hbind_ok by exact (recv_ok _ _ _ _ _ _ Hv Hs). erewrite (hbind_ok (recv _) _ (mkH b' out s)) by exact (recv_ok _ _ _ _ _ _ Hv' Hs').
  by rewrite Hd, Hc.
Qed.

(** A [maxcount] under 128 wraps around to no limit at all: twenty-seven bytes are asked for and the
    whole directory is sent. *)
Example small_maxcount_is_no_limit :
  let args := mkReaddirplusArgs (demo_fh 1) 0 (replicate 8 x00) 4096 27 in
  (600 <=? Vec.len (h_out (run_nfs 0 17 (bytes READDIRPLUS3args_xdr args) demo).2)) = true.
Proof. by vm_compute. Qed.
