(* ===== verification/FdTable.v ===== *)
(** * The sandbox: file descriptors

    The table of a sandboxed process ([sandbox/src/vfs/fdtable.rs]): the descriptors the process sees, what
    each stands for, and which number comes next. *)

From S2P Require Import Prelude.

#[local] Open Scope list_scope.
#[local] Open Scope Z_scope.

Definition I32_MAX : Z := 2 ^ 31 - 1.
Definition STDIN_FILENO : Z := 0.
Definition STDOUT_FILENO : Z := 1.
Definition STDERR_FILENO : Z := 2.
Definition FIRST_USER_FD : Z := 3.

(** [F] is the type of [Arc<dyn FileOps>]; a path is its bytes. *)
Inductive FdEntry (F : Type) :=
  | Passthrough (kernel_fd flags : Z) (path : option (list byte))
  | Virtual (file_ops : F) (flags : Z) (path : option (list byte)).
Arguments Passthrough {F} kernel_fd flags path.
Arguments Virtual {F} file_ops flags path.

Section entry.
Context {F : Type}.
Definition kernel_fd (e : FdEntry F) : option Z :=
  match e with Passthrough k _ _ => Some k | Virtual _ _ _ => None end.
Definition flags (e : FdEntry F) : Z :=
  match e with Passthrough _ f _ => f | Virtual _ f _ => f end.
Definition path (e : FdEntry F) : option (list byte) :=
  match e with Passthrough _ _ p => p | Virtual _ _ p => p end.
Definition file_ops (e : FdEntry F) : option F :=
  match e with Passthrough _ _ _ => None | Virtual f _ _ => Some f end.
End entry.

(** [BinaryHeap<Reverse<i32>>]: the elements in the order in which [pop] returns them. *)
Record FdTableInner (F : Type) := mkTable {
  entries : gmap Z (FdEntry F);
  next_vfd : Z;
  free_fds : list Z
}.
Arguments mkTable {F} entries next_vfd free_fds.
Arguments entries {F} _.
Arguments next_vfd {F} _.
Arguments free_fds {F} _.

(** [BinaryHeap::push] *)
Fixpoint push (x : Z) (h : list Z) : list Z :=
  match h with
  | [] => [x]
  | y :: h' => if x <=? y then x :: h else y :: push x h'
  end.

Module FdTable.
Section table.
Context {F : Type}.
Abbreviation FdEntry := (FdEntry F).
Abbreviation FdTableInner := (FdTableInner F).

Definition standard (fd : Z) : FdEntry := Passthrough fd 0 None.
Definition new : FdTableInner :=
  mkTable (<[STDERR_FILENO := standard STDERR_FILENO]> (<[STDOUT_FILENO := standard STDOUT_FILENO]>
    (<[STDIN_FILENO := standard STDIN_FILENO]> ∅))) FIRST_USER_FD [].

(** [(fd..i32::MAX).find(|fd| !inner.entries.contains_key(fd))]; one of as many numbers as there are
    entries, and one more, is free. *)
Fixpoint find_free (fuel : nat) (fd : Z) (m : gmap Z FdEntry) : option Z :=
  match fuel with
  | 0%nat => None
  | S fuel =>
      if I32_MAX <=? fd then None
      else match m !! fd with None => Some fd | Some _ => find_free fuel (fd + 1) m end
  end.
Definition find (fd : Z) (m : gmap Z FdEntry) : option Z := find_free (S (size m)) fd m.

(** [None] is the panic of [expect]. *)
Definition allocate (entry : FdEntry) (t : FdTableInner) : option (Z * FdTableInner) :=
  match free_fds t with
  | free_fd :: rest => Some (free_fd, mkTable (<[free_fd:=entry]> (entries t)) (next_vfd t) rest)
  | [] =>
      let vfd := next_vfd t in
      if vfd =? I32_MAX then
        vfd ← find FIRST_USER_FD (entries t);
        Some (vfd, mkTable (<[vfd:=entry]> (entries t)) (next_vfd t) [])
      else Some (vfd, mkTable (<[vfd:=entry]> (entries t)) (Int.i32 (vfd + 1)) [])
  end.

(** The loop that frees the numbers skipped by an allocation at [vfd]. *)
Definition push_gaps (vfd : Z) (t : FdTableInner) : list Z :=
  foldl (λ h fd, if (FIRST_USER_FD <=? fd) && bool_decide (entries t !! fd = None) then push fd h else h)
    (free_fds t) (seqZ (next_vfd t) (vfd - next_vfd t)).
Definition advance (vfd : Z) (t : FdTableInner) : FdTableInner :=
  if next_vfd t <=? vfd then mkTable (entries t) (Int.i32 (vfd + 1)) (push_gaps vfd t) else t.
Definition unfree (vfd : Z) (t : FdTableInner) : FdTableInner :=
  mkTable (entries t) (next_vfd t) (filter (.≠ vfd) (free_fds t)).
Definition set_entry (vfd : Z) (entry : FdEntry) (t : FdTableInner) : FdTableInner :=
  mkTable (<[vfd:=entry]> (entries t)) (next_vfd t) (free_fds t).

Definition allocate_min (min_vfd : Z) (entry : FdEntry) (t : FdTableInner) : option (Z * FdTableInner) :=
  vfd ← find min_vfd (entries t);
  Some (vfd, set_entry vfd entry (unfree vfd (advance vfd t))).
(** The entry that was there, and the table. *)
Definition allocate_at (vfd : Z) (entry : FdEntry) (t : FdTableInner) : option FdEntry * FdTableInner :=
  (entries t !! vfd, set_entry vfd entry (advance vfd (unfree vfd t))).

Definition get (vfd : Z) (t : FdTableInner) : option FdEntry := entries t !! vfd.
Definition translate (vfd : Z) (t : FdTableInner) : option Z := e ← entries t !! vfd; kernel_fd e.
Definition deallocate (vfd : Z) (t : FdTableInner) : option FdEntry * FdTableInner :=
  match entries t !! vfd with
  | None => (None, t)
  | Some entry =>
      (Some entry, mkTable (delete vfd (entries t)) (next_vfd t)
        (if FIRST_USER_FD <=? vfd then push vfd (free_fds t) else free_fds t))
  end.
Definition duplicate (old_vfd : Z) (t : FdTableInner) : option (option Z * FdTableInner) :=
  match get old_vfd t with
  | None => Some (None, t)
  | Some entry => '(v, t) ← allocate entry t; Some (Some v, t)
  end.
Definition duplicate_at (old_vfd new_vfd : Z) (t : FdTableInner) : option FdEntry * FdTableInner :=
  match get old_vfd t with
  | None => (None, t)
  | Some entry => allocate_at new_vfd entry t
  end.
End table.
End FdTable.
