(* ===== verification/FdThms.v ===== *)
(** * The sandbox: the table of descriptors gives out the lowest free number

    The specification keeps no counter and no free list: a new descriptor is the lowest number from 3 on that
    is not open, which is POSIX's as long as the three standard streams are.  Every sequence of operations on the table of [sandbox/src/vfs/fdtable.rs] is one of the
    specification, up to the panic when no number is left. *)

From S2P Require Import Prelude FdTable.

#[local] Open Scope list_scope.
#[local] Open Scope Z_scope.

(** ** The priority queue *)

Lemma elem_of_push x y h : x ∈ push y h ↔ x = y ∨ x ∈ h.
Proof.
  induction h as [|z h IH]; simpl; [set_solver|]. case_match; set_solver.
Qed.
Lemma push_sorted y h : StronglySorted Z.lt h → y ∉ h → StronglySorted Z.lt (push y h).
Proof.
  induction 1 as [|z h Hs IH Hz]; simpl; [repeat constructor|]. intros Hy.
  rewrite not_elem_of_cons in Hy. case_match.
  - constructor; [by constructor|]. constructor; [lia|]. eapply Forall_impl; [done|]. simpl. lia.
  - constructor; [naive_solver|]. apply Forall_forall. intros x [->|Hx]%elem_of_push; [lia|].
    rewrite Forall_forall in Hz. auto.
Qed.
Lemma sorted_filter P `{!∀ x : Z, Decision (P x)} h : StronglySorted Z.lt h → StronglySorted Z.lt (filter P h).
Proof.
  induction 1 as [|z h Hs IH Hz]; [constructor|]. rewrite filter_cons. case_decide; [|done].
  constructor; [done|]. apply Forall_forall. intros x [_ Hx]%list_elem_of_filter.
  rewrite Forall_forall in Hz. auto.
Qed.

Section gaps.
Context (keep : Z → bool).
Definition push_all (l h : list Z) : list Z := foldl (λ h fd, if keep fd then push fd h else h) h l.
Lemma elem_of_push_all l h x : x ∈ push_all l h ↔ x ∈ h ∨ x ∈ l ∧ keep x = true.
Proof.
  revert h. induction l as [|y l IH]; intros h; simpl; [set_solver|]. fold (push_all l).
  unfold push_all in *. rewrite IH. destruct (keep y) eqn:E; [rewrite elem_of_push|]; rewrite elem_of_cons;
    naive_solver congruence.
Qed.
Lemma push_all_sorted l h : StronglySorted Z.lt h → NoDup l → (∀ x, x ∈ l → x ∉ h) →
  StronglySorted Z.lt (push_all l h).
Proof.
  revert h. induction l as [|y l IH]; intros h Hh Hl Hd; [done|]. apply NoDup_cons in Hl as [Hy Hl].
  simpl. unfold push_all in IH. destruct (keep y); apply IH; try done; [apply push_sorted; set_solver| |set_solver].
  intros x Hx [->|Hxh]%elem_of_push; [done|]. eapply Hd; [|done]. set_solver.
Qed.
End gaps.

(** ** The lowest free number *)

Definition lowest {A} (lo : Z) (m : gmap Z A) (v : Z) : Prop :=
  lo ≤ v < I32_MAX ∧ m !! v = None ∧ ∀ u, lo ≤ u < v → is_Some (m !! u).
Definition full {A} (lo : Z) (m : gmap Z A) : Prop := ∀ u, lo ≤ u < I32_MAX → is_Some (m !! u).

Lemma lowest_unique {A} lo (m : gmap Z A) v w : lowest lo m v → lowest lo m w → v = w.
Proof.
  intros (Hv & Hvm & Hvl) (Hw & Hwm & Hwl).
  destruct (Z.lt_trichotomy v w) as [H|[H|H]]; [|done|].
  - destruct (Hwl v ltac:(lia)). congruence.
  - destruct (Hvl w ltac:(lia)). congruence.
Qed.

(** A range of numbers that are all keys is no longer than the map. *)
Lemma range_size {A} (m : gmap Z A) lo n : (∀ u, lo ≤ u < lo + Z.of_nat n → is_Some (m !! u)) → (n ≤ size m)%nat.
Proof.
  intros Hall. rewrite <- size_dom.
  transitivity (size (list_to_set (seqZ lo (Z.of_nat n)) : gset Z)).
  - rewrite size_list_to_set by apply NoDup_seqZ. rewrite length_seqZ. lia.
  - apply subseteq_size. intros u Hu%elem_of_list_to_set%elem_of_seqZ. apply elem_of_dom. auto.
Qed.

Section search.
Context {F : Type}.
Implicit Types (m : gmap Z (FdEntry F)).

Lemma find_free_lowest fuel fd m v : FdTable.find_free fuel fd m = Some v → lowest fd m v.
Proof.
  revert fd. induction fuel as [|fuel IH]; simpl; [done|]. intros fd. case_match; [done|].
  destruct (m !! fd) eqn:E; intros Hv; simplify_eq.
  - apply IH in Hv as (Hv & Hm & Hl). split_and!; [lia..|done|]. intros u Hu.
    destruct (decide (u = fd)) as [->|]; [by eexists|]. apply Hl. lia.
  - split_and!; [lia..|done|]. lia.
Qed.
Lemma find_free_none fuel fd m : FdTable.find_free fuel fd m = None →
  ∀ u, fd ≤ u < fd + Z.of_nat fuel → u < I32_MAX → is_Some (m !! u).
Proof.
  revert fd. induction fuel as [|fuel IH]; simpl; intros fd; [lia|]. case_match; [lia|].
  destruct (m !! fd) eqn:E; [|done]. intros Hn u Hu Hm.
  destruct (decide (u = fd)) as [->|]; [by eexists|]. apply (IH (fd + 1)); [done|lia|done].
Qed.
(** The search is complete: the fuel of [find] is enough. *)
Lemma find_spec lo m : match FdTable.find lo m with Some v => lowest lo m v | None => full lo m end.
Proof.
  unfold FdTable.find. destruct (FdTable.find_free _ _ _) as [v|] eqn:E.
  { by eapply find_free_lowest. }
  pose proof (find_free_none _ _ _ E) as Hn. intros u Hu.
  destruct (decide (u < lo + Z.of_nat (S (size m)))) as [|Hge]; [apply Hn; lia|]. exfalso.
  assert (S (size m) ≤ size m)%nat; [|lia].
  apply (range_size m lo). intros w Hw. apply Hn; lia.
Qed.
End search.

(** ** The invariant *)

Section invariant.
Context {F : Type}.
Implicit Types (t : FdTableInner F) (e : FdEntry F).

(** The free list is the numbers below the counter that are not open, in order; nothing is open from the
    counter on. *)
Record wf t : Prop := mkWf {
  wf_next : FIRST_USER_FD ≤ next_vfd t ≤ I32_MAX;
  wf_sorted : StronglySorted Z.lt (free_fds t);
  wf_free : ∀ v, v ∈ free_fds t ↔ FIRST_USER_FD ≤ v < next_vfd t ∧ entries t !! v = None;
  wf_below : ∀ v, is_Some (entries t !! v) → v < next_vfd t
}.

Lemma wf_new : wf FdTable.new.
Proof.
  split; simpl.
  - unfold FIRST_USER_FD, I32_MAX. lia.
  - constructor.
  - intros v. split; [set_solver|]. unfold FIRST_USER_FD. lia.
  - intros v [e Hv]. unfold FIRST_USER_FD, STDERR_FILENO, STDOUT_FILENO, STDIN_FILENO in *.
    destruct (decide (v < 3)); [done|]. rewrite !lookup_insert_ne, lookup_empty in Hv by lia. done.
Qed.

(** The invariant with one number left out of account. *)
Record wf_but (x : Z) t : Prop := mkWfBut {
  but_next : FIRST_USER_FD ≤ next_vfd t ≤ I32_MAX;
  but_sorted : StronglySorted Z.lt (free_fds t);
  but_free : ∀ v, v ≠ x → v ∈ free_fds t ↔ FIRST_USER_FD ≤ v < next_vfd t ∧ entries t !! v = None;
  but_below : ∀ v, is_Some (entries t !! v) → v < next_vfd t;
  but_bound : x ∈ free_fds t → x < next_vfd t
}.

Lemma wf_wf_but x t : wf t → wf_but x t.
Proof. intros [Hn Hs Hf Hb]. split; [done..|naive_solver|done|naive_solver]. Qed.
Lemma unfree_but x t : wf_but x t → wf_but x (FdTable.unfree x t).
Proof.
  intros [Hn Hs Hf Hb Hx]. split; simpl; [done|by apply sorted_filter| |done|].
  - intros v Hv. rewrite list_elem_of_filter. naive_solver.
  - rewrite list_elem_of_filter. naive_solver.
Qed.
Lemma unfree_out x t : x ∉ free_fds (FdTable.unfree x t).
Proof. simpl. rewrite list_elem_of_filter. naive_solver. Qed.
Lemma elem_of_gaps vfd t v : v ∈ FdTable.push_gaps vfd t ↔
  v ∈ free_fds t ∨ next_vfd t ≤ v < vfd ∧ FIRST_USER_FD ≤ v ∧ entries t !! v = None.
Proof.
  etransitivity; [apply (elem_of_push_all (λ fd, (FIRST_USER_FD <=? fd) && bool_decide (entries t !! fd = None)))|].
  rewrite elem_of_seqZ, andb_true_iff, Z.leb_le, bool_decide_eq_true.
  replace (next_vfd t + (vfd - next_vfd t)) with vfd by lia. naive_solver.
Qed.
Lemma advance_next vfd t : vfd < I32_MAX → FIRST_USER_FD ≤ next_vfd t →
  next_vfd (FdTable.advance vfd t) = Z.max (next_vfd t) (vfd + 1).
Proof.
  intros Hv Hn. unfold FdTable.advance. case_match; simpl; [|lia].
  rewrite Int.i32_small; unfold I32_MAX, FIRST_USER_FD in *; lia.
Qed.
Lemma advance_entries vfd t : entries (FdTable.advance vfd t) = entries t.
Proof. unfold FdTable.advance. by case_match. Qed.
Lemma advance_but x t : wf_but x t → x < I32_MAX → wf_but x (FdTable.advance x t).
Proof.
  intros [Hn Hs Hf Hb Hx] Hlt. pose proof (advance_next x t Hlt ltac:(lia)) as Ha.
  split; rewrite ?advance_entries, ?Ha; [unfold I32_MAX in *; lia| | | |lia].
  - unfold FdTable.advance. case_match; [|done]. simpl.
    apply (push_all_sorted (λ fd, (FIRST_USER_FD <=? fd) && bool_decide (entries t !! fd = None)));
      [done|apply NoDup_seqZ|].
    intros v Hv%elem_of_seqZ Hvf. pose proof (Hf v ltac:(lia)) as [Hv' _]. specialize (Hv' Hvf). lia.
  - intros v Hv. specialize (Hf v Hv). unfold FdTable.advance. case_match; simpl; [rewrite elem_of_gaps|];
      rewrite Hf; split; [|destruct (decide (v < next_vfd t))| |]; try (intros ?; naive_solver lia).
    all: intros [? ?]; right; split_and!; try done; lia.
  - intros v Hv. specialize (Hb v Hv). lia.
Qed.
Lemma set_but x e t : wf_but x t → x ∉ free_fds t → x < next_vfd t → wf (FdTable.set_entry x e t).
Proof.
  intros [Hn Hs Hf Hb _] Hx Hlt. split; simpl; [done..| |].
  - intros v. destruct (decide (v = x)) as [->|]; [rewrite lookup_insert_eq; naive_solver|].
    rewrite lookup_insert_ne by done. auto.
  - intros v. destruct (decide (v = x)) as [->|]; [done|]. rewrite lookup_insert_ne by done. auto.
Qed.

(** ** The operations keep it *)

Lemma wf_allocate_at vfd e t : wf t → vfd < I32_MAX → wf (FdTable.allocate_at vfd e t).2.
Proof.
  intros Ht Hv. simpl. pose proof (unfree_but vfd t (wf_wf_but _ _ Ht)) as Hu.
  pose proof (but_next _ _ Hu). apply set_but; [by apply advance_but| |rewrite advance_next by lia; lia].
  unfold FdTable.advance. case_match; simpl; [|apply unfree_out].
  rewrite elem_of_gaps. intros [Hin|Hin]; [by apply unfree_out in Hin|lia].
Qed.
Lemma wf_allocate_min lo e t : wf t →
  match FdTable.allocate_min lo e t with
  | Some (v, t') => lowest lo (entries t) v ∧ wf t' ∧ entries t' = <[v:=e]> (entries t)
  | None => full lo (entries t)
  end.
Proof.
  intros Ht. unfold FdTable.allocate_min. pose proof (find_spec lo (entries t)) as Hl.
  destruct (FdTable.find lo (entries t)) as [v|]; simpl; [|done]. split_and!; [done| |by rewrite advance_entries].
  destruct Hl as [Hv _]. pose proof (wf_next _ Ht).
  apply set_but; [| |simpl; rewrite advance_next by lia; lia].
  - apply unfree_but, advance_but; [by apply wf_wf_but|lia].
  - apply unfree_out.
Qed.
Lemma wf_allocate e t : wf t →
  match FdTable.allocate e t with
  | Some (v, t') => lowest FIRST_USER_FD (entries t) v ∧ wf t' ∧ entries t' = <[v:=e]> (entries t)
  | None => full FIRST_USER_FD (entries t)
  end.
Proof.
  intros Ht. pose proof Ht as [Hn Hs Hf Hb]. unfold FdTable.allocate. destruct (free_fds t) as [|v rest] eqn:E.
  - assert (∀ u, FIRST_USER_FD ≤ u < next_vfd t → is_Some (entries t !! u)) as Hall.
    { intros u Hu. apply not_eq_None_Some. intros Hu'. set_solver. }
    destruct (Z.eqb_spec (next_vfd t) I32_MAX).
    { pose proof (find_spec FIRST_USER_FD (entries t)) as Hl.
      destruct (FdTable.find FIRST_USER_FD (entries t)) as [v|]; simpl; [|exact Hl]. exfalso.
      destruct Hl as (Hv & Hv' & _). destruct (Hall v ltac:(lia)). congruence. }
    assert (entries t !! next_vfd t = None) as Hnone.
    { apply eq_None_not_Some. intros Hs'%Hb. lia. }
    split; [by split_and!; [lia..|done|done]|split; [|done]]. rewrite Int.i32_small by (unfold I32_MAX, FIRST_USER_FD in *; lia).
    split; simpl; [lia|constructor| |].
    + intros v. split; [set_solver|]. intros [Hv Hv']. destruct (decide (v = next_vfd t)) as [->|].
      { by rewrite lookup_insert_eq in Hv'. }
      rewrite lookup_insert_ne in Hv' by done. destruct (Hall v ltac:(lia)). congruence.
    + intros v. destruct (decide (v = next_vfd t)) as [->|]; [lia|].
      rewrite lookup_insert_ne by done. intros Hv%Hb. lia.
  - assert (v ∈ v :: rest) as [Hv Hvn]%Hf by set_solver.
    apply StronglySorted_inv in Hs as [Hs Hlt]. rewrite Forall_forall in Hlt. split; [|split; [|done]].
    + split_and!; [lia..|done|]. intros u Hu. apply not_eq_None_Some. intros Hu'. assert (u ∈ v :: rest) as Hin by (apply Hf; split; [lia|done]).
      apply elem_of_cons in Hin as [->|Hin]; [lia|]. specialize (Hlt u Hin). lia.
    + split; simpl; [done..| |].
      * intros u. destruct (decide (u = v)) as [->|].
        { rewrite lookup_insert_eq. split; [|naive_solver]. intros Hin%Hlt. lia. }
        rewrite lookup_insert_ne by done. rewrite <- Hf. set_solver.
      * intros u. destruct (decide (u = v)) as [->|]; [lia|]. rewrite lookup_insert_ne by done. auto.
Qed.
Lemma wf_deallocate vfd t : wf t → wf (FdTable.deallocate vfd t).2 ∧
  entries (FdTable.deallocate vfd t).2 = delete vfd (entries t).
Proof.
  intros Ht. pose proof Ht as [Hn Hs Hf Hb]. unfold FdTable.deallocate.
  destruct (entries t !! vfd) as [e|] eqn:E; simpl; [|by rewrite delete_id].
  specialize (Hb vfd) as Hlt. rewrite E in Hlt. specialize (Hlt ltac:(eauto)). split; [|done].
  split; simpl; [done| | |].
  - case_match; [|done]. apply push_sorted; [done|]. rewrite Hf. naive_solver.
  - intros v. destruct (decide (v = vfd)) as [->|].
    + rewrite lookup_delete_eq. case_match; [rewrite elem_of_push|rewrite Hf]; naive_solver lia.
    + rewrite lookup_delete_ne by done. case_match; [rewrite elem_of_push|]; rewrite Hf; naive_solver.
  - intros v Hv. apply Hb. destruct (decide (v = vfd)) as [->|]; [eauto|].
    by rewrite lookup_delete_ne in Hv by done.
Qed.
End invariant.

(** ** Refinement *)

Section refinement.
Context {F : Type}.
Implicit Types (t : FdTableInner F) (e : FdEntry F) (m : gmap Z (FdEntry F)).

(** The operations of a table, and what they return. *)
Inductive fd_op :=
  | Allocate (e : FdEntry F) | AllocateMin (lo : Z) (e : FdEntry F) | AllocateAt (v : Z) (e : FdEntry F)
  | Deallocate (v : Z) | Duplicate (v : Z) | DuplicateAt (v w : Z) | Get (v : Z) | Translate (v : Z).
Inductive fd_out := OutFd (v : Z) | OutEntry (o : option (FdEntry F)) | OutFdOpt (o : option Z).

(** The code; no result is a panic. *)
Definition fd_step (o : fd_op) t : option (fd_out * FdTableInner F) :=
  match o with
  | Allocate e => '(v, t) ← FdTable.allocate e t; Some (OutFd v, t)
  | AllocateMin lo e => '(v, t) ← FdTable.allocate_min lo e t; Some (OutFd v, t)
  | AllocateAt v e => let '(r, t) := FdTable.allocate_at v e t in Some (OutEntry r, t)
  | Deallocate v => let '(r, t) := FdTable.deallocate v t in Some (OutEntry r, t)
  | Duplicate v => '(r, t) ← FdTable.duplicate v t; Some (OutFdOpt r, t)
  | DuplicateAt v w => let '(r, t) := FdTable.duplicate_at v w t in Some (OutEntry r, t)
  | Get v => Some (OutEntry (FdTable.get v t), t)
  | Translate v => Some (OutFdOpt (FdTable.translate v t), t)
  end.
Fixpoint fd_run (os : list fd_op) t : list (option fd_out) * FdTableInner F :=
  match os with
  | [] => ([], t)
  | o :: os =>
      match fd_step o t with
      | None => ([None], t)
      | Some (r, t) => let '(rs, t) := fd_run os t in (Some r :: rs, t)
      end
  end.

(** The specification: the open descriptors and nothing else. *)
Inductive spec_step : fd_op → gmap Z (FdEntry F) → option fd_out → gmap Z (FdEntry F) → Prop :=
  | spec_allocate e m v : lowest FIRST_USER_FD m v → spec_step (Allocate e) m (Some (OutFd v)) (<[v:=e]> m)
  | spec_allocate_full e m : full FIRST_USER_FD m → spec_step (Allocate e) m None m
  | spec_min lo e m v : lowest lo m v → spec_step (AllocateMin lo e) m (Some (OutFd v)) (<[v:=e]> m)
  | spec_min_full lo e m : full lo m → spec_step (AllocateMin lo e) m None m
  | spec_at v e m : spec_step (AllocateAt v e) m (Some (OutEntry (m !! v))) (<[v:=e]> m)
  | spec_close v m : spec_step (Deallocate v) m (Some (OutEntry (m !! v))) (delete v m)
  | spec_dup v e m w : m !! v = Some e → lowest FIRST_USER_FD m w →
      spec_step (Duplicate v) m (Some (OutFdOpt (Some w))) (<[w:=e]> m)
  | spec_dup_full v e m : m !! v = Some e → full FIRST_USER_FD m → spec_step (Duplicate v) m None m
  | spec_dup_bad v m : m !! v = None → spec_step (Duplicate v) m (Some (OutFdOpt None)) m
  | spec_dup2 v w e m : m !! v = Some e → spec_step (DuplicateAt v w) m (Some (OutEntry (m !! w))) (<[w:=e]> m)
  | spec_dup2_bad v w m : m !! v = None → spec_step (DuplicateAt v w) m (Some (OutEntry None)) m
  | spec_get v m : spec_step (Get v) m (Some (OutEntry (m !! v))) m
  | spec_translate v m : spec_step (Translate v) m (Some (OutFdOpt (m !! v ≫= kernel_fd))) m.
(** A sequence of operations, ended by a panic if there is one. *)
Inductive spec_run : list fd_op → gmap Z (FdEntry F) → list (option fd_out) → gmap Z (FdEntry F) → Prop :=
  | run_nil m : spec_run [] m [] m
  | run_cons o os m r m1 rs m2 : spec_step o m (Some r) m1 → spec_run os m1 rs m2 →
      spec_run (o :: os) m (Some r :: rs) m2
  | run_panic o os m m1 : spec_step o m None m1 → spec_run (o :: os) m [None] m1.

(** The one number that cannot be allocated: the counter would pass the largest [i32]. *)
Definition in_range (o : fd_op) : Prop :=
  match o with AllocateAt v _ | DuplicateAt _ v => v < I32_MAX | _ => True end.

Lemma allocate_at_entries v e t : entries (FdTable.allocate_at v e t).2 = <[v:=e]> (entries t).
Proof. simpl. by rewrite advance_entries. Qed.

Lemma fd_step_refines o t : wf t → in_range o →
  match fd_step o t with
  | Some (r, t') => wf t' ∧ spec_step o (entries t) (Some r) (entries t')
  | None => spec_step o (entries t) None (entries t)
  end.
Proof.
  intros Ht Hr. destruct o as [e|lo e|v e|v|v|v w|v|v]; cbn [fd_step].
  - pose proof (wf_allocate e t Ht). destruct (FdTable.allocate e t) as [[v t']|]; simpl; [|by constructor].
    destruct H as (Hl & Hw & ->). split; [done|by constructor].
  - pose proof (wf_allocate_min lo e t Ht). destruct (FdTable.allocate_min lo e t) as [[v t']|]; simpl; [|by constructor].
    destruct H as (Hl & Hw & ->). split; [done|by constructor].
  - pose proof (wf_allocate_at v e t Ht Hr) as Hw. pose proof (allocate_at_entries v e t) as He.
    destruct (FdTable.allocate_at v e t) as [r t'] eqn:E. simpl in *. split; [done|]. rewrite He.
    unfold FdTable.allocate_at in E. simplify_eq. constructor.
  - pose proof (wf_deallocate v t Ht) as [Hw He]. destruct (FdTable.deallocate v t) as [r t'] eqn:E. simpl in *.
    split; [done|]. rewrite He. assert (r = entries t !! v) as ->; [|constructor].
    unfold FdTable.deallocate in E. destruct (entries t !! v); by simplify_eq.
  - unfold FdTable.duplicate, FdTable.get. destruct (entries t !! v) as [e|] eqn:E; simpl; [|by split; [|constructor]].
    pose proof (wf_allocate e t Ht). destruct (FdTable.allocate e t) as [[w t']|]; simpl; [|by econstructor].
    destruct H as (Hl & Hw & ->). split; [done|by econstructor].
  - unfold FdTable.duplicate_at, FdTable.get. destruct (entries t !! v) as [e|] eqn:E; simpl; [|by split; [|constructor]].
    split; [by apply (wf_allocate_at w e t)|]. rewrite advance_entries. by constructor.
  - split; [done|constructor].
  - split; [done|constructor].
Qed.
Lemma fd_run_refines os t : wf t → Forall in_range os →
  wf (fd_run os t).2 ∧ spec_run os (entries t) (fd_run os t).1 (entries (fd_run os t).2).
Proof.
  intros Ht Hos. revert t Ht. induction Hos as [|o os Ho Hos IH]; intros t Ht; simpl; [by split; [|constructor]|].
  pose proof (fd_step_refines o t Ht Ho) as Hs. destruct (fd_step o t) as [[r t1]|].
  - destruct Hs as [Hw Hp]. specialize (IH t1 Hw) as [Hw' IH].
    destruct (fd_run os t1) as [rs t2]. simpl in *. split; [done|by econstructor].
  - simpl. split; [done|by constructor].
Qed.
End refinement.

(** C14. A new table and any sequence of operations on it, with descriptors below the largest [i32]: the
    results are those of a table that always gives out the lowest number from 3 on that is not open (from the
    given minimum on for [allocate_min], and at the given number for [allocate_at] and [duplicate_at]), and
    it panics only when none is left; afterwards the free list is exactly the gaps from 3 on below the
    counter. The numbers 0, 1 and 2 are never given out by [allocate] and [duplicate], even where they have
    been closed. *)
Theorem fd_table_lowest_free {F} (os : list (@fd_op F)) :
  Forall in_range os →
  let '(rs, t) := fd_run os FdTable.new in
  spec_run os (entries FdTable.new) rs (entries t) ∧ wf t.
Proof.
  intros Hos. pose proof (fd_run_refines os FdTable.new wf_new Hos). destruct (fd_run os FdTable.new). naive_solver.
Qed.
(** With the standard streams open this is POSIX's rule, the lowest number that is not open. *)
Lemma lowest_is_posix {A} (m : gmap Z A) v :
  (∀ u, 0 ≤ u < FIRST_USER_FD → is_Some (m !! u)) → lowest FIRST_USER_FD m v ↔ lowest 0 m v.
Proof.
  intros Hstd. unfold lowest, FIRST_USER_FD in *. split.
  - intros (Hv & Hn & Hl). split_and!; [lia..|done|]. intros u Hu. destruct (decide (u < 3)); [apply Hstd|apply Hl]; lia.
  - intros (Hv & Hn & Hl). assert (3 ≤ v).
    { destruct (decide (3 ≤ v)); [done|]. destruct (Hstd v ltac:(lia)). congruence. }
    split_and!; [lia..|done|]. intros u Hu. apply Hl. lia.
Qed.
Definition sample_fd (k : Z) : FdEntry unit := Passthrough k 0 None.
Definition sample_fd_ops : list fd_op :=
  [Allocate (sample_fd 100); AllocateAt 7 (sample_fd 101); Duplicate 3; Deallocate 3; AllocateMin 5 (sample_fd 102);
   Allocate (sample_fd 103); Allocate (sample_fd 104); DuplicateAt 7 3; Translate 3; Get 9].
Lemma fd_table_lowest_free_witness :
  (fd_run sample_fd_ops FdTable.new).1 =
    [Some (OutFd 3); Some (OutEntry None); Some (OutFdOpt (Some 4)); Some (OutEntry (Some (sample_fd 100)));
     Some (OutFd 5); Some (OutFd 3); Some (OutFd 6); Some (OutEntry (Some (sample_fd 103)));
     Some (OutFdOpt (Some 101)); Some (OutEntry None)] ∧
  let '(rs, t) := fd_run sample_fd_ops FdTable.new in
  spec_run sample_fd_ops (entries FdTable.new) rs (entries t) ∧ wf t.
Proof.
  split; [vm_compute; reflexivity|]. apply fd_table_lowest_free.
  repeat constructor.
Defined.

(** Where it is not: a program that closes its standard input and opens a file gets descriptor 3, and 0
    stays closed. *)
Example closed_stdin_not_reused :
  (fd_run [Deallocate 0; Allocate (sample_fd 100); Get 0] FdTable.new).1 =
    [Some (OutEntry (entries FdTable.new !! 0)); Some (OutFd 3); Some (OutEntry None)] ∧
  ¬ lowest 0 (delete 0 (entries (FdTable.new (F := unit)))) 3.
Proof. split; [by vm_compute|]. intros (_ & _ & Hl). destruct (Hl 0 ltac:(lia)) as [e He]. by vm_compute in He. Qed.
