(* ===== verification/Mounts.v ===== *)
(** * The sandbox: mounts

    What a path of a sandboxed process means: the trait [Vfs] ([sandbox/src/vfs/mod.rs]), the bind mount
    ([bind.rs]), and the table of mounts with its command-line syntax ([mount.rs]). *)

From S2P Require Import Prelude Utf8 Xdr Text.

#[local] Open Scope string_scope.
#[local] Open Scope list_scope.
#[local] Open Scope Z_scope.

#[global] Instance byte_countable : Countable byte := inj_countable Byte.to_N Byte.of_N Byte.of_to_N.

(** ** Paths

    A [Path] is its bytes, whatever they are. *)

(** [Path::to_str] *)
Definition to_str (p : list byte) : option (list byte) := if is_utf8 p then Some p else None.
(** [components().count()]: the root, what is between slashes and is neither empty nor a dot, and a dot at
    the front of a relative path. *)
Definition real_component (c : list byte) : bool := bool_decide (c ≠ [] ∧ c ≠ bytes ".").
Definition components_count (p : list byte) : nat :=
  (if is_absolute p then 1
   else if bool_decide (head (split_at SLASH p) = Some (bytes ".")) then 1 else 0) +
  length (filter (λ c, real_component c = true) (split_at SLASH p)).
(** [trim_start_matches('/')] *)
Fixpoint trim_slashes (l : list byte) : list byte :=
  match l with
  | b :: l' => if decide (b = SLASH) then trim_slashes l' else l
  | [] => []
  end.

(** ** Errors and the trait *)

(** [IoError] carries an [std::io::Error], which nothing looks at. *)
Inductive VfsError :=
  | NotFound | PermissionDenied | AlreadyExists | InvalidInput (msg : string) | IoError | Other (msg : string).

(** A trait object [Arc<dyn Vfs>]; [W] is the world the asynchronous methods act on, [F] the open files. *)
Record Vfs (W F : Type) := mkVfs {
  translate_path : list byte → VfsError + list byte;
  is_virtual : bool;
  vfs_open : list byte → Z → Z → W → (VfsError + F) * W;
  vfs_stat : list byte → W → (VfsError + list byte) * W;
  vfs_lstat : list byte → W → (VfsError + list byte) * W;
  vfs_symlink : list byte → list byte → W → (VfsError + unit) * W;
  vfs_readlink : list byte → W → (VfsError + list byte) * W;
  vfs_link : list byte → list byte → W → (VfsError + unit) * W
}.
Arguments mkVfs {W F}.
Arguments translate_path {W F} _.
Arguments is_virtual {W F} _.
Arguments vfs_open {W F} _.
Arguments vfs_stat {W F} _.
Arguments vfs_lstat {W F} _.
Arguments vfs_symlink {W F} _.
Arguments vfs_readlink {W F} _.
Arguments vfs_link {W F} _.

(** ** The bind mount *)

Record BindVfs := mkBind { host_root : list byte; sandbox_root : list byte }.

Module Bind.
Definition translate_path (b : BindVfs) (path : list byte) : VfsError + list byte :=
  match to_str (sandbox_root b) with
  | None => inl (InvalidInput "Invalid sandbox path")
  | Some sandbox_str =>
      match to_str path with
      | None => inl (InvalidInput "Invalid path")
      | Some path_str =>
          if bool_decide (path_str = sandbox_str) || bool_decide (is_Some (strip (sandbox_str ++ [SLASH]) path_str))
          then
            let relative := trim_slashes (default [] (strip sandbox_str path_str)) in
            inr (match relative with [] => host_root b | _ => join (host_root b) relative end)
          else inl NotFound
      end
  end.
(** The methods it does not define are those of the trait. *)
Definition vfs {W F} (b : BindVfs) : Vfs W F :=
  mkVfs (translate_path b) false
    (λ _ _ _ w, (inl (Other "open() not supported by this VFS"), w))
    (λ _ w, (inl (Other "stat() not supported by this VFS"), w))
    (λ _ w, (inl (Other "lstat() not supported by this VFS"), w))
    (λ _ _ w, (inl (Other "symlink() not supported by this VFS"), w))
    (λ _ w, (inl (Other "readlink() not supported by this VFS"), w))
    (λ _ _ w, (inl (Other "link() not supported by this VFS"), w)).
End Bind.

(** ** The table *)

Record MountPoint (W F : Type) := mkMount { sandbox_path : list byte; vfs : Vfs W F }.
Arguments mkMount {W F}.
Arguments sandbox_path {W F} _.
Arguments vfs {W F} _.
Definition MountTable (W F : Type) : Type := list (MountPoint W F).

Module MountTable.
Section table.
Context {W F : Type}.
Definition new : MountTable W F := [].
(** [sort_by_key] is stable: a mount goes behind those that are as deep. *)
Fixpoint insert_by_depth (m : MountPoint W F) (ms : MountTable W F) : MountTable W F :=
  match ms with
  | [] => [m]
  | m' :: ms' =>
      if (components_count (sandbox_path m') <? components_count (sandbox_path m))%nat then m :: ms
      else m' :: insert_by_depth m ms'
  end.
Definition sort_by_depth (ms : MountTable W F) : MountTable W F := foldl (λ acc m, insert_by_depth m acc) [] ms.
Definition add_mount (path : list byte) (v : Vfs W F) (t : MountTable W F) : MountTable W F :=
  sort_by_depth (t ++ [mkMount path v]).
Fixpoint resolve (t : MountTable W F) (path : list byte) : option (Vfs W F * list byte) :=
  match t with
  | [] => None
  | m :: t =>
      match translate_path (vfs m) path with
      | inr translated => Some (vfs m, translated)
      | inl _ => resolve t path
      end
  end.
End table.
End MountTable.

(** ** The command-line syntax *)

Inductive MountType := BindMount (src : list byte).
Record MountConfig := mkConfig { mount_type : MountType; dst : list byte }.
(** The messages of [from_str]. *)
Inductive ConfigError :=
  | InvalidOption (part : list byte) | DuplicateKey (key : list byte) | MissingType | MissingSrc | MissingDst
  | NotAbsolute (dst : list byte) | NotCanonical (src : list byte) | Unsupported (ty : list byte).

Module Config.
(** [part.splitn(2, '=')] with two pieces *)
Fixpoint key_value (part : list byte) : option (list byte * list byte) :=
  match part with
  | [] => None
  | b :: part =>
      if decide (b = x3d) then Some ([], part)
      else match key_value part with Some (k, v) => Some (b :: k, v) | None => None end
  end.
Fixpoint options (parts : list (list byte)) (acc : gmap (list byte) (list byte))
    : ConfigError + gmap (list byte) (list byte) :=
  match parts with
  | [] => inr acc
  | part :: parts =>
      match key_value part with
      | None => inl (InvalidOption part)
      | Some (k, v) =>
          match acc !! k with
          | Some _ => inl (DuplicateKey k)
          | None => options parts (<[k:=v]> acc)
          end
      end
  end.
Definition either (m : gmap (list byte) (list byte)) (k alias : string) : option (list byte) :=
  match m !! bytes k with Some v => Some v | None => m !! bytes alias end.
(** [canonicalize] is the host's [std::fs::canonicalize]. *)
Definition from_str (canonicalize : list byte → option (list byte)) (s : list byte) : ConfigError + MountConfig :=
  match options (split_at x2c s) ∅ with
  | inl e => inl e
  | inr m =>
      match m !! bytes "type" with
      | None => inl MissingType
      | Some ty =>
          if decide (ty = bytes "bind") then
            match either m "src" "source" with
            | None => inl MissingSrc
            | Some src_str =>
                match either m "dst" "target" with
                | None => inl MissingDst
                | Some dst_str =>
                    if negb (is_absolute dst_str) then inl (NotAbsolute dst_str)
                    else match canonicalize src_str with
                         | None => inl (NotCanonical src_str)
                         | Some src => inr (mkConfig (BindMount src) dst_str)
                         end
                end
            end
          else inl (Unsupported ty)
      end
  end.
End Config.
