(* ===== verification/MountThms.v ===== *)
(** * The sandbox: theorems on mounts

    Which mount a path belongs to and what it is translated to; the syntax of mounts is read as it is
    written; three defects. *)

From S2P Require Import Prelude Utf8 Xdr Text Mounts.

#[local] Open Scope string_scope.
#[local] Open Scope list_scope.
#[local] Open Scope Z_scope.

(** ** Text *)

Lemma strip_spec p l r : strip p l = Some r ↔ l = p ++ r.
Proof.
  revert l. induction p as [|a p IH]; intros [|b l]; simpl; try naive_solver.
  case_decide; [subst; rewrite IH|]; naive_solver.
Qed.
Lemma split_at_cut sep c l : sep ∉ c → split_at sep (c ++ sep :: l) = c :: split_at sep l.
Proof.
  induction c as [|b c IH]; simpl; intros Hc; [by rewrite decide_True|].
  rewrite not_elem_of_cons in Hc. rewrite decide_False, IH by naive_solver. done.
Qed.
Lemma split_at_end sep c : sep ∉ c → split_at sep c = [c].
Proof.
  induction c as [|b c IH]; simpl; intros Hc; [done|].
  rewrite not_elem_of_cons in Hc. rewrite decide_False, IH by naive_solver. done.
Qed.

Section filters.
Context {A : Type} (P : A → Prop) `{!∀ x, Decision (P x)}.
Lemma filter_keeps l : Forall P l → filter P l = l.
Proof. induction 1; [done|]. rewrite filter_cons_True by done. by f_equal. Qed.
Lemma filter_drops l : Forall (λ x, ¬ P x) l → filter P l = [].
Proof. induction 1; [done|]. by rewrite filter_cons_False. Qed.
End filters.

(** ** Clean roots

    A mount point written without doubled or trailing slashes and dots. *)

Definition render (cs : list (list byte)) : list byte := mjoin ((λ c, SLASH :: c) <$> cs).
Definition clean (cs : list (list byte)) : Prop :=
  cs ≠ [] ∧ Forall (λ c, real_component c = true ∧ SLASH ∉ c) cs.

Lemma split_clean c cs : SLASH ∉ c → Forall (λ c, real_component c = true ∧ SLASH ∉ c) cs →
  split_at SLASH (c ++ render cs) = c :: cs.
Proof.
  intros Hc Hcs. revert c Hc. induction Hcs as [|d cs [_ Hd] Hcs IH]; intros c Hc.
  - rewrite app_nil_r. by apply split_at_end.
  - change (render (d :: cs)) with (SLASH :: d ++ render cs). by rewrite split_at_cut, IH.
Qed.
Lemma count_render cs : clean cs → components_count (render cs) = S (length cs).
Proof.
  intros [Hne Hcs]. destruct cs as [|c cs]; [done|]. apply Forall_cons in Hcs as [[Hc Hs] Hcs].
  change (render (c :: cs)) with ([] ++ SLASH :: c ++ render cs). unfold components_count.
  rewrite split_at_cut by set_solver. rewrite split_clean by done.
  rewrite filter_cons_False by done. rewrite filter_cons_True by done. simpl. do 2 f_equal.
  f_equal. apply filter_keeps. eapply Forall_impl; [done|]. naive_solver.
Qed.

Definition slashes (l : list byte) : nat := length (filter (.= SLASH) l).
Lemma slashes_app l k : slashes (l ++ k) = (slashes l + slashes k)%nat.
Proof. unfold slashes. by rewrite filter_app, length_app. Qed.
Lemma slashes_one : slashes [SLASH] = 1%nat.
Proof. unfold slashes. by rewrite filter_cons_True. Qed.
Lemma slashes_none c : SLASH ∉ c → slashes c = 0%nat.
Proof.
  intros Hc. unfold slashes. rewrite filter_drops; [done|]. apply Forall_forall. intros x Hx ->. done.
Qed.
Lemma slashes_render cs : Forall (λ c, real_component c = true ∧ SLASH ∉ c) cs → slashes (render cs) = length cs.
Proof.
  induction 1 as [|c cs [_ Hc] Hcs IH]; [done|].
  change (render (c :: cs)) with ([SLASH] ++ c ++ render cs). by rewrite !slashes_app, IH, (slashes_none c), slashes_one.
Qed.

(** ** Bind mounts *)

(** The path is the mount point or below it. *)
Definition under (root p : list byte) : Prop := p = root ∨ ∃ rest, p = root ++ SLASH :: rest.
(** What it becomes: the host directory with what is below the mount point. *)
Definition host_path (b : BindVfs) (p : list byte) : list byte :=
  match trim_slashes (drop (length (sandbox_root b)) p) with
  | [] => host_root b
  | rel => join (host_root b) rel
  end.

Lemma bind_translate b p : is_utf8 (sandbox_root b) = true → is_utf8 p = true →
  match Bind.translate_path b p with
  | inr q => under (sandbox_root b) p ∧ q = host_path b p
  | inl e => ¬ under (sandbox_root b) p ∧ e = NotFound
  end.
Proof.
  intros Hr Hp. unfold Bind.translate_path, to_str. rewrite Hr, Hp. simpl.
  assert (bool_decide (is_Some (strip (sandbox_root b ++ [SLASH]) p)) = true ↔
    ∃ rest, p = sandbox_root b ++ SLASH :: rest) as Hs.
  { rewrite bool_decide_eq_true. split.
    - intros [r Hr']. apply strip_spec in Hr'. exists r. by rewrite <- app_assoc in Hr'.
    - intros [rest ->]. exists rest. apply strip_spec. by rewrite <- app_assoc. }
  destruct (_ || _) eqn:E.
  - apply orb_true_iff in E. rewrite bool_decide_eq_true, Hs in E. split; [done|].
    assert (strip (sandbox_root b) p = Some (drop (length (sandbox_root b)) p)) as ->.
    { apply strip_spec. destruct E as [->|[rest ->]]; [by rewrite drop_all, app_nil_r|by rewrite drop_app_length]. }
    simpl. unfold host_path. by destruct (trim_slashes _).
  - apply orb_false_iff in E as [E1 E2]. apply bool_decide_eq_false in E1. split; [|done].
    intros [?|Hu]; [done|]. apply Hs in Hu. congruence.
Qed.
Lemma bind_not_utf8 b p : is_utf8 p = false → ∃ e, Bind.translate_path b p = inl e.
Proof. intros Hp. unfold Bind.translate_path, to_str. rewrite Hp. destruct (is_utf8 (sandbox_root b)); eauto. Qed.

(** Of two mount points a path is under, the one with more slashes is the longer. *)
Lemma under_depth r1 r2 p : under r1 p → under r2 p → (slashes r1 ≤ slashes r2)%nat → (length r1 ≤ length r2)%nat.
Proof.
  intros H1 H2 Hs. destruct (decide (length r1 ≤ length r2)%nat) as [|Hlt]; [done|]. exfalso.
  assert (r1 `prefix_of` p) as [s1 ->].
  { destruct H1 as [->|[rest ->]]; [done|by apply prefix_app_r]. }
  destruct H2 as [<-|[rest Hp]]; [rewrite length_app in Hlt; lia|].
  assert (take (length r2) r1 = r2 ∧ r1 !! length r2 = Some SLASH) as [Ht Hl].
  { split.
    - rewrite <- (take_app_le r1 s1) by lia. rewrite Hp. by rewrite take_app_length.
    - rewrite <- (lookup_app_l r1 s1) by lia. rewrite Hp. by rewrite lookup_app_r, Nat.sub_diag by done. }
  rewrite <- (take_drop_middle _ _ _ Hl), Ht, slashes_app in Hs.
  change (SLASH :: ?l) with ([SLASH] ++ l) in Hs. rewrite (slashes_app [SLASH]), slashes_one in Hs. lia.
Qed.

(** ** The table *)

Section table.
Context {W F : Type}.
Abbreviation depth m := (components_count (sandbox_path m)).
Abbreviation deeper := (λ m m' : MountPoint W F, (depth m' ≤ depth m)%nat).

Lemma insert_perm (m : MountPoint W F) ms : MountTable.insert_by_depth m ms ≡ₚ m :: ms.
Proof. induction ms as [|m' ms IH]; simpl; [done|]. case_match; [done|]. rewrite IH. constructor. Qed.
Lemma insert_sorted (m : MountPoint W F) ms : StronglySorted deeper ms →
  StronglySorted deeper (MountTable.insert_by_depth m ms).
Proof.
  induction 1 as [|m' ms Hs IH Hm]; simpl; [repeat constructor|]. rewrite Forall_forall in Hm.
  destruct (Nat.ltb_spec (depth m') (depth m)) as [Hlt|Hge].
  - repeat constructor; [done|by apply Forall_forall|lia|]. apply Forall_forall. intros x Hx%Hm. lia.
  - constructor; [done|]. apply Forall_forall. intros x Hx. rewrite insert_perm in Hx. set_solver.
Qed.
Lemma sort_perm (ms acc : MountTable W F) :
  foldl (λ acc m, MountTable.insert_by_depth m acc) acc ms ≡ₚ ms ++ acc.
Proof.
  revert acc. induction ms as [|m ms IH]; intros acc; simpl; [done|]. rewrite IH, insert_perm.
  by rewrite <- Permutation_middle.
Qed.
Lemma sort_sorted (ms acc : MountTable W F) : StronglySorted deeper acc →
  StronglySorted deeper (foldl (λ acc m, MountTable.insert_by_depth m acc) acc ms).
Proof. revert acc. induction ms as [|m ms IH]; intros acc Ha; simpl; [done|]. apply IH. by apply insert_sorted. Qed.

(** The first mount of a sorted table whose translation succeeds. *)
Lemma resolve_spec (t : MountTable W F) p : StronglySorted deeper t →
  match MountTable.resolve t p with
  | Some (v, q) => ∃ m, m ∈ t ∧ v = vfs m ∧ translate_path (vfs m) p = inr q ∧
      ∀ m' q', m' ∈ t → translate_path (vfs m') p = inr q' → (depth m' ≤ depth m)%nat
  | None => ∀ m, m ∈ t → ∃ e, translate_path (vfs m) p = inl e
  end.
Proof.
  induction 1 as [|m t Hs IH Hm]; simpl; [set_solver|]. rewrite Forall_forall in Hm.
  destruct (translate_path (vfs m) p) as [e|q] eqn:E.
  - destruct (MountTable.resolve t p) as [[v q]|].
    + destruct IH as (m0 & Hin & -> & Ht & Hmax). exists m0. split_and!; [set_solver|done..|].
      intros m' q' [->|Hin']%elem_of_cons Ht'; [congruence|eauto].
    + intros m' [->|Hin]%elem_of_cons; eauto.
  - exists m. split_and!; [set_solver|done..|]. intros m' q' [->|Hin]%elem_of_cons _; [done|]. by apply Hm.
Qed.
End table.

(** A table of bind mounts, added one after the other. *)
Definition bind_table {W F} (bs : list BindVfs) : MountTable W F :=
  foldl (λ t b, MountTable.add_mount (sandbox_root b) (Bind.vfs b) t) MountTable.new bs.
Definition bind_point {W F} (b : BindVfs) : MountPoint W F := mkMount (sandbox_root b) (Bind.vfs b).
Lemma bind_table_app {W F} (bs : list BindVfs) (t : MountTable W F) :
  StronglySorted (λ m m', (components_count (sandbox_path m') ≤ components_count (sandbox_path m))%nat) t →
  let t' := foldl (λ t b, MountTable.add_mount (sandbox_root b) (Bind.vfs b) t) t bs in
  StronglySorted (λ m m', (components_count (sandbox_path m') ≤ components_count (sandbox_path m))%nat) t' ∧
  t' ≡ₚ t ++ (bind_point <$> bs).
Proof.
  revert t. induction bs as [|b bs IH]; intros t Ht; simpl; [by rewrite app_nil_r|].
  destruct (IH (MountTable.add_mount (sandbox_root b) (Bind.vfs b) t)) as [Hs Hp];
    [apply sort_sorted; constructor|]. split; [done|]. rewrite Hp. unfold MountTable.add_mount, MountTable.sort_by_depth.
  rewrite sort_perm. by rewrite app_nil_r, <- app_assoc.
Qed.
Lemma bind_table_spec {W F} (bs : list BindVfs) :
  StronglySorted (λ m m', (components_count (sandbox_path m') ≤ components_count (sandbox_path m))%nat)
    (@bind_table W F bs) ∧ bind_table bs ≡ₚ @bind_point W F <$> bs.
Proof. apply (bind_table_app bs []). constructor. Qed.

(** C35. Longest-prefix matching: in a table of bind mounts at clean mount points, in whatever order they
    were added, a path resolves to the mount whose mount point is the longest of those the path is at or
    below, and to the path with the mount point replaced by the host directory; it does not resolve when
    it is below none, or is not UTF-8. *)
Theorem resolve_longest_prefix {W F} (bs : list BindVfs) (p : list byte) :
  Forall (λ b, is_utf8 (sandbox_root b) = true ∧ ∃ cs, clean cs ∧ sandbox_root b = render cs) bs →
  match MountTable.resolve (@bind_table W F bs) p with
  | Some (v, q) => ∃ b, b ∈ bs ∧ v = Bind.vfs b ∧ under (sandbox_root b) p ∧ q = host_path b p ∧
      ∀ b', b' ∈ bs → under (sandbox_root b') p → (length (sandbox_root b') ≤ length (sandbox_root b))%nat
  | None => is_utf8 p = false ∨ ∀ b, b ∈ bs → ¬ under (sandbox_root b) p
  end.
Proof.
  intros Hbs. rewrite Forall_forall in Hbs. destruct (@bind_table_spec W F bs) as [Hs Hp].
  pose proof (resolve_spec _ p Hs) as Hr.
  assert (∀ m, m ∈ @bind_table W F bs ↔ ∃ b, m = bind_point b ∧ b ∈ bs) as Hin.
  { intros m. by rewrite Hp, list_elem_of_fmap. }
  destruct (is_utf8 p) eqn:Hu.
  - destruct (MountTable.resolve _ p) as [[v q]|].
    + destruct Hr as (m & (b & -> & Hb)%Hin & -> & Ht & Hmax). simpl in Ht.
      destruct (Hbs b Hb) as [Hub (cs & Hcs & Hcb)]. pose proof (bind_translate b p Hub Hu) as Hbt.
      rewrite Ht in Hbt. destruct Hbt as [Hund ->]. exists b. split_and!; [done..|].
      intros b' Hb' Hund'. destruct (Hbs b' Hb') as [Hub' (cs' & Hcs' & Hcb')].
      pose proof (bind_translate b' p Hub' Hu) as Hbt'. apply (under_depth _ _ p Hund' Hund).
      destruct (Bind.translate_path b' p) as [e|q'] eqn:E; [naive_solver|].
      specialize (Hmax (bind_point b') q' ltac:(apply Hin; eauto) E). simpl in Hmax.
      rewrite Hcb, Hcb', !count_render in Hmax by done. rewrite Hcb, Hcb', !slashes_render by apply Hcs || apply Hcs'.
      lia.
    + right. intros b Hb Hund. destruct (Hr (bind_point b)) as [e He]; [apply Hin; eauto|]. simpl in He.
      pose proof (bind_translate b p ltac:(apply (Hbs b Hb)) Hu) as Hbt. rewrite He in Hbt. naive_solver.
  - destruct (MountTable.resolve _ p) as [[v q]|]; [|by left].
    destruct Hr as (m & (b & -> & Hb)%Hin & _ & Ht & _). simpl in Ht.
    destruct (bind_not_utf8 b p Hu). congruence.
Qed.
Definition sample_binds : list BindVfs :=
  [mkBind (bytes "/tmp/agent") (bytes "/agent"); mkBind (bytes "/tmp/special") (bytes "/agent/special")].
Lemma resolve_longest_prefix_witness :
  (snd <$> MountTable.resolve (@bind_table unit unit sample_binds) (bytes "/agent/special/file")) =
    Some (bytes "/tmp/special/file") ∧
  match MountTable.resolve (@bind_table unit unit sample_binds) (bytes "/agent/special/file") with
  | Some (v, q) => ∃ b, b ∈ sample_binds ∧ v = Bind.vfs b ∧ under (sandbox_root b) (bytes "/agent/special/file") ∧
      q = host_path b (bytes "/agent/special/file") ∧
      ∀ b', b' ∈ sample_binds → under (sandbox_root b') (bytes "/agent/special/file") →
        (length (sandbox_root b') ≤ length (sandbox_root b))%nat
  | None => is_utf8 (bytes "/agent/special/file") = false ∨
      ∀ b, b ∈ sample_binds → ¬ under (sandbox_root b) (bytes "/agent/special/file")
  end.
Proof.
  split; [vm_compute; reflexivity|]. apply resolve_longest_prefix.
  apply Forall_cons; split; [split; [vm_compute; reflexivity|exists [bytes "agent"]]|
    apply Forall_cons; split; [split; [vm_compute; reflexivity|exists [bytes "agent"; bytes "special"]]|apply Forall_nil_2]].
  all: split; [split; [discriminate|]|vm_compute; reflexivity].
  all: repeat (apply Forall_cons; split; [split; [vm_compute; reflexivity|apply (bool_decide_unpack _); vm_compute; exact I]|]);
    apply Forall_nil_2.
Defined.

(** ** The syntax of mounts *)

Definition EQUALS : byte := x3d.
Definition COMMA : byte := x2c.
Definition print_option (kv : list byte * list byte) : list byte := kv.1 ++ EQUALS :: kv.2.
(** Options separated by commas. *)
Definition print_options (kvs : list (list byte * list byte)) : list byte :=
  match kvs with
  | [] => []
  | kv :: kvs => print_option kv ++ mjoin ((λ kv, COMMA :: print_option kv) <$> kvs)
  end.
Definition printable (kv : list byte * list byte) : Prop :=
  EQUALS ∉ kv.1 ∧ COMMA ∉ kv.1 ∧ COMMA ∉ kv.2.

Lemma key_value_print kv : EQUALS ∉ kv.1 → Config.key_value (print_option kv) = Some kv.
Proof.
  destruct kv as [k v]. unfold print_option. simpl. induction k as [|b k IH]; simpl; intros Hk.
  - done.
  - rewrite not_elem_of_cons in Hk. rewrite decide_False, IH by naive_solver. done.
Qed.
Lemma comma_print kv : printable kv → COMMA ∉ print_option kv.
Proof. intros (_ & Hk & Hv). unfold print_option. rewrite not_elem_of_app, not_elem_of_cons. naive_solver. Qed.
Lemma split_print l kvs : COMMA ∉ l → Forall printable kvs →
  split_at COMMA (l ++ mjoin ((λ kv, COMMA :: print_option kv) <$> kvs)) = l :: (print_option <$> kvs).
Proof.
  intros Hl Hk. revert l Hl. induction Hk as [|kv kvs Hkv Hk IH]; intros l Hl; simpl.
  - rewrite app_nil_r. by apply split_at_end.
  - rewrite split_at_cut by done. by rewrite IH by by apply comma_print.
Qed.
Lemma options_print kvs acc : Forall printable kvs → NoDup kvs.*1 → (∀ k, k ∈ kvs.*1 → acc !! k = None) →
  Config.options (print_option <$> kvs) acc = inr (list_to_map kvs ∪ acc).
Proof.
  intros Hk. revert acc. induction Hk as [|[k v] kvs Hkv Hk IH]; intros acc Hnd Hacc; simpl.
  - by rewrite (left_id_L ∅ (∪)).
  - apply NoDup_cons in Hnd as [Hnk Hnd]. rewrite key_value_print by apply Hkv. rewrite Hacc by set_solver.
    rewrite IH; [|done|].
    + f_equal. rewrite <- insert_union_r, insert_union_l; [done|]. by apply not_elem_of_list_to_map_1.
    + intros k' Hk'. rewrite lookup_insert_ne by set_solver. set_solver.
Qed.

(** A bind mount is read as it is written: whatever the order of the three options and with either name
    of the source and of the destination, [from_str] gives the mount of the canonical source at the
    destination, for any source and any absolute destination without a comma. *)
Theorem mount_syntax_roundtrip canonicalize kvs ks kd src src' dst :
  kvs ≡ₚ [(bytes "type", bytes "bind"); (ks, src); (kd, dst)] →
  ks ∈ [bytes "src"; bytes "source"] → kd ∈ [bytes "dst"; bytes "target"] →
  COMMA ∉ src → COMMA ∉ dst → is_absolute dst = true → canonicalize src = Some src' →
  Config.from_str canonicalize (print_options kvs) = inr (mkConfig (BindMount src') dst).
Proof.
  intros Hp Hks Hkd Hsrc Hdst Habs Hcan.
  assert (Forall printable kvs) as Hpr.
  { rewrite Hp. rewrite !elem_of_cons, elem_of_nil in Hks, Hkd. unfold printable, EQUALS, COMMA in *.
    repeat (apply Forall_cons; split); [..|apply Forall_nil_2]; simpl; split_and!; try done;
      destruct_or?; subst; try done; by apply (bool_decide_unpack _). }
  assert (NoDup kvs.*1) as Hnd.
  { rewrite Hp. rewrite !elem_of_cons, elem_of_nil in Hks, Hkd. destruct_or?; subst; try done;
      by apply (bool_decide_unpack _). }
  assert (split_at COMMA (print_options kvs) = print_option <$> kvs) as Hs.
  { destruct kvs as [|kv kvs]; [by apply Permutation_nil in Hp|]. apply Forall_cons in Hpr as [Hkv Hpr].
    simpl. apply split_print; [by apply comma_print|done]. }
  unfold Config.from_str. change x2c with COMMA. rewrite Hs, options_print by (done || set_solver).
  rewrite (right_id_L ∅ (∪)), (list_to_map_proper kvs _ Hnd Hp).
  rewrite !elem_of_cons, elem_of_nil in Hks, Hkd.
  match goal with |- context [list_to_map ?l] => set (m := (list_to_map l : gmap (list byte) (list byte))) end.
  assert (m !! bytes "type" = Some (bytes "bind") ∧ Config.either m "src" "source" = Some src ∧
          Config.either m "dst" "target" = Some dst) as (-> & -> & ->).
  { subst m. destruct Hks as [->|[->|[]]], Hkd as [->|[->|[]]]; vm_compute; by split_and!. }
  rewrite decide_True by done. by rewrite Habs, Hcan.
Qed.
Lemma mount_syntax_roundtrip_witness :
  Config.from_str Some (bytes "dst=/data,type=bind,source=/a=b") = inr (mkConfig (BindMount (bytes "/a=b")) (bytes "/data")).
Proof.
  refine (mount_syntax_roundtrip Some
    [(bytes "dst", bytes "/data"); (bytes "type", bytes "bind"); (bytes "source", bytes "/a=b")]
    (bytes "source") (bytes "dst") (bytes "/a=b") (bytes "/a=b") (bytes "/data") _ _ _ _ _ _ _);
    try reflexivity.
  - apply (Permutation_app_comm [_] [_; _]).
  - apply (bool_decide_unpack _). vm_compute. exact I.
  - apply (bool_decide_unpack _). vm_compute. exact I.
  - apply (bool_decide_unpack _). vm_compute. exact I.
  - apply (bool_decide_unpack _). vm_compute. exact I.
Defined.

(** ** What mount points must avoid *)

(** A mount at the root of the sandbox is matched by nothing below it, since the prefix looked for is two
    slashes. *)
Lemma root_mount_matches_nothing host p : is_utf8 p = true → p ≠ bytes "/" → (∀ rest, p ≠ SLASH :: SLASH :: rest) →
  Bind.translate_path (mkBind host (bytes "/")) p = inl NotFound.
Proof.
  intros Hu Hp Hd. pose proof (bind_translate (mkBind host (bytes "/")) p eq_refl Hu) as Hb.
  destruct (Bind.translate_path _ p) as [e|q]; [by destruct Hb as [_ ->]|].
  destruct Hb as [[->|[rest ->]] _]; [done|]. by destruct (Hd rest).
Qed.
(** Nor is a mount point written with a slash at its end, which [from_str] accepts. *)
Lemma trailing_slash_matches_nothing :
  Config.from_str Some (bytes "type=bind,src=/tmp,dst=/data/") =
    inr (mkConfig (BindMount (bytes "/tmp")) (bytes "/data/")) ∧
  Bind.translate_path (mkBind (bytes "/tmp") (bytes "/data/")) (bytes "/data/file") = inl NotFound.
Proof. split; vm_compute; reflexivity. Qed.
(** Dots are not resolved: a path below the mount point leads out of the host directory. *)
Lemma dots_leave_host_root :
  Bind.translate_path (mkBind (bytes "/tmp/agent") (bytes "/agent")) (bytes "/agent/../../etc/passwd") =
    inr (bytes "/tmp/agent/../../etc/passwd").
Proof. vm_compute. reflexivity. Qed.
(** Of two mounts at one mount point the first one added answers, not the last. *)
Lemma first_mount_wins h1 h2 :
  (snd <$> MountTable.resolve (@bind_table unit unit [mkBind h1 (bytes "/a"); mkBind h2 (bytes "/a")]) (bytes "/a")) =
    Some h1.
Proof. vm_compute. reflexivity. Qed.
