(* ===== verification/Guest.v ===== *)
(** * The sandbox: the traced process

    What the handlers of [sandbox/src/syscall] work with: the system calls of a process, the process
    itself behind the trait [Guest] of the [reverie] crate, open virtual files behind [FileOps]
    ([sandbox/src/vfs/file.rs]), and the tables of descriptors of all processes
    ([sandbox/src/sandbox/mod.rs]). *)

From S2P Require Import Prelude Utf8 Xdr Text FdTable Mounts.

#[local] Open Scope string_scope.
#[local] Open Scope list_scope.
#[local] Open Scope Z_scope.

(** ** System calls *)

(** The system calls the dispatcher names; [Sys_other] is [Syscall::Other] and [Sys_unknown] any call it
    has no arm for. *)
Inductive Sysno :=
  | Openat | Read | Write | Close | Dup | Dup2 | Dup3 | Rmdir | Unlinkat | Fork | Vfork | Clone | Clone3
  | Statx | Newfstatat | Statfs | Readlink | Readlinkat | Symlink | Symlinkat | Linkat | Llistxattr | Lgetxattr
  | Ioctl | Fcntl | Pselect6 | Poll | Getdents64 | Fstat | Fstatat | Pread64 | Pwrite64 | Lseek | Readv | Writev
  | Pipe2 | Socket | Sendto | Connect | Getpeername | Mmap | Access | Faccessat | Rename | Unlink | Chdir | Fchownat
  | Fchmodat
  | RtSigaction | RtSigprocmask | RtSigreturn | Sigaltstack | Execve | Execveat | Exit | ExitGroup
  | Getpid | Getppid | Gettid | Getuid | Geteuid | Getgid | Getegid | Wait4 | Waitid | Brk | ArchPrctl
  | Munmap | Mprotect | Mremap | Madvise | SetTidAddress | SetRobustList | Futex | Time | ClockGettime
  | ClockGetres | Gettimeofday | Getrandom | Prlimit64 | Getrlimit | Setrlimit | Tgkill | Tkill | Kill | Uname
  | Getpgrp | Getpgid | Setpgid | Setsid | Setfsuid | Setfsgid | Umask | Prctl
  | Sys_rseq | Sys_lseek | Sys_fchmodat | Sys_faccessat2 | Sys_other (num : Z) | Sys_unknown (num : Z).
Inductive FcntlCmd := F_DUPFD (arg : Z) | F_DUPFD_CLOEXEC (arg : Z) | F_other (cmd arg : Z).

(** A system call is its named arguments; an argument that is not there is a null pointer or absent.  A call
    made by [new()] has none. *)
Record Syscall := mkSyscall { sc_no : Sysno; sc_args : gmap string Z; sc_cmd : FcntlCmd }.
Definition new_call (n : Sysno) : Syscall := mkSyscall n ∅ (F_other 0 0).
Definition arg (s : Syscall) (k : string) : Z := default 0 (sc_args s !! k).
Definition opt (s : Syscall) (k : string) : option Z := sc_args s !! k.
Definition with_arg (k : string) (v : Z) (s : Syscall) : Syscall := mkSyscall (sc_no s) (<[k:=v]> (sc_args s)) (sc_cmd s).
Definition with_opt (k : string) (v : option Z) (s : Syscall) : Syscall :=
  mkSyscall (sc_no s) (partial_alter (λ _, v) k (sc_args s)) (sc_cmd s).
Definition with_cmd (c : FcntlCmd) (s : Syscall) : Syscall := mkSyscall (sc_no s) (sc_args s) c.
(** The arguments [ks] of another call. *)
Definition with_from (s0 : Syscall) (ks : list string) (s : Syscall) : Syscall :=
  foldl (λ s k, with_opt k (opt s0 k) s) s ks.

Module errno.
Definition EPERM : Z := 1.
Definition ENOENT : Z := 2.
Definition EIO : Z := 5.
Definition EBADF : Z := 9.
Definition EACCES : Z := 13.
Definition EFAULT : Z := 14.
Definition EEXIST : Z := 17.
Definition ENOTDIR : Z := 20.
Definition EINVAL : Z := 22.
Definition ENOSYS : Z := 38.
Definition EBADFD : Z := 77.
End errno.
Definition AT_FDCWD : Z := -100.
Definition AT_SYMLINK_NOFOLLOW : Z := 0x100.

(** ** The process and the files *)

(** [libc::pollfd] *)
Record PollFd := mkPollFd { pf_fd : Z; pf_events : Z; pf_revents : Z }.

(** The traced process.  Addresses are numbers; a failure is an error number. *)
Class Guest (W : Type) := {
  g_pid : W → Z;
  (** [PathPtr::read], [read_exact] and [read_value] *)
  g_read_path : Z → W → Z + list byte;
  g_read_exact : Z → Z → W → Z + list byte;
  g_read_fdset : Z → W → Z + gset Z;
  g_read_pollfd : Z → W → Z + PollFd;
  g_read_pipefd : Z → W → Z + (Z * Z);
  (** [write_exact] and [write_value] *)
  g_write_exact : Z → list byte → W → option Z * W;
  g_write_fdset : Z → gset Z → W → option Z * W;
  g_write_pollfd : Z → PollFd → W → option Z * W;
  (** [Mode::from_bits_truncate] and [AtFlags::from_bits_truncate] *)
  g_mode_bits : Z → Z;
  g_at_flags_bits : Z → Z;
  (** [stack().reserve()] of a number of bytes, and [commit] *)
  g_reserve : Z → W → Z * W;
  g_commit : W → option Z * W;
  (** a call made on behalf of the process, and the one that ends the handler *)
  g_inject : Syscall → W → (Z + Z) * W;
  g_tail_inject : Syscall → W → (Z + Z) * W
}.
(** The trait [FileOps], as far as the handlers call it: [read] fills the buffer it is given. *)
Class FileOps (F W : Type) := {
  fo_read : F → list byte → W → (VfsError + Z) * list byte * W;
  fo_write : F → list byte → W → (VfsError + Z) * W;
  fo_seek : F → Z → Z → W → (VfsError + Z) * W;
  fo_fstat : F → W → (VfsError + list byte) * W;
  fo_close : F → W → (VfsError + unit) * W;
  fo_getdents : F → W → (VfsError + list (Z * list byte * Z)) * W
}.

(** ** State and effect *)

(** An [FdTable] is a reference to shared state ([Arc<Mutex<FdTableInner>>]): an index into the tables
    made so far.  [FD_TABLES] says which process has which. *)
Record sandbox (W F : Type) := mkSandbox {
  sb_world : W;
  sb_heap : list (FdTableInner F);
  sb_tables : gmap Z nat
}.
Arguments mkSandbox {W F}.
Arguments sb_world {W F} _.
Arguments sb_heap {W F} _.
Arguments sb_tables {W F} _.

Inductive gres (A : Type) := GOk (a : A) | GErr (errno : Z) | GPanic.
Arguments GOk {A} a.
Arguments GErr {A} errno.
Arguments GPanic {A}.
Definition G (W F A : Type) : Type := sandbox W F → gres A * sandbox W F.
#[global] Instance G_ret W F : MRet (G W F) := λ A a s, (GOk a, s).
#[global] Instance G_bind W F : MBind (G W F) := λ A B k m s,
  match m s with
  | (GOk a, s) => k a s
  | (GErr e, s) => (GErr e, s)
  | (GPanic, s) => (GPanic, s)
  end.

Section effects.
Context {W F : Type}.
Definition gfail {A} (e : Z) : G W F A := λ s, (GErr e, s).
Definition gpanic {A} : G W F A := λ s, (GPanic, s).
Definition put_world (w : W) (s : sandbox W F) : sandbox W F := mkSandbox w (sb_heap s) (sb_tables s).
(** A read of the process, a change of it, a call of it, and a method that returns a result; the errors of
    all but the last end the handler ([?]). *)
Definition look {A} (f : W → Z + A) : G W F A := λ s,
  match f (sb_world s) with inr a => (GOk a, s) | inl e => (GErr e, s) end.
Definition poke (f : W → option Z * W) : G W F unit := λ s,
  let '(r, w) := f (sb_world s) in
  (match r with None => GOk tt | Some e => GErr e end, put_world w s).
Definition call {A} (f : W → (Z + A) * W) : G W F A := λ s,
  let '(r, w) := f (sb_world s) in
  (match r with inr a => GOk a | inl e => GErr e end, put_world w s).
Definition run {A} (f : W → A * W) : G W F A := λ s,
  let '(a, w) := f (sb_world s) in (GOk a, put_world w s).

(** An operation on a table; [None] is a panic. *)
Definition on_table {A} (ft : nat) (f : FdTableInner F → option (A * FdTableInner F)) : G W F A := λ s,
  match sb_heap s !! ft with
  | None => (GPanic, s)
  | Some t =>
      match f t with
      | None => (GPanic, s)
      | Some (a, t) => (GOk a, mkSandbox (sb_world s) (<[ft:=t]> (sb_heap s)) (sb_tables s))
      end
  end.
Definition fd_get (ft : nat) (vfd : Z) : G W F (option (FdEntry F)) := on_table ft (λ t, Some (FdTable.get vfd t, t)).
Definition fd_translate (ft : nat) (vfd : Z) : G W F (option Z) := on_table ft (λ t, Some (FdTable.translate vfd t, t)).
Definition fd_allocate (ft : nat) (e : FdEntry F) : G W F Z := on_table ft (FdTable.allocate e).
Definition fd_allocate_min (ft : nat) (lo : Z) (e : FdEntry F) : G W F Z := on_table ft (FdTable.allocate_min lo e).
Definition fd_allocate_at (ft : nat) (vfd : Z) (e : FdEntry F) : G W F (option (FdEntry F)) :=
  on_table ft (λ t, Some (FdTable.allocate_at vfd e t)).
Definition fd_deallocate (ft : nat) (vfd : Z) : G W F (option (FdEntry F)) :=
  on_table ft (λ t, Some (FdTable.deallocate vfd t)).
Definition fd_duplicate (ft : nat) (vfd : Z) : G W F (option Z) := on_table ft (FdTable.duplicate vfd).

(** A table of its own ([deep_clone], [FdTable::new]). *)
Definition new_table (t : FdTableInner F) : G W F nat := λ s,
  (GOk (length (sb_heap s)), mkSandbox (sb_world s) (sb_heap s ++ [t]) (sb_tables s)).
Definition fd_deep_clone (ft : nat) : G W F nat := t ← on_table ft (λ t, Some (t, t)); new_table t.
(** [sandbox::get_fd_table] and [sandbox::insert_fd_table] *)
Definition get_fd_table (pid : Z) : G W F nat := λ s,
  match sb_tables s !! pid with
  | Some ft => (GOk ft, s)
  | None =>
      let ft := length (sb_heap s) in
      (GOk ft, mkSandbox (sb_world s) (sb_heap s ++ [FdTable.new]) (<[pid:=ft]> (sb_tables s)))
  end.
Definition insert_fd_table (pid : Z) (ft : nat) : G W F unit := λ s,
  (GOk tt, mkSandbox (sb_world s) (sb_heap s) (<[pid:=ft]> (sb_tables s))).
End effects.

