(* ===== verification/SandboxCalls.v ===== *)
(** * The sandbox: system calls

    The handlers of [sandbox/src/syscall] and their dispatch: descriptors are translated by the table of the
    process, paths by the table of mounts, and the call goes to the kernel or to a virtual file. *)

From S2P Require Import Prelude Utf8 Xdr Text FdTable Mounts Guest.

#[local] Open Scope string_scope.
#[local] Open Scope list_scope.
#[local] Open Scope Z_scope.

(** What a handler leaves to be done. *)
Inductive SyscallResult := Value (v : Z) | Inject (s : Syscall).

Module Calls.
Section handlers.
Context {W F : Type} {GU : Guest W} {FO : FileOps F W} (mount_table : MountTable W F).
Abbreviation G := (G W F).

Definition inject (s : Syscall) : G Z := call (g_inject s).
Definition read_path (a : Z) : G (list byte) := look (g_read_path a).
Definition write_exact (a : Z) (b : list byte) : G unit := poke (g_write_exact a b).
(** The error numbers VFS errors become; readlink and the calls that make names differ. *)
Definition vfs_errno (e : VfsError) : Z :=
  match e with NotFound => - errno.ENOENT | PermissionDenied => - errno.EACCES | _ => - errno.EIO end.
Definition readlink_errno (e : VfsError) : Z :=
  match e with NotFound => - errno.ENOENT | PermissionDenied => - errno.EACCES | _ => - errno.EINVAL end.
Definition symlink_errno (e : VfsError) : Z :=
  match e with AlreadyExists => - errno.EEXIST | _ => vfs_errno e end.
Definition link_errno (e : VfsError) : Z :=
  match e with PermissionDenied => - errno.EPERM | _ => symlink_errno e end.

(** ** Paths ([syscall/mod.rs]) *)

Definition SIZE_OF_PATHBUF : Z := 24.
(** [CString::new] with its terminator *)
Definition c_string (p : list byte) : G (list byte) :=
  if bool_decide (x00 ∈ p) then gfail errno.EINVAL else mret (p ++ [x00]).
Definition translate_path (path_addr : Z) : G (option Z) :=
  path ← read_path path_addr;
  match to_str path with
  | None => mret None
  | Some _ =>
      match MountTable.resolve mount_table path with
      | None => mret None
      | Some (_, translated_path) =>
          bytes ← c_string (to_string_lossy translated_path);
          addr ← run (g_reserve SIZE_OF_PATHBUF);
          poke g_commit;;
          write_exact addr bytes;;
          mret (Some addr)
      end
  end.

(** ** Descriptors and files ([syscall/file.rs]) *)

(** The directory a relative path starts from, and the path; [None] is a virtual file without a path. *)
Definition at_dirfd (ft : nat) (dirfd : Z) (path : list byte) : G (option (Z * list byte)) :=
  if dirfd =? AT_FDCWD then mret (Some (dirfd, path))
  else if negb (is_absolute path) then
    e ← fd_get ft dirfd;
    match e with
    | Some dir_entry =>
        match kernel_fd dir_entry, FdTable.path dir_entry with
        | Some kfd, _ => mret (Some (kfd, path))
        | None, Some dir_path => mret (Some (AT_FDCWD, join dir_path path))
        | None, None => mret None
        end
    | None => mret (Some (dirfd, path))
    end
  else mret (Some (AT_FDCWD, path)).
(** The descriptor the kernel returned becomes one of the table. *)
Definition virtualize (ft : nat) (kfd flags : Z) (path : option (list byte)) : G (option Z) :=
  if 0 <=? kfd then vfd ← fd_allocate ft (Passthrough (Int.i32 kfd) flags path); mret (Some vfd)
  else mret (Some kfd).

Definition handle_openat (s : Syscall) (ft : nat) : G (option Z) :=
  match opt s "path" with
  | None => mret None
  | Some path_addr =>
      path ← read_path path_addr;
      d ← at_dirfd ft (arg s "dirfd") path;
      match d with
      | None => mret (Some (- errno.EBADF))
      | Some (kernel_dirfd, path) =>
          let open (p : Z) : Syscall :=
            with_from s ["flags"; "mode"] (with_arg "path" p (with_arg "dirfd" kernel_dirfd (new_call Openat))) in
          match MountTable.resolve mount_table path with
          | Some (v, _) =>
              if is_virtual v then
                r ← run (vfs_open v path (arg s "flags") (default 0x1a4 (opt s "mode")));
                match r with
                | inr file_ops => vfd ← fd_allocate ft (Virtual file_ops (arg s "flags") (Some path)); mret (Some vfd)
                | inl e => mret (Some (vfs_errno e))
                end
              else
                new_path_addr ← translate_path path_addr;
                kernel_fd ← inject (open (default path_addr new_path_addr));
                virtualize ft kernel_fd (arg s "flags") (Some path)
          | None =>
              kernel_fd ← inject (open path_addr);
              virtualize ft kernel_fd (arg s "flags") (Some path)
          end
      end
  end.

Definition zeros (n : Z) : list byte := replicate (Z.to_nat n) x00.
Definition handle_read (s : Syscall) (ft : nat) : G SyscallResult :=
  e ← fd_get ft (arg s "fd");
  match e with
  | Some (Passthrough kernel_fd _ _) => mret (Inject (with_arg "fd" kernel_fd s))
  | Some (Virtual file_ops _ _) =>
      match opt s "buf" with
      | None => mret (Value (- errno.EFAULT))
      | Some buf_addr =>
          '(r, buf) ← run (fo_read file_ops (zeros (arg s "len")));
          match r with
          | inr n =>
              (if n <=? 0 then mret tt
               else if Vec.len buf <? n then gpanic else write_exact buf_addr (take (Z.to_nat n) buf));;
              mret (Value n)
          | inl e => mret (Value (vfs_errno e))
          end
      end
  | None => mret (Inject s)
  end.
Definition handle_write (s : Syscall) (ft : nat) : G SyscallResult :=
  e ← fd_get ft (arg s "fd");
  match e with
  | Some (Passthrough kernel_fd _ _) => mret (Inject (with_arg "fd" kernel_fd s))
  | Some (Virtual file_ops _ _) =>
      match opt s "buf" with
      | None => mret (Value (- errno.EFAULT))
      | Some buf_addr =>
          buf ← look (g_read_exact buf_addr (arg s "len"));
          r ← run (fo_write file_ops buf);
          mret (Value (match r with inr n => n | inl e => vfs_errno e end))
      end
  | None => mret (Inject s)
  end.
Definition handle_close (s : Syscall) (ft : nat) : G SyscallResult :=
  e ← fd_deallocate ft (arg s "fd");
  match e with
  | Some (Passthrough kernel_fd _ _) => mret (Inject (with_arg "fd" kernel_fd s))
  | Some (Virtual file_ops _ _) => run (fo_close file_ops) ≫= λ _, mret (Value 0)
  | None => mret (Inject s)
  end.
Definition handle_dup (s : Syscall) (ft : nat) : G (option Z) :=
  e ← fd_get ft (arg s "oldfd");
  match e with
  | Some (Passthrough kernel_fd flags path) =>
      result ← inject (with_arg "oldfd" kernel_fd (new_call Dup));
      virtualize ft result flags path
  | Some (Virtual _ _ _) => fd_duplicate ft (arg s "oldfd")
  | None => mret None
  end.
(** What was open at the new number is closed. *)
Definition close_entry (e : option (FdEntry F)) : G unit :=
  match e with
  | Some (Passthrough kernel_fd _ _) => inject (with_arg "fd" kernel_fd (new_call Close)) ≫= λ _, mret tt
  | Some (Virtual file_ops _ _) => run (fo_close file_ops) ≫= λ _, mret tt
  | None => mret tt
  end.
(** [dup2] and [dup3], which differ in the flags of the new entry: [flags] is those of [dup3]. *)
Definition handle_dup_to (s : Syscall) (ft : nat) (flags : option Z) : G (option Z) :=
  let old_vfd := arg s "oldfd" in
  let new_vfd := arg s "newfd" in
  e ← fd_get ft old_vfd;
  match e with
  | None => mret None
  | Some (Passthrough old_kernel_fd _ path) =>
      old_new_entry ← fd_get ft new_vfd;
      new_kernel_fd ← inject (with_arg "oldfd" old_kernel_fd (new_call Dup));
      if new_kernel_fd <? 0 then mret (Some new_kernel_fd)
      else
        close_entry old_new_entry;;
        fd_allocate_at ft new_vfd (Passthrough (Int.i32 new_kernel_fd) (default 0 flags) path) ≫= λ _,
        mret (Some new_vfd)
  | Some (Virtual file_ops old_flags path) =>
      old_new_entry ← fd_get ft new_vfd;
      close_entry old_new_entry;;
      fd_allocate_at ft new_vfd (Virtual file_ops (default old_flags flags) path) ≫= λ _,
      mret (Some new_vfd)
  end.
Definition handle_dup2 (s : Syscall) (ft : nat) : G (option Z) := handle_dup_to s ft None.
Definition handle_dup3 (s : Syscall) (ft : nat) : G (option Z) := handle_dup_to s ft (Some (arg s "flags")).

(** A call on a descriptor of the kernel; the others are left as they are. *)
Definition on_kernel_fd (s : Syscall) (ft : nat) (build : Z → Syscall) : G (option Z) :=
  k ← fd_translate ft (arg s "fd");
  match k with
  | Some kernel_fd => result ← inject (build kernel_fd); mret (Some result)
  | None => mret None
  end.
Definition handle_ioctl (s : Syscall) (ft : nat) : G (option Z) :=
  k ← fd_translate ft (arg s "fd");
  match k with
  | Some kernel_fd =>
      if arg s "fd" =? kernel_fd then mret None
      else result ← inject (with_from s ["request"] (with_arg "fd" kernel_fd (new_call Ioctl))); mret (Some result)
  | None => mret None
  end.
Definition O_CLOEXEC : Z := 0x80000.
Definition handle_fcntl (s : Syscall) (ft : nat) : G (option Z) :=
  k ← fd_translate ft (arg s "fd");
  match k with
  | None => mret None
  | Some kernel_fd =>
      let dup (arg : Z) (flags : Z) (new_cmd : FcntlCmd) : G (option Z) :=
        new_kernel_fd ← inject (with_cmd new_cmd (with_arg "fd" kernel_fd (new_call Fcntl)));
        if 0 <=? new_kernel_fd then
          old_entry ← fd_get ft (Guest.arg s "fd");
          new_vfd ← fd_allocate_min ft arg (Passthrough (Int.i32 new_kernel_fd) flags (old_entry ≫= FdTable.path));
          mret (Some new_vfd)
        else mret (Some new_kernel_fd) in
      match sc_cmd s with
      | F_DUPFD arg => dup arg 0 (F_DUPFD 0)
      | F_DUPFD_CLOEXEC arg => dup arg O_CLOEXEC (F_DUPFD_CLOEXEC 0)
      | c => result ← inject (with_cmd c (with_arg "fd" kernel_fd (new_call Fcntl))); mret (Some result)
      end
  end.

(** *** Waiting *)

(** [libc::FD_ISSET] and [FD_SET]; a number that does not fit the set is out of bounds. *)
Definition FD_SETSIZE : Z := 1024.
Definition in_set (fd : Z) : bool := (0 <=? fd) && (fd <? FD_SETSIZE).
Fixpoint to_kernel (t : FdTableInner F) (virt_set : gset Z) (vfds : list Z) (kernel_set : gset Z) (max_fd : Z)
    : option (gset Z * Z) :=
  match vfds with
  | [] => Some (kernel_set, max_fd + 1)
  | vfd :: vfds =>
      if negb (in_set vfd) then None
      else if bool_decide (vfd ∈ virt_set) then
        match FdTable.translate vfd t with
        | Some kfd => if negb (in_set kfd) then None else to_kernel t virt_set vfds ({[kfd]} ∪ kernel_set) (Z.max max_fd kfd)
        | None => to_kernel t virt_set vfds kernel_set max_fd
        end
      else to_kernel t virt_set vfds kernel_set max_fd
  end.
Definition translate_to_kernel (virt_set : gset Z) (virt_nfds : Z) (ft : nat) : G (gset Z * Z) :=
  on_table ft (λ t, r ← to_kernel t virt_set (seqZ 0 virt_nfds) ∅ 0; Some (r, t)).
Fixpoint to_virtual (t : FdTableInner F) (kernel_set : gset Z) (kernel_nfds : Z) (vfds : list Z) (virt_set : gset Z)
    : option (gset Z) :=
  match vfds with
  | [] => Some virt_set
  | vfd :: vfds =>
      match FdTable.translate vfd t with
      | Some kfd =>
          if kfd <? kernel_nfds then
            if negb (in_set kfd) then None
            else if bool_decide (kfd ∈ kernel_set) then
              if negb (in_set vfd) then None else to_virtual t kernel_set kernel_nfds vfds ({[vfd]} ∪ virt_set)
            else to_virtual t kernel_set kernel_nfds vfds virt_set
          else to_virtual t kernel_set kernel_nfds vfds virt_set
      | None => to_virtual t kernel_set kernel_nfds vfds virt_set
      end
  end.
Definition translate_to_virtual (kernel_set : gset Z) (kernel_nfds virt_nfds : Z) (ft : nat) : G (gset Z) :=
  on_table ft (λ t, r ← to_virtual t kernel_set kernel_nfds (seqZ 0 virt_nfds) ∅; Some (r, t)).

Definition SIZE_OF_FD_SET : Z := 128.
Definition set_names : list string := ["readfds"; "writefds"; "exceptfds"].
Definition if_some {A B} (o : option A) (f : A → G B) : G (option B) :=
  match o with Some a => b ← f a; mret (Some b) | None => mret None end.
Definition handle_pselect6 (s : Syscall) (ft : nat) : G (option Z) :=
  let virt_nfds := arg s "nfds" in
  virt ← mapM (λ k, if_some (opt s k) (λ a, look (g_read_fdset a))) set_names;
  kern ← mapM (λ o, if_some o (λ vset, translate_to_kernel vset virt_nfds ft)) virt;
  let kernel_nfds := foldr (λ o m, Z.max (from_option snd 0 o) m) 0 kern in
  if kernel_nfds =? 0 then mret None
  else
    addrs ← mapM (λ o, if_some o (λ _ : gset Z * Z, run (g_reserve SIZE_OF_FD_SET))) kern;
    poke g_commit;;
    mapM (λ '(o, a), match o, a with Some (kset, _), Some a => poke (g_write_fdset a kset) | _, _ => mret tt end)
      (zip kern addrs) ≫= λ _,
    result ← inject (with_from s ["timeout"; "sigmask"] (foldl (λ c '(k, a), with_opt k a c)
               (with_arg "nfds" kernel_nfds (new_call Pselect6)) (zip set_names addrs)));
    if result <=? 0 then mret (Some result)
    else
      mapM (λ '(k, a), match a, opt s k with
                       | Some a, Some orig_addr =>
                           kset ← look (g_read_fdset a);
                           vset ← translate_to_virtual kset kernel_nfds virt_nfds ft;
                           poke (g_write_fdset orig_addr vset)
                       | _, _ => mret tt
                       end) (zip set_names addrs) ≫= λ _,
      mret (Some result).

Definition SIZE_OF_POLLFD : Z := 8.
Definition handle_poll (s : Syscall) (ft : nat) : G (option Z) :=
  let nfds := arg s "nfds" in
  if nfds =? 0 then mret None
  else match opt s "fds" with
  | None => mret None
  | Some fds_addr =>
      let idx := seqZ 0 nfds in
      pollfds ← mapM (λ i, look (g_read_pollfd (fds_addr + i * SIZE_OF_POLLFD))) idx;
      kernel_fds_addr ← run (g_reserve SIZE_OF_POLLFD);
      mapM (λ _, run (g_reserve SIZE_OF_POLLFD)) (seqZ 1 (nfds - 1)) ≫= λ _,
      poke g_commit;;
      mapM (λ '(i, p), k ← fd_translate ft (pf_fd p);
                       poke (g_write_pollfd (kernel_fds_addr + i * SIZE_OF_POLLFD)
                               (mkPollFd (default (pf_fd p) k) (pf_events p) 0))) (zip idx pollfds) ≫= λ _,
      result ← inject (with_from s ["timeout"] (with_arg "nfds" nfds (with_arg "fds" kernel_fds_addr (new_call Poll))));
      if result <=? 0 then mret (Some result)
      else
        mapM (λ '(i, p), k ← look (g_read_pollfd (kernel_fds_addr + i * SIZE_OF_POLLFD));
                         poke (g_write_pollfd (fds_addr + i * SIZE_OF_POLLFD)
                                 (mkPollFd (pf_fd p) (pf_events p) (pf_revents k)))) (zip idx pollfds) ≫= λ _,
        mret (Some result)
  end.

(** *** Directories and attributes *)

Definition ne_bytes (n : nat) (x : Z) : list byte := reverse (be_bytes n x).
(** [linux_dirent64] records, as many as fit. *)
Fixpoint dirents (count offset : Z) (es : list (Z * list byte * Z)) (buf : list byte) : list byte :=
  match es with
  | [] => buf
  | (ino, name, d_type) :: es =>
      let name_len := Vec.len name + 1 in
      let reclen := (19 + name_len + 7) `div` 8 * 8 in
      if count <? Vec.len buf + reclen then buf
      else
        let buf := buf ++ ne_bytes 8 (Int.u64 ino) ++ ne_bytes 8 (Int.u64 offset) ++ ne_bytes 2 (reclen `mod` 2 ^ 16) ++
                   [byte_of d_type] ++ name ++ [x00] in
        dirents count (offset + 1) es (buf ++ zeros ((- Vec.len buf) `mod` 8))
  end.
Definition handle_getdents64 (s : Syscall) (ft : nat) : G SyscallResult :=
  e ← fd_get ft (Int.i32 (arg s "fd"));
  match e with
  | Some (Passthrough kernel_fd _ _) => mret (Inject (with_arg "fd" (Int.u32 kernel_fd) s))
  | Some (Virtual file_ops _ _) =>
      r ← run (fo_getdents file_ops);
      match r with
      | inr es =>
          match opt s "dirent" with
          | None => mret (Value (- errno.EFAULT))
          | Some dirent_addr =>
              let buf := dirents (arg s "count") 1 es [] in
              (match buf with [] => mret tt | _ => write_exact dirent_addr buf end);;
              mret (Value (Vec.len buf))
          end
      | inl _ => mret (Value (- errno.ENOTDIR))
      end
  | None => mret (Inject s)
  end.
Definition write_stat (s : Syscall) (stat : list byte) : G unit :=
  match opt s "stat" with Some stat_addr => write_exact stat_addr stat | None => mret tt end.
Definition handle_fstat (s : Syscall) (ft : nat) : G SyscallResult :=
  e ← fd_get ft (arg s "fd");
  match e with
  | Some (Passthrough kernel_fd _ _) => mret (Inject (with_arg "fd" kernel_fd s))
  | Some (Virtual file_ops _ _) =>
      r ← run (fo_fstat file_ops);
      match r with
      | inr stat => write_stat s stat;; mret (Value 0)
      | inl e => mret (Value (vfs_errno e))
      end
  | None => mret (Inject s)
  end.
Definition handle_fstatat (s : Syscall) (ft : nat) : G SyscallResult :=
  match opt s "path" with
  | None => mret (Inject s)
  | Some path_addr =>
      path ← read_path path_addr;
      d ← at_dirfd ft (arg s "dirfd") path;
      match d with
      | None => gfail errno.EBADFD
      | Some (kernel_dirfd, path) =>
          let through : G SyscallResult := mret (Inject (with_arg "path" path_addr (with_arg "dirfd" kernel_dirfd s))) in
          match MountTable.resolve mount_table path with
          | Some (v, _) =>
              if is_virtual v then
                r ← run (vfs_stat v path);
                match r with
                | inr stat => write_stat s stat;; mret (Value 0)
                | inl e => mret (Value (vfs_errno e))
                end
              else through
          | None => through
          end
      end
  end.
Definition handle_pread64 (s : Syscall) (ft : nat) : G (option Z) :=
  on_kernel_fd s ft (λ k, with_from s ["buf"; "len"; "offset"] (with_arg "fd" k (new_call Pread64))).
Definition handle_pwrite64 (s : Syscall) (ft : nat) : G (option Z) :=
  on_kernel_fd s ft (λ k, with_from s ["buf"; "len"; "offset"] (with_arg "fd" k (new_call Pwrite64))).
(** [SEEK_SET] to [SEEK_HOLE] *)
Definition handle_lseek (s : Syscall) (ft : nat) : G SyscallResult :=
  e ← fd_get ft (arg s "fd");
  match e with
  | Some (Passthrough kernel_fd _ _) => mret (Inject (with_arg "fd" kernel_fd s))
  | Some (Virtual file_ops _ _) =>
      let whence := arg s "whence" in
      if (0 <=? whence) && (whence <=? 4) then
        r ← run (fo_seek file_ops (arg s "offset") whence);
        mret (Value (match r with inr o => o | inl e => vfs_errno e end))
      else mret (Value (- errno.EINVAL))
  | None => mret (Inject s)
  end.
Definition handle_mmap (s : Syscall) (ft : nat) : G (option Z) :=
  if arg s "fd" =? -1 then mret None
  else on_kernel_fd s ft (λ k, with_arg "fd" k (with_from s ["addr"; "len"; "prot"; "flags"; "offset"] (new_call Mmap))).

(** *** Calls on paths *)

(** The call with its path translated, if it is below a mount. *)
Definition on_path (s : Syscall) : G (option Syscall) :=
  match opt s "path" with
  | None => mret None
  | Some path_addr =>
      r ← translate_path path_addr;
      mret ((λ a, with_arg "path" a s) <$> r)
  end.
Definition handle_access : Syscall → G (option Syscall) := on_path.
Definition handle_unlink : Syscall → G (option Syscall) := on_path.
Definition handle_chdir : Syscall → G (option Syscall) := on_path.
Definition handle_rmdir : Syscall → G (option Syscall) := on_path.
Definition handle_unlinkat (s : Syscall) : G (option Syscall) :=
  if negb (arg s "dirfd" =? AT_FDCWD) then mret None else on_path s.
Definition handle_rename (s : Syscall) : G (option Syscall) :=
  old ← if_some (opt s "oldpath") translate_path;
  new ← if_some (opt s "newpath") translate_path;
  match mjoin old, mjoin new with
  | None, None => mret None
  | o, n => mret (Some (from_option (λ a, with_arg "newpath" a) id n (from_option (λ a, with_arg "oldpath" a) id o s)))
  end.

(** A path with a directory descriptor: both translated, the call made if either was. *)
Definition at_call (dirfd path_addr : Z) (ft : nat) (build : Z → Z → Syscall) : G (option Z) :=
  k ← (if dirfd =? AT_FDCWD then mret None else fd_translate ft dirfd);
  r ← translate_path path_addr;
  match k, r with
  | None, None => mret None
  | _, _ => result ← inject (build (default dirfd k) (default path_addr r)); mret (Some result)
  end.
Definition handle_faccessat2 (s : Syscall) (ft : nat) : G (option Z) :=
  at_call (Int.i32 (arg s "arg0")) (arg s "arg1") ft (λ d p,
    with_arg "arg5" 0 (with_arg "arg4" 0 (with_arg "arg3" (Int.u64 (Int.i32 (arg s "arg3")))
      (with_arg "arg2" (Int.u64 (Int.i32 (arg s "arg2"))) (with_arg "arg1" p
        (with_arg "arg0" (Int.u64 d) (new_call Sys_faccessat2))))))).
Definition at_dir_path (s : Syscall) (ft : nat) : G (option Z) :=
  match opt s "path" with
  | None => mret None
  | Some path_addr => at_call (arg s "dirfd") path_addr ft (λ d p, with_arg "path" p (with_arg "dirfd" d s))
  end.
Definition handle_faccessat : Syscall → nat → G (option Z) := at_dir_path.
Definition handle_fchownat : Syscall → nat → G (option Z) := at_dir_path.
Definition handle_chmod (s : Syscall) : G (option Z) :=
  if arg s "arg1" =? 0 then mret None
  else if negb (Int.i32 (arg s "arg0") =? AT_FDCWD) then mret None
  else
    r ← translate_path (arg s "arg1");
    match r with
    | Some new_path_addr =>
        injected ← inject (with_arg "flags" (g_at_flags_bits (Int.i32 (arg s "arg3")))
          (with_arg "mode" (g_mode_bits (Int.u32 (arg s "arg2"))) (with_arg "path" new_path_addr
             (with_arg "dirfd" AT_FDCWD (new_call Fchmodat)))));
        mret (Some injected)
    | None => mret None
    end.

(** *** Vectors, pipes and sockets *)

Definition handle_readv (s : Syscall) (ft : nat) : G (option Z) :=
  on_kernel_fd s ft (λ k, with_from s ["iov"] (with_arg "fd" k (new_call Readv))).
Definition handle_writev (s : Syscall) (ft : nat) : G (option Z) :=
  on_kernel_fd s ft (λ k, with_from s ["iov"] (with_arg "fd" k (new_call Writev))).
Definition handle_pipe2 (s : Syscall) (ft : nat) : G (option Z) :=
  result ← inject s;
  (if result =? 0 then
     match opt s "pipefd" with
     | None => mret tt
     | Some pipefd_addr =>
         '(k0, k1) ← look (g_read_pipefd pipefd_addr);
         virtual_read_fd ← fd_allocate ft (Passthrough k0 (arg s "flags") None);
         virtual_write_fd ← fd_allocate ft (Passthrough k1 (arg s "flags") None);
         write_exact pipefd_addr (ne_bytes 4 (Int.u32 virtual_read_fd));;
         write_exact (pipefd_addr + 4) (ne_bytes 4 (Int.u32 virtual_write_fd))
     end
   else mret tt);;
  mret (Some result).
Definition handle_socket (s : Syscall) (ft : nat) : G (option Z) :=
  kernel_fd ← inject s; virtualize ft kernel_fd 0 None.
Definition handle_sendto (s : Syscall) (ft : nat) : G (option Z) :=
  on_kernel_fd s ft (λ k, with_from s ["buf"; "flags"; "addr"] (with_arg "fd" k (new_call Sendto))).
Definition handle_connect (s : Syscall) (ft : nat) : G (option Z) :=
  on_kernel_fd s ft (λ k, with_from s ["addrlen"] (with_arg "fd" k (new_call Connect))).
Definition handle_getpeername (s : Syscall) (ft : nat) : G (option Z) :=
  on_kernel_fd s ft (λ k, with_from s ["usockaddr"; "usockaddr_len"] (with_arg "fd" k (new_call Getpeername))).

(** ** Attributes and links ([syscall/stat.rs], [syscall/xattr.rs]) *)

Definition kernel_dirfd (ft : nat) (dirfd : Z) : G Z :=
  if dirfd =? -100 then mret dirfd else k ← fd_translate ft dirfd; mret (default dirfd k).
(** A call on a path: by the virtual file system that has it, or by the kernel on the translated path; a path
    below no mount leaves the call as it is. *)
Definition by_path (path_addr : Z) (virt : Vfs W F → list byte → G Z) (build : Z → Syscall) : G (option Z) :=
  path ← read_path path_addr;
  let kernel : G (option Z) :=
    r ← translate_path path_addr;
    if_some r (λ a, inject (build a)) in
  match MountTable.resolve mount_table path with
  | Some (v, _) => if is_virtual v then r ← virt v path; mret (Some r) else kernel
  | None => kernel
  end.
Definition handle_statx (s : Syscall) (ft : nat) : G (option Z) :=
  kernel_dirfd ← kernel_dirfd ft (arg s "dirfd");
  match opt s "path" with
  | None => mret None
  | Some path_addr =>
      by_path path_addr (λ _ _, mret (- errno.ENOSYS)) (λ a,
        with_from s ["flags"; "mask"; "statx"] (with_arg "path" a (with_arg "dirfd" kernel_dirfd (new_call Statx))))
  end.
Definition handle_newfstatat (s : Syscall) (ft : nat) : G (option Z) :=
  kernel_dirfd ← kernel_dirfd ft (arg s "dirfd");
  match opt s "path" with
  | None => mret None
  | Some path_addr =>
      by_path path_addr
        (λ v path,
          r ← run ((if Z.land (arg s "flags") AT_SYMLINK_NOFOLLOW =? 0 then vfs_stat v else vfs_lstat v) path);
          match r with
          | inr stat => write_stat s stat;; mret 0
          | inl e => mret (vfs_errno e)
          end)
        (λ a, with_from s ["stat"; "flags"] (with_arg "path" a (with_arg "dirfd" kernel_dirfd (new_call Newfstatat))))
  end.
Definition handle_statfs : Syscall → G (option Syscall) := on_path.
Definition handle_llistxattr : Syscall → G (option Syscall) := on_path.
Definition handle_lgetxattr : Syscall → G (option Syscall) := on_path.
(** The target goes to the buffer of the process, cut to its size. *)
Definition virtual_readlink (buf : option Z) (bufsize : Z) (v : Vfs W F) (path : list byte) : G Z :=
  r ← run (vfs_readlink v path);
  match r with
  | inr target =>
      match buf with
      | Some buf_addr =>
          let target_bytes := to_string_lossy target in
          let bytes_to_write := Z.min (Vec.len target_bytes) bufsize in
          write_exact buf_addr (take (Z.to_nat bytes_to_write) target_bytes);;
          mret bytes_to_write
      | None => mret 0
      end
  | inl e => mret (readlink_errno e)
  end.
Definition handle_readlink (s : Syscall) : G (option Z) :=
  match opt s "path" with
  | None => mret None
  | Some path_addr =>
      by_path path_addr (virtual_readlink (opt s "buf") (arg s "bufsize"))
        (λ a, with_from s ["buf"; "bufsize"] (with_arg "path" a (new_call Readlink)))
  end.
Definition handle_readlinkat (s : Syscall) (ft : nat) : G (option Z) :=
  kernel_dirfd ← kernel_dirfd ft (arg s "dirfd");
  match opt s "path" with
  | None => mret None
  | Some path_addr =>
      by_path path_addr (virtual_readlink (opt s "buf") (arg s "buf_len"))
        (λ a, with_from s ["buf"; "buf_len"] (with_arg "path" a (with_arg "dirfd" kernel_dirfd (new_call Readlinkat))))
  end.
Definition errno_of (f : VfsError → Z) (r : VfsError + unit) : Z := match r with inr _ => 0 | inl e => f e end.
(** The link path is read before the target. *)
Definition symlink_call (s : Syscall) (build : Z → Syscall) : G (option Z) :=
  match opt s "linkpath" with
  | None => mret None
  | Some linkpath_addr =>
      read_path linkpath_addr ≫= λ _,
      match opt s "target" with
      | None => mret None
      | Some target_addr =>
          target ← read_path target_addr;
          by_path linkpath_addr
            (λ v linkpath, r ← run (vfs_symlink v target linkpath); mret (errno_of symlink_errno r)) build
      end
  end.
Definition handle_symlink (s : Syscall) : G (option Z) :=
  symlink_call s (λ a, with_arg "linkpath" a (with_from s ["target"] (new_call Symlink))).
Definition handle_symlinkat (s : Syscall) (ft : nat) : G (option Z) :=
  kernel_dirfd ← kernel_dirfd ft (arg s "newdirfd");
  symlink_call s (λ a,
    with_arg "linkpath" a (with_arg "newdirfd" kernel_dirfd (with_from s ["target"] (new_call Symlinkat)))).
Definition handle_linkat (s : Syscall) (ft : nat) : G (option Z) :=
  kernel_olddirfd ← kernel_dirfd ft (arg s "olddirfd");
  kernel_newdirfd ← kernel_dirfd ft (arg s "newdirfd");
  let build (o n : Z) : Syscall :=
    with_from s ["flags"] (with_arg "newpath" n (with_arg "newdirfd" kernel_newdirfd (with_arg "oldpath" o
      (with_arg "olddirfd" kernel_olddirfd (new_call Linkat))))) in
  match opt s "oldpath" with
  | None => mret None
  | Some oldpath_addr =>
      oldpath ← read_path oldpath_addr;
      match opt s "newpath" with
      | None => mret None
      | Some newpath_addr =>
          newpath ← read_path newpath_addr;
          let kernel : G (option Z) :=
            match MountTable.resolve mount_table oldpath, MountTable.resolve mount_table newpath with
            | Some (_, translated_oldpath), Some (_, translated_newpath) =>
                old_bytes ← c_string (to_string_lossy translated_oldpath);
                new_bytes ← c_string (to_string_lossy translated_newpath);
                old_addr ← run (g_reserve SIZE_OF_PATHBUF);
                new_addr ← run (g_reserve SIZE_OF_PATHBUF);
                poke g_commit;;
                write_exact old_addr old_bytes;;
                write_exact new_addr new_bytes;;
                result ← inject (build old_addr new_addr);
                mret (Some result)
            | Some _, None => r ← translate_path oldpath_addr; if_some r (λ a, inject (build a newpath_addr))
            | None, Some _ => r ← translate_path newpath_addr; if_some r (λ a, inject (build oldpath_addr a))
            | None, None => mret None
            end in
          match MountTable.resolve mount_table newpath with
          | Some (v, _) =>
              if is_virtual v then r ← run (vfs_link v oldpath newpath); mret (Some (errno_of link_errno r))
              else kernel
          | None => kernel
          end
      end
  end.

(** ** Processes ([syscall/process.rs]) *)

(** The child of a fork gets a table of its own. *)
Definition child_table (result : Z) (ft : nat) : G (option Z) :=
  (if 0 <? result then child ← fd_deep_clone ft; insert_fd_table (Int.i32 result) child else mret tt);;
  mret (Some result).
Definition handle_fork (s : Syscall) (ft : nat) : G (option Z) :=
  result ← inject (new_call Fork); child_table result ft.
Definition handle_vfork (s : Syscall) (ft : nat) : G (option Z) :=
  result ← inject (new_call Vfork); child_table result ft.
Definition CLONE_FILES : Z := 0x400.
Definition handle_clone (s : Syscall) (ft : nat) : G (option Z) :=
  result ← inject s;
  if (0 <? result) && negb (Z.land (arg s "flags") CLONE_FILES =? 0) then
    insert_fd_table (Int.i32 result) ft;; mret (Some result)
  else child_table result ft.
Definition handle_clone3 (s : Syscall) (ft : nat) : G (option Z) :=
  result ← inject s; child_table result ft.

(** ** Dispatch ([syscall/mod.rs], [sandbox/mod.rs]) *)

(** A handler that made the call, and one that may have changed it. *)
Definition made (s : Syscall) (m : G (option Z)) : G SyscallResult :=
  r ← m; mret (match r with Some v => Value v | None => Inject s end).
Definition changed (s : Syscall) (m : G (option Syscall)) : G SyscallResult :=
  r ← m; mret (Inject (default s r)).
(** Calls that only one of the two architectures has. *)
Definition not_aarch64 (n : Sysno) : bool :=
  match n with
  | Dup2 | Rmdir | Fork | Vfork | Newfstatat | Readlink | Symlink | Poll | Lseek | ArchPrctl | Access | Rename | Unlink
  | Time | Getpgrp => true
  | _ => false
  end.
Definition only_aarch64 (n : Sysno) : bool := match n with Unlinkat | Fstatat => true | _ => false end.
Definition dispatch_syscall (aarch64 : bool) (s : Syscall) (ft : nat) : G SyscallResult :=
  if (if aarch64 then not_aarch64 (sc_no s) else only_aarch64 (sc_no s)) then gfail errno.ENOSYS
  else
    match sc_no s with
    | Openat => made s (handle_openat s ft)
    | Read => handle_read s ft
    | Write => handle_write s ft
    | Close => handle_close s ft
    | Dup => made s (handle_dup s ft)
    | Dup2 => made s (handle_dup2 s ft)
    | Dup3 => made s (handle_dup3 s ft)
    | Rmdir => changed s (handle_rmdir s)
    | Unlinkat => changed s (handle_unlinkat s)
    | Fork => made s (handle_fork s ft)
    | Vfork => made s (handle_vfork s ft)
    | Clone => made s (handle_clone s ft)
    | Clone3 => made s (handle_clone3 s ft)
    | Statx => made s (handle_statx s ft)
    | Newfstatat => made s (handle_newfstatat s ft)
    | Statfs => changed s (handle_statfs s)
    | Readlink => made s (handle_readlink s)
    | Readlinkat => made s (handle_readlinkat s ft)
    | Symlink => made s (handle_symlink s)
    | Symlinkat => made s (handle_symlinkat s ft)
    | Linkat => made s (handle_linkat s ft)
    | Llistxattr => changed s (handle_llistxattr s)
    | Lgetxattr => changed s (handle_lgetxattr s)
    | Ioctl => made s (handle_ioctl s ft)
    | Fcntl => made s (handle_fcntl s ft)
    | Pselect6 => made s (handle_pselect6 s ft)
    | Poll => made s (handle_poll s ft)
    | Getdents64 => handle_getdents64 s ft
    | Fstat => handle_fstat s ft
    | Fstatat => handle_fstatat s ft
    | Pread64 => made s (handle_pread64 s ft)
    | Pwrite64 => made s (handle_pwrite64 s ft)
    | Lseek => handle_lseek s ft
    | Readv => made s (handle_readv s ft)
    | Writev => made s (handle_writev s ft)
    | Pipe2 => made s (handle_pipe2 s ft)
    | Socket => made s (handle_socket s ft)
    | Sendto => made s (handle_sendto s ft)
    | Connect => made s (handle_connect s ft)
    | Getpeername => made s (handle_getpeername s ft)
    | Mmap => made s (handle_mmap s ft)
    | Access => changed s (handle_access s)
    | Faccessat => made s (handle_faccessat s ft)
    | Rename => changed s (handle_rename s)
    | Unlink => changed s (handle_unlink s)
    | Chdir => changed s (handle_chdir s)
    | Fchownat => made s (handle_fchownat s ft)
    | Sys_fchmodat => made s (handle_chmod s)
    | Sys_faccessat2 => made s (handle_faccessat2 s ft)
    | RtSigaction | RtSigprocmask | RtSigreturn | Sigaltstack | Execve | Execveat | Exit | ExitGroup
    | Getpid | Getppid | Gettid | Getuid | Geteuid | Getgid | Getegid | Wait4 | Waitid | Brk | ArchPrctl
    | Munmap | Mprotect | Mremap | Madvise | SetTidAddress | SetRobustList | Futex | Time | ClockGettime
    | ClockGetres | Gettimeofday | Getrandom | Prlimit64 | Getrlimit | Setrlimit | Tgkill | Tkill | Kill | Uname
    | Getpgrp | Getpgid | Setpgid | Setsid | Setfsuid | Setfsgid | Umask | Prctl | Sys_rseq | Sys_lseek =>
        mret (Inject s)
    | Fchmodat | Sys_other _ | Sys_unknown _ => gfail errno.ENOSYS
    end.
Definition handle_syscall_event (aarch64 : bool) (s : Syscall) : G Z :=
  pid ← run (λ w, (g_pid w, w));
  ft ← get_fd_table pid;
  r ← dispatch_syscall aarch64 s ft;
  match r with
  | Value v => mret v
  | Inject s => call (g_tail_inject s)
  end.
End handlers.
End Calls.
