(* ===== verification/SandboxSafety.v ===== *)
(** * The sandbox: what a system call can do to descriptors

    For every behaviour of the traced process, of the kernel and of virtual files: a system call leaves
    every table well formed, changes no table but that of its process, and takes away no entry of that table
    but the one it names. *)

From S2P Require Import Prelude Utf8 Xdr Text FdTable FdThms Mounts Guest SandboxCalls.

(** * The sandbox: a sample process

    A traced process with a small kernel: descriptors that are open or not, strings in its memory, and a
    log of what was done.  It satisfies the witnesses and shows the defects. *)

#[local] Open Scope string_scope.
#[local] Open Scope list_scope.
#[local] Open Scope Z_scope.

Inductive event := Called (c : Syscall) | Wrote (addr : Z) (b : list byte) | Reserved (addr n : Z) | FileClosed (f : nat).
Record kworld := mkKernel {
  kw_pid : Z;
  kw_open : gset Z;
  kw_mem : gmap Z (list byte);
  kw_sp : Z;
  kw_log : list event
}.
Definition logged (e : event) (w : kworld) : kworld :=
  mkKernel (kw_pid w) (kw_open w) (kw_mem w) (kw_sp w) (kw_log w ++ [e]).
Definition set_open (o : gset Z) (w : kworld) : kworld := mkKernel (kw_pid w) o (kw_mem w) (kw_sp w) (kw_log w).
(** The kernel gives out its own lowest free number. *)
Definition kernel_lowest (w : kworld) : Z := default 64 (head (filter (.∉ kw_open w) (seqZ 0 64))).
Definition kernel_open (w : kworld) : (Z + Z) * kworld :=
  let k := kernel_lowest w in (inr k, set_open ({[k]} ∪ kw_open w) w).
Definition kernel_call (c : Syscall) (w : kworld) : (Z + Z) * kworld :=
  let w := logged (Called c) w in
  match sc_no c with
  | Dup => if decide (arg c "oldfd" ∈ kw_open w) then kernel_open w else (inl errno.EBADF, w)
  | Close => if decide (arg c "fd" ∈ kw_open w) then (inr 0, set_open (kw_open w ∖ {[arg c "fd"]}) w) else (inl errno.EBADF, w)
  | Openat | Socket => kernel_open w
  | Fork | Vfork | Clone | Clone3 => (inr 4242, w)
  | _ => (inr 0, w)
  end.
#[global] Instance kernel_guest : Guest kworld := {
  g_pid := kw_pid;
  g_read_path a w := from_option inr (inl errno.EFAULT) (kw_mem w !! a);
  g_read_exact a n w := from_option (λ b, inr (take (Z.to_nat n) b)) (inl errno.EFAULT) (kw_mem w !! a);
  g_read_fdset a w := inr {[0]};
  g_read_pollfd a w := inl errno.EFAULT;
  g_read_pipefd a w := inl errno.EFAULT;
  g_write_exact a b w := (None, logged (Wrote a b) (mkKernel (kw_pid w) (kw_open w) (<[a:=b]> (kw_mem w)) (kw_sp w) (kw_log w)));
  g_write_fdset a b w := (None, w);
  g_write_pollfd a b w := (None, w);
  g_mode_bits := id;
  g_at_flags_bits := id;
  g_reserve n w := (kw_sp w - n, logged (Reserved (kw_sp w - n) n) (mkKernel (kw_pid w) (kw_open w) (kw_mem w) (kw_sp w - n) (kw_log w)));
  g_commit w := (None, w);
  g_inject := kernel_call;
  g_tail_inject := kernel_call
}.
(** Virtual files are numbers. *)
#[global] Instance kernel_files : FileOps nat kworld := {
  fo_read f b w := (inr 0, b, w);
  fo_write f b w := (inr (Vec.len b), w);
  fo_seek f o wh w := (inr o, w);
  fo_fstat f w := (inr [], w);
  fo_close f w := (inr tt, logged (FileClosed f) w);
  fo_getdents f w := (inr [(7, bytes "a-name-that-is-long", 8)], w)
}.

Definition sample_path_addr : Z := 0x1000.
Definition sample_world : kworld :=
  mkKernel 100 {[0; 1; 2]} {[sample_path_addr := bytes "/agent/file"]} 0x8000 [].
Definition sample_mounts : MountTable kworld nat :=
  MountTable.add_mount (bytes "/agent") (Bind.vfs (mkBind (bytes "/srv/containers/agent-root") (bytes "/agent"))) MountTable.new.
Definition sample_sandbox : sandbox kworld nat := mkSandbox sample_world [] ∅.

(** System calls, written shortly. *)
Definition mk_call (n : Sysno) (args : list (string * Z)) : Syscall := mkSyscall n (list_to_map args) (F_other 0 0).
Definition do_call (c : Syscall) (s : sandbox kworld nat) : gres Z * sandbox kworld nat :=
  Calls.handle_syscall_event sample_mounts false c s.
Definition do_calls (cs : list Syscall) (s : sandbox kworld nat) : sandbox kworld nat := foldl (λ s c, (do_call c s).2) s cs.
Definition sample_opened : sandbox kworld nat :=
  do_calls [mk_call Openat [("dirfd", AT_FDCWD); ("path", sample_path_addr); ("flags", 0)];
          mk_call Dup2 [("oldfd", 0); ("newfd", 10)]] sample_sandbox.

(** * Theorems *)

#[local] Open Scope string_scope.
#[local] Open Scope list_scope.
#[local] Open Scope Z_scope.

Section safety.
Context {W F : Type} {GU : Guest W} {FO : FileOps F W} (mount_table : MountTable W F).
Implicit Types (s : sandbox W F) (t : FdTableInner F).

(** ** States and steps *)

(** Every table is well formed, and every process has one. *)
Definition tables_ok s : Prop :=
  Forall wf (sb_heap s) ∧ ∀ pid ft, sb_tables s !! pid = Some ft → (ft < length (sb_heap s))%nat.
(** The table [ft] may have got more descriptors and lost those in [X]; the others are the same. *)
Definition table_step (ft : nat) (X : Z → Prop) (j : nat) t t' : Prop :=
  if decide (j = ft) then ∀ v e, entries t !! v = Some e → ¬ X v → entries t' !! v = Some e else t' = t.
Definition step (ft : nat) (X : Z → Prop) s s' : Prop :=
  tables_ok s' ∧ ∀ j t, sb_heap s !! j = Some t → ∃ t', sb_heap s' !! j = Some t' ∧ table_step ft X j t t'.

Lemma table_step_refl ft X j t : table_step ft X j t t.
Proof. unfold table_step. by case_decide. Qed.
Lemma table_step_trans ft X j t1 t2 t3 : table_step ft X j t1 t2 → table_step ft X j t2 t3 → table_step ft X j t1 t3.
Proof. unfold table_step. case_decide; naive_solver. Qed.
Lemma step_refl ft X s : tables_ok s → step ft X s s.
Proof. intros Hs. split; [done|]. intros j t Ht. eauto using table_step_refl. Qed.
Lemma step_trans ft X s1 s2 s3 : step ft X s1 s2 → step ft X s2 s3 → step ft X s1 s3.
Proof.
  intros [_ H12] [Hok H23]. split; [done|]. intros j t1 Ht1. destruct (H12 j t1 Ht1) as (t2 & Ht2 & Hs12).
  destruct (H23 j t2 Ht2) as (t3 & Ht3 & Hs23). eauto using table_step_trans.
Qed.
Lemma step_weaken ft (X Y : Z → Prop) s s' : (∀ v, X v → Y v) → step ft X s s' → step ft Y s s'.
Proof.
  intros HXY [Hok Hs]. split; [done|]. intros j t Ht. destruct (Hs j t Ht) as (t' & Ht' & Hst).
  exists t'. split; [done|]. unfold table_step in *. case_decide; naive_solver.
Qed.
Lemma step_valid ft X s s' j : step ft X s s' → (j < length (sb_heap s))%nat → (j < length (sb_heap s'))%nat.
Proof.
  intros [_ Hs] [t Ht]%lookup_lt_is_Some. destruct (Hs j t Ht) as (t' & Ht' & _). by eapply lookup_lt_Some.
Qed.
(** A step on the process alone. *)
Lemma step_world ft X s w : tables_ok s → step ft X s (put_world w s).
Proof. intros Hs. apply (step_refl ft X (put_world w s)). done. Qed.

(** ** Actions *)

Definition keeps (ft : nat) (X : Z → Prop) {A} (m : G W F A) : Prop :=
  ∀ s, tables_ok s → (ft < length (sb_heap s))%nat → step ft X s (m s).2.

Section actions.
Context (ft : nat) (X : Z → Prop).
Abbreviation keeps m := (keeps ft X m).

Lemma sb_keeps_ret {A} (a : A) : keeps (mret a).
Proof. intros s Hs _. by apply step_refl. Qed.
Lemma sb_keeps_bind {A B} (m : G W F A) (k : A → G W F B) : keeps m → (∀ a, keeps (k a)) → keeps (m ≫= k).
Proof.
  intros Hm Hk s Hs Hft. specialize (Hm s Hs Hft). unfold mbind, G_bind. destruct (m s) as [[a|e|] s'] eqn:E;
    simpl in *; [|done..]. eapply step_trans; [done|]. apply Hk; [apply Hm|]. by eapply step_valid.
Qed.
Lemma sb_keeps_fail {A} e : keeps (gfail (A := A) e).
Proof. intros s Hs _. by apply step_refl. Qed.
Lemma sb_keeps_panic {A} : keeps (gpanic (A := A)).
Proof. intros s Hs _. by apply step_refl. Qed.
Lemma sb_keeps_look {A} (f : W → Z + A) : keeps (look f).
Proof. intros s Hs _. unfold look. destruct (f (sb_world s)); by apply step_refl. Qed.
Lemma sb_keeps_poke f : keeps (poke f).
Proof. intros s Hs _. unfold poke. destruct (f (sb_world s)). by apply step_world. Qed.
Lemma sb_keeps_call {A} (f : W → (Z + A) * W) : keeps (call f).
Proof. intros s Hs _. unfold call. destruct (f (sb_world s)). by apply step_world. Qed.
Lemma sb_keeps_run {A} (f : W → A * W) : keeps (run f).
Proof. intros s Hs _. unfold run. destruct (f (sb_world s)). by apply step_world. Qed.
Lemma sb_keeps_mapM {A B} (f : A → G W F B) l : (∀ a, keeps (f a)) → keeps (mapM f l).
Proof.
  intros Hf. induction l as [|a l IH]; simpl; [apply sb_keeps_ret|].
  apply sb_keeps_bind; [done|]. intros b. apply sb_keeps_bind; [done|]. intros. apply sb_keeps_ret.
Qed.
Lemma sb_keeps_if_some {A B} (o : option A) (f : A → G W F B) : (∀ a, keeps (f a)) → keeps (Calls.if_some o f).
Proof. intros Hf. destruct o; simpl; [apply sb_keeps_bind; [done|]; intros|]; apply sb_keeps_ret. Qed.

(** An operation on the table of the process. *)
Lemma sb_keeps_table {A} (f : FdTableInner F → option (A * FdTableInner F)) :
  (∀ t a t', wf t → f t = Some (a, t') →
     wf t' ∧ ∀ v e, entries t !! v = Some e → ¬ X v → entries t' !! v = Some e) → keeps (on_table ft f).
Proof.
  intros Hf s Hs Hft. unfold on_table. destruct (sb_heap s !! ft) as [t|] eqn:Et; [|by apply step_refl].
  destruct (f t) as [[a t']|] eqn:Ef; [|by apply step_refl]. destruct Hs as [Hwf Hids].
  destruct (Hf t a t') as [Hwf' Hb]; [by eapply Forall_lookup_1|done|]. split; simpl.
  - split; simpl; [by apply Forall_insert|]. intros pid j Hj. rewrite length_insert. eauto.
  - intros j u Hu. unfold table_step. destruct (decide (j = ft)) as [->|].
    + rewrite list_lookup_insert_eq by done. simplify_eq. eauto.
    + rewrite list_lookup_insert_ne by done. eauto.
Qed.
Lemma sb_keeps_get v : keeps (fd_get ft v).
Proof. apply sb_keeps_table. naive_solver. Qed.
Lemma sb_keeps_translate v : keeps (fd_translate ft v).
Proof. apply sb_keeps_table. naive_solver. Qed.
Lemma sb_keeps_insert t v e (t' : FdTableInner F) : lowest FIRST_USER_FD (entries t) v → entries t' = <[v:=e]> (entries t) →
  ∀ u d, entries t !! u = Some d → ¬ X u → entries t' !! u = Some d.
Proof. intros (_ & Hn & _) -> u d Hu _. by rewrite lookup_insert_ne by congruence. Qed.
Lemma sb_keeps_allocate e : keeps (fd_allocate ft e).
Proof.
  apply sb_keeps_table. intros t v t' Ht Ha. pose proof (wf_allocate e t Ht) as Hw. rewrite Ha in Hw.
  destruct Hw as (Hl & Hw & He). split; [done|]. by eapply sb_keeps_insert.
Qed.
Lemma sb_keeps_allocate_min lo e : keeps (fd_allocate_min ft lo e).
Proof.
  apply sb_keeps_table. intros t v t' Ht Ha. pose proof (wf_allocate_min lo e t Ht) as Hw. rewrite Ha in Hw.
  destruct Hw as ((_ & Hn & _) & Hw & ->). split; [done|]. intros u d Hu _. by rewrite lookup_insert_ne by congruence.
Qed.
Lemma sb_keeps_duplicate v : keeps (fd_duplicate ft v).
Proof.
  apply sb_keeps_table. intros t r t' Ht Ha. unfold FdTable.duplicate in Ha.
  destruct (FdTable.get v t) as [e|]; [|by simplify_eq].
  pose proof (wf_allocate e t Ht) as Hw. destruct (FdTable.allocate e t) as [[w u]|]; simplify_eq/=.
  destruct Hw as (Hl & Hw & He). split; [done|]. by eapply sb_keeps_insert.
Qed.
Lemma sb_keeps_deallocate v : X v → keeps (fd_deallocate ft v).
Proof.
  intros HX. apply sb_keeps_table. intros t r t' Ht Ha. destruct (wf_deallocate v t Ht) as [Hw He].
  destruct (FdTable.deallocate v t); simplify_eq/=. split; [done|]. intros u d Hu Hn. rewrite He.
  rewrite lookup_delete_ne; [done|]. by intros ->.
Qed.
Lemma sb_keeps_allocate_at v e : X v → v < I32_MAX → keeps (fd_allocate_at ft v e).
Proof.
  intros HX Hv. apply sb_keeps_table. intros t r t' Ht Ha.
  pose proof (wf_allocate_at v e t Ht Hv) as Hw. pose proof (allocate_at_entries v e t) as He.
  destruct (FdTable.allocate_at v e t); simplify_eq/=. split; [done|]. intros u d Hu Hn. rewrite He.
  rewrite lookup_insert_ne; [done|]. by intros ->.
Qed.

(** A new table, and whose it is. *)
Lemma app_step s t (tables : gmap Z nat) : tables_ok s → wf t →
  (∀ pid j, tables !! pid = Some j → (j ≤ length (sb_heap s))%nat) →
  step ft X s (mkSandbox (sb_world s) (sb_heap s ++ [t]) tables).
Proof.
  intros [Hwf Hids] Ht Htab. split.
  - split; simpl; [by apply Forall_app_2; [|constructor]|]. intros pid j Hj%Htab. rewrite length_app. simpl. lia.
  - intros j u Hu. exists u. simpl. split; [by apply lookup_app_l_Some|apply table_step_refl].
Qed.
Lemma sb_keeps_child r : keeps (Calls.child_table r ft).
Proof.
  intros s Hs Hft. unfold Calls.child_table. apply sb_keeps_bind; [| |done|done]; [|intros; apply sb_keeps_ret].
  clear s Hs Hft. destruct (0 <? r); [|apply sb_keeps_ret]. intros s Hs Hft.
  unfold fd_deep_clone, on_table, mbind, G_bind. destruct (sb_heap s !! ft) as [t|] eqn:Et; [|by apply step_refl].
  simpl. rewrite (list_insert_id (sb_heap s)) by done. apply app_step; [done|eapply Forall_lookup_1; [apply Hs|done]|].
  intros pid j. destruct (decide (pid = Int.i32 r)) as [->|].
  - rewrite lookup_insert_eq. intros. simplify_eq. lia.
  - rewrite lookup_insert_ne by done. intros Hj%Hs. lia.
Qed.
Lemma sb_keeps_share pid : keeps (insert_fd_table pid ft).
Proof.
  intros s [Hwf Hids] Hft. split; simpl; [split; [done|]|eauto using table_step_refl].
  intros p j. simpl. destruct (decide (p = pid)) as [->|].
  - rewrite lookup_insert_eq. intros. by simplify_eq.
  - rewrite lookup_insert_ne by done. apply Hids.
Qed.
End actions.

(** ** Handlers *)

#[local] Hint Resolve sb_keeps_ret sb_keeps_fail sb_keeps_panic sb_keeps_look sb_keeps_poke sb_keeps_call sb_keeps_run sb_keeps_get
  sb_keeps_translate sb_keeps_allocate sb_keeps_allocate_min sb_keeps_duplicate sb_keeps_child sb_keeps_share : core.
(** Close a goal [keeps ft X m] by the structure of [m]. *)
Ltac keep :=
  repeat match goal with
  | |- ∀ _, _ => intros
  | |- keeps _ _ (_ ≫= _) => apply sb_keeps_bind
  | |- keeps _ _ (mapM _ _) => apply sb_keeps_mapM
  | |- keeps _ _ (Calls.if_some _ _) => apply sb_keeps_if_some
  | |- _ => first [ solve [eauto 2] | progress unfold Calls.inject, Calls.read_path, Calls.write_exact, Calls.c_string | case_match ]
  end.

Section handlers.
Context (ft : nat) (X : Z → Prop).
Abbreviation keeps m := (keeps ft X m).

Lemma sb_keeps_translate_path a : keeps (Calls.translate_path mount_table a).
Proof. unfold Calls.translate_path, Calls.c_string. keep. Qed.
Lemma sb_keeps_at_dirfd d p : keeps (Calls.at_dirfd ft d p).
Proof. unfold Calls.at_dirfd. keep. Qed.
Lemma sb_keeps_virtualize k fl p : keeps (Calls.virtualize ft k fl p).
Proof. unfold Calls.virtualize. keep. Qed.
Lemma sb_keeps_to_kernel v n : keeps (Calls.translate_to_kernel v n ft).
Proof.
  apply sb_keeps_table. intros t a t' Ht Ha. destruct (Calls.to_kernel t v _ _ _); simplify_eq/=. naive_solver.
Qed.
Lemma sb_keeps_to_virtual k n m : keeps (Calls.translate_to_virtual k n m ft).
Proof.
  apply sb_keeps_table. intros t a t' Ht Ha. destruct (Calls.to_virtual t k n _ _); simplify_eq/=. naive_solver.
Qed.
#[local] Hint Resolve sb_keeps_translate_path sb_keeps_at_dirfd sb_keeps_virtualize sb_keeps_to_kernel sb_keeps_to_virtual : core.
Lemma sb_keeps_kernel_dirfd d : keeps (Calls.kernel_dirfd ft d).
Proof. unfold Calls.kernel_dirfd. keep. Qed.
Lemma sb_keeps_on_kernel_fd c build : keeps (Calls.on_kernel_fd c ft build).
Proof. unfold Calls.on_kernel_fd. keep. Qed.
Lemma sb_keeps_on_path c : keeps (Calls.on_path mount_table c).
Proof. unfold Calls.on_path. keep. Qed.
Lemma sb_keeps_at_call d p build : keeps (Calls.at_call mount_table d p ft build).
Proof. unfold Calls.at_call. keep. Qed.
Lemma sb_keeps_close_entry e : keeps (Calls.close_entry e).
Proof. unfold Calls.close_entry. keep. Qed.
Lemma sb_keeps_write_stat c b : keeps (Calls.write_stat c b).
Proof. unfold Calls.write_stat. keep. Qed.
Lemma sb_keeps_by_path a virt build : (∀ v p, keeps (virt v p)) → keeps (Calls.by_path mount_table a virt build).
Proof. intros Hv. unfold Calls.by_path. keep. Qed.
#[local] Hint Resolve sb_keeps_kernel_dirfd sb_keeps_on_kernel_fd sb_keeps_on_path sb_keeps_at_call sb_keeps_close_entry
  sb_keeps_write_stat : core.
Lemma sb_keeps_virtual_readlink b n v p : keeps (Calls.virtual_readlink b n v p).
Proof. unfold Calls.virtual_readlink. keep. Qed.
Lemma sb_keeps_symlink_call c build : keeps (Calls.symlink_call mount_table c build).
Proof. unfold Calls.symlink_call. keep. apply sb_keeps_by_path. keep. Qed.
#[local] Hint Resolve sb_keeps_virtual_readlink sb_keeps_symlink_call : core.

(** The descriptors a system call may take away: those of [close], [dup2] and [dup3]. *)
Definition taken (c : Syscall) (v : Z) : Prop :=
  match sc_no c with
  | Close => v = arg c "fd"
  | Dup2 | Dup3 => v = arg c "newfd"
  | _ => False
  end.
(** [dup2] and [dup3] to a number the table can hold. *)
Definition call_in_range (c : Syscall) : Prop :=
  match sc_no c with Dup2 | Dup3 => arg c "newfd" < I32_MAX | _ => True end.

Lemma sb_keeps_dup_to c fl : X (arg c "newfd") → arg c "newfd" < I32_MAX → keeps (Calls.handle_dup_to c ft fl).
Proof.
  intros HX Hr. unfold Calls.handle_dup_to.
  keep; by apply sb_keeps_allocate_at.
Qed.
Lemma sb_keeps_made c (m : G W F (option Z)) : keeps m → keeps (Calls.made c m).
Proof. intros Hm. unfold Calls.made. keep. Qed.
Lemma sb_keeps_changed c (m : G W F (option Syscall)) : keeps m → keeps (Calls.changed c m).
Proof. intros Hm. unfold Calls.changed. keep. Qed.
#[local] Hint Resolve sb_keeps_dup_to sb_keeps_made sb_keeps_changed : core.
Lemma sb_keeps_openat c : keeps (Calls.handle_openat mount_table c ft).
Proof. unfold Calls.handle_openat. keep. Qed.
Lemma sb_keeps_fcntl c : keeps (Calls.handle_fcntl c ft).
Proof. unfold Calls.handle_fcntl. keep. Qed.
Lemma sb_keeps_pselect6 c : keeps (Calls.handle_pselect6 c ft).
Proof. unfold Calls.handle_pselect6. keep. Qed.
Lemma sb_keeps_poll c : keeps (Calls.handle_poll c ft).
Proof. unfold Calls.handle_poll. keep. Qed.
Lemma sb_keeps_linkat c : keeps (Calls.handle_linkat mount_table c ft).
Proof. unfold Calls.handle_linkat. keep. Qed.
Lemma sb_keeps_paths c :
  keeps (Calls.handle_statx mount_table c ft) ∧ keeps (Calls.handle_newfstatat mount_table c ft) ∧
  keeps (Calls.handle_readlink mount_table c) ∧ keeps (Calls.handle_readlinkat mount_table c ft).
Proof.
  unfold Calls.handle_statx, Calls.handle_newfstatat, Calls.handle_readlink, Calls.handle_readlinkat.
  split_and!; keep; apply sb_keeps_by_path; keep.
Qed.
Lemma sb_keeps_close c : X (arg c "fd") → keeps (Calls.handle_close c ft).
Proof. intros HX. unfold Calls.handle_close. apply sb_keeps_bind; [by apply sb_keeps_deallocate|]. keep. Qed.
End handlers.

#[local] Hint Resolve sb_keeps_openat sb_keeps_fcntl sb_keeps_pselect6 sb_keeps_poll sb_keeps_linkat sb_keeps_made sb_keeps_changed
  sb_keeps_on_path sb_keeps_on_kernel_fd sb_keeps_at_call sb_keeps_translate_path sb_keeps_at_dirfd sb_keeps_virtualize
  sb_keeps_symlink_call sb_keeps_kernel_dirfd sb_keeps_write_stat : core.
Lemma sb_keeps_dispatch aarch64 c ft : call_in_range c →
  keeps ft (taken c) (Calls.dispatch_syscall mount_table aarch64 c ft).
Proof.
  intros Hr. unfold Calls.dispatch_syscall, call_in_range in *.
  match goal with |- keeps _ _ (if ?b then _ else _) => destruct b end; [apply sb_keeps_fail|].
  pose proof (sb_keeps_paths ft (taken c) c) as (? & ? & ? & ?).
  assert (taken c = match sc_no c with Close => (λ v, v = arg c "fd") | Dup2 | Dup3 => (λ v, v = arg c "newfd")
                                     | _ => (λ _, False) end) as Ht by (unfold taken; by destruct (sc_no c)).
  destruct (sc_no c) eqn:En; first
    [ apply sb_keeps_ret | apply sb_keeps_fail | solve [eauto 3]
    | apply sb_keeps_close; by rewrite Ht | apply sb_keeps_made, sb_keeps_dup_to; [by rewrite Ht|done] | idtac ].
  all: first [apply sb_keeps_made | apply sb_keeps_changed | idtac].
  all: unfold Calls.handle_read, Calls.handle_write, Calls.handle_dup, Calls.handle_unlinkat, Calls.handle_fork,
    Calls.handle_vfork, Calls.handle_clone, Calls.handle_clone3, Calls.handle_symlink, Calls.handle_symlinkat,
    Calls.handle_ioctl, Calls.handle_getdents64, Calls.handle_fstat, Calls.handle_fstatat, Calls.handle_pread64,
    Calls.handle_pwrite64, Calls.handle_lseek, Calls.handle_readv, Calls.handle_writev, Calls.handle_pipe2,
    Calls.handle_socket, Calls.handle_sendto, Calls.handle_connect, Calls.handle_getpeername, Calls.handle_mmap,
    Calls.handle_faccessat, Calls.handle_fchownat, Calls.at_dir_path, Calls.handle_rename, Calls.handle_chmod,
    Calls.handle_faccessat2; keep.
Qed.

(** The table of the calling process, made if it had none. *)
Lemma get_fd_table_spec pid s : tables_ok s → ∃ ft s', get_fd_table pid s = (GOk ft, s') ∧
  (ft < length (sb_heap s'))%nat ∧ (∀ X, step ft X s s') ∧
  (sb_tables s !! pid = Some ft ∨ ft = length (sb_heap s)).
Proof.
  intros Hs. unfold get_fd_table. destruct (sb_tables s !! pid) as [ft|] eqn:E.
  - exists ft, s. split_and!; [done|by eapply Hs|intros; by apply step_refl|by left].
  - eexists _, _. split_and!; [done|simpl; rewrite length_app; simpl; lia| |by right].
    intros X. apply app_step; [done|apply wf_new|]. intros p j. destruct (decide (p = pid)) as [->|].
    + rewrite lookup_insert_eq. intros. by simplify_eq.
    + rewrite lookup_insert_ne by done. intros Hj%Hs. lia.
Qed.
Lemma event_step aarch64 c s : tables_ok s → call_in_range c → ∃ ft,
  (sb_tables s !! g_pid (sb_world s) = Some ft ∨ ft = length (sb_heap s)) ∧
  step ft (taken c) s (Calls.handle_syscall_event mount_table aarch64 c s).2.
Proof.
  intros Hs Hr. unfold Calls.handle_syscall_event, mbind, G_bind, run. simpl.
  change (put_world (sb_world s) s) with (mkSandbox (sb_world s) (sb_heap s) (sb_tables s)). destruct s as [w h tb].
  simpl. destruct (get_fd_table_spec (g_pid w) (mkSandbox w h tb) Hs) as (ft & s' & -> & Hv & Hst & Hft).
  exists ft. split; [done|]. eapply step_trans; [apply Hst|].
  pose proof (sb_keeps_dispatch aarch64 c ft Hr s' ltac:(apply (Hst (taken c))) Hv) as Hd.
  destruct (Calls.dispatch_syscall mount_table aarch64 c ft s') as [[[v|c']|e|] s'']; simpl in *; [done| |done..].
  eapply step_trans; [done|]. apply sb_keeps_call; [apply Hd|]. by eapply step_valid.
Qed.
End safety.

(** The sample process: every state its calls lead to. *)
Lemma do_calls_ok cs s : tables_ok s → Forall call_in_range cs → tables_ok (do_calls cs s).
Proof.
  intros Hs Hcs. revert s Hs. induction Hcs as [|c cs Hc Hcs IH]; intros s Hs; simpl; [done|]. apply IH.
  destruct (event_step sample_mounts false c s Hs Hc) as (ft & _ & Hok & _). exact Hok.
Qed.
Lemma sample_opened_ok : tables_ok sample_opened.
Proof.
  apply do_calls_ok; [split; [apply Forall_nil_2|intros pid ft Hft; discriminate Hft]|].
  repeat (apply Forall_cons; split; [vm_compute; done|]). apply Forall_nil_2.
Qed.

(** C13. Whatever the traced processes, the kernel and the virtual files do: after a system call every table of
    descriptors is well formed; a table that is not the caller's is unchanged; and each descriptor that was
    open in the caller's table still has the same entry there (the kernel's descriptor with its flags and
    path, or the virtual file), except the one that [close], [dup2] or [dup3] names.  The call must not name
    the largest [i32] as the new number.  This is about the tables: it does not say that the kernel's
    descriptor in an entry stays open, since a call on a number that is not in the table is passed on to the
    kernel and can close it. *)
Theorem descriptors_stay_bound {W F} {GU : Guest W} {FO : FileOps F W} (mount_table : MountTable W F)
    (aarch64 : bool) (c : Syscall) (s : sandbox W F) :
  tables_ok s → call_in_range c →
  let s' := (Calls.handle_syscall_event mount_table aarch64 c s).2 in
  tables_ok s' ∧
  ∀ j t, sb_heap s !! j = Some t → ∃ t', sb_heap s' !! j = Some t' ∧
    (sb_tables s !! g_pid (sb_world s) ≠ Some j → t' = t) ∧
    (∀ v e, entries t !! v = Some e → ¬ taken c v → entries t' !! v = Some e).
Proof.
  intros Hs Hr s'. destruct (event_step mount_table aarch64 c s Hs Hr) as (ft & Hft & Hok & Hst).
  split; [done|]. intros j t Ht. destruct (Hst j t Ht) as (t' & Ht' & Hts). exists t'. split; [done|].
  unfold table_step in Hts. destruct (decide (j = ft)) as [->|]; [|naive_solver].
  split; [|done]. destruct Hft as [Hft| ->]; [done|]. apply lookup_lt_Some in Ht. lia.
Qed.
Definition close_3 : Syscall := mk_call Close [("fd", 3)].
Lemma descriptors_stay_bound_witness :
  (do_call close_3 sample_opened).1 = GOk 0 ∧
  ∃ t, sb_heap (do_call close_3 sample_opened).2 !! 0%nat = Some t ∧ entries t !! 3 = None ∧
    entries t !! 10 = Some (Passthrough 4 0 None).
Proof.
  split; [vm_compute; reflexivity|].
  destruct (descriptors_stay_bound sample_mounts false close_3 sample_opened sample_opened_ok I) as [_ Hst].
  destruct (sb_heap sample_opened !! 0%nat) as [t|] eqn:Et; [|vm_compute in Et; discriminate Et].
  destruct (Hst 0%nat t Et) as (t' & Ht' & _ & Hb). exists t'. split; [exact Ht'|split].
  - assert ((λ t, entries t !! 3) <$> (sb_heap (do_call close_3 sample_opened).2 !! 0%nat) = Some None) as H
      by (vm_compute; reflexivity).
    change (sb_heap (do_call close_3 sample_opened).2 !! 0%nat = Some t') in Ht'. rewrite Ht' in H. by inversion H.
  - apply Hb; [|intros Hv; discriminate Hv].
    assert ((λ t, entries t !! 10) <$> (sb_heap sample_opened !! 0%nat) = Some (Some (Passthrough 4 0 None))) as H
      by (vm_compute; reflexivity).
    rewrite Et in H. by inversion H.
Defined.
