(* ===== verification/SandboxThms.v ===== *)
(** * The sandbox: theorems on system calls

    Which table the child of a process gets, what [pselect6] reports, and behaviours that are not meant. *)

From S2P Require Import Prelude Utf8 Xdr Text FdTable FdThms Mounts Guest SandboxCalls SandboxSafety.

#[local] Open Scope string_scope.
#[local] Open Scope list_scope.
#[local] Open Scope Z_scope.

(** ** Children *)

(** The calls that make a process; [fork] and [vfork] are made anew, the others as they came. *)
Definition makes_child (c : Syscall) : option Syscall :=
  match sc_no c with
  | Fork => Some (new_call Fork)
  | Vfork => Some (new_call Vfork)
  | Clone | Clone3 => Some c
  | _ => None
  end.
(** Whether the child shares the descriptors: [clone] with [CLONE_FILES]. *)
Definition shares (c : Syscall) : bool :=
  match sc_no c with Clone => negb (Z.land (arg c "flags") Calls.CLONE_FILES =? 0) | _ => false end.

Section children.
Context {W F : Type} {GU : Guest W} {FO : FileOps F W} (mount_table : MountTable W F).

Lemma child_table_runs (s : sandbox W F) ft t pid : sb_heap s !! ft = Some t → 0 < pid < 2 ^ 31 →
  Calls.child_table pid ft s =
    (GOk (Some pid), mkSandbox (sb_world s) (sb_heap s ++ [t]) (<[pid := length (sb_heap s)]> (sb_tables s))).
Proof.
  intros Ht Hp. unfold Calls.child_table, fd_deep_clone, on_table, mbind, G_bind. rewrite (proj2 (Z.ltb_lt 0 pid)) by lia.
  rewrite Ht. simpl. rewrite (list_insert_id (sb_heap s)) by done. by rewrite Int.i32_small by lia.
Qed.
Lemma child_dispatch (s : sandbox W F) ft t c k pid w :
  makes_child c = Some k → sb_heap s !! ft = Some t → g_inject k (sb_world s) = (inr pid, w) → 0 < pid < 2 ^ 31 →
  Calls.dispatch_syscall mount_table false c ft s =
    (GOk (Value pid),
     if shares c then mkSandbox w (sb_heap s) (<[pid := ft]> (sb_tables s))
     else mkSandbox w (sb_heap s ++ [t]) (<[pid := length (sb_heap s)]> (sb_tables s))).
Proof.
  intros Hk Ht Hi Hp. unfold makes_child, shares in *. unfold Calls.dispatch_syscall.
  assert ((0 <? pid) = true) as Hpos by lia.
  destruct (sc_no c) eqn:En; simplify_eq; simpl;
    unfold Calls.made, Calls.handle_fork, Calls.handle_vfork, Calls.handle_clone, Calls.handle_clone3, Calls.inject, call,
      mbind, G_bind; rewrite Hi; simpl; rewrite ?Hpos; simpl.
  3: destruct (Z.land (arg _ "flags") Calls.CLONE_FILES =? 0); simpl; [|by rewrite Int.i32_small by lia].
  all: change (Calls.child_table ?p ?f ?x) with (Calls.child_table p f x);
    erewrite (child_table_runs (put_world w s)) by done; done.
Qed.
End children.

(** The child of a process: after [fork], [vfork], [clone3] and [clone] it has a new table with the
    descriptors of its parent, which no call of the parent reaches any more; after [clone] with
    [CLONE_FILES] it has the table of its parent. *)
Theorem children_get_tables {W F} {GU : Guest W} {FO : FileOps F W} (mount_table : MountTable W F)
    (s : sandbox W F) (c k : Syscall) (ft : nat) (t : FdTableInner F) (pid : Z) (w : W) :
  tables_ok s → makes_child c = Some k → sb_tables s !! g_pid (sb_world s) = Some ft → sb_heap s !! ft = Some t →
  g_inject k (sb_world s) = (inr pid, w) → 0 < pid < 2 ^ 31 →
  let '(r, s') := Calls.handle_syscall_event mount_table false c s in
  r = GOk pid ∧ sb_heap s' !! ft = Some t ∧
  if shares c then sb_tables s' !! pid = Some ft
  else ∃ child, sb_tables s' !! pid = Some child ∧ sb_heap s' !! child = Some t ∧
         ∀ p, sb_tables s !! p ≠ Some child.
Proof.
  intros [_ Hids] Hk Hft Ht Hi Hp. unfold Calls.handle_syscall_event, mbind, G_bind, run. simpl.
  unfold get_fd_table. simpl. rewrite Hft. destruct s as [w0 h tb]. simpl in *. unfold put_world. simpl.
  erewrite (child_dispatch mount_table (mkSandbox w0 h tb)) by done. simpl.
  split; [done|]. destruct (shares c); simpl; [by rewrite lookup_insert_eq|].
  split; [by apply lookup_app_l_Some|]. exists (length h). rewrite lookup_insert_eq.
  split_and!; [done|by apply list_lookup_middle|]. intros p Hp'%Hids. simpl in Hp'. lia.
Qed.
Definition fork_call : Syscall := mk_call Fork [].
Lemma children_get_tables_witness :
  ∃ t, sb_heap sample_opened !! 0%nat = Some t ∧
  let '(r, s') := do_call fork_call sample_opened in
  r = GOk 4242 ∧ sb_heap s' !! 0%nat = Some t ∧
  ∃ child, sb_tables s' !! 4242 = Some child ∧ sb_heap s' !! child = Some t ∧
    ∀ p, sb_tables sample_opened !! p ≠ Some child.
Proof.
  destruct (sb_heap sample_opened !! 0%nat) as [t|] eqn:Et; [|vm_compute in Et; discriminate Et].
  exists t. split; [reflexivity|].
  apply (children_get_tables sample_mounts sample_opened fork_call (new_call Fork) 0 t 4242
    (logged (Called (new_call Fork)) (sb_world sample_opened)) sample_opened_ok eq_refl).
  - vm_compute. reflexivity.
  - exact Et.
  - reflexivity.
  - lia.
Defined.

(** ** Waiting *)

Section select.
Context {F : Type} (t : FdTableInner F).

(** The kernel's set: the kernel descriptors behind those asked for. *)
Lemma to_kernel_spec vset vfds k0 m0 kset nk : Calls.to_kernel t vset vfds k0 m0 = Some (kset, nk) →
  (∀ k, k ∈ kset ↔ k ∈ k0 ∨ ∃ v, v ∈ vfds ∧ v ∈ vset ∧ FdTable.translate v t = Some k) ∧
  (∀ v, v ∈ vfds → Calls.in_set v = true) ∧
  (∀ k, k ∈ kset → k ∈ k0 ∨ Calls.in_set k = true ∧ k < nk) ∧ m0 < nk ∧ nk ≤ Z.max (m0 + 1) Calls.FD_SETSIZE.
Proof.
  revert k0 m0. induction vfds as [|v vfds IH]; intros k0 m0; simpl.
  { intros. simplify_eq. split_and!; [set_solver..|lia|lia]. }
  destruct (Calls.in_set v) eqn:Ev; simpl; [|done].
  assert (∀ k1 m1, (∀ k, k ∈ k1 ↔ k ∈ k0 ∨ v ∈ vset ∧ FdTable.translate v t = Some k) → m0 ≤ m1 ≤ Z.max m0 (Calls.FD_SETSIZE - 1) →
    (∀ k, k ∈ k1 → k ∉ k0 → Calls.in_set k = true ∧ k ≤ m1) →
    Calls.to_kernel t vset vfds k1 m1 = Some (kset, nk) →
    (∀ k, k ∈ kset ↔ k ∈ k0 ∨ ∃ u, u ∈ v :: vfds ∧ u ∈ vset ∧ FdTable.translate u t = Some k) ∧
    (∀ u, u ∈ v :: vfds → Calls.in_set u = true) ∧
    (∀ k, k ∈ kset → k ∈ k0 ∨ Calls.in_set k = true ∧ k < nk) ∧ m0 < nk ∧ nk ≤ Z.max (m0 + 1) Calls.FD_SETSIZE) as Hgo.
  { intros k1 m1 Hk1 [Hm Hm1] Hin Hrun. apply IH in Hrun as (H1 & H2 & H3 & H4 & H5). split_and!; [| | |lia|lia].
    - intros k. rewrite H1, Hk1. set_solver.
    - set_solver.
    - intros k Hk. destruct (decide (k ∈ k0)) as [|Hn]; [by left|]. right.
      destruct (H3 k Hk) as [Hk'|]; [|done]. destruct (Hin k Hk' Hn). split; [done|lia]. }
  case_bool_decide as Hv; [|apply Hgo; [naive_solver|lia|naive_solver]].
  destruct (FdTable.translate v t) as [k|] eqn:Ek; [|apply Hgo; [naive_solver|lia|naive_solver]].
  destruct (Calls.in_set k) eqn:Eik; simpl; [|done].
  assert (0 ≤ k < Calls.FD_SETSIZE) by (unfold Calls.in_set in Eik; lia). apply Hgo; [set_solver|lia|].
  intros k' [->%elem_of_singleton|]%elem_of_union Hn; [split; [done|lia]|done].
Qed.
(** The set reported: the descriptors whose kernel descriptor the kernel reports. *)
Lemma to_virtual_spec kset nk vfds v0 : (∀ v, v ∈ vfds → Calls.in_set v = true) →
  (∀ v k, v ∈ vfds → FdTable.translate v t = Some k → k < nk → Calls.in_set k = true) →
  ∃ vset, Calls.to_virtual t kset nk vfds v0 = Some vset ∧
    ∀ v, v ∈ vset ↔ v ∈ v0 ∨ v ∈ vfds ∧ ∃ k, FdTable.translate v t = Some k ∧ k < nk ∧ k ∈ kset.
Proof.
  revert v0. induction vfds as [|v vfds IH]; intros v0 Hin Hk; simpl; [eexists; split; [done|]; set_solver|].
  assert (∀ v1, (∀ u, u ∈ v1 ↔ u ∈ v0 ∨ u = v ∧ ∃ k, FdTable.translate u t = Some k ∧ k < nk ∧ k ∈ kset) →
    ∃ vset, Calls.to_virtual t kset nk vfds v1 = Some vset ∧
      ∀ u, u ∈ vset ↔ u ∈ v0 ∨ u ∈ v :: vfds ∧ ∃ k, FdTable.translate u t = Some k ∧ k < nk ∧ k ∈ kset) as Hgo.
  { intros v1 Hv1. destruct (IH v1) as (vset & Hrun & Hs); [set_solver..|]. exists vset. split; [done|].
    intros u. rewrite Hs, Hv1, elem_of_cons. tauto. }
  destruct (FdTable.translate v t) as [k|] eqn:Ek; [|apply Hgo; naive_solver].
  destruct (Z.ltb_spec k nk) as [Hlt|]; [|apply Hgo; naive_solver lia].
  rewrite (Hk v k) by (done || set_solver). simpl. case_bool_decide as Hks; [|apply Hgo; naive_solver].
  rewrite (Hin v) by set_solver. simpl. apply Hgo. intros u. rewrite elem_of_union, elem_of_singleton.
  split; [|naive_solver]. intros [->|]; [right; eauto|by left].
Qed.
End select.

(** What [pselect6] reports: the kernel is asked about the kernel descriptors behind those of the set, and
    when it reports some of these, the process is told exactly those of its own descriptors that it asked for
    and whose kernel descriptor is ready, as long as no two of them share one. *)
Theorem select_reports_ready {F} (t : FdTableInner F) (vset : gset Z) (n : Z) (kset : gset Z) (nk : Z) (ready : gset Z) :
  Calls.to_kernel t vset (seqZ 0 n) ∅ 0 = Some (kset, nk) →
  (∀ v w k, 0 ≤ v < n → 0 ≤ w < n → FdTable.translate v t = Some k → FdTable.translate w t = Some k → v = w) →
  (∀ v k, 0 ≤ v < n → FdTable.translate v t = Some k → 0 ≤ k) →
  ready ⊆ kset →
  ∃ reported, Calls.to_virtual t ready nk (seqZ 0 n) ∅ = Some reported ∧
    ∀ v, v ∈ reported ↔ 0 ≤ v < n ∧ v ∈ vset ∧ ∃ k, FdTable.translate v t = Some k ∧ k ∈ ready.
Proof.
  intros Hk Hinj Hpos Hready. apply to_kernel_spec in Hk as (Hks & Hin & Hrange & Hnk & Hmax).
  unfold Calls.FD_SETSIZE in Hmax.
  destruct (to_virtual_spec t ready nk (seqZ 0 n) ∅ Hin) as (reported & Hrun & Hrep).
  { intros v k Hv%elem_of_seqZ Ht Hlt. specialize (Hpos v k ltac:(lia) Ht). unfold Calls.in_set, Calls.FD_SETSIZE. lia. }
  exists reported. split; [done|]. intros v. rewrite Hrep, elem_of_seqZ. split.
  - intros [?%elem_of_empty|(Hv & k & Ht & Hlt & Hr)]; [done|].
    destruct (proj1 (Hks k) (Hready k Hr)) as [?%elem_of_empty|(u & Hu%elem_of_seqZ & Hus & Htu)]; [done|].
    assert (u = v) as -> by (eapply Hinj; [lia|lia|done|done]). split; [lia|eauto].
  - intros (Hv & Hvs & k & Ht & Hr). right. split; [lia|]. exists k. split_and!; [done| |done].
    destruct (Hrange k (Hready k Hr)) as [?%elem_of_empty|[_ ?]]; [done|lia].
Qed.
Definition sample_fds : FdTableInner unit := (FdTable.allocate_at 10 (Passthrough 4 0 None) FdTable.new).2.
Lemma select_reports_ready_witness :
  ∃ reported, Calls.to_virtual sample_fds {[4]} 5 (seqZ 0 11) ∅ = Some reported ∧
    ∀ v, v ∈ reported ↔ 0 ≤ v < 11 ∧ v ∈ ({[0; 10]} : gset Z) ∧
      ∃ k, FdTable.translate v sample_fds = Some k ∧ k ∈ ({[4]} : gset Z).
Proof.
  assert (∀ v k, 0 ≤ v < 11 → FdTable.translate v sample_fds = Some k → (v = k ∧ 0 ≤ k ≤ 2) ∨ (v = 10 ∧ k = 4)) as Ht.
  { intros v k Hv Hk. assert (v = 0 ∨ v = 1 ∨ v = 2 ∨ v = 3 ∨ v = 4 ∨ v = 5 ∨ v = 6 ∨ v = 7 ∨ v = 8 ∨ v = 9 ∨ v = 10) by lia.
    destruct_or!; subst v; vm_compute in Hk; simplify_eq; lia. }
  apply (select_reports_ready sample_fds {[0; 10]} 11 {[0; 4]} 5 {[4]}).
  - vm_compute. reflexivity.
  - intros v w k Hv Hw Hvk Hwk. destruct (Ht v k Hv Hvk), (Ht w k Hw Hwk); lia.
  - intros v k Hv Hk. destruct (Ht v k Hv Hk); lia.
  - set_solver.
Defined.

(** ** What the handlers do not mean to do *)

Section defects.
Context {W F : Type} {GU : Guest W} {FO : FileOps F W} (mount_table : MountTable W F).
Implicit Types (s : sandbox W F).

(** The positioned and vectored calls on a virtual file go to the kernel with the number the process uses,
    whatever the kernel has open there. *)
Lemma virtual_file_bypassed s ft t c f fl p : sb_heap s !! ft = Some t → entries t !! arg c "fd" = Some (Virtual f fl p) →
  sc_no c ∈ [Pread64; Pwrite64; Readv; Writev] →
  (Calls.dispatch_syscall mount_table false c ft s).1 = GOk (Inject c).
Proof.
  intros Ht He Hn. rewrite !elem_of_cons, elem_of_nil in Hn. unfold Calls.dispatch_syscall.
  destruct Hn as [Hn|[Hn|[Hn|[Hn|[]]]]]; rewrite Hn; simpl;
    unfold Calls.made, Calls.handle_pread64, Calls.handle_pwrite64, Calls.handle_readv, Calls.handle_writev,
      Calls.on_kernel_fd, fd_translate, on_table, mbind, G_bind; rewrite Ht; unfold FdTable.translate; by rewrite He.
Qed.
(** [statx] and its like on a relative path go to the kernel with the directory number the process uses, not
    with the kernel descriptor behind it. *)
Lemma relative_path_keeps_dirfd s ft t c a p : sb_heap s !! ft = Some t → sc_no c ∈ [Statx; Newfstatat; Readlinkat] →
  opt c "path" = Some a → g_read_path a (sb_world s) = inr p → MountTable.resolve mount_table p = None →
  (Calls.dispatch_syscall mount_table false c ft s).1 = GOk (Inject c).
Proof.
  intros Ht Hn Ha Hp Hr. rewrite !elem_of_cons, elem_of_nil in Hn.
  assert (∀ d, ∃ k, Calls.kernel_dirfd ft d s = (GOk k, mkSandbox (sb_world s) (sb_heap s) (sb_tables s))) as Hd.
  { intros d. unfold Calls.kernel_dirfd, fd_translate, on_table, mbind, G_bind. destruct s as [w h tb]. simpl in *.
    destruct (d =? -100); [eauto|]. simpl. rewrite Ht. simpl. rewrite (list_insert_id h) by done. eauto. }
  destruct (Hd (arg c "dirfd")) as [k Hk].
  assert (∀ virt build, (Calls.by_path mount_table a virt build s).1 = GOk None) as Hby.
  { intros virt build. unfold Calls.by_path, Calls.translate_path, Calls.read_path, look, mbind, G_bind.
    rewrite Hp. simpl. rewrite Hr. rewrite Hp. destruct (to_str p); [rewrite Hr|]; done. }
  unfold Calls.dispatch_syscall. destruct s as [w h tb]. simpl in Hk.
  destruct Hn as [Hn|[Hn|[Hn|[]]]]; rewrite Hn; simpl;
    unfold Calls.made, Calls.handle_statx, Calls.handle_newfstatat, Calls.handle_readlinkat; rewrite Ha;
    unfold mbind, G_bind at 1; unfold G_bind at 1; rewrite Hk;
    match goal with |- context [Calls.by_path mount_table a ?v ?b ?st] => specialize (Hby v b);
      destruct (Calls.by_path mount_table a v b st) as [[]]; by simplify_eq/= end.
Qed.
(** [dup2] of a virtual file onto itself closes it. *)
Lemma dup2_onto_itself_closes s ft t c f fl p : sb_heap s !! ft = Some t → arg c "newfd" = arg c "oldfd" →
  entries t !! arg c "oldfd" = Some (Virtual f fl p) →
  ∃ h, Calls.handle_dup2 c ft s = (GOk (Some (arg c "oldfd")), mkSandbox (fo_close f (sb_world s)).2 h (sb_tables s)).
Proof.
  intros Ht Hn He. unfold Calls.handle_dup2, Calls.handle_dup_to, fd_get, on_table, mbind, G_bind. rewrite Ht. simpl.
  unfold FdTable.get. rewrite Hn, He. simpl. rewrite (list_insert_id (sb_heap s)), Ht by done. simpl. rewrite He.
  unfold Calls.close_entry, run, fd_allocate_at, on_table, mbind, G_bind. simpl.
  rewrite (list_insert_id (sb_heap s)) by done. destruct (fo_close f (sb_world s)) as [r w]. simpl. rewrite Ht. simpl. eauto.
Qed.
End defects.

(** Closing a number that is not open closes the file behind another: the kernel's descriptor 4 is the
    process's 10. *)
Definition close_4 : Syscall := mk_call Close [("fd", 4)].
Example closing_a_stranger :
  (λ t, (FdTable.translate 4 t, FdTable.translate 10 t)) <$> (sb_heap sample_opened !! 0%nat) = Some (None, Some 4) ∧
  bool_decide (4 ∈ kw_open (sb_world sample_opened)) = true ∧
  (do_call close_4 sample_opened).1 = GOk 0 ∧
  bool_decide (4 ∈ kw_open (sb_world (do_call close_4 sample_opened).2)) = false.
Proof. split_and!; vm_compute; reflexivity. Qed.
(** [dup2] to a negative number succeeds and returns it, which the process takes for an error. *)
Example dup2_negative :
  (do_call (mk_call Dup2 [("oldfd", 0); ("newfd", -5)]) sample_sandbox).1 = GOk (-5).
Proof. vm_compute. reflexivity. Qed.
(** A translated path is written over what the stack holds beyond the 24 bytes reserved for it. *)
Example path_overruns_reservation :
  kw_log (sb_world (do_call (mk_call Chdir [("path", sample_path_addr)]) sample_sandbox).2) =
    [Reserved 0x7fe8 24; Wrote 0x7fe8 (bytes "/srv/containers/agent-root/file" ++ [x00]);
     Called (mk_call Chdir [("path", 0x7fe8)])] ∧
  length (bytes "/srv/containers/agent-root/file" ++ [x00]) = 32%nat.
Proof. split; vm_compute; reflexivity. Qed.
(** More descriptors than a set holds: the handler is out of bounds. *)
Example select_out_of_bounds :
  (do_call (mk_call Pselect6 [("nfds", 1025); ("readfds", 0x2000)]) sample_sandbox).1 = GPanic.
Proof. vm_compute. reflexivity. Qed.
(** A directory whose first entry does not fit the buffer looks empty, and the entry is lost. *)
Example small_buffer_ends_directory :
  Calls.dirents 32 1 [(7, bytes "a-name-that-is-long", 8)] [] = [].
Proof. vm_compute. reflexivity. Qed.
