(* ===== verification/Ratls.v ===== *)
(** * RATS-TLS: values and libraries

    What the attestation library [cca-rats-tls/ratls-rust/ratls-api/src] is written with: its errors and
    hexadecimal texts ([lib.rs]), CBOR and JSON values, and the crates it calls ([ciborium], [coset],
    [openssl]) as classes.  A text is its UTF-8 bytes; the message inside an error is left out.  Then
    the evidence and claims buffers ([core/dice.rs], [claims.rs]). *)

From S2P Require Import Prelude Utf8 Xdr Text.

#[local] Open Scope string_scope.
#[local] Open Scope list_scope.
#[local] Open Scope Z_scope.

(** ** Results *)

Inductive RaTlsError := InvalidArgument | InvalidData | Io | OpenSsl | Json | Cbor | Unsupported.
Abbreviation Result := (sum RaTlsError).
#[global] Instance result_ret : MRet Result := λ A a, inr a.
#[global] Instance result_bind : MBind Result := λ A B f m, match m with inl e => inl e | inr a => f a end.

(** [ok_or] and [map_err] *)
Definition or_err {A} (e : RaTlsError) (o : option A) : Result A := match o with Some a => inr a | None => inl e end.
(** [if !b { return Err(e) }] *)
Definition ensure (b : bool) (e : RaTlsError) : Result unit := if b then inr tt else inl e.
Fixpoint mapR {A B} (f : A → Result B) (l : list A) : Result (list B) :=
  match l with [] => mret [] | a :: l => b ← f a; bs ← mapR f l; mret (b :: bs) end.
Fixpoint foldR {A B} (f : B → A → Result B) (acc : B) (l : list A) : Result B :=
  match l with [] => mret acc | a :: l => acc' ← f acc a; foldR f acc' l end.

(** A computation that also acts on the world [W]: files, clock, peers. *)
Definition R (W A : Type) : Type := W → Result A * W.
#[global] Instance r_ret {W} : MRet (R W) := λ A a w, (inr a, w).
#[global] Instance r_bind {W} : MBind (R W) := λ A B f m w,
  match m w with (inr a, w) => f a w | (inl e, w) => (inl e, w) end.
Definition lift {W A} (r : Result A) : R W A := λ w, (r, w).
Definition fail {W A} (e : RaTlsError) : R W A := λ w, (inl e, w).

(** ** Hexadecimal texts *)

Definition hex_digit (n : Z) : byte := byte_of (if n <? 10 then 48 + n else 87 + n).
Definition hex_encode (data : list byte) : list byte :=
  data ≫= λ b, [hex_digit (Z.shiftr (byte_val b) 4); hex_digit (Z.land (byte_val b) 15)].
Definition hex_nibble (b : byte) : Result Z :=
  let v := byte_val b in
  if (48 <=? v) && (v <=? 57) then inr (v - 48)
  else if (97 <=? v) && (v <=? 102) then inr (v - 97 + 10)
  else if (65 <=? v) && (v <=? 70) then inr (v - 65 + 10)
  else inl InvalidData.
Fixpoint hex_pairs (l : list byte) : Result (list byte) :=
  match l with
  | a :: b :: l =>
      hi ← hex_nibble a; lo ← hex_nibble b;
      out ← hex_pairs l;
      mret (byte_of (Z.lor (Z.shiftl hi 4) lo) :: out)
  | _ => mret []
  end.
Definition hex_decode (text : list byte) : Result (list byte) :=
  let clean := trim text in
  if Nat.odd (length clean) then inl InvalidData else hex_pairs clean.

(** ** CBOR values: the [ciborium] crate *)

(** [ciborium::Value]; the cases the library never looks into are one. *)
Inductive Value :=
  | VInteger (i : Z) | VBytes (b : list byte) | VText (t : list byte) | VTag (tag : Z) (v : Value)
  | VArray (l : list Value) | VMap (l : list (Value * Value)) | VOther (n : Z).

Definition as_integer (v : Value) : option Z := match v with VInteger i => Some i | _ => None end.
Definition as_bytes (v : Value) : option (list byte) := match v with VBytes b => Some b | _ => None end.
Definition as_text (v : Value) : option (list byte) := match v with VText t => Some t | _ => None end.
Definition as_array (v : Value) : option (list Value) := match v with VArray l => Some l | _ => None end.

(** [ciborium::de::from_reader] and [ciborium::ser::into_writer] into a vector *)
Class CborCrate := {
  from_reader : list byte → option Value;
  into_writer : Value → option (list byte)
}.
(** The values a Rust [Value] can be: integers of the range of CBOR, tags of 64 bits, texts of UTF-8. *)
Fixpoint representable (v : Value) : bool :=
  match v with
  | VInteger i => (- 2 ^ 64 <=? i) && (i <? 2 ^ 64)
  | VBytes _ => true
  | VText t => is_utf8 t
  | VTag tag v => (0 <=? tag) && (tag <? 2 ^ 64) && representable v
  | VArray l => forallb representable l
  | VMap l => forallb (λ kv, representable kv.1 && representable kv.2) l
  | VOther _ => false
  end.
(** How deep a value is nested. *)
Fixpoint depth (v : Value) : nat :=
  match v with
  | VTag _ v => S (depth v)
  | VArray l => S (foldr max 0%nat (map depth l))
  | VMap l => S (foldr max 0%nat (map (λ kv, max (depth kv.1) (depth kv.2)) l))
  | _ => 1%nat
  end.
(** What is written is read back, for values within the 256 levels at which the reader gives up, and nothing is
    no item. *)
Class CborLaws (C : CborCrate) := {
  cbor_roundtrip v : representable v = true → (depth v < 256)%nat →
    ∃ b, into_writer v = Some b ∧ from_reader b = Some v;
  cbor_empty : from_reader [] = None
}.

(** ** JSON values: the [serde_json] crate *)

Inductive JsonValue :=
  | JNull | JBool (b : bool) | JNumber (n : Z) | JString (s : list byte)
  | JArray (l : list JsonValue) | JObject (l : list (list byte * JsonValue)).
(** [Map::insert] *)
Fixpoint json_insert (k : list byte) (v : JsonValue) (m : list (list byte * JsonValue)) :=
  match m with
  | [] => [(k, v)]
  | (k', v') :: m => if decide (k = k') then (k, v) :: m else (k', v') :: json_insert k v m
  end.
Fixpoint assoc {A} (k : list byte) (m : list (list byte * A)) : option A :=
  match m with [] => None | (k', v) :: m => if decide (k = k') then Some v else assoc k m end.
(** [Value::get] and [Value::as_str] *)
Definition json_get (k : list byte) (v : JsonValue) : option JsonValue :=
  match v with JObject m => assoc k m | _ => None end.
Definition json_str (v : JsonValue) : option (list byte) := match v with JString s => Some s | _ => None end.

(** ** COSE messages: the [coset] crate *)

Inductive KeyType := EC2 | OtherKeyType.
Inductive Label := LInt (i : Z) | LText (t : list byte).
#[global] Instance key_type_dec : EqDecision KeyType. Proof. solve_decision. Defined.
#[global] Instance label_dec : EqDecision Label. Proof. solve_decision. Defined.
Record CoseKey := mkCoseKey { kty : KeyType; params : list (Label * Value) }.
Definition default_cose_key : CoseKey := mkCoseKey OtherKeyType [].
Inductive Algorithm := ES512 | OtherAlgorithm.
Class CosetCrate := {
  CoseSign1 : Type;
  from_tagged_slice : list byte → option CoseSign1;
  from_slice : list byte → option CoseSign1;
  (** The [alg] of the protected header, the payload, the signature, and what is signed for some
      additional data. *)
  sign1_alg : CoseSign1 → option Algorithm;
  payload : CoseSign1 → option (list byte);
  signature : CoseSign1 → list byte;
  tbs_data : CoseSign1 → list byte → list byte;
  key_from_slice : list byte → option CoseKey
}.

(** ** Cryptography: the [openssl] crate *)

Inductive MessageDigest := SHA1 | SHA256 | SHA384 | SHA512.
Definition digest_length (d : MessageDigest) : nat :=
  match d with SHA1 => 20 | SHA256 => 32 | SHA384 => 48 | SHA512 => 64 end.
(** An extension of a certificate: its object and its data, either of which may be a null pointer; of the
    object the text and its length that [OBJ_obj2txt] reports. *)
Record Extension := mkExtension { ext_object : option (Z * list byte); ext_data : option (option (list byte)) }.
(** [None] is an [ErrorStack]. *)
Class OpensslCrate := {
  X509 : Type; PKey : Type; Asn1Time : Type; BigNum : Type;
  hash : MessageDigest → list byte → option (list byte);
  sha256 : list byte → list byte;
  x509_from_pem : list byte → option X509;
  x509_from_der : list byte → option X509;
  not_before : X509 → Asn1Time;
  not_after : X509 → Asn1Time;
  time_compare : Asn1Time → Asn1Time → option comparison;
  public_key : X509 → option PKey;
  public_key_to_der : PKey → option (list byte);
  (** The signature of a certificate, checked with the key of its issuer. *)
  x509_verify : X509 → PKey → option bool;
  extensions : X509 → option (list (option Extension));
  (** [EcPoint::from_bytes] and [EcKey::from_public_key] on the curve SECP521R1 *)
  p521_from_bytes : list byte → option PKey;
  bn_from_slice : list byte → option BigNum;
  (** [EcdsaSig::from_private_components] and [to_der] *)
  ecdsa_to_der : BigNum → BigNum → option (list byte);
  (** [Verifier::new], [update] with the data, and [verify] of a signature *)
  verify_digest : MessageDigest → PKey → list byte → list byte → option bool
}.
(** The two interfaces to SHA-256 compute the same function, whose values have 32 bytes; so do the other
    digests have their length. *)
Class DigestLaws (O : OpensslCrate) := {
  hash_sha256 d h : hash SHA256 d = Some h → h = sha256 d;
  hash_length a d h : hash a d = Some h → length h = digest_length a;
  sha256_length d : length (sha256 d) = 32%nat
}.
Definition hashR {O : OpensslCrate} (d : MessageDigest) (data : list byte) : Result (list byte) :=
  or_err OpenSsl (hash d data).

(** ** The host: files and the clock *)

Class Host (W : Type) {O : OpensslCrate} := {
  (** [Asn1Time::days_from_now(0)] *)
  host_now : W → option Asn1Time * W;
  path_exists : list byte → W → bool;
  fs_write : list byte → list byte → W → bool * W;
  fs_read : list byte → W → option (list byte) * W
}.

(** * RATS-TLS: the evidence and claims buffers

    What travels in the certificate: [core/dice.rs] and [core/claims.rs] of the attestation library. *)

#[local] Open Scope string_scope.
#[local] Open Scope list_scope.
#[local] Open Scope Z_scope.

Record CustomClaim := mkClaim { claim_name : list byte; claim_value : list byte }.
Record EvidenceBuffer := mkEvidenceBuffer { eb_tag : Z; evidence_raw : list byte; eb_claims_buffer : list byte }.
Record ClaimsBuffer := mkClaims {
  pubkey_hash_algo : Z;
  pubkey_hash : list byte;
  client_key_share_hash_algo : Z;
  client_key_share_hash : list byte;
  nonce : option (list byte);
  custom_claims : list CustomClaim
}.

(** The names of the claims the library reserves. *)
Definition PUBKEY_HASH : list byte := bytes "pubkey-hash".
Definition CLIENT_KEY_SHARE_HASH : list byte := bytes "client-key-share-hash".
Definition NONCE : list byte := bytes "nonce".

Module Dice.
Section dice.
Context {C : CborCrate}.

(** ** The evidence buffer *)

Definition encode_evidence_buffer (buffer : EvidenceBuffer) : Result (list byte) :=
  or_err Cbor (into_writer
    (VTag (eb_tag buffer) (VArray [VBytes (evidence_raw buffer); VBytes (eb_claims_buffer buffer)]))).

Definition decode_evidence_buffer (data : list byte) : Result EvidenceBuffer :=
  value ← or_err Cbor (from_reader data);
  match value with
  | VTag tag item =>
      match item with
      | VArray items =>
          match items with
          | [i0; i1] =>
              evidence_raw ← or_err InvalidData (as_bytes i0);
              claims_buffer ← or_err InvalidData (as_bytes i1);
              mret (mkEvidenceBuffer tag evidence_raw claims_buffer)
          | _ => inl InvalidData
          end
      | _ => inl InvalidData
      end
  | _ => inl InvalidData
  end.

(** ** The claims buffer *)

Definition encode_hash_claim (digest : list byte) : Result (list byte) :=
  or_err Cbor (into_writer (VArray [VInteger 1; VBytes digest])).

Definition build_claims_buffer (pubkey_hash client_key_share_hash client_tls_random : list byte)
    (custom_claims : list CustomClaim) : Result (list byte) :=
  p ← encode_hash_claim pubkey_hash;
  k ← encode_hash_claim client_key_share_hash;
  let claims :=
    [(VText PUBKEY_HASH, VBytes p); (VText CLIENT_KEY_SHARE_HASH, VBytes k);
     (VText NONCE, VBytes client_tls_random)] ++
    ((λ claim, (VText (claim_name claim), VBytes (claim_value claim))) <$> custom_claims) in
  or_err Cbor (into_writer (VMap claims)).

(** [u64::try_from] of an [i128] *)
Definition integer_to_u64 (value : Z) : Result Z :=
  if (0 <=? value) && (value <? 2 ^ 64) then inr value else inl InvalidData.

Definition parse_hash_claim_value (data : list byte) : Result (Z * list byte) :=
  value ← or_err Cbor (from_reader data);
  match value with
  | VArray items =>
      match items with
      | [i0; i1] =>
          value ← or_err InvalidData (as_integer i0);
          algo ← integer_to_u64 value;
          hash ← or_err InvalidData (as_bytes i1);
          mret (algo, hash)
      | _ => inl InvalidData
      end
  | _ => inl InvalidData
  end.

(** The variables of the loop of [parse_claims_buffer]. *)
Record claims_found := mkFound {
  f_pubkey_algo : option Z; f_pubkey_hash : option (list byte);
  f_key_share_algo : option Z; f_key_share_hash : option (list byte);
  f_nonce : option (list byte); f_custom : list CustomClaim
}.
Definition nothing_found : claims_found := mkFound None None None None None [].

Definition parse_claim (f : claims_found) (entry : Value * Value) : Result claims_found :=
  let '(key, value) := entry in
  match key with
  | VText name =>
      if decide (name = PUBKEY_HASH) then
        encoded ← or_err InvalidData (as_bytes value);
        parsed ← parse_hash_claim_value encoded;
        mret (mkFound (Some parsed.1) (Some parsed.2) (f_key_share_algo f) (f_key_share_hash f) (f_nonce f)
          (f_custom f))
      else if decide (name = CLIENT_KEY_SHARE_HASH) then
        encoded ← or_err InvalidData (as_bytes value);
        parsed ← parse_hash_claim_value encoded;
        mret (mkFound (f_pubkey_algo f) (f_pubkey_hash f) (Some parsed.1) (Some parsed.2) (f_nonce f)
          (f_custom f))
      else if decide (name = NONCE) then
        b ← or_err InvalidData (as_bytes value);
        mret (mkFound (f_pubkey_algo f) (f_pubkey_hash f) (f_key_share_algo f) (f_key_share_hash f) (Some b)
          (f_custom f))
      else
        b ← or_err InvalidData (as_bytes value);
        mret (mkFound (f_pubkey_algo f) (f_pubkey_hash f) (f_key_share_algo f) (f_key_share_hash f) (f_nonce f)
          (f_custom f ++ [mkClaim name b]))
  | _ => mret f
  end.

Definition parse_claims_buffer (data : list byte) : Result ClaimsBuffer :=
  value ← or_err Cbor (from_reader data);
  match value with
  | VMap entries =>
      f ← foldR parse_claim nothing_found entries;
      pubkey_hash_algo ← or_err InvalidData (f_pubkey_algo f);
      pubkey_hash ← or_err InvalidData (f_pubkey_hash f);
      client_key_share_hash_algo ← or_err InvalidData (f_key_share_algo f);
      client_key_share_hash ← or_err InvalidData (f_key_share_hash f);
      mret (mkClaims pubkey_hash_algo pubkey_hash client_key_share_hash_algo client_key_share_hash (f_nonce f)
        (f_custom f))
  | _ => inl InvalidData
  end.
End dice.
End Dice.
