(* ===== verification/CcaToken.v ===== *)
(** * RATS-TLS: the CCA verifier

    [verifiers/cca] of the attestation library: the native layout of the evidence, the certificate chain, the
    two tokens of a CCA attestation and their claims, and the binding of both to the TLS session. *)

From stdpp Require Import pretty.
From S2P Require Import Prelude Utf8 Xdr Text Ratls.

#[local] Open Scope string_scope.
#[local] Open Scope list_scope.
#[local] Open Scope Z_scope.

(** ** Claims *)

Module collection.
Definition CBOR_TAG : Z := 399.
Definition PLATFORM_LABEL : Z := 44234.
Definition REALM_LABEL : Z := 44241.
End collection.
Module realm_labels.
Definition CHALLENGE : Z := 10.
Definition PROFILE : Z := 265.
Definition RPV : Z := 44235.
Definition HASH_ALG : Z := 44236.
Definition RAK : Z := 44237.
Definition RIM : Z := 44238.
Definition REM : Z := 44239.
Definition RAK_HASH_ALG : Z := 44240.
End realm_labels.
Module platform_labels.
Definition PROFILE : Z := 265.
Definition CHALLENGE : Z := 10.
Definition IMPL_ID : Z := 2396.
Definition INST_ID : Z := 256.
Definition CONFIG : Z := 2401.
Definition LIFECYCLE : Z := 2395.
Definition SW_COMPONENTS : Z := 2399.
Definition VERIFICATION_SERVICE : Z := 2400.
Definition HASH_ALG : Z := 2402.
End platform_labels.
Module sw_component.
Definition MTYP : Z := 1.
Definition MVAL : Z := 2.
Definition VERSION : Z := 4.
Definition SIGNER_ID : Z := 5.
Definition HASH_ALGO : Z := 6.
End sw_component.
Module realm_sizes.
Definition CHALLENGE : nat := 64.
Definition RPV : nat := 64.
Definition REM_ARR : nat := 4.
End realm_sizes.
Module platform_sizes.
Definition CHALLENGE : nat := 32.
Definition IMPLEMENTATION : nat := 32.
Definition INSTANCE : nat := 33.
End platform_sizes.

Record SwComponent := mkSw {
  com_type : option (list byte); mea_val : list byte; version : option (list byte); signer_id : list byte;
  sw_hash_alg : option (list byte)
}.
Record Platform := mkPlatform {
  p_profile : list byte; p_challenge : list byte; impl_id : list byte; inst_id : list byte; config : list byte;
  lifecycle : Z; sw_components : list SwComponent; verification_service : option (list byte);
  p_hash_alg : list byte
}.
Record Realm := mkRealm {
  r_challenge : list byte; r_profile : list byte; rpv : list byte; rim : list byte; rem : list (list byte);
  r_hash_alg : list byte; rak : list byte; rak_hash_alg : list byte; rak_cose_key : CoseKey
}.

(** [Decode] of [tools.rs] *)
Module Decode.
Definition get_bytes (value : Value) (sizes : list nat) : Result (list byte) :=
  b ← or_err InvalidData (as_bytes value);
  if bool_decide (sizes ≠ [] ∧ length b ∉ sizes) then inl InvalidData else mret b.
Definition get_string (value : Value) : Result (list byte) :=
  t ← or_err InvalidData (as_text value); mret (trim_end [[x00]] t).
Definition get_num (value : Value) : Result Z := or_err InvalidData (as_integer value).
Definition get_array (value : Value) (size : option nat) : Result (list Value) :=
  array ← or_err InvalidData (as_array value);
  match size with
  | Some size => if bool_decide (length array ≠ size) then inl InvalidData else mret array
  | None => mret array
  end.
End Decode.

(** [for (key, value) in contents]: entries whose key is no integer are skipped. *)
Definition fold_labels {A} (f : A → Z → Value → Result A) (init : A) (contents : list (Value * Value)) : Result A :=
  foldR (λ acc kv, match as_integer kv.1 with Some label => f acc label kv.2 | None => mret acc end) init contents.
Definition zeros (n : nat) : list byte := replicate n x00.

Module SwC.
Definition new : SwComponent := mkSw None [] None [] None.
Definition field (c : SwComponent) (label : Z) (value : Value) : Result SwComponent :=
  if label =? sw_component.MTYP then
    s ← Decode.get_string value; mret (mkSw (Some s) (mea_val c) (version c) (signer_id c) (sw_hash_alg c))
  else if label =? sw_component.MVAL then
    b ← Decode.get_bytes value []; mret (mkSw (com_type c) b (version c) (signer_id c) (sw_hash_alg c))
  else if label =? sw_component.VERSION then
    s ← Decode.get_string value; mret (mkSw (com_type c) (mea_val c) (Some s) (signer_id c) (sw_hash_alg c))
  else if label =? sw_component.SIGNER_ID then
    b ← Decode.get_bytes value []; mret (mkSw (com_type c) (mea_val c) (version c) b (sw_hash_alg c))
  else if label =? sw_component.HASH_ALGO then
    s ← Decode.get_string value; mret (mkSw (com_type c) (mea_val c) (version c) (signer_id c) (Some s))
  else mret c.
Definition expected_size (hash_alg : list byte) : Result nat :=
  if decide (hash_alg = bytes "sha-256") then mret 32%nat
  else if decide (hash_alg = bytes "sha-384") then mret 48%nat
  else if decide (hash_alg = bytes "sha-512") then mret 64%nat
  else inl Unsupported.
Definition decode (value : Value) : Result SwComponent :=
  match value with
  | VMap contents =>
      component ← fold_labels field new contents;
      hash_alg ← or_err InvalidData (sw_hash_alg component);
      size ← expected_size hash_alg;
      if bool_decide (length (mea_val component) ≠ size) then inl InvalidData else mret component
  | _ => inl InvalidData
  end.
End SwC.

Module Plat.
Section platform.
Context {C : CborCrate}.
Definition new : Platform :=
  mkPlatform [] [] (zeros platform_sizes.IMPLEMENTATION) (zeros platform_sizes.INSTANCE) [] 0 [] None [].
Definition check_profile (p : Platform) : Result unit :=
  ensure (bool_decide (p_profile p ≠ [])) InvalidData.
(** [u16::try_from] *)
Definition to_u16 (n : Z) : Result Z := if (0 <=? n) && (n <? 2 ^ 16) then mret n else inl InvalidData.
Definition push_component (p : Platform) (component : Value) : Result Platform :=
  c ← SwC.decode component;
  mret (mkPlatform (p_profile p) (p_challenge p) (impl_id p) (inst_id p) (config p) (lifecycle p)
    (sw_components p ++ [c]) (verification_service p) (p_hash_alg p)).
Definition field (p : Platform) (label : Z) (value : Value) : Result Platform :=
  if label =? platform_labels.PROFILE then
    s ← Decode.get_string value;
    mret (mkPlatform s (p_challenge p) (impl_id p) (inst_id p) (config p) (lifecycle p) (sw_components p)
      (verification_service p) (p_hash_alg p))
  else if label =? platform_labels.CHALLENGE then
    b ← Decode.get_bytes value [platform_sizes.CHALLENGE];
    mret (mkPlatform (p_profile p) b (impl_id p) (inst_id p) (config p) (lifecycle p) (sw_components p)
      (verification_service p) (p_hash_alg p))
  else if label =? platform_labels.IMPL_ID then
    b ← Decode.get_bytes value [platform_sizes.IMPLEMENTATION];
    mret (mkPlatform (p_profile p) (p_challenge p) b (inst_id p) (config p) (lifecycle p) (sw_components p)
      (verification_service p) (p_hash_alg p))
  else if label =? platform_labels.INST_ID then
    b ← Decode.get_bytes value [platform_sizes.INSTANCE];
    mret (mkPlatform (p_profile p) (p_challenge p) (impl_id p) b (config p) (lifecycle p) (sw_components p)
      (verification_service p) (p_hash_alg p))
  else if label =? platform_labels.CONFIG then
    b ← Decode.get_bytes value [];
    mret (mkPlatform (p_profile p) (p_challenge p) (impl_id p) (inst_id p) b (lifecycle p) (sw_components p)
      (verification_service p) (p_hash_alg p))
  else if label =? platform_labels.LIFECYCLE then
    n ← Decode.get_num value;
    n ← to_u16 n;
    mret (mkPlatform (p_profile p) (p_challenge p) (impl_id p) (inst_id p) (config p) n (sw_components p)
      (verification_service p) (p_hash_alg p))
  else if label =? platform_labels.SW_COMPONENTS then
    components ← Decode.get_array value None;
    foldR push_component p components
  else if label =? platform_labels.VERIFICATION_SERVICE then
    s ← Decode.get_string value;
    mret (mkPlatform (p_profile p) (p_challenge p) (impl_id p) (inst_id p) (config p) (lifecycle p)
      (sw_components p) (Some s) (p_hash_alg p))
  else if label =? platform_labels.HASH_ALG then
    s ← Decode.get_string value;
    mret (mkPlatform (p_profile p) (p_challenge p) (impl_id p) (inst_id p) (config p) (lifecycle p)
      (sw_components p) (verification_service p) s)
  else mret p.
Definition decode (buf : list byte) : Result Platform :=
  value ← or_err Cbor (from_reader buf);
  match value with VMap contents => fold_labels field new contents | _ => inl InvalidData end.
End platform.
End Plat.

Module Rlm.
Section realm.
Context {C : CborCrate} {S : CosetCrate}.
Definition new : Realm :=
  mkRealm (zeros realm_sizes.CHALLENGE) [] (zeros realm_sizes.RPV) [] (replicate realm_sizes.REM_ARR []) [] [] []
    default_cose_key.
Definition check_profile (r : Realm) : Result unit := ensure (bool_decide (r_profile r ≠ [])) InvalidData.
Definition field (r : Realm) (label : Z) (value : Value) : Result Realm :=
  if label =? realm_labels.CHALLENGE then
    b ← Decode.get_bytes value [realm_sizes.CHALLENGE];
    mret (mkRealm b (r_profile r) (rpv r) (rim r) (rem r) (r_hash_alg r) (rak r) (rak_hash_alg r) (rak_cose_key r))
  else if label =? realm_labels.PROFILE then
    s ← Decode.get_string value;
    mret (mkRealm (r_challenge r) s (rpv r) (rim r) (rem r) (r_hash_alg r) (rak r) (rak_hash_alg r) (rak_cose_key r))
  else if label =? realm_labels.RPV then
    b ← Decode.get_bytes value [realm_sizes.RPV];
    mret (mkRealm (r_challenge r) (r_profile r) b (rim r) (rem r) (r_hash_alg r) (rak r) (rak_hash_alg r)
      (rak_cose_key r))
  else if label =? realm_labels.RIM then
    b ← Decode.get_bytes value [];
    mret (mkRealm (r_challenge r) (r_profile r) (rpv r) b (rem r) (r_hash_alg r) (rak r) (rak_hash_alg r)
      (rak_cose_key r))
  else if label =? realm_labels.REM then
    measurements ← Decode.get_array value (Some realm_sizes.REM_ARR);
    (** The array has four entries, so each index of [realm.rem] is set. *)
    ms ← mapR (λ measurement, Decode.get_bytes measurement []) measurements;
    mret (mkRealm (r_challenge r) (r_profile r) (rpv r) (rim r) ms (r_hash_alg r) (rak r) (rak_hash_alg r)
      (rak_cose_key r))
  else if label =? realm_labels.HASH_ALG then
    s ← Decode.get_string value;
    mret (mkRealm (r_challenge r) (r_profile r) (rpv r) (rim r) (rem r) s (rak r) (rak_hash_alg r) (rak_cose_key r))
  else if label =? realm_labels.RAK then
    b ← Decode.get_bytes value [];
    key ← or_err InvalidData (key_from_slice b);
    mret (mkRealm (r_challenge r) (r_profile r) (rpv r) (rim r) (rem r) (r_hash_alg r) b (rak_hash_alg r) key)
  else if label =? realm_labels.RAK_HASH_ALG then
    s ← Decode.get_string value;
    mret (mkRealm (r_challenge r) (r_profile r) (rpv r) (rim r) (rem r) (r_hash_alg r) (rak r) s (rak_cose_key r))
  else mret r.
Definition decode (buf : list byte) : Result Realm :=
  value ← or_err Cbor (from_reader buf);
  match value with VMap contents => fold_labels field new contents | _ => inl InvalidData end.
End realm.
End Rlm.

(** ** Certificates and keys: [tools.rs] *)

Module Tools.
Section tools.
Context {O : OpensslCrate} {W : Type} {H : Host W}.

(** [X509::from_pem(..).or_else(|_| X509::from_der(..))] *)
Definition parse_cert (cert_bytes : list byte) : Result X509 :=
  match x509_from_pem cert_bytes with
  | Some c => mret c
  | None => or_err InvalidData (x509_from_der cert_bytes)
  end.
Definition compare (a b : Asn1Time) : R W comparison := lift (or_err OpenSsl (time_compare a b)).
Definition now : R W Asn1Time := λ w, let '(t, w) := host_now w in (or_err OpenSsl t, w).
Definition verify_cert_validity (cert : X509) : R W unit :=
  now ← now;
  c ← compare now (not_before cert);
  if bool_decide (c ≠ Gt) then fail InvalidData else
  c ← compare now (not_after cert);
  if bool_decide (c ≠ Lt) then fail InvalidData else mret tt.
Definition verify_cert_by_cert (issuer subject : X509) : Result unit :=
  issuer_key ← or_err OpenSsl (public_key issuer);
  ok ← or_err OpenSsl (x509_verify subject issuer_key);
  ensure ok InvalidData.
Definition p521_public_key (raw_key : list byte) : Result PKey := or_err OpenSsl (p521_from_bytes raw_key).

(** [key.params.iter().find(|(label, _)| *label == Label::Int(l))] *)
Definition find_param (key : CoseKey) (l : Z) : option Value :=
  snd <$> List.find (λ p, bool_decide (p.1 = LInt l)) (params key).
Definition cose_key_to_uncompressed_bytes (key : CoseKey) : Result (list byte) :=
  if decide (kty key ≠ EC2) then inl InvalidData else
  let curve := v ← find_param key (-1); as_integer v in
  if bool_decide (curve ≠ Some 3) then inl InvalidData else
  x ← or_err InvalidData (v ← find_param key (-2); as_bytes v);
  y ← or_err InvalidData (v ← find_param key (-3); as_bytes v);
  if bool_decide (length x ≠ 66%nat ∨ length y ≠ 66%nat) then inl InvalidData else
  mret (x04 :: x ++ y).
End tools.
End Tools.

(** ** The token: [token.rs] *)

Record CborCollection := mkCollection { platform_token : list byte; realm_token : list byte }.
Record CCAToken {S : CosetCrate} := mkToken {
  platform_claims : Platform; realm_claims : Realm; platform : CoseSign1; realm : CoseSign1
}.

Module Token.
Section token.
Context {C : CborCrate} {S : CosetCrate} {O : OpensslCrate}.

Definition collect (c : CborCollection) (label : Z) (value : Value) : Result CborCollection :=
  if label =? collection.PLATFORM_LABEL then
    b ← Decode.get_bytes value []; mret (mkCollection b (realm_token c))
  else if label =? collection.REALM_LABEL then
    b ← Decode.get_bytes value []; mret (mkCollection (platform_token c) b)
  else mret c.
(** [CborCollection::decode] *)
Definition decode_collection (token : list byte) : Result CborCollection :=
  value ← or_err Cbor (from_reader token);
  match value with
  | VTag tag value =>
      if negb (tag =? collection.CBOR_TAG) then inl InvalidData else
      match value with
      | VMap contents =>
          c ← fold_labels collect (mkCollection [] []) contents;
          if decide (platform_token c = []) then inl InvalidData else
          if decide (realm_token c = []) then inl InvalidData else mret c
      | _ => inl InvalidData
      end
  | _ => inl InvalidData
  end.

Definition decode_sign1 (token : list byte) : Result CoseSign1 :=
  match from_tagged_slice token with
  | Some s => mret s
  | None => or_err InvalidData (from_slice token)
  end.
Definition ensure_es512 (sign1 : CoseSign1) : Result unit :=
  match sign1_alg sign1 with Some ES512 => mret tt | _ => inl InvalidData end.

Definition parse (token : list byte) : Result CCAToken :=
  collection ← decode_collection token;
  platform ← decode_sign1 (platform_token collection);
  realm ← decode_sign1 (realm_token collection);
  _ ← ensure_es512 platform;
  _ ← ensure_es512 realm;
  platform_payload ← or_err InvalidData (payload platform);
  realm_payload ← or_err InvalidData (payload realm);
  platform_claims ← Plat.decode platform_payload;
  realm_claims ← Rlm.decode realm_payload;
  mret (mkToken S platform_claims realm_claims platform realm).

Definition verify_es512_signature (key : PKey) (signature to_be_signed : list byte) : Result unit :=
  if bool_decide (length signature ≠ 132%nat) then inl InvalidData else
  r ← or_err OpenSsl (bn_from_slice (take 66 signature));
  s ← or_err OpenSsl (bn_from_slice (drop 66 signature));
  signature_der ← or_err OpenSsl (ecdsa_to_der r s);
  ok ← or_err OpenSsl (verify_digest SHA512 key to_be_signed signature_der);
  ensure ok InvalidData.
(** [sign1.verify_signature(b"", ..).map_err(..)] *)
Definition verify_sign1 (key : PKey) (sign1 : CoseSign1) : Result unit :=
  match verify_es512_signature key (signature sign1) (tbs_data sign1 []) with
  | inr _ => mret tt
  | inl _ => inl InvalidData
  end.

Definition verify_platform_token (t : CCAToken) (device_cert : X509) : Result unit :=
  _ ← Plat.check_profile (platform_claims t);
  device_key ← or_err OpenSsl (public_key device_cert);
  verify_sign1 device_key (platform t).
Definition verify_nonce (t : CCAToken) (nonce : option (list byte)) : Result unit :=
  match nonce with
  | None => mret tt
  | Some nonce =>
      let challenge := r_challenge (realm_claims t) in
      ensure (bool_decide (length nonce ≤ length challenge ∧ take (length nonce) challenge = nonce)%nat) InvalidData
  end.
Definition rak_digest (rak_hash_alg : list byte) : Result MessageDigest :=
  if decide (rak_hash_alg = bytes "sha-256") then mret SHA256
  else if decide (rak_hash_alg = bytes "sha-384") then mret SHA384
  else if decide (rak_hash_alg = bytes "sha-512") then mret SHA512
  else inl Unsupported.
Definition verify_rak (t : CCAToken) (raw_rak : list byte) : Result unit :=
  digest ← rak_digest (rak_hash_alg (realm_claims t));
  calculated ← hashR digest raw_rak;
  ensure (bool_decide (calculated = p_challenge (platform_claims t))) InvalidData.
Definition verify_realm_token (t : CCAToken) (nonce : option (list byte)) : Result unit :=
  _ ← Rlm.check_profile (realm_claims t);
  _ ← verify_nonce t nonce;
  rak_raw ← Tools.cose_key_to_uncompressed_bytes (rak_cose_key (realm_claims t));
  _ ← verify_rak t rak_raw;
  rak_key ← Tools.p521_public_key rak_raw;
  verify_sign1 rak_key (realm t).

(** [json!] of texts, hexadecimal bytes and optional texts *)
Definition jhex (b : list byte) : JsonValue := JString (hex_encode b).
Definition jopt (o : option (list byte)) : JsonValue := match o with Some s => JString s | None => JNull end.
Definition component_json (c : SwComponent) : JsonValue :=
  JObject [(bytes "component_type", jopt (com_type c)); (bytes "measurement_value", jhex (mea_val c));
           (bytes "version", jopt (version c)); (bytes "signer_id", jhex (signer_id c));
           (bytes "hash_algorithm", jopt (sw_hash_alg c))].
Definition to_json_value (t : CCAToken) : JsonValue :=
  let p := platform_claims t in
  let r := realm_claims t in
  let inserts := foldl (λ m kv, json_insert kv.1 kv.2 m) in
  let claims := inserts []
    [(bytes "cca_platform_profile", JString (p_profile p)); (bytes "cca_platform_challenge", jhex (p_challenge p));
     (bytes "cca_platform_implementation_id", jhex (impl_id p)); (bytes "cca_platform_instance_id", jhex (inst_id p));
     (bytes "cca_platform_config", jhex (config p)); (bytes "cca_platform_lifecycle", JNumber (lifecycle p));
     (bytes "cca_platform_hash_alg", JString (p_hash_alg p))] in
  let claims := match verification_service p with
                | Some service => json_insert (bytes "cca_platform_verification_service") (JString service) claims
                | None => claims
                end in
  let claims := inserts claims
    [(bytes "cca_platform_sw_components", JArray (component_json <$> sw_components p));
     (bytes "cca_realm_profile", JString (r_profile r)); (bytes "cca_realm_challenge", jhex (r_challenge r));
     (bytes "cca_realm_rpv", jhex (rpv r)); (bytes "cca_realm_rim", jhex (rim r));
     (bytes "cca_realm_hash_alg", JString (r_hash_alg r)); (bytes "cca_realm_pub_key", jhex (rak r));
     (bytes "cca_realm_pub_key_hash_alg", JString (rak_hash_alg r))] in
  JObject (inserts claims (imap (λ i m, (bytes ("cca_realm_rem" ++ pretty i), jhex m)) (rem r))).
End token.
End Token.

(** ** The evidence: [evidence.rs] and [trust_anchors.rs] *)

Definition HUAWEI_EQUIPMENT_ROOT_CA_PEM : list byte := bytes "-----BEGIN CERTIFICATE-----
MIICoDCCAgKgAwIBAgIDazWSMAoGCCqGSM49BAMEMDwxDzANBgNVBAoTBkh1YXdl
aTEpMCcGA1UEAxMgSHVhd2VpIEVDQyBBdHRlc3RhdGlvbiBSb290IENBIDEwIBcN
MjQwMzMwMDQ1NDEyWhgPMjA3NDAzMzAwNDU0MTJaMDwxDzANBgNVBAoTBkh1YXdl
aTEpMCcGA1UEAxMgSHVhd2VpIEVDQyBBdHRlc3RhdGlvbiBSb290IENBIDEwgZsw
EAYHKoZIzj0CAQYFK4EEACMDgYYABAGPYVYcrvY5RGQiKtogIiYGWJRs/1Dwr9hJ
5zsc9zQaceMX0JANd8p2miTRJbri1iy1i0E0kPpQyLF13t+1tDwlqgG5TN8lwaCn
1E8AiOtZ/EP5L8Umpgpl89kcRv937Jkv2ivUznfJzgdNtZV1zDkSR0qvoPPGF5FJ
UVCQDaz9C1D4RKOBrTCBqjAOBgNVHQ8BAf8EBAMCAQYwDwYDVR0TAQH/BAUwAwEB
/zBHBgNVHSAEQDA+MDwGDCsGAQQBj1uBSQEEBzAsMCoGCCsGAQUFBwIBFh5odHRw
czovL3N1cHBvcnQuaHVhd2VpLmNvbS9wa2kwHQYDVR0OBBYEFKmN+LpfDw9KWfN5
oqWa4knCX5+kMB8GA1UdIwQYMBaAFKmN+LpfDw9KWfN5oqWa4knCX5+kMAoGCCqG
SM49BAMEA4GLADCBhwJCAS2rcB3imVKaunb/t+pq2hstjHAl5vqP2rt+0fjN14Cq
csMCl2u2oHznPTSaeN1CK5ObKROxkpdwsYVISiGDu3eJAkFFqY25Q86PK3sBro1V
MUnKR0sZvKRQK1Uvr7K/kDqQrW+nSgfdSX/n4ZmEYyozXyP3DQYYZwUNzfqk0ZHW
rXR7Mg==
-----END CERTIFICATE-----
".
Definition HUAWEI_PRODUCT_CA_PEM : list byte := bytes "-----BEGIN CERTIFICATE-----
MIIDEzCCAnWgAwIBAgIREjwNmamCifcSzIM4CHEAvYEwCgYIKoZIzj0EAwQwPDEP
MA0GA1UEChMGSHVhd2VpMSkwJwYDVQQDEyBIdWF3ZWkgRUNDIEF0dGVzdGF0aW9u
IFJvb3QgQ0EgMTAgFw0yNDA5MTExMDEwNDBaGA8yMDc0MDMyODEwMTA0MFowRjEL
MAkGA1UEBhMCQ04xDzANBgNVBAoTBkh1YXdlaTEmMCQGA1UEAxMdSHVhd2VpIENv
bXB1dGluZyBFQ0MgQ0NBIENBIDEwgZswEAYHKoZIzj0CAQYFK4EEACMDgYYABAB9
eCf3EORVOECC4DFgOgdvttpC5nJ1/Yol0ErwQVhmP4DIMOnqHUVpzR/VXwblKVkH
Iu3LJ3fzBU0E+AQcdmMu/AG1ynEzkPvI7zhlkRVVX4nS7YoGndUYw86gsJdSfVn1
+ESZm1u+o9jMZIxZ4zLYEa+BzOYNOtRDLDGSLD06kdrygaOCAQcwggEDMB8GA1Ud
IwQYMBaAFKmN+LpfDw9KWfN5oqWa4knCX5+kMB0GA1UdDgQWBBSIMTazZebllUGe
vBwRPBtf4zdi7TASBgNVHRMBAf8ECDAGAQH/AgEAMEcGA1UdIARAMD4wPAYMKwYB
BAGPW4FJAQQHMCwwKgYIKwYBBQUHAgEWHmh0dHBzOi8vc3VwcG9ydC5odWF3ZWku
Y29tL3BraTAOBgNVHQ8BAf8EBAMCAQYwVAYDVR0fBE0wSzBJoEegRYZDaHR0cDov
L3N1cHBvcnQuaHVhd2VpLmNvbS9zdXBwb3J0L3BraS9lY2NfYXR0ZW5zdGF0aW9u
X3Jvb3RfY3JsLmNybDAKBggqhkjOPQQDBAOBiwAwgYcCQgHaDPvAEUAVeRVo4Mn+
UoVlcPtwa1TWDHYInzHQ9leL7PVTZLnCg6vKSuo0G3I9Gz/YtOz+ylTpzGekqJf/
00JKcQJBep4ZMYxe+KmplOj/uqoUvy97sQ77jFe+kQvlXkbt7QidjnTlT2itS6CS
HvWyRwqIjVLItwhea7FvwDhvUgyLdTc=
-----END CERTIFICATE-----
".

Record CcaEvidence := mkCcaEvidence { token : list byte; dev_cert : list byte }.

(** [usize::to_ne_bytes] and [from_ne_bytes] of a 64-bit target, whose bytes start with the lowest *)
Definition to_ne_bytes (x : Z) : list byte := reverse (be_bytes 8 x).
Definition read_native_usize (b : list byte) : Z := be_value (reverse b).

Module Ev.
Definition encode_raw_native (e : CcaEvidence) : list byte :=
  to_ne_bytes (Vec.len (token e)) ++ token e ++ to_ne_bytes (Vec.len (dev_cert e)) ++ dev_cert e.
(** [usize::checked_add] *)
Definition checked_add (a b : Z) : Result Z := if a + b <? 2 ^ 64 then mret (a + b) else inl InvalidData.
Definition decode_raw_native (raw : list byte) : Result CcaEvidence :=
  let word_size := 8 in
  if Vec.len raw <? word_size * 2 then inl InvalidData else
  let token_len := read_native_usize (Vec.slice 0 word_size raw) in
  if (token_len =? 0) || (Vec.len raw - word_size * 2 <? token_len) then inl InvalidData else
  cert_len_offset ← checked_add word_size token_len;
  cert_data_offset ← checked_add cert_len_offset word_size;
  if Vec.len raw <? cert_data_offset then inl InvalidData else
  let cert_len := read_native_usize (Vec.slice cert_len_offset cert_data_offset raw) in
  if (cert_len =? 0) || negb (cert_len =? Vec.len raw - cert_data_offset) then inl InvalidData else
  mret (mkCcaEvidence (Vec.slice word_size cert_len_offset raw) (Vec.slice cert_data_offset (Vec.len raw) raw)).

Section evidence.
Context {C : CborCrate} {S : CosetCrate} {O : OpensslCrate} {W : Type} {H : Host W}.

Definition verify_cert_chain (e : CcaEvidence) : R W X509 :=
  device_cert ← lift (Tools.parse_cert (dev_cert e));
  product_ca ← lift (or_err InvalidData (x509_from_pem HUAWEI_PRODUCT_CA_PEM));
  root_ca ← lift (or_err InvalidData (x509_from_pem HUAWEI_EQUIPMENT_ROOT_CA_PEM));
  _ ← Tools.verify_cert_validity device_cert;
  _ ← Tools.verify_cert_validity product_ca;
  _ ← Tools.verify_cert_validity root_ca;
  _ ← lift (Tools.verify_cert_by_cert product_ca device_cert);
  _ ← lift (Tools.verify_cert_by_cert root_ca product_ca);
  _ ← lift (Tools.verify_cert_by_cert root_ca root_ca);
  mret device_cert.
Definition crypto_verification (e : CcaEvidence) (nonce : option (list byte)) : R W CCAToken :=
  device_cert ← verify_cert_chain e;
  cca_token ← lift (Token.parse (token e));
  _ ← lift (Token.verify_platform_token cca_token device_cert);
  _ ← lift (Token.verify_realm_token cca_token nonce);
  mret cca_token.
End evidence.
End Ev.

(** ** The verifier: [verifiers/mod.rs] and [verifiers/cca/mod.rs] *)

Inductive VerifierPlugin := PluginCca.
Record Evidence := mkEvidence {
  ev_tag : Z; ev_name : VerifierPlugin; raw_evidence : list byte; claims_buffer : list byte;
  public_key_der : list byte; expected_nonce : list byte; expected_client_key_share_hash : list byte;
  evidence_json : JsonValue
}.
Definition EVIDENCE_TAG : Z := 0x1a7507.

Module Verifier.
Section verifier.
Context {C : CborCrate} {S : CosetCrate} {O : OpensslCrate} {W : Type} {H : Host W}.

Definition verify_input (e : Evidence) : Result unit :=
  match ev_name e with
  | PluginCca =>
      if negb (ev_tag e =? EVIDENCE_TAG) then inl InvalidData
      else if decide (claims_buffer e = []) then inl InvalidData
      else mret tt
  end.
Definition verify_ratls_claims (e : Evidence) : Result unit :=
  claims ← Dice.parse_claims_buffer (claims_buffer e);
  if negb (pubkey_hash_algo claims =? 1) then inl Unsupported else
  actual_public_key_hash ← hashR SHA256 (public_key_der e);
  if bool_decide (pubkey_hash claims ≠ actual_public_key_hash) then inl InvalidData else
  if negb (client_key_share_hash_algo claims =? 1) then inl Unsupported else
  if bool_decide (length (expected_client_key_share_hash e) ≠ 32%nat) then inl InvalidArgument else
  if bool_decide (client_key_share_hash claims ≠ expected_client_key_share_hash e) then inl InvalidData else
  if bool_decide (nonce claims ≠ Some (expected_nonce e)) then inl InvalidData else
  mret tt.
Definition verify_evidence (e : Evidence) : R W Evidence :=
  _ ← lift (verify_input e);
  evidence_nonce ← lift (hashR SHA256 (claims_buffer e));
  cca_evidence ← lift (Ev.decode_raw_native (raw_evidence e));
  cca_token ← Ev.crypto_verification cca_evidence (Some evidence_nonce);
  _ ← lift (verify_ratls_claims e);
  mret (mkEvidence (ev_tag e) (ev_name e) (raw_evidence e) (claims_buffer e) (public_key_der e) (expected_nonce e)
    (expected_client_key_share_hash e) (Token.to_json_value cca_token)).
End verifier.
End Verifier.
