(* ===== verification/RatlsEngine.v ===== *)
(** * RATS-TLS: negotiation

    [core/engine.rs] with the attester ([attesters/cca]) and the traits it is written against: the
    certificate of a peer is made from fresh evidence, and the evidence of the other peer is verified before
    the stream is given out. *)

From S2P Require Import Prelude Utf8 Xdr Text Ratls CcaToken.

#[local] Open Scope string_scope.
#[local] Open Scope list_scope.
#[local] Open Scope Z_scope.

(** ** The attester *)

Inductive AttesterPlugin := AttestCca.
Record CcaAttester := mkAttester { report_dir : list byte }.
Definition DEFAULT_TSM_REPORT_DIR : list byte := bytes "/sys/kernel/config/tsm/report/report0".
Record AttestationEvidence := mkAttestation { att_raw : list byte }.

Section files.
Context {O : OpensslCrate} {W : Type} {H : Host W}.
Definition write_file (path data : list byte) : R W unit :=
  λ w, let '(ok, w) := fs_write path data w in (ensure ok Io, w).
Definition read_file (path : list byte) : R W (list byte) :=
  λ w, let '(data, w) := fs_read path w in (or_err Io data, w).
End files.

Module Attester.
Section attester.
Context {O : OpensslCrate} {W : Type} {H : Host W}.
Definition evidence_tag (a : CcaAttester) : Z := EVIDENCE_TAG.
(** [challenge.try_into()], or its hash when it does not have 32 bytes *)
Definition normalized_challenge (challenge : list byte) : list byte :=
  if decide (length challenge = 32%nat) then challenge else sha256 challenge.
Definition collect_evidence (a : CcaAttester) (challenge : list byte) : R W AttestationEvidence := λ w,
  if negb (path_exists (report_dir a) w) then (inl InvalidData, w) else
  (_ ← write_file (join (report_dir a) (bytes "inblob")) (normalized_challenge challenge);
   token ← read_file (join (report_dir a) (bytes "outblob"));
   dev_cert ← read_file (join (report_dir a) (bytes "auxblob"));
   if decide (token = []) then fail InvalidData else
   if decide (dev_cert = []) then fail InvalidData else
   mret (mkAttestation (Ev.encode_raw_native (mkCcaEvidence token dev_cert)))) w.
End attester.
End Attester.

(** ** The traits: [crypto_wrappers/mod.rs] and [tls_wrappers/mod.rs] *)

Inductive CertAlgorithm :=
  | Rsa3072Sha256 | Ecc256Sha256 | RsaSha256 | EcdsaP256Sha256 | EcdsaP384Sha384 | EcdsaP521Sha512 | Ed25519 | Ed448.
Record RatlsPrivateKey := mkKey {
  key_algo : CertAlgorithm; private_key : list byte; key_public : list byte; cert : option (list byte)
}.
Record RatlsCertificateIssuer := mkIssuer {
  private_key_pkcs8 : list byte; issuer_certificate_pem : list byte; issuer_chain_pem : list (list byte)
}.
Inductive CertificateRole := ServerRole | ClientRole.
Record RatlsCertificateInfo := mkCertInfo {
  organization : list byte; common_name : list byte; evidence_buffer : option (list byte);
  cert_issuer : option RatlsCertificateIssuer; cert_role : CertificateRole; cert_alt_names : list (list byte)
}.
Record CryptoWrapper (W : Type) := mkCrypto {
  generate_private_key : CertAlgorithm → R W RatlsPrivateKey;
  prepare_certificate_issuer : list byte → list byte → R W RatlsCertificateIssuer;
  (** The key with its certificate. *)
  generate_ra_certificate : RatlsPrivateKey → RatlsCertificateInfo → R W RatlsPrivateKey
}.
Arguments generate_private_key {W}.
Arguments prepare_certificate_issuer {W}.
Arguments generate_ra_certificate {W}.

Record TlsVerifyConf := mkTlsVerify {
  verify_peer_certificate : bool; use_system_ca : bool; trusted_ca_chain : list byte;
  expected_peer_name : option (list byte)
}.
Record TlsIdentity := mkIdentity { certificate_chain_pem : list (list byte); identity_key : list byte }.
Record TlsEvidenceBinding := mkBinding { binding_nonce : list byte; binding_key_share : list byte }.
Record TlsPeerData := mkPeer { certificate_der : list byte; evidence_binding : TlsEvidenceBinding }.
Record TlsNegotiated (S : Type) := mkNegotiated { stream : S; peer : option TlsPeerData }.
Arguments mkNegotiated {S}.
Arguments stream {S}.
Arguments peer {S}.
(** [S] are streams and [T] handshakes; what a handshake has seen is part of the world. *)
Record TlsWrapper (W S T : Type) := mkTls {
  validate_peer_verification : TlsVerifyConf → R W unit;
  start_server_handshake : S → bool → TlsVerifyConf → R W T;
  start_client_handshake : S → bool → TlsVerifyConf → R W T;
  hs_evidence_binding : T → R W (option TlsEvidenceBinding);
  hs_install_identity : T → TlsIdentity → R W unit;
  hs_finish : T → R W (TlsNegotiated S)
}.
Arguments validate_peer_verification {W S T}.
Arguments start_server_handshake {W S T}.
Arguments start_client_handshake {W S T}.
Arguments hs_evidence_binding {W S T}.
Arguments hs_install_identity {W S T}.
Arguments hs_finish {W S T}.

(** ** Handles: [core/mod.rs] *)

Inductive TlsWrapperEnum := TlsOpenSsl.
Inductive CryptoWrapperEnum := CryptoOpenSsl.
Record CertificateConf := mkCertificateConf {
  issuer_private_key : list byte; issuer_certificate_chain : list byte; subject_alt_names : list (list byte)
}.
Record RaTlsConf := mkConf {
  c_attester : option AttesterPlugin; c_verifier : option VerifierPlugin; tls_type : TlsWrapperEnum;
  crypto_type : CryptoWrapperEnum; cert_algo : CertAlgorithm; c_custom_claims : list CustomClaim; mutual : bool;
  server : bool; certificate : CertificateConf; tls_verify : TlsVerifyConf
}.
(** The one implementation of the trait [Verifier]. *)
Inductive AnyVerifier := CcaVerifier.
Record RaTlsHandle (W S T : Type) := mkHandle {
  conf : RaTlsConf; attester : option CcaAttester; verifier : option AnyVerifier; crypto : CryptoWrapper W;
  tls : TlsWrapper W S T; certificate_issuer : option RatlsCertificateIssuer;
  user_callback : option (Evidence → R W unit)
}.
Arguments mkHandle {W S T}.
Arguments conf {W S T}.
Arguments attester {W S T}.
Arguments verifier {W S T}.
Arguments crypto {W S T}.
Arguments tls {W S T}.
Arguments certificate_issuer {W S T}.
Arguments user_callback {W S T}.
Definition CERT_SUBJECT_ORGANIZATION : list byte := bytes "RATS-TLS Attestation".
Definition CERT_SUBJECT_COMMON_NAME : list byte := bytes "RA-TLS".
Definition DICE_TAGGED_EVIDENCE_OID : list byte := bytes "2.23.133.5.4.9".

(** ** The engine *)

Module Engine.
Section engine.
Context {C : CborCrate} {Co : CosetCrate} {O : OpensslCrate} {W : Type} {H : Host W} {S T : Type}.
Implicit Types handle : RaTlsHandle W S T.

Record IdentityCertificateConfig := mkIdentityConf {
  ic_cert_algo : CertAlgorithm; ic_custom_claims : list CustomClaim; ic_issuer : option RatlsCertificateIssuer;
  ic_alt_names : list (list byte); ic_role : CertificateRole
}.

Definition generate_ratls_identity (crypto : CryptoWrapper W) (attester : CcaAttester)
    (config : IdentityCertificateConfig) (binding : TlsEvidenceBinding) : R W TlsIdentity :=
  if bool_decide (length (binding_nonce binding) ≠ 32%nat) then fail InvalidData else
  if decide (binding_key_share binding = []) then fail InvalidData else
  key ← generate_private_key crypto (ic_cert_algo config);
  let public_key_hash := sha256 (key_public key) in
  let client_key_share_hash := sha256 (binding_key_share binding) in
  claims_buffer ← lift (Dice.build_claims_buffer public_key_hash client_key_share_hash (binding_nonce binding)
    (ic_custom_claims config));
  let challenge := sha256 claims_buffer in
  evidence ← Attester.collect_evidence attester challenge;
  evidence_buffer ← lift (Dice.encode_evidence_buffer
    (mkEvidenceBuffer (Attester.evidence_tag attester) (att_raw evidence) claims_buffer));
  key ← generate_ra_certificate crypto key
    (mkCertInfo CERT_SUBJECT_ORGANIZATION CERT_SUBJECT_COMMON_NAME (Some evidence_buffer) (ic_issuer config)
      (ic_role config) (ic_alt_names config));
  leaf_certificate_pem ← lift (or_err InvalidData (cert key));
  let chain := match ic_issuer config with Some issuer => issuer_chain_pem issuer | None => [] end in
  mret (mkIdentity (leaf_certificate_pem :: chain) (private_key key)).

(** The text of an object: at most 127 of the bytes [OBJ_obj2txt] wrote. *)
Definition object_to_text (object : Z * list byte) : list byte :=
  let '(len, buffer) := object in
  if len <=? 0 then [] else to_string_lossy (take (Z.to_nat (Z.min len 127)) buffer).
Definition extension_step (found : option (list byte)) (extension : option Extension) : Result (option (list byte)) :=
  match extension with
  | None => mret found
  | Some extension =>
      match ext_object extension with
      | None => mret found
      | Some object =>
          if decide (object_to_text object ≠ DICE_TAGGED_EVIDENCE_OID) then mret found else
          if decide (is_Some found) then inl InvalidData else
          data ← or_err InvalidData (ext_data extension);
          data ← or_err InvalidData data;
          mret (Some data)
      end
  end.
Definition extract_evidence_extension (certificate : X509) : Result (list byte) :=
  extensions ← or_err InvalidData (extensions certificate);
  found ← foldR extension_step None extensions;
  or_err InvalidData found.

Definition verify_handshake_evidence handle (peer : TlsPeerData) : R W Evidence :=
  certificate ← lift (or_err OpenSsl (x509_from_der (certificate_der peer)));
  evidence_extension ← lift (extract_evidence_extension certificate);
  evidence_buffer ← lift (Dice.decode_evidence_buffer evidence_extension);
  key ← lift (or_err OpenSsl (public_key certificate));
  public_key_der ← lift (or_err OpenSsl (public_key_to_der key));
  let expected_client_key_share_hash := sha256 (binding_key_share (evidence_binding peer)) in
  verifier_plugin ← lift (or_err InvalidArgument (c_verifier (conf handle)));
  let evidence := mkEvidence (eb_tag evidence_buffer) verifier_plugin (evidence_raw evidence_buffer)
    (eb_claims_buffer evidence_buffer) public_key_der (binding_nonce (evidence_binding peer))
    expected_client_key_share_hash JNull in
  verifier ← lift (or_err InvalidArgument (verifier handle));
  match verifier with CcaVerifier => Verifier.verify_evidence evidence end.

Definition verify_user_callback handle (evidence : Evidence) : R W unit :=
  match user_callback handle with None => mret tt | Some callback => callback evidence end.

Definition identity_config handle (role : CertificateRole) : IdentityCertificateConfig :=
  mkIdentityConf (cert_algo (conf handle)) (c_custom_claims (conf handle)) (certificate_issuer handle)
    (subject_alt_names (certificate (conf handle))) role.

Definition create_ratls_server handle (s : S) : R W S :=
  handshake ← start_server_handshake (tls handle) s (mutual (conf handle)) (tls_verify (conf handle));
  binding ← hs_evidence_binding (tls handle) handshake;
  binding ← lift (or_err InvalidData binding);
  attester ← lift (or_err InvalidArgument (attester handle));
  identity ← generate_ratls_identity (crypto handle) attester (identity_config handle ServerRole) binding;
  _ ← hs_install_identity (tls handle) handshake identity;
  negotiated ← hs_finish (tls handle) handshake;
  if mutual (conf handle) then
    peer ← lift (or_err InvalidData (peer negotiated));
    evidence ← verify_handshake_evidence handle peer;
    _ ← verify_user_callback handle evidence;
    mret (stream negotiated)
  else mret (stream negotiated).

Definition create_ratls_client handle (s : S) : R W S :=
  if server (conf handle) then fail InvalidArgument else
  handshake ← start_client_handshake (tls handle) s (mutual (conf handle)) (tls_verify (conf handle));
  binding ← hs_evidence_binding (tls handle) handshake;
  _ ← match binding with
      | Some binding =>
          attester ← lift (or_err InvalidArgument (attester handle));
          identity ← generate_ratls_identity (crypto handle) attester (identity_config handle ClientRole) binding;
          hs_install_identity (tls handle) handshake identity
      | None => if mutual (conf handle) then fail InvalidData else mret tt
      end;
  negotiated ← hs_finish (tls handle) handshake;
  peer ← lift (or_err InvalidData (peer negotiated));
  evidence ← verify_handshake_evidence handle peer;
  _ ← verify_user_callback handle evidence;
  mret (stream negotiated).

(** [rats_tls_negotiate] of [api/mod.rs] *)
Definition rats_tls_negotiate handle (s : S) : R W S :=
  if server (conf handle) then create_ratls_server handle s else create_ratls_client handle s.
Definition rats_tls_set_verification_callback handle (callback : option (Evidence → R W unit)) : RaTlsHandle W S T :=
  mkHandle (conf handle) (attester handle) (verifier handle) (crypto handle) (tls handle)
    (certificate_issuer handle) callback.
End engine.
End Engine.

(** * RATS-TLS: the OpenSSL wrapper

    [crypto_wrappers/openssl/mod.rs]: the keys of leaf certificates, the certificates with the evidence, and the
    authority that signs them. *)

(** ** What it uses of the [openssl] crate *)

Inductive KeyId := IdRsa | IdEc | IdEd25519 | IdEd448 | IdX25519 | IdX448 | IdOther.
Inductive Curve := PRIME256V1 | SECP384R1 | SECP521R1 | OtherCurve.
Inductive AltName := AltDns (v : list byte) | AltIp (v : list byte) | AltUri (v : list byte).
(** The extensions the builders make, in a context with the certificate of the issuer. *)
Inductive CertExtension {O : OpensslCrate} :=
  | BasicConstraints | KeyUsage | ServerAuth | ClientAuth
  | SubjectKeyIdentifier (issuer : option X509) | AuthorityKeyIdentifier (issuer : option X509)
  | SubjectAlternativeName (issuer : option X509) (names : list AltName)
  | OtherExtension (oid value : list byte).
(** What is put into an [X509Builder], of version 3; without an issuer the certificate has its own name. *)
Record CertDraft {O : OpensslCrate} := mkDraft {
  d_serial : list byte; d_name : list byte; d_issuer : option X509;
  d_public : PKey; d_not_before : Asn1Time; d_not_after : Asn1Time; d_extensions : list CertExtension
}.
(** [None] is an [ErrorStack] again; [sign_certificate] is [sign], [build] and [to_pem], and fails as well where
    the builder refuses a field or cannot make an extension. *)
Class OpensslBuild (O : OpensslCrate) (W : Type) := {
  PrivateKey : Type;
  rsa_generate : Z → W → option PrivateKey * W;
  p256_generate : W → option PrivateKey * W;
  private_key_to_pkcs8 : PrivateKey → option (list byte);
  private_key_from_pkcs8 : list byte → option PrivateKey;
  private_key_from_pem : list byte → option PrivateKey;
  public_part : PrivateKey → PKey;
  key_id : PrivateKey → KeyId;
  (** [key.rsa()?.size()] *)
  rsa_size : PrivateKey → option Z;
  (** [key.ec_key()?.group().curve_name()] *)
  ec_curve : PrivateKey → option (option Curve);
  public_eq : PKey → PrivateKey → bool;
  stack_from_pem : list byte → option (list X509);
  x509_to_pem : X509 → option (list byte);
  subject_der : X509 → option (list byte);
  issuer_der : X509 → option (list byte);
  (** [X509_get_extension_flags(..) & EXFLAG_CA != 0] *)
  is_ca : X509 → bool;
  x509_key_usage : X509 → Z;
  (** [X509NameBuilder] with the entries [O] and [CN] *)
  name_build : list byte → list byte → option (list byte);
  (** [BigNum::rand(128, ..)] as an [Asn1Integer] *)
  random_serial : W → option (list byte) * W;
  (** [SystemTime::now().duration_since(UNIX_EPOCH)] in seconds *)
  system_time : W → option Z * W;
  asn1_from_unix : Z → option Asn1Time;
  (** [value.parse::<IpAddr>()] and [to_string] of the address *)
  ip_text : list byte → option (list byte);
  sign_certificate : CertDraft → PrivateKey → option MessageDigest → option (list byte)
}.

Module OpenSslCrypto.
Section wrapper.
Context {O : OpensslCrate} {W : Type} {H : Host W} {B : OpensslBuild O W}.

Definition CERT_NOT_BEFORE_SKEW_SECONDS : Z := 5 * 60.
Definition SELF_SIGNED_CERT_VALIDITY_SECONDS : Z := 3600 * 24 * 365.
Definition CA_SIGNED_CERT_VALIDITY_SECONDS : Z := 3600 * 24.

Definition acting {A} (f : W → option A * W) : R W A := λ w, let '(a, w) := f w in (or_err OpenSsl a, w).
Definition openssl {A} (o : option A) : R W A := lift (or_err OpenSsl o).

(** ** Keys *)

Definition generate_private_key (cert_algo : CertAlgorithm) : R W RatlsPrivateKey :=
  key ← match cert_algo with
        | Rsa3072Sha256 => acting (rsa_generate 3072)
        | Ecc256Sha256 => acting p256_generate
        | _ => fail Unsupported
        end;
  private ← openssl (private_key_to_pkcs8 key);
  public ← openssl (public_key_to_der (public_part key));
  mret (mkKey cert_algo private public None).

(** ** The issuer *)

Definition parse_signing_private_key (pem : list byte) : Result PrivateKey :=
  key ← or_err InvalidArgument (private_key_from_pem pem);
  match key_id key with
  | IdRsa =>
      size ← or_err OpenSsl (rsa_size key);
      if size * 8 <? 2048 then inl InvalidArgument else mret key
  | IdEc =>
      curve ← or_err OpenSsl (ec_curve key);
      match curve with
      | Some (PRIME256V1 | SECP384R1 | SECP521R1) => mret key
      | _ => inl Unsupported
      end
  | IdEd25519 | IdEd448 => mret key
  | IdX25519 | IdX448 | IdOther => inl Unsupported
  end.
(** [X509v3_KU_KEY_CERT_SIGN]; the usage is [u32::MAX] where the certificate has none. *)
Definition KU_KEY_CERT_SIGN : Z := 4.
Definition validate_ca_certificate (certificate : X509) : R W unit :=
  now ← Tools.now;
  c ← Tools.compare (not_before certificate) now;
  if bool_decide (c = Gt) then fail InvalidArgument else
  c ← Tools.compare (not_after certificate) now;
  if bool_decide (c = Lt) then fail InvalidArgument else
  if negb (is_ca certificate) then fail InvalidArgument else
  let key_usage := x509_key_usage certificate in
  if negb (key_usage =? 2 ^ 32 - 1) && (Z.land key_usage KU_KEY_CERT_SIGN =? 0) then fail InvalidArgument else
  mret tt.
Definition is_self_signed (certificate : X509) : Result bool :=
  subject ← or_err OpenSsl (subject_der certificate);
  issuer ← or_err OpenSsl (issuer_der certificate);
  if decide (subject ≠ issuer) then mret false else
  key ← or_err OpenSsl (public_key certificate);
  or_err OpenSsl (x509_verify certificate key).
(** [candidate] issued [current]: it has the name and its key verifies the signature. *)
Definition issued_by (current_issuer : list byte) (current candidate : X509) : bool :=
  bool_decide (subject_der candidate = Some current_issuer) &&
  match public_key candidate with Some key => default false (x509_verify current key) | None => false end.
(** [certificates.iter().position(p)] *)
Definition position (p : X509 → bool) (certificates : list X509) : option nat :=
  fst <$> list_find (λ c, p c = true) certificates.
(** The loop over the rest of the bundle: each turn takes a certificate out of it, so that as many turns as it
    has certificates, and one more, are enough. *)
Fixpoint order_chain (fuel : nat) (ordered : list X509) (current : X509) (certificates : list X509) :
    R W (list X509) :=
  match fuel with
  | 0%nat => mret ordered
  | S fuel =>
      self_signed ← lift (is_self_signed current);
      if self_signed : bool then mret ordered else
      current_issuer ← openssl (issuer_der current);
      match position (issued_by current_issuer current) certificates with
      | None => mret ordered
      | Some next_index =>
          next ← openssl (certificates !! next_index);
          _ ← validate_ca_certificate next;
          order_chain fuel (ordered ++ [next]) next (delete next_index certificates)
      end
  end.
Definition prepare_certificate_issuer (private_key certificate_chain : list byte) : R W RatlsCertificateIssuer :=
  key ← lift (parse_signing_private_key private_key);
  certificates ← lift (or_err InvalidArgument (stack_from_pem certificate_chain));
  if decide (length certificates = 0%nat) then fail InvalidArgument else
  let matches c := match public_key c with Some p => public_eq p key | None => false end in
  issuer_index ← lift (or_err InvalidArgument (position matches certificates));
  issuer ← openssl (certificates !! issuer_index);
  _ ← validate_ca_certificate issuer;
  ordered ← order_chain (S (length certificates)) [issuer] issuer (delete issuer_index certificates);
  issuer_certificate_pem ← openssl (x509_to_pem issuer);
  let last_is_root := match last ordered with
                      | Some c => bool_decide (subject_der c = issuer_der c)
                      | None => false
                      end in
  let send_len := (length ordered - if last_is_root then 1 else 0)%nat in
  certificate_chain_pem ← lift (mapR (λ c, or_err OpenSsl (x509_to_pem c)) (take send_len ordered));
  private_key_pkcs8 ← openssl (private_key_to_pkcs8 key);
  mret (mkIssuer private_key_pkcs8 issuer_certificate_pem certificate_chain_pem).

(** ** Certificates *)

Definition signing_digest (key : PrivateKey) : Result (option MessageDigest) :=
  match key_id key with
  | IdEd25519 | IdEd448 => mret None
  | IdEc =>
      curve ← or_err OpenSsl (ec_curve key);
      mret (Some match curve with Some SECP384R1 => SHA384 | Some SECP521R1 => SHA512 | _ => SHA256 end)
  | _ => mret (Some SHA256)
  end.
Definition unix_timestamp_now : R W Z := λ w,
  let '(secs, w) := system_time w in
  match secs with
  | Some secs => (if secs <? 2 ^ 63 then inr secs else inl InvalidData, w)
  | None => (inl InvalidData, w)
  end.
(** [str::split_once] by a byte, [to_ascii_uppercase] *)
Fixpoint split_once (sep : byte) (l : list byte) : option (list byte * list byte) :=
  match l with
  | [] => None
  | b :: l => if decide (b = sep) then Some ([], l) else '(a, r) ← split_once sep l; Some (b :: a, r)
  end.
Definition to_ascii_uppercase (l : list byte) : list byte :=
  (λ b, let v := byte_val b in if (97 <=? v) && (v <=? 122) then byte_of (v - 32) else b) <$> l.
Definition alt_name (entry : list byte) : Result AltName :=
  '(kind, value) ← or_err InvalidArgument (split_once x3a entry);
  if decide (value = []) then inl InvalidArgument else
  let kind := to_ascii_uppercase kind in
  if decide (kind = bytes "DNS") then mret (AltDns value)
  else if decide (kind = bytes "IP") then ip ← or_err InvalidArgument (ip_text value); mret (AltIp ip)
  else if decide (kind = bytes "URI") then mret (AltUri value)
  else inl InvalidArgument.
Definition common_x509_extensions (issuer : option X509) (role : CertificateRole) (subject_alt_names : list (list byte)) :
    Result (list CertExtension) :=
  names ← mapR alt_name subject_alt_names;
  mret ([BasicConstraints; KeyUsage; match role with ServerRole => ServerAuth | ClientRole => ClientAuth end;
         SubjectKeyIdentifier issuer; AuthorityKeyIdentifier issuer] ++
        match names with [] => [] | _ => [SubjectAlternativeName issuer names] end).
Definition generate_ra_certificate (conf : RatlsPrivateKey) (cert_info : RatlsCertificateInfo) : R W RatlsPrivateKey :=
  name ← openssl (name_build (organization cert_info) (common_name cert_info));
  serial ← acting random_serial;
  leaf_private_key ← openssl (private_key_from_pkcs8 (private_key conf));
  issuer_certificate ←
    match cert_issuer cert_info with
    | Some issuer => c ← openssl (x509_from_pem (issuer_certificate_pem issuer)); mret (Some c)
    | None => mret None
    end;
  signing_private_key ←
    match cert_issuer cert_info with
    | Some issuer => openssl (private_key_from_pkcs8 (private_key_pkcs8 issuer))
    | None => mret leaf_private_key
    end;
  now ← unix_timestamp_now;
  from ← openssl (asn1_from_unix (Int.i64 (now - CERT_NOT_BEFORE_SKEW_SECONDS)));
  let validity := match issuer_certificate with
                  | Some _ => CA_SIGNED_CERT_VALIDITY_SECONDS
                  | None => SELF_SIGNED_CERT_VALIDITY_SECONDS
                  end in
  desired_not_after ← openssl (asn1_from_unix (Int.i64 (now + validity)));
  until ←
    match issuer_certificate with
    | Some issuer =>
        c ← Tools.compare (not_after issuer) desired_not_after;
        mret (if bool_decide (c = Lt) then not_after issuer else desired_not_after)
    | None => mret desired_not_after
    end;
  extensions ← lift (common_x509_extensions issuer_certificate (cert_role cert_info) (cert_alt_names cert_info));
  let extensions := extensions ++
    match evidence_buffer cert_info with Some b => [OtherExtension DICE_TAGGED_EVIDENCE_OID b] | None => [] end in
  digest ← lift (signing_digest signing_private_key);
  pem ← openssl (sign_certificate
    (mkDraft _ serial name issuer_certificate
      (public_part leaf_private_key) from until extensions) signing_private_key digest);
  mret (mkKey (key_algo conf) (private_key conf) (key_public conf) (Some pem)).

(** [impl CryptoWrapper for OpenSslCrypto] *)
Definition wrapper : CryptoWrapper W := mkCrypto W generate_private_key prepare_certificate_issuer generate_ra_certificate.
End wrapper.
End OpenSslCrypto.
