(* ===== verification/RatlsApi.v ===== *)
(** * RATS-TLS: handles

    [api/mod.rs] of the attestation library: which configurations are accepted, and the handle made from one.
    With the parser of addresses of the standard library. *)

From S2P Require Import Prelude Utf8 Xdr Text Ratls CcaToken RatlsEngine.

#[local] Open Scope string_scope.
#[local] Open Scope list_scope.
#[local] Open Scope Z_scope.

(** ** Characters and addresses *)

Definition is_digit (b : Z) : bool := between 48 b 57.
Definition is_alpha (b : Z) : bool := between 65 b 90 || between 97 b 122.
Definition is_alnum (b : Z) : bool := is_digit b || is_alpha b.
(** [is_ascii_control] *)
Definition is_ascii_control (b : Z) : bool := (b <? 32) || (b =? 127).
Definition is_ascii (l : list byte) : bool := forallb (λ b, byte_val b <? 128) l.
(** [str.chars().any(char::is_control)]: U+0000 to U+001F and U+007F to U+009F *)
Fixpoint any_control (l : list byte) : bool :=
  match l with
  | [] => false
  | a :: l' =>
      is_ascii_control (byte_val a) ||
      match l' with b :: _ => (byte_val a =? 0xc2) && between 0x80 (byte_val b) 0x9f | [] => false end ||
      any_control l'
  end.
(** [str::split_once] *)
Fixpoint split_once (sep : byte) (l : list byte) : option (list byte * list byte) :=
  match l with
  | [] => None
  | b :: l => if decide (b = sep) then Some ([], l)
              else match split_once sep l with Some (k, v) => Some (b :: k, v) | None => None end
  end.
Definition to_ascii_uppercase (l : list byte) : list byte :=
  (λ b, if between 97 (byte_val b) 122 then byte_of (byte_val b - 32) else b) <$> l.
Definition COLON : byte := x3a.
Definition DOT : byte := x2e.

(** [str::parse::<IpAddr>]: the recursive descent of [core::net::parser]; each function returns what is left. *)
Module Ip.
Definition char (c : byte) (l : list byte) : option (list byte) :=
  match l with b :: l => if decide (b = c) then Some l else None | [] => None end.
Definition digit (radix : Z) (b : byte) : option Z :=
  let v := byte_val b in
  if is_digit v then Some (v - 48)
  else if (radix =? 16) && between 97 v 102 then Some (v - 87)
  else if (radix =? 16) && between 65 v 70 then Some (v - 55)
  else None.
(** The digits at the front, at most [max] of them and a value of at most [limit]: the value, how many, the
    rest. *)
Fixpoint digits (radix limit : Z) (max : nat) (acc : Z) (n : nat) (l : list byte) : option (nat * list byte) :=
  match l with
  | b :: l' =>
      match digit radix b with
      | Some d =>
          let acc := acc * radix + d in
          if limit <? acc then None
          else if (max <? S n)%nat then None
          else digits radix limit max acc (S n) l'
      | None => Some (n, l)
      end
  | [] => Some (n, [])
  end.
Definition read_number (radix limit : Z) (max : nat) (allow_zero_prefix : bool) (l : list byte) : option (list byte) :=
  '(n, rest) ← digits radix limit max 0 0 l;
  if (n =? 0)%nat then None
  else if negb allow_zero_prefix && bool_decide (head l = Some x30) && (1 <? n)%nat then None
  else Some rest.
Definition separated (sep : byte) (i : nat) (inner : list byte → option (list byte)) (l : list byte) : option (list byte) :=
  match i with 0%nat => inner l | _ => l ← char sep l; inner l end.
Definition octet : list byte → option (list byte) := read_number 10 255 3 false.
Definition read_ipv4_addr (l : list byte) : option (list byte) :=
  l ← octet l; l ← separated DOT 1 octet l; l ← separated DOT 2 octet l; separated DOT 3 octet l.
(** Up to [k] more groups of [limit], of which [i] were read: how many, whether they end with an IPv4
    address, the rest. *)
Fixpoint read_groups (k limit i : nat) (l : list byte) : nat * bool * list byte :=
  match k with
  | 0%nat => (limit, false, l)
  | S k =>
      match (if (i <? limit - 1)%nat then separated COLON i read_ipv4_addr l else None) with
      | Some rest => ((i + 2)%nat, true, rest)
      | None =>
          match separated COLON i (read_number 16 65535 4 true) l with
          | Some rest => read_groups k limit (S i) rest
          | None => (i, false, l)
          end
      end
  end.
Definition read_ipv6_addr (l : list byte) : option (list byte) :=
  let '(head_size, head_ipv4, l) := read_groups 8 8 0 l in
  if (head_size =? 8)%nat then Some l
  else if head_ipv4 then None
  else
    l ← char COLON l;
    l ← char COLON l;
    let limit := (8 - (head_size + 1))%nat in
    Some (read_groups limit limit 0 l).2.
Definition is_ip_addr (l : list byte) : bool :=
  bool_decide (match read_ipv4_addr l with Some rest => Some rest | None => read_ipv6_addr l end = Some []).
End Ip.

(** ** Configurations *)

Definition MAX_ISSUER_PRIVATE_KEY_PEM_SIZE : Z := 64 * 1024.
Definition MAX_ISSUER_CERTIFICATE_CHAIN_PEM_SIZE : Z := 1024 * 1024.
Definition MAX_TRUSTED_CA_CHAIN_PEM_SIZE : Z := 4 * 1024 * 1024.
Definition MAX_SUBJECT_ALT_NAMES : Z := 64.
Definition MAX_SUBJECT_ALT_NAME_LENGTH : Z := 2048.
Definition MAX_EXPECTED_PEER_NAME_LENGTH : Z := 253.
Definition MAX_CUSTOM_CLAIMS : Z := 64.
Definition MAX_CUSTOM_CLAIM_NAME_LENGTH : Z := 128.
Definition MAX_CUSTOM_CLAIM_VALUE_LENGTH : Z := 64 * 1024.
Definition MAX_CUSTOM_CLAIMS_TOTAL_VALUE_LENGTH : Z := 256 * 1024.

Module Api.
Definition check_size (actual maximum : Z) : Result unit := ensure (actual <=? maximum) InvalidArgument.

Definition validate_leaf_algorithm (conf : RaTlsConf) : Result unit :=
  match cert_algo conf with Rsa3072Sha256 | Ecc256Sha256 => mret tt | _ => inl InvalidArgument end.

(** [names] and [total_value_length] of the loop of [validate_custom_claims] *)
Definition validate_custom_claim (acc : list (list byte) * Z) (claim : CustomClaim) : Result (list (list byte) * Z) :=
  let '(names, total) := acc in
  _ ← ensure (bool_decide (claim_name claim ≠ [])) InvalidArgument;
  _ ← ensure (Vec.len (claim_name claim) <=? MAX_CUSTOM_CLAIM_NAME_LENGTH) InvalidArgument;
  _ ← ensure (negb (any_control (claim_name claim))) InvalidArgument;
  _ ← ensure (bool_decide (claim_name claim ∉ [PUBKEY_HASH; CLIENT_KEY_SHARE_HASH; NONCE])) InvalidArgument;
  _ ← ensure (bool_decide (claim_name claim ∉ names)) InvalidArgument;
  _ ← ensure (Vec.len (claim_value claim) <=? MAX_CUSTOM_CLAIM_VALUE_LENGTH) InvalidArgument;
  _ ← ensure (total + Vec.len (claim_value claim) <? 2 ^ 64) InvalidArgument;
  _ ← ensure (total + Vec.len (claim_value claim) <=? MAX_CUSTOM_CLAIMS_TOTAL_VALUE_LENGTH) InvalidArgument;
  mret (claim_name claim :: names, total + Vec.len (claim_value claim)).
Definition validate_custom_claims (conf : RaTlsConf) : Result unit :=
  _ ← ensure (Z.of_nat (length (c_custom_claims conf)) <=? MAX_CUSTOM_CLAIMS) InvalidArgument;
  _ ← foldR validate_custom_claim ([], 0) (c_custom_claims conf);
  mret tt.

Definition label_ok (label : list byte) : bool :=
  bool_decide (label ≠ []) && (Vec.len label <=? 63) &&
  forallb (λ b, is_alnum (byte_val b) || (byte_val b =? 45)) label &&
  match head label with Some b => is_alnum (byte_val b) | None => false end &&
  match last label with Some b => is_alnum (byte_val b) | None => false end.
(** [name.strip_suffix('.').unwrap_or(name)] *)
Definition strip_dot (name : list byte) : list byte :=
  match strip [DOT] (reverse name) with Some r => reverse r | None => name end.
Definition validate_dns_name (name : list byte) (allow_wildcard : bool) : Result unit :=
  _ ← ensure (bool_decide (name ≠ []) && (Vec.len name <=? MAX_EXPECTED_PEER_NAME_LENGTH) && is_ascii name)
    InvalidArgument;
  name ← match strip (bytes "*.") name with
         | Some suffix => if allow_wildcard then mret suffix else inl InvalidArgument
         | None => mret name
         end;
  _ ← ensure (bool_decide (x2a ∉ name)) InvalidArgument;
  let name := strip_dot name in
  ensure (bool_decide (name ≠ []) && forallb label_ok (split_at DOT name)) InvalidArgument.
Definition validate_uri (uri : list byte) : Result unit :=
  _ ← ensure (is_ascii uri && forallb (λ b, negb (is_ascii_control (byte_val b) || (byte_val b =? 32))) uri)
    InvalidArgument;
  '(scheme, remainder) ← or_err InvalidArgument (split_once COLON uri);
  match scheme with
  | b :: rest =>
      ensure (is_alpha (byte_val b) &&
              forallb (λ b, is_alnum (byte_val b) || bool_decide (byte_val b ∈ [43; 45; 46])) rest &&
              bool_decide (remainder ≠ [])) InvalidArgument
  | [] => inl InvalidArgument
  end.
Definition validate_subject_alt_name (entry : list byte) : Result unit :=
  _ ← ensure (Vec.len entry <=? MAX_SUBJECT_ALT_NAME_LENGTH) InvalidArgument;
  '(kind, value) ← or_err InvalidArgument (split_once COLON entry);
  _ ← ensure (bool_decide (value ≠ [])) InvalidArgument;
  let kind := to_ascii_uppercase kind in
  if decide (kind = bytes "DNS") then validate_dns_name value true
  else if decide (kind = bytes "IP") then ensure (Ip.is_ip_addr value) InvalidArgument
  else if decide (kind = bytes "URI") then validate_uri value
  else inl InvalidArgument.

Definition validate_certificate_configuration (conf : RaTlsConf) : Result unit :=
  let certificate := certificate conf in
  _ ← ensure (bool_decide (issuer_private_key certificate = [] ↔ issuer_certificate_chain certificate = []))
    InvalidArgument;
  _ ← check_size (Vec.len (issuer_private_key certificate)) MAX_ISSUER_PRIVATE_KEY_PEM_SIZE;
  _ ← check_size (Vec.len (issuer_certificate_chain certificate)) MAX_ISSUER_CERTIFICATE_CHAIN_PEM_SIZE;
  _ ← ensure (Z.of_nat (length (subject_alt_names certificate)) <=? MAX_SUBJECT_ALT_NAMES) InvalidArgument;
  foldR (λ _, validate_subject_alt_name) tt (subject_alt_names certificate).
Definition validate_tls_verification_configuration (conf : RaTlsConf) : Result unit :=
  let verify := tls_verify conf in
  if negb (verify_peer_certificate verify) then mret tt else
  _ ← check_size (Vec.len (trusted_ca_chain verify)) MAX_TRUSTED_CA_CHAIN_PEM_SIZE;
  _ ← ensure (use_system_ca verify || bool_decide (trusted_ca_chain verify ≠ [])) InvalidArgument;
  match expected_peer_name verify with
  | Some (b :: l) =>
      let name := b :: l in
      _ ← ensure (Vec.len name <=? MAX_EXPECTED_PEER_NAME_LENGTH) InvalidArgument;
      if Ip.is_ip_addr name then mret tt else validate_dns_name name false
  | _ => mret tt
  end.

Definition validate_configuration (conf : RaTlsConf) : Result unit :=
  _ ← validate_leaf_algorithm conf;
  _ ← validate_custom_claims conf;
  _ ← validate_certificate_configuration conf;
  _ ← validate_tls_verification_configuration conf;
  _ ← ensure (negb (server conf && bool_decide (c_attester conf = None))) InvalidArgument;
  _ ← ensure (negb (negb (server conf) && bool_decide (c_verifier conf = None))) InvalidArgument;
  _ ← ensure (negb (mutual conf && bool_decide (c_attester conf = None))) InvalidArgument;
  _ ← ensure (negb (mutual conf && bool_decide (c_verifier conf = None))) InvalidArgument;
  ensure (negb (server conf && verify_peer_certificate (tls_verify conf) && negb (mutual conf))) InvalidArgument.

Section init.
Context {W S T : Type}.
(** [CryptoWrapperRegistry::load] and [TlsWrapperRegistry::load] give these. *)
Variables (openssl_crypto : CryptoWrapper W) (openssl_tls : TlsWrapper W S T).

Definition load_verifier (plugin : VerifierPlugin) : AnyVerifier := match plugin with PluginCca => CcaVerifier end.
Definition load_attester (plugin : AttesterPlugin) : CcaAttester :=
  match plugin with AttestCca => mkAttester DEFAULT_TSM_REPORT_DIR end.
Definition rats_tls_init (conf : RaTlsConf) : R W (RaTlsHandle W S T) :=
  _ ← lift (validate_configuration conf);
  let crypto := match crypto_type conf with CryptoOpenSsl => openssl_crypto end in
  let key := issuer_private_key (certificate conf) in
  let chain := issuer_certificate_chain (certificate conf) in
  certificate_issuer ←
    match key, chain with
    | [], [] => mret None
    | _ :: _, _ :: _ => issuer ← prepare_certificate_issuer crypto key chain; mret (Some issuer)
    | _, _ => fail InvalidArgument
    end;
  let tls := match tls_type conf with TlsOpenSsl => openssl_tls end in
  _ ← validate_peer_verification tls (tls_verify conf);
  let verifier := load_verifier <$> c_verifier conf in
  let attester := load_attester <$> c_attester conf in
  mret (mkHandle conf attester verifier crypto tls certificate_issuer None).
End init.
End Api.
