(* ===== verification/RatlsThms.v ===== *)
(** * RATS-TLS: theorems

    What an accepted peer has shown, that evidence of one session is worthless in another, and that an honest
    peer is accepted; with behaviours that are not meant. *)

From S2P Require Import Prelude Utf8 Xdr Text Ratls CcaToken RatlsEngine RatlsApi.

(** * RATS-TLS: a sample platform

    Instances of the crates of the attestation library for the witnesses: a self-delimiting code of CBOR
    values with its law, certificates and signatures that name their keys, and a host with a measured
    realm. *)

#[local] Open Scope string_scope.
#[local] Open Scope list_scope.
#[local] Open Scope Z_scope.

(** ** A code for CBOR values *)

Fixpoint enc_pos (p : positive) : list byte :=
  match p with xH => [x00] | xO p => x01 :: enc_pos p | xI p => x02 :: enc_pos p end.
Fixpoint dec_pos (l : list byte) : option (positive * list byte) :=
  match l with
  | x00 :: l => Some (xH, l)
  | x01 :: l => match dec_pos l with Some (p, l) => Some (xO p, l) | None => None end
  | x02 :: l => match dec_pos l with Some (p, l) => Some (xI p, l) | None => None end
  | _ => None
  end.
Definition enc_Z (z : Z) : list byte :=
  match z with Z0 => [x00] | Zpos p => x01 :: enc_pos p | Zneg p => x02 :: enc_pos p end.
Definition dec_Z (l : list byte) : option (Z * list byte) :=
  match l with
  | x00 :: l => Some (0, l)
  | x01 :: l => '(p, l) ← dec_pos l; Some (Zpos p, l)
  | x02 :: l => '(p, l) ← dec_pos l; Some (Zneg p, l)
  | _ => None
  end.
Definition enc_len {A} (l : list A) : list byte := enc_Z (Z.of_nat (length l)).

Fixpoint enc (v : Value) : list byte :=
  match v with
  | VInteger i => x00 :: enc_Z i
  | VBytes b => x01 :: enc_len b ++ b
  | VText t => x02 :: enc_len t ++ t
  | VTag tag v => x03 :: enc_Z tag ++ enc v
  | VArray l => x04 :: enc_len l ++ concat (map enc l)
  | VMap l => x05 :: enc_len l ++ concat (map (λ kv, enc kv.1 ++ enc kv.2) l)
  | VOther n => x06 :: enc_Z n
  end.
Fixpoint read_k {A} (f : list byte → option (A * list byte)) (k : nat) (l : list byte) : option (list A * list byte) :=
  match k with
  | 0%nat => Some ([], l)
  | S k => '(a, l) ← f l; '(r, l) ← read_k f k l; Some (a :: r, l)
  end.
Definition read_len (l : list byte) : option (nat * list byte) := '(n, l) ← dec_Z l; Some (Z.to_nat n, l).
Fixpoint dec (fuel : nat) (l : list byte) : option (Value * list byte) :=
  match fuel, l with
  | S fuel, b :: l =>
      match b with
      | x00 => '(i, l) ← dec_Z l; Some (VInteger i, l)
      | x01 => '(n, l) ← read_len l; '(b, l) ← read_exact n l; Some (VBytes b, l)
      | x02 => '(n, l) ← read_len l; '(b, l) ← read_exact n l; Some (VText b, l)
      | x03 => '(tag, l) ← dec_Z l; '(v, l) ← dec fuel l; Some (VTag tag v, l)
      | x04 => '(n, l) ← read_len l; '(vs, l) ← read_k (dec fuel) n l; Some (VArray vs, l)
      | x05 =>
          '(n, l) ← read_len l;
          '(vs, l) ← read_k (λ l, '(k, l) ← dec fuel l; '(v, l) ← dec fuel l; Some ((k, v), l)) n l; Some (VMap vs, l)
      | x06 => '(n, l) ← dec_Z l; Some (VOther n, l)
      | _ => None
      end
  | _, _ => None
  end.

Lemma dec_enc_pos p rest : dec_pos (enc_pos p ++ rest) = Some (p, rest).
Proof. induction p as [p IH|p IH|]; simpl; [by rewrite IH..|done]. Qed.
Lemma dec_enc_Z z rest : dec_Z (enc_Z z ++ rest) = Some (z, rest).
Proof. destruct z; simpl; [done|by rewrite dec_enc_pos..]. Qed.
Lemma read_enc_len {A} (l : list A) rest : read_len (enc_len l ++ rest) = Some (length l, rest).
Proof. unfold read_len, enc_len. rewrite dec_enc_Z. simpl. by rewrite Nat2Z.id. Qed.
Lemma read_k_concat {A} (f : list byte → option (A * list byte)) g (l : list A) rest :
  (∀ a r, a ∈ l → f (g a ++ r) = Some (a, r)) → read_k f (length l) (concat (map g l) ++ rest) = Some (l, rest).
Proof.
  induction l as [|a l IH]; simpl; [done|]. intros Hf.
  rewrite <- app_assoc, Hf by set_solver. simpl. rewrite IH by set_solver. done.
Qed.

Lemma foldr_max_le n (l : list nat) : n ∈ l → (n ≤ foldr max 0 l)%nat.
Proof.
  induction l as [|m l IH]; [by intros ?%elem_of_nil|]. intros [->|Hn]%elem_of_cons; simpl; [lia|].
  specialize (IH Hn). lia.
Qed.
Lemma depth_le_length v : (depth v ≤ length (enc v))%nat.
Proof.
  revert v. fix IH 1. intros [| | |tag v|l|l|]; simpl; rewrite ?length_app; try lia.
  - specialize (IH v). lia.
  - enough (foldr max 0 (map depth l) ≤ length (concat (map enc l)))%nat by lia.
    induction l as [|v l IHl]; simpl; [done|]. specialize (IH v). rewrite length_app. lia.
  - match goal with |- (S (foldr max 0 ?a) ≤ S (_ + length ?b))%nat => enough (foldr max 0 a ≤ length b)%nat by lia end.
    induction l as [|[k v] l IHl]; simpl; [done|]. pose proof (IH k). pose proof (IH v). rewrite !length_app. lia.
Qed.
Lemma dec_enc fuel v rest : (depth v ≤ fuel)%nat → dec fuel (enc v ++ rest) = Some (v, rest).
Proof.
  revert v rest. induction fuel as [|fuel IH]; intros v rest Hd; [destruct v; simpl in Hd; lia|].
  destruct v as [i|b|t|tag v|l|l|n]; simpl; rewrite <- ?app_assoc, ?read_enc_len, ?dec_enc_Z; simpl; try done.
  - by rewrite read_exact_app.
  - by rewrite read_exact_app.
  - rewrite IH by (simpl in Hd; lia). done.
  - rewrite (read_k_concat (dec fuel) enc); [done|]. intros a r Ha. apply IH. simpl in Hd.
    apply list_elem_of_In, (in_map depth), list_elem_of_In, foldr_max_le in Ha. simpl in *. lia.
  - rewrite (read_k_concat _ (λ kv, enc kv.1 ++ enc kv.2)); [done|]. intros [k v] r Ha. simpl in Hd.
    apply list_elem_of_In, (in_map (λ kv, max (depth kv.1) (depth kv.2))), list_elem_of_In, foldr_max_le in Ha. simpl in Ha.
    cbn [fst snd]. rewrite <- app_assoc, IH by lia. simpl. by rewrite IH by lia.
Qed.

#[global] Instance sample_cbor : CborCrate :=
  {| from_reader l := fst <$> dec (length l) l; into_writer v := Some (enc v) |}.
#[global] Instance sample_cbor_laws : CborLaws sample_cbor.
Proof.
  split; [|done]. intros v _ _. exists (enc v). split; [done|]. simpl.
  rewrite <- (app_nil_r (enc v)) at 2. rewrite dec_enc; [done|]. apply depth_le_length.
Qed.
Lemma from_enc v : from_reader (enc v) = Some v.
Proof. simpl. rewrite <- (app_nil_r (enc v)) at 2. rewrite dec_enc; [done|]. apply depth_le_length. Qed.

(** ** Certificates, signatures and digests *)

Definition fit (n : nat) (l : list byte) : list byte := take n (l ++ replicate n x00).
Lemma length_fit n l : length (fit n l) = n.
Proof. unfold fit. rewrite length_take, length_app, length_replicate. lia. Qed.

(** A certificate names its key, its evidence and the key that signed it. *)
Record toy_cert := mkToy { toy_key : list byte; toy_evidence : list byte; toy_signer : list byte }.
Definition toy_root : toy_cert := mkToy (bytes "root key") [] (bytes "root key").
Definition toy_product : toy_cert := mkToy (bytes "product key") [] (bytes "root key").
Definition toy_device : toy_cert := mkToy (bytes "device key") [] (bytes "product key").
Definition leaf_bytes (key evidence : list byte) : list byte := enc (VArray [VBytes key; VBytes evidence]).
Definition read_leaf (b : list byte) : option toy_cert :=
  match from_reader b with Some (VArray [VBytes k; VBytes e]) => Some (mkToy k e k) | _ => None end.
Definition device_bytes : list byte := bytes "device".
(** A signature is its key with what it signs, cut to length. *)
Definition toy_sign (key data : list byte) : list byte := fit 132 (key ++ data).

#[global] Instance sample_openssl : OpensslCrate := {|
  X509 := toy_cert; PKey := list byte; Asn1Time := Z; BigNum := list byte;
  hash a d := Some (fit (digest_length a) d);
  sha256 d := fit 32 d;
  x509_from_pem b :=
    if decide (b = HUAWEI_EQUIPMENT_ROOT_CA_PEM) then Some toy_root
    else if decide (b = HUAWEI_PRODUCT_CA_PEM) then Some toy_product else read_leaf b;
  x509_from_der b := if decide (b = device_bytes) then Some toy_device else read_leaf b;
  not_before _ := 0; not_after _ := 100; time_compare a b := Some (a ?= b);
  public_key c := Some (toy_key c); public_key_to_der k := Some k;
  x509_verify c k := Some (bool_decide (k = toy_signer c));
  extensions c := Some [Some (mkExtension (Some (14, DICE_TAGGED_EVIDENCE_OID)) (Some (Some (toy_evidence c))))];
  p521_from_bytes b := Some b; bn_from_slice b := Some b; ecdsa_to_der r s := Some (r ++ s);
  verify_digest _ key data sig := Some (bool_decide (sig = toy_sign key data))
|}.
#[global] Instance sample_digest_laws : DigestLaws sample_openssl.
Proof. split; simpl; intros; simplify_eq; by rewrite ?length_fit. Qed.

Record toy_sign1 := mkSign1 { toy_payload : list byte; toy_signature : list byte }.
#[global] Instance sample_coset : CosetCrate := {|
  CoseSign1 := toy_sign1;
  from_tagged_slice b := match from_reader b with Some (VArray [VBytes p; VBytes s]) => Some (mkSign1 p s) | _ => None end;
  from_slice _ := None;
  sign1_alg _ := Some ES512; payload m := Some (toy_payload m); signature := toy_signature;
  tbs_data m _ := toy_payload m;
  key_from_slice b := Some (mkCoseKey EC2
    [(LInt (-1), VInteger 3); (LInt (-2), VBytes (fit 66 b)); (LInt (-3), VBytes (fit 66 b))])
|}.

(** ** A realm *)

Definition sample_rak : list byte := bytes "realm key".
Definition sample_rak_raw : list byte := x04 :: fit 66 sample_rak ++ fit 66 sample_rak.
Definition sign_message (key payload : list byte) : list byte :=
  enc (VArray [VBytes payload; VBytes (toy_sign key payload)]).
Definition platform_map : Value :=
  VMap [(VInteger platform_labels.PROFILE, VText (bytes "platform"));
        (VInteger platform_labels.CHALLENGE, VBytes (fit 32 sample_rak_raw))].
Definition realm_map (c : list byte) : Value :=
  VMap [(VInteger realm_labels.CHALLENGE, VBytes (c ++ replicate 32 x00));
        (VInteger realm_labels.PROFILE, VText (bytes "realm"));
        (VInteger realm_labels.RAK, VBytes sample_rak);
        (VInteger realm_labels.RAK_HASH_ALG, VText (bytes "sha-256"));
        (VInteger realm_labels.REM, VArray (replicate 4 (VBytes (replicate 32 x00))))].
Definition sample_tsm (c : list byte) : list byte :=
  enc (VTag collection.CBOR_TAG (VMap
    [(VInteger collection.PLATFORM_LABEL, VBytes (sign_message (bytes "device key") (enc platform_map)));
     (VInteger collection.REALM_LABEL, VBytes (sign_message sample_rak_raw (enc (realm_map c))))])).

(** The world is what was last written to the report directory. *)
Definition sample_dir : list byte := bytes "/report".
#[global] Instance sample_host : Host (list byte) := {|
  host_now w := (Some 50, w);
  path_exists _ _ := true;
  fs_write _ data _ := (true, data);
  fs_read path w :=
    (if decide (path = join sample_dir (bytes "outblob")) then Some (sample_tsm w) else Some device_bytes, w)
|}.

Definition sample_crypto : CryptoWrapper (list byte) := mkCrypto _
  (λ a w, (inr (mkKey a (bytes "secret") (bytes "leaf key") None), w))
  (λ _ _ w, (inl Unsupported, w))
  (λ key info w, (inr (mkKey (key_algo key) (private_key key) (key_public key)
    (Some (leaf_bytes (key_public key) (default [] (evidence_buffer info))))), w)).
Definition sample_conf : RaTlsConf :=
  mkConf (Some AttestCca) (Some PluginCca) TlsOpenSsl CryptoOpenSsl Ecc256Sha256
    [mkClaim (bytes "service") (bytes "db")] false false (mkCertificateConf [] [] []) (mkTlsVerify false false [] None).
Definition sample_binding : TlsEvidenceBinding := mkBinding (replicate 32 x07) (bytes "key share").
(** The certificate of a server in the realm for the handshake of [sample_binding]. *)
Definition sample_leaf : list byte :=
  match Engine.generate_ratls_identity sample_crypto (mkAttester sample_dir)
    (Engine.mkIdentityConf Ecc256Sha256 (c_custom_claims sample_conf) None [] ServerRole) sample_binding [] with
  | (inr id, _) => default [] (head (certificate_chain_pem id))
  | _ => []
  end.
Definition sample_peer : TlsPeerData := mkPeer sample_leaf sample_binding.
(** A client: streams are numbers, and its handshakes end with [sample_peer]. *)
Definition sample_tls : TlsWrapper (list byte) nat nat := mkTls _ _ _
  (λ _ w, (inr tt, w)) (λ s _ _ w, (inr s, w)) (λ s _ _ w, (inr s, w)) (λ _ w, (inr None, w)) (λ _ _ w, (inr tt, w))
  (λ s w, (inr (mkNegotiated s (Some sample_peer)), w)).
Definition sample_handle : RaTlsHandle (list byte) nat nat :=
  mkHandle sample_conf None (Some CcaVerifier) sample_crypto sample_tls None None.

Example sample_negotiates : ∃ w, Engine.rats_tls_negotiate sample_handle 7%nat [] = (inr 7%nat, w).
Proof. eexists. vm_compute. reflexivity. Qed.
Example sample_leaf_made : sample_leaf ≠ [].
Proof. vm_compute. done. Qed.

(** * Theorems *)

#[local] Open Scope string_scope.
#[local] Open Scope list_scope.
#[local] Open Scope Z_scope.

(** ** Inverting computations *)

Lemma bind_inr {A B} (f : A → Result B) (m : Result A) b : m ≫= f = inr b ↔ ∃ a, m = inr a ∧ f a = inr b.
Proof. destruct m as [e|a]; simpl; split; [done|by intros (?&?&?)|eauto|by intros (?&[= ->]&?)]. Qed.
Lemma rbind_inr {W A B} (f : A → R W B) (m : R W A) w b w' :
  (m ≫= f) w = (inr b, w') ↔ ∃ a w1, m w = (inr a, w1) ∧ f a w1 = (inr b, w').
Proof.
  unfold mbind, r_bind. destruct (m w) as [[e|a] w1]; split.
  - done.
  - by intros (?&?&?&?).
  - eauto.
  - by intros (?&?&[= -> ->]&?).
Qed.
Lemma or_err_inr {A} e (o : option A) a : or_err e o = inr a ↔ o = Some a.
Proof. destruct o; simpl; split; congruence. Qed.
Lemma ensure_inr b e u : ensure b e = inr u ↔ b = true.
Proof. by destruct b, u. Qed.
Lemma lift_inr {W A} (r : Result A) (w w' : W) a : lift r w = (inr a, w') ↔ r = inr a ∧ w = w'.
Proof. unfold lift. split; [by intros [= -> ->]|by intros [-> ->]]. Qed.

(** Takes a successful computation apart. *)
Ltac inv_step :=
  match goal with
  | H : _ ∧ _ |- _ => destruct H
  | H : ∃ _, _ |- _ => destruct H
  | H : inl _ = inr _ |- _ => discriminate H
  | H : inr _ = inr _ |- _ => injection H as H
  | H : mret _ = inr _ |- _ => injection H as H
  | H : fail _ _ = (inr _, _) |- _ => discriminate H
  | H : (inl _, _) = (inr _, _) |- _ => discriminate H
  | H : mret _ _ = (inr _, _) |- _ => injection H as H
  | H : (inr _, _) = (inr _, _) |- _ => injection H as H
  | H : (_ ≫= _) = inr _ |- _ => apply bind_inr in H
  | H : (_ ≫= _) _ = (inr _, _) |- _ => apply rbind_inr in H
  | H : or_err _ _ = inr _ |- _ => apply or_err_inr in H
  | H : ensure _ _ = inr _ |- _ => apply ensure_inr in H
  | H : lift _ _ = (inr _, _) |- _ => apply lift_inr in H
  | H : bool_decide _ = true |- _ => apply bool_decide_eq_true in H
  | H : (if ?b then _ else _) = inr _ |- _ => destruct b eqn:?
  | H : (if ?b then _ else _) _ = (inr _, _) |- _ => destruct b eqn:?
  end.
Ltac inv_all := repeat (inv_step; simpl in * ); subst.

(** ** What an accepted peer has shown *)

Section trust.
Context {C : CborCrate} {Co : CosetCrate} {O : OpensslCrate} {W : Type} {H : Host W} {S T : Type}.
Implicit Types (handle : RaTlsHandle W S T) (e : Evidence) (t : CCAToken).

(** [issuer] signed the certificate [subject]. *)
Definition issued (issuer subject : X509) : Prop :=
  ∃ k, public_key issuer = Some k ∧ x509_verify subject k = Some true.
(** The clock showed a time within the validity of the certificate. *)
Definition in_force (c : X509) : Prop :=
  ∃ now, time_compare now (not_before c) = Some Gt ∧ time_compare now (not_after c) = Some Lt.
(** [key] signed the message with ES512. *)
Definition signed (key : PKey) (m : CoseSign1) : Prop :=
  ∃ r s der, length (signature m) = 132%nat ∧ bn_from_slice (take 66 (signature m)) = Some r ∧
    bn_from_slice (drop 66 (signature m)) = Some s ∧ ecdsa_to_der r s = Some der ∧
    verify_digest SHA512 key (tbs_data m []) der = Some true.

(** The chain from the root of Huawei to the claims of the realm. *)
Definition chain_of_trust (raw : list byte) t : Prop :=
  ∃ ev device product root device_key rak_raw rak_key alg,
    Ev.decode_raw_native raw = inr ev ∧ Tools.parse_cert (dev_cert ev) = inr device ∧
    x509_from_pem HUAWEI_PRODUCT_CA_PEM = Some product ∧ x509_from_pem HUAWEI_EQUIPMENT_ROOT_CA_PEM = Some root ∧
    in_force device ∧ in_force product ∧ in_force root ∧
    issued product device ∧ issued root product ∧ issued root root ∧
    Token.parse (token ev) = inr t ∧ p_profile (platform_claims t) ≠ [] ∧ r_profile (realm_claims t) ≠ [] ∧
    public_key device = Some device_key ∧ signed device_key (platform t) ∧
    Tools.cose_key_to_uncompressed_bytes (rak_cose_key (realm_claims t)) = inr rak_raw ∧
    Token.rak_digest (rak_hash_alg (realm_claims t)) = inr alg ∧
    hash alg rak_raw = Some (p_challenge (platform_claims t)) ∧
    p521_from_bytes rak_raw = Some rak_key ∧ signed rak_key (realm t).
(** The claims of the session, and that the realm was challenged with them. *)
Definition bound_to_session (key_der key_share nonce' : list byte) (claims : list byte) t : Prop :=
  ∃ c, Dice.parse_claims_buffer claims = inr c ∧ pubkey_hash c = sha256 key_der ∧
    client_key_share_hash c = sha256 key_share ∧ nonce c = Some nonce' ∧
    take 32 (r_challenge (realm_claims t)) = sha256 claims.

Lemma verify_sign1_signed key m u : Token.verify_sign1 key m = inr u → signed key m.
Proof.
  unfold Token.verify_sign1, Token.verify_es512_signature. case_bool_decide; [done|].
  destruct (_ ≫= _) eqn:Hv; [done|]. intros _. inv_all. unfold signed. repeat esplit; eauto; lia.
Qed.
Lemma verify_cert_issued i s u : Tools.verify_cert_by_cert i s = inr u → issued i s.
Proof. unfold Tools.verify_cert_by_cert. intros ?. inv_all. unfold issued. eauto. Qed.
Lemma verify_validity_in_force c w u (w' : W) : Tools.verify_cert_validity c w = (inr u, w') → in_force c.
Proof.
  unfold Tools.verify_cert_validity, Tools.compare. intros ?. inv_all. unfold in_force.
  repeat match goal with H : bool_decide _ = false |- _ => apply bool_decide_eq_false, dec_stable in H; subst end.
  eauto.
Qed.

Lemma crypto_verification_chain (raw : list byte) ev n w t w' :
  Ev.decode_raw_native raw = inr ev → Ev.crypto_verification (W:=W) ev (Some n) w = (inr t, w') →
  chain_of_trust raw t ∧ take (length n) (r_challenge (realm_claims t)) = n.
Proof.
  intros Hd Hv. unfold Ev.crypto_verification, Ev.verify_cert_chain, Token.verify_platform_token,
    Token.verify_realm_token, Token.verify_nonce, Token.verify_rak, hashR,
    Tools.p521_public_key, Plat.check_profile, Rlm.check_profile in Hv. inv_all.
  split; [|naive_solver]. unfold chain_of_trust.
  do 8 eexists. split_and!; eauto using verify_sign1_signed, verify_cert_issued, verify_validity_in_force.
Qed.

Context {DL : DigestLaws O}.

(** An evidence that passes is trusted and bound to its session. *)
Lemma verify_evidence_sound e w e' w' :
  Verifier.verify_evidence (W:=W) e w = (inr e', w') →
  ∃ t, chain_of_trust (raw_evidence e) t ∧ evidence_json e' = Token.to_json_value t ∧
    raw_evidence e' = raw_evidence e ∧ claims_buffer e' = claims_buffer e ∧ public_key_der e' = public_key_der e ∧
    ∃ c, Dice.parse_claims_buffer (claims_buffer e) = inr c ∧ pubkey_hash c = sha256 (public_key_der e) ∧
      client_key_share_hash c = expected_client_key_share_hash e ∧ nonce c = Some (expected_nonce e) ∧
      take 32 (r_challenge (realm_claims t)) = sha256 (claims_buffer e).
Proof.
  unfold Verifier.verify_evidence, Verifier.verify_ratls_claims, hashR. intros Hv. inv_all.
  repeat match goal with H : bool_decide _ = false |- _ => apply bool_decide_eq_false, dec_stable in H end.
  repeat match goal with H : hash SHA256 _ = Some _ |- _ => pose proof (hash_sha256 _ _ H); clear H; subst end.
  match goal with Hc : Ev.crypto_verification _ _ _ = _, Hd : Ev.decode_raw_native _ = _ |- _ =>
    destruct (crypto_verification_chain _ _ _ _ _ _ Hd Hc) as [Hch Hn] end.
  rewrite sha256_length in Hn. eexists. split_and!; [done..|]. eexists. split_and!; eauto; congruence.
Qed.

(** What [verify_handshake_evidence] has established of a peer when it returns [e]. *)
Definition peer_attested (p : TlsPeerData) e : Prop :=
  ∃ cert key t, x509_from_der (certificate_der p) = Some cert ∧
    public_key cert = Some key ∧ public_key_to_der key = Some (public_key_der e) ∧
    (∃ ext, Engine.extract_evidence_extension cert = inr ext ∧
      Dice.decode_evidence_buffer ext = inr (mkEvidenceBuffer EVIDENCE_TAG (raw_evidence e) (claims_buffer e))) ∧
    chain_of_trust (raw_evidence e) t ∧
    bound_to_session (public_key_der e) (binding_key_share (evidence_binding p)) (binding_nonce (evidence_binding p))
      (claims_buffer e) t ∧
    evidence_json e = Token.to_json_value t.
Lemma verify_input_tag e u : Verifier.verify_input e = inr u → ev_tag e = EVIDENCE_TAG.
Proof. unfold Verifier.verify_input. destruct (ev_name e). intros ?. inv_all. lia. Qed.
Lemma verify_handshake_sound handle p w e w' :
  Engine.verify_handshake_evidence handle p w = (inr e, w') → peer_attested p e.
Proof.
  unfold Engine.verify_handshake_evidence. intros Hv.
  apply rbind_inr in Hv as (cert & w1 & [Hcert <-]%lift_inr & Hv). apply or_err_inr in Hcert.
  apply rbind_inr in Hv as (ext & w1 & [Hext <-]%lift_inr & Hv).
  apply rbind_inr in Hv as ([tag raw cl] & w1 & [Hbuf <-]%lift_inr & Hv).
  apply rbind_inr in Hv as (key & w1 & [Hkey <-]%lift_inr & Hv). apply or_err_inr in Hkey.
  apply rbind_inr in Hv as (der & w1 & [Hder <-]%lift_inr & Hv). apply or_err_inr in Hder.
  apply rbind_inr in Hv as (pl & w1 & [Hpl <-]%lift_inr & Hv).
  apply rbind_inr in Hv as ([] & w1 & [_ <-]%lift_inr & Hv). simpl in Hv.
  assert (tag = EVIDENCE_TAG) as ->.
  { unfold Verifier.verify_evidence in Hv. apply rbind_inr in Hv as (u & ? & [Hi _]%lift_inr & _).
    by apply verify_input_tag in Hi. }
  destruct (verify_evidence_sound _ _ _ _ Hv) as (t & Hch & Hj & Hr & Hc & Hk & Hcl). simpl in *.
  exists cert, key, t. rewrite Hr, Hc, Hk. split_and!; eauto.
Qed.
(** The callback of the user, if there is one, accepted [e]. *)
Definition callback_accepted handle e : Prop :=
  ∀ cb, user_callback handle = Some cb → ∃ w w', cb e w = (inr tt, w').
Lemma verify_user_callback_accepted handle e w u w' :
  Engine.verify_user_callback handle e w = (inr u, w') → callback_accepted handle e.
Proof.
  unfold Engine.verify_user_callback, callback_accepted. intros Hv cb Hcb. rewrite Hcb in Hv. destruct u. eauto.
Qed.

(** C8. No stream without an attested peer: whatever the TLS library, the platform and the other side do, a
    client, and a server that asks for certificates, gives a stream out only when the handshake that made it
    ended with a peer whose certificate carries evidence that chains to the root of Huawei through both CCA
    tokens, was made for the key of this certificate, for the key share and the nonce of this handshake, and
    was accepted by the callback. *)
Theorem negotiated_peer_is_attested handle s w s' w' :
  Engine.rats_tls_negotiate handle s w = (inr s', w') →
  server (conf handle) = false ∨ mutual (conf handle) = true →
  ∃ hs w1 n w2 p e, hs_finish (tls handle) hs w1 = (inr n, w2) ∧ stream n = s' ∧ peer n = Some p ∧
    peer_attested p e ∧ callback_accepted handle e.
Proof.
  unfold Engine.rats_tls_negotiate, Engine.create_ratls_server, Engine.create_ratls_client. intros Hn Hmode.
  destruct (server (conf handle)) eqn:Hs.
  - destruct Hmode as [|Hm]; [done|]. rewrite Hm in Hn. inv_all.
    do 6 eexists. split_and!; eauto using verify_handshake_sound, verify_user_callback_accepted.
  - inv_all. do 6 eexists. split_and!; eauto using verify_handshake_sound, verify_user_callback_accepted.
Qed.

End trust.

Lemma negotiated_peer_is_attested_witness :
  ∃ w', Engine.rats_tls_negotiate sample_handle 7%nat [] = (inr 7%nat, w') ∧
    ∃ hs w1 n w2 p e, hs_finish (tls sample_handle) hs w1 = (inr n, w2) ∧ stream n = 7%nat ∧ peer n = Some p ∧
      peer_attested p e ∧ callback_accepted sample_handle e.
Proof.
  eexists. split; [vm_compute; reflexivity|].
  eapply (negotiated_peer_is_attested sample_handle 7%nat []); [vm_compute; reflexivity|]. left. reflexivity.
Defined.

(** ** The shape of an accepted token *)

Section shape.
Context {C : CborCrate} {Co : CosetCrate} {O : OpensslCrate}.

Lemma foldR_app {A B} (f : B → A → Result B) b l1 l2 :
  foldR f b (l1 ++ l2) = b' ← foldR f b l1; foldR f b' l2.
Proof. revert b. induction l1 as [|a l1 IH]; intros b; simpl; [done|]. destruct (f b a); simpl; auto. Qed.
Lemma foldR_inv {A B} (P : B → Prop) (f : B → A → Result B) :
  (∀ b a b', P b → f b a = inr b' → P b') → ∀ l b b', P b → foldR f b l = inr b' → P b'.
Proof.
  intros Hf l. induction l as [|a l IH]; intros b b' Hb Hr; simpl in Hr; [by injection Hr as <-|].
  apply bind_inr in Hr as (b1 & H1 & H2). eauto.
Qed.
Lemma fold_labels_inv {A} (P : A → Prop) (f : A → Z → Value → Result A) :
  (∀ a l v a', P a → f a l v = inr a' → P a') → ∀ m a a', P a → fold_labels f a m = inr a' → P a'.
Proof.
  intros Hf m a a'. apply foldR_inv. intros b [k v] b' Hb. simpl. destruct (as_integer k); [by apply Hf|].
  by intros [= <-].
Qed.
Lemma get_bytes_size v n b : Decode.get_bytes v [n] = inr b → length b = n.
Proof.
  unfold Decode.get_bytes. intros ?. inv_all.
  match goal with H : bool_decide _ = false |- _ => apply bool_decide_eq_false in H end.
  apply dec_stable. intros Hn. set_solver.
Qed.
Lemma get_array_size v n l : Decode.get_array v (Some n) = inr l → length l = n.
Proof.
  unfold Decode.get_array. intros ?. inv_all.
  match goal with H : bool_decide _ = false |- _ => apply bool_decide_eq_false, dec_stable in H end. done.
Qed.
Lemma mapR_length {A B} (f : A → Result B) l r : mapR f l = inr r → length r = length l.
Proof.
  revert r. induction l as [|a l IH]; intros r Hr; simpl in Hr; inv_all; simpl; [done|]. f_equal. auto.
Qed.

(** The measurement of a component has the size of its digest, one of the three that are known. *)
Definition component_ok (c : SwComponent) : Prop :=
  ∃ alg, sw_hash_alg c = Some alg ∧ SwC.expected_size alg = inr (length (mea_val c)).

(** The value of a claim: the last entry of the map with its label. *)
Definition claim (label : Z) (m : list (Value * Value)) : option Value :=
  snd <$> last (filter (λ kv, as_integer kv.1 = Some label) m).
(** A field that holds the bytes, the text or the number of a claim, and its default where the claim is missing. *)
Definition bytes_claim (m : list (Value * Value)) (label : Z) (size : option nat) (dflt b : list byte) : Prop :=
  match claim label m with
  | Some v => as_bytes v = Some b ∧ from_option (λ n, length b = n) True size
  | None => b = dflt
  end.
Definition text_claim {A} (m : list (Value * Value)) (label : Z) (wrap : list byte → A) (dflt a : A) : Prop :=
  match claim label m with
  | Some v => ∃ t, as_text v = Some t ∧ a = wrap (trim_end [[x00]] t)
  | None => a = dflt
  end.
Record platform_ok (m : list (Value * Value)) (p : Platform) : Prop := {
  pok_profile : text_claim m platform_labels.PROFILE id [] (p_profile p);
  pok_challenge : bytes_claim m platform_labels.CHALLENGE (Some 32%nat) [] (p_challenge p);
  pok_impl : bytes_claim m platform_labels.IMPL_ID (Some 32%nat) (zeros 32) (impl_id p);
  pok_inst : bytes_claim m platform_labels.INST_ID (Some 33%nat) (zeros 33) (inst_id p);
  pok_config : bytes_claim m platform_labels.CONFIG None [] (config p);
  pok_lifecycle : match claim platform_labels.LIFECYCLE m with
                  | Some v => as_integer v = Some (lifecycle p) ∧ 0 ≤ lifecycle p < 2 ^ 16
                  | None => lifecycle p = 0
                  end;
  pok_service : text_claim m platform_labels.VERIFICATION_SERVICE Some None (verification_service p);
  pok_hash_alg : text_claim m platform_labels.HASH_ALG id [] (p_hash_alg p);
  pok_components : Forall component_ok (sw_components p)
}.
Record realm_ok (m : list (Value * Value)) (r : Realm) : Prop := {
  rok_challenge : bytes_claim m realm_labels.CHALLENGE (Some 64%nat) (zeros 64) (r_challenge r);
  rok_profile : text_claim m realm_labels.PROFILE id [] (r_profile r);
  rok_rpv : bytes_claim m realm_labels.RPV (Some 64%nat) (zeros 64) (rpv r);
  rok_rim : bytes_claim m realm_labels.RIM None [] (rim r);
  rok_rem : match claim realm_labels.REM m with
            | Some v => as_array v = Some (VBytes <$> rem r) ∧ length (rem r) = 4%nat
            | None => rem r = replicate 4 []
            end;
  rok_hash_alg : text_claim m realm_labels.HASH_ALG id [] (r_hash_alg r);
  rok_rak_alg : text_claim m realm_labels.RAK_HASH_ALG id [] (rak_hash_alg r);
  rok_rak : bytes_claim m realm_labels.RAK None [] (rak r);
  rok_key : match claim realm_labels.RAK m with
            | Some _ => key_from_slice (rak r) = Some (rak_cose_key r)
            | None => rak_cose_key r = default_cose_key
            end
}.

(** One more entry of the map. *)
Lemma claim_snoc label m kv :
  claim label (m ++ [kv]) = if decide (as_integer kv.1 = Some label) then Some kv.2 else claim label m.
Proof. unfold claim. rewrite filter_app, filter_cons, filter_nil. case_decide; [by rewrite last_snoc|by rewrite app_nil_r]. Qed.
Lemma fold_labels_claims {A} (P : list (Value * Value) → A → Prop) (f : A → Z → Value → Result A) init :
  P [] init →
  (∀ m k v a, as_integer k = None → P m a → P (m ++ [(k, v)]) a) →
  (∀ m k l v a a', as_integer k = Some l → P m a → f a l v = inr a' → P (m ++ [(k, v)]) a') →
  ∀ m a, fold_labels f init m = inr a → P m a.
Proof.
  intros H0 Hskip Hf m. induction m as [|[k v] m IH] using rev_ind; intros a; [by intros [= <-]|].
  unfold fold_labels. rewrite foldR_app. intros (b & Hb & Ha)%bind_inr. specialize (IH b Hb). simpl in Ha.
  destruct (as_integer k) as [l|] eqn:Hk; simpl in Ha; inv_all; eauto.
Qed.
Lemma sw_decode_ok v c : SwC.decode v = inr c → component_ok c.
Proof.
  unfold SwC.decode. destruct v as [| | | | |m|]; try done. intros ?. inv_all.
  match goal with H : bool_decide _ = false |- _ => apply bool_decide_eq_false, dec_stable in H end.
  unfold component_ok. subst. eauto.
Qed.

(** Adding components leaves the other claims alone. *)
Lemma push_component_ok m p v p' : platform_ok m p → Plat.push_component p v = inr p' → platform_ok m p'.
Proof.
  intros [] Hp. unfold Plat.push_component in Hp. inv_all. split; simpl; try done.
  apply Forall_app. split; [done|]. constructor; [|done]. by eapply sw_decode_ok.
Qed.
Lemma get_bytes_claim v size b : Decode.get_bytes v (option_list size) = inr b →
  as_bytes v = Some b ∧ from_option (λ n, length b = n) True size.
Proof.
  intros Hb. split; [|destruct size; [by apply get_bytes_size in Hb|done]].
  unfold Decode.get_bytes in Hb. by inv_all.
Qed.
Lemma get_string_claim v t : Decode.get_string v = inr t → ∃ t', as_text v = Some t' ∧ t = trim_end [[x00]] t'.
Proof. unfold Decode.get_string. intros ?. inv_all. eauto. Qed.

(** The claims after one more entry with label [l]: only the claim of that label is new. *)
Ltac claims_step Hk :=
  unfold bytes_claim, text_claim in *; rewrite !claim_snoc; cbn [fst snd]; rewrite ?Hk;
  first [rewrite !decide_False by (vm_compute; discriminate); done
        |rewrite !decide_True by done;
         first [by eapply get_bytes_claim|by apply get_string_claim|done
               |by edestruct get_string_claim as (? & ? & ->); eauto]].
Lemma platform_skip m k v p :
  platform_ok m p → (∀ l, as_integer k = Some l → l ∉ [265; 10; 2396; 256; 2401; 2395; 2400; 2402]) →
  platform_ok (m ++ [(k, v)]) p.
Proof.
  intros [] Hk. assert (Hne : ∀ L, L ∈ [265; 10; 2396; 256; 2401; 2395; 2400; 2402] → as_integer k ≠ Some L) by (intros L HL Hl; by eapply Hk).
  split; unfold bytes_claim, text_claim; rewrite ?claim_snoc; cbn [fst snd]; rewrite ?decide_False by (apply Hne; set_solver); done.
Qed.
Lemma platform_field_ok m k l v p p' :
  as_integer k = Some l → platform_ok m p → Plat.field p l v = inr p' → platform_ok (m ++ [(k, v)]) p'.
Proof.
  intros Hk Hp Hf. unfold Plat.field in Hf.
  repeat match type of Hf with (if ?a =? ?b then _ else _) = inr _ => destruct (Z.eqb_spec a b) as [->|?] end;
    try (apply bind_inr in Hf as (x & Hx & Hf)); try (injection Hf as <-);
    try (destruct Hp; split; cbn [p_profile p_challenge impl_id inst_id config lifecycle verification_service
      p_hash_alg sw_components]; try done; claims_step Hk).
  - apply bind_inr in Hf as (y & Hy & Hf). injection Hf as <-. unfold Plat.to_u16 in Hy. unfold Decode.get_num in Hx.
    apply or_err_inr in Hx. destruct (_ && _) eqn:Hrange in Hy; [injection Hy as <-|done].
    destruct Hp; split; simpl; try done; try claims_step Hk.
    rewrite claim_snoc. simpl. rewrite decide_True by done. split; [done|lia].
  - eapply (foldR_inv (platform_ok (m ++ [(k, v)]))); [apply push_component_ok| |done].
    apply platform_skip; [done|]. rewrite Hk. intros ? [= <-]. vm_compute. set_solver.
  - apply platform_skip; [done|]. rewrite Hk. intros ? [= <-]. set_solver.
Qed.
Lemma realm_skip m k v r :
  realm_ok m r → (∀ l, as_integer k = Some l → l ∉ [10; 265; 44235; 44236; 44237; 44238; 44239; 44240]) →
  realm_ok (m ++ [(k, v)]) r.
Proof.
  intros [] Hk. assert (Hne : ∀ L, L ∈ [10; 265; 44235; 44236; 44237; 44238; 44239; 44240] → as_integer k ≠ Some L)
    by (intros L HL Hl; by eapply Hk).
  split; unfold bytes_claim, text_claim; rewrite ?claim_snoc; cbn [fst snd]; rewrite ?decide_False by (apply Hne; set_solver); done.
Qed.
Lemma rem_claim measurements ms :
  mapR (λ measurement, Decode.get_bytes measurement []) measurements = inr ms → measurements = VBytes <$> ms.
Proof.
  revert ms. induction measurements as [|x l IH]; intros ms; simpl; intros Hm; inv_all; [done|].
  match goal with H : Decode.get_bytes _ _ = inr _ |- _ => apply (get_bytes_claim _ None) in H as [Hb _] end.
  destruct x; simplify_eq/=. f_equal. auto.
Qed.
Lemma realm_field_ok m k l v r r' :
  as_integer k = Some l → realm_ok m r → Rlm.field r l v = inr r' → realm_ok (m ++ [(k, v)]) r'.
Proof.
  intros Hk Hr Hf. unfold Rlm.field in Hf.
  repeat match type of Hf with (if ?a =? ?b then _ else _) = inr _ => destruct (Z.eqb_spec a b) as [->|?] end;
    try (apply bind_inr in Hf as (x & Hx & Hf)); try (injection Hf as <-);
    try (destruct Hr; split; cbn [r_challenge r_profile rpv rim rem r_hash_alg rak rak_hash_alg rak_cose_key];
      try done; claims_step Hk).
  - apply bind_inr in Hf as (ms & Hms & Hf). injection Hf as <-.
    destruct Hr; split; simpl; try done; try claims_step Hk. rewrite claim_snoc. simpl. rewrite decide_True by done.
    pose proof (mapR_length _ _ _ Hms) as Hl. rewrite (get_array_size _ _ _ Hx) in Hl.
    apply rem_claim in Hms as <-. split; [|done]. unfold Decode.get_array in Hx. by inv_all.
  - apply bind_inr in Hf as (key & Hkey & Hf). injection Hf as <-. apply or_err_inr in Hkey.
    destruct Hr; split; simpl; try done; claims_step Hk.
  - apply realm_skip; [done|]. rewrite Hk. intros ? [= <-]. set_solver.
Qed.

Lemma token_well_formed_aux tok t :
  Token.parse tok = inr t → ∃ pp rp pm rm,
    payload (platform t) = Some pp ∧ from_reader pp = Some (VMap pm) ∧ platform_ok pm (platform_claims t) ∧
    payload (realm t) = Some rp ∧ from_reader rp = Some (VMap rm) ∧ realm_ok rm (realm_claims t).
Proof.
  unfold Token.parse, Plat.decode, Rlm.decode. intros ?. inv_all.
  repeat match goal with H : match ?v with _ => _ end = inr _ |- _ => destruct v; try discriminate H end.
  eexists _, _, _, _. split_and!; [done|done| |done|done|].
  - eapply fold_labels_claims; [| | |done].
    + split; simpl; try done.
    + intros m k v a Hk Ha. apply platform_skip; [done|]. by rewrite Hk.
    + apply platform_field_ok.
  - eapply fold_labels_claims; [| | |done].
    + by split.
    + intros m k v a Hk Ha. apply realm_skip; [done|]. by rewrite Hk.
    + apply realm_field_ok.
Qed.

(** The longer digests [verify_rak] knows are never accepted: the challenge of the platform must have 32
    bytes, which neither SHA-384 nor SHA-512 produces. *)
Lemma long_rak_digest_rejected {DL : DigestLaws O} tok t n :
  Token.parse tok = inr t → rak_hash_alg (realm_claims t) = bytes "sha-384" ∨ rak_hash_alg (realm_claims t) = bytes "sha-512" →
  ¬ ∃ u, Token.verify_realm_token t n = inr u.
Proof.
  intros Ht Halg [u Hv]. destruct (token_well_formed_aux _ _ Ht) as (pp & rp & pm & rm & _ & _ & Hp & _).
  assert (Hc : p_challenge (platform_claims t) = [] ∨ length (p_challenge (platform_claims t)) = 32%nat).
  { pose proof (pok_challenge _ _ Hp) as Hc. unfold bytes_claim in Hc. destruct (claim _ _); [right; apply Hc|by left]. }
  unfold Token.verify_realm_token, Token.verify_rak, hashR in Hv. inv_all.
  match goal with H : hash ?a _ = Some _ |- _ => apply hash_length in H end.
  unfold Token.rak_digest in *. destruct Halg as [Ha|Ha]; rewrite Ha in *; simpl in *; inv_all; simpl in *;
    destruct Hc as [Hc|Hc]; rewrite Hc in *; simpl in *; lia.
Qed.
End shape.


(** ** Claims *)

Section claims.
Context {C : CborCrate} {CL : CborLaws C}.

Lemma parse_custom_claims f cs :
  Forall (λ c, claim_name c ∉ [PUBKEY_HASH; CLIENT_KEY_SHARE_HASH; NONCE]) cs →
  foldR Dice.parse_claim f ((λ c, (VText (claim_name c), VBytes (claim_value c))) <$> cs) =
  inr (Dice.mkFound (Dice.f_pubkey_algo f) (Dice.f_pubkey_hash f) (Dice.f_key_share_algo f)
    (Dice.f_key_share_hash f) (Dice.f_nonce f) (Dice.f_custom f ++ cs)).
Proof.
  intros Hcs. revert f. induction Hcs as [|[n v] cs Hc Hcs IH]; intros f.
  - destruct f; simpl. by rewrite app_nil_r.
  - simpl in Hc. rewrite !not_elem_of_cons in Hc. destruct Hc as (?&?&?&_).
    rewrite fmap_cons. cbn [foldR Dice.parse_claim claim_name claim_value]. rewrite !decide_False by done.
    cbn [mbind result_bind or_err as_bytes mret result_ret]. rewrite IH. simpl. by rewrite <- app_assoc.
Qed.
Lemma validated_claims_free acc acc' cs :
  foldR Api.validate_custom_claim acc cs = inr acc' →
  Forall (λ c, claim_name c ∉ [PUBKEY_HASH; CLIENT_KEY_SHARE_HASH; NONCE]) cs.
Proof.
  revert acc. induction cs as [|c cs IH]; intros [names total] Hv; [done|].
  cbn [foldR] in Hv. apply bind_inr in Hv as (acc1 & Hc & Hv). constructor; [|eauto].
  unfold Api.validate_custom_claim in Hc. inv_all. done.
Qed.
Lemma parse_encoded_hash h b : Dice.encode_hash_claim h = inr b → Dice.parse_hash_claim_value b = inr (1, h).
Proof.
  unfold Dice.encode_hash_claim, Dice.parse_hash_claim_value. intros Hb%or_err_inr.
  destruct (cbor_roundtrip (VArray [VInteger 1; VBytes h]) eq_refl ltac:(simpl; lia)) as (b' & Hw & Hr).
  assert (b' = b) as -> by congruence. by rewrite Hr.
Qed.
Lemma encode_hash_ok h : ∃ b, Dice.encode_hash_claim h = inr b.
Proof.
  destruct (cbor_roundtrip (VArray [VInteger 1; VBytes h]) eq_refl ltac:(simpl; lia)) as (b & Hw & _). exists b.
  unfold Dice.encode_hash_claim. by rewrite Hw.
Qed.

Lemma claims_depth cs :
  (foldr max 0 (map (λ kv, max (depth kv.1) (depth kv.2)) ((λ c, (VText (claim_name c), VBytes (claim_value c))) <$> cs)) ≤ 1)%nat.
Proof. induction cs as [|c cs IH]; [simpl; lia|]. rewrite fmap_cons. cbn [map foldr depth fst snd]. lia. Qed.
Lemma claims_roundtrip_aux conf pk ks n :
  Api.validate_custom_claims conf = inr tt →
  Forall (λ c, is_utf8 (claim_name c) = true) (c_custom_claims conf) →
  ∃ b, Dice.build_claims_buffer pk ks n (c_custom_claims conf) = inr b ∧
    Dice.parse_claims_buffer b = inr (mkClaims 1 pk 1 ks (Some n) (c_custom_claims conf)) ∧ b ≠ [].
Proof.
  intros Hv Hu. unfold Api.validate_custom_claims in Hv. inv_all.
  match goal with H : foldR _ _ _ = _ |- _ => apply validated_claims_free in H as Hf end.
  unfold Dice.build_claims_buffer, Dice.parse_claims_buffer.
  destruct (encode_hash_ok pk) as [bp Hp], (encode_hash_ok ks) as [bk Hk]. rewrite Hp, Hk. cbn [mbind result_bind].
  match goal with |- context [into_writer ?v] => destruct (cbor_roundtrip v) as (b & Hw & Hr) end.
  { simpl. apply forallb_forall. intros kv (c & -> & Hc)%list_elem_of_In%list_elem_of_fmap. simpl.
    rewrite Forall_forall in Hu. by rewrite Hu. }
  { pose proof (claims_depth (c_custom_claims conf)). cbn [depth map foldr fst snd app]. lia. }
  exists b. rewrite Hw, Hr. split; [done|]. split; [|by intros ->; rewrite cbor_empty in Hr]. simpl.
  rewrite (parse_encoded_hash _ _ Hp). simpl. rewrite (parse_encoded_hash _ _ Hk). simpl.
  rewrite parse_custom_claims by done. done.
Qed.

(** C28. Claims survive the certificate: with the custom claims of any configuration the library accepts, the
    claims buffer that is built is read back as the hashes, the nonce and exactly those custom claims, in
    their order; a custom claim cannot stand in for one the library checks. *)
Theorem claims_roundtrip conf pk ks n :
  Api.validate_custom_claims conf = inr tt →
  Forall (λ c, is_utf8 (claim_name c) = true) (c_custom_claims conf) →
  ∃ b, Dice.build_claims_buffer pk ks n (c_custom_claims conf) = inr b ∧
    Dice.parse_claims_buffer b = inr (mkClaims 1 pk 1 ks (Some n) (c_custom_claims conf)).
Proof.
  intros Hv Hu. destruct (claims_roundtrip_aux conf pk ks n Hv Hu) as (b & ? & ? & _). eauto.
Qed.
End claims.

Lemma claims_roundtrip_witness :
  ∃ b, Dice.build_claims_buffer [x01] [x02] [x03] (c_custom_claims sample_conf) = inr b ∧
    Dice.parse_claims_buffer b = inr (mkClaims 1 [x01] 1 [x02] (Some [x03]) (c_custom_claims sample_conf)).
Proof.
  apply (claims_roundtrip sample_conf); [vm_compute; reflexivity|]. repeat constructor.
Defined.

(** ** An honest peer is accepted *)

Section honest.
Context {C : CborCrate} {Co : CosetCrate} {O : OpensslCrate} {W : Type} {H : Host W} {S T : Type}.
Context {CL : CborLaws C} {DL : DigestLaws O} {OB : OpensslBuild O W}.
Implicit Types (handle : RaTlsHandle W S T) (e : Evidence) (t : CCAToken).

(** A host in a realm: the report of its directory for a challenge is a token for that challenge that chains
    to the root, next to the certificate of the device.  [tsm] is the platform. *)
Record honest_tsm (dir : list byte) (tsm : list byte → list byte) (dc : list byte) : Prop := {
  tsm_exists w : path_exists dir w = true;
  tsm_files w c : ∃ w1 w2 w3, fs_write (join dir (bytes "inblob")) c w = (true, w1) ∧
    fs_read (join dir (bytes "outblob")) w1 = (Some (tsm c), w2) ∧
    fs_read (join dir (bytes "auxblob")) w2 = (Some dc, w3);
  tsm_token c : length c = 32%nat → tsm c ≠ [] ∧ Vec.len (tsm c) < 2 ^ 62;
  tsm_cert : dc ≠ [] ∧ Vec.len dc < 2 ^ 62;
  tsm_trusted c : length c = 32%nat →
    ∃ t, chain_of_trust (Ev.encode_raw_native (mkCcaEvidence (tsm c) dc)) t ∧
      (32 ≤ length (r_challenge (realm_claims t)))%nat ∧ take 32 (r_challenge (realm_claims t)) = c
}.
(** A key that can sign a certificate: what [parse_signing_private_key] accepts. *)
Definition signing_key (key : PrivateKey) : Prop :=
  match key_id key with
  | IdRsa => ∃ n, rsa_size key = Some n ∧ 2048 ≤ n * 8
  | IdEc => ∃ c, ec_curve key = Some (Some c) ∧ c ≠ OtherCurve
  | IdEd25519 | IdEd448 => True
  | _ => False
  end.
Definition is_other (x : CertExtension) : bool := match x with OtherExtension _ _ | SubjectAlternativeName _ _ => true | _ => false end.
(** The [openssl] crate on a host where nothing goes wrong: it makes RSA and P-256 keys and writes them so that
    they are read back, its clock is between 1970 and 6325, and a certificate signed with a key of
    [signing_key] has the key and the extensions of its draft: when the last of them is the evidence and the
    others are the standard ones without alternative names, it is parsed with the evidence as its last
    extension and none before it with the same object. *)
Record openssl_works : Prop := {
  ow_rsa w : ∃ key w', rsa_generate 3072 w = (Some key, w') ∧ signing_key key;
  ow_p256 w : ∃ key w', p256_generate w = (Some key, w') ∧ signing_key key;
  ow_pkcs8 key : ∃ der, private_key_to_pkcs8 key = Some der ∧ private_key_from_pkcs8 der = Some key;
  ow_public key : is_Some (public_key_to_der (public_part key));
  ow_pem c pem : x509_to_pem c = Some pem → x509_from_pem pem = Some c;
  ow_name : is_Some (name_build CERT_SUBJECT_ORGANIZATION CERT_SUBJECT_COMMON_NAME);
  ow_serial w : ∃ n w', random_serial w = (Some n, w');
  ow_clock w : ∃ secs w', system_time w = (Some secs, w') ∧ 0 ≤ secs < 2 ^ 37;
  ow_time (u : Z) : -300 ≤ u < 2 ^ 37 + 2 ^ 25 → is_Some (asn1_from_unix u);
  ow_compare (a now : Asn1Time) r : time_compare a now = Some r → ∀ u, 0 ≤ u < 2 ^ 37 + 2 ^ 25 →
    ∀ time, asn1_from_unix u = Some time → is_Some (time_compare a time);
  ow_sign d key digest pre buf :
    signing_key key → OpenSslCrypto.signing_digest key = inr digest →
    d_extensions d = pre ++ [OtherExtension DICE_TAGGED_EVIDENCE_OID buf] → Forall (λ x, is_other x = false) pre →
    ∃ pem c k exts txt, sign_certificate d key digest = Some pem ∧ x509_from_pem pem = Some c ∧
      public_key c = Some k ∧ public_key_to_der k = public_key_to_der (d_public d) ∧
      extensions c = Some (exts ++ [Some (mkExtension (Some txt) (Some (Some buf)))]) ∧
      Engine.object_to_text txt = DICE_TAGGED_EVIDENCE_OID ∧
      Forall (λ x, ∀ ext o, x = Some ext → ext_object ext = Some o →
        Engine.object_to_text o ≠ DICE_TAGGED_EVIDENCE_OID) exts
}.
(** No authority, or one that [prepare_certificate_issuer] returned. *)
Definition prepared (issuer : option RatlsCertificateIssuer) : Prop :=
  ∀ i, issuer = Some i → ∃ key chain w w',
    OpenSslCrypto.prepare_certificate_issuer (H:=H) key chain w = (inr i, w').
(** A verifying host: SHA-256 works, and whenever it asks the clock the certificates the chain of [raw] uses
    are in force. *)
Definition checks_in_force (c : X509) : Prop := ∀ w, ∃ now w', host_now w = (Some now, w') ∧
  time_compare now (not_before c) = Some Gt ∧ time_compare now (not_after c) = Some Lt.
Record honest_verifier (dc : list byte) : Prop := {
  hv_hash d : is_Some (hash SHA256 d);
  hv_device device : Tools.parse_cert dc = inr device → checks_in_force device;
  hv_product product : x509_from_pem HUAWEI_PRODUCT_CA_PEM = Some product → checks_in_force product;
  hv_root root : x509_from_pem HUAWEI_EQUIPMENT_ROOT_CA_PEM = Some root → checks_in_force root
}.

(** *** The native layout *)

Lemma ne_roundtrip x : 0 ≤ x < 2 ^ 64 → read_native_usize (to_ne_bytes x) = x.
Proof.
  intros Hx. unfold read_native_usize, to_ne_bytes. rewrite reverse_involutive, be_value_bytes.
  apply Z.mod_small. done.
Qed.
Lemma length_ne x : length (to_ne_bytes x) = 8%nat.
Proof. unfold to_ne_bytes. by rewrite length_reverse, length_be. Qed.
Lemma slice_app_mid (a b c : list byte) : Vec.slice (Vec.len a) (Vec.len a + Vec.len b) (a ++ b ++ c) = b.
Proof.
  unfold Vec.slice, Vec.len. rewrite drop_app_length' by lia. apply take_app_length'. lia.
Qed.
(** What the attester writes is read back. *)
Lemma native_roundtrip ev :
  token ev ≠ [] → dev_cert ev ≠ [] → Vec.len (token ev) < 2 ^ 62 → Vec.len (dev_cert ev) < 2 ^ 62 →
  Ev.decode_raw_native (Ev.encode_raw_native ev) = inr ev.
Proof.
  destruct ev as [tk dc]. simpl. intros Ht Hd Htl Hdl. unfold Ev.encode_raw_native. cbn [token dev_cert].
  assert (Hp : ∀ l : list byte, l ≠ [] → 0 < Vec.len l) by (intros [|? ?]; unfold Vec.len; simpl; [done|lia]).
  pose proof (Hp _ Ht). pose proof (Hp _ Hd).
  assert (Hl8 : ∀ x, Vec.len (to_ne_bytes x) = 8) by (intros; unfold Vec.len; by rewrite length_ne).
  set (a := to_ne_bytes (Vec.len tk)). set (b := to_ne_bytes (Vec.len dc)).
  assert (Ha : Vec.len a = 8) by apply Hl8. assert (Hb : Vec.len b = 8) by apply Hl8.
  assert (Ra : read_native_usize a = Vec.len tk) by (apply ne_roundtrip; lia).
  assert (Rb : read_native_usize b = Vec.len dc) by (apply ne_roundtrip; lia).
  clearbody a b.
  assert (Hlen : Vec.len (a ++ tk ++ b ++ dc) = 16 + Vec.len tk + Vec.len dc) by (rewrite !Vec.len_app; lia).
  assert (S1 : Vec.slice 0 8 (a ++ tk ++ b ++ dc) = a).
  { pose proof (slice_app_mid [] a (tk ++ b ++ dc)) as Hs. rewrite Ha in Hs. exact Hs. }
  assert (S2 : Vec.slice 8 (8 + Vec.len tk) (a ++ tk ++ b ++ dc) = tk).
  { pose proof (slice_app_mid a tk (b ++ dc)) as Hs. by rewrite Ha in Hs. }
  assert (S3 : Vec.slice (8 + Vec.len tk) (8 + Vec.len tk + 8) (a ++ tk ++ b ++ dc) = b).
  { pose proof (slice_app_mid (a ++ tk) b dc) as Hs. rewrite Vec.len_app, Ha, Hb, <- app_assoc in Hs. done. }
  assert (S4 : Vec.slice (8 + Vec.len tk + 8) (16 + Vec.len tk + Vec.len dc) (a ++ tk ++ b ++ dc) = dc).
  { pose proof (slice_app_mid (a ++ tk ++ b) dc []) as Hs. rewrite !Vec.len_app, Ha, Hb, app_nil_r in Hs.
    rewrite <- !app_assoc in Hs. replace (16 + Vec.len tk + Vec.len dc) with (8 + (Vec.len tk + 8) + Vec.len dc) by lia.
    replace (8 + Vec.len tk + 8) with (8 + (Vec.len tk + 8)) by lia. done. }
  unfold Ev.decode_raw_native, Ev.checked_add. rewrite Hlen, S1, Ra.
  destruct (Z.ltb_spec (16 + Vec.len tk + Vec.len dc) (8 * 2)); [lia|].
  destruct (Z.eqb_spec (Vec.len tk) 0); [lia|].
  destruct (Z.ltb_spec (16 + Vec.len tk + Vec.len dc - 8 * 2) (Vec.len tk)); [lia|]. simpl orb. cbn iota.
  destruct (Z.ltb_spec (8 + Vec.len tk) (2 ^ 64)); [|lia]. cbn [mbind result_bind mret result_ret].
  destruct (Z.ltb_spec (8 + Vec.len tk + 8) (2 ^ 64)); [|lia]. cbn [mbind result_bind mret result_ret].
  destruct (Z.ltb_spec (16 + Vec.len tk + Vec.len dc) (8 + Vec.len tk + 8)); [lia|].
  rewrite S3, Rb.
  destruct (Z.eqb_spec (Vec.len dc) 0); [lia|].
  destruct (Z.eqb_spec (Vec.len dc) (16 + Vec.len tk + Vec.len dc - (8 + Vec.len tk + 8))); [|lia]. simpl orb. cbn iota.
  rewrite S2, S4. done.
Qed.
(** *** Running forward *)

Lemma rbind_ok {A B} (f : A → R W B) (m : R W A) w a w1 : m w = (inr a, w1) → (m ≫= f) w = f a w1.
Proof. unfold mbind, r_bind. by intros ->. Qed.
Lemma rbind_lift {A B} (f : A → R W B) (r : Result A) a w : r = inr a → (lift r ≫= f) w = f a w.
Proof. by intros ->. Qed.
Lemma validity_ok c w : checks_in_force c → ∃ w', Tools.verify_cert_validity c w = (inr tt, w').
Proof.
  intros Hc. destruct (Hc w) as (now & w' & Hn & Hb & Ha). exists w'. unfold Tools.verify_cert_validity.
  rewrite (rbind_ok _ _ _ now w') by (unfold Tools.now; by rewrite Hn).
  unfold Tools.compare. rewrite (rbind_lift _ _ Gt) by (by rewrite Hb). simpl.
  rewrite (rbind_lift _ _ Lt) by (by rewrite Ha). done.
Qed.
Lemma issued_ok i s : issued i s → Tools.verify_cert_by_cert i s = inr tt.
Proof. intros (k & Hk & Hv). unfold Tools.verify_cert_by_cert. rewrite Hk. simpl. by rewrite Hv. Qed.
Lemma signed_ok key m : signed key m → Token.verify_sign1 key m = inr tt.
Proof.
  intros (r & s & der & Hl & Hr & Hs & Hd & Hv). unfold Token.verify_sign1, Token.verify_es512_signature.
  rewrite Hl. simpl. rewrite Hr. simpl. rewrite Hs. simpl. rewrite Hd. simpl. by rewrite Hv.
Qed.
Lemma crypto_verification_complete raw ev t n w :
  Ev.decode_raw_native raw = inr ev → honest_verifier (dev_cert ev) → chain_of_trust raw t →
  (length n ≤ length (r_challenge (realm_claims t)))%nat → take (length n) (r_challenge (realm_claims t)) = n →
  ∃ w', Ev.crypto_verification (W:=W) ev (Some n) w = (inr t, w').
Proof.
  intros Hd Hv (ev' & device & product & root & dk & rr & rk & alg & Hd' & Hdev & Hprod & Hroot & _ & _ & _ &
    I1 & I2 & I3 & Hp & Hpp & Hrp & Hdk & Hs1 & Hrr & Halg & Hh & Hrk & Hs2) Hl Hn.
  assert (ev' = ev) as -> by congruence.
  unfold Ev.crypto_verification, Ev.verify_cert_chain.
  destruct (validity_ok device w (hv_device _ Hv _ Hdev)) as [w1 V1].
  destruct (validity_ok product w1 (hv_product _ Hv _ Hprod)) as [w2 V2].
  destruct (validity_ok root w2 (hv_root _ Hv _ Hroot)) as [w3 V3]. exists w3.
  rewrite (rbind_ok _ _ _ device w3).
  2: { rewrite (rbind_lift _ _ device), (rbind_lift _ _ product), (rbind_lift _ _ root)
         by (done || by rewrite ?Hprod, ?Hroot).
       rewrite (rbind_ok _ _ _ _ _ V1), (rbind_ok _ _ _ _ _ V2), (rbind_ok _ _ _ _ _ V3).
       by rewrite !(rbind_lift _ _ tt) by (by apply issued_ok). }
  rewrite (rbind_lift _ _ t) by done.
  rewrite (rbind_lift _ _ tt).
  2: { unfold Token.verify_platform_token, Plat.check_profile. rewrite bool_decide_eq_true_2 by done. simpl.
       rewrite Hdk. simpl. by apply signed_ok. }
  rewrite (rbind_lift _ _ tt); [done|].
  unfold Token.verify_realm_token, Rlm.check_profile, Token.verify_nonce, Token.verify_rak, Tools.p521_public_key, hashR.
  rewrite bool_decide_eq_true_2 by done. simpl. rewrite bool_decide_eq_true_2 by done. simpl.
  rewrite Hrr. simpl. rewrite Halg. simpl. rewrite Hh. simpl. rewrite bool_decide_eq_true_2 by done. simpl.
  rewrite Hrk. simpl. by apply signed_ok.
Qed.

Lemma extension_found c exts txt buf :
  extensions c = Some (exts ++ [Some (mkExtension (Some txt) (Some (Some buf)))]) →
  Engine.object_to_text txt = DICE_TAGGED_EVIDENCE_OID →
  Forall (λ x, ∀ ext o, x = Some ext → ext_object ext = Some o →
    Engine.object_to_text o ≠ DICE_TAGGED_EVIDENCE_OID) exts →
  Engine.extract_evidence_extension c = inr buf.
Proof.
  intros He Ht Hex. unfold Engine.extract_evidence_extension. rewrite He. cbn [or_err mbind result_bind].
  rewrite foldR_app. assert (Hf : foldR Engine.extension_step None exts = inr None).
  { clear He. induction Hex as [|x exts Hx Hex IH]; [done|]. destruct x as [ext|]; simpl; [|clear Hx; by rewrite IH].
    destruct (ext_object ext) as [o|] eqn:Ho; simpl; [|by rewrite IH].
    rewrite decide_True by eauto. simpl. by rewrite IH. }
  rewrite Hf. simpl. rewrite decide_False by naive_solver. done.
Qed.
Lemma collect_ok dir tsm dc c w : honest_tsm dir tsm dc → length c = 32%nat →
  ∃ w', Attester.collect_evidence (mkAttester dir) c w =
    (inr (mkAttestation (Ev.encode_raw_native (mkCcaEvidence (tsm c) dc))), w').
Proof.
  intros Ht Hc. unfold Attester.collect_evidence. simpl report_dir. rewrite (tsm_exists _ _ _ Ht). simpl negb. cbv iota.
  destruct (tsm_files _ _ _ Ht w c) as (w1 & w2 & w3 & H1 & H2 & H3). exists w3.
  unfold Attester.normalized_challenge. rewrite decide_True by done.
  unfold write_file, read_file. rewrite (rbind_ok _ _ _ tt w1) by (by rewrite H1).
  rewrite (rbind_ok _ _ _ (tsm c) w2) by (by rewrite H2). rewrite (rbind_ok _ _ _ dc w3) by (by rewrite H3).
  destruct (tsm_token _ _ _ Ht c Hc), (tsm_cert _ _ _ Ht). by rewrite !decide_False.
Qed.
Lemma verify_evidence_complete raw cl pk ks n custom ev t w :
  Ev.decode_raw_native raw = inr ev → honest_verifier (dev_cert ev) → chain_of_trust raw t → cl ≠ [] →
  Dice.parse_claims_buffer cl = inr (mkClaims 1 (sha256 pk) 1 (sha256 ks) (Some n) custom) →
  (32 ≤ length (r_challenge (realm_claims t)))%nat → take 32 (r_challenge (realm_claims t)) = sha256 cl →
  ∃ e w', Verifier.verify_evidence (W:=W)
    (mkEvidence EVIDENCE_TAG PluginCca raw cl pk n (sha256 ks) JNull) w = (inr e, w') ∧ claims_buffer e = cl.
Proof.
  intros Hd Hv Hch Hcl Hp Hl Hc. unfold Verifier.verify_evidence.
  assert (Hh : ∀ d, hashR SHA256 d = inr (sha256 d)).
  { intros d. unfold hashR. destruct (hv_hash _ Hv d) as [h Hh]. rewrite Hh. simpl. by rewrite (hash_sha256 _ _ Hh). }
  destruct (crypto_verification_complete raw ev t (sha256 cl) w) as [w' Hcv]; try (rewrite ?sha256_length; done).
  eexists _, w'. split.
  - rewrite (rbind_lift _ _ tt) by (unfold Verifier.verify_input; simpl; by rewrite decide_False).
    cbn [claims_buffer raw_evidence]. rewrite (rbind_lift _ _ (sha256 cl)), (rbind_lift _ _ ev) by done.
    rewrite (rbind_ok _ _ _ t w') by done. rewrite (rbind_lift _ _ tt); [done|].
    unfold Verifier.verify_ratls_claims.
    cbn [claims_buffer public_key_der expected_client_key_share_hash expected_nonce]. rewrite Hp, Hh. simpl.
    rewrite sha256_length. by rewrite !bool_decide_eq_false_2 by naive_solver.
  - done.
Qed.

(** *** The OpenSSL wrapper *)

Lemma parse_signing_key pem key : OpenSslCrypto.parse_signing_private_key pem = inr key → signing_key key.
Proof.
  unfold OpenSslCrypto.parse_signing_private_key, signing_key. destruct (private_key_from_pem pem) as [k|]; [|done]. simpl.
  destruct (key_id k) eqn:Hid; try done.
  - destruct (rsa_size k) as [n|] eqn:Hn; [|done]. simpl. case_match eqn:Hb; [done|]. intros [= <-].
    rewrite Hid. exists n. split; [done|]. apply Z.ltb_ge in Hb. lia.
  - destruct (ec_curve k) as [[c|]|] eqn:Hc; try done. simpl. destruct c; try done;
      intros [= <-]; rewrite Hid; eexists; (split; [done|discriminate]).
  - intros [= <-]. by rewrite Hid.
  - intros [= <-]. by rewrite Hid.
Qed.
Lemma signing_digest_ok key : signing_key key → ∃ digest, OpenSslCrypto.signing_digest key = inr digest.
Proof.
  unfold signing_key, OpenSslCrypto.signing_digest. destruct (key_id key); try (eexists; done).
  intros (c & -> & _). by eexists.
Qed.
(** The certificate and the key of a prepared authority are read back. *)
Lemma prepared_usable i : openssl_works → prepared (Some i) →
  ∃ c key now r, x509_from_pem (issuer_certificate_pem i) = Some c ∧
    private_key_from_pkcs8 (private_key_pkcs8 i) = Some key ∧ signing_key key ∧ time_compare (not_after c) now = Some r.
Proof.
  intros Ho Hp. destruct (Hp i eq_refl) as (pk & chain & w & w' & Hi). clear Hp.
  unfold OpenSslCrypto.prepare_certificate_issuer in Hi.
  apply rbind_inr in Hi as (key & w1 & Hk & Hi).
  assert (signing_key key) by (injection Hk as Hk ->; by eapply parse_signing_key).
  apply rbind_inr in Hi as (cs & w2 & _ & Hi). case_decide; [done|].
  apply rbind_inr in Hi as (n & w3 & _ & Hi). apply rbind_inr in Hi as (c & w4 & _ & Hi).
  apply rbind_inr in Hi as ([] & w5 & Hv & Hi). apply rbind_inr in Hi as (ordered & w6 & _ & Hi).
  apply rbind_inr in Hi as (pem & w7 & Hpem & Hi). apply rbind_inr in Hi as (pems & w8 & _ & Hi).
  apply rbind_inr in Hi as (der & w9 & Hder & [= <- _]).
  exists c, key. destruct (ow_pkcs8 Ho key) as (der' & Hd & Hr).
  unfold OpenSslCrypto.openssl in *. rewrite Hd in Hder. injection Hder as <- _.
  destruct (x509_to_pem c) as [pem'|] eqn:Hc; [|done]. injection Hpem as -> _. apply (ow_pem Ho) in Hc.
  unfold OpenSslCrypto.validate_ca_certificate in Hv. apply rbind_inr in Hv as (now & ? & _ & Hv).
  apply rbind_inr in Hv as (o1 & ? & _ & Hv). case_match; [done|]. apply rbind_inr in Hv as (o2 & ? & Hcmp & _).
  unfold Tools.compare in Hcmp. destruct (time_compare (not_after c) now) as [r|] eqn:Hr'; [|done].
  by exists now, r.
Qed.
(** The keys it makes, for the algorithms a configuration may name. *)
Lemma wrapper_key conf' w : openssl_works → Api.validate_leaf_algorithm conf' = inr tt →
  ∃ key leaf w', OpenSslCrypto.generate_private_key (cert_algo conf') w = (inr key, w') ∧
    private_key_from_pkcs8 (private_key key) = Some leaf ∧ signing_key leaf ∧
    public_key_to_der (public_part leaf) = Some (key_public key).
Proof.
  intros Ho Ha. unfold OpenSslCrypto.generate_private_key.
  assert (Hg : ∃ leaf w', match cert_algo conf' with
    | Rsa3072Sha256 => OpenSslCrypto.acting (rsa_generate 3072)
    | Ecc256Sha256 => OpenSslCrypto.acting p256_generate
    | _ => fail Unsupported end w = (inr leaf, w') ∧ signing_key leaf).
  { unfold Api.validate_leaf_algorithm in Ha. unfold OpenSslCrypto.acting. destruct (cert_algo conf'); try done.
    - destruct (ow_rsa Ho w) as (k & w' & -> & Hk). by exists k, w'.
    - destruct (ow_p256 Ho w) as (k & w' & -> & Hk). by exists k, w'. }
  destruct Hg as (leaf & w' & Hg & Hs). rewrite (rbind_ok _ _ _ _ _ Hg).
  destruct (ow_pkcs8 Ho leaf) as (der & Hd & Hr), (ow_public Ho leaf) as [pub Hpub].
  unfold OpenSslCrypto.openssl. rewrite (rbind_lift _ _ der) by (by rewrite Hd).
  rewrite (rbind_lift _ _ pub) by (by rewrite Hpub). by eexists _, leaf, w'.
Qed.
(** The certificates it makes carry the evidence. *)
Lemma wrapper_cert key leaf buf issuer role w :
  openssl_works → prepared issuer → private_key_from_pkcs8 (private_key key) = Some leaf → signing_key leaf →
  ∃ pem c k w' exts txt, OpenSslCrypto.generate_ra_certificate key
      (mkCertInfo CERT_SUBJECT_ORGANIZATION CERT_SUBJECT_COMMON_NAME (Some buf) issuer role []) w =
      (inr (mkKey (key_algo key) (private_key key) (key_public key) (Some pem)), w') ∧
    x509_from_pem pem = Some c ∧ public_key c = Some k ∧
    public_key_to_der k = public_key_to_der (public_part leaf) ∧
    extensions c = Some (exts ++ [Some (mkExtension (Some txt) (Some (Some buf)))]) ∧
    Engine.object_to_text txt = DICE_TAGGED_EVIDENCE_OID ∧
    Forall (λ x, ∀ ext o, x = Some ext → ext_object ext = Some o →
      Engine.object_to_text o ≠ DICE_TAGGED_EVIDENCE_OID) exts.
Proof.
  intros Ho Hp Hl Hs. unfold OpenSslCrypto.generate_ra_certificate, OpenSslCrypto.openssl.
  cbn [organization common_name evidence_buffer cert_issuer cert_role cert_alt_names].
  destruct (ow_name Ho) as [name Hn]. rewrite (rbind_lift _ _ name) by (by rewrite Hn).
  destruct (ow_serial Ho w) as (serial & w1 & Hser).
  rewrite (rbind_ok _ _ _ serial w1) by (unfold OpenSslCrypto.acting; by rewrite Hser).
  rewrite (rbind_lift _ _ leaf) by (by rewrite Hl).
  assert (Hi : ∃ ic sk, match issuer with
      | Some i => x509_from_pem (issuer_certificate_pem i) = ic ∧ is_Some ic ∧
          private_key_from_pkcs8 (private_key_pkcs8 i) = Some sk
      | None => ic = None ∧ sk = leaf end ∧ signing_key sk ∧
    ∀ c, ic = Some c → ∃ now r, time_compare (not_after c) now = Some r).
  { destruct issuer as [i|]; [|by exists None, leaf].
    destruct (prepared_usable i Ho Hp) as (c & sk & t & r & Hc & Hsk & Hss & Ht).
    exists (Some c), sk. split_and!; eauto. intros ? [= ->]. eauto. }
  destruct Hi as (ic & sk & Hi & Hsk & Hcmp).
  rewrite (rbind_ok _ _ _ ic w1).
  2: { destruct issuer as [i|]; [|by destruct Hi as [-> _]]. destruct Hi as (Hc & [c ->] & _).
       rewrite (rbind_lift _ _ c) by (by rewrite Hc). done. }
  rewrite (rbind_ok _ _ _ sk w1).
  2: { destruct issuer as [i|]; [|by destruct Hi as [_ ->]]. destruct Hi as (_ & _ & ->). done. }
  destruct (ow_clock Ho w1) as (secs & w2 & Hcl & Hsecs).
  rewrite (rbind_ok _ _ _ secs w2).
  2: { unfold OpenSslCrypto.unix_timestamp_now. rewrite Hcl. by rewrite (proj2 (Z.ltb_lt _ _)) by lia. }
  unfold OpenSslCrypto.CERT_NOT_BEFORE_SKEW_SECONDS, OpenSslCrypto.CA_SIGNED_CERT_VALIDITY_SECONDS,
    OpenSslCrypto.SELF_SIGNED_CERT_VALIDITY_SECONDS.
  assert (H64 : ∀ x, -300 ≤ x < 2 ^ 38 → Int.i64 x = x) by (intros x Hx; apply Int.i64_small; lia).
  rewrite !H64 by (destruct ic; lia).
  destruct (ow_time Ho (secs - 5 * 60)) as [from Hf]; [lia|]. rewrite (rbind_lift _ _ from) by (by rewrite Hf).
  set (validity := match ic with Some _ => _ | None => _ end).
  assert (Hval : 0 ≤ validity < 2 ^ 25) by (unfold validity; destruct ic; lia). clearbody validity.
  destruct (ow_time Ho (secs + validity)) as [desired Hd]; [lia|]. rewrite (rbind_lift _ _ desired) by (by rewrite Hd).
  assert (Hu : ∃ u, match ic with
    | Some i => c ← Tools.compare (not_after i) desired;
        mret (if bool_decide (c = Lt) then not_after i else desired)
    | None => mret desired end w2 = (inr u, w2)).
  { destruct ic as [i|]; [|by eexists]. destruct (Hcmp i eq_refl) as (t & r & Hr).
    destruct (ow_compare Ho _ _ _ Hr (secs + validity) ltac:(lia) _ Hd) as [o Hco]. unfold Tools.compare.
    rewrite (rbind_lift _ _ o) by (by rewrite Hco). by eexists. }
  destruct Hu as [u Hu]. rewrite (rbind_ok _ _ _ _ _ Hu).
  set (pre := [BasicConstraints; KeyUsage; match role with ServerRole => ServerAuth | ClientRole => ClientAuth end;
    SubjectKeyIdentifier ic; AuthorityKeyIdentifier ic] : list CertExtension).
  rewrite (rbind_lift _ _ pre) by done. cbv zeta. destruct (signing_digest_ok sk Hsk) as [digest Hdg].
  rewrite (rbind_lift _ _ digest) by done.
  match goal with |- context [sign_certificate ?d sk digest] =>
    destruct (ow_sign Ho d sk digest pre buf Hsk Hdg eq_refl) as
      (pem & c & k & exts & txt & Hsg & Hpem & Hk & Hder & Hrest) end.
  { unfold pre. destruct role; by repeat constructor. }
  rewrite (rbind_lift _ _ pem) by (by rewrite Hsg). by exists pem, c, k, w2, exts, txt.
Qed.

(** C11. An honest peer is accepted: in a realm whose platform reports tokens that chain to the root, with the
    OpenSSL wrapper of the crate over a working [openssl], an identity is generated for every handshake with a
    nonce of 32 bytes and a key share and for every configuration whose algorithm and custom claims are
    accepted and that asks for no alternative names, self-signed or signed by an authority the wrapper has
    prepared; any handle that verifies accepts the peer that presents it in that handshake, and finds the custom
    claims of the configuration in its evidence. *)
Theorem honest_peer_accepted dir tsm dc conf' issuer role binding handle w :
  honest_tsm dir tsm dc → openssl_works → honest_verifier dc → prepared issuer →
  Api.validate_leaf_algorithm conf' = inr tt → Api.validate_custom_claims conf' = inr tt →
  subject_alt_names (certificate conf') = [] →
  Forall (λ c, is_utf8 (claim_name c) = true) (c_custom_claims conf') →
  length (binding_nonce binding) = 32%nat → binding_key_share binding ≠ [] →
  c_verifier (conf handle) = Some PluginCca → verifier handle = Some CcaVerifier →
  ∃ id w1, Engine.generate_ratls_identity OpenSslCrypto.wrapper (mkAttester dir)
      (Engine.mkIdentityConf (cert_algo conf') (c_custom_claims conf') issuer
        (subject_alt_names (certificate conf')) role) binding w = (inr id, w1) ∧
    ∀ der w2, x509_from_der der = (head (certificate_chain_pem id) ≫= x509_from_pem) →
      ∃ e w3 c, Engine.verify_handshake_evidence handle (mkPeer der binding) w2 = (inr e, w3) ∧
        Dice.parse_claims_buffer (claims_buffer e) = inr c ∧ custom_claims c = c_custom_claims conf'.
Proof.
  intros Ht Ho Hv Hpre Halg Hval Hsan Hu Hn Hk Hpl Hver. rewrite Hsan. unfold Engine.generate_ratls_identity.
  rewrite bool_decide_eq_false_2, decide_False by naive_solver. cbn [Engine.ic_cert_algo Engine.ic_custom_claims].
  destruct (wrapper_key conf' w Ho Halg) as (key & leaf & w1 & Hkey & Hleaf & Hsl & Hpub).
  cbn [generate_private_key OpenSslCrypto.wrapper]. rewrite (rbind_ok _ _ _ _ _ Hkey). cbv zeta.
  destruct (claims_roundtrip_aux conf' (sha256 (key_public key)) (sha256 (binding_key_share binding))
    (binding_nonce binding) Hval Hu) as (cl & Hb & Hp & Hne).
  rewrite (rbind_lift _ _ cl) by done. pose proof (sha256_length cl) as Hlc.
  destruct (collect_ok _ _ _ (sha256 cl) w1 Ht Hlc) as [w2 Hc]. rewrite (rbind_ok _ _ _ _ _ Hc). simpl att_raw.
  set (raw := Ev.encode_raw_native _). unfold Dice.encode_evidence_buffer, Attester.evidence_tag. simpl.
  destruct (cbor_roundtrip (VTag EVIDENCE_TAG (VArray [VBytes raw; VBytes cl])) eq_refl ltac:(simpl; lia)) as (buf & Hw & Hr).
  rewrite (rbind_lift _ _ buf) by (by rewrite Hw).
  destruct (wrapper_cert key leaf buf issuer role w2 Ho Hpre Hleaf Hsl) as
    (pem & x & k & w3 & exts & txt & Hg & Hx & Hpk & Hder & Hext & Htxt & Hother). rewrite Hpub in Hder.
  rewrite (rbind_ok _ _ _ _ _ Hg), (rbind_lift _ _ pem) by done.
  eexists _, w3. split; [done|]. intros der w4 Hxd. simpl in Hxd. rewrite Hx in Hxd.
  destruct (tsm_token _ _ _ Ht _ Hlc), (tsm_cert _ _ _ Ht), (tsm_trusted _ _ _ Ht _ Hlc) as (t & Hch & Hl & Hc').
  destruct (verify_evidence_complete raw cl (key_public key) (binding_key_share binding) (binding_nonce binding)
    (c_custom_claims conf') (mkCcaEvidence (tsm (sha256 cl)) dc) t w4) as (e & w5 & He & Hcb); try done.
  { by apply native_roundtrip. }
  exists e, w5. eexists. split; [|by rewrite Hcb].
  unfold Engine.verify_handshake_evidence. cbn [certificate_der evidence_binding].
  rewrite (rbind_lift _ _ x) by (by rewrite Hxd).
  rewrite (rbind_lift _ _ buf) by (by apply (extension_found x exts txt)).
  rewrite (rbind_lift _ _ (mkEvidenceBuffer EVIDENCE_TAG raw cl))
    by (unfold Dice.decode_evidence_buffer; by rewrite Hr).
  rewrite (rbind_lift _ _ k), (rbind_lift _ _ (key_public key)), Hpl, Hver by (by rewrite ?Hpk, ?Hder). done.
Qed.
End honest.

(** *** The sample realm is honest *)

Lemma enc_not_nil v : enc v ≠ [].
Proof. by destruct v. Qed.
Lemma sample_tsm_small c : length c = 32%nat → Vec.len (sample_tsm c) < 2 ^ 62.
Proof.
  intros Hc. do 32 (destruct c as [|? c]; [done|]). destruct c; [|done]. vm_compute. reflexivity.
Qed.
Lemma leaf_not_other k e x : head x ≠ Some x04 → leaf_bytes k e ≠ x.
Proof. intros Hx <-. by apply Hx. Qed.
#[local] Opaque sample_cbor enc.
Definition sample_platform : Platform :=
  mkPlatform (bytes "platform") (fit 32 sample_rak_raw) (zeros 32) (zeros 33) [] 0 [] None [].
Definition sample_realm (c : list byte) : Realm :=
  mkRealm (c ++ replicate 32 x00) (bytes "realm") (zeros 64) [] (replicate 4 (replicate 32 x00)) [] sample_rak (bytes "sha-256")
    (mkCoseKey EC2 [(LInt (-1), VInteger 3); (LInt (-2), VBytes (fit 66 sample_rak)); (LInt (-3), VBytes (fit 66 sample_rak))]).
Definition sample_message (key payload : list byte) : toy_sign1 := mkSign1 payload (toy_sign key payload).
Definition sample_token (c : list byte) : CCAToken :=
  mkToken sample_coset sample_platform (sample_realm c) (sample_message (bytes "device key") (enc platform_map))
    (sample_message sample_rak_raw (enc (realm_map c))).
Lemma sample_decode_sign1 key p : Token.decode_sign1 (sign_message key p) = inr (sample_message key p).
Proof. unfold Token.decode_sign1, sign_message. simpl. by rewrite from_enc. Qed.
Lemma challenge_field r c : length c = 64%nat → Rlm.field r realm_labels.CHALLENGE (VBytes c) =
  inr (mkRealm c (r_profile r) (rpv r) (rim r) (rem r) (r_hash_alg r) (rak r) (rak_hash_alg r) (rak_cose_key r)).
Proof.
  intros Hc. unfold Rlm.field, Decode.get_bytes. simpl. rewrite bool_decide_eq_false_2; [done|]. rewrite Hc. set_solver.
Qed.
Lemma sample_realm_decodes c : length c = 32%nat → Rlm.decode (enc (realm_map c)) = inr (sample_realm c).
Proof.
  intros Hc. unfold Rlm.decode. rewrite from_enc. cbn [or_err mbind result_bind].
  unfold fold_labels, realm_map. cbn [foldR fst snd as_integer].
  rewrite challenge_field by (by rewrite length_app, Hc). reflexivity.
Qed.
Lemma collection_decodes pt rt : pt ≠ [] → rt ≠ [] →
  Token.decode_collection (enc (VTag collection.CBOR_TAG (VMap
    [(VInteger collection.PLATFORM_LABEL, VBytes pt); (VInteger collection.REALM_LABEL, VBytes rt)]))) =
  inr (mkCollection pt rt).
Proof.
  intros Hp Hr. unfold Token.decode_collection. rewrite from_enc. cbn [or_err mbind result_bind].
  unfold fold_labels. simpl. by rewrite !decide_False.
Qed.
Lemma sample_platform_decodes : Plat.decode (enc platform_map) = inr sample_platform.
Proof. unfold Plat.decode. rewrite from_enc. reflexivity. Qed.
Lemma parse_messages tok pt rt ps rs pp rp p r :
  Token.decode_collection tok = inr (mkCollection pt rt) → Token.decode_sign1 pt = inr ps → Token.decode_sign1 rt = inr rs →
  sign1_alg ps = Some ES512 → sign1_alg rs = Some ES512 → payload ps = Some pp → payload rs = Some rp →
  Plat.decode pp = inr p → Rlm.decode rp = inr r → Token.parse tok = inr (mkToken sample_coset p r ps rs).
Proof.
  intros Hc Hp Hr Ha1 Ha2 Hpp Hrp Hpd Hrd. unfold Token.parse, Token.ensure_es512.
  rewrite Hc. cbn [mbind result_bind platform_token realm_token]. rewrite Hp. cbn [mbind result_bind]. rewrite Hr.
  cbn [mbind result_bind]. rewrite Ha1, Ha2, Hpp, Hrp. cbn [mbind result_bind mret result_ret or_err].
  rewrite Hpd. cbn [mbind result_bind]. rewrite Hrd. done.
Qed.
Lemma sample_parses c : length c = 32%nat → Token.parse (sample_tsm c) = inr (sample_token c).
Proof.
  intros Hc. eapply parse_messages;
    [apply collection_decodes; apply enc_not_nil|apply sample_decode_sign1|apply sample_decode_sign1|
     reflexivity|reflexivity|reflexivity|reflexivity|apply sample_platform_decodes|by apply sample_realm_decodes].
Qed.
Lemma sample_signed key p : signed key (sample_message key p).
Proof.
  eexists _, _, _. simpl. unfold toy_sign at 1 2 3. rewrite length_fit. split_and!; try done.
  rewrite take_drop. by rewrite bool_decide_eq_true_2.
Qed.
Lemma sample_trusted c : length c = 32%nat →
  ∃ t, chain_of_trust (Ev.encode_raw_native (mkCcaEvidence (sample_tsm c) device_bytes)) t ∧
    (32 ≤ length (r_challenge (realm_claims t)))%nat ∧ take 32 (r_challenge (realm_claims t)) = c.
Proof.
  intros Hc. exists (sample_token c). split; [|].
  2: { simpl. rewrite length_app, Hc. split; [lia|]. rewrite <- Hc. apply take_app_length. }
  unfold chain_of_trust. eexists (mkCcaEvidence (sample_tsm c) device_bytes), toy_device, toy_product, toy_root, _, _, _, _.
  assert (Hf : ∀ x : toy_cert, in_force x) by (intros x; by exists 50).
  assert (Hi : ∀ a b : toy_cert, toy_key a = toy_signer b → issued a b).
  { intros a b Hab. exists (toy_key a). simpl. split; [done|]. by rewrite bool_decide_eq_true_2. }
  split_and!; try done; try (by apply Hf); try (by apply Hi); try apply sample_signed.
  - apply native_roundtrip; [apply enc_not_nil|done|by apply sample_tsm_small|done].
  - by apply sample_parses.
Qed.
Lemma sample_honest_tsm : honest_tsm sample_dir sample_tsm device_bytes.
Proof.
  split; simpl; [done| | |done|apply sample_trusted].
  - intros w c. eexists _, _, _. split_and!; reflexivity.
  - intros c Hc. split; [apply enc_not_nil|by apply sample_tsm_small].
Qed.
Lemma read_leaf_bytes k e : read_leaf (leaf_bytes k e) = Some (mkToy k e k).
Proof. unfold read_leaf, leaf_bytes. by rewrite from_enc. Qed.
(** Its keys: one RSA key and one key on P-256. *)
Definition toy_private (rsa : bool) : list byte := if rsa then bytes "rsa key" else bytes "ec key".
#[global] Instance sample_build : OpensslBuild sample_openssl (list byte) := {|
  PrivateKey := bool;
  rsa_generate _ w := (Some true, w); p256_generate w := (Some false, w);
  private_key_to_pkcs8 k := Some (toy_private k);
  private_key_from_pkcs8 b :=
    if decide (b = toy_private true) then Some true else if decide (b = toy_private false) then Some false else None;
  private_key_from_pem b := if decide (b = toy_private true) then Some true else None;
  public_part := toy_private;
  key_id k := if k then IdRsa else IdEc;
  rsa_size k := if k then Some 384 else None;
  ec_curve k := if k then None else Some (Some PRIME256V1);
  public_eq p k := bool_decide (p = toy_private k);
  stack_from_pem _ := None;
  x509_to_pem c := if decide (toy_signer c = toy_key c) then Some (leaf_bytes (toy_key c) (toy_evidence c)) else None;
  subject_der c := Some (toy_key c); issuer_der c := Some (toy_signer c);
  is_ca _ := true; x509_key_usage _ := 4;
  name_build o cn := Some (o ++ cn); random_serial w := (Some [x01], w); system_time w := (Some 1000, w);
  asn1_from_unix t := Some t; ip_text b := Some b;
  sign_certificate d _ _ :=
    match last (d_extensions d) with
    | Some (OtherExtension _ v) => Some (leaf_bytes (d_public d) v)
    | _ => None
    end
|}.
Lemma sample_leaf_pem k e : x509_from_pem (leaf_bytes k e) = Some (mkToy k e k).
Proof. simpl. rewrite !decide_False by (apply leaf_not_other; by vm_compute). apply read_leaf_bytes. Qed.
Lemma sample_openssl_works : openssl_works.
Proof.
  split; simpl; try (by eauto).
  - intros w. exists true, w. split; [done|]. exists 384. split; [done|lia].
  - intros w. exists false, w. split; [done|]. by exists PRIME256V1.
  - intros [|]; eexists; (split; [reflexivity|]); by vm_compute.
  - intros [k e k'] pem. simpl. case_decide; [|done]. intros [= <-]. subst. apply sample_leaf_pem.
  - intros w. exists 1000, w. split; [done|lia].
  - intros d key digest pre buf _ _ Hd _. rewrite Hd, last_snoc.
    eexists _, (mkToy (d_public d) buf (d_public d)), _, [], _.
    split_and!; try reflexivity; [apply sample_leaf_pem|by constructor].
Qed.
Lemma sample_honest_verifier : honest_verifier device_bytes.
Proof.
  assert (Hf : ∀ c : toy_cert, checks_in_force c) by (intros c w; by exists 50, w).
  split; [|auto..]. intros d. by eexists.
Qed.

Lemma honest_peer_accepted_witness :
  ∃ id w1, Engine.generate_ratls_identity OpenSslCrypto.wrapper (mkAttester sample_dir)
      (Engine.mkIdentityConf Ecc256Sha256 (c_custom_claims sample_conf) None [] ServerRole) sample_binding [] =
      (inr id, w1) ∧
    ∀ der w2, x509_from_der der = (head (certificate_chain_pem id) ≫= x509_from_pem) →
      ∃ e w3 c, Engine.verify_handshake_evidence sample_handle (mkPeer der sample_binding) w2 = (inr e, w3) ∧
        Dice.parse_claims_buffer (claims_buffer e) = inr c ∧ custom_claims c = c_custom_claims sample_conf.
Proof.
  apply (honest_peer_accepted sample_dir sample_tsm device_bytes sample_conf None ServerRole
    sample_binding sample_handle []
    sample_honest_tsm sample_openssl_works sample_honest_verifier).
  - discriminate.
  - reflexivity.
  - vm_compute. reflexivity.
  - reflexivity.
  - repeat constructor.
  - reflexivity.
  - discriminate.
  - reflexivity.
  - reflexivity.
Defined.
