(* ===== verification/BootLog.v ===== *)
(** * The CCA sample: measured boot

    [cca-rats-tls/ratls-rust/ratls-sample/src/common/event_log.rs]: the CCEL table, the event log of the
    firmware, its replay into the measurements of the realm, and the firmware it describes; then
    [ima_log.rs]: the log of measured files. *)

From stdpp Require Import pretty.
From S2P Require Import Prelude Utf8 Xdr Text Ratls CcaToken RatlsEngine.

#[local] Open Scope string_scope.
#[local] Open Scope list_scope.
#[local] Open Scope Z_scope.

Definition TPM_ALG_SHA1 : Z := 0x0004.
Definition TPM_ALG_SHA256 : Z := 0x000b.
Definition TPM_ALG_SHA384 : Z := 0x000c.
Definition TPM_ALG_SHA512 : Z := 0x000d.
Definition EV_NO_ACTION : Z := 0x00000003.
Definition EV_IPL : Z := 0x0000000d.
Definition EV_EFI_EVENT_BASE : Z := 0x80000000.
Definition EV_EFI_BOOT_SERVICES_APPLICATION : Z := EV_EFI_EVENT_BASE + 0x3.
Definition U32_MAX : Z := 2 ^ 32 - 1.

Record CcelTable := mkCcel {
  ccel_signature : list byte; revision : byte; checksum : byte; oem_id : list byte; cc_type : byte;
  cc_subtype : byte; log_length : Z; log_address : Z
}.
Record EventLogEntry := mkEntry {
  registry : Z; event_type : Z; digests : list (Z * list byte); event : list byte
}.
Record FirmwareState := mkFirmware {
  efi_images : list (list byte); grub_config : option (list byte); kernel : option (list byte);
  initramfs : option (list byte)
}.

(** ** Cursors

    A cursor is what is left of its data.  An offset plus a length of 32 bits does not overflow. *)
Module Cursor.
Definition take_bytes (n : Z) (l : list byte) : Result (list byte * list byte) :=
  if Vec.len l <? n then inl InvalidData else inr (take (Z.to_nat n) l, drop (Z.to_nat n) l).
(** [from_le_bytes] *)
Definition le_value (l : list byte) : Z := be_value (reverse l).
Definition le (n : Z) (l : list byte) : Result (Z * list byte) :=
  '(b, l) ← take_bytes n l; mret (le_value b, l).
Definition u16 : list byte → Result (Z * list byte) := le 2.
Definition u32 : list byte → Result (Z * list byte) := le 4.
End Cursor.

Definition read_le_u64 (data : list byte) (offset : Z) : Result Z :=
  let end_ := offset + 8 in
  if Vec.len data <? end_ then inl InvalidData else mret (Cursor.le_value (Vec.slice offset end_ data)).

Definition parse_ccel_table (data : list byte) : Result CcelTable :=
  if (Vec.len data <? 56) || negb (bool_decide (Vec.slice 0 4 data = bytes "CCEL")) then inl InvalidData else
  log_length ← read_le_u64 data 40;
  log_address ← read_le_u64 data 48;
  mret (mkCcel (Vec.slice 0 4 data) (Vec.get data 8) (Vec.get data 9) (Vec.slice 10 16 data) (Vec.get data 36)
    (Vec.get data 37) log_length log_address).

(** ** The event log *)

Definition digest_size (algorithm : Z) : option Z :=
  if algorithm =? TPM_ALG_SHA1 then Some 20
  else if algorithm =? TPM_ALG_SHA256 then Some 32
  else if algorithm =? TPM_ALG_SHA384 then Some 48
  else if algorithm =? TPM_ALG_SHA512 then Some 64
  else None.
Fixpoint read_digests (n : nat) (l : list byte) : Result (list (Z * list byte) * list byte) :=
  match n with
  | 0%nat => mret ([], l)
  | S n =>
      '(alg, l) ← Cursor.u16 l;
      size ← or_err InvalidData (digest_size alg);
      '(digest, l) ← Cursor.take_bytes size l;
      '(ds, l) ← read_digests n l;
      mret ((alg, digest) :: ds, l)
  end.
Definition SPEC_ID : list byte := bytes "Spec ID Event03".
(** One turn of the loop of [parse_event_log]: an entry and the rest, or the end of the log. *)
Definition read_event (first : bool) (l : list byte) : Result (option (EventLogEntry * list byte)) :=
  '(registry, l) ← Cursor.u32 l;
  '(event_type, l) ← Cursor.u32 l;
  if ((registry =? U32_MAX) && (event_type =? U32_MAX)) || ((registry =? 0) && (event_type =? 0)) then mret None else
  if first && (event_type =? EV_NO_ACTION) then
    '(_, l) ← Cursor.take_bytes 20 l;
    '(event_size, l) ← Cursor.u32 l;
    '(event, l) ← Cursor.take_bytes event_size l;
    if (event_size <? 29) || negb (bool_decide (is_Some (strip SPEC_ID event))) then inl InvalidData else
    mret (Some (mkEntry registry event_type [] event, l))
  else
    '(digest_count, l) ← Cursor.u32 l;
    if (digest_count =? 0) || (16 <? digest_count) then inl InvalidData else
    '(digests, l) ← read_digests (Z.to_nat digest_count) l;
    '(event_size, l) ← Cursor.u32 l;
    '(event, l) ← Cursor.take_bytes event_size l;
    mret (Some (mkEntry registry event_type digests event, l)).
(** A turn reads at least eight bytes. *)
Fixpoint read_events (fuel : nat) (entries : list EventLogEntry) (l : list byte) : Result (list EventLogEntry) :=
  match fuel, l with
  | S fuel, _ :: _ =>
      r ← read_event (bool_decide (entries = [])) l;
      match r with
      | Some (e, l) => read_events fuel (entries ++ [e]) l
      | None => mret entries
      end
  | _, _ => mret entries
  end.
Definition parse_event_log (data : list byte) : Result (list EventLogEntry) :=
  entries ← read_events (length data) [] data;
  if decide (entries = []) then inl InvalidData else mret entries.

(** ** Replay *)

(** [entry.digests.iter().find(|(alg, _)| *alg == TPM_ALG_SHA256)] *)
Definition sha256_digest (entry : EventLogEntry) : option (list byte) :=
  snd <$> List.find (λ d, d.1 =? TPM_ALG_SHA256) (digests entry).

Module BootLog.
Section replay.
Context {O : OpensslCrate}.
(** A hasher fed with two slices. *)
Definition sha256_two (first second : list byte) : Result (list byte) := hashR SHA256 (first ++ second).
(** The two registers and which were used. *)
Definition replay_step (s : (list byte * list byte) * (bool * bool)) (entry : EventLogEntry) :
    Result ((list byte * list byte) * (bool * bool)) :=
  let '((r0, r1), (u0, u1)) := s in
  if negb ((1 <=? registry entry) && (registry entry <=? 2)) then mret s else
  match sha256_digest entry with
  | None => mret s
  | Some digest =>
      if registry entry - 1 =? 0 then v ← sha256_two r0 digest; mret ((v, r1), (true, u1))
      else v ← sha256_two r1 digest; mret ((r0, v), (u0, true))
  end.
Definition replay_boot_registries_1_2 (entries : list EventLogEntry) (expected_rem : list (list byte)) : Result unit :=
  '((r0, r1), (u0, u1)) ← foldR replay_step ((replicate 32 x00, replicate 32 x00), (false, false)) entries;
  _ ← ensure (u0 && bool_decide (expected_rem !! 0%nat = Some r0)) InvalidData;
  ensure (u1 && bool_decide (expected_rem !! 1%nat = Some r1)) InvalidData.
End replay.

(** [data.windows(needle.len()).any(|w| w == needle)] *)
Fixpoint contains (data needle : list byte) : bool :=
  match data with
  | [] => false
  | _ :: rest => bool_decide (is_Some (strip needle data)) || contains rest needle
  end.

Definition firmware_step (state : FirmwareState) (entry : EventLogEntry) : FirmwareState :=
  match sha256_digest entry with
  | None => state
  | Some digest =>
      if event_type entry =? EV_EFI_BOOT_SERVICES_APPLICATION then
        mkFirmware (efi_images state ++ [digest]) (grub_config state) (kernel state) (initramfs state)
      else if event_type entry =? EV_IPL then
        if bool_decide (grub_config state = None) && contains (event entry) (bytes "grub.cfg") then
          mkFirmware (efi_images state) (Some digest) (kernel state) (initramfs state)
        else if bool_decide (kernel state = None) && contains (event entry) (bytes "/vmlinuz-") &&
                negb (contains (event entry) (bytes "grub_cmd:")) then
          mkFirmware (efi_images state) (grub_config state) (Some digest) (initramfs state)
        else if bool_decide (initramfs state = None) && contains (event entry) (bytes "/initramfs-") &&
                negb (contains (event entry) (bytes "grub_cmd:")) then
          mkFirmware (efi_images state) (grub_config state) (kernel state) (Some digest)
        else state
      else state
  end.
Definition extract_firmware_state (entries : list EventLogEntry) : FirmwareState :=
  foldl firmware_step (mkFirmware [] None None None) entries.
Definition verify_and_extract_firmware_state {O : OpensslCrate} (entries : list EventLogEntry)
    (expected_rem : list (list byte)) : Result FirmwareState :=
  _ ← replay_boot_registries_1_2 entries expected_rem;
  mret (extract_firmware_state entries).

(** [format!("cca_realm_rem{index}")] *)
Definition rem_name (index : nat) : list byte := bytes ("cca_realm_rem" ++ pretty index).
Definition verified_boot_rems_from_claims (claims : JsonValue) : Result (list (list byte)) :=
  mapR (λ index,
    encoded ← or_err InvalidData (json_get (rem_name index) claims ≫= json_str);
    measurement ← hex_decode encoded;
    if bool_decide (length measurement ≠ 32%nat) then inl InvalidData else mret measurement) [0%nat; 1%nat].
End BootLog.

(** * The CCA sample: the IMA log

    [ratls-sample/src/common/ima_log.rs]: the binary log of measured files and the list of files that are
    allowed. *)

#[local] Open Scope string_scope.
#[local] Open Scope list_scope.
#[local] Open Scope Z_scope.

Definition MAX_IMA_ENTRIES : Z := 100000.
Definition MAX_IMA_BASELINES : Z := 100000.
Definition MAX_TEMPLATE_NAME : Z := 255.
Definition MAX_TEMPLATE_DATA : Z := 16 * 1024 * 1024.
Definition MAX_IMA_PATH : Z := 4096.

Inductive ImaAlgorithm := Sha1 | Sha256.
#[global] Instance ima_algorithm_dec : EqDecision ImaAlgorithm. Proof. solve_decision. Defined.
Record ImaIdentity := mkImaId { algorithm : ImaAlgorithm; digest : list byte; path : list byte }.
#[global] Instance ima_identity_dec : EqDecision ImaIdentity. Proof. solve_decision. Defined.
Record ImaEntry := mkIma { pcr : Z; template_name : list byte; identity : ImaIdentity }.

(** ** Text *)

Definition to_ascii_lowercase (l : list byte) : list byte :=
  (λ b, if between 65 (byte_val b) 90 then byte_of (byte_val b + 32) else b) <$> l.
Definition NEWLINE : byte := x0a.
(** [str::lines]: without the ends of lines, and without an empty line at the end *)
Definition lines (l : list byte) : list (list byte) :=
  let ls := split_at NEWLINE l in
  let ls := match last ls with Some [] => removelast ls | _ => ls end in
  (λ s, match strip [x0d] (reverse s) with Some r => reverse r | None => s end) <$> ls.
(** What is before the first white space and what is behind it *)
Fixpoint split_white (l : list byte) : option (list byte * list byte) :=
  match strip_any whitespace l with
  | Some rest => Some ([], rest)
  | None =>
      match l with
      | [] => None
      | b :: l => match split_white l with Some (p, r) => Some (b :: p, r) | None => None end
      end
  end.
(** [line.splitn(3, char::is_whitespace).filter(|s| !s.is_empty())] *)
Definition line_parts (l : list byte) : list (list byte) :=
  filter (λ s, s ≠ [])
    match split_white l with
    | None => [l]
    | Some (a, l) => match split_white l with None => [a; l] | Some (b, l) => [a; b; l] end
    end.
Fixpoint position (c : byte) (l : list byte) : option nat :=
  match l with [] => None | b :: l => if decide (b = c) then Some 0%nat else S <$> position c l end.

Module Ima.
Definition digest_size (a : ImaAlgorithm) : nat := match a with Sha1 => 20 | Sha256 => 32 end.
Definition parse_algorithm (text : list byte) : Result ImaAlgorithm :=
  let text := to_ascii_lowercase text in
  if decide (text = bytes "sha1") then mret Sha1
  else if decide (text = bytes "sha256") then mret Sha256
  else inl InvalidData.
Definition trim_nul_string (data : list byte) : Result (list byte) :=
  let s := trim_end [[x00]] data in if is_utf8 s then mret s else inl InvalidData.

(** ** The binary log *)

Definition parse_ima_identity (template_data : list byte) : Result ImaIdentity :=
  '(digest_field_size, l) ← Cursor.u32 template_data;
  '(digest_field, l) ← Cursor.take_bytes digest_field_size l;
  separator ← or_err InvalidData (position x3a digest_field);
  _ ← ensure (is_utf8 (take separator digest_field)) InvalidData;
  algorithm ← parse_algorithm (take separator digest_field);
  let digest := drop (S separator) digest_field in
  let digest := match digest with x00 :: d => d | _ => digest end in
  if bool_decide (length digest ≠ digest_size algorithm) then inl InvalidData else
  '(path_size, l) ← Cursor.u32 l;
  if (path_size =? 0) || (MAX_IMA_PATH + 1 <? path_size) then inl InvalidData else
  '(path, l) ← Cursor.take_bytes path_size l;
  path ← trim_nul_string path;
  if bool_decide (path = []) || (MAX_IMA_PATH <? Vec.len path) then inl InvalidData else
  mret (mkImaId algorithm digest path).

Section log.
Context {O : OpensslCrate}.
Definition read_entry (l : list byte) : Result (ImaEntry * list byte) :=
  '(pcr, l) ← Cursor.u32 l;
  '(header_digest, l) ← Cursor.take_bytes 20 l;
  '(name_size, l) ← Cursor.u32 l;
  if (name_size =? 0) || (MAX_TEMPLATE_NAME <? name_size) then inl InvalidData else
  '(name, l) ← Cursor.take_bytes name_size l;
  '(template_size, l) ← Cursor.u32 l;
  if MAX_TEMPLATE_DATA <? template_size then inl InvalidData else
  '(template_data, l) ← Cursor.take_bytes template_size l;
  template_name ← trim_nul_string name;
  if bool_decide (template_name ∉ [bytes "ima-ng"; bytes "ima-sig"; bytes "ima-buf"]) then inl InvalidData else
  calculated ← hashR SHA1 template_data;
  if bool_decide (calculated ≠ header_digest) then inl InvalidData else
  identity ← parse_ima_identity template_data;
  mret (mkIma pcr template_name identity, l).
(** A turn reads at least the header of an entry. *)
Fixpoint read_entries (fuel : nat) (entries : list ImaEntry) (l : list byte) : Result (list ImaEntry) :=
  match fuel, l with
  | S fuel, _ :: _ =>
      if MAX_IMA_ENTRIES <=? Z.of_nat (length entries) then inl InvalidData else
      '(e, l) ← read_entry l;
      read_entries fuel (entries ++ [e]) l
  | _, _ => mret entries
  end.
Definition parse_binary_ima_log (data : list byte) : Result (list ImaEntry) :=
  entries ← read_entries (length data) [] data;
  if decide (entries = []) then inl InvalidData else mret entries.
End log.

(** ** The baseline *)

(** A set of identities, as a list without repetitions. *)
Definition insert (i : ImaIdentity) (s : list ImaIdentity) : list ImaIdentity := if decide (i ∈ s) then s else i :: s.
Definition baseline_line (entries : list ImaIdentity) (line : list byte) : Result (list ImaIdentity) :=
  let line := trim line in
  if bool_decide (line = []) || bool_decide (head line = Some x23) then mret entries else
  if MAX_IMA_BASELINES <=? Z.of_nat (length entries) then inl InvalidData else
  let parts := line_parts line in
  alg ← or_err InvalidData (parts !! 0%nat);
  alg ← parse_algorithm alg;
  digest_text ← or_err InvalidData (parts !! 1%nat);
  path ← or_err InvalidData (parts !! 2%nat);
  digest ← hex_decode digest_text;
  if bool_decide (length digest ≠ digest_size alg) || bool_decide (path = []) || (MAX_IMA_PATH <? Vec.len path)
  then inl InvalidData else
  mret (insert (mkImaId alg digest path) entries).
Definition parse_baseline (text : list byte) : Result (list ImaIdentity) :=
  entries ← foldR baseline_line [] (lines text);
  if decide (entries = []) then inl InvalidData else mret entries.
Section load.
Context {O : OpensslCrate} {W : Type} {H : Host W}.
(** [fs::read_to_string] *)
Definition read_to_string (path : list byte) : R W (list byte) :=
  text ← read_file path;
  if is_utf8 text then mret text else fail Io.
Definition load (path : list byte) : R W (list ImaIdentity) :=
  text ← read_to_string path; lift (parse_baseline text).
End load.
Definition BOOT_AGGREGATE : list byte := bytes "boot_aggregate".
Definition verify_entries (baseline : list ImaIdentity) (entries : list ImaEntry) : Result unit :=
  foldR (λ _ entry,
    if decide (path (identity entry) = BOOT_AGGREGATE) then mret tt
    else ensure (bool_decide (identity entry ∈ baseline)) InvalidData) tt entries.
End Ima.
