(* ===== verification/Policies.v ===== *)
(** * The CCA sample: policies

    [ratls-sample/src/common/firmware_policy.rs] and [platform_policy.rs]: what the firmware and the software
    of a platform may be, from files of JSON. *)

From S2P Require Import Prelude Utf8 Xdr Text Ratls CcaToken RatlsEngine BootLog.

#[local] Open Scope string_scope.
#[local] Open Scope list_scope.
#[local] Open Scope Z_scope.

(** ** Reading structures: [serde]

    [serde_json::from_str] keeps the members of an object in the order of the text.  Of the two forms a
    structure may have in JSON the object is read; [serde] also takes its fields from an array. *)
Class JsonCrate := json_from_str : list byte → option JsonValue.

(** The member of one of the names; two of them are an error. *)
Definition member (names : list (list byte)) (m : list (list byte * JsonValue)) : Result (option JsonValue) :=
  match filter (λ kv, kv.1 ∈ names) m with
  | [] => mret None
  | [(_, v)] => mret (Some v)
  | _ => inl Json
  end.
Definition jtext (v : JsonValue) : Result (list byte) := match v with JString s => mret s | _ => inl Json end.
(** A [String], an [Option<String>], a [Vec] *)
Definition text_member (names : list (list byte)) (m : list (list byte * JsonValue)) : Result (list byte) :=
  v ← member names m; v ← or_err Json v; jtext v.
Definition option_member (names : list (list byte)) (m : list (list byte * JsonValue)) : Result (option (list byte)) :=
  v ← member names m;
  match v with None | Some JNull => mret None | Some v => s ← jtext v; mret (Some s) end.
Definition list_member {A} (f : JsonValue → Result A) (v : JsonValue) : Result (list A) :=
  match v with JArray l => mapR f l | _ => inl Json end.
Definition object (v : JsonValue) : Result (list (list byte * JsonValue)) :=
  match v with JObject m => mret m | _ => inl Json end.

(** ** Firmware *)

Record KernelBaseline := mkKernel { kb_version : option (list byte); kb_kernel : option (list byte); kb_initramfs : option (list byte) }.
Record FirmwareBaseline := mkBaseline {
  fb_hash_alg : list byte; fb_grub : list byte; fb_grub_cfg : list byte; fb_kernels : list KernelBaseline
}.

Module Firmware.
Definition read_kernel (v : JsonValue) : Result KernelBaseline :=
  m ← object v;
  version ← option_member [bytes "version"] m;
  kernel ← option_member [bytes "kernel"] m;
  initramfs ← option_member [bytes "initramfs"] m;
  mret (mkKernel version kernel initramfs).
Definition read_baseline (v : JsonValue) : Result FirmwareBaseline :=
  m ← object v;
  hash_alg ← text_member [bytes "hash_alg"] m;
  grub ← text_member [bytes "grub"] m;
  grub_cfg ← text_member [bytes "grub.cfg"] m;
  kernels ← member [bytes "kernels"] m;
  kernels ← or_err Json kernels;
  kernels ← list_member read_kernel kernels;
  mret (mkBaseline hash_alg grub grub_cfg kernels).

Definition is_hex (b : byte) : bool := match hex_nibble b with inr _ => true | inl _ => false end.
(** [str.chars().count()] *)
Definition char_count (l : list byte) : nat := length (filter (λ b, cont (byte_val b) = false) l).
Definition validate_sha256_hex (value : list byte) : Result unit :=
  let digest := trim value in
  if bool_decide (char_count digest ≠ 64%nat) then inl InvalidData else ensure (forallb is_hex digest) InvalidData.
Definition validate_option (v : option (list byte)) : Result unit :=
  match v with Some v => validate_sha256_hex v | None => mret tt end.
Definition check_baseline (baseline : FirmwareBaseline) : Result FirmwareBaseline :=
  if bool_decide (fb_hash_alg baseline ≠ bytes "sha-256") then inl InvalidData else
  _ ← validate_sha256_hex (fb_grub baseline);
  _ ← validate_sha256_hex (fb_grub_cfg baseline);
  _ ← foldR (λ _ k, _ ← validate_option (kb_kernel k); validate_option (kb_initramfs k)) tt (fb_kernels baseline);
  mret baseline.

(** [(&state.kernel, &kernel.kernel)] and the same for the initramfs *)
Definition component_ok (actual expected : option (list byte)) : Result bool :=
  match actual, expected with
  | Some actual, Some expected => e ← hex_decode expected; mret (bool_decide (actual = e))
  | None, _ => mret true
  | _, None => mret true
  end.
Fixpoint any_kernel (state : FirmwareState) (kernels : list KernelBaseline) : Result bool :=
  match kernels with
  | [] => mret false
  | k :: kernels =>
      kernel_ok ← component_ok (kernel state) (kb_kernel k);
      initrd_ok ← component_ok (initramfs state) (kb_initramfs k);
      if kernel_ok && initrd_ok then mret true else any_kernel state kernels
  end.
Definition match_baseline (baseline : FirmwareBaseline) (state : FirmwareState) : Result unit :=
  grub ← hex_decode (fb_grub baseline);
  if bool_decide (grub ∉ efi_images state) then inl InvalidData else
  grub_cfg ← hex_decode (fb_grub_cfg baseline);
  if bool_decide (grub_config state ≠ Some grub_cfg) then inl InvalidData else
  matched ← any_kernel state (fb_kernels baseline);
  ensure matched InvalidData.

Section files.
Context {O : OpensslCrate} {J : JsonCrate} {W : Type} {H : Host W}.
Definition load_firmware_baseline (path : list byte) : R W FirmwareBaseline :=
  text ← Ima.read_to_string path;
  lift (baseline ← match json_from_str text ≫= λ v, match read_baseline v with inr b => Some b | inl _ => None end with
                   | Some b => mret b
                   | None => inl InvalidData
                   end;
        check_baseline baseline).
Definition verify_firmware_baseline (path : list byte) (state : FirmwareState) : R W unit :=
  baseline ← load_firmware_baseline path;
  lift (match_baseline baseline state).
End files.
End Firmware.

(** ** The platform *)

Record PlatformBaselineEntry := mkPb {
  firware_name : list byte; measurement : list byte; firware_version : list byte; pb_hash_algorithm : list byte;
  pb_signer_id : option (list byte)
}.
Record VerifiedSoftwareComponent := mkVsc {
  component_type : option (list byte); measurement_value : list byte; vsc_version : option (list byte);
  vsc_signer_id : list byte; vsc_hash_algorithm : option (list byte)
}.

Module PlatformPolicy.
Definition read_entry (v : JsonValue) : Result PlatformBaselineEntry :=
  m ← object v;
  name ← text_member [bytes "firware_name"; bytes "firmware_name"] m;
  measurement ← text_member [bytes "measurement"] m;
  version ← text_member [bytes "firware_version"; bytes "firmware_version"] m;
  hash ← text_member [bytes "hash_algorithm"] m;
  signer ← option_member [bytes "signer_id"] m;
  mret (mkPb name measurement version hash signer).
Definition read_policy (v : JsonValue) : Result (list PlatformBaselineEntry) :=
  m ← object v;
  e ← member [bytes "measure_value"; bytes "measure-values"; bytes "measure_values"] m;
  match e with None => mret [] | Some e => list_member read_entry e end.
Definition read_component (v : JsonValue) : Result VerifiedSoftwareComponent :=
  m ← object v;
  t ← option_member [bytes "component_type"] m;
  value ← text_member [bytes "measurement_value"] m;
  version ← option_member [bytes "version"] m;
  signer ← text_member [bytes "signer_id"] m;
  alg ← option_member [bytes "hash_algorithm"] m;
  mret (mkVsc t value version signer alg).
(** [serde_json::from_value::<VerifiedPlatformClaims>] *)
Definition read_claims (v : JsonValue) : Result (list VerifiedSoftwareComponent) :=
  m ← object v;
  c ← member [bytes "cca_platform_sw_components"] m;
  match c with None => mret [] | Some c => list_member read_component c end.

Definition is_wildcard (value : list byte) : bool := bool_decide (value ∈ [[]; bytes "-"; bytes "*"]).
Definition text_matches (expected actual : list byte) : bool := is_wildcard expected || bool_decide (expected = actual).
Definition hash_alg_matches (expected actual : list byte) : bool :=
  text_matches expected actual ||
  bool_decide (expected = bytes "sha256" ∧ actual = bytes "sha-256") ||
  bool_decide (expected = bytes "sha384" ∧ actual = bytes "sha-384") ||
  bool_decide (expected = bytes "sha512" ∧ actual = bytes "sha-512").
(** [signer_id.as_deref().filter(|value| !is_wildcard(value)).map(hex_decode).transpose()] *)
Definition expected_signer (s : option (list byte)) : Result (option (list byte)) :=
  match s with
  | Some s => if is_wildcard s then mret None else d ← hex_decode s; mret (Some d)
  | None => mret None
  end.
(** [.ok()] *)
Definition ok {A} (r : Result A) : option A := match r with inr a => Some a | inl _ => None end.
Definition component_matches (expected : PlatformBaselineEntry) (measurement : list byte) (signer : option (list byte))
    (actual : VerifiedSoftwareComponent) : bool :=
  text_matches (firware_name expected) (default [] (component_type actual)) &&
  text_matches (firware_version expected) (default [] (vsc_version actual)) &&
  hash_alg_matches (pb_hash_algorithm expected) (default [] (vsc_hash_algorithm actual)) &&
  bool_decide (ok (hex_decode (measurement_value actual)) = Some measurement) &&
  match signer with
  | Some s => bool_decide (ok (hex_decode (vsc_signer_id actual)) = Some s)
  | None => true
  end.
Definition check_entry (claims : list VerifiedSoftwareComponent) (expected : PlatformBaselineEntry) : Result unit :=
  m ← hex_decode (measurement expected);
  signer ← expected_signer (pb_signer_id expected);
  ensure (existsb (component_matches expected m signer) claims) InvalidData.
Definition validate_entry (entry : PlatformBaselineEntry) : Result unit :=
  if decide (measurement entry = []) then inl InvalidData else
  _ ← hex_decode (measurement entry);
  _ ← expected_signer (pb_signer_id entry);
  mret tt.
Definition check_policy (baseline : list PlatformBaselineEntry) : Result (list PlatformBaselineEntry) :=
  if decide (baseline = []) then inl InvalidData else
  _ ← foldR (λ _, validate_entry) tt baseline;
  mret baseline.
Definition match_policy (baseline : list PlatformBaselineEntry) (evidence : JsonValue) : Result unit :=
  claims ← read_claims evidence;
  foldR (λ _, check_entry claims) tt baseline.

Section files.
Context {O : OpensslCrate} {J : JsonCrate} {W : Type} {H : Host W}.
Definition load_platform_policy (path : list byte) : R W (list PlatformBaselineEntry) :=
  text ← Ima.read_to_string path;
  v ← lift (or_err Json (json_from_str text));
  baseline ← lift (read_policy v);
  lift (check_policy baseline).
Definition validate_platform_policy (path : list byte) : R W unit := _ ← load_platform_policy path; mret tt.
Definition verify_platform_policy (path : list byte) (evidence : JsonValue) : R W unit :=
  baseline ← load_platform_policy path;
  lift (match_policy baseline evidence).
End files.
End PlatformPolicy.
