(* ===== verification/Frame.v ===== *)
(** * The CCA sample: frames and sessions

    [ratls-sample/src/common/frame.rs], and the two programs that talk in frames: the client that checks the
    measurements of a server before it hands a key over ([bin/cca-client.rs]), and the server
    ([bin/cca-server.rs]), from the parsed command line to the end of a session.  The listener of the server
    and the connection of the client are given. *)

From S2P Require Import Prelude Utf8 Xdr Text Ratls CcaToken RatlsEngine RatlsApi BootLog Policies.

(** * The CCA sample: command line and files

    [ratls-sample/src/common/cli.rs] and [tls_config.rs]: the values of options, the files they name and what
    they make of the configuration of a session.  What [clap] itself does with the words of a command is not
    modelled. *)

#[local] Open Scope string_scope.
#[local] Open Scope list_scope.
#[local] Open Scope Z_scope.

Definition MAX_LOG_SIZE : Z := 10 * 1024 * 1024.
Definition DEFAULT_MAX_KEY_SIZE : Z := 64 * 1024.
Definition MAX_KEY_SIZE : Z := 1024 * 1024.
Definition MAX_MESSAGE_SIZE : Z := 4096.
Definition MAX_JSON_POLICY_SIZE : Z := 1024 * 1024.
Definition MAX_DIGEST_POLICY_SIZE : Z := 10 * 1024 * 1024.

(** [fs::metadata] *)
Record Metadata := mkMeta { md_len : Z; md_is_file : bool; md_is_dir : bool }.
Class Inspect (W : Type) := fs_metadata : list byte → W → option Metadata.

(** ** Values *)

(** [str::parse] of an unsigned type with the largest value [max] *)
Fixpoint parse_digits (max acc : Z) (l : list byte) : option Z :=
  match l with
  | [] => Some acc
  | b :: l =>
      if is_digit (byte_val b) then
        let acc := acc * 10 + (byte_val b - 48) in
        if max <? acc then None else parse_digits max acc l
      else None
  end.
Definition parse_unsigned (max : Z) (l : list byte) : option Z :=
  let l := match l with x2b :: l => l | _ => l end in
  match l with [] => None | _ => parse_digits max 0 l end.

Module Cli.
Definition parse_port (value : list byte) : option Z :=
  port ← parse_unsigned (2 ^ 16 - 1) value;
  if port =? 0 then None else Some port.
Definition parse_bounded_size (value : list byte) (maximum : Z) : option Z :=
  size ← parse_unsigned (2 ^ 64 - 1) value;
  if (size =? 0) || (maximum <? size) then None else Some size.
Definition parse_max_log (value : list byte) : option Z := parse_bounded_size value MAX_LOG_SIZE.
Definition parse_max_key (value : list byte) : option Z := parse_bounded_size value MAX_KEY_SIZE.
Definition is_ascii_hexdigit (b : byte) : bool := match hex_nibble b with inr _ => true | inl _ => false end.
Definition parse_rim (value : list byte) : option (list byte) :=
  if (Vec.len value <? 2) || (128 <? Vec.len value) || Nat.odd (length value) || negb (forallb is_ascii_hexdigit value)
  then None else Some value.

(** ** Files *)

(** [Path::parent]: the pieces of a path from the back, without separators and dots at the end *)
Fixpoint trim_pieces (rev : list (list byte)) : list (list byte) :=
  match rev with
  | [] => []
  | p :: rest => if bool_decide (rest ≠ [] ∧ (p = [] ∨ p = bytes ".")) then trim_pieces rest else rev
  end.
Definition join_pieces (rev : list (list byte)) : list byte :=
  match rev with
  | [[]] => [SLASH]
  | _ => match reverse rev with [] => [] | p :: ps => p ++ concat ((λ q, SLASH :: q) <$> ps) end
  end.
Definition parent (path : list byte) : option (list byte) :=
  match trim_pieces (reverse (split_at SLASH path)) with
  | [] | [[]] => None
  | _ :: rest => Some (join_pieces (trim_pieces rest))
  end.

Section files.
Context {O : OpensslCrate} {W : Type} {H : Host W} {I : Inspect W}.
Definition metadata (path : list byte) : R W (option Metadata) := λ w, (inr (fs_metadata path w), w).
Definition input_file_metadata (path : list byte) : R W Metadata :=
  m ← metadata path;
  m ← lift (or_err InvalidArgument m);
  if md_is_file m then mret m else fail InvalidArgument.
Definition validate_input_file (path : list byte) (maximum : Z) : R W unit :=
  m ← input_file_metadata path;
  if (md_len m =? 0) || (maximum <? md_len m) then fail InvalidArgument else mret tt.
(** One byte more than allowed is read. *)
Definition read_input_file (path : list byte) (maximum : Z) : R W (list byte) :=
  _ ← input_file_metadata path;
  data ← (λ w, let '(data, w) := fs_read path w in (or_err InvalidArgument data, w)) : R W (list byte);
  let data := take (Z.to_nat (maximum + 1)) data in
  if bool_decide (data = []) || (maximum <? Vec.len data) then fail InvalidArgument else mret data.
Definition validate_output_parent (path : list byte) : R W unit :=
  if decide (path = []) then fail InvalidArgument else
  m ← metadata path;
  if match m with Some m => md_is_dir m | None => false end then fail InvalidArgument else
  match parent path with
  | None | Some [] => mret tt
  | Some p =>
      m ← metadata p;
      m ← lift (or_err InvalidArgument m);
      if md_is_dir m then mret tt else fail InvalidArgument
  end.
End files.
End Cli.

(** ** Certificates and trust *)

Record CertificateOptions := mkCertOptions {
  o_issuer_private_key : option (list byte); o_issuer_certificate_chain : option (list byte);
  o_subject_alt_names : list (list byte)
}.
Record TlsVerifyOptions := mkTlsOptions {
  o_verify_peer_certificate : bool; o_use_system_ca : bool; o_trusted_ca_chain : option (list byte);
  o_expected_peer_name : option (list byte)
}.

Module TlsConfig.
Definition validate_cli (o : TlsVerifyOptions) (server mutual : bool) : Result unit :=
  if negb (o_verify_peer_certificate o) then
    ensure (negb (o_use_system_ca o || bool_decide (is_Some (o_trusted_ca_chain o)) ||
      bool_decide (is_Some (o_expected_peer_name o)))) InvalidArgument
  else if server && negb mutual then inl InvalidArgument
  else if negb (o_use_system_ca o) && bool_decide (o_trusted_ca_chain o = None) then inl InvalidArgument
  else ensure (bool_decide (o_expected_peer_name o ≠ Some [])) InvalidArgument.

Section load.
Context {O : OpensslCrate} {W : Type} {H : Host W} {I : Inspect W}.
Definition read_optional (path : option (list byte)) (maximum : Z) : R W (list byte) :=
  match path with Some path => Cli.read_input_file path maximum | None => mret [] end.
Definition load_certificate (o : CertificateOptions) : R W CertificateConf :=
  key ← read_optional (o_issuer_private_key o) MAX_ISSUER_PRIVATE_KEY_PEM_SIZE;
  chain ← read_optional (o_issuer_certificate_chain o) MAX_ISSUER_CERTIFICATE_CHAIN_PEM_SIZE;
  mret (mkCertificateConf key chain (o_subject_alt_names o)).
Definition load_tls_verify (o : TlsVerifyOptions) : R W TlsVerifyConf :=
  if negb (o_verify_peer_certificate o) then mret (mkTlsVerify false false [] None) else
  chain ← read_optional (o_trusted_ca_chain o) MAX_TRUSTED_CA_CHAIN_PEM_SIZE;
  mret (mkTlsVerify true (o_use_system_ca o) chain (o_expected_peer_name o)).
End load.
End TlsConfig.

(** * Frames and programs *)

#[local] Open Scope string_scope.
#[local] Open Scope list_scope.
#[local] Open Scope Z_scope.

(** A negotiated stream, which writes and reads as much as it likes: [read] says how many bytes it put at the
    front of the buffer and which. *)
Class Transport (W S : Type) := {
  s_write : S → list byte → R W Z;
  s_read : S → Z → R W (Z * list byte)
}.
Definition U32_LIMIT : Z := 2 ^ 32.

Module Frame.
Section frame.
Context {W S : Type} {T : Transport W S}.
(** Each turn transmits at least a byte. *)
Fixpoint transmit_from (fuel : nat) (s : S) (data : list byte) : R W unit :=
  match fuel, data with
  | Datatypes.S fuel, _ :: _ =>
      written ← s_write s data;
      if (written =? 0) || (Vec.len data <? written) then fail InvalidData
      else transmit_from fuel s (drop (Z.to_nat written) data)
  | _, _ => mret tt
  end.
Definition transmit_all (s : S) (data : list byte) : R W unit := transmit_from (length data) s data.
(** The bytes of a buffer of length [need]. *)
Fixpoint receive_from (fuel : nat) (s : S) (need : Z) : R W (list byte) :=
  match fuel with
  | Datatypes.S fuel =>
      if need =? 0 then mret [] else
      '(read, data) ← s_read s need;
      if (read =? 0) || (need <? read) then fail InvalidData else
      rest ← receive_from fuel s (need - read);
      mret (take (Z.to_nat read) data ++ rest)
  | 0%nat => mret []
  end.
Definition receive_all (s : S) (need : Z) : R W (list byte) := receive_from (Z.to_nat need) s need.

Definition send_frame (s : S) (payload : list byte) : R W unit :=
  if bool_decide (payload = []) || (2 ^ 32 - 1 <? Vec.len payload) then fail InvalidArgument else
  _ ← transmit_all s (be_bytes 4 (Vec.len payload));
  transmit_all s payload.
Definition receive_frame (s : S) (max : Z) : R W (list byte) :=
  size ← receive_all s 4;
  let size := be_value size in
  if (size =? 0) || (max <? size) then fail InvalidData else
  receive_all s size.
End frame.
End Frame.

(** ** The client *)

Definition REQUEST_IMA_LOG : list byte := bytes "REQUEST_IMA_LOG".
Definition REQUEST_CCEL_TABLE : list byte := bytes "REQUEST_CCEL_TABLE".
Definition REQUEST_EVENT_LOG : list byte := bytes "REQUEST_EVENT_LOG".
Definition ENABLE_FDE_TOKEN : list byte := bytes "ENABLE_FDE_TOKEN".
Definition ATTESTATION_PASS : list byte := bytes "ATTESTATION_PASS".

(** The options; without those for the address, the log level and the end after one connection. *)
Record ClientArgs := mkClientArgs {
  a_message : list byte; a_message_file : option (list byte); a_mutual : bool; a_ima_log : bool; a_boot_log : bool;
  a_firmware : option (list byte); a_digest : option (list byte); a_rim : option (list byte);
  a_platform : option (list byte); a_fde_key : option (list byte); a_max_log : Z; a_cert_algo : CertAlgorithm;
  a_certificate : CertificateOptions; a_tls_verify : TlsVerifyOptions
}.
Record ServerArgs := mkServerArgs {
  s_mutual : bool; s_ima_log : list byte; s_ccel_table : list byte; s_event_log : list byte; s_rootfs_key : list byte;
  s_rim : option (list byte); s_platform : option (list byte); s_max_key : Z; s_cert_algo : CertAlgorithm;
  s_certificate : CertificateOptions; s_tls_verify : TlsVerifyOptions
}.
(** [Arc<Mutex<Option<Vec<Vec<u8>>>>>]: the cell the callback and the session share. *)
Class RemCell (W : Type) := {
  get_rems : W → option (list (list byte));
  set_rems : option (list (list byte)) → W → W
}.

Module Session.
Section session.
Context {O : OpensslCrate} {J : JsonCrate} {W S : Type} {H : Host W} {I : Inspect W} {T : Transport W S}
  {Ce : RemCell W}.

(** The part of the callback client and server share *)
Definition check_rim (expected : option (list byte)) (e : Evidence) : Result unit :=
  match expected with
  | None => mret tt
  | Some expected =>
      s ← or_err InvalidData (json_get (bytes "cca_realm_rim") (evidence_json e) ≫= json_str);
      actual ← hex_decode s;
      ensure (bool_decide (actual = expected)) InvalidData
  end.
Definition check_platform (policy : option (list byte)) (e : Evidence) : R W unit :=
  match policy with None => mret tt | Some path => PlatformPolicy.verify_platform_policy path (evidence_json e) end.
(** [args.rim.as_deref().map(hex_decode).transpose()] *)
Definition expected_rim (rim : option (list byte)) : Result (option (list byte)) :=
  match rim with None => mret None | Some r => d ← hex_decode r; mret (Some d) end.

Definition store_rems (measurements : option (list (list byte))) : R W unit := λ w, (inr tt, set_rems measurements w).
Definition stored_rems : R W (list (list byte)) := λ w, (or_err InvalidData (get_rems w), w).
(** The callback [configure_verification_callback] of the client sets, if it sets one. *)
Definition client_callback (args : ClientArgs) : Result (option (Evidence → R W unit)) :=
  expected ← expected_rim (a_rim args);
  if bool_decide (expected = None) && bool_decide (a_platform args = None) && negb (a_boot_log args) then mret None else
  mret (Some (λ e,
    _ ← lift (check_rim expected e);
    _ ← check_platform (a_platform args) e;
    if a_boot_log args then
      measurements ← lift (BootLog.verified_boot_rems_from_claims (evidence_json e));
      store_rems (Some measurements)
    else mret tt)).
Definition server_callback (args : ServerArgs) : Result (option (Evidence → R W unit)) :=
  expected ← expected_rim (s_rim args);
  if bool_decide (expected = None) && bool_decide (s_platform args = None) then mret None else
  mret (Some (λ e, _ ← lift (check_rim expected e); check_platform (s_platform args) e)).

Definition send_rootfs_key (s : S) (path : list byte) : R W unit :=
  key ← Cli.read_input_file path MAX_KEY_SIZE;
  _ ← Frame.send_frame s ENABLE_FDE_TOKEN;
  Frame.send_frame s key.
Definition message_payload (args : ClientArgs) : R W (list byte) :=
  match a_message_file args with
  | Some path => Cli.read_input_file path MAX_MESSAGE_SIZE
  | None => mret (a_message args)
  end.
Definition check_ima (args : ClientArgs) (s : S) : R W unit :=
  if negb (a_ima_log args) then mret tt else
  _ ← Frame.send_frame s REQUEST_IMA_LOG;
  data ← Frame.receive_frame s (a_max_log args);
  entries ← lift (Ima.parse_binary_ima_log data);
  match a_digest args with
  | Some path => baseline ← Ima.load path; lift (Ima.verify_entries baseline entries)
  | None => mret tt
  end.
Definition check_boot (args : ClientArgs) (s : S) : R W (option FirmwareState) :=
  if negb (a_boot_log args) then mret None else
  _ ← Frame.send_frame s REQUEST_CCEL_TABLE;
  ccel ← Frame.receive_frame s (a_max_log args);
  _ ← lift (parse_ccel_table ccel);
  _ ← Frame.send_frame s REQUEST_EVENT_LOG;
  event_log_data ← Frame.receive_frame s (a_max_log args);
  entries ← lift (parse_event_log event_log_data);
  expected_rems ← stored_rems;
  state ← lift (BootLog.verify_and_extract_firmware_state entries expected_rems);
  mret (Some state).
Definition check_firmware (args : ClientArgs) (state : option FirmwareState) : R W unit :=
  match a_firmware args with
  | None => mret tt
  | Some path =>
      match state with
      | None => fail InvalidArgument
      | Some state => Firmware.verify_firmware_baseline path state
      end
  end.
(** [run] after the stream was negotiated *)
Definition client_session (args : ClientArgs) (s : S) : R W unit :=
  _ ← check_ima args s;
  firmware_state ← check_boot args s;
  _ ← check_firmware args firmware_state;
  _ ← match a_fde_key args with Some path => send_rootfs_key s path | None => mret tt end;
  message ← message_payload args;
  _ ← Frame.send_frame s message;
  _ ← Frame.receive_frame s 4096;
  _ ← Frame.send_frame s ATTESTATION_PASS;
  ack ← Frame.receive_frame s 4096;
  lift (ensure (bool_decide (ack = ATTESTATION_PASS)) InvalidData).

(** ** The server *)

Definition send_file (s : S) (path : list byte) : R W unit :=
  data ← Cli.read_input_file path MAX_LOG_SIZE; Frame.send_frame s data.
Definition receive_rootfs_key (args : ServerArgs) (s : S) : R W unit :=
  key ← Frame.receive_frame s (s_max_key args);
  write_file (s_rootfs_key args) key.
(** One request; whether the session goes on *)
Definition serve_request (args : ServerArgs) (s : S) : R W bool :=
  request ← Frame.receive_frame s 4096;
  if decide (request = REQUEST_IMA_LOG) then _ ← send_file s (s_ima_log args); mret true
  else if decide (request = REQUEST_CCEL_TABLE) then _ ← send_file s (s_ccel_table args); mret true
  else if decide (request = REQUEST_EVENT_LOG) then _ ← send_file s (s_event_log args); mret true
  else if decide (request = ENABLE_FDE_TOKEN) then _ ← receive_rootfs_key args s; mret true
  else if decide (request = ATTESTATION_PASS) then _ ← Frame.send_frame s ATTESTATION_PASS; mret false
  else _ ← Frame.send_frame s request; mret true.
(** The loop of [serve_one], for as many requests as [fuel]; [None] when it has not ended. *)
Fixpoint serve_requests (fuel : nat) (args : ServerArgs) (s : S) : R W (option unit) :=
  match fuel with
  | 0%nat => mret None
  | Datatypes.S fuel =>
      goes_on ← serve_request args s;
      if goes_on : bool then serve_requests fuel args s else mret (Some tt)
  end.

(** ** From the command line *)

Definition check_optional {A} (o : option A) (f : A → R W unit) : R W unit :=
  match o with Some a => f a | None => mret tt end.
(** [Args::validate] *)
Definition client_validate (args : ClientArgs) : R W unit :=
  _ ← lift (TlsConfig.validate_cli (a_tls_verify args) false (a_mutual args));
  _ ← match a_message_file args with
      | Some path => _ ← Cli.read_input_file path MAX_MESSAGE_SIZE; mret tt
      | None => lift (ensure (negb (bool_decide (a_message args = []) || (MAX_MESSAGE_SIZE <? Vec.len (a_message args))))
                  InvalidArgument)
      end;
  _ ← check_optional (a_firmware args) (λ path,
        _ ← Cli.validate_input_file path MAX_JSON_POLICY_SIZE; _ ← Firmware.load_firmware_baseline path; mret tt);
  _ ← check_optional (a_digest args) (λ path,
        _ ← Cli.validate_input_file path MAX_DIGEST_POLICY_SIZE; _ ← Ima.load path; mret tt);
  _ ← check_optional (a_platform args) (λ path,
        _ ← Cli.validate_input_file path MAX_JSON_POLICY_SIZE; PlatformPolicy.validate_platform_policy path);
  check_optional (a_fde_key args) (λ path, _ ← Cli.read_input_file path MAX_KEY_SIZE; mret tt).
Definition server_validate (args : ServerArgs) : R W unit :=
  _ ← lift (TlsConfig.validate_cli (s_tls_verify args) true (s_mutual args));
  _ ← check_optional (s_platform args) (λ path,
        _ ← Cli.validate_input_file path MAX_JSON_POLICY_SIZE; PlatformPolicy.validate_platform_policy path);
  Cli.validate_output_parent (s_rootfs_key args).

Section run.
Context {C : CborCrate} {Co : CosetCrate} {TH : Type}.
Variables (openssl_crypto : CryptoWrapper W) (openssl_tls : TlsWrapper W S TH).
(** [TcpStream::connect] *)
Variable connect : R W S.

(** [RaTlsConf { .., ..Default::default() }] of both programs *)
Definition client_conf (args : ClientArgs) (certificate : CertificateConf) (tls_verify : TlsVerifyConf) : RaTlsConf :=
  mkConf (if a_mutual args then Some AttestCca else None) (Some PluginCca) TlsOpenSsl CryptoOpenSsl (a_cert_algo args) []
    (a_mutual args) false certificate tls_verify.
Definition session_conf (args : ServerArgs) (certificate : CertificateConf) (tls_verify : TlsVerifyConf) : RaTlsConf :=
  mkConf (Some AttestCca) (if s_mutual args then Some PluginCca else None) TlsOpenSsl CryptoOpenSsl (s_cert_algo args) []
    (s_mutual args) true certificate tls_verify.
(** [configure_verification_callback]: a new cell for the measurements, and the callback *)
Definition configure_client (handle : RaTlsHandle W S TH) (args : ClientArgs) : R W (RaTlsHandle W S TH) :=
  callback ← lift (client_callback args);
  _ ← if a_boot_log args then store_rems None else mret tt;
  mret match callback with
       | Some _ => Engine.rats_tls_set_verification_callback handle callback
       | None => handle
       end.
Definition configure_server (handle : RaTlsHandle W S TH) (args : ServerArgs) : R W (RaTlsHandle W S TH) :=
  callback ← lift (server_callback args);
  mret match callback with
       | Some _ => Engine.rats_tls_set_verification_callback handle callback
       | None => handle
       end.
(** [run] of the client up to the negotiated stream *)
Definition client_connect (args : ClientArgs) : R W S :=
  _ ← client_validate args;
  certificate ← TlsConfig.load_certificate (a_certificate args);
  tls_verify ← TlsConfig.load_tls_verify (a_tls_verify args);
  handle ← Api.rats_tls_init openssl_crypto openssl_tls (client_conf args certificate tls_verify);
  handle ← configure_client handle args;
  s ← connect;
  Engine.rats_tls_negotiate handle s.
Definition client_run (args : ClientArgs) : R W unit := s ← client_connect args; client_session args s.
(** [serve_one], on an accepted connection *)
Definition serve_one (fuel : nat) (args : ServerArgs) (certificate : CertificateConf) (tls_verify : TlsVerifyConf)
    (s : S) : R W (option unit) :=
  handle ← Api.rats_tls_init openssl_crypto openssl_tls (session_conf args certificate tls_verify);
  handle ← configure_server handle args;
  s ← Engine.rats_tls_negotiate handle s;
  serve_requests fuel args s.
End run.
End session.
End Session.
