(* ===== verification/BootThms.v ===== *)
(** * The CCA sample: theorems on measured boot

    The event log is read as it is written; two logs that replay to the same measurements measured the same;
    and what the check does not cover. *)

From S2P Require Import Prelude Utf8 Xdr Text Ratls RatlsThms BootLog Policies.

#[local] Open Scope string_scope.
#[local] Open Scope list_scope.
#[local] Open Scope Z_scope.

(** ** Writing a log *)

Definition le_bytes (n : nat) (x : Z) : list byte := reverse (be_bytes n x).
Definition render_digest (d : Z * list byte) : list byte := le_bytes 2 d.1 ++ d.2.
Definition render_entry (e : EventLogEntry) : list byte :=
  le_bytes 4 (registry e) ++ le_bytes 4 (event_type e) ++ le_bytes 4 (Z.of_nat (length (digests e))) ++
  concat (render_digest <$> digests e) ++ le_bytes 4 (Vec.len (event e)) ++ event e.
(** The first entry of a log of version 2 is in the format of version 1, with room for a digest of SHA-1. *)
Definition render_spec (legacy : list byte) (e : EventLogEntry) : list byte :=
  le_bytes 4 (registry e) ++ le_bytes 4 (event_type e) ++ legacy ++
  le_bytes 4 (Vec.len (event e)) ++ event e.
Definition render_first (legacy : list byte) (e : EventLogEntry) : list byte :=
  if event_type e =? EV_NO_ACTION then render_spec legacy e else render_entry e.
Definition is_word (x : Z) : Prop := 0 ≤ x < 2 ^ 32.
(** Neither of the two marks of the end. *)
Definition no_end (e : EventLogEntry) : Prop :=
  is_word (registry e) ∧ is_word (event_type e) ∧
  ¬ (registry e = 0 ∧ event_type e = 0) ∧ ¬ (registry e = U32_MAX ∧ event_type e = U32_MAX).
Definition digest_ok (d : Z * list byte) : Prop := digest_size d.1 = Some (Vec.len d.2).
Definition entry_ok (e : EventLogEntry) : Prop :=
  no_end e ∧ (1 ≤ length (digests e) ≤ 16)%nat ∧ Forall digest_ok (digests e) ∧ Vec.len (event e) < 2 ^ 32.
(** A first entry of the type [EV_NO_ACTION] must be the one that names the specification, of 29 bytes and more;
    one of another type is read like any other entry. *)
Definition first_ok (e : EventLogEntry) : Prop :=
  if event_type e =? EV_NO_ACTION
  then no_end e ∧ digests e = [] ∧ 29 ≤ Vec.len (event e) < 2 ^ 32 ∧ ∃ r, event e = SPEC_ID ++ r
  else entry_ok e.
(** Nothing, or a mark of the end with anything behind it. *)
Definition log_end (t : list byte) : Prop := t = [] ∨ ∃ r, t = replicate 8 x00 ++ r ∨ t = replicate 8 xff ++ r.

(** ** Reading it back *)

Lemma take_bytes_app n a l : Vec.len a = n → Cursor.take_bytes n (a ++ l) = inr (a, l).
Proof.
  intros <-. unfold Cursor.take_bytes. rewrite Vec.len_app. pose proof (Vec.len_nonneg l).
  destruct (Z.ltb_spec (Vec.len a + Vec.len l) (Vec.len a)); [lia|].
  unfold Vec.len. by rewrite Nat2Z.id, take_app_length, drop_app_length.
Qed.
Lemma len_le n x : Vec.len (le_bytes n x) = Z.of_nat n.
Proof. unfold Vec.len, le_bytes. by rewrite length_reverse, length_be. Qed.
Lemma le_app n x l : 0 ≤ x < 256 ^ Z.of_nat n → Cursor.le (Z.of_nat n) (le_bytes n x ++ l) = inr (x, l).
Proof.
  intros Hx. unfold Cursor.le. rewrite take_bytes_app by apply len_le. cbn [mbind result_bind].
  unfold Cursor.le_value, le_bytes. by rewrite reverse_involutive, be_value_bytes, Z.mod_small.
Qed.
Lemma u32_app x l : is_word x → Cursor.u32 (le_bytes 4 x ++ l) = inr (x, l).
Proof. intros Hx. apply (le_app 4). exact Hx. Qed.
Lemma u16_app x l : 0 ≤ x < 2 ^ 16 → Cursor.u16 (le_bytes 2 x ++ l) = inr (x, l).
Proof. intros Hx. apply (le_app 2). exact Hx. Qed.
Lemma digest_size_alg a n : digest_size a = Some n → 0 ≤ a < 2 ^ 16 ∧ 0 ≤ n.
Proof.
  unfold digest_size, TPM_ALG_SHA1, TPM_ALG_SHA256, TPM_ALG_SHA384, TPM_ALG_SHA512.
  intros ?. repeat case_match; simplify_eq; lia.
Qed.
Lemma read_digests_app ds l : Forall digest_ok ds →
  read_digests (length ds) (concat (render_digest <$> ds) ++ l) = inr (ds, l).
Proof.
  induction 1 as [|[a d] ds Hd Hds IH]; [done|]. unfold digest_ok in Hd. cbn [fst snd] in Hd.
  cbn [read_digests length]. rewrite fmap_cons. cbn [concat]. unfold render_digest at 1. cbn [fst snd].
  rewrite <- !app_assoc. destruct (digest_size_alg _ _ Hd) as [Ha _]. rewrite u16_app by done.
  cbn [mbind result_bind]. rewrite Hd. cbn [or_err mbind result_bind]. rewrite take_bytes_app by done.
  cbn [mbind result_bind]. rewrite IH. done.
Qed.
Lemma end_marks e : no_end e →
  ((registry e =? U32_MAX) && (event_type e =? U32_MAX)) || ((registry e =? 0) && (event_type e =? 0)) = false.
Proof.
  intros (_ & _ & H0 & H1). apply orb_false_iff. rewrite !andb_false_iff, !Z.eqb_neq. unfold U32_MAX in *. lia.
Qed.
Lemma read_entry_app first e l : entry_ok e → first && (event_type e =? EV_NO_ACTION) = false →
  read_event first (render_entry e ++ l) = inr (Some (e, l)).
Proof.
  intros (Hn & Hc & Hd & Hl) Hf. unfold read_event, render_entry. rewrite <- !app_assoc.
  pose proof Hn as (Hr & Ht & _). rewrite u32_app by done. cbn [mbind result_bind]. rewrite u32_app by done.
  cbn [mbind result_bind]. rewrite end_marks by done. cbv iota. rewrite Hf. cbv iota.
  assert (Hcw : is_word (Z.of_nat (length (digests e)))) by (unfold is_word; lia).
  rewrite u32_app by done. cbn [mbind result_bind].
  destruct (Z.eqb_spec (Z.of_nat (length (digests e))) 0); [lia|].
  destruct (Z.ltb_spec 16 (Z.of_nat (length (digests e)))); [lia|]. simpl orb. cbv iota.
  rewrite Nat2Z.id, read_digests_app by done. cbn [mbind result_bind].
  assert (Hw : is_word (Vec.len (event e))) by (pose proof (Vec.len_nonneg (event e)); unfold is_word; lia).
  rewrite u32_app by done. cbn [mbind result_bind]. rewrite take_bytes_app by done. by destruct e.
Qed.
Lemma read_first_app legacy e l : length legacy = 20%nat → first_ok e →
  read_event true (render_first legacy e ++ l) = inr (Some (e, l)).
Proof.
  intros H20. unfold first_ok, render_first. destruct (event_type e =? EV_NO_ACTION) eqn:Hty.
  2: { intros He. apply read_entry_app; [done|]. by rewrite Hty. }
  intros (Hn & Hd & [Hl Hm] & r & Hev). unfold read_event, render_spec. rewrite <- !app_assoc.
  pose proof Hn as (Hr & Ht & _). rewrite u32_app by done. cbn [mbind result_bind]. rewrite u32_app by done.
  cbn [mbind result_bind]. rewrite end_marks by done. rewrite Hty. simpl andb. cbv iota.
  rewrite take_bytes_app by (unfold Vec.len; by rewrite H20). cbn [mbind result_bind].
  rewrite u32_app by (unfold is_word; lia). cbn [mbind result_bind]. rewrite take_bytes_app by done.
  cbn [mbind result_bind]. destruct (Z.ltb_spec (Vec.len (event e)) 29); [lia|].
  rewrite bool_decide_eq_true_2; [|by exists r; rewrite Hev]. simpl. destruct e; simpl in *. by subst.
Qed.
Lemma end_event x b r : x = 0 ∨ x = U32_MAX → read_event b (le_bytes 4 x ++ le_bytes 4 x ++ r) = inr None.
Proof.
  intros Hx. assert (Hw : is_word x) by (unfold is_word, U32_MAX in *; lia). unfold read_event.
  rewrite u32_app by done. cbn [mbind result_bind]. rewrite u32_app by done. by destruct Hx as [-> | ->].
Qed.
Lemma log_end_stops t fuel acc : log_end t → (length t ≤ fuel)%nat → read_events fuel acc t = inr acc.
Proof.
  intros Ht Hf. destruct Ht as [->|(r & [-> | ->])]; [by destruct fuel|..];
    (destruct fuel as [|fuel]; [simpl in Hf; lia|]); cbn [read_events replicate app].
  - change (read_event ?b _) with (read_event b (le_bytes 4 0 ++ le_bytes 4 0 ++ r)). by rewrite end_event by auto.
  - change (read_event ?b _) with (read_event b (le_bytes 4 U32_MAX ++ le_bytes 4 U32_MAX ++ r)).
    by rewrite end_event by auto.
Qed.
Lemma render_first_nonempty legacy e l : (1 ≤ length (render_first legacy e ++ l))%nat.
Proof.
  unfold render_first, render_spec, render_entry. destruct (_ =? _); rewrite !length_app;
    pose proof (len_le 4 (registry e)) as H; unfold Vec.len in H; lia.
Qed.
Lemma read_events_app es t acc fuel : Forall entry_ok es → log_end t → acc ≠ [] →
  (length (concat (render_entry <$> es) ++ t) ≤ fuel)%nat →
  read_events fuel acc (concat (render_entry <$> es) ++ t) = inr (acc ++ es).
Proof.
  intros Hes Ht. revert acc fuel. induction Hes as [|e es He Hes IH]; intros acc fuel Hacc Hfuel.
  - simpl in *. rewrite app_nil_r. by apply log_end_stops.
  - rewrite fmap_cons in *. cbn [concat] in *. rewrite <- app_assoc in *.
    assert (Hlen : (8 ≤ length (render_entry e))%nat).
    { unfold render_entry. rewrite !length_app.
      pose proof (len_le 4 (registry e)) as H1. pose proof (len_le 4 (event_type e)) as H2. unfold Vec.len in H1, H2. lia. }
    rewrite length_app in Hfuel. destruct fuel as [|fuel]; [lia|]. cbn [read_events].
    destruct (render_entry e ++ _) as [|b l] eqn:Hl.
    { apply (f_equal length) in Hl. rewrite length_app in Hl. simpl in Hl. lia. }
    rewrite <- Hl. rewrite bool_decide_eq_false_2 by done. rewrite read_entry_app by done. cbn [mbind result_bind].
    rewrite IH; [by rewrite <- app_assoc|by destruct acc|lia].
Qed.

Lemma log_roundtrip legacy e es t :
  length legacy = 20%nat → first_ok e → Forall entry_ok es → log_end t →
  parse_event_log (render_first legacy e ++ concat (render_entry <$> es) ++ t) = inr (e :: es).
Proof.
  intros H20 He Hes Ht. unfold parse_event_log. pose proof (render_first_nonempty legacy e (concat (render_entry <$> es) ++ t)) as Hn.
  destruct (length (render_first legacy e ++ _)) as [|fuel] eqn:Hlen; [lia|]. cbn [read_events].
  destruct (render_first legacy e ++ _) as [|b l] eqn:Hl; [done|]. rewrite <- Hl in *.
  rewrite bool_decide_eq_true_2 by done. rewrite read_first_app by done. cbn [mbind result_bind].
  rewrite read_events_app; [done|done|done|done|]. rewrite length_app in Hlen.
  pose proof (render_first_nonempty legacy e []) as H1. rewrite app_nil_r in H1. lia.
Qed.
(** The first entry need not name the specification: a log that begins with an entry of another type is read. *)
Lemma log_without_spec_id e es t :
  event_type e ≠ EV_NO_ACTION → entry_ok e → Forall entry_ok es → log_end t →
  parse_event_log (concat (render_entry <$> (e :: es)) ++ t) = inr (e :: es).
Proof.
  intros He%Z.eqb_neq Hok Hes Ht. pose proof (log_roundtrip (replicate 20 x00) e es t) as H.
  unfold render_first, first_ok in H. rewrite He in H. rewrite fmap_cons. cbn [concat]. rewrite <- app_assoc. by apply H.
Qed.

(** C30. The event log of a firmware is read as it was written.  Its first entry is either the one of type
    [EV_NO_ACTION] in the old format, with any 20 bytes of digest, no digests in the list and an event of 29
    bytes or more that begins with Spec ID Event03, or an entry of another type in the new format, which the
    parser accepts as well; then come any entries in the new format with one to sixteen digests of the known
    algorithms; the end is the end of the data or one of the two marks, whatever follows it.  Events are shorter
    than 2^32 bytes, and no entry looks like a mark of the end. *)
Theorem event_log_roundtrip legacy e es t :
  length legacy = 20%nat → first_ok e → Forall entry_ok es → log_end t →
  parse_event_log (render_first legacy e ++ concat (render_entry <$> es) ++ t) = inr (e :: es).
Proof. apply log_roundtrip. Qed.
Definition spec_entry : EventLogEntry := mkEntry 0 EV_NO_ACTION [] (SPEC_ID ++ replicate 14 x00).
Definition sample_entry (reg type : Z) (d : byte) (text : string) : EventLogEntry :=
  mkEntry reg type [(TPM_ALG_SHA256, replicate 32 d)] (bytes text).
Lemma no_end_sample r t d v : is_word r → 0 < t < U32_MAX → no_end (mkEntry r t d v).
Proof. unfold no_end, is_word, U32_MAX. simpl. lia. Qed.
Lemma event_log_roundtrip_witness :
  parse_event_log (render_first (replicate 20 x00) spec_entry ++ concat (render_entry <$> [sample_entry 1 EV_IPL x05 "grub.cfg"]) ++
    replicate 8 xff ++ [x00]) = inr [spec_entry; sample_entry 1 EV_IPL x05 "grub.cfg"].
Proof.
  apply (event_log_roundtrip (replicate 20 x00) spec_entry [sample_entry 1 EV_IPL x05 "grub.cfg"] (replicate 8 xff ++ [x00])).
  - reflexivity.
  - split; [apply no_end_sample; split; vm_compute; congruence|split; [reflexivity|split; [vm_compute; split; [discriminate|reflexivity]|]]].
    exists (replicate 14 x00). reflexivity.
  - constructor; [|constructor]. split; [apply no_end_sample; split; vm_compute; congruence|split; [simpl; lia|split; [|reflexivity]]].
    repeat constructor.
  - right. exists [x00]. right. reflexivity.
Defined.

(** ** Replay *)

(** The SHA-256 digests measured into a registry. *)
Definition measured (i : Z) (es : list EventLogEntry) : list (list byte) :=
  omap (λ e, if registry e =? i then sha256_digest e else None) es.

Section replay.
Context {O : OpensslCrate} {DL : DigestLaws O}.

(** A measurement register: extended by each digest in turn. *)
Definition extend (r : list byte) (d : list byte) : list byte := sha256 (r ++ d).
Definition register (ds : list (list byte)) : list byte := foldl extend (replicate 32 x00) ds.

Lemma hashR_sha256 d h : hashR SHA256 d = inr h → h = sha256 d.
Proof. intros Hh%or_err_inr. by apply hash_sha256. Qed.
Lemma replay_fold es r0 r1 u0 u1 r0' r1' u0' u1' :
  foldR BootLog.replay_step ((r0, r1), (u0, u1)) es = inr ((r0', r1'), (u0', u1')) →
  r0' = foldl extend r0 (measured 1 es) ∧ r1' = foldl extend r1 (measured 2 es) ∧
  u0' = u0 || bool_decide (measured 1 es ≠ []) ∧ u1' = u1 || bool_decide (measured 2 es ≠ []).
Proof.
  revert r0 r1 u0 u1. induction es as [|e es IH]; intros r0 r1 u0 u1 Hf.
  - injection Hf as <- <- <- <-. simpl. by rewrite !orb_false_r.
  - cbn [foldR] in Hf. apply bind_inr in Hf as ([[a b] [c d]] & He & Hf). unfold BootLog.replay_step in He.
    assert (Hm : ∀ i, measured i (e :: es) = (if registry e =? i then option_list (sha256_digest e) else []) ++ measured i es).
    { intros i. unfold measured. simpl. destruct (registry e =? i); [by destruct (sha256_digest e)|done]. }
    rewrite !Hm. destruct ((1 <=? registry e) && (registry e <=? 2)) eqn:Hr; cbn [negb] in He.
    2: { injection He as <- <- <- <-. destruct (Z.eqb_spec (registry e) 1); [lia|].
         destruct (Z.eqb_spec (registry e) 2); [lia|]. by apply IH. }
    destruct (sha256_digest e) as [dg|].
    2: { injection He as <- <- <- <-. simpl. repeat case_match; by apply IH. }
    destruct (Z.eqb_spec (registry e - 1) 0).
    + apply bind_inr in He as (v & Hv%hashR_sha256 & He). injection He as <- <- <- <-.
      destruct (Z.eqb_spec (registry e) 1); [|lia]. destruct (Z.eqb_spec (registry e) 2); [lia|].
      apply IH in Hf as (-> & -> & -> & ->). subst v. simpl. by rewrite orb_true_r.
    + apply bind_inr in He as (v & Hv%hashR_sha256 & He). injection He as <- <- <- <-.
      destruct (Z.eqb_spec (registry e) 1); [lia|]. destruct (Z.eqb_spec (registry e) 2); [|lia].
      apply IH in Hf as (-> & -> & -> & ->). subst v. simpl. by rewrite orb_true_r.
Qed.
Lemma replay_registers es rems u :
  BootLog.replay_boot_registries_1_2 es rems = inr u →
  rems !! 0%nat = Some (register (measured 1 es)) ∧ rems !! 1%nat = Some (register (measured 2 es)) ∧
  measured 1 es ≠ [] ∧ measured 2 es ≠ [].
Proof.
  unfold BootLog.replay_boot_registries_1_2. intros Hr.
  apply bind_inr in Hr as ([[r0 r1] [u0 u1]] & Hf%replay_fold & Hr).
  apply bind_inr in Hr as ([] & H0%ensure_inr & H1%ensure_inr).
  apply andb_true_iff in H0 as [? ?%bool_decide_eq_true], H1 as [? ?%bool_decide_eq_true].
  destruct Hf as (-> & -> & -> & ->). simpl in *.
  repeat match goal with H : bool_decide _ = true |- _ => apply bool_decide_eq_true in H end. done.
Qed.

Lemma extend_length r d : length (extend r d) = 32%nat.
Proof. apply sha256_length. Qed.
Lemma foldl_extend_length ds r : length r = 32%nat → length (foldl extend r ds) = 32%nat.
Proof. revert r. induction ds as [|d ds IH]; intros r Hr; simpl; [done|]. apply IH, extend_length. Qed.
(** A collision of SHA-256, or a text whose hash is the register before the first measurement. *)
Definition sha256_broken : Prop := (∃ a b, a ≠ b ∧ sha256 a = sha256 b) ∨ ∃ a, sha256 a = replicate 32 x00.
Lemma register_snoc ds d : register (ds ++ [d]) = extend (register ds) d.
Proof. unfold register. by rewrite foldl_app. Qed.
Lemma register_inj ds1 ds2 :
  Forall (λ d, length d = 32%nat) ds1 → Forall (λ d, length d = 32%nat) ds2 →
  register ds1 = register ds2 → ds1 = ds2 ∨ sha256_broken.
Proof.
  revert ds2. induction ds1 as [|d1 ds1 IH] using rev_ind; intros ds2 H1 H2 Heq.
  - destruct ds2 as [|d ds2 _] using rev_ind; [by left|]. right. right. rewrite register_snoc in Heq. eauto.
  - destruct ds2 as [|d2 ds2 _] using rev_ind.
    { right. right. rewrite register_snoc in Heq. eauto. }
    rewrite !register_snoc in Heq. apply Forall_app in H1 as [H1 Hd1], H2 as [H2 Hd2].
    destruct (decide (register ds1 ++ d1 = register ds2 ++ d2)) as [He|Hne].
    2: { right. left. eexists _, _. split; [exact Hne|exact Heq]. }
    apply app_inj_1 in He as [He ->]; [|by rewrite !(foldl_extend_length _ _ (eq_refl : length (replicate 32 x00) = _))].
    destruct (IH ds2 H1 H2 He) as [->|]; [by left|by right].
Qed.
Lemma measured_sizes i es : Forall (λ e, Forall digest_ok (digests e)) es → Forall (λ d, length d = 32%nat) (measured i es).
Proof.
  intros Hes. apply Forall_forall. intros d (e & He & Hd)%list_elem_of_omap.
  rewrite Forall_forall in Hes. specialize (Hes e He). destruct (registry e =? i); [|done].
  unfold sha256_digest in Hd. apply fmap_Some in Hd as ([a d'] & Hf & ->).
  apply find_some in Hf as [Hin%list_elem_of_In Ha]. apply Z.eqb_eq in Ha. simpl in Ha. subst a.
  rewrite Forall_forall in Hes. specialize (Hes _ Hin). unfold digest_ok in Hes. simpl in Hes.
  injection Hes as Hes. unfold Vec.len in Hes. simpl. lia.
Qed.

End replay.
Definition sample_log : list EventLogEntry :=
  [spec_entry; sample_entry 1 EV_EFI_BOOT_SERVICES_APPLICATION x01 "grub";
   sample_entry 2 EV_IPL x02 "(hd0,gpt2)/grub2/grub.cfg"; sample_entry 2 EV_IPL x03 "/vmlinuz-6.6"].
Definition sample_rems : list (list byte) := [register (measured 1 sample_log); register (measured 2 sample_log)].
Lemma sample_log_digests : Forall (λ e, Forall digest_ok (digests e)) sample_log.
Proof. repeat constructor. Qed.

(** ** What the checks do not cover *)

Section gaps.
Context {O : OpensslCrate}.

(** Entries of other registries, in front of a log. *)
Definition forged (grub cfg kernel initramfs : list byte) : list EventLogEntry :=
  let entry type d text := mkEntry 3 type [(TPM_ALG_SHA256, d)] (bytes text) in
  [entry EV_EFI_BOOT_SERVICES_APPLICATION grub "grub"; entry EV_IPL cfg "grub.cfg";
   entry EV_IPL kernel "/vmlinuz-"; entry EV_IPL initramfs "/initramfs-"].
(** A found component stays found. *)
Lemma firmware_step_keeps s e c k i : grub_config s = Some c → kernel s = Some k → initramfs s = Some i →
  let s' := BootLog.firmware_step s e in
  grub_config s' = Some c ∧ kernel s' = Some k ∧ initramfs s' = Some i ∧ efi_images s `prefix_of` efi_images s'.
Proof.
  intros Hc Hk Hi. unfold BootLog.firmware_step. rewrite Hc, Hk, Hi.
  destruct (sha256_digest e) as [d|]; [|done]. destruct (event_type e =? _); simpl.
  - split_and!; try done. by apply prefix_app_r.
  - destruct (_ =? _); simpl; by split_and!.
Qed.
Lemma firmware_keeps es s c k i : grub_config s = Some c → kernel s = Some k → initramfs s = Some i →
  let s' := foldl BootLog.firmware_step s es in
  grub_config s' = Some c ∧ kernel s' = Some k ∧ initramfs s' = Some i ∧ efi_images s `prefix_of` efi_images s'.
Proof.
  revert s. induction es as [|e es IH]; intros s Hc Hk Hi; simpl; [done|].
  destruct (firmware_step_keeps s e c k i Hc Hk Hi) as (Hc' & Hk' & Hi' & Hp).
  destruct (IH _ Hc' Hk' Hi') as (? & ? & ? & ?). split_and!; try done. by etrans.
Qed.

(** The firmware a log describes is not what was measured: with four entries of a registry that is not
    replayed, any accepted log shows any loader, configuration, kernel and initramfs. *)
Lemma firmware_state_is_forgeable es rems state g c k i :
  BootLog.verify_and_extract_firmware_state es rems = inr state →
  ∃ state', BootLog.verify_and_extract_firmware_state (forged g c k i ++ es) rems = inr state' ∧
    g ∈ efi_images state' ∧ grub_config state' = Some c ∧ kernel state' = Some k ∧ initramfs state' = Some i.
Proof.
  unfold BootLog.verify_and_extract_firmware_state. intros Hv.
  apply bind_inr in Hv as ([] & Hr & _).
  assert (Hr' : BootLog.replay_boot_registries_1_2 (forged g c k i ++ es) rems = inr tt) by exact Hr.
  eexists. rewrite Hr'. split; [reflexivity|]. unfold BootLog.extract_firmware_state. rewrite foldl_app.
  set (s := foldl _ (mkFirmware _ _ _ _) _).
  assert (Hs : s = mkFirmware [g] (Some c) (Some k) (Some i)) by reflexivity.
  clearbody s. subst s. destruct (firmware_keeps es (mkFirmware [g] (Some c) (Some k) (Some i)) c k i eq_refl eq_refl eq_refl) as (? & ? & ? & Hp).
  split_and!; try done. eapply elem_of_prefix; [|exact Hp]. simpl. set_solver.
Qed.

(** A log that names no kernel and no initramfs meets every baseline with an entry for them. *)
Lemma missing_kernel_accepted b state grub cfg k ks :
  hex_decode (fb_grub b) = inr grub → grub ∈ efi_images state →
  hex_decode (fb_grub_cfg b) = inr cfg → grub_config state = Some cfg →
  kernel state = None → initramfs state = None → fb_kernels b = k :: ks →
  Firmware.match_baseline b state = inr tt.
Proof.
  intros Hg Hin Hc Hs Hk Hi Hb. unfold Firmware.match_baseline. rewrite Hg. cbn [mbind result_bind].
  rewrite bool_decide_eq_false_2 by naive_solver. rewrite Hc. cbn [mbind result_bind].
  rewrite bool_decide_eq_false_2 by naive_solver. rewrite Hb. simpl. by rewrite Hk, Hi.
Qed.
End gaps.

(** Two spaces between the fields of a line of a baseline are refused, one is not. *)
Lemma two_spaces_refused :
  let line sep := bytes ("sha1 " ++ sep ++ String.concat "" (replicate 20 "00") ++ " /bin/sh") in
  Ima.parse_baseline (line "") = inr [mkImaId Sha1 (replicate 20 x00) (bytes "/bin/sh")] ∧
  Ima.parse_baseline (line " ") = inl InvalidData.
Proof. split; vm_compute; reflexivity. Qed.
