(* ===== verification/FrameThms.v ===== *)
(** * The CCA sample: theorems on frames and sessions

    Frames arrive as they were sent over any pipe, however it cuts the bytes; and the client hands over no
    key before the boot of the peer was checked. *)

From S2P Require Import Prelude Utf8 Xdr Text Ratls CcaToken RatlsEngine RatlsApi RatlsThms BootLog Policies.
From S2P Require Import Frame BootThms.

#[local] Open Scope string_scope.
#[local] Open Scope list_scope.
#[local] Open Scope Z_scope.

Definition frame (payload : list byte) : list byte := be_bytes 4 (Vec.len payload) ++ payload.
Definition sendable (max : Z) (payload : list byte) : Prop :=
  payload ≠ [] ∧ Vec.len payload ≤ max ∧ Vec.len payload < 2 ^ 32.

(** ** A pipe

    What is written at one end is read at the other; each call moves some of the bytes, at least one. *)
Class Pipe {W S : Type} (T : Transport W S) (a b : S) (held : W → list byte) : Prop := {
  pipe_write data w : data ≠ [] → ∃ n w', s_write a data w = (inr n, w') ∧ 1 ≤ n ≤ Vec.len data ∧
    held w' = held w ++ take (Z.to_nat n) data;
  pipe_read need w : 0 < need → held w ≠ [] → ∃ n d w', s_read b need w = (inr (n, d), w') ∧
    1 ≤ n ≤ need ∧ n ≤ Vec.len (held w) ∧ take (Z.to_nat n) d = take (Z.to_nat n) (held w) ∧
    held w' = drop (Z.to_nat n) (held w)
}.

Lemma drop_fuel (l : list byte) (n : Z) fuel :
  1 ≤ n ≤ Vec.len l → (length l ≤ S fuel)%nat → (length (drop (Z.to_nat n) l) ≤ fuel)%nat.
Proof. unfold Vec.len. rewrite length_drop. lia. Qed.

Section pipe.
Context {W S : Type} {T : Transport W S} {a b : S} {held : W → list byte} {P : Pipe T a b held}.

Lemma transmit_from_pipe fuel data w : (length data ≤ fuel)%nat →
  ∃ w', Frame.transmit_from fuel a data w = (inr tt, w') ∧ held w' = held w ++ data.
Proof.
  revert data w. induction fuel as [|fuel IH]; intros data w Hf.
  - destruct data; [|simpl in Hf; lia]. exists w. by rewrite app_nil_r.
  - destruct data as [|x data]; [exists w; by rewrite app_nil_r|]. cbn [Frame.transmit_from].
    destruct (pipe_write (x :: data) w ltac:(done)) as (n & w1 & Hw & Hn & Hh).
    erewrite rbind_ok by exact Hw.
    destruct (Z.eqb_spec n 0); [lia|]. destruct (Z.ltb_spec (Vec.len (x :: data)) n); [lia|]. cbn [orb].
    destruct (IH (drop (Z.to_nat n) (x :: data)) w1) as (w' & -> & Hh'); [by apply drop_fuel|].
    exists w'. split; [done|]. by rewrite Hh', Hh, <- app_assoc, take_drop.
Qed.
Lemma receive_from_pipe fuel need w rest data : need = Vec.len data → (length data ≤ fuel)%nat → held w = data ++ rest →
  ∃ w', Frame.receive_from fuel b need w = (inr data, w') ∧ held w' = rest.
Proof.
  revert need data w. induction fuel as [|fuel IH]; intros need data w -> Hf Hh.
  - destruct data; [|simpl in Hf; lia]. by exists w.
  - cbn [Frame.receive_from]. destruct data as [|x data]; [by exists w|]. set (l := x :: data) in *.
    assert (Hl : 0 < Vec.len l) by (subst l; unfold Vec.len; simpl; lia).
    destruct (Z.eqb_spec (Vec.len l) 0) as [?|_]; [lia|].
    destruct (pipe_read (Vec.len l) w Hl) as (n & d & w1 & Hr & Hn & Hm & Hd & Hh1); [by rewrite Hh|].
    erewrite rbind_ok by exact Hr. cbv beta iota.
    destruct (Z.eqb_spec n 0); [lia|]. destruct (Z.ltb_spec (Vec.len l) n); [lia|]. cbn [orb].
    assert (Hn' : (Z.to_nat n ≤ length l)%nat) by (unfold Vec.len in *; lia).
    rewrite Hh in Hd, Hh1. rewrite take_app_le in Hd by done. rewrite drop_app_le in Hh1 by done.
    destruct (IH (Vec.len l - n) (drop (Z.to_nat n) l) w1) as (w' & Hrest & Hh'); [|by apply drop_fuel|done|].
    { unfold Vec.len in *. rewrite length_drop. lia. }
    exists w'. split; [|done]. erewrite rbind_ok by exact Hrest. by rewrite Hd, take_drop.
Qed.
Lemma send_frame_pipe max p w : sendable max p →
  ∃ w', Frame.send_frame a p w = (inr tt, w') ∧ held w' = held w ++ frame p.
Proof.
  intros (Hp & _ & Hl). unfold Frame.send_frame, Frame.transmit_all. rewrite bool_decide_eq_false_2 by done.
  destruct (Z.ltb_spec (2 ^ 32 - 1) (Vec.len p)); [lia|]. cbn [orb].
  destruct (transmit_from_pipe _ (be_bytes 4 (Vec.len p)) w (le_n _)) as (w1 & H1 & Hh1).
  erewrite rbind_ok by exact H1.
  destruct (transmit_from_pipe _ p w1 (le_n _)) as (w2 & -> & Hh2). exists w2. split; [done|].
  by rewrite Hh2, Hh1, <- app_assoc.
Qed.
Lemma receive_frame_pipe max p w rest : sendable max p → held w = frame p ++ rest →
  ∃ w', Frame.receive_frame b max w = (inr p, w') ∧ held w' = rest.
Proof.
  intros (Hp & Hm & Hl) Hh. unfold Frame.receive_frame, Frame.receive_all, frame in *. rewrite <- app_assoc in Hh.
  destruct (receive_from_pipe (Z.to_nat 4) 4 w (p ++ rest) (be_bytes 4 (Vec.len p))) as (w1 & H1 & Hh1);
    [by unfold Vec.len; rewrite length_be|by rewrite length_be|done|].
  erewrite rbind_ok by exact H1. assert (Hb : be_value (be_bytes 4 (Vec.len p)) = Vec.len p).
  { rewrite be_value_bytes. apply Z.mod_small. pose proof (Vec.len_nonneg p). lia. }
  rewrite Hb. cbv zeta. assert (0 < Vec.len p) by (destruct p; [done|unfold Vec.len; simpl; lia]).
  destruct (Z.eqb_spec (Vec.len p) 0); [lia|]. destruct (Z.ltb_spec max (Vec.len p)); [lia|]. cbn [orb].
  apply receive_from_pipe; [done|unfold Vec.len; lia|done].
Qed.

(** Sending and receiving some frames in a row. *)
Fixpoint send_frames (ps : list (list byte)) : R W unit :=
  match ps with [] => mret tt | p :: ps => _ ← Frame.send_frame a p; send_frames ps end.
Fixpoint receive_frames (max : Z) (n : nat) : R W (list (list byte)) :=
  match n with
  | 0%nat => mret []
  | Datatypes.S n => p ← Frame.receive_frame b max; ps ← receive_frames max n; mret (p :: ps)
  end.
Lemma send_frames_pipe max ps w : Forall (sendable max) ps →
  ∃ w', send_frames ps w = (inr tt, w') ∧ held w' = held w ++ concat (frame <$> ps).
Proof.
  intros Hps. revert w. induction Hps as [|p ps Hp Hps IH]; intros w; [exists w; by rewrite app_nil_r|].
  cbn [send_frames]. destruct (send_frame_pipe max p w Hp) as (w1 & H1 & Hh1). erewrite rbind_ok by exact H1.
  destruct (IH w1) as (w' & -> & Hh'). exists w'. split; [done|]. rewrite Hh', Hh1, fmap_cons. simpl. by rewrite <- app_assoc.
Qed.
Lemma receive_frames_pipe max ps w rest : Forall (sendable max) ps → held w = concat (frame <$> ps) ++ rest →
  ∃ w', receive_frames max (length ps) w = (inr ps, w') ∧ held w' = rest.
Proof.
  intros Hps. revert w. induction Hps as [|p ps Hp Hps IH]; intros w Hh; [by exists w|].
  rewrite fmap_cons in Hh. cbn [concat] in Hh. rewrite <- app_assoc in Hh. cbn [receive_frames length].
  destruct (receive_frame_pipe max p w _ Hp Hh) as (w1 & H1 & Hh1). erewrite rbind_ok by exact H1.
  destruct (IH w1 Hh1) as (w' & H2 & Hh2). erewrite rbind_ok by exact H2. by exists w'.
Qed.

(** C32. Messages arrive as they were sent, whole and in order, however the connection cuts the bytes: sent into
    an empty pipe, any messages of an allowed length are received, and the pipe is empty again. *)
Theorem frames_roundtrip max ps w :
  Forall (sendable max) ps → held w = [] →
  ∃ w1 w2, send_frames ps w = (inr tt, w1) ∧ receive_frames max (length ps) w1 = (inr ps, w2) ∧ held w2 = [].
Proof.
  intros Hps Hw. destruct (send_frames_pipe max ps w Hps) as (w1 & H1 & Hh1). rewrite Hw in Hh1. simpl in Hh1.
  destruct (receive_frames_pipe max ps w1 [] Hps) as (w2 & H2 & Hh2); [by rewrite app_nil_r|]. eauto.
Qed.
End pipe.

(** A pipe that moves three bytes at a time. *)
#[global] Instance slow_transport : Transport (list byte) unit := {|
  s_write _ data w := (inr (Vec.len (take 3 data)), w ++ take 3 data);
  s_read _ need w := let d := take (Z.to_nat (need `min` 3)) w in (inr (Vec.len d, d), drop (length d) w)
|}.
Lemma take_len_min (l : list byte) n : take (n `min` length l) l = take n l.
Proof. destruct (Nat.le_ge_cases n (length l)); [by rewrite Nat.min_l|by rewrite Nat.min_r, firstn_all, take_ge]. Qed.
#[global] Instance slow_pipe : Pipe slow_transport () () id.
Proof.
  split.
  - intros data w Hd. eexists _, _. split; [done|]. unfold Vec.len. rewrite length_take, Nat2Z.id.
    split; [destruct data; [done|cbn [length]; lia]|]. by rewrite take_len_min.
  - intros need w Hn Hw. eexists _, _, _. split; [done|]. unfold Vec.len, id in *. rewrite Nat2Z.id, firstn_all, length_take.
    destruct w as [|x w]; [done|]. cbn [length] in *. split_and!; [lia..| |done].
    symmetry. apply (take_len_min (x :: w)).
Qed.
Lemma frames_roundtrip_witness :
  ∃ w1 w2, send_frames (a := ()) [bytes "hello"; ATTESTATION_PASS] [] = (inr tt, w1) ∧
    receive_frames (b := ()) 4096 2 w1 = (inr [bytes "hello"; ATTESTATION_PASS], w2) ∧ id w2 = [].
Proof.
  apply (frames_roundtrip 4096 [bytes "hello"; ATTESTATION_PASS] []); [|reflexivity].
  repeat constructor; try discriminate; vm_compute; congruence.
Defined.

(** ** The client *)

(** What the program reads and writes, seen from outside: [out] is all that was ever written to the stream;
    reading writes nothing, and none of it touches the measurements the callback stored. *)
Class Watched {W S : Type} {O : OpensslCrate} (H : Host W) (T : Transport W S) (Ce : RemCell W) (s : S)
    (out : W → list byte) : Prop := {
  watch_write data w r w' : s_write s data w = (r, w') → get_rems w' = get_rems w ∧
    match r with
    | inr n => 0 ≤ n ∧ out w' = out w ++ take (Z.to_nat n) data
    | inl _ => ∃ k, out w' = out w ++ take k data
    end;
  watch_read need w r w' : s_read s need w = (r, w') → get_rems w' = get_rems w ∧ out w' = out w;
  watch_file p w r w' : fs_read p w = (r, w') → get_rems w' = get_rems w ∧ out w' = out w
}.

Section client.
Context {O : OpensslCrate} {J : JsonCrate} {W S : Type} {H : Host W} {I : Inspect W} {T : Transport W S} {Ce : RemCell W}.
Context {s : S} {out : W → list byte} {Wa : Watched H T Ce s out}.

(** [m] writes [F], or a first part of it when it fails. *)
Definition sends {A} (F : list byte) (m : R W A) : Prop :=
  ∀ w r w', m w = (r, w') → get_rems w' = get_rems w ∧
    ∃ o, out w' = out w ++ o ∧ o `prefix_of` F ∧ ((∃ a, r = inr a) → o = F).

Lemma sends_silent {A} (m : R W A) :
  (∀ w r w', m w = (r, w') → get_rems w' = get_rems w ∧ out w' = out w) → sends [] m.
Proof. intros Hm w r w' [? Ho]%Hm. split; [done|]. exists []. by rewrite app_nil_r. Qed.
Lemma sends_pure {A} (r : Result A) : sends [] (λ w, (r, w)).
Proof. apply sends_silent. by intros w r' w' [= <- <-]. Qed.
Lemma sends_fail {A} (e : RaTlsError) F : sends F (fail e : R W A).
Proof. intros w r w' [= <- <-]. split; [done|]. exists []. rewrite app_nil_r. split_and!; [done|apply prefix_nil|by intros [? ?]]. Qed.
Lemma sends_bind {A B} F G (m : R W A) (f : A → R W B) :
  sends F m → (∀ a, sends G (f a)) → sends (F ++ G) (m ≫= f).
Proof.
  intros Hm Hf w r w' Hr. unfold mbind, r_bind in Hr. destruct (m w) as [[e|a] w1] eqn:Hw;
    destruct (Hm _ _ _ Hw) as (Hg & o & Ho & Hp & Hall).
  - injection Hr as <- <-. split; [done|]. exists o. split_and!; [done|by apply prefix_app_r|by intros [? ?]].
  - destruct (Hf a _ _ _ Hr) as (Hg' & o' & Ho' & Hp' & Hall'). split; [congruence|].
    rewrite (Hall ltac:(eauto)) in Ho. exists (F ++ o'). rewrite Ho', Ho, <- app_assoc.
    split_and!; [done|by apply prefix_app|]. intros Hr'. by rewrite Hall'.
Qed.
Lemma sends_silent_bind {A B} F (m : R W A) (f : A → R W B) : sends [] m → (∀ a, sends F (f a)) → sends F (m ≫= f).
Proof. apply (sends_bind []). Qed.

Lemma sends_transmit fuel data : (length data ≤ fuel)%nat → sends data (Frame.transmit_from fuel s data).
Proof.
  revert data. induction fuel as [|fuel IH]; intros data Hf.
  { destruct data; [apply sends_pure|simpl in Hf; lia]. }
  destruct data as [|x data]; [apply sends_pure|]. cbn [Frame.transmit_from]. set (l := x :: data) in *.
  intros w r w' Hr. unfold mbind, r_bind in Hr. destruct (s_write s l w) as [[e|n] w1] eqn:Hw;
    destruct (watch_write _ _ _ _ Hw) as (Hg & Ho).
  - injection Hr as <- <-. destruct Ho as [k Ho]. split; [done|]. exists (take k l).
    split_and!; [done|apply prefix_take|by intros [? ?]].
  - destruct Ho as [Hn Ho]. destruct (_ || _) eqn:Hb.
    { injection Hr as <- <-. split; [done|]. exists (take (Z.to_nat n) l).
      split_and!; [done|apply prefix_take|by intros [? ?]]. }
    apply orb_false_iff in Hb as [?%Z.eqb_neq ?%Z.ltb_ge].
    destruct (IH (drop (Z.to_nat n) l) ltac:(apply drop_fuel; [lia|done]) _ _ _ Hr) as (Hg' & o & Ho' & Hp & Hall).
    split; [congruence|]. exists (take (Z.to_nat n) l ++ o). rewrite Ho', Ho, <- app_assoc. split_and!; [done| |].
    + rewrite <- (take_drop (Z.to_nat n) l) at 2. by apply prefix_app.
    + intros Hr'. by rewrite (Hall Hr'), take_drop.
Qed.
Lemma sends_frame p : sends (frame p) (Frame.send_frame s p).
Proof.
  unfold Frame.send_frame. destruct (_ || _); [apply sends_fail|].
  apply sends_bind; [by apply sends_transmit|]. intros _. by apply sends_transmit.
Qed.
Lemma sends_receive fuel need : sends [] (Frame.receive_from fuel s need).
Proof.
  revert need. induction fuel as [|fuel IH]; intros need; [apply sends_pure|]. cbn [Frame.receive_from].
  destruct (_ =? _); [apply sends_pure|]. apply sends_silent_bind; [apply sends_silent, watch_read|].
  intros [n d]. destruct (_ || _); [apply sends_fail|]. apply sends_silent_bind; [apply IH|]. intros ?. apply sends_pure.
Qed.
Lemma sends_receive_frame max : sends [] (Frame.receive_frame s max).
Proof.
  apply sends_silent_bind; [apply sends_receive|]. intros size. cbv zeta. destruct (_ || _); [apply sends_fail|].
  apply sends_receive.
Qed.
Lemma sends_read_file p : sends [] (read_file p).
Proof.
  apply sends_silent. intros w r w'. unfold read_file. destruct (fs_read p w) as [d w1] eqn:Hf.
  intros [= _ <-]. exact (watch_file _ _ _ _ Hf).
Qed.
Lemma sends_read_to_string p : sends [] (Ima.read_to_string p).
Proof.
  apply sends_silent_bind; [apply sends_read_file|]. intros t. destruct (is_utf8 t); [apply sends_pure|apply sends_fail].
Qed.
Lemma sends_check_ima args :
  sends (if a_ima_log args then frame REQUEST_IMA_LOG else []) (Session.check_ima args s).
Proof.
  unfold Session.check_ima. destruct (a_ima_log args); [|apply sends_pure]. rewrite <- (app_nil_r (frame _)).
  apply sends_bind; [apply sends_frame|]. intros _. apply sends_silent_bind; [apply sends_receive_frame|]. intros d.
  apply sends_silent_bind; [apply sends_pure|]. intros es. destruct (a_digest args); [|apply sends_pure].
  apply sends_silent_bind; [|intros ?; apply sends_pure].
  apply sends_silent_bind; [apply sends_read_to_string|]. intros ?. apply sends_pure.
Qed.
Lemma sends_check_boot args : a_boot_log args = true →
  sends (frame REQUEST_CCEL_TABLE ++ frame REQUEST_EVENT_LOG) (Session.check_boot args s).
Proof.
  unfold Session.check_boot. intros ->. cbn [negb]. apply sends_bind; [apply sends_frame|]. intros _.
  apply sends_silent_bind; [apply sends_receive_frame|]. intros ccel.
  apply sends_silent_bind; [apply sends_pure|]. intros _. rewrite <- (app_nil_r (frame _)).
  apply sends_bind; [apply sends_frame|]. intros _. apply sends_silent_bind; [apply sends_receive_frame|]. intros d.
  apply sends_silent_bind; [apply sends_pure|]. intros es.
  apply sends_silent_bind; [apply sends_silent; by intros ? ? ? [= <- <-]|]. intros rems.
  apply sends_silent_bind; [apply sends_pure|]. intros st. apply sends_pure.
Qed.
Lemma sends_check_firmware args st : sends [] (Session.check_firmware args st).
Proof.
  unfold Session.check_firmware. destruct (a_firmware args); [|apply sends_pure]. destruct st; [|apply sends_fail].
  apply sends_silent_bind; [|intros ?; apply sends_pure].
  apply sends_silent_bind; [apply sends_read_to_string|]. intros ?. apply sends_pure.
Qed.

(** The boot of a peer was checked: an event log replays to the stored measurements, and the firmware it
    describes meets the baseline of the file. *)
Definition boot_checked (path : list byte) (stored : option (list (list byte))) : Prop :=
  ∃ log entries rems baseline w w',
    parse_event_log log = inr entries ∧ stored = Some rems ∧
    BootLog.replay_boot_registries_1_2 entries rems = inr tt ∧
    Firmware.load_firmware_baseline path w = (inr baseline, w') ∧
    Firmware.match_baseline baseline (BootLog.extract_firmware_state entries) = inr tt.
Definition boot_ok (stored : option (list (list byte))) (st : FirmwareState) : Prop :=
  ∃ log entries rems, parse_event_log log = inr entries ∧ stored = Some rems ∧
    BootLog.replay_boot_registries_1_2 entries rems = inr tt ∧ st = BootLog.extract_firmware_state entries.
Lemma check_boot_ok args w o w' : a_boot_log args = true → Session.check_boot args s w = (inr o, w') →
  ∃ st, o = Some st ∧ boot_ok (get_rems w) st.
Proof.
  unfold Session.check_boot. intros -> Hr. cbn [negb] in Hr.
  apply rbind_inr in Hr as ([] & w1 & H1%sends_frame & Hr).
  apply rbind_inr in Hr as (ccel & w2 & H2%sends_receive_frame & Hr).
  apply rbind_inr in Hr as (tab & w3 & H3%sends_pure & Hr).
  apply rbind_inr in Hr as ([] & w4 & H4%sends_frame & Hr).
  apply rbind_inr in Hr as (log & w5 & H5%sends_receive_frame & Hr).
  apply rbind_inr in Hr as (es & w6 & [Hp ->]%lift_inr & Hr).
  apply rbind_inr in Hr as (rems & w7 & Hs & Hr). injection Hs as Hs <-. apply or_err_inr in Hs.
  apply rbind_inr in Hr as (st & w8 & [Hv <-]%lift_inr & Hr). injection Hr as <- _.
  apply bind_inr in Hv as ([] & Hv & Hst). injection Hst as <-.
  exists (BootLog.extract_firmware_state es). split; [done|]. exists log, es, rems.
  repeat match goal with H : _ ∧ ∃ _, _ |- _ => destruct H as [? _] end. split_and!; [done|congruence|done|done].
Qed.

(** A session that checks the boot sends only requests before it has. *)
Lemma session_needs_checked_boot args path w r w' :
  a_boot_log args = true → a_firmware args = Some path →
  Session.client_session args s w = (r, w') →
  ((∃ e, r = inl e) ∧ ∃ o, out w' = out w ++ o ∧
     o `prefix_of` (if a_ima_log args then frame REQUEST_IMA_LOG else []) ++
       frame REQUEST_CCEL_TABLE ++ frame REQUEST_EVENT_LOG) ∨
  boot_checked path (get_rems w).
Proof.
  intros Hb Hf Hr. unfold Session.client_session in Hr. unfold mbind at 1, r_bind at 1 in Hr.
  destruct (Session.check_ima args s w) as [[e|u] w1] eqn:H1; pose proof (sends_check_ima _ _ _ _ H1) as (Hg1 & o1 & Ho1 & Hp1 & Ha1).
  { injection Hr as <- <-. left. split; [eauto|]. exists o1. split; [done|]. by apply prefix_app_r. }
  rewrite (Ha1 ltac:(eauto)) in Ho1. unfold mbind at 1, r_bind at 1 in Hr.
  destruct (Session.check_boot args s w1) as [[e|st] w2] eqn:H2; pose proof (sends_check_boot _ Hb _ _ _ H2) as (Hg2 & o2 & Ho2 & Hp2 & Ha2).
  { injection Hr as <- <-. left. split; [eauto|]. eexists. rewrite Ho2, Ho1, <- app_assoc. split; [done|]. by apply prefix_app. }
  rewrite (Ha2 ltac:(eauto)) in Ho2. unfold mbind at 1, r_bind at 1 in Hr.
  destruct (check_boot_ok _ _ _ _ Hb H2) as (state & -> & log & es & rems & Hp & Hrm & Hrep & ->).
  destruct (Session.check_firmware args (Some _) w2) as [[e|u3] w3] eqn:H3; pose proof (sends_check_firmware _ _ _ _ _ H3) as (Hg3 & o3 & Ho3 & Hp3 & _).
  { injection Hr as <- <-. left. split; [eauto|]. apply prefix_nil_inv in Hp3. subst o3. rewrite app_nil_r in Ho3.
    eexists. rewrite Ho3, Ho2, Ho1, <- app_assoc. done. }
  right. unfold Session.check_firmware in H3. rewrite Hf in H3.
  apply rbind_inr in H3 as (bl & w4 & Hl & [Hm _]%lift_inr). destruct u3.
  exists log, es, rems, bl, w2, w4. split_and!; [done|congruence|done..].
Qed.
End client.

(** ** The program of the client *)

(** The cell keeps what is stored. *)
Class RemCellLaws {W : Type} (Ce : RemCell W) : Prop := get_set_rems o w : get_rems (set_rems o w) = o.

Section program.
Context {O : OpensslCrate} {J : JsonCrate} {C : CborCrate} {Co : CosetCrate} {W S TH : Type} {H : Host W} {I : Inspect W}.
Context {T : Transport W S} {Ce : RemCell W} {CL : RemCellLaws Ce} {DL : DigestLaws O}.
Context {out : S → W → list byte} {Wa : ∀ s, Watched H T Ce s (out s)}.
Variables (openssl_crypto : CryptoWrapper W) (openssl_tls : TlsWrapper W S TH) (connect : R W S).
Implicit Types (args : ClientArgs) (e : Evidence).

(** The handshake that gave [s] ended with a peer whose evidence is [e]. *)
Definition attested_stream (s : S) e : Prop :=
  ∃ hs w n w' p, hs_finish openssl_tls hs w = (inr n, w') ∧ stream n = s ∧ peer n = Some p ∧ peer_attested p e.

Lemma client_negotiate_ends (handle : RaTlsHandle W S TH) s w s' w' :
  server (conf handle) = false → Engine.rats_tls_negotiate handle s w = (inr s', w') →
  ∃ hs w1 n w2 p e w3, hs_finish (tls handle) hs w1 = (inr n, w2) ∧ stream n = s' ∧ peer n = Some p ∧
    peer_attested p e ∧ Engine.verify_user_callback handle e w3 = (inr tt, w').
Proof.
  unfold Engine.rats_tls_negotiate, Engine.create_ratls_client. intros -> Hn.
  apply rbind_inr in Hn as (hs & w1 & _ & Hn). apply rbind_inr in Hn as (b & w2 & _ & Hn).
  apply rbind_inr in Hn as (u & w3 & _ & Hn). apply rbind_inr in Hn as (n & w4 & Hf & Hn).
  apply rbind_inr in Hn as (p & w5 & [Hp%or_err_inr ->]%lift_inr & Hn).
  apply rbind_inr in Hn as (e & w6 & He%verify_handshake_sound & Hn).
  apply rbind_inr in Hn as ([] & w7 & Hc & Hn). injection Hn as <- <-.
  exists hs, w3, n, w5, p, e, w6. split_and!; done.
Qed.
Lemma init_handle c w handle w' : Api.rats_tls_init openssl_crypto openssl_tls c w = (inr handle, w') →
  conf handle = c ∧ tls handle = openssl_tls.
Proof.
  unfold Api.rats_tls_init. intros Hi. apply rbind_inr in Hi as (u & w1 & _ & Hi).
  apply rbind_inr in Hi as (ci & w2 & _ & Hi). apply rbind_inr in Hi as (u2 & w3 & _ & Hi).
  injection Hi as <- _. simpl. by destruct (tls_type c).
Qed.
(** The stream of a client that checks the boot: its peer is attested, and the cell holds the measurements
    of its evidence, which has the expected RIM. *)
Lemma client_connect_attested args w s w' : a_boot_log args = true →
  Session.client_connect openssl_crypto openssl_tls connect args w = (inr s, w') →
  ∃ e rems, attested_stream s e ∧ BootLog.verified_boot_rems_from_claims (evidence_json e) = inr rems ∧
    get_rems w' = Some rems ∧ ∃ rim, Session.expected_rim (a_rim args) = inr rim ∧ Session.check_rim rim e = inr tt.
Proof.
  intros Hb Hc. unfold Session.client_connect in Hc. apply rbind_inr in Hc as (u & w1 & _ & Hc).
  apply rbind_inr in Hc as (cert & w2 & _ & Hc). apply rbind_inr in Hc as (tv & w3 & _ & Hc).
  apply rbind_inr in Hc as (h & w4 & [Hcf Htl]%init_handle & Hc). apply rbind_inr in Hc as (h' & w5 & Hcb & Hc).
  apply rbind_inr in Hc as (s0 & w6 & _ & Hc).
  unfold Session.configure_client in Hcb. apply rbind_inr in Hcb as (cb & w7 & [Hcl _]%lift_inr & Hcb).
  apply rbind_inr in Hcb as (u' & w8 & _ & Hcb). injection Hcb as Hh' _.
  unfold Session.client_callback in Hcl. apply bind_inr in Hcl as (rim & Hrim & Hcl).
  rewrite Hb, andb_false_r in Hcl. injection Hcl as <-. subst h'.
  apply client_negotiate_ends in Hc as (hs & wa & n & wb & p & e & wc & Hf & Hs & Hp & Ha & Hcall); [|simpl; by rewrite Hcf].
  simpl in Hf. rewrite Htl in Hf. unfold Engine.verify_user_callback in Hcall. simpl in Hcall.
  apply rbind_inr in Hcall as ([] & wd & [Hr ->]%lift_inr & Hcall).
  apply rbind_inr in Hcall as (u3 & we & _ & Hcall).
  apply rbind_inr in Hcall as (rems & wf & [Hm ->]%lift_inr & Hcall). injection Hcall as <-.
  exists e, rems. split_and!; [by exists hs, wa, n, wb, p|done|apply get_set_rems|by exists rim].
Qed.

(** C9. No key without an attested boot: a client that is told to check the boot of the server against a baseline
    either gets no stream, or fails having sent nothing but the requests for the logs, or the peer of the
    stream is attested, an event log replays to the measurements of its evidence, and the firmware it
    describes meets the baseline. *)
Theorem key_needs_attested_boot args path w r w' :
  a_boot_log args = true → a_firmware args = Some path →
  Session.client_run openssl_crypto openssl_tls connect args w = (r, w') →
  (∃ x, Session.client_connect openssl_crypto openssl_tls connect args w = (inl x, w') ∧ r = inl x) ∨
  ∃ s w1, Session.client_connect openssl_crypto openssl_tls connect args w = (inr s, w1) ∧
    (((∃ x, r = inl x) ∧ ∃ o, out s w' = out s w1 ++ o ∧
        o `prefix_of` (if a_ima_log args then frame REQUEST_IMA_LOG else []) ++
          frame REQUEST_CCEL_TABLE ++ frame REQUEST_EVENT_LOG) ∨
     ∃ e rems, attested_stream s e ∧ BootLog.verified_boot_rems_from_claims (evidence_json e) = inr rems ∧
       boot_checked path (Some rems)).
Proof.
  intros Hb Hf. unfold Session.client_run, mbind, r_bind.
  destruct (Session.client_connect _ _ _ args w) as [[x|s] w1] eqn:Hc; intros Hr.
  { injection Hr as <- <-. left. by exists x. }
  right. exists s, w1. split; [done|].
  destruct (session_needs_checked_boot (s := s) (out := out s) _ _ _ _ _ Hb Hf Hr) as [?|Hk]; [by left|]. right.
  destruct (client_connect_attested _ _ _ _ Hb Hc) as (e & rems & Ha & Hm & Hg & _).
  rewrite Hg in Hk. by exists e, rems.
Qed.
End program.

(** A server that answers with a table, a log and echoes; the client of it has a baseline that fits. *)
Record client_world := mkWorld { w_sent : list byte; w_incoming : list byte; w_rems : option (list (list byte)) }.
#[global] Instance client_host : Host client_world := {|
  host_now w := (Some 50, w); path_exists _ _ := true; fs_write _ _ w := (true, w);
  fs_read _ w := (Some (bytes "file"), w)
|}.
#[global] Instance client_transport : Transport client_world unit := {|
  s_write _ data w := (inr (Vec.len data), mkWorld (w_sent w ++ data) (w_incoming w) (w_rems w));
  s_read _ need w := let d := take (Z.to_nat need) (w_incoming w) in
    (inr (Vec.len d, d), mkWorld (w_sent w) (drop (length d) (w_incoming w)) (w_rems w))
|}.
#[global] Instance client_cell : RemCell client_world := {|
  get_rems := w_rems; set_rems m w := mkWorld (w_sent w) (w_incoming w) m
|}.
#[global] Instance client_cell_laws : RemCellLaws client_cell.
Proof. done. Qed.
#[global] Instance client_inspect : Inspect client_world := λ _ _, Some (mkMeta 4 true false).
#[global] Instance client_watched s : Watched client_host client_transport client_cell s w_sent.
Proof.
  split; simpl; intros; simplify_eq; simpl; [|done..]. split; [done|]. split; [apply Vec.len_nonneg|].
  unfold Vec.len. by rewrite Nat2Z.id, firstn_all.
Qed.
Definition hex_of (b : byte) : JsonValue := JString (hex_encode (replicate 32 b)).
#[global] Instance client_json : JsonCrate := λ _, Some (JObject
  [(bytes "hash_alg", JString (bytes "sha-256")); (bytes "grub", hex_of x01); (bytes "grub.cfg", hex_of x02);
   (bytes "kernels", JArray [JObject [(bytes "kernel", hex_of x03)]])]).
Definition client_args : ClientArgs :=
  mkClientArgs (bytes "hello") None false false true (Some (bytes "fw.json")) None None None (Some (bytes "key")) 4096
    Ecc256Sha256 (mkCertOptions None None []) (mkTlsOptions false false None None).
Definition client_crypto : CryptoWrapper client_world :=
  mkCrypto _ (λ _ w, (inl Unsupported, w)) (λ _ _ w, (inl Unsupported, w)) (λ _ _ w, (inl Unsupported, w)).
Definition client_tls : TlsWrapper client_world unit unit := mkTls _ _ _
  (λ _ w, (inr tt, w)) (λ s _ _ w, (inr s, w)) (λ s _ _ w, (inr s, w)) (λ _ w, (inr None, w)) (λ _ _ w, (inr tt, w))
  (λ s w, (inr (mkNegotiated s (Some sample_peer)), w)).
Definition client_start : client_world := mkWorld []
  (frame (bytes "CCEL" ++ replicate 52 x00) ++
   frame (render_first (replicate 20 x00) spec_entry ++ concat (render_entry <$> tail sample_log)) ++
   frame (bytes "hello") ++ frame ATTESTATION_PASS) None.
Lemma key_needs_attested_boot_witness :
  (Session.client_run client_crypto client_tls (λ w, (inr tt, w)) client_args client_start).1 = inr tt ∧
  ∃ e rems, attested_stream client_tls () e ∧ BootLog.verified_boot_rems_from_claims (evidence_json e) = inr rems ∧
    boot_checked (bytes "fw.json") (Some rems).
Proof.
  split; [vm_compute; reflexivity|].
  destruct (key_needs_attested_boot (out := λ _, w_sent) client_crypto client_tls (λ w, (inr tt, w)) client_args
    (bytes "fw.json") client_start _ _ eq_refl eq_refl (surjective_pairing _))
    as [(x & _ & Hx)|([] & w1 & _ & [[[x Hx] _]|Hc])];
    [vm_compute in Hx; discriminate|vm_compute in Hx; discriminate|exact Hc].
Defined.
