(* ===== verification/Fdt.v ===== *)
(** * The migration VM: the device tree

    [confidential-migvm/src/fdt.rs]: a flattened device tree is read from memory by pointers, collected into
    nodes, and searched for memory, devices and interrupt controllers. *)

From S2P Require Import Prelude Utf8 Xdr Text.

#[local] Open Scope string_scope.
#[local] Open Scope list_scope.
#[local] Open Scope Z_scope.

Definition FDT_MAGIC : Z := 0xD00DFEED.
Definition FDT_BEGIN_NODE : Z := 1.
Definition FDT_END_NODE : Z := 2.
Definition FDT_PROP : Z := 3.
Definition FDT_NOP : Z := 4.
Definition FDT_END : Z := 9.

Record VirtioMmioDevice := mkVirtio { v_base : Z; v_size : Z; v_irq : Z }.
Record GicInfo := mkGic { gicd_base : Z; gicd_size : Z; gicr_base : Z; gicr_size : Z; gic_version : Z }.
Record MemRegion := mkRegion { mr_base : Z; mr_size : Z }.
Record PcieInfo := mkPcie { ecam_base : Z; ecam_size : Z; mmio_base : Z; mmio_size : Z; bus_start : Z; bus_end : Z }.
Record FdtInfo := mkInfo {
  memory : list MemRegion; virtio_devices : list VirtioMmioDevice; gic : option GicInfo; pcie : option PcieInfo;
  interrupt_cells : Z
}.
(** A [String] whose characters come from single bytes is the list of these bytes. *)
Record RawProp := mkProp { prop_name : list byte; prop_data : Z; prop_len : Z }.
Inductive CollectedNode := mkNode (props : list RawProp) (children : list CollectedNode).
Record FdtParser := mkParser { fdt_data : Z; struct_offset : Z; strings_offset : Z; struct_size : Z }.

(** [(v + 3) & !3] *)
Definition align4 (v : Z) : Z := (v + 3) / 4 * 4.

Module Fdt.
Section memory.
(** The memory the pointers lead to. *)
Variable mem : Z → byte.
(** How many turns a loop over bytes is followed for; a longer one gives [None]. *)
Variable bound : nat.

(** [read_unaligned(..).to_be()] on a little-endian machine *)
Definition read_u32_from (data : Z) : Z := be_value [mem data; mem (data + 1); mem (data + 2); mem (data + 3)].
Definition read_u32 (base offset : Z) : Z := read_u32_from (base + offset).
(** The bytes before the first zero *)
Fixpoint c_str (fuel : nat) (a : Z) : option (list byte) :=
  match fuel with
  | 0%nat => None
  | S fuel => if decide (mem a = x00) then Some [] else s ← c_str fuel (a + 1); Some (mem a :: s)
  end.
Definition skip_string (base offset : Z) : option Z :=
  s ← c_str bound (base + offset);
  Some (align4 (offset + Z.of_nat (length s) + 1)).
Definition get_string_name (p : FdtParser) (offset : Z) : option (list byte) :=
  c_str bound (fdt_data p + strings_offset p + offset).
(** At most [n] bytes *)
Fixpoint read_string (n : nat) (data : Z) : list byte :=
  match n with
  | 0%nat => []
  | S n => if decide (mem data = x00) then [] else mem data :: read_string n (data + 1)
  end.
Definition read_string_from (data max_len : Z) : list byte := read_string (Z.to_nat max_len) data.
Definition read_cells (data cells : Z) : Z :=
  if cells =? 0 then 0
  else if cells =? 1 then read_u32_from data
  else if cells =? 2 then Z.lor (Z.shiftl (read_u32_from data) 32) (read_u32_from (data + 4))
  else 0.

Definition new (fdt_ptr : Z) : sum string FdtParser :=
  if fdt_ptr =? 0 then inl "FDT pointer is NULL" else
  if negb (read_u32_from fdt_ptr =? FDT_MAGIC) then inl "Invalid FDT magic" else
  inr (mkParser fdt_ptr (read_u32_from (fdt_ptr + 8)) (read_u32_from (fdt_ptr + 12)) (read_u32_from (fdt_ptr + 36))).

(** The loop of [collect_node] with what it has collected, and where the offset is at the end *)
Fixpoint collect_node (p : FdtParser) (fuel : nat) (base end_ : Z) (props : list RawProp) (children : list CollectedNode)
    (offset : Z) : option (CollectedNode * Z) :=
  match fuel with
  | 0%nat => None
  | S fuel =>
      if end_ <=? base + offset then Some (mkNode props children, offset) else
      let token := read_u32 base offset in
      let offset := offset + 4 in
      if token =? FDT_BEGIN_NODE then
        offset ← skip_string base offset;
        '(child, offset) ← collect_node p fuel base end_ [] [] offset;
        collect_node p fuel base end_ props (children ++ [child]) offset
      else if token =? FDT_END_NODE then Some (mkNode props children, offset)
      else if token =? FDT_PROP then
        let len := read_u32 base offset in
        let name_off := read_u32 base (offset + 4) in
        name ← get_string_name p name_off;
        let offset := offset + 8 in
        collect_node p fuel base end_ (props ++ [mkProp name (base + offset) len]) children (offset + align4 len)
      else if token =? FDT_END then Some (mkNode props children, offset)
      else collect_node p fuel base end_ props children offset
  end.

(** ** What a node describes *)

Definition find_prop_raw (props : list RawProp) (name : string) : option (Z * Z) :=
  (λ p, (prop_data p, prop_len p)) <$> List.find (λ p, bool_decide (prop_name p = bytes name)) props.
Definition find_prop_str (props : list RawProp) (name : string) : option (list byte) :=
  (λ dl, read_string_from dl.1 dl.2) <$> find_prop_raw props name.
(** The last property of the name that has four bytes *)
Definition cells_prop (props : list RawProp) (name : string) : option Z :=
  foldl (λ acc p, if bool_decide (prop_name p = bytes name) && (4 <=? prop_len p)
                  then Some (read_u32_from (prop_data p)) else acc) None props.
(** [(addr_cells + size_cells) as usize * 4], where the addition is one of [u32] *)
Definition entry_size (addr_cells size_cells : Z) : Z := Int.u32 (addr_cells + size_cells) * 4.
Definition parse_reg (data len addr_cells size_cells : Z) : option MemRegion :=
  let e := entry_size addr_cells size_cells in
  if (len <? e) || (e =? 0) then None else
  Some (mkRegion (read_cells data addr_cells) (read_cells (data + addr_cells * 4) size_cells)).
Definition parse_gic_reg (data len addr_cells size_cells : Z) (g : GicInfo) : GicInfo :=
  let e := entry_size addr_cells size_cells in
  if len <? e then g else
  let base := read_cells data addr_cells in
  let size := read_cells (data + addr_cells * 4) size_cells in
  if e * 2 <=? len then
    mkGic base size (read_cells (data + e) addr_cells) (read_cells (data + e + addr_cells * 4) size_cells) (gic_version g)
  else mkGic base size (gicr_base g) (gicr_size g) (gic_version g).
Definition parse_irq (props : list RawProp) (interrupt_cells : Z) : Z :=
  match find_prop_raw props "interrupts" with
  | Some (data, len) =>
      if (interrupt_cells =? 3) && (12 <=? len) then Int.u32 (read_u32_from (data + 4) + 32)
      else if 4 <=? len then read_u32_from data
      else 0
  | None => 0
  end.
(** The first range of the 32-bit memory space: its address and size *)
Fixpoint find_range (fuel : nat) (rdata rlen entry parent_cells size_cells off : Z) : option (option (Z * Z)) :=
  match fuel with
  | 0%nat => None
  | S fuel =>
      if off + entry <=? rlen then
        if Z.land (Z.shiftr (read_u32_from (rdata + off)) 24) 3 =? 2 then
          Some (Some (read_cells (rdata + off + 12) parent_cells,
                      read_cells (rdata + off + 12 + parent_cells * 4) size_cells))
        else find_range fuel rdata rlen entry parent_cells size_cells (off + entry)
      else Some None
  end.
Definition parse_pcie (props : list RawProp) (addr_cells size_cells data len : Z) : option PcieInfo :=
  let '(eb, es) :=
    if entry_size addr_cells size_cells <=? len
    then (read_cells data addr_cells, read_cells (data + addr_cells * 4) size_cells) else (0, 0) in
  range ← match find_prop_raw props "ranges" with
          | Some (rdata, rlen) =>
              find_range bound rdata rlen (Int.u32 (Int.u32 (3 + addr_cells) + size_cells) * 4) addr_cells size_cells 0
          | None => Some None
          end;
  let '(mb, ms) := default (0, 0) range in
  Some (mkPcie eb es mb ms 0 255).

(** [str::contains] *)
Fixpoint contains (l needle : list byte) : bool :=
  bool_decide (is_Some (strip needle l)) || match l with [] => false | _ :: l => contains l needle end.

(** The part of [process_tree] before the children: the information, and the cells for the children *)
Definition process_node (props : list RawProp) (info : FdtInfo) (parent_addr_cells parent_size_cells : Z) :
    option (FdtInfo * Z * Z) :=
  let addr_cells := default parent_addr_cells (cells_prop props "#address-cells") in
  let size_cells := default parent_size_cells (cells_prop props "#size-cells") in
  let compatible := find_prop_str props "compatible" in
  let reg := find_prop_raw props "reg" in
  let set_gic version :=
    let g := (λ dl, parse_gic_reg dl.1 dl.2 addr_cells size_cells (mkGic 0 0 0 0 version)) <$> reg in
    mkInfo (memory info) (virtio_devices info) (match g with Some _ => g | None => gic info end) (pcie info)
      (default (interrupt_cells info) (cells_prop props "#interrupt-cells")) in
  info ←
    (if bool_decide (find_prop_str props "device_type" = Some (bytes "memory")) then
       Some match reg ≫= λ dl, parse_reg dl.1 dl.2 addr_cells size_cells with
            | Some region => mkInfo (memory info ++ [region]) (virtio_devices info) (gic info) (pcie info) (interrupt_cells info)
            | None => info
            end
     else if bool_decide (compatible = Some (bytes "virtio,mmio")) then
       Some match reg ≫= λ dl, parse_reg dl.1 dl.2 addr_cells size_cells with
            | Some region =>
                mkInfo (memory info)
                  (virtio_devices info ++ [mkVirtio (mr_base region) (mr_size region) (parse_irq props (interrupt_cells info))])
                  (gic info) (pcie info) (interrupt_cells info)
            | None => info
            end
     else if bool_decide (compatible = Some (bytes "arm,gic-v3")) then Some (set_gic 3)
     else if bool_decide (compatible = Some (bytes "arm,cortex-a15-gic")) then Some (set_gic 2)
     else match compatible with
          | Some compat =>
              if contains compat (bytes "pci-host-ecam-generic") || contains compat (bytes "pci-host-ecam") then
                match reg with
                | Some (data, len) =>
                    p ← parse_pcie props parent_addr_cells parent_size_cells data len;
                    Some (mkInfo (memory info) (virtio_devices info) (gic info) (Some p) (interrupt_cells info))
                | None => Some info
                end
              else Some info
          | None => Some info
          end);
  Some (info, addr_cells, size_cells).
Fixpoint process_tree (node : CollectedNode) (info : FdtInfo) (parent_addr_cells parent_size_cells : Z) : option FdtInfo :=
  match node with
  | mkNode props children =>
      '(info, addr_cells, size_cells) ← process_node props info parent_addr_cells parent_size_cells;
      foldl (λ acc child, info ← acc; process_tree child info addr_cells size_cells) (Some info) children
  end.

Definition no_info : FdtInfo := mkInfo [] [] None None 3.
Definition parse (p : FdtParser) : option (sum string FdtInfo) :=
  let struct_start := fdt_data p + struct_offset p in
  let struct_end := fdt_data p + (struct_offset p + struct_size p) in
  if negb (read_u32 struct_start 0 =? FDT_BEGIN_NODE) then Some (inl "FDT structure does not start with FDT_BEGIN_NODE") else
  offset ← skip_string struct_start 4;
  '(root, _) ← collect_node p bound struct_start struct_end [] [] offset;
  info ← process_tree root no_info 2 2;
  Some (inr info).

(** The magic number at the known address, or else at the first page of low memory that has it *)
Fixpoint scan (n : nat) (addr : Z) : option Z :=
  match n with
  | 0%nat => None
  | S n => if read_u32_from addr =? FDT_MAGIC then Some addr else scan n (addr + 0x1000)
  end.
Definition find_fdt_in_ram : option Z :=
  let known_addr := 0x48000000 in
  if read_u32_from known_addr =? FDT_MAGIC then Some known_addr
  else scan (Z.to_nat ((0x48000000 - 0x40000000) / 0x1000)) 0x40000000.
Definition parse_fdt (fdt_ptr : Z) : option (sum string FdtInfo) :=
  match (if fdt_ptr =? 0 then find_fdt_in_ram else Some fdt_ptr) with
  | None => Some (inl "FDT pointer is NULL and FDT not found in RAM")
  | Some ptr => match new ptr with inl e => Some (inl e) | inr p => parse p end
  end.
End memory.
End Fdt.

(** * A device tree as a value, and its flattened form *)

Module Dt.
Inductive tree := Tree (name : list byte) (props : list (list byte * list byte)) (children : list tree).

Definition len {A} (l : list A) : Z := Z.of_nat (length l).
Definition pad4 (l : list byte) : list byte := l ++ replicate (Z.to_nat (align4 (len l) - len l)) x00.
Definition tok (v : Z) : list byte := be_bytes 4 v.
(** The names of properties are kept apart, each once per use at most. *)
Definition strings (names : list (list byte)) : list byte := concat (map (λ m, m ++ [x00]) names).
Fixpoint find_off (names : list (list byte)) (n : list byte) : Z :=
  match names with
  | [] => 0
  | m :: names => if decide (m = n) then 0 else len m + 1 + find_off names n
  end.
Definition prop_bytes (names : list (list byte)) (p : list byte * list byte) : list byte :=
  tok FDT_PROP ++ tok (len p.2) ++ tok (find_off names p.1) ++ pad4 p.2.
Fixpoint tree_bytes (names : list (list byte)) (t : tree) : list byte :=
  match t with
  | Tree n ps cs =>
      tok FDT_BEGIN_NODE ++ pad4 (n ++ [x00]) ++ concat (map (prop_bytes names) ps)
        ++ concat (map (tree_bytes names) cs) ++ tok FDT_END_NODE
  end.
Fixpoint prop_names (t : tree) : list (list byte) :=
  match t with Tree _ ps cs => map fst ps ++ concat (map prop_names cs) end.
Definition structure (t : tree) : list byte := tree_bytes (prop_names t) t ++ tok FDT_END.
(** The header, an empty reservation map, the structure and the names *)
Definition blob (t : tree) : list byte :=
  let s := structure t in
  let n := strings (prop_names t) in
  concat (map tok [FDT_MAGIC; 56 + len s + len n; 56; 56 + len s; 40; 17; 16; 0; len n; len s])
    ++ replicate 16 x00 ++ s ++ n.

(** ** What the reader finds in a tree, from the values of its properties *)

Definition value (ps : list (list byte * list byte)) (name : string) : option (list byte) :=
  snd <$> List.find (λ p, bool_decide (p.1 = bytes name)) ps.
Fixpoint upto0 (v : list byte) : list byte :=
  match v with [] => [] | b :: v => if decide (b = x00) then [] else b :: upto0 v end.
Definition text (ps : list (list byte * list byte)) (name : string) : option (list byte) := upto0 <$> value ps name.
Definition at_ (v : list byte) (i n : Z) : Z := be_value (take (Z.to_nat n) (drop (Z.to_nat i) v)).
Definition word (ps : list (list byte * list byte)) (name : string) : option Z :=
  v ← value ps name; if 4 <=? len v then Some (at_ v 0 4) else None.
(** A number of up to two cells; of more, nothing is read *)
Definition number (v : list byte) (i cells : Z) : Z := if cells <=? 2 then at_ v i (4 * cells) else 0.
Definition region (v : list byte) (i a s : Z) : MemRegion := mkRegion (number v i a) (number v (i + 4 * a) s).
Definition first_region (v : list byte) (a s : Z) : option MemRegion :=
  if (len v <? 4 * (a + s)) || (a + s =? 0) then None else Some (region v 0 a s).
Definition gic_of (v : list byte) (a s version : Z) : GicInfo :=
  let none := mkRegion 0 0 in
  let d := if 4 * (a + s) <=? len v then region v 0 a s else none in
  let r := if 8 * (a + s) <=? len v then region v (4 * (a + s)) a s else none in
  mkGic (mr_base d) (mr_size d) (mr_base r) (mr_size r) version.
Definition irq_of (ps : list (list byte * list byte)) (ic : Z) : Z :=
  match value ps "interrupts" with
  | Some v => if (ic =? 3) && (12 <=? len v) then Int.u32 (at_ v 4 4 + 32) else if 4 <=? len v then at_ v 0 4 else 0
  | None => 0
  end.
(** The entries of [ranges] lie one after another; a child address takes three cells. *)
Definition window (v : list byte) (a s : Z) : option MemRegion :=
  let e := 4 * (3 + a + s) in
  i ← List.find (λ i, Z.land (Z.shiftr (at_ v (e * Z.of_nat i) 4) 24) 3 =? 2) (seq 0 (Z.to_nat (len v / e)));
  Some (region v (e * Z.of_nat i + 12) a s).
Definition pcie_of (ps : list (list byte * list byte)) (v : list byte) (a s : Z) : PcieInfo :=
  let none := mkRegion 0 0 in
  let e := if 4 * (a + s) <=? len v then region v 0 a s else none in
  let w := default none (r ← value ps "ranges"; window r a s) in
  mkPcie (mr_base e) (mr_size e) (mr_base w) (mr_size w) 0 255.

(** The nodes in the order of the text, with the cells the reader passes down to them *)
Definition own (ps : list (list byte * list byte)) (name : string) (inherited : Z) : Z := default inherited (word ps name).
Fixpoint nodes (a s : Z) (t : tree) : list (Z * Z * list (list byte * list byte)) :=
  match t with
  | Tree _ ps cs => (a, s, ps) :: concat (map (nodes (own ps "#address-cells" a) (own ps "#size-cells" s)) cs)
  end.
Definition add_gic (ps : list (list byte * list byte)) (a s version : Z) (i : FdtInfo) : FdtInfo :=
  mkInfo (memory i) (virtio_devices i)
    (match value ps "reg" with Some v => Some (gic_of v a s version) | None => gic i end)
    (pcie i) (own ps "#interrupt-cells" (interrupt_cells i)).
Definition step (i : FdtInfo) (n : Z * Z * list (list byte * list byte)) : FdtInfo :=
  let '(pa, ps_, ps) := n in
  let a := own ps "#address-cells" pa in
  let s := own ps "#size-cells" ps_ in
  let reg := v ← value ps "reg"; first_region v a s in
  let named n := bool_decide (text ps "compatible" = Some (bytes n)) in
  if bool_decide (text ps "device_type" = Some (bytes "memory")) then
    mkInfo (memory i ++ option_list reg) (virtio_devices i) (gic i) (pcie i) (interrupt_cells i)
  else if named "virtio,mmio" then
    mkInfo (memory i)
      (virtio_devices i ++ option_list ((λ r, mkVirtio (mr_base r) (mr_size r) (irq_of ps (interrupt_cells i))) <$> reg))
      (gic i) (pcie i) (interrupt_cells i)
  else if named "arm,gic-v3" then add_gic ps a s 3 i
  else if named "arm,cortex-a15-gic" then add_gic ps a s 2 i
  else match text ps "compatible", value ps "reg" with
       | Some c, Some v =>
           if Fdt.contains c (bytes "pci-host-ecam")
           then mkInfo (memory i) (virtio_devices i) (gic i) (Some (pcie_of ps v pa ps_)) (interrupt_cells i) else i
       | _, _ => i
       end.
Definition found (t : tree) : FdtInfo := foldl step Fdt.no_info (nodes 2 2 t).

(** ** Trees that have a flattened form *)

Definition text_ok (n : list byte) : bool := bool_decide (x00 ∉ n).
Definition cells_ok (ps : list (list byte * list byte)) (name : string) : bool :=
  match word ps name with Some c => c <? 2 ^ 16 | None => true end.
Fixpoint tree_ok (t : tree) : bool :=
  match t with
  | Tree n ps cs =>
      text_ok n && forallb (λ p, text_ok p.1) ps && bool_decide (NoDup (map fst ps))
        && cells_ok ps "#address-cells" && cells_ok ps "#size-cells" && forallb tree_ok cs
  end.
Definition flat_ok (t : tree) : bool := tree_ok t && (len (blob t) <? 2 ^ 32).
End Dt.

(** * What a tree describes, by the format

    The Devicetree Specification and the bindings of the devices, independently of the reader.  The cells of
    [reg] are those the parent declares, two and one where it does not; [reg] is any number of regions;
    [compatible] is any number of names; a range of a PCI bridge has a child address in the cells of the bridge,
    an address in those of its parent and a size in those of the bridge; an interrupt of a GIC has three cells,
    of which the first says whether it is of a shared or of a private peripheral. *)

Module Format.
Import Dt.
Notation props := (list (list byte * list byte)).

(** The nodes with their parents' properties *)
Fixpoint nodes (parent : props) (t : tree) : list (props * props) :=
  match t with Tree _ qs cs => (parent, qs) :: concat (map (nodes qs) cs) end.
Definition cells (qs : props) (name : string) (otherwise : Z) : Z := default otherwise (word qs name).
Definition address_cells (qs : props) : Z := cells qs "#address-cells" 2.
Definition size_cells (qs : props) : Z := cells qs "#size-cells" 1.
Definition regions (parent : props) (v : list byte) : list MemRegion :=
  let a := address_cells parent in
  let s := size_cells parent in
  let e := 4 * (a + s) in
  map (λ i, mkRegion (at_ v (e * Z.of_nat i) (4 * a)) (at_ v (e * Z.of_nat i + 4 * a) (4 * s)))
    (seq 0 (Z.to_nat (len v / e))).
Definition reg (parent qs : props) : list MemRegion := match value qs "reg" with Some v => regions parent v | None => [] end.
(** The names in a property, each ended by a zero *)
Fixpoint stringlist (v : list byte) : list (list byte) :=
  match v with
  | [] => []
  | b :: v =>
      if decide (b = x00) then [] :: stringlist v
      else match stringlist v with [] => [[b]] | n :: l => (b :: n) :: l end
  end.
Definition compatible (qs : props) (name : string) : bool :=
  match value qs "compatible" with Some v => bool_decide (bytes name ∈ stringlist v) | None => false end.
Definition is_memory (qs : props) : bool := bool_decide (text qs "device_type" = Some (bytes "memory")).
Definition gic_kind (qs : props) : option Z :=
  if compatible qs "arm,gic-v3" then Some 3 else if compatible qs "arm,cortex-a15-gic" then Some 2 else None.

(** The interrupt of a device: of a shared peripheral from 32 on, of a private one from 16 on; 0 if it has none *)
Definition irq (qs : props) : Z :=
  match value qs "interrupts" with
  | Some v => if at_ v 0 4 =? 0 then at_ v 4 4 + 32 else if at_ v 0 4 =? 1 then at_ v 4 4 + 16 else 0
  | None => 0
  end.
Definition virtio_of (parent qs : props) : list VirtioMmioDevice :=
  if compatible qs "virtio,mmio"
  then (λ r, mkVirtio (mr_base r) (mr_size r) (irq qs)) <$> option_list (head (reg parent qs)) else [].
(** The distributor and the redistributors *)
Definition gic_regions (l : list MemRegion) (version : Z) : GicInfo :=
  let d := default (mkRegion 0 0) (l !! 0%nat) in
  let r := default (mkRegion 0 0) (l !! 1%nat) in
  mkGic (mr_base d) (mr_size d) (mr_base r) (mr_size r) version.
Definition gic_of (parent qs : props) : option GicInfo :=
  version ← gic_kind qs;
  v ← value qs "reg";
  Some (gic_regions (regions parent v) version).
(** The first range of 32-bit memory *)
Definition mmio_range (parent qs : props) : option MemRegion :=
  v ← value qs "ranges";
  let c := 4 * address_cells qs in
  let a := 4 * address_cells parent in
  let s := 4 * size_cells qs in
  let e := c + a + s in
  i ← List.find (λ i, Z.land (Z.shiftr (at_ v (e * Z.of_nat i) 4) 24) 3 =? 2) (seq 0 (Z.to_nat (len v / e)));
  Some (mkRegion (at_ v (e * Z.of_nat i + c) a) (at_ v (e * Z.of_nat i + c + a) s)).
Definition buses (qs : props) : Z * Z :=
  match value qs "bus-range" with Some v => (at_ v 0 4, at_ v 4 4) | None => (0, 255) end.
Definition pcie_of (parent qs : props) : option PcieInfo :=
  if compatible qs "pci-host-ecam-generic" then
    _ ← value qs "reg";
    let e := default (mkRegion 0 0) (head (reg parent qs)) in
    let w := default (mkRegion 0 0) (mmio_range parent qs) in
    Some (mkPcie (mr_base e) (mr_size e) (mr_base w) (mr_size w) (buses qs).1 (buses qs).2)
  else None.
(** All of it, in the order of the tree; of two controllers or bridges the later counts. *)
Definition add (i : FdtInfo) (n : props * props) : FdtInfo :=
  let '(parent, qs) := n in
  mkInfo (memory i ++ if is_memory qs then reg parent qs else []) (virtio_devices i ++ virtio_of parent qs)
    (match gic_of parent qs with Some g => Some g | None => gic i end)
    (match pcie_of parent qs with Some p => Some p | None => pcie i end)
    (match gic_kind qs with Some _ => cells qs "#interrupt-cells" (interrupt_cells i) | None => interrupt_cells i end).
Definition describe (t : tree) : FdtInfo := foldl add Fdt.no_info (nodes [] t).

(** ** Trees the reader is made for *)

(** The first name in [compatible] says what the node is; memory is nothing else. *)
Definition known : list string := ["virtio,mmio"; "arm,gic-v3"; "arm,cortex-a15-gic"; "pci-host-ecam-generic"].
Definition named_first (qs : props) : bool :=
  forallb (λ n, implb (compatible qs n) (bool_decide (text qs "compatible" = Some (bytes n)))) known &&
  match text qs "compatible" with
  | Some c => implb (Fdt.contains c (bytes "pci-host-ecam")) (bool_decide (c = bytes "pci-host-ecam-generic"))
  | None => true
  end &&
  implb (is_memory qs) (negb (existsb (compatible qs) known)).
(** The parent declares both numbers of cells, and two at most. *)
Definition declared (parent : props) : bool :=
  match word parent "#address-cells", word parent "#size-cells" with
  | Some a, Some s => (a <=? 2) && (s <=? 2)
  | _, _ => false
  end.
(** The node declares none, or the same. *)
Definition same_cells (parent qs : props) : bool :=
  (cells qs "#address-cells" (address_cells parent) =? address_cells parent) &&
  (cells qs "#size-cells" (size_cells parent) =? size_cells parent).
Definition shared_irq (qs : props) : bool :=
  match value qs "interrupts" with
  | Some v => (12 <=? len v) && (at_ v 0 4 =? 0) && (at_ v 4 4 + 32 <? 2 ^ 32)
  | None => true
  end.
Definition plain_node (n : props * props) : bool :=
  let '(parent, qs) := n in
  named_first qs &&
  implb (is_memory qs) (declared parent && same_cells parent qs && (length (reg parent qs) <=? 1)%nat) &&
  implb (compatible qs "virtio,mmio") (declared parent && same_cells parent qs && shared_irq qs) &&
  implb (bool_decide (is_Some (gic_kind qs)))
    (declared parent && same_cells parent qs && (cells qs "#interrupt-cells" 3 =? 3)) &&
  implb (compatible qs "pci-host-ecam-generic")
    (declared parent && (address_cells qs =? 3) && (size_cells qs =? size_cells parent) &&
     bool_decide (buses qs = (0, 255))).
Definition plain (t : tree) : bool := forallb plain_node (nodes [] t).
End Format.

(** ** A tree as the QEMU machine has it *)

Module DtSample.
Import Dt.
Definition p (n : string) (v : list byte) : list byte * list byte := (bytes n, v).
Definition cstr (s : string) : list byte := bytes s ++ [x00].
Definition cells (l : list Z) : list byte := concat (map tok l).
Definition machine : tree :=
  Tree [] [p "#size-cells" (cells [2]); p "#address-cells" (cells [2]); p "compatible" (cstr "linux,dummy-virt")]
    [Tree (bytes "memory@40000000") [p "reg" (cells [0; 0x40000000; 0; 0x20000000]); p "device_type" (cstr "memory")] [];
     Tree (bytes "intc@8000000")
       [p "reg" (cells [0; 0x8000000; 0; 0x10000; 0; 0x80a0000; 0; 0xf60000]); p "compatible" (cstr "arm,gic-v3");
        p "#size-cells" (cells [2]); p "#address-cells" (cells [2]); p "#interrupt-cells" (cells [3])] [];
     Tree (bytes "pcie@10000000")
       [p "ranges" (cells [0x1000000; 0; 0; 0; 0x3eff0000; 0; 0x10000; 0x2000000; 0; 0x10000000; 0; 0x10000000; 0; 0x2eff0000]);
        p "reg" (cells [0x40; 0x10000000; 0; 0x10000000]); p "#size-cells" (cells [2]); p "#address-cells" (cells [3]);
        p "compatible" (cstr "pci-host-ecam-generic")] [];
     Tree (bytes "virtio_mmio@a000000")
       [p "interrupts" (cells [0; 0x10; 1]); p "reg" (cells [0; 0xa000000; 0; 0x200]); p "compatible" (cstr "virtio,mmio")] []].
Definition memory_of (t : tree) (base : Z) (a : Z) : byte := default x00 (if base <=? a then blob t !! Z.to_nat (a - base) else None).
End DtSample.

(** * Reading memory that holds a flattened tree *)

Section reading.
Import Dt.
Variable mem : Z → byte.

Fixpoint holds (a : Z) (l : list byte) : Prop :=
  match l with [] => True | b :: l => mem a = b ∧ holds (a + 1) l end.

Lemma size_app {A} (l k : list A) : len (l ++ k) = len l + len k.
Proof. unfold len. rewrite length_app. lia. Qed.
Lemma size_cons {A} (x : A) l : len (x :: l) = 1 + len l.
Proof. unfold len. simpl. lia. Qed.
Lemma size_nonneg {A} (l : list A) : 0 ≤ len l.
Proof. unfold len. lia. Qed.
Lemma len_tok v : len (tok v) = 4.
Proof. unfold len, tok. by rewrite length_be. Qed.

Lemma holds_app a l k : holds a (l ++ k) ↔ holds a l ∧ holds (a + len l) k.
Proof.
  unfold len. revert a. induction l as [|b l IH]; intros a; simpl.
  - rewrite Z.add_0_r. tauto.
  - rewrite IH. replace (a + Z.of_nat (S (length l))) with (a + 1 + Z.of_nat (length l)) by lia. tauto.
Qed.
Lemma holds_drop a l i : 0 ≤ i ≤ len l → holds a l → holds (a + i) (drop (Z.to_nat i) l).
Proof.
  intros Hi H. rewrite <- (take_drop (Z.to_nat i) l), holds_app in H. destruct H as [_ H].
  unfold len in *. rewrite length_take in H. by replace (a + i) with (a + Z.of_nat (Z.to_nat i `min` length l)) by lia.
Qed.
Lemma holds_take a l n : holds a l → holds a (take n l).
Proof. intros H. rewrite <- (take_drop n l), holds_app in H. by destruct H. Qed.

Lemma read_four a l : length l = 4%nat → holds a l → Fdt.read_u32_from mem a = be_value l.
Proof.
  destruct l as [|b0 [|b1 [|b2 [|b3 [|]]]]]; try done. intros _. simpl. intros (H0 & H1 & H2 & H3 & _).
  unfold Fdt.read_u32_from. replace (a + 2) with (a + 1 + 1) by lia. replace (a + 3) with (a + 1 + 1 + 1) by lia.
  by rewrite H0, H1, H2, H3.
Qed.
Lemma read_tok a v l : 0 ≤ v < 2 ^ 32 → holds a (tok v ++ l) → Fdt.read_u32_from mem a = v.
Proof.
  intros Hv [H _]%holds_app. rewrite (read_four a (tok v)) by (by rewrite ?length_be).
  unfold tok. rewrite be_value_bytes. apply Z.mod_small. exact Hv.
Qed.
Lemma read_at a v i : 0 ≤ i → i + 4 ≤ len v → holds a v → Fdt.read_u32_from mem (a + i) = at_ v i 4.
Proof.
  intros Hi Hl H. unfold at_. apply read_four.
  - rewrite length_take, length_drop. unfold len in Hl. lia.
  - apply holds_take, holds_drop; [lia|done].
Qed.
Lemma shiftl_lor x y n : 0 ≤ n → 0 ≤ y < 2 ^ n → Z.lor (Z.shiftl x n) y = x * 2 ^ n + y.
Proof.
  intros Hn Hy. rewrite <- Z.add_nocarry_lor, Z.shiftl_mul_pow2 by
    (lia || (apply Z.bits_inj'; intros i Hi; rewrite Z.land_spec, Z.bits_0;
     destruct (Z.lt_ge_cases i n); [by rewrite Z.shiftl_spec_low|]; destruct (decide (y = 0)) as [->|];
     [by rewrite Z.bits_0, andb_false_r|]; rewrite (Z.bits_above_log2 y) by (pose proof (Z.log2_lt_pow2 y n); lia);
     by rewrite andb_false_r)).
  done.
Qed.
Lemma be_value_app l k : be_value (l ++ k) = be_value l * 256 ^ len k + be_value k.
Proof. unfold be_value at 1. rewrite foldl_app, be_value_acc. done. Qed.
Lemma read_number a v i c :
  0 ≤ i → 0 ≤ c → i + 4 * c ≤ len v → holds a v → Fdt.read_cells mem (a + i) c = number v i c.
Proof.
  intros Hi Hc Hl H. unfold Fdt.read_cells, number.
  destruct (Z.eqb_spec c 0) as [->|]; [done|]. destruct (Z.eqb_spec c 1) as [->|]; [apply read_at; [lia..|done]|].
  destruct (Z.eqb_spec c 2) as [->|]; [|by rewrite (proj2 (Z.leb_gt c 2)) by lia].
  rewrite <- Z.add_assoc, !(read_at a v) by (done || lia). simpl Z.leb. cbv iota. unfold at_.
  replace (Z.to_nat (4 * 2)) with (4 + 4)%nat by done. rewrite <- take_take_drop, drop_drop, be_value_app.
  replace (Z.to_nat i + 4)%nat with (Z.to_nat (i + 4)) by lia. change (Z.to_nat 4) with 4%nat.
  set (l := take 4 (drop (Z.to_nat (i + 4)) v)).
  assert (Hll : len l = 4) by (unfold l, len in *; rewrite length_take, length_drop; lia).
  rewrite Hll. apply shiftl_lor; [done|]. pose proof (be_value_range l). unfold len in Hll. by rewrite Hll in *.
Qed.

(** ** Texts *)

Lemma c_str_holds s fuel a : x00 ∉ s → holds a (s ++ [x00]) → (length s < fuel)%nat → Fdt.c_str mem fuel a = Some s.
Proof.
  revert fuel a. induction s as [|b s IH]; intros [|fuel] a Hn H Hf; simpl in *; try lia.
  - destruct H as [-> _]. by rewrite decide_True.
  - apply not_elem_of_cons in Hn as [Hb Hn]. destruct H as [-> H]. rewrite decide_False by congruence.
    by rewrite (IH fuel (a + 1)) by (done || lia).
Qed.
Lemma read_string_holds v a : holds a v → Fdt.read_string_from mem a (len v) = upto0 v.
Proof.
  unfold Fdt.read_string_from, len. rewrite Nat2Z.id. revert a.
  induction v as [|b v IH]; intros a H; simpl in *; [done|]. destruct H as [-> H]. by rewrite (IH (a + 1)).
Qed.
Lemma strings_split names n :
  n ∈ names → ∃ pre post, strings names = pre ++ (n ++ [x00]) ++ post ∧ len pre = find_off names n.
Proof.
  induction names as [|m names IH]; intros Hn; [by apply not_elem_of_nil in Hn|]. simpl. case_decide as Hd.
  - subst m. by exists [], (strings names).
  - apply elem_of_cons in Hn as [->|Hn]; [done|]. destruct (IH Hn) as (pre & post & E & Hl).
    exists (m ++ [x00] ++ pre), post. unfold strings in *. simpl. rewrite E, <- !(assoc_L (++)), size_app, size_cons.
    split; [done|lia].
Qed.

(** ** Collecting *)

Lemma align4_mod k : align4 k mod 4 = 0.
Proof. unfold align4. apply Z.mod_mul. lia. Qed.
Lemma align4_bounds k : k ≤ align4 k < k + 4.
Proof. unfold align4. pose proof (Z.div_mod (k + 3) 4). pose proof (Z.mod_pos_bound (k + 3) 4). lia. Qed.
Lemma align4_add o k : o mod 4 = 0 → align4 (o + k) = o + align4 k.
Proof.
  intros H. unfold align4. rewrite <- Z.add_assoc. apply Z.mod_divide in H as [q ->]; [|lia].
  rewrite Z.div_add_l; lia.
Qed.
Lemma len_pad4 l : len (pad4 l) = align4 (len l).
Proof. unfold pad4. rewrite size_app. unfold len at 2. rewrite length_replicate. pose proof (align4_bounds (len l)). lia. Qed.

Definition prop_matches (p : RawProp) (q : list byte * list byte) : Prop :=
  prop_name p = q.1 ∧ prop_len p = len q.2 ∧ holds (prop_data p) q.2.
Inductive matches : CollectedNode → tree → Prop :=
| matches_node ps cs n qs ds : Forall2 prop_matches ps qs → Forall2 matches cs ds → matches (mkNode ps cs) (Tree n qs ds).

Variables (base end_ : Z).
(** Where the loop stands: the bytes to come lie in the structure, and there is fuel for them *)
Definition stands (off : Z) (l : list byte) (fuel : nat) : Prop :=
  0 ≤ off ∧ off mod 4 = 0 ∧ holds (base + off) l ∧ base + off + len l ≤ end_ ∧ (length l ≤ fuel)%nat.

Lemma stands_skip off l k fuel fuel' :
  stands off (l ++ k) fuel → len l mod 4 = 0 → (length k ≤ fuel')%nat → stands (off + len l) k fuel'.
Proof.
  intros (H0 & Hm & [_ H]%holds_app & He & Hf) Hl Hk. rewrite size_app in He. pose proof (size_nonneg l).
  unfold stands. rewrite Z.add_assoc. split_and!; [lia| |done|lia|done]. rewrite <- Z.add_mod_idemp_l, Hm, Z.add_0_l by lia. done.
Qed.
Lemma stands_token off v l fuel :
  0 ≤ v < 2 ^ 32 → stands off (tok v ++ l) fuel →
  Fdt.read_u32 mem base off = v ∧ (end_ <=? base + off) = false ∧ stands (off + 4) l (pred fuel).
Proof.
  intros Hv Hs. pose proof Hs as (H0 & Hm & H & He & Hf). rewrite size_app, len_tok in He. pose proof (size_nonneg l).
  split; [by eapply read_tok|]. split; [lia|]. rewrite <- (len_tok v). eapply stands_skip; [done|by rewrite len_tok|].
  rewrite length_app in Hf. pose proof (len_tok v). unfold len in *. lia.
Qed.

Variables (bound : nat) (p : FdtParser) (names : list (list byte)).
Hypothesis strings_there : holds (fdt_data p + strings_offset p) (strings names).
Hypothesis names_ok : Forall (λ n, x00 ∉ n) names.
Hypothesis strings_len : len (strings names) < 2 ^ 32 ∧ (length (strings names) ≤ bound)%nat.

Lemma get_name n : n ∈ names → Fdt.get_string_name mem bound p (find_off names n) = Some n ∧ 0 ≤ find_off names n < 2 ^ 32.
Proof.
  intros Hn. destruct (strings_split names n Hn) as (pre & post & E & Hl). destruct strings_len as [Hs Hb].
  pose proof strings_there as H. rewrite E in H, Hs, Hb. rewrite !size_app in Hs. rewrite !length_app in Hb. simpl in Hb.
  pose proof (size_nonneg n). pose proof (size_nonneg post). pose proof (size_nonneg pre).
  change (len [x00]) with 1 in Hs. split; [|lia].
  apply holds_app in H as [_ [H _]%holds_app]. unfold Fdt.get_string_name. apply c_str_holds; [|by rewrite <- Hl|lia].
  by apply (proj1 (Forall_forall _ _) names_ok).
Qed.

Hypothesis small : end_ - base < 2 ^ 32 ∧ (Z.to_nat (end_ - base) ≤ bound)%nat.

Definition body_bytes (t : tree) : list byte :=
  match t with
  | Tree n ps cs => concat (map (prop_bytes names) ps) ++ concat (map (tree_bytes names) cs) ++ tok FDT_END_NODE
  end.
Lemma len_prop_bytes q : len (prop_bytes names q) mod 4 = 0.
Proof.
  unfold prop_bytes. rewrite !size_app, !len_tok, len_pad4. pose proof (align4_mod (len q.2)).
  rewrite !Z.add_assoc, <- Z.add_mod_idemp_r, H by lia. done.
Qed.
Lemma len_concat_mod {A} (f : A → list byte) l : (∀ x, x ∈ l → len (f x) mod 4 = 0) → len (concat (map f l)) mod 4 = 0.
Proof.
  induction l as [|x l IH]; intros H; [done|]. simpl. rewrite size_app, <- Z.add_mod_idemp_l, H, Z.add_0_l by (lia || left).
  apply IH. intros y Hy. apply H. by right.
Qed.

Lemma collect_prop q fuel off rest ps cs :
  q.1 ∈ names → stands off (prop_bytes names q ++ rest) (S fuel) →
  ∃ rp, prop_matches rp q ∧
    Fdt.collect_node mem bound p (S fuel) base end_ ps cs off =
    Fdt.collect_node mem bound p fuel base end_ (ps ++ [rp]) cs (off + len (prop_bytes names q)) ∧
    stands (off + len (prop_bytes names q)) rest fuel.
Proof.
  intros Hn Hs. destruct (get_name _ Hn) as [Hg Ho].
  assert (Hr : stands (off + len (prop_bytes names q)) rest fuel).
  { eapply stands_skip; [done|apply len_prop_bytes|]. destruct Hs as (_ & _ & _ & _ & Hf).
    unfold prop_bytes in Hf. rewrite !length_app in Hf. unfold tok in Hf. rewrite !length_be in Hf. lia. }
  pose proof Hs as (_ & _ & _ & Hb & _). unfold prop_bytes in Hs. rewrite <- !(assoc_L (++)) in Hs.
  rewrite size_app in Hb. pose proof (size_nonneg rest). unfold prop_bytes in Hb at 1.
  rewrite !size_app, !len_tok, len_pad4 in Hb. pose proof (align4_bounds (len q.2)). pose proof (size_nonneg q.2).
  destruct (stands_token _ FDT_PROP _ _ ltac:(done) Hs) as (Ht & He & Hs1).
  assert (Hl : 0 ≤ len q.2 < 2 ^ 32) by (destruct Hs as (? & _); lia).
  destruct (stands_token _ _ _ _ Hl Hs1) as (Ht1 & _ & Hs2).
  destruct (stands_token _ _ _ _ Ho Hs2) as (Ht2 & _ & (_ & _ & Hd & _)).
  exists (mkProp q.1 (base + (off + 4 + 8)) (len q.2)). split_and!; [..|done].
  - split_and!; [done..|]. simpl. replace (off + 4 + 8) with (off + 4 + 4 + 4) by lia. unfold pad4 in Hd.
    by apply holds_app in Hd as [[Hd _]%holds_app _].
  - simpl. rewrite He, Ht. change (FDT_PROP =? FDT_BEGIN_NODE) with false. change (FDT_PROP =? FDT_END_NODE) with false.
    change (FDT_PROP =? FDT_PROP) with true. cbv iota zeta. rewrite Ht1, Ht2, Hg. simpl. f_equal.
    unfold prop_bytes. rewrite !size_app, !len_tok, len_pad4. lia.
Qed.
Lemma collect_props qs fuel off rest ps cs :
  Forall (λ q, q.1 ∈ names) qs → stands off (concat (map (prop_bytes names) qs) ++ rest) fuel →
  ∃ rps fuel' off', Forall2 prop_matches rps qs ∧
    Fdt.collect_node mem bound p fuel base end_ ps cs off =
    Fdt.collect_node mem bound p fuel' base end_ (ps ++ rps) cs off' ∧
    stands off' rest fuel' ∧ off' = off + len (concat (map (prop_bytes names) qs)).
Proof.
  revert fuel off ps. induction qs as [|q qs IH]; intros fuel off ps Hq Hs.
  { exists [], fuel, off. rewrite app_nil_r. split_and!; [constructor|done|done|]. unfold len. simpl. lia. }
  apply Forall_cons in Hq as [Hn Hq]. cbn [map concat] in Hs |- *. rewrite <- (assoc_L (++)) in Hs. destruct fuel as [|fuel].
  { destruct Hs as (_ & _ & _ & _ & Hf). simpl in Hf. lia. }
  destruct (collect_prop _ _ _ _ ps cs Hn Hs) as (rp & Hm & -> & Hs1).
  destruct (IH _ _ (ps ++ [rp]) Hq Hs1) as (rps & fuel' & off' & Hms & -> & Hs2 & ->).
  exists (rp :: rps), fuel'. eexists. split_and!; [by constructor| |done|].
  - by rewrite <- (assoc_L (++)).
  - rewrite size_app. lia.
Qed.
Lemma skip_name n off l fuel :
  x00 ∉ n → stands off (pad4 (n ++ [x00]) ++ l) fuel →
  Fdt.skip_string mem bound base off = Some (off + len (pad4 (n ++ [x00]))).
Proof.
  clear strings_len.
  intros Hn (H0 & Hm & [H _]%holds_app & He & _). pose proof (size_nonneg l). destruct small as [_ Hb].
  rewrite !size_app, len_pad4, size_app in He. change (len [x00]) with 1 in He. pose proof (align4_bounds (len n + 1)).
  unfold pad4 in H. apply holds_app in H as [H _]. unfold Fdt.skip_string.
  rewrite (c_str_holds n) by (done || unfold len in *; lia). simpl. fold (len n).
  rewrite <- Z.add_assoc, align4_add, len_pad4, size_app by done. done.
Qed.

Definition collects (t : tree) : Prop := ∀ fuel off rest, stands off (body_bytes t ++ rest) fuel →
  ∃ node, matches node t ∧
    Fdt.collect_node mem bound p fuel base end_ [] [] off = Some (node, off + len (body_bytes t)).
Lemma tree_bytes_eq n qs ds :
  tree_bytes names (Tree n qs ds) = tok FDT_BEGIN_NODE ++ pad4 (n ++ [x00]) ++ body_bytes (Tree n qs ds).
Proof. done. Qed.
Lemma len_tree_bytes t : len (tree_bytes names t) mod 4 = 0.
Proof.
  revert t. fix IH 1. intros [n qs ds]. cbn [tree_bytes]. rewrite !size_app, !len_tok, len_pad4.
  assert (Hd : len (concat (map (tree_bytes names) ds)) mod 4 = 0).
  { clear n qs. induction ds as [|d ds IHd]; [done|]. cbn [map concat]. rewrite size_app, <- Z.add_mod_idemp_l, IH by lia. exact IHd. }
  pose proof (len_concat_mod (prop_bytes names) qs (λ q _, len_prop_bytes q)). pose proof (align4_mod (len (n ++ [x00]))).
  Z.to_euclidean_division_equations. lia.
Qed.
Lemma collect_node_step t fuel off rest ps cs :
  collects t → text_ok (match t with Tree n _ _ => n end) = true →
  stands off (tree_bytes names t ++ rest) (S fuel) →
  ∃ node, matches node t ∧
    Fdt.collect_node mem bound p (S fuel) base end_ ps cs off =
    Fdt.collect_node mem bound p fuel base end_ ps (cs ++ [node]) (off + len (tree_bytes names t)) ∧
    stands (off + len (tree_bytes names t)) rest fuel.
Proof.
  intros IH Hn%bool_decide_eq_true Hs.
  assert (Hr : stands (off + len (tree_bytes names t)) rest fuel).
  { eapply stands_skip; [done|apply len_tree_bytes|]. destruct Hs as (_ & _ & _ & _ & Hf). destruct t.
    rewrite tree_bytes_eq, !length_app in Hf. unfold tok in Hf. rewrite !length_be in Hf. lia. }
  destruct t as [n qs ds]. rewrite tree_bytes_eq in Hs, Hr |- *. rewrite <- !(assoc_L (++)) in Hs.
  destruct (stands_token _ FDT_BEGIN_NODE _ _ ltac:(done) Hs) as (Ht & He & Hs1).
  pose proof (skip_name _ _ _ _ Hn Hs1) as Hk.
  apply stands_skip with (fuel' := fuel) in Hs1; [|by rewrite len_pad4, align4_mod|].
  2:{ destruct Hs1 as (_ & _ & _ & _ & Hf). rewrite length_app in Hf. simpl pred in Hf. lia. }
  destruct (IH _ _ _ Hs1) as (node & Hm & Hc). exists node. split_and!; [done| |done].
  cbn [Fdt.collect_node]. rewrite He, Ht. change (FDT_BEGIN_NODE =? FDT_BEGIN_NODE) with true. cbv iota.
  rewrite Hk. cbn [mbind option_bind]. rewrite Hc. cbn [mbind option_bind]. f_equal.
  rewrite !size_app, len_tok. lia.
Qed.
Lemma collect_children ds fuel off rest ps cs :
  Forall (λ t, collects t ∧ text_ok (match t with Tree n _ _ => n end) = true) ds →
  stands off (concat (map (tree_bytes names) ds) ++ rest) fuel →
  ∃ nodes fuel' off', Forall2 matches nodes ds ∧
    Fdt.collect_node mem bound p fuel base end_ ps cs off =
    Fdt.collect_node mem bound p fuel' base end_ ps (cs ++ nodes) off' ∧
    stands off' rest fuel' ∧ off' = off + len (concat (map (tree_bytes names) ds)).
Proof.
  revert fuel off cs. induction ds as [|d ds IH]; intros fuel off cs Hq Hs.
  { exists [], fuel, off. rewrite app_nil_r. split_and!; [constructor|done|done|]. unfold len. simpl. lia. }
  apply Forall_cons in Hq as [[Hc Hn] Hq]. cbn [map concat] in Hs |- *. rewrite <- (assoc_L (++)) in Hs.
  destruct fuel as [|fuel].
  { destruct Hs as (_ & _ & _ & _ & Hf), d. simpl in Hf. lia. }
  destruct (collect_node_step _ _ _ _ ps cs Hc Hn Hs) as (node & Hm & -> & Hs1).
  destruct (IH _ _ (cs ++ [node]) Hq Hs1) as (nodes & fuel' & off' & Hms & -> & Hs2 & ->).
  exists (node :: nodes), fuel'. eexists. split_and!; [by constructor| |done|].
  - by rewrite <- (assoc_L (++)).
  - rewrite size_app. lia.
Qed.
Lemma collect_tree t : tree_ok t = true → Forall (.∈ names) (prop_names t) → collects t.
Proof.
  revert t. fix IH 1. intros [n qs ds] Hok Hn fuel off rest Hs. cbn [body_bytes] in *.
  cbn [tree_ok prop_names] in Hok, Hn. apply Forall_app in Hn as [Hqs Hds].
  rewrite !andb_true_iff in Hok. destruct Hok as (_ & Hc).
  assert (Hcs : Forall (λ t, collects t ∧ text_ok (match t with Tree n _ _ => n end) = true) ds).
  { clear Hs Hqs. induction ds as [|d ds IHd]; [constructor|]. cbn [forallb map concat] in Hc, Hds.
    apply andb_true_iff in Hc as [Hd Hc]. apply Forall_app in Hds as [Hdn Hds]. constructor; [|by apply IHd].
    split; [by apply IH|]. destruct d. simpl in Hd. rewrite !andb_true_iff in Hd. tauto. }
  rewrite <- !(assoc_L (++)) in Hs. apply Forall_map in Hqs.
  destruct (collect_props _ _ _ _ [] [] Hqs Hs) as (rps & fuel1 & off1 & Hms & -> & Hs1 & ->).
  destruct (collect_children _ _ _ _ ([] ++ rps) [] Hcs Hs1) as (nodes & fuel2 & off2 & Hmn & -> & Hs2 & ->).
  destruct (stands_token _ FDT_END_NODE _ _ ltac:(done) Hs2) as (Ht & He & _).
  destruct fuel2 as [|fuel2]; [destruct Hs2 as (_ & _ & _ & _ & Hf); simpl in Hf; lia|].
  exists (mkNode rps nodes). split; [by constructor|]. cbn [Fdt.collect_node]. rewrite He, Ht.
  change (FDT_END_NODE =? FDT_BEGIN_NODE) with false. change (FDT_END_NODE =? FDT_END_NODE) with true. cbv iota.
  rewrite !size_app, len_tok. do 2 f_equal. lia.
Qed.
End reading.

(** * Describing *)

Section describing.
Import Dt.
Variable mem : Z → byte.
Variable bound : nat.
Implicit Types (ps : list RawProp) (qs : list (list byte * list byte)).

Lemma find_match ps qs name : Forall2 (prop_matches mem) ps qs →
  match Fdt.find_prop_raw ps name, value qs name with
  | Some (d, l), Some v => l = len v ∧ holds mem d v ∧ ∃ n, (n, v) ∈ qs
  | None, None => True
  | _, _ => False
  end.
Proof.
  unfold Fdt.find_prop_raw, value. induction 1 as [|r q ps qs (Hn & Hl & Hh) H IH]; simpl; [done|].
  rewrite Hn. case_bool_decide; simpl.
  - split_and!; [done..|]. exists q.1. destruct q. left.
  - destruct (List.find _ ps) as [r'|], (List.find _ qs) as [q'|]; simpl in *; try done.
    destruct IH as (? & ? & n & Hin). split_and!; [done..|]. exists n. by right.
Qed.
Lemma value_none qs name : bytes name ∉ map fst qs → value qs name = None.
Proof.
  unfold value. induction qs as [|q qs IH]; simpl; [done|]. intros [Hq H]%not_elem_of_cons.
  rewrite bool_decide_eq_false_2 by congruence. by apply IH.
Qed.
Lemma cells_match ps qs name : Forall2 (prop_matches mem) ps qs → NoDup (map fst qs) →
  Fdt.cells_prop mem ps name = word qs name.
Proof.
  unfold Fdt.cells_prop, word. intros H Hnd.
  set (f := λ acc p, if bool_decide (prop_name p = bytes name) && (4 <=? prop_len p)
                     then Some (Fdt.read_u32_from mem (prop_data p)) else acc).
  enough (∀ acc, foldl f acc ps = match value qs name with
                                  | Some v => if 4 <=? len v then Some (at_ v 0 4) else acc
                                  | None => acc end) as E by (rewrite E; by destruct (value qs name)).
  induction H as [|r q ps qs (Hn & Hl & Hh) H IH]; intros acc; simpl; [done|].
  apply NoDup_cons in Hnd as [Hq Hnd]. rewrite IH by done. unfold f. rewrite Hn, Hl. unfold value at 2. simpl.
  case_bool_decide as Hb; [|done]. rewrite (value_none qs) by (by rewrite <- Hb). simpl.
  destruct (Z.leb_spec 4 (len q.2)); [|done]. f_equal. rewrite <- (Z.add_0_r (prop_data r)). by apply read_at.
Qed.
Lemma text_match ps qs name : Forall2 (prop_matches mem) ps qs → Fdt.find_prop_str mem ps name = text qs name.
Proof.
  intros H%(find_match _ _ name). unfold Fdt.find_prop_str, text.
  destruct (Fdt.find_prop_raw ps name) as [[d l]|], (value qs name) as [v|]; try done.
  destruct H as (-> & H & _). simpl. by rewrite (read_string_holds mem v).
Qed.

(** ** The kinds of node *)

Definition cells_in (a : Z) : Prop := 0 ≤ a < 2 ^ 16.
Lemma entry_size_eq a s : cells_in a → cells_in s → Fdt.entry_size a s = 4 * (a + s).
Proof. intros [??] [??]. unfold Fdt.entry_size. rewrite Int.u32_small; lia. Qed.
Lemma read_region d v i a s :
  cells_in a → cells_in s → 0 ≤ i → i + 4 * (a + s) ≤ len v → holds mem d v →
  mkRegion (Fdt.read_cells mem (d + i) a) (Fdt.read_cells mem (d + i + a * 4) s) = region v i a s.
Proof.
  intros [Ha Ha'] [Hs Hs'] Hi Hl H. unfold region. rewrite <- Z.add_assoc, !(read_number mem d v) by (done || lia).
  do 2 f_equal. lia.
Qed.
Lemma parse_reg_match d v a s : cells_in a → cells_in s → holds mem d v →
  Fdt.parse_reg mem d (len v) a s = first_region v a s.
Proof.
  intros Ha Hs H. unfold Fdt.parse_reg, first_region. rewrite entry_size_eq by done. pose proof Ha as [??]. pose proof Hs as [??].
  replace (4 * (a + s) =? 0) with (a + s =? 0) by lia.
  destruct (Z.ltb_spec (len v) (4 * (a + s))), (Z.eqb_spec (a + s) 0); simpl; try done.
  rewrite <- (read_region d v 0) by (done || lia). by rewrite Z.add_0_r.
Qed.
Lemma parse_gic_match d v a s n : cells_in a → cells_in s → holds mem d v →
  Fdt.parse_gic_reg mem d (len v) a s (mkGic 0 0 0 0 n) = gic_of v a s n.
Proof.
  intros Ha Hs H. unfold Fdt.parse_gic_reg, gic_of. rewrite entry_size_eq by done. pose proof Ha as [??]. pose proof Hs as [??].
  replace (4 * (a + s) * 2) with (8 * (a + s)) by lia.
  destruct (Z.ltb_spec (len v) (4 * (a + s))).
  { destruct (Z.leb_spec (4 * (a + s)) (len v)), (Z.leb_spec (8 * (a + s)) (len v)); (lia || done). }
  rewrite (proj2 (Z.leb_le (4 * (a + s)) _)) by lia. pose proof (read_region d v 0 a s Ha Hs ltac:(lia) ltac:(lia) H) as E.
  rewrite Z.add_0_r in E. injection E as Eb Es. rewrite Eb, Es.
  destruct (Z.leb_spec (8 * (a + s)) (len v)); [|done].
  pose proof (read_region d v (4 * (a + s)) a s Ha Hs ltac:(lia) ltac:(lia) H) as E2. injection E2 as Eb2 Es2.
  by rewrite Eb2, Es2.
Qed.
Lemma parse_irq_match ps qs ic : Forall2 (prop_matches mem) ps qs → Fdt.parse_irq mem ps ic = irq_of qs ic.
Proof.
  intros H%(find_match _ _ "interrupts"). unfold Fdt.parse_irq, irq_of.
  destruct (Fdt.find_prop_raw ps _) as [[d l]|], (value qs _) as [v|]; try done. destruct H as (-> & H & _).
  pose proof (read_at mem d v 0) as E. rewrite Z.add_0_r in E.
  destruct (Z.leb_spec 12 (len v)), (Z.leb_spec 4 (len v)); try lia;
    rewrite ?andb_false_r, ?andb_true_r, ?E by (done || lia); [|done..].
  by rewrite (read_at mem d v 4) by (done || lia).
Qed.

(** The loop over the ranges, from the entry [k] on *)
Lemma find_range_match d v a s k n fuel :
  cells_in a → cells_in s → holds mem d v → (k + n = Z.to_nat (len v / (4 * (3 + a + s))))%nat → (n < fuel)%nat →
  let e := 4 * (3 + a + s) in
  Fdt.find_range mem fuel d (len v) e a s (e * Z.of_nat k) =
  Some ((λ i, let r := region v (e * Z.of_nat i + 12) a s in (mr_base r, mr_size r)) <$>
        List.find (λ i, Z.land (Z.shiftr (at_ v (e * Z.of_nat i) 4) 24) 3 =? 2) (seq k n)).
Proof.
  intros Ha Hs H. pose proof Ha as [Ha0 _]. pose proof Hs as [Hs0 _]. revert k fuel.
  assert (He : 0 < 4 * (3 + a + s)) by lia. set (e := 4 * (3 + a + s)) in *.
  assert (Hq : ∀ m, e * m ≤ len v ↔ m ≤ len v / e).
  { intros m. split; intros Hm; [apply Z.div_le_lower_bound; lia|].
    pose proof (Z.mul_div_le (len v) e ltac:(lia)). nia. }
  pose proof (Z.div_pos (len v) e (size_nonneg v) He).
  induction n as [|n IH]; intros k [|fuel] Hk Hf; try lia; cbn [Fdt.find_range seq List.find].
  { destruct (Z.leb_spec (e * Z.of_nat k + e) (len v)) as [Hl|]; [|done].
    replace (e * Z.of_nat k + e) with (e * (Z.of_nat k + 1)) in Hl by lia. apply Hq in Hl. lia. }
  assert (Hl : e * (Z.of_nat k + 1) ≤ len v) by (apply Hq; lia).
  rewrite (proj2 (Z.leb_le _ _)) by lia. rewrite (read_at mem d v) by (done || lia).
  destruct (_ =? 2); [|].
  - cbn [fmap option_fmap option_map]. rewrite <- (read_region d v) by (done || lia).
    cbn [mr_base mr_size]. by rewrite !Z.add_assoc.
  - etrans; [|apply (IH (S k) fuel); lia]. f_equal. lia.
Qed.
Lemma parse_pcie_match ps qs d v a s :
  Forall2 (prop_matches mem) ps qs → Forall (λ q, (length q.2 < bound)%nat) qs →
  cells_in a → cells_in s → holds mem d v →
  Fdt.parse_pcie mem bound ps a s d (len v) = Some (pcie_of qs v a s).
Proof.
  intros Hm Hb Ha Hs H. apply (find_match _ _ "ranges") in Hm. pose proof Ha as [Ha0 Ha1]. pose proof Hs as [Hs0 Hs1].
  unfold Fdt.parse_pcie, pcie_of. rewrite entry_size_eq by done.
  assert (E : (if 4 * (a + s) <=? len v then (Fdt.read_cells mem d a, Fdt.read_cells mem (d + a * 4) s) else (0, 0)) =
    let r := if 4 * (a + s) <=? len v then region v 0 a s else mkRegion 0 0 in (mr_base r, mr_size r)).
  { destruct (Z.leb_spec (4 * (a + s)) (len v)); [|done].
    rewrite <- (read_region d v 0 a s) by (done || lia). by rewrite Z.add_0_r. }
  rewrite E. cbv zeta. clear E. f_equal. rewrite (Int.u32_small (3 + a)), Int.u32_small by lia.
  destruct (Fdt.find_prop_raw ps "ranges") as [[rd rl]|], (value qs "ranges") as [r|]; try done.
  destruct Hm as (-> & Hr & n & Hin). replace ((3 + a + s) * 4) with (4 * (3 + a + s)) by lia.
  assert (Hlen : (length r < bound)%nat) by (by apply (proj1 (Forall_forall _ _) Hb (n, r))).
  pose proof (find_range_match rd r a s 0 (Z.to_nat (len r / (4 * (3 + a + s)))) bound Ha Hs Hr eq_refl) as E.
  cbv zeta in E. rewrite Z.mul_0_r in E. rewrite E; clear E.
  - cbn [mbind option_bind]. unfold window. cbn [mbind option_bind]. by destruct (List.find _ _).
  - pose proof (Z.div_le_upper_bound (len r) (4 * (3 + a + s)) (len r) ltac:(lia)). pose proof (size_nonneg r). unfold len in *. nia.
Qed.

Lemma strip_app a b l : is_Some (strip (a ++ b) l) → is_Some (strip a l).
Proof.
  revert l. induction a as [|x a IH]; intros [|y l]; simpl; eauto. case_decide; [apply IH|done].
Qed.
Lemma contains_app a b l : Fdt.contains l (a ++ b) = true → Fdt.contains l a = true.
Proof.
  induction l as [|x l IH]; simpl; rewrite !orb_true_iff, !bool_decide_eq_true; intros [H|H]; eauto using strip_app; done.
Qed.
Lemma contains_pci l :
  Fdt.contains l (bytes "pci-host-ecam-generic") || Fdt.contains l (bytes "pci-host-ecam") = Fdt.contains l (bytes "pci-host-ecam").
Proof.
  destruct (Fdt.contains l (bytes "pci-host-ecam-generic")) eqn:E; [|done].
  change (bytes "pci-host-ecam-generic") with (bytes "pci-host-ecam" ++ bytes "-generic") in E.
  symmetry. by apply contains_app in E.
Qed.
Lemma own_in qs name a : cells_ok qs name = true → cells_in a → cells_in (own qs name a).
Proof.
  unfold cells_ok, own, cells_in, word. intros Hc Ha. destruct (value qs name) as [v|]; [|done]. simpl in *.
  destruct (4 <=? len v); [|done]. simpl in *. unfold at_ in *. pose proof (be_value_range (take (Z.to_nat 4) (drop (Z.to_nat 0) v))). lia.
Qed.

Lemma process_node_match ps qs info a s :
  Forall2 (prop_matches mem) ps qs → Forall (λ q, (length q.2 < bound)%nat) qs → NoDup (map fst qs) →
  cells_ok qs "#address-cells" = true → cells_ok qs "#size-cells" = true → cells_in a → cells_in s →
  Fdt.process_node mem bound ps info a s =
  Some (step info (a, s, qs), own qs "#address-cells" a, own qs "#size-cells" s).
Proof.
  intros Hm Hb Hnd Hca Hcs Ha Hs. pose proof (own_in _ _ _ Hca Ha) as Ha'. pose proof (own_in _ _ _ Hcs Hs) as Hs'.
  unfold Fdt.process_node. rewrite !(cells_match ps qs), !(text_match ps qs) by done.
  fold (own qs "#address-cells" a). fold (own qs "#size-cells" s).
  fold (own qs "#interrupt-cells" (interrupt_cells info)). unfold step, add_gic.
  pose proof (find_match _ _ "reg" Hm) as Hreg. rewrite (parse_irq_match ps qs) by done.
  destruct (Fdt.find_prop_raw ps "reg") as [[d l]|], (value qs "reg") as [v|]; try done.
  - destruct Hreg as (-> & Hv & _). cbn [mbind option_bind fmap option_fmap option_map fst snd].
    rewrite parse_reg_match, !parse_gic_match, (parse_pcie_match ps qs) by done.
    case_bool_decide; [by destruct (first_region _ _ _) as [r|], info; simpl; rewrite ?app_nil_r|].
    case_bool_decide; [by destruct (first_region _ _ _) as [r|], info; simpl; rewrite ?app_nil_r|].
    case_bool_decide; [done|]. case_bool_decide; [done|].
    destruct (text qs "compatible") as [c|]; [|done]. rewrite contains_pci. by destruct (Fdt.contains _ _).
  - cbn [mbind option_bind fmap option_fmap option_map]. case_bool_decide; [by destruct info; simpl; rewrite app_nil_r|].
    case_bool_decide; [by destruct info; simpl; rewrite app_nil_r|]. case_bool_decide; [done|]. case_bool_decide; [done|].
    destruct (text qs "compatible") as [c|]; [|done]. by destruct (_ || _).
Qed.

Variable names : list (list byte).
Lemma props_short n qs ds : (length (tree_bytes names (Tree n qs ds)) ≤ bound)%nat → Forall (λ q, (length q.2 < bound)%nat) qs.
Proof.
  cbn [tree_bytes]. unfold tok at 1. rewrite !length_app, length_be. intros H.
  assert (Hq : (length (concat (map (prop_bytes names) qs)) < bound)%nat) by lia. clear H. revert Hq.
  induction qs as [|q qs IH]; cbn [map concat]; rewrite ?length_app; [by constructor|]. intros H.
  constructor; [|apply IH; lia]. unfold prop_bytes, pad4 in H. rewrite !length_app in H. lia.
Qed.
Lemma process_match t node info a s :
  matches mem node t → tree_ok t = true → (length (tree_bytes names t) ≤ bound)%nat → cells_in a → cells_in s →
  Fdt.process_tree mem bound node info a s = Some (foldl step info (nodes a s t)).
Proof.
  revert t node info a s. fix IH 1. intros [n qs ds] node info a s Hm Hok Hl Ha Hs. inversion Hm as [ps cs ? ? ? Hps Hcs]; subst.
  pose proof (props_short _ _ _ Hl) as Hshort. cbn [tree_ok] in Hok. rewrite !andb_true_iff, bool_decide_eq_true in Hok.
  destruct Hok as (((((_ & _) & Hnd) & Hca) & Hcs') & Hds). cbn [Fdt.process_tree nodes].
  rewrite (process_node_match ps qs) by done. cbn [mbind option_bind foldl].
  pose proof (own_in _ _ _ Hca Ha) as Ha'. pose proof (own_in _ _ _ Hcs' Hs) as Hs'.
  assert (Hlen : (length (concat (map (tree_bytes names) ds)) ≤ bound)%nat) by (cbn [tree_bytes] in Hl; rewrite !length_app in Hl; lia).
  generalize (step info (a, s, qs)). clear Hm Hps Hl Hshort Hnd Hca Hcs'. revert cs Hcs. 
  induction ds as [|d ds IHd]; intros cs Hcs i; inversion Hcs as [|c ? cs' ? Hc Hcs2]; subst; [done|].
  cbn [forallb map concat foldl mbind option_bind] in *. apply andb_true_iff in Hds as [Hd Hds]. rewrite length_app in Hlen.
  rewrite (IH d c) by (done || lia). rewrite foldl_app. apply IHd; (done || lia).
Qed.
End describing.

(** * The whole reader *)

Import Dt.
Lemma holds_toks mem l a rest i v :
  holds mem a (concat (map tok l) ++ rest) → l !! i = Some v → 0 ≤ v < 2 ^ 32 → Fdt.read_u32_from mem (a + 4 * Z.of_nat i) = v.
Proof.
  revert a i. induction l as [|x l IH]; intros a [|i] H Hi Hv; try done; cbn [map concat] in H; rewrite <- (assoc_L (++)) in H.
  - injection Hi as ->. rewrite Z.add_0_r. by eapply read_tok.
  - apply holds_app in H as [_ H]. rewrite len_tok in H. rewrite <- (IH (a + 4) i) by done. f_equal. lia.
Qed.
Lemma tree_ok_names t : tree_ok t = true → Forall (λ n, x00 ∉ n) (prop_names t).
Proof.
  revert t. fix IH 1. intros [n qs ds] Hok. cbn [tree_ok prop_names] in *. rewrite !andb_true_iff in Hok.
  destruct Hok as (((((_ & Hq) & _) & _) & _) & Hds). apply Forall_app. split.
  - apply Forall_map, Forall_forall. intros q Hin. apply list_elem_of_In in Hin. rewrite forallb_forall in Hq.
    apply Hq in Hin. by apply bool_decide_eq_true in Hin.
  - clear Hq. induction ds as [|d ds IHd]; [constructor|]. cbn [forallb map concat] in *.
    apply andb_true_iff in Hds as [Hd Hds]. apply Forall_app. split; [by apply IH|by apply IHd].
Qed.

Lemma parse_holds mem bound t addr :
  tree_ok t = true → holds mem (addr + 56) (structure t ++ strings (prop_names t)) →
  len (structure t ++ strings (prop_names t)) < 2 ^ 32 → (length (structure t ++ strings (prop_names t)) ≤ bound)%nat →
  Fdt.parse mem bound (mkParser addr 56 (56 + len (structure t)) (len (structure t))) = Some (inr (found t)).
Proof.
  intros Hok [Hs Hn]%holds_app Hl Hb. rewrite size_app in Hl. rewrite length_app in Hb.
  set (names := prop_names t) in *. set (p := mkParser _ _ _ _).
  pose proof (size_nonneg (structure t)). pose proof (size_nonneg (strings names)).
  assert (Hst : holds mem (fdt_data p + strings_offset p) (strings names)) by (simpl; by rewrite Z.add_assoc).
  assert (Hsl : len (strings names) < 2 ^ 32 ∧ (length (strings names) ≤ bound)%nat) by lia.
  assert (Hsm : addr + (56 + len (structure t)) - (addr + 56) < 2 ^ 32 ∧
    (Z.to_nat (addr + (56 + len (structure t)) - (addr + 56)) ≤ bound)%nat) by (unfold len in *; lia).
  assert (Hstands : stands mem (addr + 56) (addr + (56 + len (structure t))) 0 (structure t) bound).
  { unfold stands. rewrite Z.add_0_r. split_and!; [done..|lia|lia]. }
  assert (Hnames : Forall (.∈ names) (prop_names t)) by (by apply Forall_forall).
  pose proof (collect_tree mem (addr + 56) _ bound p names Hst (tree_ok_names _ Hok) Hsl Hsm t Hok Hnames) as Hc.
  unfold Fdt.parse. change (fdt_data p + struct_offset p) with (addr + 56).
  change (fdt_data p + (struct_offset p + struct_size p)) with (addr + (56 + len (structure t))).
  assert (Hlen : (length (tree_bytes names t) ≤ bound)%nat) by (unfold structure in Hb; fold names in Hb; rewrite !length_app in Hb; lia).
  unfold structure in Hstands at 2. fold names in Hstands. destruct t as [n qs ds]. rewrite tree_bytes_eq in Hstands.
  rewrite <- !(assoc_L (++)) in Hstands.
  destruct (stands_token _ _ _ _ FDT_BEGIN_NODE _ _ ltac:(done) Hstands) as (-> & _ & Hs1). simpl negb. cbv iota. rewrite Z.add_0_l in Hs1.
  assert (Hn0 : text_ok n = true) by (cbn [tree_ok] in Hok; rewrite !andb_true_iff in Hok; tauto).
  apply bool_decide_eq_true in Hn0.
  rewrite (skip_name _ _ _ _ Hsm _ _ _ _ Hn0 Hs1). cbn [mbind option_bind].
  apply stands_skip with (fuel' := bound) in Hs1; [|by rewrite len_pad4, align4_mod|].
  2:{ destruct Hs1 as (_ & _ & _ & _ & Hf). rewrite length_app in Hf. lia. }
  destruct (Hc _ _ _ Hs1) as (node & Hm & ->). cbn [mbind option_bind].
  by rewrite (process_match _ _ names _ _ _ _ _ Hm Hok Hlen).
Qed.

(** * The reader on plain trees

    What it finds there is what the format says. *)

Section plain_trees.
Implicit Types (parent qs : Format.props).

Lemma word_range qs name c : word qs name = Some c → 0 ≤ c.
Proof.
  unfold word. destruct (value qs name) as [v|]; [|done]. cbn [mbind option_bind]. destruct (4 <=? len v); [|done].
  intros [= <-]. unfold at_. pose proof (be_value_range (take (Z.to_nat 4) (drop (Z.to_nat 0) v))). lia.
Qed.
(** The cells of the reader are the declared ones. *)
Definition agree (a s : Z) parent : Prop :=
  (∀ c, word parent "#address-cells" = Some c → a = c) ∧ (∀ c, word parent "#size-cells" = Some c → s = c).
Lemma declared_cells parent a s : Format.declared parent = true → agree a s parent →
  a = Format.address_cells parent ∧ s = Format.size_cells parent ∧ 0 ≤ a ≤ 2 ∧ 0 ≤ s ≤ 2.
Proof.
  unfold Format.declared, Format.address_cells, Format.size_cells, Format.cells. intros Hd [Ha Hs].
  destruct (word parent "#address-cells") as [c|] eqn:Ec; [|done]. destruct (word parent "#size-cells") as [d|] eqn:Ed; [|done].
  apply andb_true_iff in Hd as [?%Z.leb_le ?%Z.leb_le]. apply word_range in Ec, Ed. simpl.
  rewrite (Ha c), (Hs d) by done. lia.
Qed.
Lemma same_own parent qs a s : Format.same_cells parent qs = true →
  a = Format.address_cells parent → s = Format.size_cells parent →
  own qs "#address-cells" a = a ∧ own qs "#size-cells" s = s.
Proof.
  unfold Format.same_cells, own, Format.cells. rewrite andb_true_iff, !Z.eqb_eq. intros [H1 H2] -> ->. done.
Qed.
Lemma regions_lookup parent v i a s : a = Format.address_cells parent → s = Format.size_cells parent →
  0 ≤ a ≤ 2 → 0 ≤ s ≤ 2 → 0 < a + s →
  Format.regions parent v !! i =
  if 4 * (a + s) * (Z.of_nat i + 1) <=? len v then Some (region v (4 * (a + s) * Z.of_nat i) a s) else None.
Proof.
  intros -> -> Ha Hs Hp. unfold Format.regions. set (a := Format.address_cells parent) in *. set (s := Format.size_cells parent) in *.
  cbv zeta. rewrite list_lookup_fmap. set (e := 4 * (a + s)) in *.
  pose proof (Z.div_pos (len v) e (size_nonneg v) ltac:(lia)).
  destruct (Z.leb_spec (e * (Z.of_nat i + 1)) (len v)) as [Hl|Hl].
  - assert (Z.of_nat i + 1 ≤ len v / e) by (apply Z.div_le_lower_bound; lia).
    rewrite lookup_seq_lt by lia. simpl. unfold region, number. by rewrite !(proj2 (Z.leb_le _ 2)) by lia.
  - rewrite lookup_seq_ge; [done|]. pose proof (Z.mul_div_le (len v) e ltac:(lia)). nia.
Qed.
Lemma regions_none parent v : Format.address_cells parent + Format.size_cells parent = 0 → Format.regions parent v = [].
Proof. intros E. unfold Format.regions. rewrite E. simpl. by rewrite Z.div_0_r. Qed.

Section node.
Variables (parent : Format.props) (a s : Z).
Hypothesis (Ea : a = Format.address_cells parent) (Es : s = Format.size_cells parent) (Ha : 0 ≤ a ≤ 2) (Hs : 0 ≤ s ≤ 2).

Lemma first_is_head v : first_region v a s = head (Format.regions parent v).
Proof.
  unfold first_region. destruct (Z.eqb_spec (a + s) 0) as [E|].
  { rewrite regions_none by lia. by rewrite orb_true_r. }
  rewrite orb_false_r. pose proof (regions_lookup parent v 0 a s Ea Es Ha Hs ltac:(lia)) as E.
  rewrite Z.mul_0_r, Z.add_0_l, Z.mul_1_r in E. rewrite head_lookup, E.
  destruct (Z.ltb_spec (len v) (4 * (a + s))), (Z.leb_spec (4 * (a + s)) (len v)); (lia || done).
Qed.
Lemma default_region v :
  (if 4 * (a + s) <=? len v then region v 0 a s else mkRegion 0 0) = default (mkRegion 0 0) (Format.regions parent v !! 0%nat).
Proof.
  destruct (decide (a + s = 0)) as [E|].
  { rewrite regions_none by lia. assert (a = 0) as -> by lia. assert (s = 0) as -> by lia. by destruct (_ <=? _). }
  rewrite (regions_lookup parent v 0 a s) by (done || lia). rewrite Z.mul_0_r, Z.add_0_l, Z.mul_1_r. by destruct (_ <=? _).
Qed.
Lemma second_region v :
  (if 8 * (a + s) <=? len v then region v (4 * (a + s)) a s else mkRegion 0 0) =
  default (mkRegion 0 0) (Format.regions parent v !! 1%nat).
Proof.
  destruct (decide (a + s = 0)) as [E|].
  { rewrite regions_none by lia. assert (a = 0) as -> by lia. assert (s = 0) as -> by lia. by destruct (_ <=? _). }
  rewrite (regions_lookup parent v 1 a s) by (done || lia). change (Z.of_nat 1) with 1. rewrite Z.mul_1_r.
  replace (4 * (a + s) * (1 + 1)) with (8 * (a + s)) by lia. by destruct (_ <=? _).
Qed.
Lemma window_is_range qs : Format.address_cells qs = 3 → Format.size_cells qs = s →
  (r ← value qs "ranges"; window r a s) = Format.mmio_range parent qs.
Proof.
  intros E3 Eq. unfold Format.mmio_range, window. rewrite E3, Eq, <- Ea. cbv zeta.
  destruct (value qs "ranges") as [v|]; [|done]. cbn [mbind option_bind].
  replace (4 * 3 + 4 * a + 4 * s) with (4 * (3 + a + s)) by lia.
  destruct (List.find _ _) as [i|]; [|done]. cbn [mbind option_bind]. unfold region, number.
  by rewrite !(proj2 (Z.leb_le _ 2)) by lia.
Qed.
End node.

(** Kinds of node: the first name decides. *)
Lemma head_stringlist v : v ≠ [] → ∃ l, Format.stringlist v = upto0 v :: l.
Proof.
  induction v as [|b v IH]; [done|]. intros _. cbn [Format.stringlist upto0]. case_decide; [eauto|].
  destruct v as [|b' v]; [by eexists|]. destruct IH as [l ->]; [done|]. eauto.
Qed.
Lemma named_compatible qs n : Format.named_first qs = true → n ∈ Format.known →
  bool_decide (text qs "compatible" = Some (bytes n)) = Format.compatible qs n.
Proof.
  unfold Format.named_first. rewrite !andb_true_iff, forallb_forall. intros [[Hf _] _] Hn.
  pose proof (Hf n ltac:(by apply list_elem_of_In)) as Hi. destruct (Format.compatible qs n) eqn:Hc; [exact Hi|].
  apply bool_decide_eq_false_2. intros Ht. unfold Format.compatible, text in *.
  destruct (value qs "compatible") as [v|]; [|done]. injection Ht as Ht. apply bool_decide_eq_false in Hc. apply Hc.
  destruct (head_stringlist v) as [l ->]; [|rewrite Ht; left].
  intros ->. unfold Format.known in Hn. repeat (apply elem_of_cons in Hn as [->|Hn]; [done|]). by apply elem_of_nil in Hn.
Qed.
Lemma bridge_compatible qs : Format.named_first qs = true →
  match text qs "compatible" with Some c => Fdt.contains c (bytes "pci-host-ecam") | None => false end =
  Format.compatible qs "pci-host-ecam-generic".
Proof.
  intros Hn. rewrite <- named_compatible by (done || set_solver).
  unfold Format.named_first in Hn. rewrite !andb_true_iff in Hn. destruct Hn as [[_ Hn] _].
  destruct (text qs "compatible") as [c|]; [|done]. destruct (Fdt.contains c (bytes "pci-host-ecam")) eqn:Hc; simpl in Hn.
  - apply bool_decide_eq_true in Hn. by rewrite bool_decide_eq_true_2 by congruence.
  - symmetry. apply bool_decide_eq_false_2. intros [= ->]. by vm_compute in Hc.
Qed.
Lemma compatible_one qs n m : Format.named_first qs = true → n ∈ Format.known → m ∈ Format.known → bytes n ≠ bytes m →
  Format.compatible qs n = true → Format.compatible qs m = false.
Proof.
  intros Hf Hn Hm Hne. rewrite <- !named_compatible by done. rewrite bool_decide_eq_true, bool_decide_eq_false. congruence.
Qed.
Lemma irq_shared qs : Format.shared_irq qs = true → irq_of qs 3 = Format.irq qs.
Proof.
  unfold Format.shared_irq, irq_of, Format.irq. destruct (value qs "interrupts") as [v|]; [|done].
  rewrite !andb_true_iff. intros [[-> ->] Hl]. simpl. apply Int.u32_small. unfold at_ in *.
  pose proof (be_value_range (take (Z.to_nat 4) (drop (Z.to_nat 4) v))). lia.
Qed.

(** A node adds what the format says. *)
Lemma step_plain i parent qs a s :
  Format.plain_node (parent, qs) = true → agree a s parent → interrupt_cells i = 3 →
  step i (a, s, qs) = Format.add i (parent, qs) ∧ interrupt_cells (Format.add i (parent, qs)) = 3.
Proof.
  unfold Format.plain_node. rewrite !andb_true_iff. intros ((((Hn & Hm) & Hv) & Hg) & Hp) Hag Hi.
  assert (K : ∀ n, n ∈ Format.known → bool_decide (text qs "compatible" = Some (bytes n)) = Format.compatible qs n)
    by (intros; by apply named_compatible).
  pose proof (bridge_compatible qs Hn) as Hb. pose proof (λ n m, compatible_one qs n m Hn) as One.
  assert (Hnm : Format.is_memory qs = true → existsb (Format.compatible qs) Format.known = false).
  { unfold Format.named_first in Hn. rewrite !andb_true_iff in Hn. destruct Hn as [_ Hn]. intros E. rewrite E in Hn.
    by apply negb_true_iff in Hn. }
  unfold step, Format.add, Format.virtio_of, Format.gic_of, Format.pcie_of, Format.reg, add_gic.
  rewrite !K by (unfold Format.known; set_solver). fold (Format.is_memory qs).
  destruct (Format.is_memory qs) eqn:Em.
  { specialize (Hnm eq_refl). unfold Format.known in Hnm. simpl in Hnm. rewrite !orb_false_iff in Hnm.
    destruct Hnm as (V & G3 & G2 & P & _). unfold Format.gic_kind. rewrite V, G3, G2, P. simpl in Hm. rewrite !andb_true_iff in Hm.
    destruct Hm as [[Hd Hsc] Hlen]. destruct (declared_cells parent a s Hd Hag) as (Ea & Es & Ha & Hs).
    destruct (same_own parent qs a s Hsc Ea Es) as [-> ->]. split; [|done]. cbn [mbind option_bind]. rewrite app_nil_r.
    f_equal. f_equal. unfold Format.reg in Hlen. destruct (value qs "reg") as [v|]; [|done]. cbn [mbind option_bind].
    rewrite (first_is_head parent) by done. apply Nat.leb_le in Hlen. by destruct (Format.regions parent v) as [|r [|]]; simpl in *; try lia. }
  destruct (Format.compatible qs "virtio,mmio") eqn:Ev.
  { unfold Format.gic_kind. rewrite !(One "virtio,mmio") by (unfold Format.known; set_solver || done).
    simpl in Hv. rewrite !andb_true_iff in Hv. destruct Hv as [[Hd Hsc] Hirq].
    destruct (declared_cells parent a s Hd Hag) as (Ea & Es & Ha & Hs).
    destruct (same_own parent qs a s Hsc Ea Es) as [-> ->]. split; [|done]. rewrite Hi, irq_shared, app_nil_r by done.
    cbn [mbind option_bind]. f_equal. f_equal. destruct (value qs "reg") as [v|]; [|done]. cbn [mbind option_bind].
    rewrite (first_is_head parent) by done. by destruct (head _). }
  rewrite !app_nil_r. destruct (Format.gic_kind qs) as [version|] eqn:Ek.
  { assert (P : Format.compatible qs "pci-host-ecam-generic" = false).
    { unfold Format.gic_kind in Ek. destruct (Format.compatible qs "arm,gic-v3") eqn:E3;
        [by apply (One "arm,gic-v3"); (done || (unfold Format.known; set_solver))|].
      destruct (Format.compatible qs "arm,cortex-a15-gic") eqn:E2; [|done].
      by apply (One "arm,cortex-a15-gic"); (done || (unfold Format.known; set_solver)). }
    rewrite P. simpl in Hg. rewrite !andb_true_iff in Hg. destruct Hg as [[Hd Hsc] Hic].
    destruct (declared_cells parent a s Hd Hag) as (Ea & Es & Ha & Hs).
    destruct (same_own parent qs a s Hsc Ea Es) as [-> ->]. rewrite Hi. apply Z.eqb_eq in Hic. cbn [mbind option_bind].
    assert (E : ∀ v n, gic_of v a s n = Format.gic_regions (Format.regions parent v) n).
    { intros v n. unfold gic_of. by rewrite (default_region parent), (second_region parent) by done. }
    split; [|done]. unfold Format.gic_kind in Ek. destruct (Format.compatible qs "arm,gic-v3"), (Format.compatible qs "arm,cortex-a15-gic");
      simplify_eq; destruct (value qs "reg") as [v|]; cbn [mbind option_bind]; by rewrite ?E. }
  unfold Format.gic_kind in Ek. destruct (Format.compatible qs "arm,gic-v3"); [done|].
  destruct (Format.compatible qs "arm,cortex-a15-gic"); [done|]. cbn [mbind option_bind].
  destruct (Format.compatible qs "pci-host-ecam-generic") eqn:Ep.
  2: { split; [|done]. destruct (text qs "compatible") as [c|], (value qs "reg") as [v|], i; simpl; rewrite ?Hb; done. }
  simpl in Hp. rewrite !andb_true_iff in Hp. destruct Hp as [[[Hd H3] Hsz] Hbus].
  destruct (declared_cells parent a s Hd Hag) as (Ea & Es & Ha & Hs). apply Z.eqb_eq in H3, Hsz. apply bool_decide_eq_true in Hbus.
  split; [|done]. rewrite Hbus. destruct (text qs "compatible") as [c|]; [|done]. rewrite Hb.
  destruct (value qs "reg") as [v|]; [|by destruct i]. cbn [mbind option_bind]. f_equal. f_equal. unfold pcie_of.
  rewrite (default_region parent), (window_is_range parent), head_lookup by (done || congruence). done.
Qed.

Lemma nodes_agree t a s parent : agree a s parent →
  Forall2 (λ n m, n.2 = m.2 ∧ agree n.1.1 n.1.2 m.1) (nodes a s t) (Format.nodes parent t).
Proof.
  revert t a s parent. fix IH 1. intros [n qs cs] a s parent Hag. cbn [nodes Format.nodes]. constructor; [done|].
  assert (Hq : agree (own qs "#address-cells" a) (own qs "#size-cells" s) qs)
    by (unfold agree, own; split; by intros c ->).
  induction cs as [|c cs IHc]; cbn [map concat]; [constructor|]. apply Forall2_app; [by apply IH|exact IHc].
Qed.
Lemma found_describe t : Format.plain t = true → found t = Format.describe t.
Proof.
  unfold Format.plain, found, Format.describe. rewrite forallb_forall. intros Hp.
  assert (H : Forall2 (λ n m, n.2 = m.2 ∧ agree n.1.1 n.1.2 m.1) (nodes 2 2 t) (Format.nodes [] t)) by (apply nodes_agree; done).
  assert (Hi : interrupt_cells Fdt.no_info = 3) by done. revert Hp Hi. generalize Fdt.no_info.
  induction H as [|[[a s] qs] [parent qs'] ns ms [Hq Hag] _ IH]; intros i Hp Hi; simpl in *; [done|]. subst qs'.
  destruct (step_plain i parent qs a s (Hp _ (or_introl eq_refl)) Hag Hi) as [E Hi']. cbn [step] in E. rewrite E. apply IH; auto.
Qed.
End plain_trees.

(** C33. The reader of device trees is right on the trees it is made for: wherever the flattened form of a tree lies
    in memory, and also where no address is given and it lies where the loader puts it, [parse_fdt] ends and
    gives what the tree describes by the format: memory, devices, interrupt controller and PCIe bridge.  The
    tree is plain: a node for one of these is named so by the first name of [compatible], its parent declares
    the cells of [reg], two at most each, and the node itself declares none or the same, except the bridge, which
    has the three address cells of PCI, the size cells of its parent and all buses; memory has one bank, is
    nothing else, and interrupts are those of shared peripherals of a GIC.  It has a flattened form: no zeros in
    names, different names of the properties of a node, less than 2^32 bytes, and cell counts below 2^16. *)
Theorem device_tree_roundtrip (mem : Z → byte) (bound : nat) (t : tree) (addr ptr : Z) :
  flat_ok t = true → Format.plain t = true → holds mem addr (blob t) → (length (blob t) ≤ bound)%nat →
  (ptr = addr ∧ ptr ≠ 0 ∨ ptr = 0 ∧ addr = 0x48000000) →
  Fdt.parse_fdt mem bound ptr = Some (inr (Format.describe t)).
Proof.
  unfold flat_ok. rewrite andb_true_iff, Z.ltb_lt. intros [Hok Hlen] Hpl H Hb Hp. rewrite <- found_describe by done.
  unfold blob in *. cbv zeta in *.
  set (l := [FDT_MAGIC; _; _; _; _; _; _; _; _; _]) in *. rewrite !size_app in Hlen. rewrite !length_app in Hb.
  pose proof (size_nonneg (structure t)). pose proof (size_nonneg (strings (prop_names t))).
  change (len (concat (map tok l))) with 40 in Hlen. change (len (replicate 16 x00)) with 16 in Hlen.
  assert (E : ∀ i v, l !! i = Some v → 0 ≤ v < 2 ^ 32 → Fdt.read_u32_from mem (addr + 4 * Z.of_nat i) = v)
    by (intros; by eapply holds_toks).
  pose proof (E 0%nat _ eq_refl ltac:(done)) as E0. pose proof (E 2%nat _ eq_refl ltac:(done)) as E2.
  pose proof (E 3%nat _ eq_refl ltac:(lia)) as E3. pose proof (E 9%nat _ eq_refl ltac:(lia)) as E9.
  rewrite Z.add_0_r in E0. change (4 * Z.of_nat 2) with 8 in E2. change (4 * Z.of_nat 3) with 12 in E3. change (4 * Z.of_nat 9) with 36 in E9. unfold Fdt.parse_fdt.
  assert ((if ptr =? 0 then Fdt.find_fdt_in_ram mem else Some ptr) = Some addr ∧ (addr =? 0) = false) as [-> Ha].
  { destruct Hp as [[-> Hp]|[-> ->]]; [rewrite (proj2 (Z.eqb_neq addr 0)) by done; done|].
    split; [|done]. simpl. unfold Fdt.find_fdt_in_ram. by rewrite E0. }
  unfold Fdt.new. rewrite Ha, E0. simpl negb. cbv iota. rewrite E2, E3, E9.
  apply parse_holds; [done| |rewrite size_app; lia|rewrite length_app; lia].
  apply holds_app in H as [_ [_ H]%holds_app]. by rewrite <- Z.add_assoc in H.
Qed.
Lemma device_tree_roundtrip_witness :
  Fdt.parse_fdt (DtSample.memory_of DtSample.machine 0x48000000) 2000 0 = Some (inr (Format.describe DtSample.machine)).
Proof.
  apply (device_tree_roundtrip _ 2000 DtSample.machine 0x48000000 0);
    [vm_compute; reflexivity|vm_compute; reflexivity| |vm_compute; lia|by right].
  vm_compute. tauto.
Defined.

(** ** Where the reader departs from the format *)

(** The cells of [reg] are those the parent declares.  The reader takes the ones of the node itself, so of an
    interrupt controller that declares none for its children it takes the address for the size. *)
Definition controller : tree :=
  Tree [] [DtSample.p "#size-cells" (DtSample.cells [1]); DtSample.p "#address-cells" (DtSample.cells [1])]
    [Tree (bytes "intc@8000000")
       [DtSample.p "compatible" (DtSample.cstr "arm,gic-v3"); DtSample.p "#address-cells" (DtSample.cells [0]);
        DtSample.p "reg" (DtSample.cells [0x8000000; 0x10000; 0x80a0000; 0xf60000])] []].
Lemma own_cells_for_reg :
  option_map (sum_map id gic) (Fdt.parse_fdt (DtSample.memory_of controller 0x48000000) 2000 0) =
  Some (inr (Some (mkGic 0 0x8000000 0 0x10000 3))) ∧
  gic (Format.describe controller) = Some (mkGic 0x8000000 0x10000 0x80a0000 0xf60000 3).
Proof. vm_compute. done. Qed.
(** Of the banks of memory only the first is taken. *)
Definition banks : tree :=
  Tree [] [DtSample.p "#size-cells" (DtSample.cells [1]); DtSample.p "#address-cells" (DtSample.cells [1])]
    [Tree (bytes "memory@40000000")
       [DtSample.p "device_type" (DtSample.cstr "memory");
        DtSample.p "reg" (DtSample.cells [0x40000000; 0x10000000; 0x60000000; 0x10000000])] []].
Lemma second_bank_dropped :
  option_map (sum_map id memory) (Fdt.parse_fdt (DtSample.memory_of banks 0x48000000) 2000 0) =
  Some (inr [mkRegion 0x40000000 0x10000000]) ∧
  memory (Format.describe banks) = [mkRegion 0x40000000 0x10000000; mkRegion 0x60000000 0x10000000].
Proof. vm_compute. done. Qed.
(** Of the interrupts of a GIC those of private peripherals count from 16: the reader gives 16 too much. *)
Definition private_interrupt : tree :=
  Tree [] [DtSample.p "#size-cells" (DtSample.cells [1]); DtSample.p "#address-cells" (DtSample.cells [1])]
    [Tree (bytes "virtio_mmio@a000000")
       [DtSample.p "compatible" (DtSample.cstr "virtio,mmio"); DtSample.p "interrupts" (DtSample.cells [1; 5; 4]);
        DtSample.p "reg" (DtSample.cells [0xa000000; 0x200])] []].
Lemma private_interrupt_off :
  option_map (sum_map id virtio_devices) (Fdt.parse_fdt (DtSample.memory_of private_interrupt 0x48000000) 2000 0) =
  Some (inr [mkVirtio 0xa000000 0x200 37]) ∧
  virtio_devices (Format.describe private_interrupt) = [mkVirtio 0xa000000 0x200 21].
Proof. vm_compute. done. Qed.
