(* ===== verification/MigMem.v ===== *)
(** * The migration VM: its memory

    [confidential-migvm/src]: the calls to the realm monitor ([rsi.rs]), the page tables ([mm/paging.rs]), the
    memory map ([mm/mod.rs]), the pool for device buffers ([virtio/mod.rs]), shared pages ([mm/shared.rs]) and
    the part of the boot that puts them together ([main.rs], [arch/init.rs]).  The monitor and the processor
    are parameters. *)

From S2P Require Import Prelude Utf8 Xdr Text Fdt.

#[local] Open Scope string_scope.
#[local] Open Scope list_scope.
#[local] Open Scope Z_scope.

(** ** Loops *)

(** Up to [2 ^ n] turns of a loop, whose body gives the state of the next turn or the result *)
Fixpoint turns {A B} (n : nat) (body : A → A + B) (a : A) : A + B :=
  match n with
  | 0%nat => body a
  | S n => match turns n body a with inl a => turns n body a | inr b => inr b end
  end.
Definition result {A B} (r : A + B) : option B := match r with inl _ => None | inr b => Some b end.

(** A loop whose measure falls ends, with a result its invariant leads to. *)
Lemma turns_inv {A B} (body : A → A + B) (I : A → Prop) (Q : B → Prop) (m : A → Z) :
  (∀ a, I a → match body a with inl a' => I a' ∧ m a' < m a | inr b => Q b end) →
  ∀ n a, I a → match turns n body a with inl a' => I a' ∧ m a' ≤ m a - 2 ^ Z.of_nat n | inr b => Q b end.
Proof.
  intros Hb. induction n as [|n IH]; intros a Ha; simpl turns.
  { specialize (Hb a Ha). destruct (body a) as [a'|b]; [|done]. destruct Hb. split; [done|]. simpl. lia. }
  specialize (IH a Ha) as H1. destruct (turns n body a) as [a'|b]; [|done]. destruct H1 as [Ha' Hm].
  specialize (IH a' Ha'). destruct (turns n body a') as [a2|b]; [|done]. destruct IH as [? ?]. split; [done|].
  rewrite Nat2Z.inj_succ, Z.pow_succ_r by lia. lia.
Qed.
Lemma turns_end {A B} (body : A → A + B) (I : A → Prop) (Q : B → Prop) (m : A → Z) n a :
  (∀ a, I a → match body a with inl a' => I a' ∧ m a' < m a | inr b => Q b end) → (∀ a, I a → 0 ≤ m a) →
  I a → m a < 2 ^ Z.of_nat n → ∃ b, result (turns n body a) = Some b ∧ Q b.
Proof.
  intros Hb Hm Ha Hn. pose proof (turns_inv body I Q m Hb n a Ha) as H. destruct (turns n body a) as [a'|b]; [|by exists b].
  destruct H as [Ha' H]. apply Hm in Ha'. lia.
Qed.

(** ** The realm services interface *)

Definition RSI_ABI_VERSION : Z := Z.lor (Z.shiftl 1 16) 0.
Definition RSI_SUCCESS : Z := 0.
Definition RSI_ERROR_INPUT : Z := 1.
Definition RSI_ERROR_STATE : Z := 2.
Inductive Ripas := Empty | Ram | Destroyed | Dev.
#[export] Instance Ripas_eq : EqDecision Ripas.
Proof. solve_decision. Defined.
Definition ripas_code (r : Ripas) : Z := match r with Empty => 0 | Ram => 1 | Destroyed => 2 | Dev => 3 end.
Definition RSI_NO_CHANGE_DESTROYED : Z := 0.
Definition RSI_CHANGE_DESTROYED : Z := 1.
Definition RSI_ACCEPT : Z := 0.
Definition smc_rsi_fid (n : Z) : Z := Z.lor 0xC4000000 n.
Record SmcResult := mkSmc { x0 : Z; x1 : Z; x2 : Z; x3 : Z }.
(** The statics of [rsi.rs] *)
Record RsiState := mkRsi { RSI_PRESENT : bool; PROT_NS_SHARED : Z; SMC_TESTING : bool }.

Module Rsi.
Section monitor.
Context {RMM : Type}.
(** The monitor: its answer to an [smc] with these registers, and the realm configuration it writes *)
Variable monitor : list Z → RMM → SmcResult * RMM.
Variable ipa_bits_of : RMM → Z.
(** The processor has no [smc] instruction: the exception it raises is caught while it is tested, and
    [handle_sync_exception] leaves -1 in the first register. *)
Variable traps : bool.

Definition smc (fid a b c d : Z) (s : RMM) : SmcResult * RMM := monitor [fid; a; b; c; d] s.
Definition rsi_request_version (req : Z) (s : RMM) : (Z * Z * Z) * RMM :=
  let '(r, s) := smc (smc_rsi_fid 0x190) req 0 0 0 s in ((x0 r, x1 r, x2 r), s).
Definition rsi_get_realm_config (cfg_phys : Z) (s : RMM) : Z * RMM :=
  let '(r, s) := smc (smc_rsi_fid 0x196) cfg_phys 0 0 0 s in (x0 r, s).
Definition rsi_ipa_state_get (start end_ : Z) (s : RMM) : (Z * Z * Z) * RMM :=
  let '(r, s) := smc (smc_rsi_fid 0x198) start end_ 0 0 s in ((x0 r, x1 r, x2 r), s).
Definition rsi_ipa_state_set (start end_ : Z) (state : Ripas) (flags : Z) (s : RMM) : (Z * Z * Z) * RMM :=
  let '(r, s) := smc (smc_rsi_fid 0x197) start end_ (ripas_code state) flags s in ((x0 r, x1 r, x2 r), s).
(** A turn of the loop: the state of the next, or the result *)
Definition set_turn (end_ : Z) (state : Ripas) (flags : Z) (cs : Z * RMM) : Z * RMM + sum Z Z * RMM :=
  let '(current, s) := cs in
  if current <? end_ then
    let '((status, top, accepted), s) := rsi_ipa_state_set current end_ state flags s in
    if negb (status =? RSI_SUCCESS) then inr (inl status, s) else
    if negb (accepted =? RSI_ACCEPT) then inr (inl RSI_ERROR_STATE, s) else
    if (top <=? current) || (end_ <? top) then inr (inl RSI_ERROR_INPUT, s) else
    inl (top, s)
  else inr (inr end_, s).
Definition rsi_set_addr_range_state (start end_ : Z) (state : Ripas) (flags : Z) (s : RMM) : option (sum Z Z * RMM) :=
  result (turns 64 (set_turn end_ state flags) (start, s)).
Definition rsi_set_memory_range_protected (start end_ : Z) : RMM → option (sum Z Z * RMM) :=
  rsi_set_addr_range_state start end_ Ram RSI_CHANGE_DESTROYED.
Definition rsi_set_memory_range_protected_safe (start end_ : Z) : RMM → option (sum Z Z * RMM) :=
  rsi_set_addr_range_state start end_ Ram RSI_NO_CHANGE_DESTROYED.
Definition rsi_set_memory_range_shared (start end_ : Z) : RMM → option (sum Z Z * RMM) :=
  rsi_set_addr_range_state start end_ Empty RSI_CHANGE_DESTROYED.
Definition rsi_set_mmio_range_protected (start end_ : Z) : RMM → option (sum Z Z * RMM) :=
  rsi_set_addr_range_state start end_ Dev RSI_CHANGE_DESTROYED.
Definition rsi_host_call (ipa : Z) (s : RMM) : Z * RMM :=
  let '(r, s) := smc (smc_rsi_fid 0x199) ipa 0 0 0 s in (x0 r, s).
Definition rsi_measurement_read (index : Z) (s : RMM) : (Z * list Z) * RMM :=
  let '(r, s) := smc (smc_rsi_fid 0x192) index 0 0 0 s in
  let '(r2, s) := smc (smc_rsi_fid 0x192) index 0 0 0 s in
  ((x0 r, [x1 r; x2 r; x3 r; 0; x1 r2; x2 r2; x3 r2; 0]), s).
(** [u64::from_ne_bytes] of a little-endian machine *)
Definition from_ne_bytes (l : list byte) : Z := be_value (reverse l).
Definition word (challenge : list byte) (i : nat) : Z := from_ne_bytes (take 8 (drop (8 * i) challenge)).
Definition rsi_attestation_token_init (challenge : list byte) (s : RMM) : (Z * Z) * RMM :=
  let '(r, s) := monitor (smc_rsi_fid 0x194 :: map (word challenge) (seq 0 7)) s in ((x0 r, x1 r), s).
Definition rsi_attestation_token_continue (granule offset size : Z) (s : RMM) : (Z * Z) * RMM :=
  let '(r, s) := smc (smc_rsi_fid 0x195) granule offset size 0 s in ((x0 r, x1 r), s).

Definition is_realm_world (g : RsiState) : bool := RSI_PRESENT g.
Definition prot_ns_shared (g : RsiState) : Z := PROT_NS_SHARED g.
(** [cfg_phys] is where the local variable [config] lies. *)
Definition init_rsi (current_el cfg_phys : Z) (g : RsiState) (s : RMM) : bool * RsiState * RMM :=
  let el := Z.land (Z.shiftr current_el 2) 3 in
  if negb (el =? 1) then (false, g, s) else
  let g := mkRsi (RSI_PRESENT g) (PROT_NS_SHARED g) true in
  let '((status, lower, _), g, s) :=
    if traps then ((0xFFFFFFFF, RSI_ABI_VERSION, 0), mkRsi (RSI_PRESENT g) (PROT_NS_SHARED g) false, s)
    else let '(r, s) := rsi_request_version RSI_ABI_VERSION s in (r, g, s) in
  if status =? 0xFFFFFFFF then (false, g, s) else
  let g := mkRsi (RSI_PRESENT g) (PROT_NS_SHARED g) false in
  if negb (status =? RSI_SUCCESS) then (false, g, s) else
  let '(status, s) := rsi_get_realm_config cfg_phys s in
  if negb (status =? RSI_SUCCESS) then (false, g, s) else
  (true, mkRsi true (Z.shiftl 1 ((ipa_bits_of s - 1) mod 64)) false, s).

Definition unit_result (r : option (sum Z Z * RMM)) : option (sum Z () * RMM) :=
  '(r, s) ← r; Some (match r with inl e => inl e | inr _ => inr () end, s).
Definition accept_memory (g : RsiState) (start end_ : Z) (s : RMM) : option (sum Z () * RMM) :=
  if negb (is_realm_world g) then Some (inr (), s)
  else unit_result (rsi_set_memory_range_protected_safe start end_ s).
Definition mark_shared (g : RsiState) (start end_ : Z) (s : RMM) : option (sum Z () * RMM) :=
  if negb (is_realm_world g) then Some (inr (), s)
  else unit_result (rsi_set_memory_range_shared start end_ s).
Definition mark_mmio_protected (g : RsiState) (start end_ : Z) (s : RMM) : option (sum Z () * RMM) :=
  if negb (is_realm_world g) then Some (inr (), s)
  else unit_result (rsi_set_mmio_range_protected start end_ s).
End monitor.
End Rsi.

(** ** Page tables *)

Definition ENTRY_COUNT : Z := 512.
Definition PTE_VALID : Z := Z.shiftl 1 0.
Definition PTE_TABLE : Z := Z.shiftl 1 1.
Definition PTE_AF : Z := Z.shiftl 1 10.
Definition PTE_SH_INNER : Z := Z.shiftl 3 8.
Definition PTE_SH_OUTER : Z := Z.shiftl 2 8.
Definition PTE_ATTR_NORMAL : Z := Z.shiftl 0 2.
Definition PTE_ATTR_NORMAL_NC : Z := Z.shiftl 1 2.
Definition PTE_ATTR_DEVICE : Z := Z.shiftl 2 2.
Definition PTE_PXN : Z := Z.shiftl 1 53.
Definition PTE_UXN : Z := Z.shiftl 1 54.
Definition PTE_DBM : Z := Z.shiftl 1 51.
Definition PTE_AP_RO : Z := Z.shiftl 1 7.
Definition PTE_AP_RW_EL1 : Z := Z.lor (Z.shiftl 1 7) (Z.shiftl 1 6).
Definition CVM_PTE_NS : Z := Z.shiftl 1 5.
Definition PTE_PAGE : Z := Z.lor PTE_VALID PTE_TABLE.
Definition ors (l : list Z) : Z := foldr Z.lor 0 l.
Definition PROT_NORMAL : Z := ors [PTE_AF; PTE_SH_INNER; PTE_ATTR_NORMAL; PTE_PXN; PTE_UXN; PTE_DBM; PTE_AP_RW_EL1].
Definition PROT_NORMAL_NC : Z := ors [PTE_AF; PTE_SH_OUTER; PTE_ATTR_NORMAL_NC; PTE_PXN; PTE_UXN; PTE_DBM; PTE_AP_RW_EL1].
Definition PROT_DEVICE : Z := ors [PTE_AF; PTE_ATTR_DEVICE; PTE_PXN; PTE_UXN; PTE_DBM; PTE_AP_RW_EL1].
Definition PROT_KERNEL_ROX : Z := ors [PTE_AF; PTE_SH_INNER; PTE_ATTR_NORMAL; PTE_UXN; PTE_AP_RO].
Definition PROT_KERNEL_RO : Z := ors [PTE_AF; PTE_SH_INNER; PTE_ATTR_NORMAL; PTE_PXN; PTE_UXN; PTE_AP_RO].
Definition PROT_KERNEL_RW : Z := PROT_NORMAL.
(** [e & !0x1FF] *)
Definition clear9 (e : Z) : Z := Z.land e (2 ^ 64 - 1 - 0x1FF).

(** The words of memory by their address, and the static of [alloc_l3_table] *)
Record PageTables := mkTables { entry_at : Z → Z; L3_NEXT : Z }.
(** The symbols of the linker *)
Record Symbols := mkSymbols {
  page_table_start : Z; text_start : Z; text_end : Z; rodata_start : Z; rodata_end : Z; data_start : Z; data_end : Z
}.

Module Paging.
Section symbols.
Variable sym : Symbols.

(** The tables are written by their physical address.  A store of the code goes through the translation, which
    is the identity on the tables while no window for a device is opened over them. *)
Definition write_volatile (a v : Z) (t : PageTables) : PageTables :=
  mkTables (λ x, if x =? a then v else entry_at t x) (L3_NEXT t).
(** The loops that write zero to consecutive words *)
Definition write_zeros (a n : Z) (t : PageTables) : PageTables :=
  mkTables (λ x, if (a <=? x) && (x <? a + 8 * n) && ((x - a) mod 8 =? 0) then 0 else entry_at t x) (L3_NEXT t).
Definition page_table_base : Z := page_table_start sym.
Definition l0_table : Z := page_table_base.
Definition l1_table : Z := page_table_base + 8 * ENTRY_COUNT.
Definition l2_table_for (vaddr : Z) : Z :=
  let l1_idx := Z.land (Z.shiftr vaddr 30) 0x1FF in
  page_table_base + 8 * (2 * ENTRY_COUNT + l1_idx * ENTRY_COUNT).
Definition l2_idx (vaddr : Z) : Z := Z.land (Z.shiftr vaddr 21) 0x1FF.
Definition l3_idx (vaddr : Z) : Z := Z.land (Z.shiftr vaddr 12) 0x1FF.
Definition alloc_l3_table (t : PageTables) : Z * PageTables :=
  let l3_offset := 4 * ENTRY_COUNT + L3_NEXT t * ENTRY_COUNT in
  let table := page_table_base + 8 * l3_offset in
  (table, write_zeros table ENTRY_COUNT (mkTables (entry_at t) (L3_NEXT t + 1))).

(** [while v < end], where [n] is the number of blocks that begin before the end *)
Fixpoint map_blocks (n : nat) (v p prot : Z) (t : PageTables) : PageTables :=
  match n with
  | 0%nat => t
  | S n =>
      map_blocks n (v + 0x200000) (p + 0x200000) prot
        (write_volatile (l2_table_for v + 8 * l2_idx v) (Z.lor (Z.lor p PTE_VALID) prot) t)
  end.
Definition blocks (size : Z) : nat := Z.to_nat ((size + 0x1FFFFF) / 0x200000).
Definition map_2mb_blocks (vaddr paddr size prot : Z) (t : PageTables) : PageTables := map_blocks (blocks size) vaddr paddr prot t.
Definition map_range (vaddr paddr size prot : Z) (t : PageTables) : PageTables := map_blocks (blocks size) vaddr paddr prot t.

Definition kernel_prot (va : Z) : Z :=
  if (text_start sym <=? va) && (va <? text_end sym) then PROT_KERNEL_ROX
  else if (rodata_start sym <=? va) && (va <? rodata_end sym) then PROT_KERNEL_RO
  else if (data_start sym <=? va) && (va <? data_end sym) then PROT_KERNEL_RW
  else PROT_KERNEL_RW.
Definition init_page_tables (pt_size : Z) (t : PageTables) : PageTables :=
  let t := write_zeros page_table_base (pt_size / 8) t in
  let t := write_volatile l0_table (Z.lor (Z.lor l1_table PTE_VALID) PTE_TABLE) t in
  let ram_base := 0x40000000 in
  let ram_size := 0x40000000 in
  let first_2mb := ram_base + 0x200000 in
  let t := map_2mb_blocks first_2mb first_2mb (ram_size - 0x200000) PROT_NORMAL t in
  let '(l3, t) := alloc_l3_table t in
  let t := write_volatile (l2_table_for ram_base) (Z.lor (Z.lor l3 PTE_VALID) PTE_TABLE) t in
  let t := foldl (λ t i, let va := ram_base + i * 0x1000 in
                         write_volatile (l3 + 8 * i) (Z.lor (Z.lor va PTE_VALID) (kernel_prot va)) t) t (seqZ 0 ENTRY_COUNT) in
  map_2mb_blocks 0 0 0x40000000 PROT_DEVICE t.

(** [(vaddr - 0x40000000) >> 21] on [u64] *)
Definition block_idx (vaddr : Z) : Z := Z.shiftr (Int.u64 (vaddr - 0x40000000)) 21.
Definition map_block (flags vaddr paddr : Z) (t : PageTables) : PageTables :=
  let l1_idx := block_idx vaddr in
  if ENTRY_COUNT <=? l1_idx then t
  else write_volatile (l1_table + 8 * l1_idx) (Z.lor (Z.land paddr 0xFFFFFFFFFFE00000) flags) t.
Definition map_2mb_device : Z → Z → PageTables → PageTables := map_block 0x701.
Definition map_bar_space : Z → Z → PageTables → PageTables := map_block 0x609.

Definition map_page (vaddr paddr prot : Z) (t : PageTables) : PageTables :=
  let slot := l2_table_for vaddr + 8 * l2_idx vaddr in
  let entry := entry_at t slot in
  let '(l3, t) :=
    if negb (Z.land entry PTE_TABLE =? 0) then (clear9 entry, t)
    else
      let '(l3_base, t) := alloc_l3_table t in
      let old := entry_at t slot in
      if negb (Z.land old PTE_VALID =? 0) then (clear9 old, write_volatile slot (Z.lor old PTE_TABLE) t)
      else (l3_base, write_volatile slot (Z.lor (Z.lor l3_base PTE_VALID) PTE_TABLE) t) in
  write_volatile (l3 + 8 * l3_idx vaddr) (Z.lor (Z.lor paddr PTE_PAGE) prot) t.
Definition unmap_page (vaddr : Z) (t : PageTables) : PageTables :=
  let l2_entry := entry_at t (l2_table_for vaddr + 8 * l2_idx vaddr) in
  if Z.land l2_entry PTE_TABLE =? 0 then t
  else write_volatile (clear9 l2_entry + 8 * l3_idx vaddr) 0 t.
Definition virt_to_phys (vaddr : Z) (t : PageTables) : option Z :=
  let l2_entry := entry_at t (l2_table_for vaddr + 8 * l2_idx vaddr) in
  if Z.land l2_entry PTE_VALID =? 0 then None
  else if negb (Z.land l2_entry PTE_TABLE =? 0) then
    let l3_entry := entry_at t (clear9 l2_entry + 8 * l3_idx vaddr) in
    if Z.land l3_entry PTE_VALID =? 0 then None
    else Some (Z.lor (clear9 l3_entry) (Z.land vaddr 0xFFF))
  else Some (Z.lor (clear9 l2_entry) (Z.land vaddr 0x1FFFFF)).

Definition pgprot_encrypted (g : RsiState) (prot : Z) : Z := Z.ldiff prot (Rsi.prot_ns_shared g).
Definition pgprot_decrypted (g : RsiState) (prot : Z) : Z := Z.lor prot (Rsi.prot_ns_shared g).
Definition map_shared_page (g : RsiState) (vaddr paddr : Z) : PageTables → PageTables :=
  map_page vaddr paddr (pgprot_decrypted g PROT_NORMAL_NC).
Definition map_protected_page (g : RsiState) (vaddr paddr : Z) : PageTables → PageTables :=
  map_page vaddr paddr (pgprot_encrypted g PROT_NORMAL).
Definition map_shared_range (g : RsiState) (vaddr paddr size : Z) : PageTables → PageTables :=
  map_range vaddr paddr size (pgprot_decrypted g PROT_NORMAL_NC).
(** The blocks of a range, of [virtcca] *)
Fixpoint mark_blocks (n : nat) (v : Z) (t : PageTables) : PageTables :=
  match n with
  | 0%nat => t
  | S n =>
      let slot := l1_table + 8 * block_idx v in
      let entry := entry_at t slot in
      let t := if (block_idx v <? ENTRY_COUNT) && negb (Z.land entry PTE_VALID =? 0)
               then write_volatile slot (Z.lor entry CVM_PTE_NS) t else t in
      mark_blocks n (v + 0x200000) t
  end.
Definition mark_range_shared_virtcca (vaddr size : Z) (t : PageTables) : PageTables := mark_blocks (blocks size) vaddr t.
End symbols.
End Paging.

(** ** Pages for devices *)

Inductive DmaMode := DMA_MODE_HEAP | DMA_MODE_SHARED_POOL.
(** The statics of [virtio/mod.rs], the heap and the bytes of memory *)
Record Dma {H : Type} := mkDma {
  DMA_MODE : DmaMode; DMA_POOL_BASE : Z; DMA_POOL_OFFSET : Z; DMA_POOL_SIZE : Z; heap : H; mem : Z → byte
}.
Arguments Dma : clear implicits.
Arguments mkDma {H}.

Module Pool.
Section heap.
Context {H : Type}.
(** The allocator of the heap: the size, both for pages *)
Variable alloc : Z → H → option Z * H.
Variable dealloc : Z → Z → H → H.

(** [ptr::write_bytes(addr, 0, n)] *)
Definition write_bytes (addr n : Z) (d : Dma H) : Dma H :=
  mkDma (DMA_MODE d) (DMA_POOL_BASE d) (DMA_POOL_OFFSET d) (DMA_POOL_SIZE d) (heap d)
    (λ x, if (addr <=? x) && (x <? addr + n) then x00 else mem d x).
Definition dma_pool_used (d : Dma H) : Z := DMA_POOL_OFFSET d.
Definition dma_pool_capacity (d : Dma H) : Z := DMA_POOL_SIZE d.
Definition init_dma_pool_normal (d : Dma H) : Dma H :=
  mkDma DMA_MODE_HEAP (DMA_POOL_BASE d) (DMA_POOL_OFFSET d) (DMA_POOL_SIZE d) (heap d) (mem d).
Definition init_dma_pool_shared (pool_va pool_size : Z) (d : Dma H) : Dma H :=
  mkDma DMA_MODE_SHARED_POOL pool_va 0 pool_size (heap d) (mem d).
Definition alloc_dma_pages (num_pages : Z) (d : Dma H) : option Z * Dma H :=
  let size := Int.u64 (num_pages * 0x1000) in
  match DMA_MODE d with
  | DMA_MODE_SHARED_POOL =>
      let offset := DMA_POOL_OFFSET d in
      let d := mkDma DMA_MODE_SHARED_POOL (DMA_POOL_BASE d) (Int.u64 (offset + size)) (DMA_POOL_SIZE d) (heap d) (mem d) in
      if DMA_POOL_SIZE d <? Int.u64 (offset + size) then (None, d)
      else
        let addr := Int.u64 (DMA_POOL_BASE d + offset) in
        (Some addr, write_bytes addr size d)
  | DMA_MODE_HEAP =>
      let '(r, h) := alloc size (heap d) in
      (r, mkDma DMA_MODE_HEAP (DMA_POOL_BASE d) (DMA_POOL_OFFSET d) (DMA_POOL_SIZE d) h (mem d))
  end.
Definition free_dma_pages (addr num_pages : Z) (d : Dma H) : Dma H :=
  match DMA_MODE d with
  | DMA_MODE_SHARED_POOL => d
  | DMA_MODE_HEAP =>
      mkDma DMA_MODE_HEAP (DMA_POOL_BASE d) (DMA_POOL_OFFSET d) (DMA_POOL_SIZE d)
        (dealloc addr (Int.u64 (num_pages * 0x1000)) (heap d)) (mem d)
  end.
End heap.
End Pool.

(** ** The memory map, shared pages and the boot *)

Inductive RegionType := MEMORY_TYPE_RAM | MEMORY_TYPE_MMIO | MEMORY_TYPE_SHARED.
#[export] Instance RegionType_eq : EqDecision RegionType.
Proof. solve_decision. Defined.
Record MemoryRegion := mkMemory { r_addr : Z; r_size : Z; region_type : RegionType }.
Definition region_end (r : MemoryRegion) : Z := Int.u64 (r_addr r + r_size r).
(** [buf] has no state but its address *)
Record SharedMemory := mkShared { vaddr : Z; pages : Z; is_shared : bool }.
(** Everything that stays for the life of the VM *)
Record Machine {RMM H : Type} := mkMachine {
  rsi : RsiState; rmm : RMM; tables : PageTables; dma : Dma H; MEMORY_MAP : list MemoryRegion
}.
Arguments Machine : clear implicits.
Arguments mkMachine {RMM H}.

Module Mm.
Section machine.
Context {RMM H : Type}.
Variable monitor : list Z → RMM → SmcResult * RMM.
Variable sym : Symbols.

Definition mmio_regions : list MemoryRegion :=
  [mkMemory 0x08000000 0x00C00000 MEMORY_TYPE_MMIO; mkMemory 0x09000000 0x00001000 MEMORY_TYPE_MMIO].
Definition set_map (l : list MemoryRegion) (m : Machine RMM H) : Machine RMM H := mkMachine (rsi m) (rmm m) (tables m) (dma m) l.
Definition set_rmm (s : RMM) (m : Machine RMM H) : Machine RMM H := mkMachine (rsi m) s (tables m) (dma m) (MEMORY_MAP m).
Definition set_tables (t : PageTables) (m : Machine RMM H) : Machine RMM H := mkMachine (rsi m) (rmm m) t (dma m) (MEMORY_MAP m).
Definition set_dma (d : Dma H) (m : Machine RMM H) : Machine RMM H := mkMachine (rsi m) (rmm m) (tables m) d (MEMORY_MAP m).
Definition init_memory_map : Machine RMM H → Machine RMM H :=
  set_map (mkMemory 0x40000000 0x40000000 MEMORY_TYPE_RAM :: mmio_regions).
Definition init_memory_map_from_fdt (fdt_memory : list MemRegion) : Machine RMM H → Machine RMM H :=
  set_map (map (λ r, mkMemory (mr_base r) (mr_size r) MEMORY_TYPE_RAM) fdt_memory ++ mmio_regions).

(** [(a + 0xFFF) & !0xFFF] and [a & !0xFFF] on [u64] *)
Definition page_down (a : Z) : Z := a / 0x1000 * 0x1000.
Definition page_up (a : Z) : Z := page_down (Int.u64 (a + 0xFFF)).
Definition accept_region (g : RsiState) (acc : option RMM) (r : MemoryRegion) : option RMM :=
  s ← acc;
  if decide (region_type r = MEMORY_TYPE_RAM) then
    let aligned_start := page_up (r_addr r) in
    let aligned_end := page_down (region_end r) in
    if aligned_start <? aligned_end then
      '(_, s) ← Rsi.accept_memory monitor g aligned_start aligned_end s;
      Some s
    else Some s
  else Some s.
Definition accept_all_ram (m : Machine RMM H) : option (Machine RMM H) :=
  if negb (Rsi.is_realm_world (rsi m)) then Some m else
  s ← foldl (accept_region (rsi m)) (Some (rmm m)) (MEMORY_MAP m);
  Some (set_rmm s m).

Definition DMA_POOL_VA : Z := 0x70000000.
Definition POOL_SIZE : Z := 0x200000.
Definition init_dma_shared_pool (mem_base mem_size : Z) (m : Machine RMM H) : option (option (Z * Z * Z) * Machine RMM H) :=
  let pool_pa := mem_base + mem_size - POOL_SIZE in
  if pool_pa <? mem_base + 8 * 0x100000 then Some (None, m) else
  '(ok, m) ← (if Rsi.is_realm_world (rsi m) then
                '(r, s) ← Rsi.mark_shared monitor (rsi m) pool_pa (pool_pa + POOL_SIZE) (rmm m);
                Some (match r with inl _ => false | inr _ => true end, set_rmm s m)
              else Some (true, m));
  if negb ok then Some (None, m) else
  let m := set_tables (Paging.map_shared_range sym (rsi m) DMA_POOL_VA pool_pa POOL_SIZE (tables m)) m in
  let m := set_dma (Pool.init_dma_pool_shared DMA_POOL_VA POOL_SIZE (dma m)) m in
  Some (Some (pool_pa, DMA_POOL_VA, POOL_SIZE), m).

(** The part of [_start_rust_impl] that sets the memory up, of a [cca] build; [fdt] is what was parsed *)
Definition boot_cca (fdt : option FdtInfo) (m : Machine RMM H) : option (Machine RMM H) :=
  let m := match fdt with Some info => init_memory_map_from_fdt (memory info) m | None => init_memory_map m end in
  if Rsi.is_realm_world (rsi m) then
    m ← accept_all_ram m;
    '(_, m) ← init_dma_shared_pool 0x40000000 0x40000000 m;
    Some m
  else Some (set_dma (Pool.init_dma_pool_normal (dma m)) m).

(** ** [mm/shared.rs] *)

(** [addr] is where the vector was allocated. *)
Definition new (num addr : Z) : option SharedMemory :=
  if (num =? 0) || (2 ^ 64 <=? num * 0x1000) then None else Some (mkShared addr num false).
Definition map_each (f : Z → Z → PageTables → PageTables) (start n : Z) (t : PageTables) : PageTables :=
  foldl (λ t i, let v := start + i * 0x1000 in f v v t) t (seqZ 0 n).
(** The change of a range in the monitor and in the page tables, where there is a monitor *)
Definition change (call : Z → Z → RMM → option (sum Z () * RMM)) (f : Z → Z → PageTables → PageTables)
    (sm : SharedMemory) (to : bool) (m : Machine RMM H) : option (bool * SharedMemory * Machine RMM H) :=
  if Rsi.is_realm_world (rsi m) then
    let start := page_down (vaddr sm) in
    '(r, s) ← call start (start + pages sm * 0x1000) (rmm m);
    let m := set_rmm s m in
    match r with
    | inl _ => Some (false, sm, m)
    | inr _ => Some (true, mkShared (vaddr sm) (pages sm) to, set_tables (map_each f start (pages sm) (tables m)) m)
    end
  else Some (true, mkShared (vaddr sm) (pages sm) to, m).
Definition mark_shared (sm : SharedMemory) (m : Machine RMM H) : option (bool * SharedMemory * Machine RMM H) :=
  if is_shared sm then Some (true, sm, m)
  else change (Rsi.mark_shared monitor (rsi m)) (Paging.map_shared_page sym (rsi m)) sm true m.
Definition mark_private (sm : SharedMemory) (m : Machine RMM H) : option (bool * SharedMemory * Machine RMM H) :=
  if negb (is_shared sm) then Some (true, sm, m)
  else change (Rsi.accept_memory monitor (rsi m)) (Paging.map_protected_page sym (rsi m)) sm false m.
(** [addr] is where the boxed slice was allocated. *)
Definition alloc_shared_pages (num addr : Z) (m : Machine RMM H) : option (option Z * Machine RMM H) :=
  if 2 ^ 64 <=? num * 0x1000 then Some (None, m) else
  if Rsi.is_realm_world (rsi m) then
    let start := page_down addr in
    '(r, s) ← Rsi.mark_shared monitor (rsi m) start (start + num * 0x1000) (rmm m);
    Some (match r with inl _ => None | inr _ => Some addr end, set_rmm s m)
  else Some (Some addr, m).
(** The pages go back to the heap after this. *)
Definition free_shared_pages (addr num : Z) (m : Machine RMM H) : option (Machine RMM H) :=
  if Rsi.is_realm_world (rsi m) then
    let start := page_down addr in
    '(_, s) ← Rsi.accept_memory monitor (rsi m) start (start + num * 0x1000) (rmm m);
    Some (set_rmm s m)
  else Some m.
End machine.
End Mm.

(** ** What the monitor promises *)

(** Of the addresses of a realm the monitor keeps the state.  A change asked for [base, top) leaves the rest
    alone and brings no other state; when it is done and accepted it covers the addresses up to the one the monitor returns. *)
Class Monitor {RMM : Type} (monitor : list Z → RMM → SmcResult * RMM) := {
  ripas : RMM → Z → Ripas;
  set_outside : ∀ s base top st flags r s' a,
    monitor [smc_rsi_fid 0x197; base; top; ripas_code st; flags] s = (r, s') →
    ¬ (base ≤ a < top) → ripas s' a = ripas s a;
  set_inside : ∀ s base top st flags r s' a,
    monitor [smc_rsi_fid 0x197; base; top; ripas_code st; flags] s = (r, s') →
    ripas s' a = ripas s a ∨ ripas s' a = st;
  set_beyond : ∀ s base top st flags r s' a,
    monitor [smc_rsi_fid 0x197; base; top; ripas_code st; flags] s = (r, s') →
    x0 r = RSI_SUCCESS → x1 r ≤ a → ripas s' a = ripas s a;
  set_done : ∀ s base top st flags r s' a,
    monitor [smc_rsi_fid 0x197; base; top; ripas_code st; flags] s = (r, s') →
    x0 r = RSI_SUCCESS → x2 r = RSI_ACCEPT → base ≤ a < Z.min (x1 r) top → ripas s' a = st
}.

Section rsi_thms.
Context {RMM : Type} (monitor : list Z → RMM → SmcResult * RMM) `{!Monitor monitor}.

(** A request the monitor may be expected to grant: whole pages of the protected addresses, those below [limit],
    to become RAM or empty; pages that were destroyed only where the request says so. *)
Definition grantable (limit base top : Z) (st : Ripas) (flags : Z) (s : RMM) : Prop :=
  base mod 0x1000 = 0 ∧ top mod 0x1000 = 0 ∧ 0 ≤ base ∧ top ≤ limit ∧ (st = Ram ∨ st = Empty) ∧
  (flags = RSI_CHANGE_DESTROYED ∨ ∀ a, base ≤ a < top → ripas s a ≠ Destroyed).
(** Monitor and host agree to every such request, in however many steps. *)
Definition grants (limit : Z) : Prop :=
  ∀ base top st flags s, base < top → grantable limit base top st flags s →
  let r := (monitor [smc_rsi_fid 0x197; base; top; ripas_code st; flags] s).1 in
  x0 r = RSI_SUCCESS ∧ x2 r = RSI_ACCEPT ∧ base < x1 r ≤ top ∧ x1 r mod 0x1000 = 0.

(** What a call on a range has done: [ok] says that it succeeded. *)
Definition changed (flags start end_ : Z) (st : Ripas) (ok : bool) (s s' : RMM) : Prop :=
  (∀ a, ¬ (start ≤ a < end_) → ripas s' a = ripas s a) ∧ (∀ a, ripas s' a = ripas s a ∨ ripas s' a = st) ∧
  (ok = true → ∀ a, start ≤ a < end_ → ripas s' a = st) ∧
  (∀ limit, grants limit → grantable limit start end_ st flags s → ok = true).
Definition is_ok {A B} (r : A + B) : bool := match r with inl _ => false | inr _ => true end.

Lemma set_range_spec start end_ st flags s :
  0 ≤ start → end_ < 2 ^ 64 →
  ∃ r s', Rsi.rsi_set_addr_range_state monitor start end_ st flags s = Some (r, s') ∧ changed flags start end_ st (is_ok r) s s'.
Proof.
  intros Hs He.
  destruct (turns_end (Rsi.set_turn monitor end_ st flags)
    (λ cs, start ≤ cs.1 ∧ (start ≤ end_ → cs.1 ≤ end_) ∧
      changed flags start (if start <=? end_ then cs.1 else start) st true s cs.2 ∧
      ∀ limit, grants limit → grantable limit start end_ st flags s → cs.1 mod 0x1000 = 0)
    (λ rs, changed flags start end_ st (is_ok rs.1) s rs.2)
    (λ cs, Z.max 0 (end_ - cs.1)) 64 (start, s)) as ([r s'] & Hr & Hq); simpl.
  - intros [c t] (Hc & Hce & Hch & Hal). unfold Rsi.set_turn, Rsi.rsi_ipa_state_set, Rsi.smc. simpl in *.
    destruct (Z.ltb_spec c end_) as [Hlt|Hge].
    2:{ destruct Hch as (H1 & H2 & H3 & H4). destruct (Z.leb_spec start end_); split_and!; try done; intros;
          try (apply H1; lia); apply H3; (done || lia). }
    rewrite (proj2 (Z.leb_le start end_)) in * by lia. destruct Hch as (H1 & H2 & H3 & _).
    destruct (monitor _ t) as [r t'] eqn:Hm.
    assert (Hfail : ∀ ok, (ok = true → False) → (∀ limit, grants limit → grantable limit start end_ st flags s → False) →
      changed flags start end_ st ok s t').
    { intros ok Hok Hg. split_and!; [| |tauto|intros limit G1 G2; by destruct (Hg limit G1 G2)]; intros a.
      - intros Ha. rewrite (set_outside _ _ _ _ _ _ _ _ Hm) by lia. apply H1. lia.
      - destruct (set_inside _ _ _ _ _ _ _ a Hm) as [->|]; auto. }
    assert (Hgr : ∀ limit, grants limit → grantable limit start end_ st flags s →
      x0 r = RSI_SUCCESS ∧ x2 r = RSI_ACCEPT ∧ c < x1 r ≤ end_ ∧ x1 r mod 0x1000 = 0).
    { intros limit Hg Hgt. pose proof (Hal limit Hg Hgt) as Hc0. destruct Hgt as (G1 & G2 & G3 & G4 & G5 & G6).
      specialize (Hg c end_ st flags t Hlt). rewrite Hm in Hg. apply Hg. split_and!; try done; [lia|].
      destruct G6 as [|G6]; [by left|right]. intros a Ha. destruct (H2 a) as [->| ->]; [apply G6; lia|].
      by destruct G5 as [->| ->]. }
    destruct (Z.eqb_spec (x0 r) RSI_SUCCESS) as [H0|]; [|apply Hfail; [done|intros limit Hg Hgt; destruct (Hgr limit Hg Hgt); tauto]].
    destruct (Z.eqb_spec (x2 r) RSI_ACCEPT) as [Ha|]; [|apply Hfail; [done|intros limit Hg Hgt; destruct (Hgr limit Hg Hgt); tauto]].
    destruct (Z.leb_spec (x1 r) c), (Z.ltb_spec end_ (x1 r)); simpl; try (apply Hfail; [done|intros limit Hg Hgt; pose proof (Hgr limit Hg Hgt); lia]).
    split; [|lia]. split_and!; [lia|lia| |intros limit Hg Hgt; by destruct (Hgr limit Hg Hgt) as (_ & _ & _ & ?)].
    split_and!; [..|done].
    + intros a Hx. destruct (Z.lt_ge_cases a c); [rewrite (set_outside _ _ _ _ _ _ _ _ Hm) by lia; apply H1; lia|].
      destruct (decide (end_ ≤ a)); [rewrite (set_outside _ _ _ _ _ _ _ _ Hm) by lia; apply H1; lia|].
      rewrite (set_beyond _ _ _ _ _ _ _ _ Hm H0) by lia. apply H1. lia.
    + intros a. destruct (set_inside _ _ _ _ _ _ _ a Hm) as [->|]; auto.
    + intros _ a Hx. destruct (Z.lt_ge_cases a c).
      * rewrite (set_outside _ _ _ _ _ _ _ _ Hm) by lia. apply H3; (done || lia).
      * apply (set_done _ _ _ _ _ _ _ _ Hm); (done || lia).
  - lia.
  - split_and!; [lia|lia| |by intros limit _ (? & _)]. destruct (Z.leb_spec start end_); split_and!; auto; lia.
  - simpl. lia.
  - exists r, s'. split; [exact Hr|exact Hq].
Qed.

(** ** Setting the memory up *)

Context {H : Type} (sym : Symbols).
Implicit Types (m : Machine RMM H).

Definition region_ok (r : MemoryRegion) : Prop :=
  0 ≤ r_addr r ∧ 0 ≤ r_size r ∧ r_addr r + 0xFFF < 2 ^ 64 ∧ r_addr r + r_size r < 2 ^ 64.
(** Of RAM: it ends below [limit]. *)
Definition below (limit : Z) (r : MemoryRegion) : Prop := region_type r = MEMORY_TYPE_RAM → r_addr r + r_size r ≤ limit.
(** The whole pages of the RAM of a map *)
Definition in_ram (l : list MemoryRegion) (a : Z) : Prop :=
  ∃ r, r ∈ l ∧ region_type r = MEMORY_TYPE_RAM ∧ Mm.page_up (r_addr r) ≤ a < Mm.page_down (region_end r).

Lemma page_down_nonneg a : 0 ≤ a → 0 ≤ Mm.page_down a ≤ a.
Proof. unfold Mm.page_down. pose proof (Z.div_mod a 0x1000). pose proof (Z.mod_pos_bound a 0x1000). lia. Qed.
Lemma page_down_mod a : Mm.page_down a mod 0x1000 = 0.
Proof. unfold Mm.page_down. by rewrite Z.mod_mul. Qed.
Lemma accept_memory_spec g start end_ s :
  RSI_PRESENT g = true → 0 ≤ start → end_ < 2 ^ 64 →
  ∃ r s', Rsi.accept_memory monitor g start end_ s = Some (r, s') ∧
    changed RSI_NO_CHANGE_DESTROYED start end_ Ram (is_ok r) s s'.
Proof.
  intros Hg Hs He. unfold Rsi.accept_memory, Rsi.is_realm_world, Rsi.rsi_set_memory_range_protected_safe. rewrite Hg. simpl.
  destruct (set_range_spec start end_ Ram RSI_NO_CHANGE_DESTROYED s Hs He) as (r & s' & -> & Hc). simpl.
  eexists _, s'. split; [done|]. by destruct r.
Qed.
Lemma mark_shared_spec g start end_ s :
  RSI_PRESENT g = true → 0 ≤ start → end_ < 2 ^ 64 →
  ∃ r s', Rsi.mark_shared monitor g start end_ s = Some (r, s') ∧
    changed RSI_CHANGE_DESTROYED start end_ Empty (is_ok r) s s'.
Proof.
  intros Hg Hs He. unfold Rsi.mark_shared, Rsi.is_realm_world, Rsi.rsi_set_memory_range_shared. rewrite Hg. simpl.
  destruct (set_range_spec start end_ Empty RSI_CHANGE_DESTROYED s Hs He) as (r & s' & -> & Hc). simpl.
  eexists _, s'. split; [done|]. by destruct r.
Qed.
Lemma accept_region_spec g s r : RSI_PRESENT g = true → region_ok r →
  ∃ s', Mm.accept_region monitor g (Some s) r = Some s' ∧ (∀ a, ripas s' a = ripas s a ∨ ripas s' a = Ram) ∧
    (∀ a, ¬ in_ram [r] a → ripas s' a = ripas s a) ∧
    (∀ limit, grants limit → below limit r → (∀ a, in_ram [r] a → ripas s a ≠ Destroyed) →
      ∀ a, in_ram [r] a → ripas s' a = Ram).
Proof.
  intros Hg (H1 & H2 & H3 & H4). unfold Mm.accept_region. cbn [mbind option_bind].
  destruct (decide _) as [Ht|Ht].
  2:{ exists s. split_and!; auto. intros _ _ _ _ a (r' & ->%list_elem_of_singleton & ? & _). done. }
  assert (Hu : 0 ≤ Mm.page_up (r_addr r)) by (apply page_down_nonneg, Z.mod_pos_bound; lia).
  assert (Hd : Mm.page_down (region_end r) < 2 ^ 64).
  { unfold region_end. rewrite Int.u64_small by lia. pose proof (page_down_nonneg (r_addr r + r_size r)). lia. }
  assert (Hin : ∀ a, in_ram [r] a ↔ Mm.page_up (r_addr r) ≤ a < Mm.page_down (region_end r)).
  { intros a. split; [by intros (r' & ->%list_elem_of_singleton & _ & ?)|]. intros Ha. exists r. by rewrite list_elem_of_singleton. }
  destruct (Z.ltb_spec (Mm.page_up (r_addr r)) (Mm.page_down (region_end r))).
  - destruct (accept_memory_spec g _ _ s Hg Hu Hd) as (r' & s' & -> & C1 & C2 & C3 & C4). cbn [mbind option_bind].
    exists s'. split_and!; [done|done| |]; intros.
    + apply C1. by rewrite <- Hin.
    + apply C3; [|by apply Hin]. apply (C4 limit); [done|]. split_and!; [apply page_down_mod..|done| |by left|right].
      * pose proof (page_down_nonneg (region_end r)) as Hpd. unfold region_end in *. rewrite Int.u64_small in * by lia.
        specialize (H6 Ht). lia.
      * intros b Hb. apply H7. by apply Hin.
  - exists s. split_and!; auto. intros _ _ _ _ a Ha%Hin. lia.
Qed.
Lemma accept_all_spec g l s : RSI_PRESENT g = true → Forall region_ok l →
  ∃ s', foldl (Mm.accept_region monitor g) (Some s) l = Some s' ∧ (∀ a, ripas s' a = ripas s a ∨ ripas s' a = Ram) ∧
    (∀ a, ¬ in_ram l a → ripas s' a = ripas s a) ∧
    (∀ limit, grants limit → Forall (below limit) l → (∀ a, in_ram l a → ripas s a ≠ Destroyed) →
      ∀ a, in_ram l a → ripas s' a = Ram).
Proof.
  intros Hg. revert s. induction l as [|r l IH]; intros s Hl.
  { exists s. split_and!; auto. intros _ _ _ _ a (r & Hr%elem_of_nil & _). done. }
  apply Forall_cons in Hl as [Hr Hl]. destruct (accept_region_spec g s r Hg Hr) as (s1 & E1 & A1 & B1 & C1).
  destruct (IH s1 Hl) as (s2 & E2 & A2 & B2 & C2). exists s2. cbn [foldl]. rewrite E1.
  assert (Hin : ∀ a, in_ram (r :: l) a ↔ in_ram [r] a ∨ in_ram l a).
  { intros a. split.
    - intros (x & [->|Hx]%elem_of_cons & Hp); [left; exists r|right; exists x]; by rewrite ?list_elem_of_singleton.
    - intros [(x & ->%list_elem_of_singleton & Hp)|(x & Hx & Hp)]; [exists r|exists x]; rewrite elem_of_cons; auto. }
  split_and!; [done|..].
  - intros a. destruct (A2 a) as [->|]; auto.
  - intros a Ha. rewrite B2, B1; [done|..]; intros ?; apply Ha; apply Hin; auto.
  - intros limit Hgr [Hb Hbl]%Forall_cons Hnd a [Ha|Ha]%Hin.
    + destruct (A2 a) as [->|]; [|done]. apply (C1 limit); [done..| |done]. intros. apply Hnd, Hin. by left.
    + apply (C2 limit); [done..| |done]. intros b Hb'. destruct (A1 b) as [->| ->]; [|done]. apply Hnd, Hin. by right.
Qed.

Definition pool_pa (a : Z) : Prop := 0x7FE00000 ≤ a < 0x80000000.
Definition boot_map (fdt : option FdtInfo) : list MemoryRegion :=
  match fdt with
  | Some info => map (λ r, mkMemory (mr_base r) (mr_size r) MEMORY_TYPE_RAM) (memory info)
  | None => [mkMemory 0x40000000 0x40000000 MEMORY_TYPE_RAM]
  end ++ Mm.mmio_regions.

Lemma init_pool_spec m : RSI_PRESENT (rsi m) = true →
  ∃ r m', Mm.init_dma_shared_pool monitor sym 0x40000000 0x40000000 m = Some (r, m') ∧
    changed RSI_CHANGE_DESTROYED 0x7FE00000 0x80000000 Empty (bool_decide (is_Some r)) (rmm m) (rmm m') ∧
    (r = None → dma m' = dma m) ∧ (is_Some r → dma m' = Pool.init_dma_pool_shared Mm.DMA_POOL_VA Mm.POOL_SIZE (dma m)).
Proof.
  intros Hg. unfold Mm.init_dma_shared_pool, Rsi.is_realm_world. rewrite Hg.
  change (0x40000000 + 0x40000000 - Mm.POOL_SIZE) with 0x7FE00000. change (0x7FE00000 + Mm.POOL_SIZE) with 0x80000000.
  change (0x7FE00000 <? 0x40000000 + 8 * 0x100000) with false. cbv iota zeta.
  destruct (mark_shared_spec (rsi m) 0x7FE00000 0x80000000 (rmm m) Hg ltac:(done) ltac:(done)) as (r & s & -> & Hc).
  destruct r as [e|[]]; simpl; eexists _, _; (split; [done|]); by split_and!.
Qed.

(** Nothing in the boot calls [init_rsi], so the VM takes itself for a normal one: its RAM is not accepted and
    device buffers come from the heap. *)
Lemma boot_without_rsi fdt m : RSI_PRESENT (rsi m) = false →
  ∃ m', Mm.boot_cca monitor sym fdt m = Some m' ∧ rmm m' = rmm m ∧ tables m' = tables m ∧ DMA_MODE (dma m') = DMA_MODE_HEAP.
Proof. intros Hg. unfold Mm.boot_cca, Rsi.is_realm_world. destruct fdt; simpl; rewrite Hg; eauto. Qed.
Lemma init_rsi_present ipa_bits_of traps el cfg g g' s s' :
  Rsi.init_rsi monitor ipa_bits_of traps el cfg g s = (true, g', s') → RSI_PRESENT g' = true.
Proof.
  unfold Rsi.init_rsi. intros E. repeat (case_match; simplify_eq/=); done.
Qed.
Lemma boot_realm fdt m : RSI_PRESENT (rsi m) = true → Forall region_ok (boot_map fdt) → DMA_MODE (dma m) = DMA_MODE_HEAP →
  ∃ m', Mm.boot_cca monitor sym fdt m = Some m' ∧
    (∀ a, ripas (rmm m') a = Empty → ripas (rmm m) a = Empty ∨ pool_pa a) ∧
    (DMA_MODE (dma m') = DMA_MODE_SHARED_POOL → ∀ a, pool_pa a → ripas (rmm m') a = Empty) ∧
    (∀ a, ¬ in_ram (boot_map fdt) a → ¬ pool_pa a → ripas (rmm m') a = ripas (rmm m) a) ∧
    (∀ limit, grants limit → 2 ^ 31 ≤ limit → Forall (below limit) (boot_map fdt) →
       (∀ a, in_ram (boot_map fdt) a → ripas (rmm m) a ≠ Destroyed) →
       DMA_MODE (dma m') = DMA_MODE_SHARED_POOL ∧
       ∀ a, in_ram (boot_map fdt) a → ¬ pool_pa a → ripas (rmm m') a = Ram).
Proof.
  intros Hg Hok Hd. unfold Mm.boot_cca.
  set (m0 := match fdt with Some _ => _ | None => _ end).
  assert (E : rsi m0 = rsi m ∧ rmm m0 = rmm m ∧ dma m0 = dma m ∧ MEMORY_MAP m0 = boot_map fdt)
    by (unfold m0, boot_map; by destruct fdt). destruct E as (E1 & E2 & E3 & E4).
  unfold Mm.accept_all_ram, Rsi.is_realm_world. rewrite E1, Hg, E2, E4. simpl negb. cbv iota.
  destruct (accept_all_spec (rsi m) (boot_map fdt) (rmm m) Hg Hok) as (s & -> & A & B & C). cbn [mbind option_bind].
  destruct (init_pool_spec (Mm.set_rmm s m0)) as (r & m' & -> & (C1 & C2 & C3 & C4) & D1 & D2);
    [by simpl; rewrite E1|]. cbn [mbind option_bind]. simpl in *. rewrite E3 in *.
  exists m'. split_and!; [done|..].
  - intros a He. destruct (decide (0x7FE00000 ≤ a < 0x80000000)); [by right|]. left. rewrite C1 in He by done.
    destruct (A a) as [<-|Hr]; [done|congruence].
  - intros Hm. apply C3. apply bool_decide_eq_true_2. destruct r; [by eexists|]. rewrite D1 in Hm by done. congruence.
  - intros a Hr Hp. rewrite C1 by done. by apply B.
  - intros limit Hgr Hlim Hbl Hnd. specialize (C4 limit Hgr). rewrite bool_decide_eq_true in C4. split.
    + rewrite D2; [done|]. apply C4. split_and!; [done|done|lia|lia|by right|by left].
    + intros a Ha Hp. rewrite C1 by done. by apply (C limit).
Qed.
End rsi_thms.

(** C12. The boot of a [cca] build, for any device tree whose memory regions begin below 2^64 - 4095 and end
    below 2^64, from statics as the program starts with.  As shipped nothing calls [init_rsi] before it: then the
    monitor is not called, no translation changes and device buffers come
    from the heap.  Where [init_rsi] has run first and found a realm, the boot ends however the monitor
    answers, and shares nothing with the host but the pool for device buffers; when it takes the pool into use,
    all of it is shared; outside the RAM of the tree and the pool nothing changes; and when monitor and host
    agree to the requests, no page was destroyed and the RAM lies in the protected addresses, all RAM outside
    the pool is protected. *)
Theorem boot_shares_only_pool {RMM H : Type} (monitor : list Z → RMM → SmcResult * RMM) `{!Monitor monitor} (sym : Symbols)
    (fdt : option FdtInfo) (m : Machine RMM H) :
  RSI_PRESENT (rsi m) = false → Forall region_ok (boot_map fdt) → DMA_MODE (dma m) = DMA_MODE_HEAP →
  (∃ m', Mm.boot_cca monitor sym fdt m = Some m' ∧ rmm m' = rmm m ∧ tables m' = tables m ∧
     DMA_MODE (dma m') = DMA_MODE_HEAP) ∧
  ∀ ipa_bits_of traps el cfg g s, Rsi.init_rsi monitor ipa_bits_of traps el cfg (rsi m) (rmm m) = (true, g, s) →
  ∃ m', Mm.boot_cca monitor sym fdt (mkMachine g s (tables m) (dma m) (MEMORY_MAP m)) = Some m' ∧
    (∀ a, ripas (rmm m') a = Empty → ripas s a = Empty ∨ pool_pa a) ∧
    (DMA_MODE (dma m') = DMA_MODE_SHARED_POOL → ∀ a, pool_pa a → ripas (rmm m') a = Empty) ∧
    (∀ a, ¬ in_ram (boot_map fdt) a → ¬ pool_pa a → ripas (rmm m') a = ripas s a) ∧
    (∀ limit, grants monitor limit → 2 ^ 31 ≤ limit → Forall (below limit) (boot_map fdt) →
       (∀ a, in_ram (boot_map fdt) a → ripas s a ≠ Destroyed) →
       DMA_MODE (dma m') = DMA_MODE_SHARED_POOL ∧
       ∀ a, in_ram (boot_map fdt) a → ¬ pool_pa a → ripas (rmm m') a = Ram).
Proof.
  intros Hg Hok Hd. split; [by apply boot_without_rsi|]. intros ipa_bits_of traps el cfg g s Hi.
  apply (boot_realm monitor sym fdt (mkMachine g s (tables m) (dma m) (MEMORY_MAP m))); [|done..]. by eapply init_rsi_present.
Qed.
(** A monitor that changes at most 256 MB at a time *)
Module Sample.
Definition state_of (c : Z) : Ripas := if c =? 0 then Empty else if c =? 1 then Ram else if c =? 2 then Destroyed else Dev.
Definition monitor (regs : list Z) (s : Z → Ripas) : SmcResult * (Z → Ripas) :=
  match regs with
  | [fid; base; top; st; flags] =>
      if fid =? smc_rsi_fid 0x197 then
        let t := Z.min top (base + 0x10000000) in
        (mkSmc RSI_SUCCESS t RSI_ACCEPT 0, λ a, if (base <=? a) && (a <? t) then state_of st else s a)
      else (mkSmc RSI_SUCCESS 0 0 0, s)
  | _ => (mkSmc RSI_ERROR_INPUT 0 0 0, s)
  end.
(** The first 32 MB hold the image of the VM. *)
Definition image (a : Z) : Ripas := if (0x40000000 <=? a) && (a <? 0x42000000) then Ram else Empty.
Definition machine (realm : bool) : Machine (Z → Ripas) () :=
  mkMachine (mkRsi realm (2 ^ 47) false) image (mkTables (λ _, 0) 0) (mkDma DMA_MODE_HEAP 0 0 0 () (λ _, x00)) [].
Definition symbols : Symbols := mkSymbols 0x41000000 0x40080000 0x40100000 0x40100000 0x40120000 0x40120000 0x40180000.
End Sample.
Lemma state_of_code st : Sample.state_of (ripas_code st) = st.
Proof. by destruct st. Qed.
#[export] Instance sample_monitor : Monitor Sample.monitor.
Proof.
  refine {| ripas := λ s a, s a |}.
  - intros s base top st flags r s' a [= <- <-] Ha. simpl.
    destruct (Z.leb_spec base a), (Z.ltb_spec a (Z.min top (base + 0x10000000))); (done || lia).
  - intros s base top st flags r s' a [= <- <-]. rewrite state_of_code. destruct (_ && _); auto.
  - intros s base top st flags r s' a [= <- <-] _ Ha. simpl in *.
    destruct (Z.leb_spec base a), (Z.ltb_spec a (Z.min top (base + 0x10000000))); (done || lia).
  - intros s base top st flags r s' a [= <- <-] _ _ Ha. simpl in *. rewrite state_of_code.
    destruct (Z.leb_spec base a), (Z.ltb_spec a (Z.min top (base + 0x10000000))); (done || lia).
Defined.
Lemma sample_grants limit : grants Sample.monitor limit.
Proof.
  intros base top st flags s Hl (Hb & Ht & _). simpl. split_and!; [done|done|lia|lia|].
  destruct (Z.min_spec top (base + 0x10000000)) as [[_ ->]|[_ ->]]; [done|].
  by rewrite <- Z.add_mod_idemp_l, Hb.
Qed.
Lemma boot_shares_only_pool_witness :
  (∃ m', Mm.boot_cca Sample.monitor Sample.symbols None (Sample.machine false) = Some m' ∧
    ripas (rmm m') 0x50000000 = Empty) ∧
  ∃ m', Mm.boot_cca Sample.monitor Sample.symbols None (Sample.machine true) = Some m' ∧
    ripas (rmm m') 0x7FE00000 = Empty ∧ ripas (rmm m') 0x50000000 = Ram ∧ ripas (rmm m') 0x09000000 = Empty.
Proof.
  destruct (boot_shares_only_pool Sample.monitor Sample.symbols None (Sample.machine false)) as [(m' & E & Er & _) T];
    [reflexivity| |reflexivity|].
  - repeat constructor; simpl; lia.
  - split; [exists m'; split; [exact E|rewrite Er; reflexivity]|]. clear m' E Er.
    destruct (T (λ _, 48) false 4 0 _ _ eq_refl) as (m' & E & _ & P & U & G). clear T.
    exists m'. destruct (G (2 ^ 47) (sample_grants _)) as [Hm R]; [lia| |intros a _; cbn; unfold Sample.image; by destruct (_ && _)|].
    { repeat constructor; unfold below; simpl; (done || lia). }
    split; [exact E|]. split; [apply P; [exact Hm|unfold pool_pa; lia]|]. split.
    + apply R; [|unfold pool_pa; lia]. exists (mkMemory 0x40000000 0x40000000 MEMORY_TYPE_RAM).
      split; [left|]. split; [reflexivity|]. vm_compute. split; [discriminate|reflexivity].
    + rewrite U; [reflexivity| |unfold pool_pa; lia]. intros (r & Hr & Ht & Ha).
      repeat (apply elem_of_cons in Hr as [->|Hr]; [vm_compute in Ht, Ha; (discriminate Ht || (destruct Ha as [Ha _]; apply Ha; reflexivity))|]).
      by apply elem_of_nil in Hr.
Defined.

(** ** What the processor makes of the page tables *)

(** [setup_mmu] of [arch/exception.S] *)
Definition setup_mmu (sym : Symbols) (t : PageTables) : PageTables :=
  let base := page_table_start sym in
  let t := foldl (λ t i, Paging.write_volatile (base + 8 * i) 0 t) t (seqZ 0 512) in
  let t := Paging.write_volatile base 0x609 t in
  let t := Paging.write_volatile (base + 8) (Z.lor (base + 0x1000) 3) t in
  foldl (λ t i, Paging.write_volatile (base + 0x1000 + 8 * i) (Z.lor (Z.shiftl i 21 + 0x40000000) 0x701) t) t (seqZ 0 512).
(** A translation of the Arm architecture: pages of 4 KB, [T0SZ] 30, so that it begins at level 1 with 34 bits,
    and [IPS] 2.  An entry points to a table or gives the address of a block of its level, in bits 47 and below;
    an address of more than 40 bits is a fault. *)
Definition output (e : Z) (level va : Z) : option Z :=
  let a := (e mod 2 ^ 48) / 2 ^ level * 2 ^ level in
  if 2 ^ 40 <=? a then None else Some (a + va mod 2 ^ level).
Definition walk (sym : Symbols) (t : PageTables) (va : Z) : option Z :=
  if 2 ^ 34 <=? va then None else
  let e1 := entry_at t (page_table_start sym + 8 * (va / 2 ^ 30)) in
  if negb (Z.testbit e1 0) then None else
  if negb (Z.testbit e1 1) then output e1 30 va else
  table ← output e1 12 0;
  let e2 := entry_at t (table + 8 * (va / 2 ^ 21 mod 512)) in
  if negb (Z.testbit e2 0) then None else
  if negb (Z.testbit e2 1) then output e2 21 va else
  table ← output e2 12 0;
  let e3 := entry_at t (table + 8 * (va / 2 ^ 12 mod 512)) in
  if Z.testbit e3 0 && Z.testbit e3 1 then output e3 12 va else None.

(** The first two tables lie in the gigabyte of RAM, where the linker puts them. *)
Definition symbols_ok (sym : Symbols) : Prop :=
  page_table_start sym mod 0x1000 = 0 ∧ 2 ^ 30 ≤ page_table_start sym ∧ page_table_start sym + 0x2000 ≤ 2 ^ 31.
(** The tables as [setup_mmu] leaves them: one gigabyte of devices as a block and one of blocks of 2 MB *)
Definition tables_ok (sym : Symbols) (t : PageTables) : Prop :=
  let base := page_table_start sym in
  entry_at t base = 0x609 ∧ entry_at t (base + 8) = base + 0x1003 ∧ (∀ i, 2 ≤ i < 512 → entry_at t (base + 8 * i) = 0) ∧
  ∀ i, 0 ≤ i < 512 → Z.testbit (entry_at t (base + 0x1000 + 8 * i)) 1 = false.

Lemma fold_writes a (f : Z → Z) n t x :
  entry_at (foldl (λ t i, Paging.write_volatile (a + 8 * i) (f i) t) t (seqZ 0 (Z.of_nat n))) x =
  if (a <=? x) && (x <? a + 8 * Z.of_nat n) && ((x - a) mod 8 =? 0) then f ((x - a) / 8) else entry_at t x.
Proof.
  induction n as [|n IH].
  { destruct (Z.leb_spec a x), (Z.ltb_spec x (a + 8 * Z.of_nat 0)); (done || lia). }
  rewrite Nat2Z.inj_succ, <- Z.add_1_r, seqZ_app, foldl_app by lia. rewrite Z.add_0_l.
  change (seqZ (Z.of_nat n) 1) with [Z.of_nat n]. cbn [foldl]. unfold Paging.write_volatile at 1. cbn [entry_at]. rewrite IH. pose proof (Z.div_mod (x - a) 8). pose proof (Z.mod_pos_bound (x - a) 8).
  destruct (Z.eqb_spec x (a + 8 * Z.of_nat n)) as [->|].
  - replace (a + 8 * Z.of_nat n - a) with (Z.of_nat n * 8) by lia. rewrite Z.mod_mul, Z.div_mul by lia.
    destruct (Z.leb_spec a (a + 8 * Z.of_nat n)), (Z.ltb_spec (a + 8 * Z.of_nat n) (a + 8 * (Z.of_nat n + 1))); (done || lia).
  - destruct (Z.leb_spec a x), (Z.eqb_spec ((x - a) mod 8) 0), (Z.ltb_spec x (a + 8 * Z.of_nat n)),
      (Z.ltb_spec x (a + 8 * (Z.of_nat n + 1))); simpl; (done || lia).
Qed.

Lemma fold_writes_in a f n t i : 0 ≤ i < Z.of_nat n →
  entry_at (foldl (λ t i, Paging.write_volatile (a + 8 * i) (f i) t) t (seqZ 0 (Z.of_nat n))) (a + 8 * i) = f i.
Proof.
  intros Hi. rewrite fold_writes. replace (a + 8 * i - a) with (i * 8) by lia. rewrite Z.mod_mul, Z.div_mul by lia.
  destruct (Z.leb_spec a (a + 8 * i)), (Z.ltb_spec (a + 8 * i) (a + 8 * Z.of_nat n)); (done || lia).
Qed.
Lemma fold_writes_out a f n t x : ¬ (a ≤ x < a + 8 * Z.of_nat n) →
  entry_at (foldl (λ t i, Paging.write_volatile (a + 8 * i) (f i) t) t (seqZ 0 (Z.of_nat n))) x = entry_at t x.
Proof. intros Hi. rewrite fold_writes. destruct (Z.leb_spec a x), (Z.ltb_spec x (a + 8 * Z.of_nat n)); (done || lia). Qed.
Lemma lor_low a b n : 0 ≤ n → a mod 2 ^ n = 0 → 0 ≤ b < 2 ^ n → Z.lor a b = a + b.
Proof.
  intros Hn Ha Hb. apply Z.mod_divide in Ha as [q ->]; [|lia]. rewrite <- Z.shiftl_mul_pow2 by done.
  by rewrite shiftl_lor, Z.shiftl_mul_pow2.
Qed.
Lemma setup_entry sym t i : 0 ≤ i < 512 →
  entry_at (setup_mmu sym t) (page_table_start sym + 0x1000 + 8 * i) = 0x40000000 + i * 0x200000 + 0x701.
Proof.
  intros Hi. unfold setup_mmu. cbv zeta. change 512 with (Z.of_nat 512) at 2.
  rewrite (fold_writes_in _ (λ i, Z.lor (Z.shiftl i 21 + 0x40000000) 0x701)) by lia.
  rewrite (lor_low _ _ 21), Z.shiftl_mul_pow2; [lia|lia|lia| |lia]. rewrite Z.shiftl_mul_pow2 by lia.
  replace (i * 2 ^ 21 + 0x40000000) with ((i + 512) * 2 ^ 21) by lia. apply Z.mod_mul. lia.
Qed.
Lemma setup_ok sym t : symbols_ok sym → tables_ok sym (setup_mmu sym t).
Proof.
  intros [Hm Hb]. unfold tables_ok. cbv zeta. split_and!.
  - unfold setup_mmu. cbv zeta. change 512 with (Z.of_nat 512) at 2.
    rewrite (fold_writes_out _ (λ i, Z.lor (Z.shiftl i 21 + 0x40000000) 0x701)) by lia. cbn [entry_at Paging.write_volatile].
    rewrite Z.eqb_refl. by destruct (Z.eqb_spec (page_table_start sym) (page_table_start sym + 8)); [lia|].
  - unfold setup_mmu. cbv zeta. change 512 with (Z.of_nat 512) at 2.
    rewrite (fold_writes_out _ (λ i, Z.lor (Z.shiftl i 21 + 0x40000000) 0x701)) by lia. cbn [entry_at Paging.write_volatile].
    assert (Hp : (page_table_start sym + 0x1000) mod 2 ^ 12 = 0)
      by (change (2 ^ 12) with 0x1000; by rewrite <- Z.add_mod_idemp_l, Hm by lia).
    rewrite Z.eqb_refl, (lor_low _ _ 12) by (done || lia). lia.
  - intros i Hi. unfold setup_mmu. cbv zeta. change 512 with (Z.of_nat 512).
    rewrite (fold_writes_out _ (λ i, Z.lor (Z.shiftl i 21 + 0x40000000) 0x701)) by lia. cbn [entry_at Paging.write_volatile].
    destruct (Z.eqb_spec (page_table_start sym + 8 * i) (page_table_start sym + 8)); [lia|].
    destruct (Z.eqb_spec (page_table_start sym + 8 * i) (page_table_start sym)); [lia|].
    by rewrite (fold_writes_in (page_table_start sym) (λ _, 0) 512) by lia.
  - intros i Hi. rewrite setup_entry by done. replace (0x40000000 + i * 0x200000 + 0x701) with (0x701 + (i + 512) * 2 ^ 21) by lia.
    rewrite Z.testbit_odd, Z.shiftr_div_pow2 by lia. replace (2 ^ 21) with (2 ^ 20 * 2 ^ 1) by done.
    rewrite Z.mul_assoc, Z.div_add by lia. rewrite Z.odd_add. replace ((i + 512) * 2 ^ 20) with (2 * ((i + 512) * 2 ^ 19)) by lia.
    by rewrite Z.odd_mul.
Qed.

(** ** Windows for devices *)

Lemma walk_low sym t va : tables_ok sym t → 0 ≤ va < 2 ^ 30 → walk sym t va = Some va.
Proof.
  intros (H0 & _) Hva. unfold walk. rewrite (proj2 (Z.leb_gt _ _)) by lia. rewrite (Z.div_small va) by lia.
  rewrite Z.mul_0_r, Z.add_0_r, H0. simpl. unfold output. rewrite (Z.mod_small va) by lia. done.
Qed.
Lemma walk_high sym t va : tables_ok sym t → 2 ^ 31 ≤ va → walk sym t va = None.
Proof.
  intros (_ & _ & H2 & _) Hva. unfold walk. destruct (Z.leb_spec (2 ^ 34) va); [done|].
  rewrite H2; [done|]. pose proof (Z.div_le_lower_bound va (2 ^ 30) 2). pose proof (Z.div_lt_upper_bound va (2 ^ 30) 16). lia.
Qed.
Definition block_entry (sym : Symbols) (t : PageTables) (i : Z) : Z := entry_at t (page_table_start sym + 0x1000 + 8 * i).
Lemma walk_block sym t va : symbols_ok sym → tables_ok sym t → 2 ^ 30 ≤ va < 2 ^ 31 →
  walk sym t va =
  let e := block_entry sym t (va / 2 ^ 21 mod 512) in if Z.testbit e 0 then output e 21 va else None.
Proof.
  intros [Hm Hb] (_ & H1 & _ & H3) Hva. unfold walk. rewrite (proj2 (Z.leb_gt _ _)) by lia.
  assert (E : va / 2 ^ 30 = 1) by (pose proof (Z.div_le_lower_bound va (2 ^ 30) 1); pose proof (Z.div_lt_upper_bound va (2 ^ 30) 2); lia).
  rewrite E. change (8 * 1) with 8. rewrite H1. apply Z.mod_divide in Hm as [q Hq]; [|lia].
  assert (Ho : output (page_table_start sym + 0x1003) 12 0 = Some (page_table_start sym + 0x1000)).
  { unfold output. rewrite (Z.mod_small (page_table_start sym + 0x1003)) by lia.
    replace (page_table_start sym + 0x1003) with (3 + (q + 1) * 2 ^ 12) by lia. rewrite Z.div_add by lia.
    change (3 / 2 ^ 12) with 0. change (0 mod 2 ^ 12) with 0. cbv zeta. rewrite (proj2 (Z.leb_gt _ _)) by lia. f_equal. lia. }
  assert (Ht : ∀ k, (k = 0 ∨ k = 1) → Z.testbit (page_table_start sym + 0x1003) k = true).
  { intros k Hk. replace (page_table_start sym + 0x1003) with (3 + (q + 1) * 2 ^ 12) by lia.
    rewrite Z.testbit_odd, Z.shiftr_div_pow2 by lia. destruct Hk as [->| ->].
    - change (2 ^ 0) with 1. rewrite Z.div_1_r, Z.odd_add, Z.odd_mul. by rewrite andb_false_r.
    - replace (2 ^ 12) with (2 ^ 11 * 2 ^ 1) by done. rewrite Z.mul_assoc, Z.div_add, Z.odd_add, Z.odd_mul by lia. by rewrite andb_false_r. }
  rewrite !Ht by auto. cbn [negb]. cbv iota zeta. rewrite Ho. cbn [mbind option_bind].
  rewrite H3 by (apply Z.mod_pos_bound; lia). unfold block_entry. by destruct (Z.testbit _ 0).
Qed.

(** The windows the drivers open: [map_2mb_device] for the configuration space, [map_bar_space] for registers *)
Inductive window := Window (bar : bool) (va pa : Z).
Definition open_window (sym : Symbols) (t : PageTables) (w : window) : PageTables :=
  match w with Window bar va pa => (if bar then Paging.map_bar_space else Paging.map_2mb_device) sym va pa t end.
(** At or above 1 GB, to an address of at most 48 bits, and not over the tables themselves *)
Definition window_ok (sym : Symbols) (w : window) : Prop :=
  match w with
  | Window _ va pa =>
      2 ^ 30 ≤ va < 2 ^ 64 ∧ 0 ≤ pa < 2 ^ 48 ∧
      va / 2 ^ 21 ≠ page_table_start sym / 2 ^ 21 ∧ va / 2 ^ 21 ≠ (page_table_start sym + 0x1FFF) / 2 ^ 21
  end.
(** What an address is then: the last window over its block decides, and else it is itself.  A window to an
    address of more than 40 bits faults. *)
Fixpoint translate (ws : list window) (a : Z) : option Z :=
  match ws with
  | [] => Some a
  | Window _ va pa :: ws =>
      if va / 2 ^ 21 =? a / 2 ^ 21 then
        if 2 ^ 40 <=? pa then None else Some (pa / 2 ^ 21 * 2 ^ 21 + a mod 2 ^ 21)
      else translate ws a
  end.

Lemma block_idx_eq va : 2 ^ 30 ≤ va < 2 ^ 31 → Paging.block_idx va = va / 2 ^ 21 - 512 ∧ 0 ≤ va / 2 ^ 21 - 512 < 512.
Proof.
  intros Hva. unfold Paging.block_idx. rewrite Int.u64_small, Z.shiftr_div_pow2 by lia.
  replace (va - 0x40000000) with (va + -512 * 2 ^ 21) by lia. rewrite Z.div_add by lia. split; [lia|].
  pose proof (Z.div_le_lower_bound va (2 ^ 21) 512). pose proof (Z.div_lt_upper_bound va (2 ^ 21) 1024). lia.
Qed.
Lemma mask_block pa : 0 ≤ pa < 2 ^ 48 → Z.land pa 0xFFFFFFFFFFE00000 = pa / 2 ^ 21 * 2 ^ 21.
Proof.
  intros Hp. rewrite <- Z.shiftr_div_pow2, <- Z.shiftl_mul_pow2 by lia. apply Z.bits_inj'. intros i Hi. rewrite Z.land_spec.
  change 0xFFFFFFFFFFE00000 with (Z.shiftl (Z.ones 43) 21). destruct (Z.lt_ge_cases i 21).
  - rewrite !Z.shiftl_spec_low by lia. apply andb_false_r.
  - rewrite !Z.shiftl_spec, Z.shiftr_spec by lia. replace (i - 21 + 21) with i by lia.
    destruct (Z.lt_ge_cases i 48); [rewrite Z.ones_spec_low by lia; apply andb_true_r|].
    destruct (decide (pa = 0)) as [->|]; [by rewrite Z.bits_0|].
    rewrite (Z.bits_above_log2 pa) by (pose proof (Z.log2_lt_pow2 pa 48); lia). done.
Qed.
(** A window above 2 GB is not opened. *)
Lemma open_window_far sym t bar va pa : 2 ^ 31 ≤ va < 2 ^ 64 → open_window sym t (Window bar va pa) = t.
Proof.
  intros Hv. assert (Hi : (ENTRY_COUNT <=? Paging.block_idx va) = true).
  { apply Z.leb_le. unfold Paging.block_idx, ENTRY_COUNT. rewrite Int.u64_small, Z.shiftr_div_pow2 by lia.
    apply Z.div_le_lower_bound; lia. }
  destruct bar; simpl; unfold Paging.map_bar_space, Paging.map_2mb_device, Paging.map_block; by rewrite Hi.
Qed.
Lemma open_window_spec sym t bar va pa : window_ok sym (Window bar va pa) → va < 2 ^ 31 →
  open_window sym t (Window bar va pa) =
  Paging.write_volatile (page_table_start sym + 0x1000 + 8 * (va / 2 ^ 21 - 512))
    (pa / 2 ^ 21 * 2 ^ 21 + if bar then 0x609 else 0x701) t.
Proof.
  intros (Hv & Hp & _) Hv'. destruct (block_idx_eq va ltac:(lia)) as [E Hi].
  assert (Hl : ∀ f, 0 ≤ f < 2 ^ 21 → Z.lor (Z.land pa 0xFFFFFFFFFFE00000) f = pa / 2 ^ 21 * 2 ^ 21 + f).
  { intros f Hf. rewrite mask_block by done. apply (lor_low _ _ 21); [lia| |done]. apply Z.mod_mul. lia. }
  destruct bar; simpl; unfold Paging.map_bar_space, Paging.map_2mb_device, Paging.map_block; rewrite E, Hl by lia;
    (destruct (Z.leb_spec ENTRY_COUNT (va / 2 ^ 21 - 512)) as [Hc|]; [unfold ENTRY_COUNT in Hc; lia|]); done.
Qed.
Lemma tables_ok_ext sym t t' : tables_ok sym t →
  (∀ x, page_table_start sym ≤ x < page_table_start sym + 0x2000 → entry_at t' x = entry_at t x) → tables_ok sym t'.
Proof.
  intros (H0 & H1 & H2 & H3) E. unfold tables_ok. rewrite !E by lia. split_and!; [done|done|..]; intros i Hi; rewrite E by lia; auto.
Qed.
(** Only the first two tables are looked at. *)
Lemma walk_ext sym t t' a : symbols_ok sym → tables_ok sym t → 0 ≤ a →
  (∀ x, page_table_start sym ≤ x < page_table_start sym + 0x2000 → entry_at t' x = entry_at t x) → walk sym t' a = walk sym t a.
Proof.
  intros Hs Ht Ha E. pose proof (tables_ok_ext _ _ _ Ht E) as Ht'. destruct (Z.lt_ge_cases a (2 ^ 30)).
  { by rewrite !walk_low. }
  destruct (Z.lt_ge_cases a (2 ^ 31)); [|by rewrite !walk_high]. rewrite !walk_block by done. unfold block_entry.
  pose proof (Z.mod_pos_bound (a / 2 ^ 21) 512). by rewrite E by lia.
Qed.
Lemma testbit_block k f i : 0 ≤ i < 21 → 0 ≤ f < 2 ^ 21 → Z.testbit (k * 2 ^ 21 + f) i = Z.testbit f i.
Proof.
  intros Hi Hf. rewrite <- (lor_low _ _ 21), Z.lor_spec, <- Z.shiftl_mul_pow2, Z.shiftl_spec_low by (lia || (apply Z.mod_mul; lia)). done.
Qed.
Lemma output_block k f a : 0 ≤ k < 2 ^ 27 → 0 ≤ f < 2 ^ 21 →
  output (k * 2 ^ 21 + f) 21 a = if 2 ^ 40 <=? k * 2 ^ 21 then None else Some (k * 2 ^ 21 + a mod 2 ^ 21).
Proof.
  intros Hk Hf. unfold output. rewrite (Z.mod_small (k * 2 ^ 21 + f)) by lia. rewrite Z.div_add_l, Z.div_small by lia. by rewrite Z.add_0_r.
Qed.
Lemma open_window_ok sym t w : symbols_ok sym → tables_ok sym t → window_ok sym w → tables_ok sym (open_window sym t w).
Proof.
  intros Hs Ht Hw. pose proof Ht as (H0 & H1 & H2 & H3). destruct w as [bar va pa]. pose proof Hw as (Hv & Hp & _).
  destruct (Z.lt_ge_cases va (2 ^ 31)); [|rewrite open_window_far by lia; done]. rewrite open_window_spec by done.
  destruct (block_idx_eq va ltac:(lia)) as [_ Hi]. unfold tables_ok, Paging.write_volatile. cbn [entry_at].
  set (slot := page_table_start sym + 0x1000 + 8 * (va / 2 ^ 21 - 512)).
  assert (Hne : ∀ x, x < page_table_start sym + 0x1000 → (x =? slot) = false) by (intros; unfold slot; lia).
  rewrite !Hne by lia. split_and!; [done|done|..]; intros i Hi'; [rewrite Hne by lia; auto|].
  destruct (_ =? slot); [|by apply H3]. rewrite testbit_block by (destruct bar; lia). by destruct bar.
Qed.
Lemma high_block pa : 0 ≤ pa → (2 ^ 40 <=? pa / 2 ^ 21 * 2 ^ 21) = (2 ^ 40 <=? pa).
Proof.
  intros Hp. pose proof (Z.div_mod pa (2 ^ 21)). pose proof (Z.mod_pos_bound pa (2 ^ 21)).
  destruct (Z.leb_spec (2 ^ 40) pa) as [Hle|]; [|apply Z.leb_gt; lia]. apply Z.leb_le.
  pose proof (Z.div_le_lower_bound pa (2 ^ 21) (2 ^ 19)). lia.
Qed.
Lemma open_window_walk sym t bar va pa a :
  symbols_ok sym → tables_ok sym t → window_ok sym (Window bar va pa) → 2 ^ 30 ≤ a < 2 ^ 31 →
  walk sym (open_window sym t (Window bar va pa)) a =
  if va / 2 ^ 21 =? a / 2 ^ 21 then
    if 2 ^ 40 <=? pa then None else Some (pa / 2 ^ 21 * 2 ^ 21 + a mod 2 ^ 21)
  else walk sym t a.
Proof.
  intros Hs Ht Hw Ha. destruct (block_idx_eq a Ha) as [_ Hj]. pose proof Hw as (Hv & Hp & _).
  destruct (Z.lt_ge_cases va (2 ^ 31)).
  2: { rewrite open_window_far by lia. rewrite (proj2 (Z.eqb_neq _ _)); [done|].
       pose proof (Z.div_le_lower_bound va (2 ^ 21) 1024). lia. }
  pose proof (open_window_ok _ _ _ Hs Ht Hw) as Ht'. rewrite !walk_block by done.
  rewrite open_window_spec by done. destruct (block_idx_eq va ltac:(lia)) as [_ Hi].
  assert (E : a / 2 ^ 21 mod 512 = a / 2 ^ 21 - 512).
  { replace (a / 2 ^ 21) with (a / 2 ^ 21 - 512 + 1 * 512) at 1 by lia. rewrite Z.mod_add by lia. apply Z.mod_small. lia. }
  rewrite E. unfold block_entry, Paging.write_volatile. cbn [entry_at]. cbv zeta.
  destruct (Z.eqb_spec (va / 2 ^ 21) (a / 2 ^ 21)) as [->|].
  - rewrite Z.eqb_refl, testbit_block, output_block, high_block by (destruct bar; lia || (pose proof (Z.div_pos pa (2 ^ 21)); pose proof (Z.div_lt_upper_bound pa (2 ^ 21) (2 ^ 27)); lia)).
    by destruct bar.
  - rewrite (proj2 (Z.eqb_neq _ _)) by lia. done.
Qed.
Lemma translate_low sym ws a : Forall (window_ok sym) ws → 0 ≤ a < 2 ^ 30 → translate ws a = Some a.
Proof.
  induction 1 as [|[bar va pa] ws (Hv & _) _ IH]; intros Ha; simpl; [done|]. rewrite IH by done.
  pose proof (Z.div_le_lower_bound va (2 ^ 21) 512). pose proof (Z.div_lt_upper_bound a (2 ^ 21) 512).
  rewrite (proj2 (Z.eqb_neq _ _)) by lia. done.
Qed.
Lemma translate_tables sym ws x : Forall (window_ok sym) ws →
  page_table_start sym ≤ x < page_table_start sym + 0x2000 → translate ws x = Some x.
Proof.
  induction 1 as [|[bar va pa] ws (_ & _ & H1 & H2) _ IH]; intros Hx; simpl; [done|]. rewrite IH by done.
  pose proof (Z.div_le_mono (page_table_start sym) x (2 ^ 21)). pose proof (Z.div_le_mono x (page_table_start sym + 0x1FFF) (2 ^ 21)).
  assert ((page_table_start sym + 0x1FFF) / 2 ^ 21 ≤ page_table_start sym / 2 ^ 21 + 1).
  { replace (page_table_start sym / 2 ^ 21 + 1) with ((page_table_start sym + 1 * 2 ^ 21) / 2 ^ 21) by (rewrite Z.div_add; lia).
    apply Z.div_le_mono; lia. }
  rewrite (proj2 (Z.eqb_neq _ _)) by lia. done.
Qed.
(** The translation of an address in the gigabyte of RAM *)
Lemma windows_walk sym t ws a : symbols_ok sym → Forall (window_ok sym) ws →
  tables_ok sym (foldl (open_window sym) (setup_mmu sym t) ws) ∧
  (2 ^ 30 ≤ a < 2 ^ 31 → walk sym (foldl (open_window sym) (setup_mmu sym t) ws) a = translate (reverse ws) a).
Proof.
  intros Hs Hw. induction ws as [|w ws IH] using rev_ind.
  - split; [by apply setup_ok|]. intros Hr. rewrite walk_block by (done || by apply setup_ok). unfold block_entry.
    destruct (block_idx_eq a Hr) as [_ Hj]. pose proof (Z.mod_pos_bound (a / 2 ^ 21) 512).
    cbn [foldl]. rewrite setup_entry by lia. cbv zeta. simpl translate.
    replace (a / 2 ^ 21 mod 512) with (a / 2 ^ 21 - 512)
      by (replace (a / 2 ^ 21) with (a / 2 ^ 21 - 512 + 1 * 512) at 2 by lia; rewrite Z.mod_add, Z.mod_small; lia).
    replace (0x40000000 + (a / 2 ^ 21 - 512) * 0x200000 + 0x701) with (a / 2 ^ 21 * 2 ^ 21 + 0x701) by lia.
    rewrite testbit_block, output_block by lia. simpl Z.testbit. cbv iota. rewrite (proj2 (Z.leb_gt _ _)) by lia. f_equal.
    pose proof (Z.div_mod a (2 ^ 21)). lia.
  - apply Forall_app in Hw as [Hws Hw]. rewrite Forall_singleton in Hw. destruct (IH Hws) as [Ht E]. rewrite foldl_app. cbn [foldl].
    split; [by apply open_window_ok|]. intros Hr. destruct w as [bar va pa]. rewrite open_window_walk, E by done.
    rewrite reverse_snoc. cbn [translate]. by destruct (_ =? _).
Qed.

(** C34. What the drivers map is what the processor translates, for page tables in RAM as the linker places
    them: after [setup_mmu] and any windows of 2 MB that drivers open at addresses from 1 GB on, to addresses
    below 2^48 and none over the page tables, an address below 2 GB is the address in the last window over
    its block and else itself, except that a window to 2^40 or above faults; there is nothing from 2 GB on; and
    the page tables are still translated to themselves, so that the stores of the drivers go where the
    processor reads. *)
Theorem device_windows (sym : Symbols) (t : PageTables) (ws : list window) :
  symbols_ok sym → Forall (window_ok sym) ws →
  let t' := foldl (open_window sym) (setup_mmu sym t) ws in
  (∀ a, 0 ≤ a → walk sym t' a = if a <? 2 ^ 31 then translate (reverse ws) a else None) ∧
  (∀ x, page_table_start sym ≤ x < page_table_start sym + 0x2000 → walk sym t' x = Some x).
Proof.
  intros Hs Hw t'. assert (Hr : Forall (window_ok sym) (reverse ws)) by by rewrite Forall_reverse. split.
  - intros a Ha. destruct (windows_walk sym t ws a Hs Hw) as [Ht H].
    destruct (Z.ltb_spec a (2 ^ 31)); [|by rewrite (walk_high sym t')].
    destruct (Z.lt_ge_cases a (2 ^ 30)); [|apply H; lia]. rewrite (walk_low sym t') by (done || lia).
    by rewrite (translate_low sym) by (done || lia).
  - intros x Hx. pose proof Hs as (_ & H1 & H2). unfold t'. destruct (windows_walk sym t ws x Hs Hw) as [_ ->]; [|lia].
    by apply (translate_tables sym).
Qed.
Lemma device_windows_witness :
  let t := foldl (open_window Sample.symbols) (setup_mmu Sample.symbols (mkTables (λ _, 0) 0))
    [Window false 0x50000000 0x4010000000; Window true 0x60000000 0x10000000; Window true 0x60200000 0x10000000000] in
  walk Sample.symbols t 0x50001234 = Some 0x4010001234 ∧ walk Sample.symbols t 0x60200000 = None ∧
  walk Sample.symbols t 0x41000000 = Some 0x41000000.
Proof.
  destruct (device_windows Sample.symbols (mkTables (λ _, 0) 0)
    [Window false 0x50000000 0x4010000000; Window true 0x60000000 0x10000000; Window true 0x60200000 0x10000000000]) as [H1 H2].
  - split; [|split]; vm_compute; (reflexivity || discriminate).
  - repeat constructor; vm_compute; (reflexivity || discriminate).
  - cbv zeta. split; [|split].
    + rewrite H1; [vm_compute; reflexivity|lia].
    + rewrite H1; [vm_compute; reflexivity|lia].
    + apply H2. cbn. lia.
Defined.

(** ** Tables that are not looked at *)

Lemma map_blocks_far sym n v p prot t x :
  x < page_table_start sym + 0x2000 → entry_at (Paging.map_blocks sym n v p prot t) x = entry_at t x.
Proof.
  intros Hx. revert v p t. induction n as [|n IH]; intros v p t; [done|]. cbn [Paging.map_blocks]. rewrite IH.
  unfold Paging.write_volatile. cbn [entry_at]. rewrite (proj2 (Z.eqb_neq _ _)); [done|].
  unfold Paging.l2_table_for, Paging.l2_idx, Paging.page_table_base, ENTRY_COUNT.
  assert (0 ≤ Z.land (Z.shiftr v 30) 0x1FF) by (apply Z.land_nonneg; lia).
  assert (0 ≤ Z.land (Z.shiftr v 21) 0x1FF) by (apply Z.land_nonneg; lia). lia.
Qed.
(** [map_range] writes to tables the processor does not come to: it changes no translation. *)
Lemma map_range_no_effect sym t vaddr paddr size prot a :
  symbols_ok sym → tables_ok sym t → 0 ≤ a →
  walk sym (Paging.map_range sym vaddr paddr size prot t) a = walk sym t a.
Proof. intros Hs Ht Ha. apply walk_ext; [done..|]. intros x Hx. apply map_blocks_far. lia. Qed.

(** So the boot of a realm that succeeds in every call takes device buffers from memory that is not shared: the
    first one is at the start of the pool's virtual addresses, which still lead to protected RAM. *)
Lemma pool_is_not_shared {RMM H : Type} (monitor : list Z → RMM → SmcResult * RMM) `{!Monitor monitor} (sym : Symbols)
    (alloc : Z → H → option Z * H) (m : Machine RMM H) :
  grants monitor (2 ^ 31) → (∀ a, ripas (rmm m) a ≠ Destroyed) →
  RSI_PRESENT (rsi m) = true → symbols_ok sym → tables_ok sym (tables m) → DMA_MODE (dma m) = DMA_MODE_HEAP →
  walk sym (tables m) 0x70000000 = Some 0x70000000 →
  ∃ m' d', Mm.boot_cca monitor sym None m = Some m' ∧ Pool.alloc_dma_pages alloc 1 (dma m') = (Some 0x70000000, d') ∧
    walk sym (tables m') 0x70000000 = Some 0x70000000 ∧ ripas (rmm m') 0x70000000 = Ram.
Proof.
  intros Hgr Hnd Hg Hs Ht Hd Hw. unfold Mm.boot_cca, Mm.accept_all_ram, Rsi.is_realm_world. cbv zeta.
  change (rsi (Mm.init_memory_map m)) with (rsi m). change (MEMORY_MAP (Mm.init_memory_map m)) with (boot_map None).
  change (rmm (Mm.init_memory_map m)) with (rmm m). rewrite Hg. cbn [negb].
  destruct (accept_all_spec monitor (rsi m) (boot_map None) (rmm m) Hg) as (s & E & _ & _ & C); [repeat constructor; simpl; lia|].
  rewrite E. cbn [mbind option_bind]. unfold Mm.init_dma_shared_pool, Rsi.is_realm_world.
  change (rsi (Mm.set_rmm s (Mm.init_memory_map m))) with (rsi m). rewrite Hg.
  change (0x40000000 + 0x40000000 - Mm.POOL_SIZE) with 0x7FE00000. change (0x7FE00000 + Mm.POOL_SIZE) with 0x80000000.
  change (0x7FE00000 <? 0x40000000 + 8 * 0x100000) with false. cbv iota zeta.
  change (rmm (Mm.set_rmm s (Mm.init_memory_map m))) with s.
  destruct (mark_shared_spec monitor (rsi m) 0x7FE00000 0x80000000 s Hg ltac:(done) ltac:(done)) as (r & s' & -> & C1 & _ & _ & C4).
  cbn [mbind option_bind]. destruct r as [|[]]; 
    [assert (false = true) by (apply (C4 _ Hgr); split_and!; [done|done|lia|lia|by right|by left]); done|]. cbn [negb]. cbv iota.
  eexists _, _. split; [reflexivity|]. split; [reflexivity|]. split.
  - cbn [tables Mm.set_dma Mm.set_tables Mm.set_rmm]. unfold Paging.map_shared_range. by rewrite map_range_no_effect.
  - cbn [rmm Mm.set_dma Mm.set_tables Mm.set_rmm]. rewrite C1 by lia. apply (C _ Hgr); [repeat constructor; unfold below; simpl; (done || lia)|auto|].
    exists (mkMemory 0x40000000 0x40000000 MEMORY_TYPE_RAM). split; [left|]. split; [done|]. vm_compute. by split.
Qed.

(** ** The pool of device buffers *)

Section pool.
Context {H : Type} (alloc : Z → H → option Z * H).

(** A sequence of allocations, and the ranges they were given *)
Fixpoint allocs (ns : list Z) (d : Dma H) : list (Z * Z) * Dma H :=
  match ns with
  | [] => ([], d)
  | n :: ns =>
      let '(r, d) := Pool.alloc_dma_pages alloc n d in
      let '(l, d) := allocs ns d in
      (match r with Some a => (a, n * 0x1000) :: l | None => l end, d)
  end.
Definition disjoint_ranges (r q : Z * Z) : Prop := r.1 + r.2 ≤ q.1 ∨ q.1 + q.2 ≤ r.1.
Definition asked (ns : list Z) : Z := foldr (λ n acc, n * 0x1000 + acc) 0 ns.

Lemma allocs_ranges ns d l d' :
  DMA_MODE d = DMA_MODE_SHARED_POOL → 0 ≤ DMA_POOL_BASE d → 0 ≤ DMA_POOL_OFFSET d → DMA_POOL_BASE d + DMA_POOL_SIZE d < 2 ^ 64 →
  Forall (λ n, 0 ≤ n) ns → DMA_POOL_OFFSET d + asked ns < 2 ^ 64 → allocs ns d = (l, d') →
  Forall (λ r, DMA_POOL_BASE d + DMA_POOL_OFFSET d ≤ r.1 ∧ r.1 + r.2 ≤ DMA_POOL_BASE d + DMA_POOL_SIZE d) l ∧
  (∀ i j r q, l !! i = Some r → l !! j = Some q → i ≠ j → disjoint_ranges r q).
Proof.
  revert d l. induction ns as [|n ns IH]; intros d l Hm Hb Ho Hs Hn Ha E.
  { simplify_eq/=. split; [constructor|]. intros i j r q. by rewrite lookup_nil. }
  apply Forall_cons in Hn as [Hn0 Hn]. simpl in Ha. assert (Hp : 0 ≤ asked ns) by (clear -Hn; induction Hn; simpl in *; lia).
  cbn [allocs] in E. unfold Pool.alloc_dma_pages in E. rewrite Hm, (Int.u64_small (n * 0x1000)), (Int.u64_small (DMA_POOL_OFFSET d + n * 0x1000)) in E by lia.
  cbv zeta in E. cbn [DMA_POOL_SIZE DMA_POOL_BASE] in E.
  destruct (Z.ltb_spec (DMA_POOL_SIZE d) (DMA_POOL_OFFSET d + n * 0x1000)) as [Hlt|Hge].
  - destruct (allocs ns _) as [l1 d1] eqn:E1. simplify_eq.
    apply IH in E1 as [Hr Hd]; [|simpl; (done || lia)..]. simpl in Hr. split; [|done].
    eapply Forall_impl; [exact Hr|]. simpl. intros [r1 r2]. simpl. lia.
  - unfold Pool.write_bytes in E. cbn [DMA_POOL_SIZE DMA_POOL_BASE DMA_MODE DMA_POOL_OFFSET heap mem] in E.
    destruct (allocs ns _) as [l1 d1] eqn:E1. rewrite Int.u64_small in E by lia. simplify_eq.
    apply IH in E1 as [Hr Hd]; [|simpl; (done || lia)..]. simpl in Hr. split.
    + constructor; [simpl; lia|]. eapply Forall_impl; [exact Hr|]. simpl. intros [r1 r2]. simpl. lia.
    + rewrite Forall_lookup in Hr. intros [|i] [|j] r q Hi Hj Hij; simplify_eq/=; [| |apply (Hd i j); congruence].
      * left. simpl. apply Hr in Hj. lia.
      * right. simpl. apply Hr in Hi. lia.
Qed.

(** An allocation that fails still uses its size up, so smaller ones fail after it. *)
Lemma failed_allocation_kept n d : DMA_MODE d = DMA_MODE_SHARED_POOL →
  (Pool.alloc_dma_pages alloc n d).1 = None →
  DMA_POOL_OFFSET (Pool.alloc_dma_pages alloc n d).2 = Int.u64 (DMA_POOL_OFFSET d + Int.u64 (n * 0x1000)).
Proof. intros Hm. unfold Pool.alloc_dma_pages. rewrite Hm. cbv zeta. by case_match. Qed.
End pool.

(** ** Where the code departs from what it means *)

(** [init_rsi] would tell: in a realm at EL1 it says so. *)
Lemma init_rsi_detects {RMM : Type} (monitor : list Z → RMM → SmcResult * RMM) ipa_bits_of cfg g s r1 s1 r2 s2 :
  monitor [smc_rsi_fid 0x190; RSI_ABI_VERSION; 0; 0; 0] s = (r1, s1) → x0 r1 = RSI_SUCCESS →
  monitor [smc_rsi_fid 0x196; cfg; 0; 0; 0] s1 = (r2, s2) → x0 r2 = RSI_SUCCESS → 1 ≤ ipa_bits_of s2 ≤ 64 →
  Rsi.init_rsi monitor ipa_bits_of false 4 cfg g s = (true, mkRsi true (2 ^ (ipa_bits_of s2 - 1)) false, s2).
Proof.
  intros E1 H1 E2 H2 Hb. unfold Rsi.init_rsi. change (Z.land (Z.shiftr 4 2) 3 =? 1) with true. cbn [negb]. cbv iota zeta.
  unfold Rsi.rsi_request_version, Rsi.rsi_get_realm_config, Rsi.smc. rewrite E1, H1.
  change (RSI_SUCCESS =? 0xFFFFFFFF) with false. change (RSI_SUCCESS =? RSI_SUCCESS) with true. cbn [negb]. cbv iota.
  rewrite E2, H2. change (RSI_SUCCESS =? RSI_SUCCESS) with true. cbn [negb]. cbv iota.
  by rewrite Z.mod_small, Z.shiftl_1_l by lia.
Qed.

(** The last eight bytes of a challenge do not reach the monitor. *)
Lemma challenge_tail_dropped {RMM : Type} (monitor : list Z → RMM → SmcResult * RMM) c tail tail' s : length c = 56%nat →
  Rsi.rsi_attestation_token_init monitor (c ++ tail) s = Rsi.rsi_attestation_token_init monitor (c ++ tail') s.
Proof.
  intros Hc. unfold Rsi.rsi_attestation_token_init.
  assert (E : ∀ l, map (Rsi.word (c ++ l)) (seq 0 7) = map (Rsi.word c) (seq 0 7)).
  { intros l. apply map_ext_in. intros i Hi. apply in_seq in Hi. unfold Rsi.word. rewrite drop_app_le by lia.
    rewrite take_app_le; [done|]. rewrite length_drop. lia. }
  by rewrite !E.
Qed.

(** A vector need not begin at a page: then the pages [mark_shared] shares begin before the buffer, with what
    else is there, and end before its last byte. *)
Lemma shared_pages_miss_buffer {RMM H : Type} (monitor : list Z → RMM → SmcResult * RMM) `{!Monitor monitor} (sym : Symbols)
    (sm sm' : SharedMemory) (m m' : Machine RMM H) :
  RSI_PRESENT (rsi m) = true → is_shared sm = false → 0 < pages sm → 0 ≤ vaddr sm → vaddr sm + pages sm * 0x1000 < 2 ^ 64 →
  vaddr sm mod 0x1000 ≠ 0 → Mm.mark_shared monitor sym sm m = Some (true, sm', m') →
  let last := vaddr sm + pages sm * 0x1000 - 1 in
  ripas (rmm m') (vaddr sm - 1) = Empty ∧ ripas (rmm m') last = ripas (rmm m) last.
Proof.
  intros Hg Hsh Hp Hv Hb Hm E. cbv zeta. unfold Mm.mark_shared, Mm.change, Rsi.is_realm_world in E. rewrite Hsh, Hg in E.
  pose proof (Z.div_mod (vaddr sm) 0x1000 ltac:(lia)). pose proof (Z.mod_pos_bound (vaddr sm) 0x1000 ltac:(lia)).
  assert (Hd : Mm.page_down (vaddr sm) = vaddr sm - vaddr sm mod 0x1000) by (unfold Mm.page_down; lia).
  destruct (mark_shared_spec monitor (rsi m) (Mm.page_down (vaddr sm)) (Mm.page_down (vaddr sm) + pages sm * 0x1000) (rmm m)
    Hg ltac:(lia) ltac:(lia)) as (r & s & E1 & C1 & _ & C3 & _).
  cbv zeta in E. rewrite E1 in E. cbn [mbind option_bind] in E. destruct r as [|[]]; simplify_eq/=. split; [apply C3|apply C1]; (done || lia).
Qed.

(** [virt_to_phys] gives back the attributes with the address. *)
Lemma virt_to_phys_keeps_attributes :
  Paging.virt_to_phys Sample.symbols 0x50001034
    (Paging.map_protected_page Sample.symbols (mkRsi true (2 ^ 47) false) 0x50001000 0x50001000 (mkTables (λ _, 0) 0)) =
  Some (0x50001034 + 0x600 + 2 ^ 51 + 2 ^ 53 + 2 ^ 54).
Proof. vm_compute. reflexivity. Qed.
(** Bits 7 and 6 both set make memory read-only, for the kernel too. *)
Lemma rw_is_read_only : Z.land PTE_AP_RW_EL1 PTE_AP_RO = PTE_AP_RO ∧ Z.land PROT_KERNEL_RW PTE_AP_RO = PTE_AP_RO.
Proof. by vm_compute. Qed.
