(* ===== verification/Virtio.v ===== *)
(** * The migration VM: its devices

    [confidential-migvm/src/virtio]: the virtqueues, the network device ([net.rs], with [network.rs]) and the
    socket to the host ([vsock.rs]).  Queues and buffers lie in memory the host writes too; what it does while
    the VM waits is a parameter. *)

From S2P Require Import Prelude Utf8 Xdr Text Fdt MigMem.

#[local] Open Scope string_scope.
#[local] Open Scope list_scope.
#[local] Open Scope Z_scope.

(** ** Memory *)

Definition get_bytes (m : Z → byte) (a n : Z) : list byte := bytes_of m a n.
Definition put_bytes (a : Z) (l : list byte) (m : Z → byte) : Z → byte :=
  λ x, if (a <=? x) && (x <? a + Vec.len l) then Vec.get l (x - a) else m x.
(** A little-endian number of [n] bytes *)
Definition read (n : nat) (m : Z → byte) (a : Z) : Z := be_value (reverse (get_bytes m a (Z.of_nat n))).
Definition write (n : nat) (a v : Z) (m : Z → byte) : Z → byte := put_bytes a (reverse (be_bytes n v)) m.

(** ** Virtqueues *)

Definition VIRTQ_DESC_F_NEXT : Z := 1.
Definition VIRTQ_DESC_F_WRITE : Z := 2.
Definition NET_QUEUE_SIZE : Z := 128.
Record VirtqDesc := mkDesc { d_addr : Z; d_len : Z; d_flags : Z; d_next : Z }.
Record VirtQueue := mkQueue {
  desc : Z; avail : Z; used : Z; num : Z; free_desc : Z; last_used_idx : Z; dma_addr : Z; dma_pages : Z
}.

Module Queue.
Section heap.
Context {H : Type}.
Variable alloc : Z → H → option Z * H.
Variable dealloc : Z → Z → H → H.

Definition set_mem (f : (Z → byte) → Z → byte) (d : Dma H) : Dma H :=
  mkDma (DMA_MODE d) (DMA_POOL_BASE d) (DMA_POOL_OFFSET d) (DMA_POOL_SIZE d) (heap d) (f (mem d)).
Definition desc_ptr (q : VirtQueue) (idx : Z) : Z := desc q + 16 * idx.
Definition avail_idx_ptr (q : VirtQueue) : Z := avail q + 2.
Definition avail_ring_ptr (q : VirtQueue) : Z := avail q + 4.
Definition used_idx_ptr (q : VirtQueue) : Z := used q + 2.
Definition used_ring_ptr (q : VirtQueue) : Z := used q + 4.
Definition read_desc (m : Z → byte) (a : Z) : VirtqDesc := mkDesc (read 8 m a) (read 4 m (a + 8)) (read 2 m (a + 12)) (read 2 m (a + 14)).
Definition write_desc (a : Z) (e : VirtqDesc) (m : Z → byte) : Z → byte :=
  write 2 (a + 14) (d_next e) (write 2 (a + 12) (d_flags e) (write 4 (a + 8) (d_len e) (write 8 a (d_addr e) m))).

(** The sizes of the three areas *)
Definition desc_bytes (n : Z) : Z := n * 16.
Definition avail_bytes (n : Z) : Z := 2 * 2 + n * 2.
Definition used_bytes (n : Z) : Z := 2 * 2 + n * 8.
Definition pages_of (bytes : Z) : Z := Z.shiftr (bytes + 0xFFF) 12.
(** [next] of every descriptor *)
Definition init_descriptors (q : VirtQueue) (m : Z → byte) : Z → byte :=
  foldl (λ m i, write 2 (desc_ptr q i + 14) (if i + 1 <? num q then i + 1 else 0) m) m (seqZ 0 (num q)).
Definition finish (q : VirtQueue) (d : Dma H) : option VirtQueue * Dma H := (Some q, set_mem (init_descriptors q) d).
Definition new_legacy (n : Z) (d : Dma H) : option VirtQueue * Dma H :=
  let desc_pages := pages_of (desc_bytes n) in
  let avail_pages := pages_of (avail_bytes n) in
  let used_pages := pages_of (used_bytes n) in
  let total_pages := desc_pages + avail_pages + used_pages in
  let '(r, d) := Pool.alloc_dma_pages alloc total_pages d in
  match r with
  | None => (None, d)
  | Some a =>
      let d := Pool.write_bytes a (total_pages * 0x1000) d in
      finish (mkQueue a (a + desc_pages * 0x1000) (a + (desc_pages + avail_pages) * 0x1000) n 0 0 a total_pages) d
  end.
Definition new_modern (n : Z) (d : Dma H) : option VirtQueue * Dma H :=
  let avail_off := (desc_bytes n + 1) / 2 * 2 in
  let used_off := (avail_off + avail_bytes n + 7) / 8 * 8 in
  let total_pages := pages_of (used_off + used_bytes n) in
  let '(r, d) := Pool.alloc_dma_pages alloc total_pages d in
  match r with
  | None => (None, d)
  | Some a =>
      let d := Pool.write_bytes a (total_pages * 0x1000) d in
      finish (mkQueue a (a + avail_off) (a + used_off) n 0 0 a total_pages) d
  end.
Definition new (queue_size : Z) (is_legacy : bool) : Dma H → option VirtQueue * Dma H :=
  if is_legacy then new_legacy queue_size else new_modern queue_size.

Definition avail_add (q : VirtQueue) (head_idx : Z) (m : Z → byte) : Z → byte :=
  let avail_idx := read 2 m (avail_idx_ptr q) in
  let m := write 2 (avail_ring_ptr q + 2 * (avail_idx mod num q)) head_idx m in
  write 2 (avail_idx_ptr q) ((avail_idx + 1) mod 2 ^ 16) m.
Definition get_used_buf (q : VirtQueue) (m : Z → byte) : option (Z * Z) * VirtQueue :=
  let used_idx := read 2 m (used_idx_ptr q) in
  if last_used_idx q =? used_idx then (None, q) else
  let elem := used_ring_ptr q + 8 * (last_used_idx q mod num q) in
  (Some (read 4 m elem, read 4 m (elem + 4)),
   mkQueue (desc q) (avail q) (used q) (num q) (free_desc q) ((last_used_idx q + 1) mod 2 ^ 16) (dma_addr q) (dma_pages q)).
Definition poll_used_imm (q : VirtQueue) (m : Z → byte) : Z := read 2 m (used_idx_ptr q).
Definition drop (q : VirtQueue) : Dma H → Dma H := Pool.free_dma_pages dealloc (dma_addr q) (dma_pages q).
End heap.
End Queue.

(** ** The network device *)

(** [size_of::<VirtioNetHdr>()] *)
Definition NET_HDR : Z := 10.
Record RxBuf := mkRx { rx_dma : Z; desc_idx : Z }.
(** What changes of the device after it was found *)
Record VirtioNet := mkNet { rx : VirtQueue; tx : VirtQueue; rx_bufs : list (option RxBuf); rx_buf_next : Z; net_tx_buf : Z }.
(** [NetDevice] of [network.rs] *)
Record NetDevice := mkDevice { inner : VirtioNet; last_rx_desc : option Z }.

Module Net.
Section host.
Context {H : Type}.
Variable alloc : Z → H → option Z * H.
(** What the host does to the memory while the VM waits *)
Variable host : (Z → byte) → Z → byte.

Definition set_bufs (l : list (option RxBuf)) (n : VirtioNet) : VirtioNet := mkNet (rx n) (tx n) l (rx_buf_next n) (net_tx_buf n).
Definition rx_desc (dma : Z) : VirtqDesc := mkDesc dma 0x1000 VIRTQ_DESC_F_WRITE 0.
Fixpoint fill (k : nat) (n : VirtioNet) (d : Dma H) : VirtioNet * Dma H :=
  match k with
  | 0%nat => (n, d)
  | S k =>
      let '(r, d) := Pool.alloc_dma_pages alloc 1 d in
      match r with
      | None => (n, d)
      | Some buf_dma =>
          let d := Pool.write_bytes buf_dma 0x1000 d in
          let d0 := rx_buf_next n in
          let n := mkNet (rx n) (tx n) (<[Z.to_nat d0 := Some (mkRx buf_dma d0)]> (rx_bufs n)) ((d0 + 1) mod num (rx n)) (net_tx_buf n) in
          let d := Queue.set_mem (Queue.write_desc (Queue.desc_ptr (rx n) d0) (rx_desc buf_dma)) d in
          fill k n (Queue.set_mem (Queue.avail_add (rx n) d0) d)
      end
  end.
Definition fill_rx_buffers (n : VirtioNet) (d : Dma H) : VirtioNet * Dma H := fill (Z.to_nat (Z.min (num (rx n)) 64)) n d.
(** An index that is not in [rx_bufs] panics: [None]. *)
Definition recycle_rx_buf (idx : Z) (n : VirtioNet) (d : Dma H) : option (VirtioNet * Dma H) :=
  slot ← rx_bufs n !! Z.to_nat idx;
  '(buf, d) ← match slot with
              | Some b => Some (b, d)
              | None => let '(r, d) := Pool.alloc_dma_pages alloc 1 d in dma ← r; Some (mkRx dma idx, d)
              end;
  let d := Queue.set_mem (Queue.write_desc (Queue.desc_ptr (rx n) (desc_idx buf)) (rx_desc (rx_dma buf))) d in
  let n := set_bufs (<[Z.to_nat idx := Some buf]> (rx_bufs n)) n in
  Some (n, Queue.set_mem (Queue.avail_add (rx n) idx) d).
Definition rx_recycle : Z → VirtioNet → Dma H → option (VirtioNet * Dma H) := recycle_rx_buf.
(** The data of the packet: where, and how many bytes; the subtractions are those of [usize] *)
Definition rx_poll (n : VirtioNet) (m : Z → byte) : option (option (Z * Z) * VirtioNet) :=
  let '(r, q) := Queue.get_used_buf (rx n) m in
  let n := mkNet q (tx n) (rx_bufs n) (rx_buf_next n) (net_tx_buf n) in
  match r with
  | None => Some (None, n)
  | Some (idx, pkt_len) =>
      slot ← rx_bufs n !! Z.to_nat idx;
      match slot with
      | None => Some (None, n)
      | Some buf =>
          let hdr_len := read 2 m (rx_dma buf + 2) in
          let data_len := Int.u64 (pkt_len - NET_HDR) in
          Some (Some (rx_dma buf + NET_HDR, Int.sat_sub data_len hdr_len), n)
      end
  end.

(** The header and the two descriptors of a packet, which is then handed to the host *)
Definition tx_write (data : list byte) (n : VirtioNet) (m : Z → byte) : Z → byte :=
  let m := put_bytes (net_tx_buf n) (replicate 10 x00) m in
  let m := put_bytes (net_tx_buf n + NET_HDR) data m in
  let d1 := read 2 m (Queue.desc_ptr (tx n) 0 + 14) in
  let m := Queue.write_desc (Queue.desc_ptr (tx n) 0) (mkDesc (net_tx_buf n) NET_HDR VIRTQ_DESC_F_NEXT d1) m in
  let m := Queue.write_desc (Queue.desc_ptr (tx n) d1) (mkDesc (net_tx_buf n + NET_HDR) (Vec.len data) 0 0) m in
  Queue.avail_add (tx n) 0 m.
Definition tx_finish (n : VirtioNet) (m : Z → byte) : bool * VirtioNet :=
  let '(r, q) := Queue.get_used_buf (tx n) m in
  (bool_decide (is_Some r), mkNet (rx n) q (rx_bufs n) (rx_buf_next n) (net_tx_buf n)).
Definition tx_send (data : list byte) (n : VirtioNet) (m : Z → byte) : bool * VirtioNet * (Z → byte) :=
  if 0x1000 - NET_HDR <? Int.u32 (Vec.len data) then (false, n, m) else
  let m := host (tx_write data n m) in
  let '(ok, n) := tx_finish n m in (ok, n, m).

(** [network.rs]: the packet a token leads to, and a token's packet as the network stack wrote it *)
Definition receive (v : NetDevice) (m : Z → byte) : option (option (Z * Z) * NetDevice) :=
  let '(r, q) := Queue.get_used_buf (rx (inner v)) m in
  let n := mkNet q (tx (inner v)) (rx_bufs (inner v)) (rx_buf_next (inner v)) (net_tx_buf (inner v)) in
  match r with
  | None => Some (None, mkDevice n (last_rx_desc v))
  | Some (idx, pkt_len) =>
      let idx := idx mod 2 ^ 16 in
      slot ← rx_bufs n !! Z.to_nat idx;
      match slot with
      | None => Some (None, mkDevice n (last_rx_desc v))
      | Some buf => Some (Some (rx_dma buf + NET_HDR, Int.u64 (pkt_len - NET_HDR)), mkDevice n (Some idx))
      end
  end.
Definition consume (packet : list byte) (v : NetDevice) (m : Z → byte) : NetDevice * (Z → byte) :=
  let m := host (tx_write packet (inner v) m) in
  (mkDevice (tx_finish (inner v) m).2 (last_rx_desc v), m).
Definition recycle_last_rx (v : NetDevice) (d : Dma H) : option (NetDevice * Dma H) :=
  match last_rx_desc v with
  | Some idx => '(n, d) ← recycle_rx_buf idx (inner v) d; Some (mkDevice n None, d)
  | None => Some (v, d)
  end.
End host.
End Net.

(** ** The socket to the host *)

(** [size_of::<VirtioVsockHdr>()]: the fields take 44 bytes, and the alignment of the first makes it 48 *)
Definition VSOCK_HDR : Z := 48.
Definition VSOCK_TYPE_STREAM : Z := 1.
Definition VSOCK_OP_REQUEST : Z := 1.
Definition VSOCK_OP_RESPONSE : Z := 2.
Definition VSOCK_OP_RST : Z := 3.
Definition VSOCK_OP_SHUTDOWN : Z := 4.
Definition VSOCK_OP_RW : Z := 5.
Record VirtioVsockHdr := mkHdr {
  src_cid : Z; dst_cid : Z; src_port : Z; dst_port : Z; h_len : Z; ty : Z; op : Z; h_flags : Z; buf_alloc : Z; fwd_cnt : Z
}.
Record VsockDevice := mkVsock {
  vrx : VirtQueue; vtx : VirtQueue; guest_cid : Z; peer_cid : Z; peer_port : Z; local_port : Z;
  rx_buf_dma : Z; tx_buf_dma : Z; rx_desc_idx : Z; connected : bool
}.

Module Vsock.
Section host.
Context {H : Type}.
Variable alloc : Z → H → option Z * H.
Variable host : (Z → byte) → Z → byte.

(** [VsockVirtQueue]: the queue of the network device again, with the layout of the modern one *)
Definition new (queue_size : Z) : Dma H → option VirtQueue * Dma H := Queue.new_modern alloc queue_size.
Definition avail_add : VirtQueue → Z → (Z → byte) → Z → byte := Queue.avail_add.
Definition get_used_buf : VirtQueue → (Z → byte) → option (Z * Z) * VirtQueue := Queue.get_used_buf.
Definition alloc_desc_head (q : VirtQueue) (m : Z → byte) : option Z * VirtQueue :=
  let head := free_desc q in
  let next := read 2 m (Queue.desc_ptr q head + 14) in
  if (next =? 0) && negb (head =? 0) then (None, q)
  else (Some head, mkQueue (desc q) (avail q) (used q) (num q) next (last_used_idx q) (dma_addr q) (dma_pages q)).
Definition setup_rx_desc (q : VirtQueue) (idx buf_dma buf_len : Z) : (Z → byte) → Z → byte :=
  Queue.write_desc (Queue.desc_ptr q idx) (mkDesc buf_dma buf_len VIRTQ_DESC_F_WRITE 0).

Definition set_queues (r t : VirtQueue) (v : VsockDevice) : VsockDevice :=
  mkVsock r t (guest_cid v) (peer_cid v) (peer_port v) (local_port v) (rx_buf_dma v) (tx_buf_dma v) (rx_desc_idx v) (connected v).
Definition set_connected (b : bool) (v : VsockDevice) : VsockDevice :=
  mkVsock (vrx v) (vtx v) (guest_cid v) (peer_cid v) (peer_port v) (local_port v) (rx_buf_dma v) (tx_buf_dma v) (rx_desc_idx v) b.
Definition write_hdr (a : Z) (h : VirtioVsockHdr) (m : Z → byte) : Z → byte :=
  let m := put_bytes a (replicate 48 x00) m in
  write 4 (a + 40) (fwd_cnt h) (write 4 (a + 36) (buf_alloc h) (write 4 (a + 32) (h_flags h) (write 2 (a + 30) (op h)
    (write 2 (a + 28) (ty h) (write 4 (a + 24) (h_len h) (write 4 (a + 20) (dst_port h) (write 4 (a + 16) (src_port h)
      (write 8 (a + 8) (dst_cid h) (write 8 a (src_cid h) m))))))))).
Definition hdr_of (v : VsockDevice) (len o : Z) : VirtioVsockHdr :=
  mkHdr (guest_cid v) (peer_cid v) (local_port v) (peer_port v) len VSOCK_TYPE_STREAM o 0 4096 0.

(** [rx_desc_idx] is set to zero again before it is used *)
Definition submit_rx_buf (v : VsockDevice) (m : Z → byte) : VsockDevice * (Z → byte) :=
  let '(r, q) := if rx_desc_idx v =? 0 then alloc_desc_head (vrx v) m else (Some (rx_desc_idx v), vrx v) in
  match r with
  | None => (v, m)
  | Some idx =>
      let m := setup_rx_desc q idx (rx_buf_dma v) 4096 m in
      (mkVsock q (vtx v) (guest_cid v) (peer_cid v) (peer_port v) (local_port v) (rx_buf_dma v) (tx_buf_dma v) 0 (connected v),
       avail_add q idx m)
  end.
Definition connect (v : VsockDevice) (m : Z → byte) : bool * VsockDevice * (Z → byte) :=
  let '(v, m) := submit_rx_buf v m in
  let m := write_hdr (tx_buf_dma v) (hdr_of v 0 VSOCK_OP_REQUEST) m in
  let '(r, q) := alloc_desc_head (vtx v) m in
  match r with
  | None => (false, v, m)
  | Some d0 =>
      let m := Queue.write_desc (Queue.desc_ptr q d0) (mkDesc (tx_buf_dma v) VSOCK_HDR 0 0) m in
      let m := host (avail_add q d0 m) in
      let '(r, q) := get_used_buf q m in
      let v := set_queues (vrx v) q v in
      match r with
      | None => (false, v, m)
      | Some _ =>
          let '(v, m) := submit_rx_buf v m in
          let m := host m in
          let '(r, q) := get_used_buf (vrx v) m in
          let v := set_queues q (vtx v) v in
          match r with
          | Some _ =>
              if read 2 m (rx_buf_dma v + 30) =? VSOCK_OP_RESPONSE then (true, set_connected true v, m) else (false, v, m)
          | None => (false, v, m)
          end
      end
  end.
(** The packet in memory, with its two descriptors in the ring, or nothing when there are not two left *)
Definition send_write (data : list byte) (v : VsockDevice) (m : Z → byte) : option VirtQueue * VirtQueue * (Z → byte) :=
  let m := write_hdr (tx_buf_dma v) (hdr_of v (Vec.len data) VSOCK_OP_RW) m in
  let m := put_bytes (tx_buf_dma v + VSOCK_HDR) data m in
  let '(r0, q) := alloc_desc_head (vtx v) m in
  match r0 with
  | None => (None, q, m)
  | Some d0 =>
      let '(r1, q) := alloc_desc_head q m in
      match r1 with
      | None => (None, q, m)
      | Some d1 =>
          let m := Queue.write_desc (Queue.desc_ptr q d0) (mkDesc (tx_buf_dma v) VSOCK_HDR VIRTQ_DESC_F_NEXT d1) m in
          let m := Queue.write_desc (Queue.desc_ptr q d1) (mkDesc (tx_buf_dma v + VSOCK_HDR) (Vec.len data) 0 0) m in
          (Some q, q, avail_add q d0 m)
      end
  end.
Definition send (data : list byte) (v : VsockDevice) (m : Z → byte) : bool * VsockDevice * (Z → byte) :=
  if negb (connected v) || bool_decide (data = []) then (false, v, m) else
  if 4096 - VSOCK_HDR <? Int.u32 (Vec.len data) then (false, v, m) else
  let '(r, q, m) := send_write data v m in
  match r with
  | None => (false, set_queues (vrx v) q v, m)
  | Some q =>
      let m := host m in
      let '(r, q) := get_used_buf q m in
      (bool_decide (is_Some r), set_queues (vrx v) q v, m)
  end.
(** The payload: where, how many bytes ([len - hdr_len] on [u32]), and the port it came from *)
Definition recv (v : VsockDevice) (m : Z → byte) : option (Z * Z * Z) * VsockDevice * (Z → byte) :=
  if negb (connected v) then (None, v, m) else
  let '(v, m) := submit_rx_buf v m in
  let m := host m in
  let '(r, q) := get_used_buf (vrx v) m in
  let v := set_queues q (vtx v) v in
  match r with
  | None => (None, v, m)
  | Some (_, len) =>
      let o := read 2 m (rx_buf_dma v + 30) in
      if o =? VSOCK_OP_RW then
        let payload_len := Z.min (read 4 m (rx_buf_dma v + 24)) (Int.u32 (len - VSOCK_HDR)) in
        (Some (rx_buf_dma v + VSOCK_HDR, payload_len, read 4 m (rx_buf_dma v + 16)), v, m)
      else if (o =? VSOCK_OP_SHUTDOWN) || (o =? VSOCK_OP_RST) then (None, set_connected false v, m)
      else (None, v, m)
  end.
End host.
End Vsock.

(** * Reading what was written *)

Lemma put_outside a l m x : ¬ (a ≤ x < a + Vec.len l) → put_bytes a l m x = m x.
Proof. intros Hx. unfold put_bytes. destruct (Z.leb_spec a x), (Z.ltb_spec x (a + Vec.len l)); (done || lia). Qed.
Lemma get_put_same a l m : get_bytes (put_bytes a l m) a (Vec.len l) = l.
Proof.
  unfold get_bytes. pose proof (Vec.len_nonneg l) as Hl. apply Vec.ext; [by rewrite len_bytes_of|].
  intros i Hi. rewrite len_bytes_of in Hi by done. rewrite get_bytes_of, decide_True by done. unfold put_bytes.
  rewrite (proj2 (Z.leb_le _ _)), (proj2 (Z.ltb_lt _ _)) by lia. simpl. f_equal. lia.
Qed.
Lemma get_put_other a l m b n : b + n ≤ a ∨ a + Vec.len l ≤ b → get_bytes (put_bytes a l m) b n = get_bytes m b n.
Proof. intros Hd. apply bytes_of_ext. intros i Hi. apply put_outside. lia. Qed.
Lemma le_len n v : Vec.len (reverse (be_bytes n v)) = Z.of_nat n.
Proof. unfold Vec.len. by rewrite length_reverse, length_be. Qed.
Lemma read_write_same n a v m : read n (write n a v m) a = v mod 256 ^ Z.of_nat n.
Proof.
  unfold read, write. rewrite <- (le_len n v) at 1. rewrite get_put_same, reverse_involutive. apply be_value_bytes.
Qed.
Lemma read_write_other n k a b v m :
  a + Z.of_nat n ≤ b ∨ b + Z.of_nat k ≤ a → read n (write k b v m) a = read n m a.
Proof. intros Hd. unfold read, write. rewrite get_put_other; [done|]. rewrite le_len. lia. Qed.
Lemma write_outside k b v m x : ¬ (b ≤ x < b + Z.of_nat k) → write k b v m x = m x.
Proof. intros Hx. apply put_outside. by rewrite le_len. Qed.
Lemma read_put_other n a l b m : b + Z.of_nat n ≤ a ∨ a + Vec.len l ≤ b → read n (put_bytes a l m) b = read n m b.
Proof. intros Hd. unfold read. by rewrite get_put_other. Qed.
Lemma read_range n m a : 0 ≤ read n m a < 256 ^ Z.of_nat n.
Proof.
  unfold read. pose proof (be_value_range (reverse (get_bytes m a (Z.of_nat n)))) as Hr. rewrite length_reverse in Hr.
  pose proof (len_bytes_of m a (Z.of_nat n) ltac:(lia)) as Hl. unfold Vec.len, get_bytes in *. by rewrite Hl in Hr.
Qed.

(** * A virtqueue is two queues *)

(** The other side, as the VIRTIO specification has it: the device takes descriptors from one ring at its own
    index and puts what it has used into the other. *)
Definition fetch (q : VirtQueue) (f : Z) (m : Z → byte) : option Z * Z :=
  if f =? read 2 m (Queue.avail_idx_ptr q) then (None, f)
  else (Some (read 2 m (Queue.avail_ring_ptr q + 2 * (f mod num q))), (f + 1) mod 2 ^ 16).
Definition publish (q : VirtQueue) (u : Z) (e : Z * Z) (m : Z → byte) : (Z → byte) * Z :=
  let slot := Queue.used_ring_ptr q + 8 * (u mod num q) in
  (write 2 (Queue.used_idx_ptr q) ((u + 1) mod 2 ^ 16) (write 4 (slot + 4) e.2 (write 4 slot e.1 m)), (u + 1) mod 2 ^ 16).
Record sides := mkSides { s_queue : VirtQueue; s_mem : Z → byte; s_fetched : Z; s_published : Z }.
(** What the driver and the device do, in any order *)
Inductive event := Add (h : Z) | Fetch | Publish (e : Z * Z) | Poll.
Inductive answer := Nothing | Head (h : option Z) | Elem (e : option (Z * Z)).
Definition act (s : sides) (e : event) : answer * sides :=
  let '(mkSides q m f u) := s in
  match e with
  | Add h => (Nothing, mkSides q (Queue.avail_add q h m) f u)
  | Fetch => let '(r, f) := fetch q f m in (Head r, mkSides q m f u)
  | Publish e => let '(m, u) := publish q u e m in (Nothing, mkSides q m f u)
  | Poll => let '(r, q) := Queue.get_used_buf q m in (Elem r, mkSides q m f u)
  end.
Fixpoint acts (s : sides) (es : list event) : list answer :=
  match es with [] => [] | e :: es => let '(a, s) := act s e in a :: acts s es end.

(** The specification: what is on the way to the device and what is on the way back, at most [n] each *)
Definition spec_act (w : list Z * list (Z * Z)) (e : event) : answer * (list Z * list (Z * Z)) :=
  match e with
  | Add h => (Nothing, (w.1 ++ [h], w.2))
  | Fetch => (Head (head w.1), (tail w.1, w.2))
  | Publish e => (Nothing, (w.1, w.2 ++ [e]))
  | Poll => (Elem (head w.2), (w.1, tail w.2))
  end.
Fixpoint spec_acts (w : list Z * list (Z * Z)) (es : list event) : list answer :=
  match es with [] => [] | e :: es => let '(a, w) := spec_act w e in a :: spec_acts w es end.
Definition room (n : Z) (w : list Z * list (Z * Z)) (e : event) : bool :=
  match e with
  | Add h => (0 <=? h) && (h <? 2 ^ 16) && (Z.of_nat (length w.1) <? n)
  | Publish (i, l) => (0 <=? i) && (i <? 2 ^ 32) && (0 <=? l) && (l <? 2 ^ 32) && (Z.of_nat (length w.2) <? n)
  | _ => true
  end.
Fixpoint fits (n : Z) (w : list Z * list (Z * Z)) (es : list event) : bool :=
  match es with [] => true | e :: es => room n w e && fits n (spec_act w e).2 es end.

Definition queue_ok (q : VirtQueue) : Prop :=
  0 < num q ∧ (num q | 2 ^ 16) ∧ num q < 2 ^ 16 ∧ avail q + 4 + 2 * num q ≤ used q.
(** One of the rings: the number of all entries ever put in it is [n], of those taken [f]. *)
Definition avail_side (q : VirtQueue) (m : Z → byte) (f n : Z) (pending : list Z) : Prop :=
  0 ≤ f ∧ n - f = Z.of_nat (length pending) ∧ n - f ≤ num q ∧ read 2 m (Queue.avail_idx_ptr q) = n mod 2 ^ 16 ∧
  ∀ i h, pending !! i = Some h → read 2 m (Queue.avail_ring_ptr q + 2 * ((f + Z.of_nat i) mod num q)) = h.
Definition used_side (q : VirtQueue) (m : Z → byte) (t u : Z) (back : list (Z * Z)) : Prop :=
  0 ≤ t ∧ u - t = Z.of_nat (length back) ∧ u - t ≤ num q ∧ read 2 m (Queue.used_idx_ptr q) = u mod 2 ^ 16 ∧
  ∀ i e, back !! i = Some e →
    let slot := Queue.used_ring_ptr q + 8 * ((t + Z.of_nat i) mod num q) in (read 4 m slot, read 4 m (slot + 4)) = e.
Definition sides_ok (s : sides) (w : list Z * list (Z * Z)) : Prop :=
  queue_ok (s_queue s) ∧ ∃ f n t u,
    avail_side (s_queue s) (s_mem s) f n w.1 ∧ used_side (s_queue s) (s_mem s) t u w.2 ∧
    s_fetched s = f mod 2 ^ 16 ∧ s_published s = u mod 2 ^ 16 ∧ last_used_idx (s_queue s) = t mod 2 ^ 16.

Lemma mod_16 q x : queue_ok q → (x mod 2 ^ 16) mod num q = x mod num q.
Proof. intros (H0 & Hd & _). by apply Z.mod_mod_divide. Qed.
(** Two entries that are less than a ring apart do not share a slot. *)
Lemma slots_differ k i j : 0 < k → i < j < i + k → i mod k ≠ j mod k.
Proof.
  intros Hk Hij E. pose proof (Z.div_mod i k ltac:(lia)) as Hi. pose proof (Z.div_mod j k ltac:(lia)) as Hj. rewrite E in Hi.
  assert (j - i = k * (j / k - i / k)) as Hd by (rewrite Z.mul_sub_distr_l; lia).
  destruct (Z.le_gt_cases (j / k - i / k) 0); nia.
Qed.
Lemma idx_differ x y : x < y < x + 2 ^ 16 → x mod 2 ^ 16 ≠ y mod 2 ^ 16.
Proof. intros. by apply slots_differ. Qed.

Lemma add_side q m f n pending h : queue_ok q → avail_side q m f n pending → 0 ≤ h < 2 ^ 16 → n - f < num q →
  avail_side q (Queue.avail_add q h m) f (n + 1) (pending ++ [h]).
Proof.
  intros Hq (H0 & Hl & Hn & Hi & Hr) Hh Hlt. unfold Queue.avail_add. rewrite Hi. cbv zeta. rewrite mod_16 by done.
  pose proof Hq as (Hq0 & _ & _ & _). unfold avail_side, Queue.avail_ring_ptr, Queue.avail_idx_ptr in *.
  pose proof (Z.mod_pos_bound n (num q) ltac:(lia)). split_and!; [done|rewrite length_app; simpl; lia|lia|..].
  - rewrite read_write_same. change (256 ^ Z.of_nat 2) with (2 ^ 16). rewrite Z.mod_mod, Z.add_mod_idemp_l by lia. done.
  - intros i x Hx. pose proof (Z.mod_pos_bound (f + Z.of_nat i) (num q) ltac:(lia)).
    rewrite read_write_other by lia. apply lookup_app_Some in Hx as [Hx|[Hge Hx]].
    + apply lookup_lt_Some in Hx as Hlen. assert ((f + Z.of_nat i) mod num q ≠ n mod num q) by (apply slots_differ; lia).
      rewrite read_write_other by lia. by apply Hr.
    + apply list_lookup_singleton_Some in Hx as [Hk <-]. replace (f + Z.of_nat i) with n by lia.
      rewrite read_write_same. by apply Z.mod_small.
Qed.
Lemma add_other q m t u back h : queue_ok q → used_side q m t u back → used_side q (Queue.avail_add q h m) t u back.
Proof.
  intros (Hq0 & _ & _ & Ha) (H0 & Hl & Hn & Hi & Hr). unfold Queue.avail_add. cbv zeta.
  set (s := read 2 m _ mod num q). assert (0 ≤ s < num q) by (apply Z.mod_pos_bound; lia).
  unfold used_side, Queue.avail_ring_ptr, Queue.avail_idx_ptr, Queue.used_idx_ptr, Queue.used_ring_ptr in *.
  split_and!; [done..| |]; [by rewrite !read_write_other by lia|]. intros i e He.
  pose proof (Z.mod_pos_bound (t + Z.of_nat i) (num q) ltac:(lia)). cbv zeta. rewrite !read_write_other by lia. by apply Hr.
Qed.
Lemma fetch_side q m f n pending : queue_ok q → avail_side q m f n pending →
  ∃ f', (fetch q (f mod 2 ^ 16) m) = (head pending, f' mod 2 ^ 16) ∧ avail_side q m f' n (tail pending).
Proof.
  intros Hq Hs. pose proof Hs as (H0 & Hl & Hn & Hi & Hr). pose proof Hq as (_ & _ & Hq1 & _). unfold fetch. rewrite Hi.
  destruct pending as [|h pending]; simpl in *.
  - replace n with f by lia. rewrite Z.eqb_refl. exists f. split; [done|]. by replace f with n at 2 by lia.
  - rewrite (proj2 (Z.eqb_neq _ _)) by (apply idx_differ; lia). exists (f + 1). split.
    + rewrite mod_16, Z.add_mod_idemp_l by (done || lia). by rewrite <- (Hr 0%nat h eq_refl), Z.add_0_r.
    + split_and!; [lia|lia|lia|done|]. intros i x Hx. rewrite <- (Hr (S i) x Hx). do 4 f_equal. lia.
Qed.
Lemma publish_side q m t u back e : queue_ok q → used_side q m t u back → 0 ≤ e.1 < 2 ^ 32 → 0 ≤ e.2 < 2 ^ 32 → u - t < num q →
  used_side q (publish q (u mod 2 ^ 16) e m).1 t (u + 1) (back ++ [e]).
Proof.
  intros Hq (H0 & Hl & Hn & Hi & Hr) He1 He2 Hlt. unfold publish. cbv zeta. rewrite mod_16 by done. cbn [fst].
  pose proof Hq as (Hq0 & _). unfold used_side, Queue.used_ring_ptr, Queue.used_idx_ptr in *.
  pose proof (Z.mod_pos_bound u (num q) ltac:(lia)). split_and!; [done|rewrite length_app; simpl; lia|lia|..].
  - rewrite read_write_same. change (256 ^ Z.of_nat 2) with (2 ^ 16). rewrite Z.mod_mod, Z.add_mod_idemp_l by lia. done.
  - intros i x Hx. pose proof (Z.mod_pos_bound (t + Z.of_nat i) (num q) ltac:(lia)). cbv zeta.
    rewrite !(read_write_other 4 2) by lia. apply lookup_app_Some in Hx as [Hx|[Hge Hx]].
    + apply lookup_lt_Some in Hx as Hlen. assert ((t + Z.of_nat i) mod num q ≠ u mod num q) by (apply slots_differ; lia).
      rewrite !read_write_other by lia. by apply Hr.
    + apply list_lookup_singleton_Some in Hx as [Hk <-]. replace (t + Z.of_nat i) with u by lia.
      rewrite read_write_same, (read_write_other 4 4) by lia. rewrite read_write_same.
      change (256 ^ Z.of_nat 4) with (2 ^ 32). rewrite !Z.mod_small by done. by destruct e.
Qed.
Lemma publish_other q m f n pending u e : queue_ok q → avail_side q m f n pending → avail_side q (publish q u e m).1 f n pending.
Proof.
  intros (Hq0 & _ & _ & Ha) (H0 & Hl & Hn & Hi & Hr). unfold publish. cbv zeta. cbn [fst].
  assert (0 ≤ u mod num q < num q) by (apply Z.mod_pos_bound; lia).
  unfold avail_side, Queue.avail_ring_ptr, Queue.avail_idx_ptr, Queue.used_idx_ptr, Queue.used_ring_ptr in *.
  split_and!; [done..| |]; [by rewrite !read_write_other by lia|]. intros i h Hh.
  pose proof (Z.mod_pos_bound (f + Z.of_nat i) (num q) ltac:(lia)). rewrite !read_write_other by lia. by apply Hr.
Qed.
Lemma poll_side q m t u back : queue_ok q → used_side q m t u back → last_used_idx q = t mod 2 ^ 16 →
  ∃ q' t', Queue.get_used_buf q m = (head back, q') ∧ last_used_idx q' = t' mod 2 ^ 16 ∧ used_side q m t' u (tail back) ∧
    q' = mkQueue (desc q) (avail q) (used q) (num q) (free_desc q) (last_used_idx q') (dma_addr q) (dma_pages q).
Proof.
  intros Hq Hs Hu. pose proof Hs as (H0 & Hl & Hn & Hi & Hr). pose proof Hq as (_ & _ & Hq1 & _). unfold Queue.get_used_buf.
  cbv zeta. rewrite Hi, Hu. destruct back as [|e back]; simpl in *.
  - replace t with u by lia. rewrite Z.eqb_refl. exists q, u. split_and!; [done|by rewrite Hu; replace t with u by lia| |by destruct q].
    by replace u with t at 1 by lia.
  - rewrite (proj2 (Z.eqb_neq _ _)) by (apply idx_differ; lia). eexists _, (t + 1). split_and!.
    + rewrite mod_16 by done. rewrite <- (Hr 0%nat e eq_refl), Z.add_0_r. done.
    + simpl. apply Z.add_mod_idemp_l. lia.
    + split_and!; [lia|lia|lia|done|]. intros i x Hx. rewrite <- (Hr (S i) x Hx). cbv zeta.
      by replace (t + Z.of_nat (S i)) with (t + 1 + Z.of_nat i) by lia.
    + done.
Qed.

Lemma act_refines s w e : sides_ok s w → room (num (s_queue s)) w e = true →
  (act s e).1 = (spec_act w e).1 ∧ sides_ok (act s e).2 (spec_act w e).2 ∧ num (s_queue (act s e).2) = num (s_queue s).
Proof.
  intros (Hq & f & n & t & u & Ha & Hu & Ef & Eu & El) Hr. destruct s as [q m sf su], w as [pending back]. simpl in *.
  destruct e as [h| |[i l]|]; cbn [act spec_act room fst snd] in *.
  - rewrite !andb_true_iff in Hr. pose proof Ha as (_ & Hl & _). split_and!; [done| |done]. split; [done|]. exists f, (n + 1), t, u. simpl.
    split_and!; [apply add_side; (done || lia)|by apply add_other|done..].
  - subst sf. destruct (fetch_side _ _ _ _ _ Hq Ha) as (f' & -> & Ha'). simpl. split_and!; [done| |done]. split; [done|].
    by exists f', n, t, u.
  - rewrite !andb_true_iff in Hr. pose proof Hu as (_ & Hl & _). subst su.
    pose proof (publish_other q m f n pending (u mod 2 ^ 16) (i, l) Hq Ha) as A.
    assert (B : used_side q (publish q (u mod 2 ^ 16) (i, l) m).1 t (u + 1) (back ++ [(i, l)]))
      by (apply publish_side; [done|done|cbn [fst]; lia|cbn [snd]; lia|lia]).
    assert (Eu : (publish q (u mod 2 ^ 16) (i, l) m).2 = (u + 1) mod 2 ^ 16) by (apply Z.add_mod_idemp_l; lia).
    split_and!; [done| |done]. split; [done|]. exists f, n, t, (u + 1).
    split_and!; [exact A|exact B|exact Ef|exact Eu|exact El].
  - destruct (poll_side _ _ _ _ _ Hq Hu El) as (q' & t' & -> & El' & Hu' & Eq). simpl. rewrite Eq.
    split_and!; [done| |done]. split; [done|]. exists f, n, t', u. by rewrite <- El'.
Qed.

(** C15. A virtqueue is two bounded queues, whatever the driver and a device that follows the specification do
    and in whatever order, over any wrap-around of the indices: the device takes the descriptors in the order
    they were made available, and the driver the used ones in the order the device returned them. *)
Theorem virtqueue_is_two_queues (s : sides) (w : list Z * list (Z * Z)) (es : list event) :
  sides_ok s w → fits (num (s_queue s)) w es = true → acts s es = spec_acts w es.
Proof.
  revert s w. induction es as [|e es IH]; intros s w Hs Hf; [done|]. simpl in *. apply andb_true_iff in Hf as [Hr Hf].
  destruct (act_refines s w e Hs Hr) as (Ea & Hs' & En). destruct (act s e) as [a s'], (spec_act w e) as [a' w']. simpl in *.
  subst a'. f_equal. apply IH; [done|by rewrite En].
Qed.
Lemma virtqueue_is_two_queues_witness :
  let q := mkQueue 0x1000 0x1040 0x1050 4 0 0 0x1000 1 in
  acts (mkSides q (λ _, x00) 0 0) [Add 0; Add 1; Fetch; Publish (0, 60); Poll; Poll; Fetch; Fetch] =
  [Nothing; Nothing; Head (Some 0); Nothing; Elem (Some (0, 60)); Elem None; Head (Some 1); Head None].
Proof.
  intros q. rewrite (virtqueue_is_two_queues (mkSides q (λ _, x00) 0 0) ([], [])); [reflexivity| |reflexivity].
  split; [unfold queue_ok; simpl; split_and!; [lia|by exists (2 ^ 14)|lia|lia]|].
  exists 0, 0, 0, 0. split; [|split; [|done]]; (split; [lia|]; split; [done|]; split; [simpl; lia|]; split; [reflexivity|]; by intros [|i] ?).
Defined.

(** ** A new queue *)

Lemma read_zeros n m a : (∀ x, a ≤ x < a + Z.of_nat n → m x = x00) → read n m a = 0.
Proof.
  intros Hz. unfold read, get_bytes. rewrite (bytes_of_ext m (λ _, x00)) by done.
  unfold bytes_of. generalize (seqZ a (Z.of_nat n)). intros l. induction l as [|y l IH] using rev_ind; [done|].
  rewrite fmap_app, reverse_app. simpl. unfold be_value in *. simpl. exact IH.
Qed.
Lemma init_descriptors_outside q m x : 0 ≤ num q → ¬ (desc q ≤ x < desc q + 16 * num q) → Queue.init_descriptors q m x = m x.
Proof.
  intros Hn Hx. unfold Queue.init_descriptors, Queue.desc_ptr.
  assert (Hf : ∀ l m, Forall (λ i, 0 ≤ i < num q) l →
    foldl (λ m i, write 2 (desc q + 16 * i + 14) (if i + 1 <? num q then i + 1 else 0) m) m l x = m x).
  { induction l as [|i l IH]; intros m' Hl; [done|]. apply Forall_cons in Hl as [Hi Hl]. cbn [foldl]. rewrite IH by done.
    apply write_outside. lia. }
  apply Hf. apply Forall_forall. intros i Hi%elem_of_seqZ. lia.
Qed.
Lemma pages_of_bound b : 0 ≤ b → b ≤ Queue.pages_of b * 0x1000.
Proof.
  intros Hb. unfold Queue.pages_of. rewrite Z.shiftr_div_pow2 by lia. change (2 ^ 12) with 0x1000.
  pose proof (Z.div_mod (b + 0xFFF) 0x1000). pose proof (Z.mod_pos_bound (b + 0xFFF) 0x1000). lia.
Qed.
Lemma pages_of_nonneg b : 0 ≤ b → 0 ≤ Queue.pages_of b.
Proof. intros Hb. unfold Queue.pages_of. apply Z.shiftr_nonneg. lia. Qed.
(** The areas of a queue lie apart in its pages *)
Definition layout_ok (q : VirtQueue) : Prop :=
  desc q = dma_addr q ∧ desc q + 16 * num q ≤ avail q ∧ avail q + 4 + 2 * num q ≤ used q ∧
  used q + 4 + 8 * num q ≤ dma_addr q + dma_pages q * 0x1000 ∧ avail q mod 2 = dma_addr q mod 2 ∧ used q mod 4 = dma_addr q mod 4.

Section new_queue.
Context {H : Type} (alloc : Z → H → option Z * H).
Lemma finish_ok q q' (d d' : Dma H) :
  0 < num q ≤ 2 ^ 15 → (num q | 2 ^ 16) → layout_ok q → last_used_idx q = 0 →
  Queue.finish q (Pool.write_bytes (dma_addr q) (dma_pages q * 0x1000) d) = (Some q', d') →
  q' = q ∧ sides_ok (mkSides q (mem d') 0 0) ([], []).
Proof.
  intros Hn Hd (L1 & L2 & L3 & L4 & _) Hl [= <- <-]. split; [done|]. simpl.
  assert (Hz : ∀ k a, desc q + 16 * num q ≤ a → a + Z.of_nat k ≤ dma_addr q + dma_pages q * 0x1000 →
    read k (Queue.init_descriptors q (λ x, if (dma_addr q <=? x) && (x <? dma_addr q + dma_pages q * 0x1000) then x00 else mem d x)) a = 0).
  { intros k a Ha Hk. apply read_zeros. intros x Hx. rewrite init_descriptors_outside by lia.
    destruct (Z.leb_spec (dma_addr q) x), (Z.ltb_spec x (dma_addr q + dma_pages q * 0x1000)); (done || lia). }
  split; [unfold queue_ok; simpl s_queue; split_and!; (done || lia)|]. exists 0, 0, 0, 0.
  unfold avail_side, used_side. cbn [s_queue s_mem s_fetched s_published fst snd length].
  split_and!; try (done || lia); try (by intros [|i] ?);
    rewrite Hz by (unfold Queue.avail_idx_ptr, Queue.used_idx_ptr; lia); done.
Qed.
Lemma new_queue_ok n legacy (d d' : Dma H) q :
  0 < n ≤ 2 ^ 15 → (n | 2 ^ 16) → Queue.new alloc n legacy d = (Some q, d') →
  num q = n ∧ layout_ok q ∧ sides_ok (mkSides q (mem d') 0 0) ([], []).
Proof.
  intros Hn Hdv E. unfold Queue.new, Queue.new_legacy, Queue.new_modern in E. cbv zeta in E.
  assert (Hb : 0 ≤ Queue.desc_bytes n ∧ 0 ≤ Queue.avail_bytes n ∧ 0 ≤ Queue.used_bytes n)
    by (unfold Queue.desc_bytes, Queue.avail_bytes, Queue.used_bytes; lia).
  destruct Hb as (B1 & B2 & B3). pose proof (pages_of_bound _ B1). pose proof (pages_of_bound _ B2). pose proof (pages_of_bound _ B3).
  destruct legacy.
  - destruct (Pool.alloc_dma_pages _ _ d) as [[a|] d1]; [|done].
    match type of E with Queue.finish ?q0 _ = _ => set (q1 := q0) in E end. assert (Hlay : layout_ok q1).
    { unfold layout_ok, q1. cbn [desc avail used num dma_addr dma_pages].
      unfold Queue.desc_bytes, Queue.avail_bytes, Queue.used_bytes in *.
      replace (a + _ * 0x1000) with (a + Queue.pages_of (n * 16) * 0x800 * 2) by lia.
      replace (a + (Queue.pages_of (n * 16) + Queue.pages_of (2 * 2 + n * 2)) * 0x1000) with
        (a + (Queue.pages_of (n * 16) + Queue.pages_of (2 * 2 + n * 2)) * 0x400 * 4) by lia.
      rewrite !Z.mod_add by lia. split_and!; (done || lia). }
    destruct (finish_ok q1 q d1 d') as [-> Hs]; [done..|exact E|]. done.
  - set (avail_off := (Queue.desc_bytes n + 1) / 2 * 2) in E. set (used_off := (avail_off + Queue.avail_bytes n + 7) / 8 * 8) in E.
    assert (Ha : avail_off = 16 * n).
    { unfold avail_off, Queue.desc_bytes. replace (n * 16 + 1) with (1 + 8 * n * 2) by lia. rewrite Z.div_add by lia. change (1 / 2) with 0. lia. }
    assert (Hu : avail_off + Queue.avail_bytes n ≤ used_off).
    { unfold used_off. pose proof (Z.div_mod (avail_off + Queue.avail_bytes n + 7) 8).
      pose proof (Z.mod_pos_bound (avail_off + Queue.avail_bytes n + 7) 8). lia. }
    pose proof (pages_of_bound (used_off + Queue.used_bytes n) ltac:(lia)).
    destruct (Pool.alloc_dma_pages _ _ d) as [[a|] d1]; [|done].
    match type of E with Queue.finish ?q0 _ = _ => set (q1 := q0) in E end. assert (Hlay : layout_ok q1).
    { unfold layout_ok, q1. cbn [desc avail used num dma_addr dma_pages]. unfold Queue.avail_bytes, Queue.used_bytes in *.
      rewrite Ha in *. replace (a + 16 * n) with (a + 8 * n * 2) by lia.
      replace (a + used_off) with (a + used_off / 8 * 2 * 4)
        by (unfold used_off; rewrite Z.div_mul by lia; lia).
      rewrite !Z.mod_add by lia.
      assert (used_off / 8 * 2 * 4 = used_off) by (unfold used_off; rewrite Z.div_mul by lia; lia). split_and!; (done || lia). }
    destruct (finish_ok q1 q d1 d') as [-> Hs]; [done..|exact E|]. done.
Qed.
End new_queue.

(** * What the host is handed *)

(** The bytes a device reads from a chain of at most [k] descriptors *)
Fixpoint chain (k : nat) (q : VirtQueue) (m : Z → byte) (idx : Z) : list byte :=
  match k with
  | 0%nat => []
  | S k =>
      let e := Queue.read_desc m (Queue.desc_ptr q idx) in
      get_bytes m (d_addr e) (d_len e) ++ if Z.testbit (d_flags e) 0 then chain k q m (d_next e) else []
  end.
Definition same (a n : Z) (m m' : Z → byte) : Prop := ∀ x, a ≤ x < a + n → m' x = m x.
Definition desc_ok (e : VirtqDesc) : Prop :=
  0 ≤ d_addr e < 2 ^ 64 ∧ 0 ≤ d_len e < 2 ^ 32 ∧ 0 ≤ d_flags e < 2 ^ 16 ∧ 0 ≤ d_next e < 2 ^ 16.

Lemma get_same a n m m' : same a n m m' → get_bytes m' a n = get_bytes m a n.
Proof. intros Hs. by apply bytes_of_ext. Qed.
Lemma read_same a n m m' : same a (Z.of_nat n) m m' → read n m' a = read n m a.
Proof. intros Hs. unfold read. by rewrite (get_same _ _ m). Qed.
Lemma read_desc_same a m m' : same a 16 m m' → Queue.read_desc m' a = Queue.read_desc m a.
Proof. intros Hs. unfold Queue.read_desc. f_equal; apply read_same; intros x Hx; apply Hs; lia. Qed.
Lemma write_desc_outside a e m x : ¬ (a ≤ x < a + 16) → Queue.write_desc a e m x = m x.
Proof. intros Hx. unfold Queue.write_desc. by rewrite !write_outside by lia. Qed.
Lemma read_write_desc a e m : desc_ok e → Queue.read_desc (Queue.write_desc a e m) a = e.
Proof.
  intros (H1 & H2 & H3 & H4). unfold Queue.read_desc, Queue.write_desc.
  rewrite !(read_write_other 8), !(read_write_other 4 2), !(read_write_other 2 2 (a + 12)), !read_write_same by lia.
  rewrite !Z.mod_small by done. by destruct e.
Qed.
Lemma avail_add_outside q h m x : 0 < num q → ¬ (avail q ≤ x < avail q + 4 + 2 * num q) → Queue.avail_add q h m x = m x.
Proof.
  intros Hn Hx. unfold Queue.avail_add. cbv zeta. set (i := _ mod num q). assert (0 ≤ i < num q) by (apply Z.mod_pos_bound; lia).
  unfold Queue.avail_idx_ptr, Queue.avail_ring_ptr. by rewrite !write_outside by lia.
Qed.

(** Two descriptors that follow each other, as both drivers write them, and then the ring *)
Definition two_descs (q : VirtQueue) (d0 d1 b l0 l1 : Z) (m : Z → byte) : Z → byte :=
  Queue.avail_add q d0
    (Queue.write_desc (Queue.desc_ptr q d1) (mkDesc (b + l0) l1 0 0)
      (Queue.write_desc (Queue.desc_ptr q d0) (mkDesc b l0 VIRTQ_DESC_F_NEXT d1) m)).
(** A buffer of a page apart from the descriptors and the ring *)
Definition apart (q : VirtQueue) (b : Z) : Prop :=
  0 < num q < 2 ^ 16 ∧ desc q + 16 * num q ≤ avail q ∧ 0 ≤ b < 2 ^ 63 ∧
  (b + 0x1000 ≤ desc q ∨ avail q + 4 + 2 * num q ≤ b).
Lemma two_descs_chain q d0 d1 b l0 l1 m :
  apart q b → 0 ≤ d0 < num q → 0 ≤ d1 < num q → d0 ≠ d1 → 0 ≤ l0 → 0 ≤ l1 → l0 + l1 ≤ 0x1000 →
  chain 2 q (two_descs q d0 d1 b l0 l1 m) d0 = get_bytes m b (l0 + l1) ∧
  fetch q (read 2 m (Queue.avail_idx_ptr q)) (two_descs q d0 d1 b l0 l1 m) =
    (Some d0, (read 2 m (Queue.avail_idx_ptr q) + 1) mod 2 ^ 16).
Proof.
  intros (Hn & Hl & Hb & Ha) H0 H1 Hne Hl0 Hl1 Hlt. unfold two_descs.
  set (m1 := Queue.write_desc (Queue.desc_ptr q d0) _ m). set (m2 := Queue.write_desc (Queue.desc_ptr q d1) _ m1).
  set (m3 := Queue.avail_add q d0 m2). unfold Queue.desc_ptr in *.
  assert (S3 : ∀ x, ¬ (avail q ≤ x < avail q + 4 + 2 * num q) → m3 x = m2 x) by (intros; apply avail_add_outside; lia).
  assert (D1 : Queue.read_desc m3 (desc q + 16 * d1) = mkDesc (b + l0) l1 0 0).
  { rewrite (read_desc_same _ m2) by (intros x Hx; apply S3; lia). apply read_write_desc. unfold desc_ok. simpl. lia. }
  assert (D0 : Queue.read_desc m3 (desc q + 16 * d0) = mkDesc b l0 VIRTQ_DESC_F_NEXT d1).
  { rewrite (read_desc_same _ m1).
    - apply read_write_desc. unfold desc_ok, VIRTQ_DESC_F_NEXT. simpl. lia.
    - intros x Hx. rewrite S3 by lia. apply write_desc_outside. lia. }
  assert (S : ∀ x, b ≤ x < b + 0x1000 → m3 x = m x).
  { intros x Hx. rewrite S3 by lia. unfold m2, m1. rewrite !write_desc_outside by lia. done. }
  split.
  - cbn [chain]. unfold Queue.desc_ptr. rewrite D0. cbn [d_addr d_len d_flags d_next]. change (Z.testbit VIRTQ_DESC_F_NEXT 0) with true.
    cbv iota. rewrite D1. cbn [d_addr d_len d_flags d_next]. change (Z.testbit 0 0) with false. cbv iota. rewrite app_nil_r.
    rewrite (get_same b l0 m), (get_same (b + l0) l1 m) by (intros x Hx; apply S; lia). unfold get_bytes. by rewrite bytes_of_app.
  - set (i := read 2 m (Queue.avail_idx_ptr q)). pose proof (read_range 2 m (Queue.avail_idx_ptr q)) as Hi. fold i in Hi.
    assert (E : read 2 m2 (Queue.avail_idx_ptr q) = i).
    { unfold m2, m1, i. apply read_same. intros x Hx. unfold Queue.avail_idx_ptr in Hx. rewrite !write_desc_outside by lia. done. }
    unfold fetch, m3, Queue.avail_add. rewrite E. cbv zeta. rewrite read_write_same. change (256 ^ Z.of_nat 2) with (2 ^ 16) in *.
    rewrite Z.mod_mod by lia. assert (i ≠ (i + 1) mod 2 ^ 16).
    { rewrite <- (Z.mod_small i (2 ^ 16)) at 1 by done. apply idx_differ. lia. }
    rewrite (proj2 (Z.eqb_neq _ _)) by done. pose proof (Z.mod_pos_bound i (num q)).
    rewrite read_write_other by (unfold Queue.avail_idx_ptr, Queue.avail_ring_ptr; lia). rewrite read_write_same.
    rewrite (Z.mod_small d0) by (simpl; lia). done.
Qed.
Lemma get_split m a n k : 0 ≤ n → 0 ≤ k → get_bytes m a (n + k) = get_bytes m a n ++ get_bytes m (a + n) k.
Proof. intros. unfold get_bytes. by rewrite bytes_of_app. Qed.

(** A packet of the network is handed over as an empty header and the data. *)
Lemma tx_handed_over n data m :
  apart (tx n) (net_tx_buf n) → Vec.len data ≤ 0x1000 - NET_HDR → 0 < read 2 m (Queue.desc_ptr (tx n) 0 + 14) < num (tx n) →
  chain 2 (tx n) (Net.tx_write data n m) 0 = replicate 10 x00 ++ data ∧
  (fetch (tx n) (read 2 m (Queue.avail_idx_ptr (tx n))) (Net.tx_write data n m)).1 = Some 0.
Proof.
  intros Ha Hl Hd. pose proof (Vec.len_nonneg data). pose proof Ha as (Hn & Hl1 & Hb & Hap). unfold NET_HDR in *.
  unfold Net.tx_write. cbv zeta. set (m1 := put_bytes (net_tx_buf n) _ m). set (m2 := put_bytes _ data m1).
  assert (Hlz : Vec.len (replicate 10 x00) = 10) by done.
  assert (S : ∀ k a, a + k ≤ net_tx_buf n ∨ net_tx_buf n + 0x1000 ≤ a → same a k m m2).
  { intros k a Hk x Hx. unfold m2, m1. rewrite !put_outside by (rewrite ?Hlz; unfold NET_HDR; lia). done. }
  unfold Queue.desc_ptr in *. rewrite Z.mul_0_r, Z.add_0_r in *.
  assert (E1 : read 2 m2 (desc (tx n) + 14) = read 2 m (desc (tx n) + 14)) by (apply read_same, S; lia). rewrite E1.
  set (d1 := read 2 m (desc (tx n) + 14)) in *.
  destruct (two_descs_chain (tx n) 0 d1 (net_tx_buf n) 10 (Vec.len data) m2) as [C F]; [done|lia..|].
  unfold two_descs, Queue.desc_ptr in C, F. rewrite Z.mul_0_r, Z.add_0_r in C, F.
  assert (E2 : read 2 m2 (Queue.avail_idx_ptr (tx n)) = read 2 m (Queue.avail_idx_ptr (tx n)))
    by (apply read_same, S; unfold Queue.avail_idx_ptr; lia). rewrite E2 in F. unfold NET_HDR. split; [|by rewrite F].
  rewrite C, get_split by lia. unfold m2, m1, NET_HDR. rewrite get_put_same, get_put_other by lia.
  f_equal. rewrite <- Hlz at 1. apply get_put_same.
Qed.

(** ** The packets of the socket *)

Definition le (n : nat) (v : Z) : list byte := reverse (be_bytes n v).
(** The 44 bytes the specification has *)
Definition header_bytes (h : VirtioVsockHdr) : list byte :=
  le 8 (src_cid h) ++ le 8 (dst_cid h) ++ le 4 (src_port h) ++ le 4 (dst_port h) ++ le 4 (h_len h) ++ le 2 (ty h) ++
  le 2 (op h) ++ le 4 (h_flags h) ++ le 4 (buf_alloc h) ++ le 4 (fwd_cnt h).
Lemma get_write_same n a v m b k : b = a → k = Z.of_nat n → get_bytes (write n a v m) b k = le n v.
Proof. intros -> ->. unfold write. rewrite <- (le_len n v). apply get_put_same. Qed.
Lemma get_write_other n a v m b k : b + k ≤ a ∨ a + Z.of_nat n ≤ b → get_bytes (write n a v m) b k = get_bytes m b k.
Proof. intros Hd. apply get_put_other. by rewrite le_len. Qed.
Lemma get_hdr a h m : get_bytes (Vsock.write_hdr a h m) a 48 = header_bytes h ++ replicate 4 x00.
Proof.
  change 48 with (8 + (8 + (4 + (4 + (4 + (2 + (2 + (4 + (4 + (4 + 4)))))))))). rewrite !get_split by lia.
  unfold header_bytes. rewrite <- !(assoc_L (++)).
  unfold Vsock.write_hdr. cbv zeta.
  assert (Hz : get_bytes (put_bytes a (replicate 48 x00) m) (a + 44) 4 = replicate 4 x00).
  { unfold get_bytes. rewrite (bytes_of_ext _ (λ _, x00)); [by vm_compute|]. intros x Hx. unfold put_bytes. change (Vec.len (replicate 48 x00)) with 48.
    rewrite (proj2 (Z.leb_le _ _)), (proj2 (Z.ltb_lt _ _)) by lia. cbn [andb].
    change (replicate 48 x00) with (Vec.zeros 48). apply Vec.get_zeros. }
  do 10 (f_equal; [repeat (rewrite get_write_other by lia); apply get_write_same; lia|]).
  repeat (rewrite get_write_other by lia). etrans; [|exact Hz]. f_equal. lia.
Qed.
(** Data sent through the socket: the header is followed by four bytes the specification does not have, so the
    peer takes them for the first bytes of the data and loses the last four. *)
Lemma vsock_payload_shifted v data m q q' m' :
  apart (vtx v) (tx_buf_dma v) → Vec.len data ≤ 4096 - VSOCK_HDR →
  0 ≤ free_desc (vtx v) < num (vtx v) →
  let d1 := read 2 m (Queue.desc_ptr (vtx v) (free_desc (vtx v)) + 14) in
  0 ≤ d1 < num (vtx v) → d1 ≠ free_desc (vtx v) →
  Vsock.send_write data v m = (Some q, q', m') →
  chain 2 (vtx v) m' (free_desc (vtx v)) =
  header_bytes (Vsock.hdr_of v (Vec.len data) VSOCK_OP_RW) ++ replicate 4 x00 ++ data.
Proof.
  intros Ha Hl Hf d1 Hd1 Hne E. pose proof (Vec.len_nonneg data). pose proof Ha as (Hn & Hl1 & Hb & Hap). unfold VSOCK_HDR in *.
  set (h := Vsock.hdr_of v (Vec.len data) VSOCK_OP_RW) in *. unfold Vsock.send_write in E. cbv zeta in E. fold h in E.
  set (m1 := Vsock.write_hdr _ h m) in E. set (m2 := put_bytes (_ + VSOCK_HDR) data m1) in E.
  assert (S : ∀ k a, a + k ≤ tx_buf_dma v ∨ tx_buf_dma v + 0x1000 ≤ a → same a k m m2).
  { intros k a Hk x Hx. unfold m2. rewrite put_outside by (unfold VSOCK_HDR; lia). unfold m1, Vsock.write_hdr. cbv zeta.
    rewrite !write_outside by lia. apply put_outside. change (Vec.len (replicate 48 x00)) with 48. lia. }
  unfold Vsock.alloc_desc_head in E at 1. cbv zeta in E.
  assert (E1 : read 2 m2 (Queue.desc_ptr (vtx v) (free_desc (vtx v)) + 14) = d1)
    by (apply read_same, S; unfold Queue.desc_ptr; lia). rewrite E1 in E.
  destruct ((d1 =? 0) && negb (free_desc (vtx v) =? 0)); [done|].
  unfold Vsock.alloc_desc_head in E. cbv zeta in E. cbn [free_desc desc] in E. destruct (_ && _); [done|]. injection E as _ _ <-.
  destruct (two_descs_chain (vtx v) (free_desc (vtx v)) d1 (tx_buf_dma v) 48 (Vec.len data) m2) as [C _]; [done|lia..|].
  etrans; [exact C|]. rewrite get_split by lia. unfold m2 at 2, VSOCK_HDR. rewrite get_put_same, (assoc_L (++)). f_equal.
  unfold m2. rewrite get_put_other by (unfold VSOCK_HDR; lia). apply get_hdr.
Qed.

(** ** Descriptors of the socket are not given back *)

(** The descriptors from [k] on as a new queue has them *)
Definition free_from (k : Z) (q : VirtQueue) (m : Z → byte) : Prop :=
  ∀ i, k ≤ i < num q → read 2 m (Queue.desc_ptr q i + 14) = if i + 1 <? num q then i + 1 else 0.
Fixpoint take_heads (k : nat) (q : VirtQueue) (m : Z → byte) : list (option Z) :=
  match k with
  | 0%nat => []
  | S k => let '(r, q) := Vsock.alloc_desc_head q m in r :: take_heads k q m
  end.
Lemma last_head_refused q m : 2 ≤ num q → free_desc q = num q - 1 → free_from (num q - 1) q m →
  Vsock.alloc_desc_head q m = (None, q).
Proof.
  intros Hn Hf Hm. unfold Vsock.alloc_desc_head. cbv zeta. rewrite Hf, Hm by lia.
  rewrite (proj2 (Z.ltb_ge _ _)) by lia. simpl. by rewrite (proj2 (Z.eqb_neq _ _)) by lia.
Qed.
(** A queue of [n] descriptors gives [n - 1] of them out and after that none: the last one ends the list as an
    empty list does. *)
Lemma vsock_heads q m (k : nat) j : 2 ≤ num q → 0 ≤ free_desc q → free_desc q + Z.of_nat k = num q - 1 → free_from (free_desc q) q m →
  take_heads (k + j) q m = map (λ i, Some (free_desc q + Z.of_nat i)) (seq 0 k) ++ replicate j None.
Proof.
  revert q. induction k as [|k IH]; intros q Hn H0 Hk Hm.
  { simpl. induction j as [|j IHj]; [done|]. simpl. rewrite last_head_refused; [by rewrite IHj|done|lia|].
    intros i Hi. apply Hm. lia. }
  assert (E : read 2 m (Queue.desc_ptr q (free_desc q) + 14) = free_desc q + 1)
    by (rewrite Hm by lia; by rewrite (proj2 (Z.ltb_lt _ _)) by lia).
  simpl take_heads. unfold Vsock.alloc_desc_head. cbv zeta. rewrite !E.
  rewrite (proj2 (Z.eqb_neq (free_desc q + 1) 0)) by lia. cbn [andb]. cbv iota. rewrite IH; cbn [num free_desc]; [|lia|lia|lia|intros i Hi; cbn [num] in *; apply Hm; lia].
  simpl. rewrite Z.add_0_r. f_equal. f_equal. rewrite <- seq_shift, map_map. apply map_ext. intros i. f_equal. lia.
Qed.
(** Then the VM cannot offer the host a buffer any more, whatever it receives after that. *)
Lemma vsock_stops v m : rx_desc_idx v = 0 → 2 ≤ num (vrx v) → free_desc (vrx v) = num (vrx v) - 1 → free_from (num (vrx v) - 1) (vrx v) m →
  Vsock.submit_rx_buf v m = (v, m).
Proof. intros H0 Hn Hf Hm. unfold Vsock.submit_rx_buf. rewrite H0, Z.eqb_refl. by rewrite last_head_refused. Qed.

(** ** Lengths the host chooses *)

(** The length of a received packet is the host's: a length of zero becomes a slice of almost all addresses. *)
Lemma host_chooses_length n m idx buf :
  last_used_idx (rx n) ≠ read 2 m (Queue.used_idx_ptr (rx n)) →
  let e := Queue.used_ring_ptr (rx n) + 8 * (last_used_idx (rx n) mod num (rx n)) in
  read 4 m e = idx → read 4 m (e + 4) = 0 → rx_bufs n !! Z.to_nat (idx mod 2 ^ 16) = Some (Some buf) →
  ∃ v', Net.receive (mkDevice n None) m = Some (Some (rx_dma buf + NET_HDR, 2 ^ 64 - NET_HDR), v').
Proof.
  intros Hu e Hi Hl Hb. unfold Net.receive, Queue.get_used_buf. cbn [inner]. cbv zeta. rewrite (proj2 (Z.eqb_neq _ _)) by done.
  fold e. rewrite Hi, Hl. cbn [rx_bufs]. rewrite Hb. eexists. reflexivity.
Qed.
(** A descriptor number the driver has no buffer for stops the VM. *)
Lemma host_stops_vm n m :
  last_used_idx (rx n) ≠ read 2 m (Queue.used_idx_ptr (rx n)) → length (rx_bufs n) = Z.to_nat NET_QUEUE_SIZE →
  NET_QUEUE_SIZE ≤ read 4 m (Queue.used_ring_ptr (rx n) + 8 * (last_used_idx (rx n) mod num (rx n))) mod 2 ^ 16 →
  Net.receive (mkDevice n None) m = None.
Proof.
  intros Hu Hlen Hi. unfold Net.receive, Queue.get_used_buf. cbn [inner]. cbv zeta. rewrite (proj2 (Z.eqb_neq _ _)) by done.
  cbn [rx_bufs]. rewrite lookup_ge_None_2; [done|]. rewrite Hlen. lia.
Qed.
(** A socket packet said to be shorter than its header has the length of its header field, whatever that is. *)
Lemma host_chooses_payload host v m v1 m1 len :
  connected v = true → Vsock.submit_rx_buf v m = (v1, m1) →
  (Queue.get_used_buf (vrx v1) (host m1)).1 = Some (0, len) → 0 ≤ len < VSOCK_HDR →
  read 2 (host m1) (rx_buf_dma v1 + 30) = VSOCK_OP_RW → read 4 (host m1) (rx_buf_dma v1 + 24) ≤ 2 ^ 32 - VSOCK_HDR →
  ∃ v', Vsock.recv host v m = (Some (rx_buf_dma v1 + VSOCK_HDR, read 4 (host m1) (rx_buf_dma v1 + 24),
    read 4 (host m1) (rx_buf_dma v1 + 16)), v', host m1).
Proof.
  intros Hc E Hu Hl Ho Hn. unfold Vsock.recv, Vsock.get_used_buf. rewrite Hc, E. cbn [negb].
  destruct (Queue.get_used_buf (vrx v1) (host m1)) as [r q] eqn:Eq. cbn [fst] in Hu. subst r. cbv zeta. cbn [Vsock.set_queues rx_buf_dma].
  rewrite Ho, Z.eqb_refl. eexists. repeat f_equal. unfold VSOCK_HDR in *. rewrite Z.min_l; [done|].
  unfold Int.u32. rewrite <- (Z.mod_add (len - 48) 1) by lia. rewrite Z.mod_small by lia. lia.
Qed.
